(* ===== verification/_CoqProject ===== *)
-Q . S2P
Prelude.v
Json.v
Lifecycle.v
Outbox.v
Circuit.v
Dispatch.v
DispatchSpec.v
OutboxTable.v
Tenancy.v
Events.v
ReadModel.v
Projections.v
KeyCeremony.v
NameLane.v
CACert.v
LibCA.v
CAHierarchy.v
CAIssuance.v
CACeremonySpec.v
Orchestrator.v
OrchestratorSpec.v
Idempotency.v
Approval.v
Authz.v
AuditTrail.v
AuditSpec.v
Ttlv.v
TtlvSpec.v
Kmip.v
KmipSpec.v
KmipWire.v
Base64.v
AcmeJose.v
AcmeState.v
AcmeParse.v
AcmeServer.v
AcmeSpec.v
AcmeRun.v
AcmeProps.v
AcmeDemo.v
NetSec.v
AcmeValidation.v
Dns01Spec.v
AcmeControl.v
SealVault.v
DynSecret.v
DynSecretSpec.v
Transit.v
SecretStore.v
SecretStoreSpec.v
SecretAccess.v
ShareLinks.v
Graph.v
GraphSpec.v
GraphBuild.v
GraphBuildSpec.v
Rotation.v
RotationSpec.v
BreakGlass.v
BreakGlassSpec.v
Bulkhead.v
Profile.v
Issuance.v
IssuanceSpec.v
