(* ===== verification/Prelude.v ===== *)
(** * trstctl: a verification library of the control-plane core

    trstctl is a multi-tenant control plane for machine identities.  Every
    mutation is an event in a log; a projector derives the relational read model
    from the log; an identity moves through a lifecycle; and the external effects
    of a transition (issue, deploy, revoke) leave through a transactional outbox.
    This library models that core from the Go sources under [src/] and proves what
    makes it correct.

    ** How the parts interact

    A caller asks the orchestrator for a transition.  The orchestrator reads the
    status of the identity, checks the edge against the lifecycle table, appends
    the event to the log, and then, in one database transaction, has the projector
    apply the event and enqueues the side effect.  Workers claim outbox rows, call
    the handler and finalize; a circuit breaker per tenant and destination holds
    calls back; a sweep removes delivered rows.  At boot the projector catches up
    from its checkpoint and the orchestrator enqueues what a crash has lost.  The
    audit service reads the same log, hash-links it, exports signed bundles and
    archives and prunes old events.  Mutations run under idempotency keys, RBAC
    decides who may ask, and dual control guards issuance.  The keys of certificate
    authorities are made and used under key ceremonies that are events too, and a
    KMIP server hands symmetric keys to clients over its own wire format.

    Leaf certificates are asked for in three ways.  The ACME server keeps accounts,
    orders and challenges in memory and in the event log, proves control of a domain
    over the network before it asks the CA, and reaches the network through the dial
    guard.  A request may name a profile, which is checked before an external
    authority is called, directly or through the outbox, under an idempotency key.  In
    an emergency a quorum of operators signs offline, and the bundles are reconciled
    into the audit log later.

    Secrets are sealed under a wrapped key; the vault, the versioned secret store and
    the transit keys are built on that container.  Dynamic credentials have leases and
    a queue of revocations, static ones are rotated in two phases, and a credential
    graph built from the inventory answers what a compromise would reach.  Bulkheads
    bound how much of each kind of work runs.

    ** The files

    - [Prelude]: results, the hint databases [trst] and [trst_rw], case-analysis
      tactics, the state and error monad [SE], and the string functions of Go that
      the code uses ([GoStrings]).
    - [Json]: documents, Go structs as lists of tagged fields, decoding and
      encoding with [omitempty], and their round trip.
    - [Lifecycle]: [src/internal/orchestrator/lifecycle.go]; the states, the
      transition and side-effect tables, and the lifecycle as a step relation that
      the tables are proved to decide.
    - [Outbox], [Circuit], [Dispatch], [DispatchSpec]:
      [src/internal/orchestrator/outbox.go] and [src/internal/outboxgc/outboxgc.go];
      the table as a list of rows, enqueueing, backoff and sweep; the circuit
      breaker; claiming, delivering and finalizing with a schedule of database
      faults and clock readings, and the dispatch loop; and the theorems about
      them.
    - [OutboxTable]: the table under all of its writers: the above, with the
      producers on transactions that commit later or not at all, the queues of
      [src/internal/server/secrets.go], the requeue of
      [src/internal/store/notification_inbox.go] and the offboarding of a tenant.
    - [Tenancy]: [src/internal/tenancy/tenancy.go]; where a tenant's data goes.
    - [Events]: [src/internal/events/events.go]; the log over a stream that is a
      class ([EventStream], laws [EventStreamLaws], instance [ListStream]).
    - [ReadModel]: [src/internal/store/projection.go], [offboard.go], [snapshot.go];
      the registries of tables, truncation with its cascade, erasure of a tenant,
      snapshots.
    - [Projections]: [src/internal/projections/projections.go] with
      [src/internal/store/identity.go] and [projection_checkpoint.go]; the schema
      gate, the dispatch of events, projection, catch-up and rebuild, over the
      tables of tenants, identities and transitions; the other tables are a class
      ([OtherTables]) whose answer to an event depends on what they hold.
    - [Orchestrator], [OrchestratorSpec]: [src/internal/orchestrator/orchestrator.go]
      with [response_integrations.go] and [itsm.go]; transitions, reconciliation,
      state and history; and the theorems.
    - [Idempotency]: [src/internal/orchestrator/idempotency.go],
      [src/internal/idem/idem.go] and [src/internal/idemgc/idemgc.go], two
      implementations of one class [TwoPhase].
    - [Approval]: [src/internal/approval/approval.go]; dual control over a store
      that is a class, with [MemoryStore] its instance.
    - [Authz]: [src/internal/authz/authz.go]; permissions, roles, scopes and the
      decision.
    - [AuditTrail], [AuditSpec]: [src/internal/audit/chain.go], [audit.go] and
      [retention.go] with [src/internal/store/audit_checkpoint.go]; the hash chain,
      search, bundles and retention; and the theorems.
    - [KeyCeremony]: [src/internal/store/ca.go] and the CA events of
      [projections.go]; authorities, ceremonies and approvals as tables.
    - [NameLane]: the SAN policy of [src/internal/crypto/leafca.go] and the lanes of
      CAs ([src/internal/server/ca_hierarchy.go], [src/internal/crypto/ca/hierarchy.go],
      [src/internal/server/profile_binding.go]).
    - [CACert], [LibCA]: [src/internal/crypto/hierarchy_ca.go] with [eku.go] and the
      leaf signer, and [src/internal/crypto/ca/hierarchy.go]; certificates over the
      class [X509] with its laws.
    - [CAHierarchy]: [src/internal/server/ca_hierarchy.go]; the handlers over the
      tables, the log and the class [CryptoOps], which [CAIssuance] instantiates
      with [CACert]; [CAIssuance] and [CACeremonySpec] hold the theorems.
    - [Ttlv], [TtlvSpec], [Kmip], [KmipSpec], [KmipWire]: [src/ee/kmip/ttlv.go],
      [wire.go], [kmip.go] and [runtime.go]; the wire format and its grammar, the
      managed objects and the request handlers, and the theorems.
    - [Base64], [AcmeJose], [AcmeState], [AcmeParse], [AcmeServer]: the ACME server,
      [src/internal/protocols/acme/acme.go], [state.go] and [parse.go] with
      [src/internal/crypto/jose/]: signed messages, records and events, payloads,
      and every handler cut where it releases the mutex or calls out.  [AcmeSpec],
      [AcmeRun], [AcmeProps] and [AcmeDemo] hold its invariant, its runs, the
      theorems and a concrete run.
    - [NetSec]: [src/internal/netsec/ssrf.go]; the dial guard.
    - [AcmeValidation], [Dns01Spec], [AcmeControl]: the validators, the DNS-01
      solver with its wrappers, and CAA, of [src/internal/protocols/acme/]; the
      contract [Conforming] of a DNS provider; and what links a proof of control to
      a certificate.
    - [SealVault], [Transit]: [src/internal/crypto/seal/seal.go],
      [src/internal/secrets/vault.go] and [src/internal/transit/transit.go] over the
      class [AEAD].
    - [SecretStore], [SecretStoreSpec], [SecretAccess], [ShareLinks]:
      [src/internal/secretstore/] and [src/internal/secretshare/secretshare.go]; the
      store, the history of values it refines, environments and the handler, links.
    - [DynSecret], [DynSecretSpec]: [src/internal/dynsecret/dynsecret.go] and
      [src/internal/leaseworker/leaseworker.go]; leases over the classes of the
      queue and of the backends.
    - [Rotation], [RotationSpec]: [src/internal/rotation/]; two-phase rotation.
    - [Graph], [GraphSpec], [GraphBuild], [GraphBuildSpec]: [src/internal/graph/];
      the graph and its search, and its construction from the inventory.
    - [BreakGlass], [BreakGlassSpec]: [src/internal/breakglass/].
    - [Bulkhead]: [src/internal/bulkhead/].
    - [Profile]: [src/internal/profile/profile.go] and
      [src/internal/crypto/classify.go].
    - [Issuance], [IssuanceSpec]: [src/internal/ca/issuance.go] with the gate of
      [src/internal/server/issuance.go] and the issuing call of
      [src/internal/server/external_ca.go], over [Outbox], [Idempotency] and [Profile].

    ** How code becomes definitions

    A Go method on a struct with state is a function from the state to a result
    and the state after it; [(T, error)] is [result E T].  Where the code reads in
    one step and writes in a later one without a lock (transitions, approvals,
    idempotent operations), the definition is the composition of the two halves,
    so that theorems can interleave other callers between them.  Database and
    broker faults, crashes, clocks and generated ids are arguments.  Integers are
    [Z]: sequences, counts and times in the modelled code stay far from the bounds
    of their 64-bit types; where they may not (durations of a CA spec, lengths and
    tags of the wire format) the wrap-around or truncation is written out.  Tables are lists of rows when order or duplicates
    matter and [gmap]s when they do not.  Code outside [src/], and the wrappers of
    cryptographic primitives, are parameters; [crypto/x509] is a class with the
    laws its documentation gives, and what a call draws from the process (clocks,
    serials, answers of the signer) is an argument of it.

    ** What the theorems show

    The first names of a group are its main properties; those after "as lemmas"
    support or complete them.

    - Effects: a transition's side effect is in the outbox exactly once, crash or
      not ([effect_exactly_once]); under any interleaving of the writers of the table
      no row is lost, and a key is doubled only by plain inserts and by conditional
      ones beside an open transaction ([outbox_no_loss]); a row is
      delivered only when the handler accepted it ([Dispatch_delivers]); the loop
      ends ([Dispatch_terminates]) with nothing left but rows that wait for a named
      reason ([Dispatch_drains]).  As lemmas: claims are fair and within the caps
      ([claimOne_fair]), the circuit counts consecutive failures
      ([circuit_counts_streak]).
    - Lifecycle: transitions follow the table and keep status, history and state
      in agreement ([transition_sound], [identity_follows_lifecycle]);
      reconciliation adds exactly what is missing ([ReconcileOutbox_heals]).
    - Read model: a rebuild leaves what the log declares ([Rebuild_declares]) and
      catch-up converges to it, or stops at an event that the tables reject
      ([ProjectCatchUp_converges]).  As lemmas: offboarding erases
      ([OffboardTenant_erases]), snapshots restore ([snapshot_restore]), routing
      fails closed ([routing_fails_closed]).
    - Requests: one effect per key ([one_effect_per_key]); dual control under
      interleaving ([dual_control]).  As lemmas: [Do_spec], and the authorization
      decision ([Can_decides]).
    - Audit: two lists of records with one head are the same, or two inputs with one
      hash are computed from them ([tamper_evident]); retention keeps the
      survivors' chain ([retention_keeps_chain]) and, as a lemma, prunes only what
      is archived ([archive_before_prune]).
    - Certificate authorities: no CA key without the quorum of its ceremony, in
      every interleaving ([ca_keys_need_quorum]), because the service refines the
      abstract ceremony ([served_refines_ceremonies]); a leaf stays in the lane of
      its CA ([issued_leaf_in_lane]).  As lemmas: the policy is the documented one
      ([enforceLeafProfile_decides]), depth and validity are bounded by the root
      ([hierarchy_depth_bounded]), what a cross-certificate inherits
      ([cross_sign_clamps]).
    - Issuance: what violates its profile is never signed, directly or through the
      outbox ([violating_never_signed]); one call of the authority per key through the outbox
      ([external_issue_once]); what a profile admits the signer signs
      ([admitted_is_signed]).  As lemmas: the exact decision of the gate, which
      lets a missing profile pass ([enforceProfile_decides]),
      [profile_Validate_decides], [served_gate_shut].
    - ACME: replaying the log gives the serving state ([acme_replay_refines]), whose
      maps are well formed ([acme_view_typed]); nonces are accepted once
      ([acme_nonce_once]) and handlers run on authentic requests
      ([acme_handlers_authenticated]); certificates are requested, in public-trust
      mode, only for names whose control was shown on the network for the key of an
      account ([issuance_requires_control]); the
      solver shows control and takes it back ([solver_proves_control]).  As lemmas:
      [acme_issuance_validated], [acme_nonces_bounded], [CAA_check_decides],
      [retry_schedule].
    - Network: the dial guard against the documented ranges ([dial_guard_decides]).
    - Secrets: what a container opens to ([seal_Open_decides]); the store refines a
      history of values ([store_refines]) and its log projects to it
      ([Reconstruct_projects]); transit round trips ([transit_roundtrip]); no live
      dynamic credential without someone to revoke it but those that a refusal of
      the queue or a restart is on record for ([credentials_covered]), and expired
      ones end ([tick_ends_expired]); rotation never breaks its consumer
      ([Rotate_never_breaks]).  As lemmas: [vault_binds], [Resolve_decides],
      [access_authorized], [share_once].
    - Emergency: reconciled issuances had a quorum, whatever else the escrow key has
      signed ([reconciled_were_quorate]); the
      lockout bounds sequential guesses ([lockout_bounds_guesses]).  As lemmas:
      [Quorum_Verify_decides], [IssueOffline_verifies].
    - Graph: the blast radius of the built graph is reachability along the relations
      of the inventory ([Build_blast_radius]), over the lemmas
      [Reachable_decides], [BlastRadius_groups] and [execCypher_matches].
    - Bulkheads: a pool stays within its bounds and accounts for every task
      ([pool_accounts]); closing drains it ([Close_drains]).  As lemmas:
      [pools_isolated], [Set_Close_refuses].
    - KMIP: the parser decides its grammar ([ParseTTLV_decides]).  As lemmas: every
      frame of a connection is answered ([handleConn_answers]), retired keys stay
      retired ([retired_keys_stay_retired]).
    - Limits that the code has, all as lemmas: [half_open_stranded],
      [rebuild_erase_residue], [concurrent_transition_overrides],
      [concurrent_approvals_issue_twice], [VerifyChain_accepts_any_log],
      [retention_breaks_rebuild], [rebuild_reopens_ceremony],
      [late_approval_blocks_catchup], [disjoint_lanes_unconstrained],
      [swept_effect_redelivered], [overlapping_inserts_duplicate], [TruncateReadModel_cascade],
      [lost_commit_runs_twice], [failed_issue_not_retried],
      [finalize_any_account], [finalize_without_account_wedges],
      [reopened_order_issues_again], [early_renewal_poisons_replay],
      [CAA_critical_ignored], [CAA_iodef_refused], [revocation_lost],
      [vault_blob_moves], [body_cut], [rollback_unrecorded],
      [refused_restore_breaks_consumer], [interleaved_rotations_leak],
      [concurrent_guesses_unbounded], [reconcile_any_tenant],
      [exact_label_admits_nobody], [huge_lifetime_passes].

    ** Fuel

    The dispatch loop has twice the attempts its backlog may still consume, plus
    two, which [Dispatch_terminates] proves sufficient.  The KMIP parser has its
    depth limit as fuel for nested structures and the number of bytes for the loop
    over children; [ParseTTLV_decides] shows that neither runs out.  The loops over
    PEM blocks have the length of the input, and more changes nothing
    ([chain_loop_fuel], [single_loop_fuel]).  An ACME request has three sections at
    most ([serve_loop_fuel]).  The wait for a DNS record has one step per interval of
    its timeout and three more ([wait_loop_fuel]).  References between secrets have
    the depth limit of the code, seventeen.  The search of the graph has one step
    more than there are nodes ([Reachable_decides]), the paged reads one more than
    there are rows ([all_pages_beyond]).  The replay loop runs over the sequences up
    to the head of the stream; every other recursion is structural.

    ** Not modelled

    - The HTTP API and its OpenAPI text, configuration, the wiring of the server and
      its background loops, CLI, operator, agents and discovery, backup: glue around
      the modelled components, or file and network I/O.
    - The domain commands of the orchestrator and the relational repositories
      behind them: appending an event and running one statement each.  The
      projections of tables other than identities, their transitions, tenants and CA
      ceremonies are a class in [Projections]: any state, and any answer that depends on it.
    - Connectors, DNS providers, notifiers and secret destinations: HTTP clients of
      external systems, for which the model has arbitrary functions or contracts.
    - The crypto primitives and remote key managers (parameters or classes), and
      the live DNS resolver.
    - The text of graph queries (regular expressions of the standard library),
      risk scores and the rate limiter of orders (floating point), the dotenv
      format, the stored form of a profile with its duration text.
    - The in-process manager over [LibCA], which repeats the ceremonies of
      [CAHierarchy]; the other enrollment protocols; the PKI secret engine;
      certificate projections and revocation lists; the Rego policy engine, which is
      third-party code; the enterprise features besides KMIP. *)

From Stdlib Require Export ZArith Ascii String Lia Bool.
From stdpp Require Export base tactics option list strings gmap sets.
From stdpp Require Import pretty.

(** ** Results

    A Go function that returns [(T, error)] is a function into
    [result E T]: [Err] carries the error value, [Ok] the payload of the
    nil-error return. *)
Inductive result (E A : Type) : Type :=
| Ok (a : A)
| Err (e : E).
Arguments Ok {E A} a.
Arguments Err {E A} e.

#[global] Instance result_eq_dec {E A} `{EqDecision E, EqDecision A} :
  EqDecision (result E A).
Proof. solve_decision. Defined.

Definition res_bind {E A B} (r : result E A) (f : A -> result E B) : result E B :=
  match r with
  | Ok a => f a
  | Err e => Err e
  end.

Definition is_ok {E A} (r : result E A) : bool :=
  match r with
  | Ok _ => true
  | Err _ => false
  end.

Declare Scope trst_scope.
Delimit Scope trst_scope with trst.
Notation "'let?' x ':=' r 'in' k" := (res_bind r (fun x => k))
  (at level 10, x pattern, r at level 100, k at level 200) : trst_scope.
Open Scope trst_scope.

(** The hint database of the development: list, option and map facts that
    close the routine side goals of the components. *)
Create HintDb trst discriminated.
Create Rewrite HintDb trst_rw.

(** Case analysis on the scrutinee of a [match] or [if] of the goal, or of a
    named hypothesis, keeping the equation. *)
Ltac case_goal :=
  match goal with
  | |- context [match ?x with _ => _ end] => let H := fresh "Heq" in destruct x eqn:H
  end.

Ltac case_in H :=
  match type of H with
  | context [match ?x with _ => _ end] => let E := fresh "Heq" in destruct x eqn:E
  end.

(** Split a hypothesis [f x = Ok y] (or any equation over a cascade of guards)
    into its surviving branches. *)
Ltac branches H := repeat (case_in H; try discriminate H; simplify_eq/=).

(** ** State and errors

    A Go method that may fail and changes shared state is a function from the
    state to a result and the state after it; an error keeps the changes made
    before it. *)
Module SE.

Definition M (S E A : Type) : Type := S -> result E A * S.

Definition ret {S E A} (a : A) : M S E A := fun s => (Ok a, s).
Definition fail {S E A} (e : E) : M S E A := fun s => (Err e, s).
Definition lift {S E A} (r : result E A) : M S E A := fun s => (r, s).
Definition bind {S E A B} (m : M S E A) (k : A -> M S E B) : M S E B :=
  fun s => match m s with
           | (Ok a, s') => k a s'
           | (Err e, s') => (Err e, s')
           end.

Notation "'let!' x ':=' m 'in' k" := (bind m (fun x => k))
  (at level 10, x pattern, m at level 100, k at level 200) : trst_scope.

(** A computation succeeds when its parts do, in order. *)
Lemma bind_Ok {S E A B} (m : M S E A) (k : A -> M S E B) s b s' :
  bind m k s = (Ok b, s') <-> exists a s1, m s = (Ok a, s1) /\ k a s1 = (Ok b, s').
Proof.
  unfold bind. destruct (m s) as [[a|e] s1]; split; try done.
  - intros H. by exists a, s1.
  - by intros (a' & s1' & [= <- <-] & H).
  - by intros (a' & s1' & ? & H).
Qed.

End SE.

(** ** Go strings: bytes, with [strings.TrimSpace] as the standard library
    defines it on the UTF-8 encodings of the Unicode white space. *)
Module GoStrings.

(** ASCII white space: [\t \n \v \f \r] and the blank. *)
Definition ascii_space (c : ascii) : bool :=
  let n := nat_of_ascii c in
  ((9 <=? n) && (n <=? 13))%nat || (n =? 32)%nat.

(** U+0085 and U+00A0. *)
Definition space2 (a b : ascii) : bool :=
  let x := nat_of_ascii a in
  let y := nat_of_ascii b in
  ((x =? 194) && ((y =? 133) || (y =? 160)))%nat.

(** U+1680, U+2000..U+200A, U+2028, U+2029, U+202F, U+205F and U+3000. *)
Definition space3 (a b c : ascii) : bool :=
  let x := nat_of_ascii a in
  let y := nat_of_ascii b in
  let z := nat_of_ascii c in
  ((x =? 225) && (y =? 154) && (z =? 128))%nat
  || ((x =? 226) && (y =? 128) && (((128 <=? z) && (z <=? 138)) || (z =? 168) || (z =? 169) || (z =? 175)))%nat
  || ((x =? 226) && (y =? 129) && (z =? 159))%nat
  || ((x =? 227) && (y =? 128) && (z =? 128))%nat.

(** Drop the leading encoded spaces of a byte sequence; [r] says that the
    sequence is read backwards, so that an encoding is seen reversed. *)
Fixpoint drop_spaces (r : bool) (l : list ascii) : list ascii :=
  match l with
  | [] => []
  | a :: l1 =>
      if ascii_space a then drop_spaces r l1 else
      match l1 with
      | [] => l
      | b :: l2 =>
          if (if r then space2 b a else space2 a b) then drop_spaces r l2 else
          match l2 with
          | [] => l
          | c :: l3 =>
              if (if r then space3 c b a else space3 a b c) then drop_spaces r l3 else l
          end
      end
  end.

Definition trim_list (l : list ascii) : list ascii :=
  rev (drop_spaces true (rev (drop_spaces false l))).

Definition TrimSpace (s : string) : string :=
  string_of_list_ascii (trim_list (list_ascii_of_string s)).

(** [strings.ToLower]: byte by byte when the string is ASCII; [unicode] is what
    it does otherwise, with the Unicode tables. *)
Definition to_lower_ascii (c : ascii) : ascii :=
  let n := nat_of_ascii c in
  if ((65 <=? n) && (n <=? 90))%nat then ascii_of_nat (n + 32) else c.

Definition is_ascii (s : string) : bool :=
  forallb (fun c => (nat_of_ascii c <? 128)%nat) (list_ascii_of_string s).

Definition ToLower (unicode : string -> string) (s : string) : string :=
  if is_ascii s then string_of_list_ascii (map to_lower_ascii (list_ascii_of_string s)) else unicode s.

(** [strings.HasPrefix], [HasSuffix], [TrimPrefix] and [TrimSuffix]. *)
Fixpoint strip_prefix (p l : list ascii) : option (list ascii) :=
  match p, l with
  | [], _ => Some l
  | a :: p', b :: l' => if Ascii.eqb a b then strip_prefix p' l' else None
  | _ :: _, [] => None
  end.

Definition strip_suffix (p l : list ascii) : option (list ascii) :=
  match strip_prefix (rev p) (rev l) with
  | Some r => Some (rev r)
  | None => None
  end.

Definition HasPrefix (s p : string) : bool :=
  bool_decide (is_Some (strip_prefix (list_ascii_of_string p) (list_ascii_of_string s))).

Definition HasSuffix (s p : string) : bool :=
  bool_decide (is_Some (strip_suffix (list_ascii_of_string p) (list_ascii_of_string s))).

Definition TrimPrefix (s p : string) : string :=
  match strip_prefix (list_ascii_of_string p) (list_ascii_of_string s) with
  | Some r => string_of_list_ascii r
  | None => s
  end.

Definition TrimSuffix (s p : string) : string :=
  match strip_suffix (list_ascii_of_string p) (list_ascii_of_string s) with
  | Some r => string_of_list_ascii r
  | None => s
  end.

Lemma strip_prefix_Some p l r : strip_prefix p l = Some r <-> l = p ++ r.
Proof.
  revert l. induction p as [|a p IH]; intros l; simpl.
  - split; [by intros [= ->]|by intros ->].
  - destruct l as [|b l]; [done|]. destruct (Ascii.eqb_spec a b) as [->|Hne].
    + split; [by intros ->%IH|]. intros [= ->]. by apply IH.
    + split; [done|]. by intros [= -> _].
Qed.

Lemma strip_suffix_Some p l r : strip_suffix p l = Some r <-> l = r ++ p.
Proof.
  unfold strip_suffix. destruct (strip_prefix (rev p) (rev l)) as [q|] eqn:E.
  - apply strip_prefix_Some in E. apply (f_equal (@rev ascii)) in E.
    rewrite rev_involutive, rev_app_distr, rev_involutive in E. rewrite E. split; [by intros [= ->]|].
    intros H. f_equal. by apply app_inv_tail in H.
  - split; [done|]. intros ->. rewrite rev_app_distr in E.
    assert (strip_prefix (rev p) (rev p ++ rev r) = Some (rev r)) by (by apply strip_prefix_Some). congruence.
Qed.

(** A string ends in another one exactly when it is that one after some
    prefix. *)
Lemma HasSuffix_spec s p :
  HasSuffix s p = true <-> exists q, list_ascii_of_string s = q ++ list_ascii_of_string p.
Proof.
  unfold HasSuffix. rewrite bool_decide_eq_true. unfold is_Some.
  by setoid_rewrite strip_suffix_Some.
Qed.

(** [drop_spaces] leaves a sequence that starts with no space. *)
Lemma drop_spaces_idem r l : drop_spaces r (drop_spaces r l) = drop_spaces r l.
Proof.
  induction l as [l IH] using (induction_ltof1 _ (@length ascii)); unfold ltof in IH.
  destruct l as [|a l1]; [done|]. simpl.
  destruct (ascii_space a) eqn:Ha; [apply IH; simpl; lia|].
  destruct l1 as [|b l2]; [simpl; by rewrite Ha|].
  destruct (if r then space2 b a else space2 a b) eqn:Hb; [apply IH; simpl; lia|].
  destruct l2 as [|c l3]; [simpl; by rewrite Ha, Hb|].
  destruct (if r then space3 c b a else space3 a b c) eqn:Hc; [apply IH; simpl; lia|].
  simpl. by rewrite Ha, Hb, Hc.
Qed.

Lemma drop_spaces_suffix r l : exists p, l = p ++ drop_spaces r l.
Proof.
  induction l as [l IH] using (induction_ltof1 _ (@length ascii)); unfold ltof in IH.
  destruct l as [|a l1]; [by exists []|]. simpl.
  assert (Hid : exists p, a :: l1 = p ++ a :: l1) by by exists [].
  destruct (ascii_space a); [destruct (IH l1) as [p Hp]; [simpl; lia|]; exists (a :: p); simpl; by f_equal|].
  destruct l1 as [|b l2]; [done|].
  destruct (if r then space2 b a else space2 a b);
    [destruct (IH l2) as [p Hp]; [simpl; lia|]; exists (a :: b :: p); simpl; by do 2 f_equal|].
  destruct l2 as [|c l3]; [done|].
  destruct (if r then space3 c b a else space3 a b c); [|done].
  destruct (IH l3) as [p Hp]; [simpl; lia|]; exists (a :: b :: c :: p); simpl; by do 3 f_equal.
Qed.

(** Cutting the tail of a sequence that starts with no space keeps it so. *)
Lemma drop_spaces_prefix r l k :
  drop_spaces r (l ++ k) = l ++ k -> drop_spaces r l = l.
Proof.
  intros H.
  assert (Hlen : forall m, length (drop_spaces r m) <= length m).
  { intros m. destruct (drop_spaces_suffix r m) as [p Hp].
    rewrite Hp at 2. rewrite length_app. lia. }
  destruct l as [|a l1]; [done|]. simpl in *.
  destruct (ascii_space a).
  { pose proof (Hlen (l1 ++ k)) as Hl. rewrite H in Hl. simpl in Hl. lia. }
  destruct l1 as [|b l2]; [done|]. simpl in *.
  destruct (if r then space2 b a else space2 a b).
  { pose proof (Hlen (l2 ++ k)) as Hl. rewrite H in Hl. simpl in Hl. lia. }
  destruct l2 as [|c l3]; [done|]. simpl in *.
  destruct (if r then space3 c b a else space3 a b c); [|done].
  pose proof (Hlen (l3 ++ k)) as Hl. rewrite H in Hl. simpl in Hl. lia.
Qed.

Lemma trim_list_idem l : trim_list (trim_list l) = trim_list l.
Proof.
  unfold trim_list.
  set (m := drop_spaces false l).
  assert (Hm : drop_spaces false m = m) by apply drop_spaces_idem.
  destruct (drop_spaces_suffix true (rev m)) as [p Hp].
  assert (Hpre : m = rev (drop_spaces true (rev m)) ++ rev p)
    by (rewrite <- rev_app_distr, <- Hp; by rewrite rev_involutive).
  assert (Hl : drop_spaces false (rev (drop_spaces true (rev m))) = rev (drop_spaces true (rev m)))
    by (apply (drop_spaces_prefix _ _ (rev p)); rewrite <- Hpre; exact Hm).
  rewrite Hl, rev_involutive, drop_spaces_idem. done.
Qed.

Lemma TrimSpace_idem s : TrimSpace (TrimSpace s) = TrimSpace s.
Proof.
  unfold TrimSpace. by rewrite list_ascii_of_string_of_list_ascii, trim_list_idem.
Qed.

(** [strings.IndexByte], [LastIndexByte] and the host of [net.SplitHostPort]. *)
Fixpoint index_byte (c : ascii) (l : list ascii) : option nat :=
  match l with
  | [] => None
  | x :: l' => if Ascii.eqb x c then Some O else S <$> index_byte c l'
  end.

Definition last_index_byte (c : ascii) (l : list ascii) : option nat :=
  (fun i => (length l - 1 - i)%nat) <$> index_byte c (rev l).

Lemma list_ascii_app (a b : string) :
  list_ascii_of_string (a +:+ b) = list_ascii_of_string a ++ list_ascii_of_string b.
Proof.
  induction a as [|c a IH]; [done|]. change (String c a +:+ b) with (String c (a +:+ b)). cbn. by rewrite IH.
Qed.

(** A string without a byte, and what is cut at it. *)
Fixpoint without (c : ascii) (s : string) : Prop :=
  match s with EmptyString => True | String x s' => x <> c /\ without c s' end.

Lemma without_app c a b : without c (a +:+ b) <-> without c a /\ without c b.
Proof. induction a as [|x a IH]; [cbn; tauto|]. change (without c (String x (a +:+ b)) <-> without c (String x a) /\ without c b). cbn [without]. rewrite IH. tauto. Qed.

Lemma split_byte c a a' r r' : without c a -> without c a' -> a +:+ String c r = a' +:+ String c r' -> a = a' /\ r = r'.
Proof.
  revert a'. induction a as [|x a IH]; intros [|x' a'] Ha Ha'; cbn in *.
  - intros H. injection H as H. by split.
  - intros H. injection H as Hc _. by destruct Ha'.
  - intros H. injection H as Hc _. by destruct Ha.
  - destruct Ha as [_ Ha], Ha' as [_ Ha']. intros H. injection H as -> H. by destruct (IH a' Ha Ha' H) as [-> ->].
Qed.

Lemma split_byte_last c a a' r r' : without c r -> without c r' -> a +:+ String c r = a' +:+ String c r' -> a = a' /\ r = r'.
Proof.
  intros Hr Hr'. revert a'. induction a as [|x a IH]; intros [|x' a']; cbn in *.
  - intros H. injection H as H. by split.
  - intros H. injection H as _ ->. change (String.append a' (String c r')) with (a' +:+ String c r') in Hr.
    apply without_app in Hr as [_ [Hc _]]. done.
  - intros H. injection H as _ <-. change (String.append a (String c r)) with (a +:+ String c r) in Hr'.
    apply without_app in Hr' as [_ [Hc _]]. done.
  - intros H. injection H as -> H. by destruct (IH a' H) as [-> ->].
Qed.

Lemma append_inj_l a b c : a +:+ b = a +:+ c -> b = c.
Proof. induction a as [|x a IH]; cbn; [done|]. intros H. injection H as H. by apply IH. Qed.

(** [strings.SplitN] by one byte, of at most [n] parts. *)
Fixpoint SplitN (c : ascii) (n : nat) (l : list ascii) : list (list ascii) :=
  match n with
  | O => []
  | S O => [l]
  | S n' => match index_byte c l with
            | None => [l]
            | Some i => take i l :: SplitN c n' (drop (S i) l)
            end
  end.

Lemma index_byte_app c l r : Forall (fun x => Ascii.eqb x c = false) l -> index_byte c (l ++ c :: r) = Some (length l).
Proof. induction 1 as [|x l Hx _ IH]; cbn; [by rewrite Ascii.eqb_refl|]. by rewrite Hx, IH. Qed.

(** A part without the byte is cut off. *)
Lemma SplitN_app c n l r : Forall (fun x => Ascii.eqb x c = false) l -> SplitN c (S (S n)) (l ++ c :: r) = l :: SplitN c (S n) r.
Proof.
  intros Hl. cbn [SplitN]. rewrite (index_byte_app _ _ _ Hl), take_app_length.
  change (S (length l)) with (1 + length l)%nat. rewrite Nat.add_comm, <- drop_drop, drop_app_length. done.
Qed.

Definition has_byte (c : ascii) (l : list ascii) : bool := bool_decide (is_Some (index_byte c l)).

Definition SplitHost (hostport : list ascii) : option (list ascii) :=
  match last_index_byte ":" hostport with
  | None => None
  | Some i =>
      match hostport with
      | "["%char :: _ =>
          match index_byte "]" hostport with
          | None => None
          | Some e =>
              if negb (S e =? i)%nat then None else
              if has_byte "[" (drop 1 hostport) || has_byte "]" (drop (S e) hostport) then None else
              Some (take (e - 1) (drop 1 hostport))
          end
      | _ =>
          let host := take i hostport in
          if has_byte ":" host || has_byte "[" hostport || has_byte "]" hostport then None else Some host
      end
  end.

(** [net.JoinHostPort]. *)
Definition JoinHostPort (host port : string) : string :=
  if has_byte ":" (list_ascii_of_string host) then "[" +:+ host +:+ "]:" +:+ port else host +:+ ":" +:+ port.

(** [strings.EqualFold]: ASCII folding when both strings are ASCII; [unicode] is
    what it does otherwise, with the Unicode tables. *)
Definition EqualFold (unicode : string -> string -> bool) (s t : string) : bool :=
  if is_ascii s && is_ascii t
  then bool_decide (map to_lower_ascii (list_ascii_of_string s) = map to_lower_ascii (list_ascii_of_string t))
  else unicode s t.

End GoStrings.

(** ** Go integers: two's complement on 64 bits. *)
Module GoInt.
Local Open Scope Z_scope.

Definition wrap64 (z : Z) : Z := (z + 2 ^ 63) mod 2 ^ 64 - 2 ^ 63.

Lemma wrap64_id z : - 2 ^ 63 <= z < 2 ^ 63 -> wrap64 z = z.
Proof. intros H. unfold wrap64. rewrite Z.mod_small by lia. lia. Qed.

(** [strconv.Atoi]: a sign and decimal digits, within 64 bits. *)
Fixpoint digits (l : list ascii) (acc : Z) : option Z :=
  match l with
  | [] => Some acc
  | a :: l' =>
      let d := Z.of_nat (nat_of_ascii a) - 48 in
      if (0 <=? d) && (d <=? 9) then digits l' (acc * 10 + d) else None
  end.

Definition unsigned (l : list ascii) : option Z := match l with [] => None | _ => digits l 0 end.

Definition Atoi (l : list ascii) : option Z :=
  match l with
  | "+"%char :: l' => match unsigned l' with Some n => if n <? 2 ^ 63 then Some n else None | None => None end
  | "-"%char :: l' => match unsigned l' with Some n => if n <=? 2 ^ 63 then Some (- n) else None | None => None end
  | _ => match unsigned l with Some n => if n <? 2 ^ 63 then Some n else None | None => None end
  end.

(** [strconv.Itoa] of what is not negative, and [%d]. *)
Definition Itoa (n : Z) : string := pretty n.

Lemma digits_pretty_N_go x s : digits (list_ascii_of_string (pretty_N_go x s)) 0 = digits (list_ascii_of_string s) (Z.of_N x).
Proof.
  revert s. induction (N.lt_wf_0 x) as [x _ IH]. intros s.
  assert (x = 0 \/ 0 < x)%N as [->|Hx] by lia; [by rewrite pretty_N_go_0|].
  rewrite pretty_N_go_step by done. rewrite IH by (by apply N.div_lt). cbn [list_ascii_of_string digits].
  assert (Hd : forall d, (d < 10)%N -> Z.of_nat (nat_of_ascii (pretty_N_char d)) - 48 = Z.of_N d).
  { intros d Hlt. assert (d = 0 \/ d = 1 \/ d = 2 \/ d = 3 \/ d = 4 \/ d = 5 \/ d = 6 \/ d = 7 \/ d = 8 \/ d = 9)%N as Hc by lia.
    by repeat destruct Hc as [->|Hc]; [..|subst]. }
  pose proof (N.mod_lt x 10 ltac:(lia)) as Hm. rewrite Hd by done.
  generalize (N.div_mod x 10 ltac:(lia)). revert Hm. generalize (x / 10)%N, (x mod 10)%N. intros q r Hm ->.
  rewrite (proj2 (Z.leb_le 0 (Z.of_N r))), (proj2 (Z.leb_le (Z.of_N r) 9)) by lia. cbn [andb]. f_equal. lia.
Qed.

(** The decimal digits of a positive number start with no sign. *)
Lemma pretty_N_go_sign x s : (0 < x)%N -> exists a l, list_ascii_of_string (pretty_N_go x s) = a :: l /\ a <> "+"%char /\ a <> "-"%char.
Proof.
  revert s. induction (N.lt_wf_0 x) as [x _ IH]. intros s Hx. rewrite pretty_N_go_step by done.
  destruct (N.eq_0_gt_0_cases (x / 10)) as [H0|Hp].
  - rewrite H0, pretty_N_go_0. exists (pretty_N_char (x mod 10)), (list_ascii_of_string s). split; [done|].
    unfold pretty_N_char. by repeat case_match.
  - apply IH; [|done]. by apply N.div_lt.
Qed.

Lemma Atoi_Itoa n : 0 <= n < 2 ^ 63 -> Atoi (list_ascii_of_string (Itoa n)) = Some n.
Proof.
  intros Hn. destruct n as [|p|p]; [reflexivity| |lia].
  unfold Itoa, pretty, pretty_Z, pretty, pretty_positive, pretty, pretty_N. rewrite decide_False by lia.
  destruct (pretty_N_go_sign (N.pos p) "") as (a & l & Hl & Hp & Hm); [lia|].
  pose proof (digits_pretty_N_go (N.pos p) "") as Hd. rewrite Hl in Hd |- *. cbn [list_ascii_of_string] in Hd.
  assert (Hu : unsigned (a :: l) = Some (Z.pos p)) by done. clear Hd Hl.
  unfold Atoi. destruct a as [[] [] [] [] [] [] [] []]; try done; rewrite Hu;
    by rewrite (proj2 (Z.ltb_lt (Z.pos p) (2 ^ 63))) by lia.
Qed.

(** A number is written in digits. *)
Lemma digits_digits l acc n c : digits l acc = Some n -> (forall d, 48 <= d <= 57 -> Z.of_nat (nat_of_ascii c) <> d) ->
  Forall (fun x => Ascii.eqb x c = false) l.
Proof.
  intros Hd Hc. revert acc Hd. induction l as [|a l IH]; intros acc; cbn; [done|].
  destruct (Z.leb_spec 0 (Z.of_nat (nat_of_ascii a) - 48)); [|done]. destruct (Z.leb_spec (Z.of_nat (nat_of_ascii a) - 48) 9); [|done].
  cbn. intros Hd. constructor; [|by eapply IH]. apply Ascii.eqb_neq. intros ->. by apply (Hc (Z.of_nat (nat_of_ascii c))); [lia|].
Qed.

Lemma Itoa_digits n c : 0 <= n -> (forall d, 48 <= d <= 57 -> Z.of_nat (nat_of_ascii c) <> d) ->
  Forall (fun x => Ascii.eqb x c = false) (list_ascii_of_string (Itoa n)).
Proof.
  intros Hn Hc. destruct n as [|p|p]; [|unfold Itoa, pretty, pretty_Z, pretty, pretty_positive, pretty, pretty_N|lia].
  - by apply (digits_digits _ 0 0).
  - rewrite decide_False by lia. eapply (digits_digits _ 0 (Z.pos p)); [|done]. by rewrite digits_pretty_N_go.
Qed.

End GoInt.

#[export] Hint Rewrite GoStrings.TrimSpace_idem : trst_rw.
