(* ===== verification/Json.v ===== *)
(** * JSON documents and struct decoding

    The event log and the outbox carry [[]byte] bodies produced and read with
    [encoding/json].  A body is modelled by the document it denotes ([DJson])
    or, for bytes that are no JSON text (sealed side-effect payloads, corrupt
    data), by the bytes themselves ([DRaw]).  A Go struct type is its list of
    tagged fields; [decode_struct] is [json.Unmarshal] into the zero struct
    (keys match names without regard to ASCII case, a later key wins, null is
    no assignment, a value of another type is an error, an absent field keeps
    its zero value) and [encode_struct] is [json.Marshal] with [omitempty]. *)

From S2P Require Import Prelude.
Open Scope string_scope.
Open Scope list_scope.
Open Scope Z_scope.

Inductive json : Type :=
| JNull
| JBool (b : bool)
| JNum (n : Z)
| JStr (s : string)
| JArr (l : list json)
| JObj (o : list (string * json)).

Inductive data : Type :=
| DJson (j : json)
| DRaw (b : string).

#[export] Instance json_eq_dec : EqDecision json.
Proof.
  unfold EqDecision, Decision. fix IH 1. intros x y. decide equality; [apply bool_dec|apply Z.eq_dec|apply string_dec| |].
  - exact (List.list_eq_dec IH l l0).
  - revert o0. induction o as [|[k j] o IHo]; intros [|[k' j'] o']; [by left|by right|by right|].
    destruct (IHo o') as [->|]; [|right; congruence]. destruct (IH j j') as [->|]; [|right; congruence].
    destruct (string_dec k k') as [->|]; [by left|right; congruence].
Defined.

#[export] Instance data_eq_dec : EqDecision data.
Proof. solve_decision. Defined.

(** ASCII case folding of a key. *)
Definition lower_ascii (c : ascii) : ascii :=
  let n := nat_of_ascii c in
  if ((65 <=? n) && (n <=? 90))%nat then ascii_of_nat (n + 32) else c.

Fixpoint lower (s : string) : string :=
  match s with
  | EmptyString => EmptyString
  | String c s' => String (lower_ascii c) (lower s')
  end.

Definition fold_eq (k name : string) : bool := String.eqb (lower k) (lower name).

(** ** Fields *)

(** The Go types of the fields the components use: string, bool, int, []string,
    json.RawMessage, *string, *int64 and a slice of structs or raw messages,
    whose elements are left as documents. *)
Inductive kind := KStr | KBool | KInt | KStrs | KRaw | KPtrStr | KPtrInt | KList.

Inductive fval :=
| VStr (s : string)
| VBool (b : bool)
| VInt (n : Z)
| VStrs (l : list string)
| VRaw (j : option json)
| VPtrStr (s : option string)
| VPtrInt (n : option Z)
| VList (l : list json).

Record field := mkField {
  f_name : string;
  f_kind : kind;
  f_omit : bool
}.

Definition zero (k : kind) : fval :=
  match k with
  | KStr => VStr EmptyString
  | KBool => VBool false
  | KInt => VInt 0
  | KStrs => VStrs []
  | KRaw => VRaw None
  | KPtrStr => VPtrStr None
  | KPtrInt => VPtrInt None
  | KList => VList []
  end.

Definition int64 (n : Z) : bool := (- 2 ^ 63 <=? n) && (n <? 2 ^ 63).

(** One element of a []string. *)
Definition as_string (j : json) : option string :=
  match j with
  | JStr s => Some s
  | JNull => Some EmptyString
  | _ => None
  end.

(** Assigning the document [j] to a field that holds [cur]. *)
Definition assign (k : kind) (cur : fval) (j : json) : option fval :=
  match k, j with
  | KRaw, _ => Some (VRaw (Some j))
  | KStrs, JNull => Some (VStrs [])
  | KPtrStr, JNull => Some (VPtrStr None)
  | KPtrInt, JNull => Some (VPtrInt None)
  | KList, JNull => Some (VList [])
  | _, JNull => Some cur
  | KStr, JStr s => Some (VStr s)
  | KBool, JBool b => Some (VBool b)
  | KInt, JNum n => if int64 n then Some (VInt n) else None
  | KStrs, JArr l => VStrs <$> mapM as_string l
  | KPtrStr, JStr s => Some (VPtrStr (Some s))
  | KPtrInt, JNum n => if int64 n then Some (VPtrInt (Some n)) else None
  | KList, JArr l => Some (VList l)
  | _, _ => None
  end.

Fixpoint field_value (k : kind) (name : string) (cur : fval) (o : list (string * json)) : option fval :=
  match o with
  | [] => Some cur
  | (key, v) :: o' =>
      if fold_eq key name then
        match assign k cur v with
        | Some cur' => field_value k name cur' o'
        | None => None
        end
      else field_value k name cur o'
  end.

(** The values of a struct, one per field, in the order of its fields. *)
Definition svals := list fval.

Definition decode_object (fs : list field) (o : list (string * json)) : option svals :=
  mapM (fun f => field_value (f_kind f) (f_name f) (zero (f_kind f)) o) fs.

Definition decode_json (fs : list field) (j : json) : option svals :=
  match j with
  | JObj o => decode_object fs o
  | JNull => Some (map (fun f => zero (f_kind f)) fs)
  | _ => None
  end.

Definition decode_struct (fs : list field) (d : data) : option svals :=
  match d with
  | DJson j => decode_json fs j
  | DRaw _ => None
  end.

(** ** Encoding *)

Definition is_empty (v : fval) : bool :=
  match v with
  | VStr s => String.eqb s EmptyString
  | VBool b => negb b
  | VInt n => n =? 0
  | VStrs l => match l with [] => true | _ => false end
  | VRaw j => match j with None => true | _ => false end
  | VPtrStr s => match s with None => true | _ => false end
  | VPtrInt n => match n with None => true | _ => false end
  | VList l => match l with [] => true | _ => false end
  end.

Definition to_json (v : fval) : json :=
  match v with
  | VStr s => JStr s
  | VBool b => JBool b
  | VInt n => JNum n
  | VStrs l => JArr (JStr <$> l)
  | VRaw j => default JNull j
  | VPtrStr s => match s with Some s => JStr s | None => JNull end
  | VPtrInt n => match n with Some n => JNum n | None => JNull end
  | VList l => JArr l
  end.

Fixpoint encode_object (fs : list field) (vs : svals) : list (string * json) :=
  match fs, vs with
  | f :: fs', v :: vs' =>
      if f_omit f && is_empty v then encode_object fs' vs'
      else (f_name f, to_json v) :: encode_object fs' vs'
  | _, _ => []
  end.

Definition encode_struct (fs : list field) (vs : svals) : data := DJson (JObj (encode_object fs vs)).

(** The string held by the i-th field. *)
Definition str_at (vs : svals) (i : nat) : string :=
  match vs !! i with Some (VStr s) => s | _ => EmptyString end.

Definition list_at (vs : svals) (i : nat) : list json :=
  match vs !! i with Some (VList l) => l | _ => [] end.

(** ** The round trip *)

(** A value of the Go type of its field that [Marshal] and [Unmarshal] carry
    faithfully: integers in range, and a raw message that is set. *)
Definition fits (f : field) (v : fval) : Prop :=
  match f_kind f, v with
  | KStr, VStr _ | KBool, VBool _ | KStrs, VStrs _ | KPtrStr, VPtrStr _ | KList, VList _ => True
  | KInt, VInt n => int64 n = true
  | KPtrInt, VPtrInt (Some n) => int64 n = true
  | KPtrInt, VPtrInt None => True
  | KRaw, VRaw j => f_omit f = true \/ is_Some j
  | _, _ => False
  end.

Definition names_apart (fs : list field) : Prop := NoDup ((fun f => lower (f_name f)) <$> fs).

Lemma fold_eq_refl s : fold_eq s s = true.
Proof. apply String.eqb_refl. Qed.

Lemma mapM_as_string l : mapM as_string (JStr <$> l) = Some l.
Proof. induction l as [|s l IH]; [done|]. rewrite fmap_cons. cbn [mapM]. by rewrite IH. Qed.

Lemma assign_to_json f v cur :
  fits f v -> (f_omit f && is_empty v) = false -> cur = zero (f_kind f) ->
  assign (f_kind f) cur (to_json v) = Some v.
Proof.
  unfold fits. intros Hf He ->.
  destruct (f_kind f), v; try done; cbn [assign to_json is_empty] in *.
  - by rewrite Hf.
  - by rewrite mapM_as_string.
  - destruct j as [j|]; [done|]. destruct Hf as [Hf|[? Hf]]; [|done]. by rewrite Hf in He.
  - by destruct s.
  - destruct n as [n|]; simpl; [by rewrite Hf|done].
Qed.

Lemma empty_is_zero f v : fits f v -> (f_omit f && is_empty v) = true -> v = zero (f_kind f).
Proof.
  unfold fits. rewrite andb_true_iff. intros Hf [_ He].
  destruct (f_kind f), v; try done; simpl in *.
  - by apply String.eqb_eq in He as ->.
  - by destruct b.
  - by apply Z.eqb_eq in He as ->.
  - by destruct l.
  - by destruct j.
  - by destruct s.
  - by destruct n.
  - by destruct l.
Qed.

(** A key that is not the name of the field leaves it alone. *)
Lemma field_value_absent k name cur fs vs :
  Forall (fun f => lower (f_name f) <> lower name) fs ->
  field_value k name cur (encode_object fs vs) = Some cur.
Proof.
  intros H. revert vs. induction H as [|f fs Hf _ IH]; intros [|v vs]; simpl; try done.
  destruct (f_omit f && is_empty v); [apply IH|]. simpl.
  unfold fold_eq. rewrite (proj2 (String.eqb_neq _ _) Hf). apply IH.
Qed.

Lemma field_value_encode fs vs i f v :
  names_apart fs -> Forall2 fits fs vs -> fs !! i = Some f -> vs !! i = Some v ->
  field_value (f_kind f) (f_name f) (zero (f_kind f)) (encode_object fs vs) = Some v.
Proof.
  intros Hn Hfit. revert i. induction Hfit as [|g w fs vs Hg _ IH]; intros i Hf Hv; [done|].
  unfold names_apart in Hn. rewrite fmap_cons in Hn. apply NoDup_cons in Hn as [Hnew Hn].
  destruct i as [|i]; simpl in Hf, Hv; simplify_eq.
  - assert (Habs : Forall (fun g => lower (f_name g) <> lower (f_name f)) fs).
    { apply Forall_forall. intros x Hx Heq. apply Hnew. rewrite <- Heq.
      apply (list_elem_of_fmap_2 (fun f => lower (f_name f))). done. }
    simpl. destruct (f_omit f && is_empty v) eqn:E.
    + rewrite field_value_absent by done. f_equal. symmetry. by apply empty_is_zero.
    + simpl. rewrite fold_eq_refl, assign_to_json by done. by apply field_value_absent.
  - assert (Hne : lower (f_name g) <> lower (f_name f)).
    { intros Heq. apply Hnew. rewrite Heq.
      apply (list_elem_of_fmap_2 (fun f => lower (f_name f))). by eapply list_elem_of_lookup_2. }
    simpl. destruct (f_omit g && is_empty w); [by eapply IH|]. simpl.
    unfold fold_eq. rewrite (proj2 (String.eqb_neq _ _) Hne). by eapply IH.
Qed.

(** Unmarshalling what was marshalled gives the struct back. *)
Lemma decode_encode fs vs :
  names_apart fs -> Forall2 fits fs vs -> decode_struct fs (encode_struct fs vs) = Some vs.
Proof.
  intros Hn Hfit. simpl. unfold decode_object. apply mapM_Some_2, Forall2_same_length_lookup_2.
  - by eapply Forall2_length.
  - intros i f v Hf Hv. by eapply field_value_encode.
Qed.
