(* ===== verification/Lifecycle.v ===== *)
(** * The lifecycle state machine of an identity

    Models [src/internal/orchestrator/lifecycle.go]: the states, the table of
    allowed transitions with the event each emits, the table of outbox side
    effects, and the predicates the orchestrator asks of them.  A [State] is a
    Go string (the read model may hold any text), so the machine is the table
    and not an enumeration; [step] is the relation the comment of the table
    documents, and the theorems relate the two. *)

From S2P Require Import Prelude.
Open Scope string_scope.

Module Lifecycle.

Definition State := string.

Definition StateRequested : State := "requested".
Definition StateIssued : State := "issued".
Definition StateDeployed : State := "deployed".
Definition StateRenewing : State := "renewing".
Definition StateRevoked : State := "revoked".
Definition StateRetired : State := "retired".

(** An allowed (from, to) pair. *)
Definition edge : Type := State * State.

Definition transitionEvents : gmap edge string := list_to_map [
  ((StateRequested, StateIssued), "identity.issued");
  ((StateIssued, StateDeployed), "identity.deployed");
  ((StateIssued, StateRevoked), "identity.revoked");
  ((StateDeployed, StateRenewing), "identity.renewing");
  ((StateDeployed, StateRevoked), "identity.revoked");
  ((StateRenewing, StateDeployed), "identity.renewed");
  ((StateRenewing, StateRevoked), "identity.revoked");
  ((StateRevoked, StateRetired), "identity.retired")].

Definition sideEffects : gmap edge string := list_to_map [
  ((StateRequested, StateIssued), "ca.issue");
  ((StateIssued, StateDeployed), "connector.deploy");
  ((StateDeployed, StateRenewing), "ca.renew");
  ((StateRenewing, StateDeployed), "connector.deploy");
  ((StateIssued, StateRevoked), "revocation.publish");
  ((StateDeployed, StateRevoked), "revocation.publish");
  ((StateRenewing, StateRevoked), "revocation.publish")].

Definition CanTransition (from to : State) : bool :=
  match transitionEvents !! (from, to) with
  | Some _ => true
  | None => false
  end.

(** The pair (string, ok) of the code is an option. *)
Definition EventTypeFor (from to : State) : option string :=
  transitionEvents !! (from, to).

(** The distinct event types of the registry: the loop inserts every value of
    the map into a set. *)
Definition LifecycleEventTypes : gset string :=
  map_fold (fun _ t out => {[ t ]} ∪ out) ∅ transitionEvents.

Definition sideEffectFor (from to : State) : option string :=
  sideEffects !! (from, to).

(** The structured rejection of an invalid transition, and its text. *)
Record TransitionError := mkTransitionError {
  te_IdentityID : string;
  te_From : State;
  te_To : State
}.

Definition TransitionError_Error (e : TransitionError) : string :=
  "orchestrator: invalid transition for identity " ++ te_IdentityID e ++ ": "
    ++ te_From e ++ " -> " ++ te_To e.

(** One applied lifecycle change, as reconstructed from the log. *)
Record Transition := mkTransition {
  tr_From : State;
  tr_To : State;
  tr_Event : string;
  tr_Reason : string;
  tr_Sequence : Z;
  tr_At : Z
}.

(** ** The documented machine *)

Inductive step : State -> State -> Prop :=
| step_issue : step StateRequested StateIssued
| step_deploy : step StateIssued StateDeployed
| step_revoke_issued : step StateIssued StateRevoked
| step_renew : step StateDeployed StateRenewing
| step_revoke_deployed : step StateDeployed StateRevoked
| step_renewed : step StateRenewing StateDeployed
| step_revoke_renewing : step StateRenewing StateRevoked
| step_retire : step StateRevoked StateRetired.
#[export] Hint Constructors step : trst.

Definition states : list State :=
  [StateRequested; StateIssued; StateDeployed; StateRenewing; StateRevoked; StateRetired].

(** Inversion of a lookup in a literal table. *)
Lemma EventTypeFor_inv from to e :
  EventTypeFor from to = Some e ->
  (from, to, e) ∈ [
    (StateRequested, StateIssued, "identity.issued");
    (StateIssued, StateDeployed, "identity.deployed");
    (StateIssued, StateRevoked, "identity.revoked");
    (StateDeployed, StateRenewing, "identity.renewing");
    (StateDeployed, StateRevoked, "identity.revoked");
    (StateRenewing, StateDeployed, "identity.renewed");
    (StateRenewing, StateRevoked, "identity.revoked");
    (StateRevoked, StateRetired, "identity.retired")].
Proof.
  unfold EventTypeFor. intros H.
  apply elem_of_list_to_map_2 in H.
  rewrite !elem_of_cons, elem_of_nil in H |- *. naive_solver.
Qed.

Lemma sideEffectFor_inv from to d :
  sideEffectFor from to = Some d ->
  (from, to, d) ∈ [
    (StateRequested, StateIssued, "ca.issue");
    (StateIssued, StateDeployed, "connector.deploy");
    (StateDeployed, StateRenewing, "ca.renew");
    (StateRenewing, StateDeployed, "connector.deploy");
    (StateIssued, StateRevoked, "revocation.publish");
    (StateDeployed, StateRevoked, "revocation.publish");
    (StateRenewing, StateRevoked, "revocation.publish")].
Proof.
  unfold sideEffectFor. intros H.
  apply elem_of_list_to_map_2 in H.
  rewrite !elem_of_cons, elem_of_nil in H |- *. naive_solver.
Qed.

(** Split a membership in a literal list of tuples into its cases. *)
Ltac table_cases H :=
  rewrite !elem_of_cons, elem_of_nil in H;
  destruct_or! H; try contradiction; simplify_eq.

Lemma CanTransition_step from to : CanTransition from to = true <-> step from to.
Proof.
  split.
  - unfold CanTransition. destruct (transitionEvents !! (from, to)) as [e|] eqn:H; [|done].
    intros _. apply EventTypeFor_inv in H. table_cases H; auto with trst.
  - destruct 1; reflexivity.
Qed.

Lemma CanTransition_EventTypeFor from to :
  CanTransition from to = true <-> is_Some (EventTypeFor from to).
Proof.
  unfold CanTransition, EventTypeFor. destruct (transitionEvents !! (from, to)); naive_solver.
Qed.

Lemma EventTypeFor_step from to e : EventTypeFor from to = Some e -> step from to.
Proof. intros H. apply CanTransition_step, CanTransition_EventTypeFor. by exists e. Qed.

(** The event type fixes the state the transition enters. *)
Lemma EventTypeFor_target f t f' t' e :
  EventTypeFor f t = Some e -> EventTypeFor f' t' = Some e -> t = t'.
Proof.
  intros H H'. apply EventTypeFor_inv in H, H'.
  table_cases H; table_cases H'; reflexivity.
Qed.

Lemma LifecycleEventTypes_spec e :
  e ∈ LifecycleEventTypes <-> exists from to, EventTypeFor from to = Some e.
Proof.
  split.
  - intros H.
    assert (Hl : e ∈ ["identity.issued"; "identity.deployed"; "identity.revoked";
      "identity.renewing"; "identity.renewed"; "identity.retired"]).
    { revert H. change (e ∈ LifecycleEventTypes) with
        (e ∈ (LifecycleEventTypes : gset string)).
      rewrite <- elem_of_elements.
      let v := eval vm_compute in (elements LifecycleEventTypes) in
      change (elements LifecycleEventTypes) with v.
      rewrite !elem_of_cons, elem_of_nil. tauto. }
    table_cases Hl.
    + by exists StateRequested, StateIssued.
    + by exists StateIssued, StateDeployed.
    + by exists StateIssued, StateRevoked.
    + by exists StateDeployed, StateRenewing.
    + by exists StateRenewing, StateDeployed.
    + by exists StateRevoked, StateRetired.
  - intros (f & t & H). apply EventTypeFor_inv in H. table_cases H; vm_compute; done.
Qed.

(** Every transition but the retirement of a revoked identity has an external
    effect, and nothing else has. *)
Lemma sideEffectFor_iff from to :
  is_Some (sideEffectFor from to) <->
  CanTransition from to = true /\ (from, to) <> (StateRevoked, StateRetired).
Proof.
  split.
  - intros [d H]. apply sideEffectFor_inv in H. table_cases H; done.
  - intros [H Hne]. apply CanTransition_step in H. destruct H; (done || by eexists).
Qed.

Lemma step_from_revoked s : step StateRevoked s -> s = StateRetired.
Proof. by inversion 1. Qed.

Lemma step_from_retired s : ~ step StateRetired s.
Proof. by inversion 1. Qed.

(** Revocation is final: a revoked identity can only be retired. *)
Lemma rtc_from_revoked s :
  rtc step StateRevoked s -> s = StateRevoked \/ s = StateRetired.
Proof.
  remember StateRevoked as r eqn:Hr.
  induction 1 as [x|x y z Hxy Hyz _]; [by left|subst x].
  apply step_from_revoked in Hxy; subst y.
  inversion Hyz as [|? ? ? Hs]; subst; [by right|].
  by apply step_from_retired in Hs.
Qed.

Lemma reachable_known s : rtc step StateRequested s -> s ∈ states.
Proof.
  revert s. apply (rtc_ind_r (R := step) (fun s => s ∈ states) StateRequested).
  - unfold states. set_solver.
  - intros y z _ Hyz _. destruct Hyz; unfold states; set_solver.
Qed.

(** Retirement is entered only from revocation. *)
Lemma retired_via_revoked s t : step s t -> t = StateRetired -> s = StateRevoked.
Proof. by destruct 1. Qed.

End Lifecycle.
