(* ===== verification/Outbox.v ===== *)
(** * The transactional outbox and its per-destination circuit breaker

    Models [src/internal/orchestrator/outbox.go] and the retention sweep of
    [src/internal/outboxgc/outboxgc.go].  The table is the list of its rows in
    id order; each SQL statement is the filter, map or append it denotes, and a
    transaction is the function from the table before to the table after, the
    rollback of an aborted one being the table before.  What the process reads
    from outside (the worker clock, the database clock, the jitter source, a
    transport fault of a database call, the outcome of the external call) is an
    oracle indexed by the number of readings made so far. *)

From stdpp Require Import pretty.
From S2P Require Import Prelude Json.
Open Scope string_scope.
Open Scope list_scope.
Open Scope Z_scope.

Module Outbox.

(** ** Data *)

Record Message := mkMessage {
  m_ID : Z;
  m_TenantID : string;
  m_Destination : string;
  m_IdempotencyKey : string;
  m_Payload : data;
  m_Attempts : Z
}.

Record Entry := mkEntry {
  e_TenantID : string;
  e_Destination : string;
  e_IdempotencyKey : string;
  e_Payload : data
}.

(** The error of one delivery: what the handler returned, or the deadline
    wrapper of [deliver] around it. *)
Inductive deliverError :=
| HandlerError (text : string)
| TimedOut (after : Z) (text : string).

(** A row of the table [outbox] (migrations 0003 and 0032). *)
Record Row := mkRow {
  r_id : Z;
  r_tenant : string;
  r_destination : string;
  r_payload : data;
  r_key : string;
  r_status : string;
  r_attempts : Z;
  r_last_error : option deliverError;
  r_next : Z;
  r_delivered_at : option Z;
  r_worker : option string;
  r_lease : option Z
}.

Record DB := mkDB {
  db_rows : list Row;
  db_seq : Z
}.

(** The observable state of a row. *)
Record OutboxRecord := mkOutboxRecord {
  rec_ID : Z;
  rec_TenantID : string;
  rec_Destination : string;
  rec_IdempotencyKey : string;
  rec_Status : string;
  rec_Attempts : Z;
  rec_LastError : option deliverError;
  rec_Payload : data
}.

Record claimedOutboxEntry := mkClaim {
  c_id : Z;
  c_msg : Message;
  c_attempts : Z
}.

Inductive CircuitState := CircuitClosed | CircuitOpen | CircuitHalfOpen.

#[export] Instance CircuitState_eq_dec : EqDecision CircuitState.
Proof. solve_decision. Defined.

Record CircuitTransition := mkCircuitTransition {
  ct_TenantID : string;
  ct_Destination : string;
  ct_From : CircuitState;
  ct_To : CircuitState;
  ct_Failures : Z;
  ct_OpenUntil : Z
}.

Record CircuitSnapshot := mkCircuitSnapshot {
  cs_TenantID : string;
  cs_Destination : string;
  cs_State : CircuitState;
  cs_Failures : Z;
  cs_OpenUntil : Z;
  cs_UpdatedAt : Z;
  cs_LastError : option deliverError
}.

(** The pair (tenantID, destination). *)
Definition circuitKey : Type := string * string.

Definition unit_separator : string := String (ascii_of_nat 31) EmptyString.

Definition circuitKey_string (k : circuitKey) : string :=
  (fst k ++ unit_separator ++ snd k)%string.

Record outboxCircuit := mkCircuit {
  k_state : CircuitState;
  k_failures : Z;
  k_openUntil : Z;
  k_updatedAt : Z;
  k_lastError : option deliverError
}.

(** ** Configuration *)

Record Outbox := mkOutbox {
  o_backoff : Z -> Z;
  o_jitter : nat -> Z -> Z;
  o_now : nat -> Z;
  o_maxAttempts : Z;
  o_leaseTTL : Z;
  o_deliveryTimeout : Z;
  o_deliveryTimeoutObserver : bool;
  o_maxInFlightPerDestination : Z;
  o_maxInFlightPerTenant : Z;
  o_workerID : string;
  o_circuitFailureThreshold : Z;
  o_circuitOpenDuration : Z;
  o_circuitObserver : bool
}.

Definition Option_ : Type := Outbox -> Outbox.

Definition second : Z := 1000000000.
Definition minute : Z := 60 * second.

Definition WithBackoff (f : Z -> Z) : Option_ := fun o =>
  mkOutbox f (o_jitter o) (o_now o) (o_maxAttempts o) (o_leaseTTL o) (o_deliveryTimeout o)
    (o_deliveryTimeoutObserver o) (o_maxInFlightPerDestination o) (o_maxInFlightPerTenant o)
    (o_workerID o) (o_circuitFailureThreshold o) (o_circuitOpenDuration o) (o_circuitObserver o).

(** A nil function leaves the option unset. *)
Definition WithRetryJitter (f : option (nat -> Z -> Z)) : Option_ := fun o =>
  match f with
  | Some j =>
      mkOutbox (o_backoff o) j (o_now o) (o_maxAttempts o) (o_leaseTTL o) (o_deliveryTimeout o)
        (o_deliveryTimeoutObserver o) (o_maxInFlightPerDestination o) (o_maxInFlightPerTenant o)
        (o_workerID o) (o_circuitFailureThreshold o) (o_circuitOpenDuration o) (o_circuitObserver o)
  | None => o
  end.

Definition WithNow (f : option (nat -> Z)) : Option_ := fun o =>
  match f with
  | Some n =>
      mkOutbox (o_backoff o) (o_jitter o) n (o_maxAttempts o) (o_leaseTTL o) (o_deliveryTimeout o)
        (o_deliveryTimeoutObserver o) (o_maxInFlightPerDestination o) (o_maxInFlightPerTenant o)
        (o_workerID o) (o_circuitFailureThreshold o) (o_circuitOpenDuration o) (o_circuitObserver o)
  | None => o
  end.

Definition WithMaxAttempts (n : Z) : Option_ := fun o =>
  mkOutbox (o_backoff o) (o_jitter o) (o_now o) n (o_leaseTTL o) (o_deliveryTimeout o)
    (o_deliveryTimeoutObserver o) (o_maxInFlightPerDestination o) (o_maxInFlightPerTenant o)
    (o_workerID o) (o_circuitFailureThreshold o) (o_circuitOpenDuration o) (o_circuitObserver o).

Definition WithLeaseTTL (n : Z) : Option_ := fun o =>
  if 0 <? n then
    mkOutbox (o_backoff o) (o_jitter o) (o_now o) (o_maxAttempts o) n (o_deliveryTimeout o)
      (o_deliveryTimeoutObserver o) (o_maxInFlightPerDestination o) (o_maxInFlightPerTenant o)
      (o_workerID o) (o_circuitFailureThreshold o) (o_circuitOpenDuration o) (o_circuitObserver o)
  else o.

Definition WithDeliveryTimeout (n : Z) : Option_ := fun o =>
  if 0 <? n then
    mkOutbox (o_backoff o) (o_jitter o) (o_now o) (o_maxAttempts o) (o_leaseTTL o) n
      (o_deliveryTimeoutObserver o) (o_maxInFlightPerDestination o) (o_maxInFlightPerTenant o)
      (o_workerID o) (o_circuitFailureThreshold o) (o_circuitOpenDuration o) (o_circuitObserver o)
  else o.

(** The observer is modelled by its presence: its calls are recorded in the
    worker state. *)
Definition WithDeliveryTimeoutObserver (f : bool) : Option_ := fun o =>
  mkOutbox (o_backoff o) (o_jitter o) (o_now o) (o_maxAttempts o) (o_leaseTTL o) (o_deliveryTimeout o)
    f (o_maxInFlightPerDestination o) (o_maxInFlightPerTenant o)
    (o_workerID o) (o_circuitFailureThreshold o) (o_circuitOpenDuration o) (o_circuitObserver o).

Definition WithCircuitBreaker (failureThreshold openFor : Z) : Option_ := fun o =>
  mkOutbox (o_backoff o) (o_jitter o) (o_now o) (o_maxAttempts o) (o_leaseTTL o) (o_deliveryTimeout o)
    (o_deliveryTimeoutObserver o) (o_maxInFlightPerDestination o) (o_maxInFlightPerTenant o)
    (o_workerID o) failureThreshold
    (if 0 <? openFor then openFor else o_circuitOpenDuration o) (o_circuitObserver o).

Definition WithCircuitObserver (f : bool) : Option_ := fun o =>
  mkOutbox (o_backoff o) (o_jitter o) (o_now o) (o_maxAttempts o) (o_leaseTTL o) (o_deliveryTimeout o)
    (o_deliveryTimeoutObserver o) (o_maxInFlightPerDestination o) (o_maxInFlightPerTenant o)
    (o_workerID o) (o_circuitFailureThreshold o) (o_circuitOpenDuration o) f.

Definition WithMaxInFlightPerDestination (n : Z) : Option_ := fun o =>
  if 0 <? n then
    mkOutbox (o_backoff o) (o_jitter o) (o_now o) (o_maxAttempts o) (o_leaseTTL o) (o_deliveryTimeout o)
      (o_deliveryTimeoutObserver o) n (o_maxInFlightPerTenant o)
      (o_workerID o) (o_circuitFailureThreshold o) (o_circuitOpenDuration o) (o_circuitObserver o)
  else o.

Definition WithMaxInFlightPerTenant (n : Z) : Option_ := fun o =>
  if 0 <? n then
    mkOutbox (o_backoff o) (o_jitter o) (o_now o) (o_maxAttempts o) (o_leaseTTL o) (o_deliveryTimeout o)
      (o_deliveryTimeoutObserver o) (o_maxInFlightPerDestination o) n
      (o_workerID o) (o_circuitFailureThreshold o) (o_circuitOpenDuration o) (o_circuitObserver o)
  else o.

Definition WithWorkerID (id : string) : Option_ := fun o =>
  if String.eqb id EmptyString then o else
    mkOutbox (o_backoff o) (o_jitter o) (o_now o) (o_maxAttempts o) (o_leaseTTL o) (o_deliveryTimeout o)
      (o_deliveryTimeoutObserver o) (o_maxInFlightPerDestination o) (o_maxInFlightPerTenant o)
      id (o_circuitFailureThreshold o) (o_circuitOpenDuration o) (o_circuitObserver o).

(** ** Backoff and jitter *)

Definition capDelay : Z := 5 * minute.

(** The loop of [defaultOutboxBackoff] with [n] iterations left. *)
Fixpoint backoff_loop (n : nat) (delay : Z) : Z :=
  match n with
  | O => if capDelay <? delay then capDelay else delay
  | S n' => if capDelay / 2 <=? delay then capDelay else backoff_loop n' (delay * 2)
  end.

Definition defaultOutboxBackoff (attempts : Z) : Z :=
  if attempts <=? 0 then second else backoff_loop (Z.to_nat (attempts - 1)) second.

(** [rand k n] is the k-th draw of [rand.Int63n(n)]. *)
Definition defaultOutboxJitter (rand : nat -> Z -> Z) (k : nat) (base : Z) : Z :=
  if base <=? 0 then 0 else
  let floor := base / 2 in
  let span := base - floor in
  if span <=? 0 then base else floor + rand k (span + 1).

(** [nano] is the Unix time in nanoseconds of the default worker id. *)
Definition NewOutbox (now : nat -> Z) (rand : nat -> Z -> Z) (nano : Z) (opts : list Option_) : Outbox :=
  fold_left (fun o opt => opt o) opts
    (mkOutbox defaultOutboxBackoff (defaultOutboxJitter rand) now 10 (30 * second) (25 * second)
       false 1 2 ("outbox-" ++ pretty nano)%string 3 (30 * second) false).

Definition retryDelay (o : Outbox) (tick : nat) (attempts : Z) : Z :=
  let base := o_backoff o attempts in
  if base <=? 0 then 0 else
  let delay := o_jitter o tick base in
  if delay <? 0 then 0 else
  if base <? delay then base else delay.

(** ** Enqueueing *)

(** The row an INSERT creates: column defaults of the migration, [dbnow] being
    the transaction's [now()]. *)
Definition new_row (id dbnow : Z) (e : Entry) : Row :=
  mkRow id (e_TenantID e) (e_Destination e) (e_Payload e) (e_IdempotencyKey e)
    "pending" 0 None dbnow None None None.

Definition Enqueue (dbnow : Z) (db : DB) (e : Entry) : Z * DB :=
  (db_seq db, mkDB (db_rows db ++ [new_row (db_seq db) dbnow e]) (db_seq db + 1)).

Definition same_key (tenant key : string) (r : Row) : bool :=
  String.eqb (r_tenant r) tenant && String.eqb (r_key r) key.

Definition EnqueueIfAbsent (dbnow : Z) (db : DB) (e : Entry) : bool * DB :=
  if existsb (same_key (e_TenantID e) (e_IdempotencyKey e)) (db_rows db)
  then (false, db)
  else (true, snd (Enqueue dbnow db e)).

(** ** Observation *)

Definition record_of (r : Row) : OutboxRecord :=
  mkOutboxRecord (r_id r) (r_tenant r) (r_destination r) (r_key r) (r_status r)
    (r_attempts r) (r_last_error r) (r_payload r).

(** The tenant's rows that are not delivered; the table is in id order. *)
Definition Pending (db : DB) (tenantID : string) : list OutboxRecord :=
  record_of <$> List.filter (fun r => String.eqb (r_tenant r) tenantID
                              && negb (String.eqb (r_status r) "delivered")) (db_rows db).

Definition Get (db : DB) (tenantID : string) (id : Z) : option OutboxRecord :=
  record_of <$> List.find (fun r => String.eqb (r_tenant r) tenantID && (r_id r =? id)) (db_rows db).

(** ** Retention sweep *)

Definition DefaultRetention : Z := 24 * 60 * minute.

(** [outboxgc.New]: a non-positive window is the default one. *)
Definition new_retention (retention : Z) : Z :=
  if retention <=? 0 then DefaultRetention else retention.

Definition swept (cutoff : Z) (r : Row) : bool :=
  String.eqb (r_status r) "delivered"
  && match r_delivered_at r with Some t => t <? cutoff | None => false end.

(** Returns the number of rows reclaimed. *)
Definition Sweep (retention now : Z) (db : DB) : Z * DB :=
  let cutoff := now - retention in
  (Z.of_nat (length (List.filter (swept cutoff) (db_rows db))),
   mkDB (List.filter (fun r => negb (swept cutoff r)) (db_rows db)) (db_seq db)).

Definition Count (db : DB) : Z := Z.of_nat (length (db_rows db)).

(** ** Backoff lemmas *)

Lemma backoff_loop_spec n delay :
  0 < delay -> backoff_loop n delay = Z.min capDelay (delay * 2 ^ Z.of_nat n).
Proof.
  revert delay. induction n as [|n IH]; intros delay Hd.
  - cbn [backoff_loop]. change (2 ^ Z.of_nat 0) with 1.
    destruct (Z.ltb_spec capDelay delay); lia.
  - cbn [backoff_loop]. rewrite Nat2Z.inj_succ, Z.pow_succ_r by lia.
    pose proof (Z.pow_pos_nonneg 2 (Z.of_nat n)) as Hp.
    destruct (Z.leb_spec (capDelay / 2) delay) as [H|H].
    + change (capDelay / 2) with 150000000000 in H. change capDelay with 300000000000.
      rewrite Z.min_l; [done|]. nia.
    + rewrite IH by lia. f_equal. ring.
Qed.

(** The delay is one second doubled per attempt, capped at five minutes. *)
Lemma defaultOutboxBackoff_spec attempts :
  1 <= attempts ->
  defaultOutboxBackoff attempts = Z.min capDelay (second * 2 ^ (attempts - 1)).
Proof.
  intros H. unfold defaultOutboxBackoff.
  destruct (Z.leb_spec attempts 0); [lia|].
  rewrite backoff_loop_spec by done. by rewrite Z2Nat.id by lia.
Qed.

Lemma defaultOutboxBackoff_bounds attempts :
  second <= defaultOutboxBackoff attempts <= capDelay.
Proof.
  destruct (Z.leb_spec attempts 0) as [H|H].
  - unfold defaultOutboxBackoff. destruct (Z.leb_spec attempts 0); [|lia].
    change capDelay with (300 * second). unfold second. lia.
  - rewrite defaultOutboxBackoff_spec by lia.
    assert (1 <= 2 ^ (attempts - 1)) by (apply Z.lt_pred_le, Z.pow_pos_nonneg; lia).
    change capDelay with (300 * second). unfold second. lia.
Qed.

Lemma defaultOutboxJitter_bounds rand k base :
  (forall n, 0 < n -> 0 <= rand k n < n) -> 0 < base ->
  base / 2 <= defaultOutboxJitter rand k base <= base.
Proof.
  intros Hr Hb. unfold defaultOutboxJitter.
  destruct (Z.leb_spec base 0); [lia|].
  pose proof (Z.div_lt_upper_bound base 2 base) as Hd.
  destruct (Z.leb_spec (base - base / 2) 0); [lia|].
  specialize (Hr (base - base / 2 + 1)). lia.
Qed.

(** Whatever the configured functions return, the delay is within the base. *)
Lemma retryDelay_bounds o k attempts :
  0 <= retryDelay o k attempts <= Z.max 0 (o_backoff o attempts).
Proof.
  unfold retryDelay. repeat case_goal; try rewrite ?Z.leb_le, ?Z.ltb_lt in *;
    rewrite ?Z.leb_nle, ?Z.ltb_nlt in *; lia.
Qed.

(** ** Enqueue lemmas *)

(** Rows carry distinct ids below the identity sequence. *)
Definition ids_ok (db : DB) : Prop :=
  NoDup (r_id <$> db_rows db) /\ Forall (fun r => r_id r < db_seq db) (db_rows db).

Definition ids_okb (db : DB) : bool :=
  bool_decide (NoDup (r_id <$> db_rows db)) && forallb (fun r => r_id r <? db_seq db) (db_rows db).

Lemma ids_okb_ok db : ids_okb db = true -> ids_ok db.
Proof.
  unfold ids_okb. rewrite andb_true_iff, bool_decide_eq_true, forallb_forall. intros [Hn Hf].
  split; [done|]. apply Forall_forall. intros r Hr. apply Z.ltb_lt, Hf. by apply list_elem_of_In.
Qed.

(** One row per (tenant, idempotency key). *)
Definition keys_unique (db : DB) : Prop :=
  NoDup ((fun r => (r_tenant r, r_key r)) <$> db_rows db).

Definition has_key (db : DB) (tenant key : string) : Prop :=
  exists r, r ∈ db_rows db /\ r_tenant r = tenant /\ r_key r = key.

Lemma same_key_spec tenant key r :
  same_key tenant key r = true <-> r_tenant r = tenant /\ r_key r = key.
Proof. unfold same_key. by rewrite andb_true_iff, !String.eqb_eq. Qed.

Lemma existsb_same_key db tenant key :
  existsb (same_key tenant key) (db_rows db) = true <-> has_key db tenant key.
Proof.
  rewrite existsb_exists. unfold has_key. setoid_rewrite <- list_elem_of_In.
  by setoid_rewrite same_key_spec.
Qed.

#[global] Instance has_key_dec db tenant key : Decision (has_key db tenant key).
Proof.
  destruct (existsb (same_key tenant key) (db_rows db)) eqn:E.
  - left. by apply existsb_same_key.
  - right. rewrite <- existsb_same_key, E. done.
Defined.

(** The two branches of the conditional insert. *)
Lemma EnqueueIfAbsent_spec dbnow db e :
  EnqueueIfAbsent dbnow db e =
  if decide (has_key db (e_TenantID e) (e_IdempotencyKey e))
  then (false, db) else (true, snd (Enqueue dbnow db e)).
Proof.
  unfold EnqueueIfAbsent.
  destruct (decide _) as [H|H]; rewrite <- existsb_same_key in H; [by rewrite H|].
  by destruct (existsb _ _).
Qed.

Lemma Enqueue_has_key dbnow db e :
  has_key (snd (Enqueue dbnow db e)) (e_TenantID e) (e_IdempotencyKey e).
Proof. eexists. split; [apply elem_of_app; right; by left|done]. Qed.

Lemma Enqueue_has_key_mono dbnow db e t k :
  has_key db t k -> has_key (snd (Enqueue dbnow db e)) t k.
Proof. intros (r & Hr & ?). exists r. split; [simpl; apply elem_of_app; by left|done]. Qed.

Lemma EnqueueIfAbsent_has_key dbnow db e :
  has_key (snd (EnqueueIfAbsent dbnow db e)) (e_TenantID e) (e_IdempotencyKey e).
Proof. rewrite EnqueueIfAbsent_spec. case_decide; [done|apply Enqueue_has_key]. Qed.

Lemma EnqueueIfAbsent_has_key_mono dbnow db e t k :
  has_key db t k -> has_key (snd (EnqueueIfAbsent dbnow db e)) t k.
Proof.
  rewrite EnqueueIfAbsent_spec. case_decide; simpl; [done|apply Enqueue_has_key_mono].
Qed.

Lemma EnqueueIfAbsent_keys_unique dbnow db e :
  keys_unique db -> keys_unique (snd (EnqueueIfAbsent dbnow db e)).
Proof.
  rewrite EnqueueIfAbsent_spec. case_decide as H; [done|]. unfold keys_unique. simpl.
  intros Hn. rewrite fmap_app. apply NoDup_app. split_and!; [done| |apply NoDup_singleton].
  intros [t k] Hin Hnew. apply H. simpl in Hnew. apply list_elem_of_singleton in Hnew.
  simplify_eq. apply list_elem_of_fmap in Hin as (r & Heq & Hr). exists r. naive_solver.
Qed.

Lemma Enqueue_ids_ok dbnow db e : ids_ok db -> ids_ok (snd (Enqueue dbnow db e)).
Proof.
  intros [Hn Hf]. split; simpl.
  - rewrite fmap_app. apply NoDup_app. split_and!; [done| |apply NoDup_singleton].
    intros i Hi Hnew. apply list_elem_of_singleton in Hnew. simpl in Hnew.
    apply list_elem_of_fmap in Hi as (r & Heq & Hr).
    rewrite Forall_forall in Hf. specialize (Hf r Hr). lia.
  - apply Forall_app. split; [|repeat constructor; simpl; lia].
    eapply Forall_impl; [exact Hf|]. simpl. lia.
Qed.

Lemma EnqueueIfAbsent_ids_ok dbnow db e :
  ids_ok db -> ids_ok (snd (EnqueueIfAbsent dbnow db e)).
Proof. rewrite EnqueueIfAbsent_spec. case_decide; [done|apply Enqueue_ids_ok]. Qed.

(** ** Sweep lemmas *)

(** The sweep reclaims exactly the rows delivered before the window. *)
Lemma Sweep_spec retention now db r :
  r ∈ db_rows (snd (Sweep retention now db)) <->
  r ∈ db_rows db /\
  ~ (r_status r = "delivered" /\ exists t, r_delivered_at r = Some t /\ t < now - retention).
Proof.
  simpl. rewrite list_elem_of_In, filter_In, <- list_elem_of_In.
  apply and_iff_compat_l. unfold swept.
  rewrite negb_true_iff, andb_false_iff, String.eqb_neq.
  destruct (r_delivered_at r) as [t|].
  - rewrite Z.ltb_ge. split; [intros [?|?] (? & ? & ? & ?); simplify_eq; (done || lia)|].
    intros Hn. destruct (decide (r_status r = "delivered")); [|by left].
    right. apply Z.nlt_ge. intros Hlt. apply Hn. eauto.
  - split; [intros _ (_ & ? & ? & _); discriminate|by right].
Qed.

Lemma Sweep_idem retention now db :
  Sweep retention now (snd (Sweep retention now db)) = (0, snd (Sweep retention now db)).
Proof.
  unfold Sweep. simpl. set (f := swept _).
  assert (Hz : List.filter f (List.filter (fun r => negb (f r)) (db_rows db)) = []).
  { induction (db_rows db) as [|r l IH]; simpl; [done|].
    destruct (f r) eqn:E; simpl; [done|]. by rewrite E. }
  rewrite Hz. simpl. f_equal. f_equal.
  induction (db_rows db) as [|r l IH]; simpl; [done|].
  simpl in Hz. destruct (f r) eqn:E; simpl in *; [by apply IH|].
  rewrite E in *. simpl. f_equal. by apply IH.
Qed.

End Outbox.
