(* ===== verification/Circuit.v ===== *)
(** * The per-(tenant, destination) circuit breaker of the outbox worker

    Models the circuit functions of [src/internal/orchestrator/outbox.go]
    ([reserveHalfOpenProbes] to [CircuitStates]).  The breaker is the in-memory
    map of circuits plus the transitions handed to the observer.  A loop over
    the Go map acts on each key independently, so it is a map over the finite
    map; where the code collects a slice, the order is that of [map_to_list],
    one of the orders Go may take. *)

From S2P Require Import Prelude Json Outbox.
Open Scope string_scope.
Open Scope list_scope.
Open Scope Z_scope.

Module Circuit.
Import Outbox.

Record Breaker := mkBreaker {
  b_circuits : gmap circuitKey outboxCircuit;
  b_emitted : list CircuitTransition
}.

Definition empty_breaker : Breaker := mkBreaker ∅ [].

Definition emitCircuitTransitions (o : Outbox) (trs : list CircuitTransition) (b : Breaker) : Breaker :=
  if o_circuitObserver o then mkBreaker (b_circuits b) (b_emitted b ++ trs) else b.

(** What the [switch] of [reserveHalfOpenProbes] decides for one circuit. *)
Inductive verdict := Blocked | Reserved | Untouched.

#[export] Instance verdict_eq_dec : EqDecision verdict.
Proof. solve_decision. Defined.

Definition judge (now : Z) (c : outboxCircuit) : verdict :=
  match k_state c with
  | CircuitOpen => if now <? k_openUntil c then Blocked else Reserved
  | CircuitHalfOpen => Blocked
  | CircuitClosed => Untouched
  end.

Definition to_half_open (now : Z) (c : outboxCircuit) : outboxCircuit :=
  mkCircuit CircuitHalfOpen (k_failures c) (k_openUntil c) now (k_lastError c).

Definition half_open_transition (key : circuitKey) (c : outboxCircuit) : CircuitTransition :=
  mkCircuitTransition (fst key) (snd key) (k_state c) CircuitHalfOpen (k_failures c) (k_openUntil c).

Definition reserveHalfOpenProbes (o : Outbox) (now : Z) (b : Breaker)
  : list string * gset circuitKey * Breaker :=
  if o_circuitFailureThreshold o <=? 0 then ([], ∅, b) else
  let m := b_circuits b in
  let blocked := omap (fun kc => if decide (judge now (snd kc) = Blocked)
                                 then Some (circuitKey_string (fst kc)) else None) (map_to_list m) in
  let reserved := dom (filter (fun kc => judge now (snd kc) = Reserved) m) in
  let transitions := omap (fun kc => if decide (judge now (snd kc) = Reserved)
                                     then Some (half_open_transition (fst kc) (snd kc)) else None) (map_to_list m) in
  let m' := (fun c => if decide (judge now c = Reserved) then to_half_open now c else c) <$> m in
  (blocked, reserved, emitCircuitTransitions o transitions (mkBreaker m' (b_emitted b))).

Definition to_reopened (now : Z) (c : outboxCircuit) : outboxCircuit :=
  mkCircuit CircuitOpen (k_failures c) now now (k_lastError c).

Definition releaseUnclaimedHalfOpenProbes (reserved : gset circuitKey) (claimed : circuitKey)
    (now : Z) (b : Breaker) : Breaker :=
  mkBreaker
    (map_imap (fun key c =>
       Some (if decide (key ∈ reserved /\ key <> claimed /\ k_state c = CircuitHalfOpen)
             then to_reopened now c else c)) (b_circuits b))
    (b_emitted b).

Definition closed_circuit : outboxCircuit := mkCircuit CircuitClosed 0 0 0 None.

Definition recordCircuitFailure (o : Outbox) (m : Message) (err : deliverError) (now : Z) (b : Breaker) : Breaker :=
  if o_circuitFailureThreshold o <=? 0 then b else
  let key : circuitKey := (m_TenantID m, m_Destination m) in
  let circuit := default closed_circuit (b_circuits b !! key) in
  let from := k_state circuit in
  let failures := k_failures circuit + 1 in
  let circuit' :=
    if bool_decide (k_state circuit = CircuitHalfOpen) || (o_circuitFailureThreshold o <=? failures)
    then mkCircuit CircuitOpen failures (now + o_circuitOpenDuration o) now (Some err)
    else mkCircuit (k_state circuit) failures (k_openUntil circuit) now (Some err) in
  let b' := mkBreaker (<[key := circuit']> (b_circuits b)) (b_emitted b) in
  if decide (from = k_state circuit') then b'
  else emitCircuitTransitions o
         [mkCircuitTransition (fst key) (snd key) from (k_state circuit') (k_failures circuit') (k_openUntil circuit')] b'.

(** The zero time of [time.Time{}] is 0. *)
Definition recordCircuitSuccess (o : Outbox) (m : Message) (now : Z) (b : Breaker) : Breaker :=
  if o_circuitFailureThreshold o <=? 0 then b else
  let key : circuitKey := (m_TenantID m, m_Destination m) in
  match b_circuits b !! key with
  | None => b
  | Some circuit =>
      let from := k_state circuit in
      let circuit' := mkCircuit CircuitClosed 0 0 now None in
      let b' := mkBreaker (<[key := circuit']> (b_circuits b)) (b_emitted b) in
      if decide (from = CircuitClosed) then b'
      else emitCircuitTransitions o
             [mkCircuitTransition (fst key) (snd key) from CircuitClosed 0 0] b'
  end.

(** The snapshot, sorted by tenant and then destination. *)
Definition key_ltb (a b : CircuitSnapshot) : bool :=
  if String.eqb (cs_TenantID a) (cs_TenantID b)
  then String.ltb (cs_Destination a) (cs_Destination b)
  else String.ltb (cs_TenantID a) (cs_TenantID b).

Fixpoint insert_snapshot (x : CircuitSnapshot) (l : list CircuitSnapshot) : list CircuitSnapshot :=
  match l with
  | [] => [x]
  | y :: l' => if key_ltb y x then y :: insert_snapshot x l' else x :: y :: l'
  end.

Definition snapshot_of (kc : circuitKey * outboxCircuit) : CircuitSnapshot :=
  mkCircuitSnapshot (fst (fst kc)) (snd (fst kc)) (k_state (snd kc)) (k_failures (snd kc))
    (k_openUntil (snd kc)) (k_updatedAt (snd kc)) (k_lastError (snd kc)).

Definition CircuitStates (b : Breaker) : list CircuitSnapshot :=
  foldr insert_snapshot [] (snapshot_of <$> map_to_list (b_circuits b)).

(** ** Lemmas *)

Lemma emit_circuits o trs b : b_circuits (emitCircuitTransitions o trs b) = b_circuits b.
Proof. unfold emitCircuitTransitions. by case_goal. Qed.

(** What an observer of a key sees: the consecutive failures and the state,
    zero and closed for a key with no circuit. *)
Definition failures_at (b : Breaker) (k : circuitKey) : Z :=
  match b_circuits b !! k with Some c => k_failures c | None => 0 end.

Definition state_at (b : Breaker) (k : circuitKey) : CircuitState :=
  match b_circuits b !! k with Some c => k_state c | None => CircuitClosed end.

(** A circuit is closed exactly while it is under the threshold. *)
Definition circuit_ok (threshold : Z) (b : Breaker) (k : circuitKey) : Prop :=
  0 <= failures_at b k /\ (state_at b k = CircuitClosed <-> failures_at b k < threshold).

(** The operations of the breaker, for statements about whole histories. *)
Inductive cop :=
| OpReserve (now : Z)
| OpRelease (reserved : gset circuitKey) (claimed : circuitKey) (now : Z)
| OpFailure (m : Message) (err : deliverError) (now : Z)
| OpSuccess (m : Message) (now : Z).

Definition run_op (o : Outbox) (b : Breaker) (op : cop) : Breaker :=
  match op with
  | OpReserve now => snd (reserveHalfOpenProbes o now b)
  | OpRelease reserved claimed now => releaseUnclaimedHalfOpenProbes reserved claimed now b
  | OpFailure m err now => recordCircuitFailure o m err now b
  | OpSuccess m now => recordCircuitSuccess o m now b
  end.

Definition run_ops (o : Outbox) (b : Breaker) (ops : list cop) : Breaker :=
  fold_left (run_op o) ops b.

Definition msg_key (m : Message) : circuitKey := (m_TenantID m, m_Destination m).

(** Failures of [k] after its last success: the abstract count. *)
Definition streak_step (k : circuitKey) (n : Z) (op : cop) : Z :=
  match op with
  | OpFailure m _ _ => if decide (msg_key m = k) then n + 1 else n
  | OpSuccess m _ => if decide (msg_key m = k) then 0 else n
  | _ => n
  end.

Definition streak (k : circuitKey) (ops : list cop) : Z := fold_left (streak_step k) ops 0.

Lemma reserve_lookup o now b k :
  0 < o_circuitFailureThreshold o ->
  b_circuits (snd (reserveHalfOpenProbes o now b)) !! k =
  (fun c => if decide (judge now c = Reserved) then to_half_open now c else c) <$> (b_circuits b !! k).
Proof.
  intros Ht. unfold reserveHalfOpenProbes.
  destruct (Z.leb_spec (o_circuitFailureThreshold o) 0); [lia|].
  cbn [snd]. rewrite emit_circuits. cbn [b_circuits]. by rewrite lookup_fmap.
Qed.

Lemma release_lookup reserved claimed now b k :
  b_circuits (releaseUnclaimedHalfOpenProbes reserved claimed now b) !! k =
  (fun c => if decide (k ∈ reserved /\ k <> claimed /\ k_state c = CircuitHalfOpen)
            then to_reopened now c else c) <$> (b_circuits b !! k).
Proof.
  cbn [releaseUnclaimedHalfOpenProbes b_circuits]. rewrite map_lookup_imap.
  by destruct (b_circuits b !! k).
Qed.

Lemma failure_lookup_ne o m err now b k :
  k <> msg_key m -> b_circuits (recordCircuitFailure o m err now b) !! k = b_circuits b !! k.
Proof.
  intros Hk. unfold recordCircuitFailure. case_goal; [done|].
  case_goal; rewrite ?emit_circuits; cbn [b_circuits]; by rewrite lookup_insert_ne.
Qed.

Lemma success_lookup_ne o m now b k :
  k <> msg_key m -> b_circuits (recordCircuitSuccess o m now b) !! k = b_circuits b !! k.
Proof.
  intros Hk. unfold recordCircuitSuccess. case_goal; [done|].
  case_goal; [|done].
  case_goal; rewrite ?emit_circuits; cbn [b_circuits]; by rewrite lookup_insert_ne.
Qed.

Lemma failure_at_key o m err now b :
  0 < o_circuitFailureThreshold o ->
  let c := default closed_circuit (b_circuits b !! msg_key m) in
  b_circuits (recordCircuitFailure o m err now b) !! msg_key m =
  Some (if bool_decide (k_state c = CircuitHalfOpen \/ o_circuitFailureThreshold o <= k_failures c + 1)
        then mkCircuit CircuitOpen (k_failures c + 1) (now + o_circuitOpenDuration o) now (Some err)
        else mkCircuit (k_state c) (k_failures c + 1) (k_openUntil c) now (Some err)).
Proof.
  intros Ht c. unfold recordCircuitFailure.
  destruct (Z.leb_spec (o_circuitFailureThreshold o) 0); [lia|].
  fold (msg_key m). fold c.
  assert (Hg : bool_decide (k_state c = CircuitHalfOpen) || (o_circuitFailureThreshold o <=? k_failures c + 1)
          = bool_decide (k_state c = CircuitHalfOpen \/ o_circuitFailureThreshold o <= k_failures c + 1)).
  { apply eq_true_iff_eq. rewrite orb_true_iff, !bool_decide_eq_true, Z.leb_le. done. }
  rewrite Hg.
  case_goal; rewrite ?emit_circuits; cbn [b_circuits]; by rewrite lookup_insert_eq.
Qed.

Lemma success_at_key o m now b :
  0 < o_circuitFailureThreshold o ->
  b_circuits (recordCircuitSuccess o m now b) !! msg_key m =
  (fun _ => mkCircuit CircuitClosed 0 0 now None) <$> (b_circuits b !! msg_key m).
Proof.
  intros Ht. unfold recordCircuitSuccess.
  destruct (Z.leb_spec (o_circuitFailureThreshold o) 0); [lia|].
  fold (msg_key m). destruct (b_circuits b !! msg_key m) eqn:E; [|by rewrite E].
  case_goal; rewrite ?emit_circuits; cbn [b_circuits]; by rewrite lookup_insert_eq.
Qed.

(** One operation advances the count of every key as its abstract streak, and
    keeps the tie between the count and the state. *)
Lemma run_op_refines o b op k :
  0 < o_circuitFailureThreshold o ->
  circuit_ok (o_circuitFailureThreshold o) b k ->
  failures_at (run_op o b op) k = streak_step k (failures_at b k) op /\
  circuit_ok (o_circuitFailureThreshold o) (run_op o b op) k.
Proof.
  intros Ht. unfold circuit_ok, failures_at, state_at.
  destruct op as [now|reserved claimed now|m err now|m now]; cbn [run_op streak_step].
  - rewrite reserve_lookup by done. destruct (b_circuits b !! k) as [c|]; simpl; [|done].
    intros [H0 Hok]. unfold judge.
    destruct (k_state c) eqn:E; [| |]; repeat case_decide; simpl; rewrite ?E in *; try done.
    case_in H; [done|]. simpl. split; [done|]. split; [done|]. rewrite <- Hok. done.
  - rewrite release_lookup. destruct (b_circuits b !! k) as [c|]; simpl; [|done].
    intros [H0 Hok]. case_decide as Hd; [|done]. simpl.
    destruct Hd as (_ & _ & E). rewrite E in Hok. split; [done|]. split; [done|]. rewrite <- Hok. done.
  - case_decide as Hk.
    + subst k. rewrite failure_at_key by done.
      destruct (b_circuits b !! msg_key m) as [c|]; simpl; intros [H0 Hok];
        case_bool_decide as Hd; simpl; (split; [done|]); (split; [lia|]).
      * split; [done|]. destruct Hd as [E|?]; [|lia]. rewrite E in Hok.
        intros. exfalso. assert (CircuitHalfOpen = CircuitClosed) by (apply Hok; lia). done.
      * rewrite Hok. lia.
      * split; [done|]. destruct Hd; [done|lia].
      * split; [lia|done].
    + rewrite failure_lookup_ne by done. done.
  - case_decide as Hk.
    + subst k. rewrite success_at_key by done.
      destruct (b_circuits b !! msg_key m) as [c|]; simpl; intros _;
        (split; [done|]); (split; [lia|]); (split; [lia|done]).
    + rewrite success_lookup_ne by done. done.
Qed.

Lemma run_ops_refines o b ops k n :
  0 < o_circuitFailureThreshold o ->
  circuit_ok (o_circuitFailureThreshold o) b k -> failures_at b k = n ->
  failures_at (run_ops o b ops) k = fold_left (streak_step k) ops n /\
  circuit_ok (o_circuitFailureThreshold o) (run_ops o b ops) k.
Proof.
  intros Ht. revert b n. induction ops as [|op ops IH]; intros b n Hok Hn; [done|].
  destruct (run_op_refines o b op k Ht Hok) as [Hf Hok']. cbn [run_ops fold_left].
  apply IH; [done|]. by rewrite Hf, Hn.
Qed.

End Circuit.
