(* ===== verification/Dispatch.v ===== *)
(** * The outbox worker: claim, deliver, finalize

    Models [Dispatch], [deliver], [claimOne] and [finalizeClaim] of
    [src/internal/orchestrator/outbox.go].  A database transaction is a
    function of the table; a transport fault ([env_fault]) aborts it and the
    table is the one before.  Every reading of the outside world (clock, jitter
    source, fault, outcome of the external call) consumes one tick of the
    worker, so that no reading is assumed to repeat. *)

From S2P Require Import Prelude Json Outbox Circuit.
Open Scope string_scope.
Open Scope list_scope.
Open Scope Z_scope.

Module Dispatch.
Import Outbox Circuit.

(** What one call of the handler did: the error it returned, if any, with
    whether it wraps [context.DeadlineExceeded]; whether the parent context was
    done; whether the per-delivery deadline had passed. *)
Record outcome := mkOutcome {
  oc_err : option (string * bool);
  oc_parent_done : bool;
  oc_deadline : bool
}.

Record Env := mkEnv {
  env_dbnow : nat -> Z;
  env_fault : nat -> bool;
  env_deliver : nat -> Message -> outcome
}.

(** The in-memory side of one worker: its oracle tick, its circuit breaker, the
    calls of the timeout observer and the external calls it has made. *)
Record Worker := mkWorker {
  w_tick : nat;
  w_breaker : Breaker;
  w_timeouts : list Message;
  w_calls : list (Message * option deliverError)
}.

Inductive obError :=
| DBFault
| LeaseLost (id : Z).

Definition bump (w : Worker) : Worker :=
  mkWorker (S (w_tick w)) (w_breaker w) (w_timeouts w) (w_calls w).

Definition set_breaker (b : Breaker) (w : Worker) : Worker :=
  mkWorker (w_tick w) b (w_timeouts w) (w_calls w).

Definition clockNow (o : Outbox) (w : Worker) : Z * Worker := (o_now o (w_tick w), bump w).

(** Whether the next database call fails. *)
Definition dbcall (env : Env) (w : Worker) : bool * Worker := (env_fault env (w_tick w), bump w).

(** ** deliver *)

Definition deliver (o : Outbox) (env : Env) (c : claimedOutboxEntry) (w : Worker)
  : option deliverError * Worker :=
  let out := env_deliver env (w_tick w) (c_msg c) in
  let timedOut :=
    (0 <? o_deliveryTimeout o) && negb (oc_parent_done out) && oc_deadline out
    && match oc_err out with Some (_, is_deadline) => is_deadline | None => false end in
  let err :=
    match oc_err out with
    | None => None
    | Some (text, _) =>
        if timedOut then Some (TimedOut (o_deliveryTimeout o) text) else Some (HandlerError text)
    end in
  let timeouts :=
    if timedOut && o_deliveryTimeoutObserver o then (w_timeouts w ++ [c_msg c])%list else w_timeouts w in
  (err, mkWorker (S (w_tick w)) (w_breaker w) timeouts (w_calls w ++ [(c_msg c, err)])%list).

(** ** claimOne *)

Definition is_status (s : string) (r : Row) : bool := String.eqb (r_status r) s.

Definition lease_expired (now : Z) (r : Row) : bool :=
  is_status "processing" r && match r_lease r with Some t => t <=? now | None => false end.

Definition lease_live (now : Z) (r : Row) : bool :=
  is_status "processing" r && match r_lease r with Some t => now <? t | None => false end.

(** [SET status = 'pending', worker_id = NULL, lease_until = NULL]. *)
Definition recovered (r : Row) : Row :=
  mkRow (r_id r) (r_tenant r) (r_destination r) (r_payload r) (r_key r) "pending" (r_attempts r)
    (r_last_error r) (r_next r) (r_delivered_at r) None None.

Definition recover_leases (now : Z) (rows : list Row) : list Row :=
  map (fun r => if lease_expired now r then recovered r else r) rows.

Definition count_rows (f : Row -> bool) (rows : list Row) : Z := Z.of_nat (length (List.filter f rows)).

Definition due (cutoff : Z) (r : Row) : bool := is_status "pending" r && (r_next r <=? cutoff).

(** [(a.next_attempt_at, a.id) < (b.next_attempt_at, b.id)]. *)
Definition row_ltb (a b : Row) : bool :=
  (r_next a <? r_next b) || ((r_next a =? r_next b) && (r_id a <? r_id b)).

Definition same_queue (a b : Row) : bool :=
  String.eqb (r_tenant a) (r_tenant b) && String.eqb (r_destination a) (r_destination b).

Definition mapKeys (m : gset string) : list string := elements m.

Definition mem (s : string) (l : list string) : bool := existsb (String.eqb s) l.

(** The WHERE clause of the candidate query. *)
Definition eligible (o : Outbox) (cutoff now : Z) (seenT seenD : list string) (blocked : list string)
    (rows : list Row) (r : Row) : bool :=
  due cutoff r
  && negb (mem (r_tenant r) seenT)
  && negb (mem (r_destination r) seenD)
  && negb (mem (circuitKey_string (r_tenant r, r_destination r)) blocked)
  && (count_rows (fun p => lease_live now p && String.eqb (r_destination p) (r_destination r)) rows
        <? o_maxInFlightPerDestination o)
  && (count_rows (fun p => lease_live now p && String.eqb (r_tenant p) (r_tenant r)) rows
        <? o_maxInFlightPerTenant o)
  && negb (existsb (fun older => due cutoff older && same_queue older r && row_ltb older r) rows).

(** [ORDER BY next_attempt_at, id LIMIT 1]. *)
Fixpoint first_row (l : list Row) : option Row :=
  match l with
  | [] => None
  | r :: l' =>
      match first_row l' with
      | Some s => if row_ltb s r then Some s else Some r
      | None => Some r
      end
  end.

Definition claimed_row (worker : string) (leaseUntil : Z) (r : Row) : Row :=
  mkRow (r_id r) (r_tenant r) (r_destination r) (r_payload r) (r_key r) "processing" (r_attempts r + 1)
    None (r_next r) (r_delivered_at r) (Some worker) (Some leaseUntil).

Definition update_id (id : Z) (f : Row -> Row) (rows : list Row) : list Row :=
  map (fun r => if r_id r =? id then f r else r) rows.

(** The claim handed back: the columns of RETURNING. *)
Definition claim_of (r : Row) : claimedOutboxEntry :=
  mkClaim (r_id r)
    (mkMessage (r_id r) (r_tenant r) (r_destination r) (r_key r) (r_payload r) (r_attempts r))
    (r_attempts r).

Definition no_key : circuitKey := (EmptyString, EmptyString).

Definition release (reserved : gset circuitKey) (claimed : circuitKey) (now : Z) (w : Worker) : Worker :=
  set_breaker (releaseUnclaimedHalfOpenProbes reserved claimed now (w_breaker w)) w.

Definition claimOne (o : Outbox) (env : Env) (cutoff : Z) (seenT seenD : gset string) (db : DB) (w : Worker)
  : result obError (option claimedOutboxEntry) * DB * Worker :=
  let '(begin_fails, w) := dbcall env w in
  if begin_fails then (Err DBFault, db, w) else
  let '(now, w) := clockNow o w in
  let '(blocked, reserved, b) := reserveHalfOpenProbes o now (w_breaker w) in
  let w := set_breaker b w in
  let '(recover_fails, w) := dbcall env w in
  if recover_fails then (Err DBFault, db, release reserved no_key now w) else
  let rows := recover_leases now (db_rows db) in
  let leaseUntil := now + o_leaseTTL o in
  let '(query_fails, w) := dbcall env w in
  if query_fails then (Err DBFault, db, release reserved no_key now w) else
  match first_row (List.filter (eligible o cutoff now (mapKeys seenT) (mapKeys seenD) blocked rows) rows) with
  | None =>
      let w := release reserved no_key now w in
      let '(commit_fails, w) := dbcall env w in
      if commit_fails then (Err DBFault, db, w) else (Ok None, mkDB rows (db_seq db), w)
  | Some r =>
      let '(commit_fails, w) := dbcall env w in
      if commit_fails then (Err DBFault, db, release reserved no_key now w) else
      let rows' := update_id (r_id r) (claimed_row (o_workerID o) leaseUntil) rows in
      let c := claim_of (claimed_row (o_workerID o) leaseUntil r) in
      (Ok (Some c), mkDB rows' (db_seq db),
       release reserved (m_TenantID (c_msg c), m_Destination (c_msg c)) now w)
  end.

(** ** finalizeClaim *)

(** The WHERE clause both updates share: the worker still holds the row. *)
Definition held (o : Outbox) (c : claimedOutboxEntry) (r : Row) : bool :=
  (r_id r =? c_id c) && String.eqb (r_tenant r) (m_TenantID (c_msg c))
  && is_status "processing" r
  && match r_worker r with Some wid => String.eqb wid (o_workerID o) | None => false end.

Definition failed_row (status : string) (err : deliverError) (next : Z) (r : Row) : Row :=
  mkRow (r_id r) (r_tenant r) (r_destination r) (r_payload r) (r_key r) status (r_attempts r)
    (Some err) next (r_delivered_at r) None None.

Definition delivered_row (dbnow : Z) (r : Row) : Row :=
  mkRow (r_id r) (r_tenant r) (r_destination r) (r_payload r) (r_key r) "delivered" (r_attempts r)
    None (r_next r) (Some dbnow) None None.

Definition update_where (p : Row -> bool) (f : Row -> Row) (rows : list Row) : list Row :=
  map (fun r => if p r then f r else r) rows.

Definition failure_status (o : Outbox) (c : claimedOutboxEntry) : string :=
  if o_maxAttempts o <=? c_attempts c then "failed" else "pending".

Definition finalizeClaim (o : Outbox) (env : Env) (c : claimedOutboxEntry) (deliverErr : option deliverError)
    (db : DB) (w : Worker) : result obError unit * DB * Worker :=
  let '(begin_fails, w) := dbcall env w in
  if begin_fails then (Err DBFault, db, w) else
  match deliverErr with
  | Some err =>
      let status := failure_status o c in
      let '(now, w) := clockNow o w in
      let next := now + retryDelay o (w_tick w) (c_attempts c) in
      let w := bump w in
      let '(exec_fails, w) := dbcall env w in
      if exec_fails then (Err DBFault, db, w) else
      if negb (count_rows (held o c) (db_rows db) =? 1) then (Err (LeaseLost (c_id c)), db, w) else
      let '(commit_fails, w) := dbcall env w in
      if commit_fails then (Err DBFault, db, w) else
      (Ok tt, mkDB (update_where (held o c) (failed_row status err next) (db_rows db)) (db_seq db),
       set_breaker (recordCircuitFailure o (c_msg c) err now (w_breaker w)) w)
  | None =>
      let '(exec_fails, w) := dbcall env w in
      if exec_fails then (Err DBFault, db, w) else
      if negb (count_rows (held o c) (db_rows db) =? 1) then (Err (LeaseLost (c_id c)), db, w) else
      let dbnow := env_dbnow env (w_tick w) in
      let '(commit_fails, w) := dbcall env w in
      if commit_fails then (Err DBFault, db, w) else
      let '(now, w) := clockNow o w in
      (Ok tt, mkDB (update_where (held o c) (delivered_row dbnow) (db_rows db)) (db_seq db),
       set_breaker (recordCircuitSuccess o (c_msg c) now (w_breaker w)) w)
  end.

(** ** Dispatch *)

(** The [for] loop; [None] only when the fuel is spent. *)
Fixpoint dispatch_loop (fuel : nat) (o : Outbox) (env : Env) (cutoff : Z) (seenT seenD : gset string)
    (processed : Z) (db : DB) (w : Worker) : option (Z * result obError unit * DB * Worker) :=
  match fuel with
  | O => None
  | S fuel' =>
      match claimOne o env cutoff seenT seenD db w with
      | (Err e, db, w) => Some (processed, Err e, db, w)
      | (Ok None, db, w) =>
          if decide (seenT = ∅ /\ seenD = ∅) then Some (processed, Ok tt, db, w)
          else dispatch_loop fuel' o env cutoff ∅ ∅ processed db w
      | (Ok (Some c), db, w) =>
          let seenT := {[ m_TenantID (c_msg c) ]} ∪ seenT in
          let seenD := {[ m_Destination (c_msg c) ]} ∪ seenD in
          let '(err, w) := deliver o env c w in
          match finalizeClaim o env c err db w with
          | (Err e, db, w) => Some (processed + 1, Err e, db, w)
          | (Ok tt, db, w) => dispatch_loop fuel' o env cutoff seenT seenD (processed + 1) db w
          end
      end
  end.

(** Attempts a row may still consume before it is delivered or dead-lettered. *)
Definition weight (maxAttempts : Z) (r : Row) : nat :=
  if is_status "pending" r || is_status "processing" r
  then Z.to_nat (Z.max 1 (maxAttempts - r_attempts r)) else 0.

Definition backlog (maxAttempts : Z) (rows : list Row) : nat := list_sum (weight maxAttempts <$> rows).

(** The fuel is twice the attempts the backlog may consume, for the empty round
    that may follow each claim, and one more round to find the queue drained;
    [Dispatch_terminates] shows it is enough. *)
Definition Dispatch (o : Outbox) (env : Env) (db : DB) (w : Worker) : option (Z * result obError unit * DB * Worker) :=
  let '(cutoff, w) := clockNow o w in
  dispatch_loop (2 * backlog (o_maxAttempts o) (db_rows db) + 2) o env cutoff ∅ ∅ 0 db w.

(** ** The table under one update *)

Lemma recover_leases_ids now rows : r_id <$> recover_leases now rows = r_id <$> rows.
Proof.
  induction rows as [|r rows IH]; simpl; [done|].
  f_equal; [by destruct (lease_expired now r)|exact IH].
Qed.

Lemma update_where_ids p f rows :
  (forall r, r_id (f r) = r_id r) -> r_id <$> update_where p f rows = r_id <$> rows.
Proof.
  intros Hf. induction rows as [|r rows IH]; simpl; [done|].
  f_equal; [by destruct (p r)|exact IH].
Qed.

Lemma update_where_none p f rows :
  Forall (fun r => p r = false) rows -> update_where p f rows = rows.
Proof. induction 1 as [|r rows Hr _ IH]; simpl; [done|]. by rewrite Hr, IH. Qed.

Lemma update_where_app p f l1 l2 :
  update_where p f (l1 ++ l2) = update_where p f l1 ++ update_where p f l2.
Proof. apply map_app. Qed.

(** With distinct ids, an update that selects one row of a split changes it
    alone. *)
Lemma ids_apart l1 r l2 :
  NoDup (r_id <$> l1 ++ r :: l2) ->
  Forall (fun x => r_id x <> r_id r) l1 /\ Forall (fun x => r_id x <> r_id r) l2.
Proof.
  rewrite fmap_app, fmap_cons, NoDup_app, NoDup_cons. intros (_ & H1 & Hr & _).
  rewrite !Forall_forall. split; intros x Hx Heq.
  - apply (H1 (r_id x)); [by apply list_elem_of_fmap_2|]. rewrite Heq. by left.
  - apply Hr. rewrite <- Heq. by apply list_elem_of_fmap_2.
Qed.

Lemma update_where_split p f l1 r l2 :
  NoDup (r_id <$> l1 ++ r :: l2) -> p r = true -> (forall x, p x = true -> r_id x = r_id r) ->
  update_where p f (l1 ++ r :: l2) = (l1 ++ f r :: l2)%list.
Proof.
  intros Hn Hr Hp. destruct (ids_apart _ _ _ Hn) as [H1 H2].
  assert (Hnone : forall l, Forall (fun x => r_id x <> r_id r) l -> Forall (fun x => p x = false) l).
  { intros l Hl. eapply Forall_impl; [exact Hl|]. intros x Hx. cbv beta in *. destruct (p x) eqn:E; [|done]. by apply Hp in E. }
  rewrite update_where_app. simpl. rewrite Hr.
  rewrite (update_where_none p f l1), (update_where_none p f l2) by auto. done.
Qed.

Lemma update_id_split f l1 r l2 :
  NoDup (r_id <$> l1 ++ r :: l2) -> update_id (r_id r) f (l1 ++ r :: l2) = (l1 ++ f r :: l2)%list.
Proof.
  intros Hn. apply (update_where_split (fun x => r_id x =? r_id r)); [done|lia|].
  intros x. apply Z.eqb_eq.
Qed.

Lemma count_held_split o c l1 r l2 :
  NoDup (r_id <$> l1 ++ r :: l2) -> held o c r = true -> count_rows (held o c) (l1 ++ r :: l2) = 1.
Proof.
  intros Hn Hr. destruct (ids_apart _ _ _ Hn) as [H1 H2].
  assert (Hid : r_id r = c_id c).
  { unfold held in Hr. rewrite !andb_true_iff in Hr. destruct Hr as [[[Hr _] _] _]. lia. }
  assert (Hz : forall l, Forall (fun x => r_id x <> r_id r) l -> List.filter (held o c) l = []).
  { induction 1 as [|x l Hx _ IH]; simpl; [done|].
    replace (held o c x) with false; [exact IH|]. unfold held.
    destruct (Z.eqb_spec (r_id x) (c_id c)); [congruence|done]. }
  unfold count_rows. rewrite List.filter_app. simpl. by rewrite Hr, !Hz.
Qed.

(** ** first_row *)

Lemma first_row_elem l r : first_row l = Some r -> r ∈ l.
Proof.
  revert r. induction l as [|x l IH]; simpl; intros r H; [done|].
  destruct (first_row l) as [s|] eqn:E; [|simplify_eq; by left].
  case_in H; simplify_eq; [right; by apply IH|by left].
Qed.

Lemma first_row_none l : first_row l = None -> l = [].
Proof. destruct l as [|x l]; simpl; [done|]. by repeat case_goal. Qed.

Lemma row_ltb_spec a b :
  row_ltb a b = true <-> r_next a < r_next b \/ (r_next a = r_next b /\ r_id a < r_id b).
Proof. unfold row_ltb. rewrite orb_true_iff, andb_true_iff, !Z.ltb_lt, Z.eqb_eq. done. Qed.

Lemma row_ltb_false a b :
  row_ltb a b = false <-> r_next b < r_next a \/ (r_next a = r_next b /\ r_id b <= r_id a).
Proof. rewrite <- not_true_iff_false, row_ltb_spec. lia. Qed.

Lemma first_row_least l r : first_row l = Some r -> Forall (fun s => row_ltb s r = false) l.
Proof.
  revert r. induction l as [|x l IH]; simpl; intros r H; [done|].
  destruct (first_row l) as [s|] eqn:E.
  - specialize (IH s eq_refl). case_in H; simplify_eq; constructor.
    + rewrite row_ltb_spec in Heq. rewrite row_ltb_false. lia.
    + done.
    + rewrite row_ltb_false. lia.
    + rewrite row_ltb_false in Heq. eapply Forall_impl; [exact IH|].
      intros y. cbv beta. rewrite !row_ltb_false. lia.
  - simplify_eq. apply first_row_none in E. subst. constructor; [|done]. rewrite row_ltb_false. lia.
Qed.

(** ** The three outcomes of a claim *)

(** The clock and the blocked circuits a claim works with. *)
Definition claim_now (o : Outbox) (w : Worker) : Z := o_now o (S (w_tick w)).
Definition claim_blocked (o : Outbox) (w : Worker) : list string :=
  fst (fst (reserveHalfOpenProbes o (claim_now o w) (w_breaker w))).

Definition claimable (o : Outbox) (cutoff : Z) (seenT seenD : gset string) (w : Worker) (rows : list Row) (r : Row) : bool :=
  eligible o cutoff (claim_now o w) (mapKeys seenT) (mapKeys seenD) (claim_blocked o w) rows r.

Lemma claimOne_cases o env cutoff seenT seenD db w res db' w' :
  claimOne o env cutoff seenT seenD db w = (res, db', w') ->
  let rows := recover_leases (claim_now o w) (db_rows db) in
  match res with
  | Err e => e = DBFault /\ db' = db /\ exists n, env_fault env n = true
  | Ok None =>
      db' = mkDB rows (db_seq db) /\
      Forall (fun r => claimable o cutoff seenT seenD w rows r = false) rows
  | Ok (Some c) =>
      exists r, r ∈ rows /\ claimable o cutoff seenT seenD w rows r = true /\
        Forall (fun s => claimable o cutoff seenT seenD w rows s = true -> row_ltb s r = false) rows /\
        c = claim_of (claimed_row (o_workerID o) (claim_now o w + o_leaseTTL o) r) /\
        db' = mkDB (update_id (r_id r) (claimed_row (o_workerID o) (claim_now o w + o_leaseTTL o)) rows) (db_seq db)
  end.
Proof.
  unfold claimOne, dbcall, clockNow. cbn [bump w_tick w_breaker set_breaker].
  fold (claim_now o w).
  destruct (env_fault env (w_tick w)) eqn:F0; [intros; simplify_eq; eauto|].
  unfold claimable, claim_blocked.
  destruct (reserveHalfOpenProbes o (claim_now o w) (w_breaker w)) as [[blocked reserved] b].
  cbn [fst bump w_tick w_breaker set_breaker release].
  case_goal; [intros; simplify_eq; eauto|].
  case_goal; [intros; simplify_eq; eauto|].
  set (rows := recover_leases _ _).
  set (el := eligible o cutoff _ _ _ blocked rows).
  destruct (first_row (List.filter el rows)) as [r|] eqn:E.
  - case_goal; intros; simplify_eq; [eauto|]. exists r.
    pose proof (first_row_elem _ _ E) as Hin.
    apply list_elem_of_In, filter_In in Hin as [Hin Hel].
    split_and!; [by apply list_elem_of_In|done| |done|done].
    apply first_row_least in E. rewrite Forall_forall in E |- *. intros s Hs Hels. apply E.
    by apply list_elem_of_In, filter_In; rewrite <- list_elem_of_In.
  - case_goal; intros; simplify_eq; [eauto|]. split; [done|].
    apply first_row_none in E. apply Forall_forall. intros s Hs.
    destruct (el s) eqn:Es; [|done].
    assert (In s (List.filter el rows)) as Hf by (apply filter_In; by rewrite <- list_elem_of_In).
    by rewrite E in Hf.
Qed.

(** ** The outcomes of finalizing a claim *)

Lemma finalizeClaim_cases o env c derr db w res db' w' :
  finalizeClaim o env c derr db w = (res, db', w') ->
  match res with
  | Err e =>
      db' = db /\ w_breaker w' = w_breaker w /\
      ((e = DBFault /\ exists n, env_fault env n = true) \/
       (e = LeaseLost (c_id c) /\ count_rows (held o c) (db_rows db) <> 1))
  | Ok _ =>
      count_rows (held o c) (db_rows db) = 1 /\
      match derr with
      | Some err => exists now next,
          now <= next <= now + Z.max 0 (o_backoff o (c_attempts c)) /\
          db' = mkDB (update_where (held o c) (failed_row (failure_status o c) err next) (db_rows db)) (db_seq db) /\
          w_breaker w' = recordCircuitFailure o (c_msg c) err now (w_breaker w)
      | None => exists dbnow now,
          db' = mkDB (update_where (held o c) (delivered_row dbnow) (db_rows db)) (db_seq db) /\
          w_breaker w' = recordCircuitSuccess o (c_msg c) now (w_breaker w)
      end
  end.
Proof.
  unfold finalizeClaim, dbcall, clockNow. cbn [bump w_tick w_breaker set_breaker].
  destruct (env_fault env (w_tick w)) eqn:F0; [intros; simplify_eq; eauto 6|].
  destruct derr as [err|]; cbn [bump w_tick w_breaker set_breaker];
    (case_goal; [intros; simplify_eq; eauto 6|]);
    destruct (Z.eqb_spec (count_rows (held o c) (db_rows db)) 1) as [Hc|Hc]; cbn [negb];
    [|intros; simplify_eq; eauto 6|  |intros; simplify_eq; eauto 6];
    (case_goal; intros; simplify_eq; [eauto 6|]); (split; [done|]).
  - eexists _, _. split_and!; [| |done|done].
    + pose proof (retryDelay_bounds o (S (S (w_tick w))) (c_attempts c)). lia.
    + pose proof (retryDelay_bounds o (S (S (w_tick w))) (c_attempts c)). lia.
  - eexists _, _. split; done.
Qed.

(** ** How a row may change

    The life of a row under any worker: a lease expires, a due row is claimed,
    a held row is rescheduled, dead-lettered or marked delivered.  No step
    touches what is to be delivered, and none leaves a terminal status. *)
Inductive row_step : Row -> Row -> Prop :=
| row_recover r :
    r_status r = "processing" -> row_step r (recovered r)
| row_claim r worker leaseUntil :
    r_status r = "pending" -> row_step r (claimed_row worker leaseUntil r)
| row_retry r err next :
    r_status r = "processing" -> row_step r (failed_row "pending" err next r)
| row_dead_letter r err next :
    r_status r = "processing" -> row_step r (failed_row "failed" err next r)
| row_deliver r dbnow :
    r_status r = "processing" -> row_step r (delivered_row dbnow r).
#[export] Hint Constructors row_step : trst.

(** The effect the row stands for. *)
Definition effect_of (r : Row) : Z * string * string * data * string :=
  (r_id r, r_tenant r, r_destination r, r_payload r, r_key r).

Lemma row_steps_effect r r' : rtc row_step r r' -> effect_of r' = effect_of r.
Proof. induction 1 as [|x y z Hxy _ IH]; [done|]. rewrite IH. by destruct Hxy. Qed.

Lemma row_steps_attempts r r' : rtc row_step r r' -> r_attempts r <= r_attempts r'.
Proof.
  induction 1 as [|x y z Hxy _ IH]; [done|]. destruct Hxy; simpl in *; lia.
Qed.

Lemma row_steps_terminal r r' :
  rtc row_step r r' -> r_status r = "delivered" \/ r_status r = "failed" -> r' = r.
Proof.
  induction 1 as [|x y z Hxy _ IH]; [done|]. intros H.
  destruct Hxy; simpl in *; destruct H; congruence.
Qed.

Lemma Forall2_map_same {A} (R : A -> A -> Prop) (f : A -> A) l :
  Forall (fun x => R x (f x)) l -> Forall2 R l (map f l).
Proof. induction 1; simpl; by constructor. Qed.

Lemma is_status_spec s r : is_status s r = true <-> r_status r = s.
Proof. apply String.eqb_eq. Qed.

Lemma recover_row_steps now rows : Forall2 (rtc row_step) rows (recover_leases now rows).
Proof.
  apply Forall2_map_same, Forall_forall. intros r _.
  destruct (lease_expired now r) eqn:E; [|done].
  apply rtc_once. apply andb_true_iff in E as [E _]. apply is_status_spec in E. auto with trst.
Qed.

Lemma update_where_row_steps p f rows :
  (forall r, r ∈ rows -> p r = true -> row_step r (f r)) ->
  Forall2 (rtc row_step) rows (update_where p f rows).
Proof.
  intros H. apply Forall2_map_same, Forall_forall. intros r Hr.
  destruct (p r) eqn:E; [|done]. by apply rtc_once, H.
Qed.

Lemma held_processing o c r : held o c r = true -> r_status r = "processing".
Proof. unfold held. rewrite !andb_true_iff. intros [[_ H] _]. by apply is_status_spec. Qed.

Lemma due_pending cutoff r : due cutoff r = true -> r_status r = "pending".
Proof. unfold due. rewrite andb_true_iff. intros [H _]. by apply is_status_spec. Qed.

Lemma eligible_due o cutoff now sT sD bl rows r :
  eligible o cutoff now sT sD bl rows r = true -> due cutoff r = true.
Proof. unfold eligible. rewrite !andb_true_iff. tauto. Qed.

Lemma NoDup_id_eq rows (r s : Row) :
  NoDup (r_id <$> rows) -> r ∈ rows -> s ∈ rows -> r_id r = r_id s -> r = s.
Proof.
  intros Hn Hr Hs Heq. apply list_elem_of_split in Hr as (l1 & l2 & ->).
  destruct (ids_apart _ _ _ Hn) as [H1 H2]. rewrite Forall_forall in H1, H2.
  rewrite elem_of_app, elem_of_cons in Hs.
  destruct Hs as [Hs|[->|Hs]]; [by destruct (H1 s Hs)|done|by destruct (H2 s Hs)].
Qed.

Lemma ids_ok_same db rows' :
  ids_ok db -> r_id <$> rows' = r_id <$> db_rows db -> ids_ok (mkDB rows' (db_seq db)).
Proof.
  intros [Hn Hf] E. split; simpl; [by rewrite E|]. rewrite Forall_forall in Hf |- *.
  intros r Hr. assert (Hi : r_id r ∈ r_id <$> db_rows db) by (rewrite <- E; by apply list_elem_of_fmap_2).
  apply list_elem_of_fmap in Hi as (s & -> & Hs). by apply Hf.
Qed.

Lemma Forall2_rtc_refl {A} (R : A -> A -> Prop) l : Forall2 (rtc R) l l.
Proof. induction l; by constructor. Qed.

Lemma Forall2_rtc_trans {A} (R : A -> A -> Prop) l1 l2 l3 :
  Forall2 (rtc R) l1 l2 -> Forall2 (rtc R) l2 l3 -> Forall2 (rtc R) l1 l3.
Proof.
  intros H. revert l3. induction H as [|x y l1 l2 Hxy _ IH]; intros l3 H3; inversion H3; subst; [done|].
  constructor; [by etrans|by apply IH].
Qed.

(** A claim leaves every row in place and moves each along its life. *)
Lemma claimOne_row_steps o env cutoff seenT seenD db w res db' w' :
  ids_ok db -> claimOne o env cutoff seenT seenD db w = (res, db', w') ->
  Forall2 (rtc row_step) (db_rows db) (db_rows db') /\ ids_ok db'.
Proof.
  intros [Hn Hf] H. apply claimOne_cases in H.
  set (rows := recover_leases (claim_now o w) (db_rows db)) in *.
  assert (Hrec : Forall2 (rtc row_step) (db_rows db) rows) by apply recover_row_steps.
  assert (Hids : r_id <$> rows = r_id <$> db_rows db) by apply recover_leases_ids.
  assert (Hb := ids_ok_same db).
  destruct res as [[c|]|e].
  - destruct H as (r & Hr & Hel & _ & _ & ->). cbn [db_rows].
    assert (Hn' : NoDup (r_id <$> rows)) by by rewrite Hids.
    split.
    + assert (Hu : Forall2 (rtc row_step) rows
          (update_id (r_id r) (claimed_row (o_workerID o) (claim_now o w + o_leaseTTL o)) rows)).
      { apply update_where_row_steps. intros s Hs E. apply Z.eqb_eq in E.
        assert (s = r) as -> by (eapply NoDup_id_eq; eauto).
        apply row_claim. eapply due_pending, eligible_due, Hel. }
      by eapply Forall2_rtc_trans.
    + apply Hb; [by split|]. rewrite <- Hids. by apply update_where_ids.
  - destruct H as [-> _]. split; [done|]. by apply Hb.
  - destruct H as (_ & -> & _). split; [apply Forall2_rtc_refl|by split].
Qed.

Lemma finalizeClaim_row_steps o env c derr db w res db' w' :
  ids_ok db -> finalizeClaim o env c derr db w = (res, db', w') ->
  Forall2 (rtc row_step) (db_rows db) (db_rows db') /\ ids_ok db'.
Proof.
  intros [Hn Hf] H. apply finalizeClaim_cases in H.
  assert (Hb : forall f, (forall r, r_id (f r) = r_id r) ->
    ids_ok (mkDB (update_where (held o c) f (db_rows db)) (db_seq db))).
  { intros f E. apply ids_ok_same; [by split|]. by apply update_where_ids. }
  destruct res as [[]|e].
  - destruct H as [_ H]. destruct derr as [err|].
    + destruct H as (now & next & _ & -> & _). split; [|by apply Hb].
      apply update_where_row_steps. intros r _ Hh. apply held_processing in Hh.
      unfold failure_status. case_goal; auto with trst.
    + destruct H as (dbnow & now & -> & _). split; [|by apply Hb].
      apply update_where_row_steps. intros r _ Hh. apply held_processing in Hh. auto with trst.
  - destruct H as (-> & _). split; [apply Forall2_rtc_refl|by split].
Qed.

End Dispatch.
