(* ===== verification/DispatchSpec.v ===== *)
(** * What the outbox worker guarantees

    Theorems about [Dispatch] of [src/internal/orchestrator/outbox.go]: it
    terminates whatever the clock, the handler and the database do; it loses,
    duplicates and rewrites no row; a row is marked delivered only after a call
    of the handler that returned nil; it stops only when nothing is claimable.
    The last section is about the half-open probe of the circuit breaker. *)

From S2P Require Import Prelude Json Outbox Circuit Dispatch.
Open Scope string_scope.
Open Scope list_scope.
Open Scope Z_scope.

Module DispatchSpec.
Import Outbox Circuit Dispatch.

(** ** One claim, delivered and finalized *)

Lemma weight_recover M now rows : backlog M (recover_leases now rows) = backlog M rows.
Proof.
  unfold backlog. induction rows as [|r rows IH]; simpl; [done|]. f_equal; [|exact IH].
  destruct (lease_expired now r) eqn:E; [|done].
  apply andb_true_iff in E as [E _]. apply is_status_spec in E. unfold weight, is_status. by rewrite E.
Qed.

Lemma backlog_split M l1 r l2 : backlog M (l1 ++ r :: l2) = (backlog M l1 + (weight M r + backlog M l2))%nat.
Proof. unfold backlog. rewrite fmap_app, fmap_cons, list_sum_app. done. Qed.

Lemma claim_held o leaseUntil r :
  held o (claim_of (claimed_row (o_workerID o) leaseUntil r)) (claimed_row (o_workerID o) leaseUntil r) = true.
Proof. unfold held. simpl. by rewrite Z.eqb_refl, !String.eqb_refl. Qed.

(** The row a worker ends an iteration with. *)
Definition finished_row (o : Outbox) (c : claimedOutboxEntry) (derr : option deliverError) (t : Z) (r : Row) : Row :=
  match derr with
  | Some err => failed_row (failure_status o c) err t r
  | None => delivered_row t r
  end.

(** Alone on the table, a worker never loses the lease it has just taken: the
    iteration rewrites exactly the claimed row. *)
Lemma iteration o env cutoff seenT seenD db w c db1 w1 derr w2 res db2 w3 :
  ids_ok db ->
  claimOne o env cutoff seenT seenD db w = (Ok (Some c), db1, w1) ->
  finalizeClaim o env c derr db1 w2 = (res, db2, w3) ->
  match res with
  | Err e => e = DBFault /\ exists n, env_fault env n = true
  | Ok _ => exists l1 r l2 t,
      let leaseUntil := claim_now o w + o_leaseTTL o in
      recover_leases (claim_now o w) (db_rows db) = l1 ++ r :: l2 /\
      r_status r = "pending" /\
      c = claim_of (claimed_row (o_workerID o) leaseUntil r) /\
      db2 = mkDB (l1 ++ finished_row o c derr t (claimed_row (o_workerID o) leaseUntil r) :: l2) (db_seq db)
  end.
Proof.
  intros [Hn _] Hc Hf. apply claimOne_cases in Hc as (r & Hr & Hel & _ & -> & ->).
  apply finalizeClaim_cases in Hf. cbn [db_rows db_seq] in Hf.
  set (rows := recover_leases _ _) in *. set (leaseUntil := claim_now o w + o_leaseTTL o) in *.
  assert (Hn' : NoDup (r_id <$> rows)) by by (unfold rows; rewrite recover_leases_ids).
  apply list_elem_of_split in Hr as (l1 & l2 & Hrows). rewrite Hrows in *.
  rewrite update_id_split in Hf by done.
  set (cr := claimed_row (o_workerID o) leaseUntil r) in *.
  assert (Hn2 : NoDup (r_id <$> l1 ++ cr :: l2)) by by rewrite fmap_app in *.
  assert (Hcount : count_rows (held o (claim_of cr)) (l1 ++ cr :: l2) = 1)
    by (apply count_held_split; [done|apply claim_held]).
  destruct res as [[]|e].
  - destruct Hf as [_ Hf].
    assert (Hu : forall f, update_where (held o (claim_of cr)) f (l1 ++ cr :: l2) = l1 ++ f cr :: l2).
    { intros f. apply update_where_split; [done|apply claim_held|].
      intros x Hx. unfold held in Hx. rewrite !andb_true_iff in Hx. destruct Hx as [[[Hx _] _] _].
      apply Z.eqb_eq in Hx. exact Hx. }
    exists l1, r, l2. destruct derr as [err|].
    + destruct Hf as (now & next & _ & -> & _). exists next. rewrite Hu.
      split_and!; try done. eapply due_pending, eligible_due, Hel.
    + destruct Hf as (dbnow & now & -> & _). exists dbnow. rewrite Hu.
      split_and!; try done. eapply due_pending, eligible_due, Hel.
  - destruct Hf as (_ & _ & [[-> Hfault]|[_ Hne]]); [by split|done].
Qed.

(** Each finished attempt uses up one unit of the row's weight. *)
Lemma finished_weight o leaseUntil derr t r :
  r_status r = "pending" ->
  let cr := claimed_row (o_workerID o) leaseUntil r in
  (weight (o_maxAttempts o) (finished_row o (claim_of cr) derr t cr) < weight (o_maxAttempts o) r)%nat.
Proof.
  intros Hp cr. assert (Hw : weight (o_maxAttempts o) r = Z.to_nat (Z.max 1 (o_maxAttempts o - r_attempts r))).
  { unfold weight, is_status. by rewrite Hp. }
  rewrite Hw. destruct derr as [err|]; [|unfold weight; simpl; lia].
  unfold finished_row, failure_status, weight. simpl.
  destruct (Z.leb_spec (o_maxAttempts o) (r_attempts r + 1)); simpl; lia.
Qed.

Lemma iteration_backlog o env cutoff seenT seenD db w c db1 w1 derr w2 db2 w3 :
  ids_ok db ->
  claimOne o env cutoff seenT seenD db w = (Ok (Some c), db1, w1) ->
  finalizeClaim o env c derr db1 w2 = (Ok tt, db2, w3) ->
  (backlog (o_maxAttempts o) (db_rows db2) < backlog (o_maxAttempts o) (db_rows db))%nat.
Proof.
  intros Hids Hc Hf. destruct (iteration _ _ _ _ _ _ _ _ _ _ _ _ _ _ _ Hids Hc Hf)
    as (l1 & r & l2 & t & Hrows & Hp & -> & ->).
  rewrite <- (weight_recover _ (claim_now o w) (db_rows db)), Hrows. cbn [db_rows].
  rewrite !backlog_split.
  pose proof (finished_weight o (claim_now o w + o_leaseTTL o) derr t r Hp) as Hlt. cbv zeta in Hlt. lia.
Qed.

(** ** Termination *)

Definition spare (seenT seenD : gset string) : nat := if decide (seenT = ∅ /\ seenD = ∅) then 0 else 1.

Lemma dispatch_loop_total fuel o env cutoff seenT seenD p db w :
  ids_ok db ->
  (2 * backlog (o_maxAttempts o) (db_rows db) + spare seenT seenD < fuel)%nat ->
  exists n res db' w',
    dispatch_loop fuel o env cutoff seenT seenD p db w = Some (n, res, db', w') /\
    n <= p + Z.of_nat (backlog (o_maxAttempts o) (db_rows db)) /\
    (forall e, res = Err e -> e = DBFault /\ exists k, env_fault env k = true).
Proof.
  revert seenT seenD p db w. induction fuel as [|fuel IH]; intros seenT seenD p db w Hids Hfuel; [lia|].
  cbn [dispatch_loop].
  destruct (claimOne o env cutoff seenT seenD db w) as [[[[c|]|e] db1] w1] eqn:Hc.
  - destruct (claimOne_row_steps _ _ _ _ _ _ _ _ _ _ Hids Hc) as [_ Hids1].
    destruct (deliver o env c w1) as [derr w2].
    destruct (finalizeClaim o env c derr db1 w2) as [[[[]|e] db2] w3] eqn:Hf.
    + pose proof (iteration_backlog _ _ _ _ _ _ _ _ _ _ _ _ _ _ Hids Hc Hf) as Hlt.
      destruct (finalizeClaim_row_steps _ _ _ _ _ _ _ _ _ Hids1 Hf) as [_ Hids2].
      destruct (IH ({[ m_TenantID (c_msg c) ]} ∪ seenT) ({[ m_Destination (c_msg c) ]} ∪ seenD) (p + 1) db2 w3)
        as (n & res & db' & w' & -> & Hn & He); [done| |].
      { unfold spare at 1. case_decide; lia. }
      exists n, res, db', w'. split_and!; [done|lia|exact He].
    + pose proof (iteration _ _ _ _ _ _ _ _ _ _ _ _ _ _ _ Hids Hc Hf) as He. simpl in He.
      exists (p + 1), (Err e), db2, w3. split_and!; [done| |by intros ? [= <-]].
      apply claimOne_cases in Hc as (r & Hr & Hel & _). apply eligible_due, due_pending in Hel.
      rewrite <- (weight_recover _ (claim_now o w) (db_rows db)).
      apply list_elem_of_split in Hr as (l1 & l2 & ->). rewrite backlog_split.
      assert (1 <= weight (o_maxAttempts o) r)%nat by (unfold weight, is_status; rewrite Hel; simpl; lia).
      lia.
  - destruct (claimOne_row_steps _ _ _ _ _ _ _ _ _ _ Hids Hc) as [_ Hids1].
    case_decide as Hd; [exists p, (Ok tt), db1, w1; split_and!; [done|lia|done]|].
    apply claimOne_cases in Hc as [-> _].
    destruct (IH ∅ ∅ p (mkDB (recover_leases (claim_now o w) (db_rows db)) (db_seq db)) w1)
      as (n & res & db' & w' & -> & Hn & He); [done| |].
    { cbn [db_rows]. rewrite weight_recover. unfold spare in *. rewrite decide_False in Hfuel by done.
      rewrite decide_True by done. lia. }
    cbn [db_rows] in Hn. rewrite weight_recover in Hn. eauto 8.
  - apply claimOne_cases in Hc as (-> & -> & Hfault).
    exists p, (Err DBFault), db, w1. split_and!; [done|lia|by intros ? [= <-]].
Qed.

(** ** Invariants of the loop *)

(** A relation kept by a claim and by a finished claim is kept by the loop. *)
Lemma dispatch_loop_inv (I : DB -> Worker -> Prop) fuel o env cutoff seenT seenD p db w n res db' w' :
  (forall seenT seenD db w res db1 w1, ids_ok db -> I db w ->
     claimOne o env cutoff seenT seenD db w = (res, db1, w1) ->
     match res with
     | Ok (Some c) => forall derr w2 res' db2 w3,
         deliver o env c w1 = (derr, w2) -> finalizeClaim o env c derr db1 w2 = (res', db2, w3) -> I db2 w3
     | _ => I db1 w1
     end) ->
  ids_ok db -> I db w ->
  dispatch_loop fuel o env cutoff seenT seenD p db w = Some (n, res, db', w') -> I db' w'.
Proof.
  intros HI. revert seenT seenD p db w. induction fuel as [|fuel IH]; intros seenT seenD p db w Hids Hi; [done|].
  cbn [dispatch_loop].
  destruct (claimOne o env cutoff seenT seenD db w) as [[[[c|]|e] db1] w1] eqn:Hc;
    pose proof (HI _ _ _ _ _ _ _ Hids Hi Hc) as Hi1; cbv beta iota in Hi1;
    destruct (claimOne_row_steps _ _ _ _ _ _ _ _ _ _ Hids Hc) as [_ Hids1].
  - destruct (deliver o env c w1) as [derr w2] eqn:Hd.
    destruct (finalizeClaim o env c derr db1 w2) as [[[[]|e] db2] w3] eqn:Hf;
      pose proof (Hi1 _ _ _ _ _ eq_refl Hf) as Hi2.
    + destruct (finalizeClaim_row_steps _ _ _ _ _ _ _ _ _ Hids1 Hf) as [_ Hids2]. by apply IH.
    + intros; by simplify_eq.
  - case_decide; [intros; by simplify_eq|by apply IH].
  - intros; by simplify_eq.
Qed.

(** A run that ends without error ended on a claim that found nothing in a
    fresh round. *)
Lemma dispatch_loop_last fuel o env cutoff seenT seenD p db w n db' w' :
  ids_ok db -> dispatch_loop fuel o env cutoff seenT seenD p db w = Some (n, Ok tt, db', w') ->
  exists db0 w0, claimOne o env cutoff ∅ ∅ db0 w0 = (Ok None, db', w').
Proof.
  intros Hids. revert seenT seenD p db w Hids. induction fuel as [|fuel IH]; intros seenT seenD p db w Hids; [done|].
  cbn [dispatch_loop].
  destruct (claimOne o env cutoff seenT seenD db w) as [[[[c|]|e] db1] w1] eqn:Hc;
    destruct (claimOne_row_steps _ _ _ _ _ _ _ _ _ _ Hids Hc) as [_ Hids1]; [| |done].
  - destruct (deliver o env c w1) as [derr w2].
    destruct (finalizeClaim o env c derr db1 w2) as [[[[]|e] db2] w3] eqn:Hf; [|done].
    apply IH. by eapply finalizeClaim_row_steps.
  - case_decide as Hd; [|by apply IH]. destruct Hd as [-> ->]. intros. simplify_eq. eauto.
Qed.

Lemma dispatch_loop_row_steps fuel o env cutoff seenT seenD p db w n res db' w' :
  ids_ok db -> dispatch_loop fuel o env cutoff seenT seenD p db w = Some (n, res, db', w') ->
  Forall2 (rtc row_step) (db_rows db) (db_rows db').
Proof.
  intros Hids. apply (dispatch_loop_inv (fun d _ => Forall2 (rtc row_step) (db_rows db) (db_rows d)));
    [|done|apply Forall2_rtc_refl].
  clear. intros seenT seenD db0 w res db1 w1 Hids Hi Hc.
  destruct (claimOne_row_steps _ _ _ _ _ _ _ _ _ _ Hids Hc) as [H1 Hids1].
  assert (Forall2 (rtc row_step) (db_rows db) (db_rows db1)) by by eapply Forall2_rtc_trans.
  destruct res as [[c|]|e]; [|done|done]. intros derr w2 res' db2 w3 _ Hf.
  destruct (finalizeClaim_row_steps _ _ _ _ _ _ _ _ _ Hids1 Hf) as [H2 _]. by eapply Forall2_rtc_trans.
Qed.

(** ** Delivered means called *)

(** A successful external call for the effect of the row is on record. *)
Definition called (w : Worker) (r : Row) : Prop :=
  exists m, (m, None) ∈ w_calls w /\ m_ID m = r_id r /\ m_TenantID m = r_tenant r /\
    m_Destination m = r_destination r /\ m_IdempotencyKey m = r_key r /\ m_Payload m = r_payload r.

Lemma claimOne_calls o env cutoff seenT seenD db w res db' w' :
  claimOne o env cutoff seenT seenD db w = (res, db', w') -> w_calls w' = w_calls w.
Proof.
  unfold claimOne, dbcall, clockNow, release. cbn [bump set_breaker].
  destruct (env_fault _ _); [by intros; simplify_eq|].
  destruct (reserveHalfOpenProbes _ _ _) as [[? ?] ?]. cbn [bump set_breaker].
  repeat (case_goal; cbn [bump set_breaker]); intros; by simplify_eq.
Qed.

Lemma finalizeClaim_calls o env c derr db w res db' w' :
  finalizeClaim o env c derr db w = (res, db', w') -> w_calls w' = w_calls w.
Proof.
  unfold finalizeClaim, dbcall, clockNow. cbn [bump set_breaker].
  repeat (case_goal; cbn [bump set_breaker]); intros; by simplify_eq.
Qed.

Lemma deliver_calls o env c w derr w' :
  deliver o env c w = (derr, w') -> w_calls w' = w_calls w ++ [(c_msg c, derr)].
Proof. unfold deliver. intros. by simplify_eq. Qed.

Lemma called_mono w w' r :
  (exists l, w_calls w' = w_calls w ++ l) -> called w r -> called w' r.
Proof.
  intros [l Hl] (m & Hm & ?). exists m. split; [|done]. rewrite Hl. apply elem_of_app. by left.
Qed.

Lemma update_where_elem p f rows r' :
  r' ∈ update_where p f rows -> exists r, r ∈ rows /\ ((p r = true /\ r' = f r) \/ (p r = false /\ r' = r)).
Proof.
  unfold update_where. rewrite list_elem_of_In, in_map_iff. intros (r & Hr & Hin).
  exists r. split; [by apply list_elem_of_In|]. destruct (p r); auto.
Qed.

(** A step that leaves the row delivered either found it so or delivered it. *)
Lemma claim_keeps_delivered o env cutoff seenT seenD db w res db' w' r' :
  claimOne o env cutoff seenT seenD db w = (res, db', w') ->
  r' ∈ db_rows db' -> r_status r' = "delivered" -> r' ∈ db_rows db.
Proof.
  intros Hc Hr' Hs. apply claimOne_cases in Hc.
  assert (Hrec : forall now x, x ∈ recover_leases now (db_rows db) -> r_status x = "delivered" -> x ∈ db_rows db).
  { intros now x Hx Hxs. apply update_where_elem in Hx as (y & Hy & [[_ ->]|[_ ->]]); [|done].
    discriminate Hxs. }
  destruct res as [[c|]|e].
  - destruct Hc as (r & Hr & _ & _ & _ & ->). cbn [db_rows] in Hr'.
    apply update_where_elem in Hr' as (y & Hy & [[_ ->]|[_ ->]]); [discriminate Hs|by eapply Hrec].
  - destruct Hc as [-> _]. by eapply Hrec.
  - by destruct Hc as (_ & -> & _).
Qed.

(** Rows delivered by a run of the loop were delivered by a call of it. *)
Lemma dispatch_loop_delivered fuel o env cutoff seenT seenD p db w n res db' w' :
  ids_ok db -> dispatch_loop fuel o env cutoff seenT seenD p db w = Some (n, res, db', w') ->
  forall r', r' ∈ db_rows db' -> r_status r' = "delivered" -> r' ∈ db_rows db \/ called w' r'.
Proof.
  intros Hids.
  apply (dispatch_loop_inv (fun d v => forall r', r' ∈ db_rows d -> r_status r' = "delivered" ->
    r' ∈ db_rows db \/ called v r')); [|done|by left].
  clear. intros seenT seenD db0 w res db1 w1 Hids Hi Hc.
  assert (Hk : forall r', r' ∈ db_rows db1 -> r_status r' = "delivered" -> r' ∈ db_rows db \/ called w1 r').
  { intros r' Hr Hs. destruct (Hi r') as [|Hcall]; [by eapply claim_keeps_delivered|done|by left|right].
    eapply called_mono; [|exact Hcall]. exists []. rewrite app_nil_r. by eapply claimOne_calls. }
  destruct res as [[c|]|e]; [|done|done]. intros derr w2 res' db2 w3 Hd Hf r' Hr Hs.
  assert (Hcalls : w_calls w3 = w_calls w1 ++ [(c_msg c, derr)]).
  { rewrite (finalizeClaim_calls _ _ _ _ _ _ _ _ _ Hf). by eapply deliver_calls. }
  assert (Hold : r' ∈ db_rows db1 -> r' ∈ db_rows db \/ called w3 r').
  { intros Hr1. destruct (Hk r' Hr1 Hs) as [|Hcall]; [by left|right]. eapply called_mono; [|exact Hcall]. eauto. }
  pose proof Hf as Hcases. apply finalizeClaim_cases in Hcases.
  destruct res' as [[]|e]; [|destruct Hcases as [-> _]; by apply Hold].
  destruct (iteration _ _ _ _ _ _ _ _ _ _ _ _ _ _ _ Hids Hc Hf) as (l1 & r & l2 & t & Hrows & Hp & -> & ->).
  cbn [db_rows] in Hr. rewrite elem_of_app, elem_of_cons in Hr.
  assert (Hside : r' ∈ l1 \/ r' ∈ l2 -> r' ∈ db_rows db \/ called w3 r').
  { intros Hside. apply Hold. apply claimOne_cases in Hc as (s & Hin & _ & _ & Heq & ->). cbn [db_rows].
    rewrite Hrows. injection Heq as Hid. rewrite <- Hid. rewrite update_id_split;
      [rewrite elem_of_app, elem_of_cons; tauto|].
    rewrite <- Hrows, recover_leases_ids. apply Hids. }
  destruct Hr as [Hr|[->|Hr]]; [by apply Hside; left| |by apply Hside; right].
  destruct derr as [err|]; [unfold finished_row, failure_status in Hs; simpl in Hs; by case_in Hs|].
  right. eexists. split; [rewrite Hcalls; apply elem_of_app; right; by left|done].
Qed.

(** ** The circuits a claim respects *)

Lemma blocked_spec o now b s :
  s ∈ fst (fst (reserveHalfOpenProbes o now b)) <->
  0 < o_circuitFailureThreshold o /\
  exists k c, b_circuits b !! k = Some c /\ judge now c = Blocked /\ s = circuitKey_string k.
Proof.
  unfold reserveHalfOpenProbes. destruct (Z.leb_spec (o_circuitFailureThreshold o) 0).
  - cbn [fst]. rewrite elem_of_nil. split; [done|lia].
  - cbn [fst]. rewrite list_elem_of_omap. split.
    + intros ([k c] & Hin & Hs). split; [done|]. cbn [fst snd] in Hs. case_decide; simplify_eq.
      exists k, c. split; [by apply elem_of_map_to_list|done].
    + intros (_ & k & c & Hk & Hj & ->). exists (k, c). split; [by apply elem_of_map_to_list|].
      cbn [fst snd]. by rewrite decide_True.
Qed.

Lemma reserved_spec o now b k :
  k ∈ snd (fst (reserveHalfOpenProbes o now b)) -> exists c, b_circuits b !! k = Some c /\ judge now c = Reserved.
Proof.
  unfold reserveHalfOpenProbes. case_goal; cbn [fst snd]; [set_solver|].
  rewrite elem_of_dom. intros [c Hc]. apply map_lookup_filter_Some in Hc. eauto.
Qed.

(** The breaker after a claim: the probes reserved at its clock, those not
    claimed released again. *)
Lemma claimOne_breaker o env cutoff seenT seenD db w res db' w' :
  claimOne o env cutoff seenT seenD db w = (res, db', w') ->
  let '(_, reserved, b) := reserveHalfOpenProbes o (claim_now o w) (w_breaker w) in
  match res with
  | Ok (Some c) =>
      w_breaker w' = releaseUnclaimedHalfOpenProbes reserved (msg_key (c_msg c)) (claim_now o w) b
  | Ok None => w_breaker w' = releaseUnclaimedHalfOpenProbes reserved no_key (claim_now o w) b
  | Err _ => w_breaker w' = w_breaker w \/
             w_breaker w' = releaseUnclaimedHalfOpenProbes reserved no_key (claim_now o w) b
  end.
Proof.
  unfold claimOne, dbcall, clockNow, release. cbn [bump set_breaker w_tick w_breaker].
  fold (claim_now o w).
  destruct (reserveHalfOpenProbes o (claim_now o w) (w_breaker w)) as [[bl rs] b].
  destruct (env_fault env (w_tick w)); [intros; simplify_eq; by left|].
  cbn [bump set_breaker w_tick w_breaker].
  repeat (case_goal; cbn [bump set_breaker w_tick w_breaker]); intros; simplify_eq; auto.
Qed.

(** A claim leaves the circuit of every key as it was, but for a probe of a
    circuit whose open window has passed. *)
Lemma claimOne_circuit o env cutoff seenT seenD db w res db' w' k c :
  0 < o_circuitFailureThreshold o ->
  claimOne o env cutoff seenT seenD db w = (res, db', w') ->
  b_circuits (w_breaker w) !! k = Some c -> judge (claim_now o w) c = Blocked ->
  b_circuits (w_breaker w') !! k = Some c.
Proof.
  intros Ht Hc Hk Hj. apply claimOne_breaker in Hc.
  pose proof (reserve_lookup o (claim_now o w) (w_breaker w) k Ht) as Hres.
  pose proof (reserved_spec o (claim_now o w) (w_breaker w) k) as Hrs.
  destruct (reserveHalfOpenProbes o (claim_now o w) (w_breaker w)) as [[bl rs] b].
  cbn [fst snd] in *. rewrite Hk in Hres. cbn in Hres. rewrite decide_False in Hres by congruence.
  assert (Hrel : forall claimed, b_circuits (releaseUnclaimedHalfOpenProbes rs claimed (claim_now o w) b) !! k = Some c).
  { intros claimed. rewrite release_lookup, Hres. cbn. rewrite decide_False; [done|].
    intros (Hin & _). destruct (Hrs Hin) as (c' & Hc' & Hj'). congruence. }
  destruct res as [[cl|]|e]; [by rewrite Hc|by rewrite Hc|]. destruct Hc as [->| ->]; auto.
Qed.

Lemma mem_spec s l : mem s l = true <-> s ∈ l.
Proof.
  unfold mem. rewrite existsb_exists. setoid_rewrite <- list_elem_of_In.
  setoid_rewrite String.eqb_eq. naive_solver.
Qed.

(** A blocked circuit is never claimed. *)
Lemma claim_not_blocked o env cutoff seenT seenD db w c db' w' k ci :
  0 < o_circuitFailureThreshold o ->
  claimOne o env cutoff seenT seenD db w = (Ok (Some c), db', w') ->
  b_circuits (w_breaker w) !! k = Some ci -> judge (claim_now o w) ci = Blocked -> msg_key (c_msg c) <> k.
Proof.
  intros Ht Hc Hk Hj <-. apply claimOne_cases in Hc as (r & _ & Hel & _ & -> & _).
  unfold claimable, eligible in Hel. rewrite !andb_true_iff, !negb_true_iff in Hel.
  destruct Hel as [[[[_ Hb] _] _] _].
  apply not_true_iff_false in Hb. apply Hb, mem_spec, blocked_spec. split; [done|].
  exists (msg_key (c_msg (claim_of (claimed_row (o_workerID o) (claim_now o w + o_leaseTTL o) r)))), ci. done.
Qed.

(** While a circuit is half-open no run of the loop calls its destination, and
    the circuit stays half-open: only the outcome of the probe itself moves it. *)
Lemma dispatch_loop_half_open fuel o env cutoff seenT seenD p db w n res db' w' k :
  0 < o_circuitFailureThreshold o -> ids_ok db -> state_at (w_breaker w) k = CircuitHalfOpen ->
  dispatch_loop fuel o env cutoff seenT seenD p db w = Some (n, res, db', w') ->
  state_at (w_breaker w') k = CircuitHalfOpen /\
  forall m e, (m, e) ∈ w_calls w' -> (m, e) ∈ w_calls w \/ msg_key m <> k.
Proof.
  intros Ht Hids Hh. unfold state_at in Hh.
  destruct (b_circuits (w_breaker w) !! k) as [ci|] eqn:Hk; [|done].
  assert (Hj : forall now, judge now ci = Blocked) by (intros; unfold judge; by rewrite Hh).
  intros Hl. assert (HI : b_circuits (w_breaker w') !! k = Some ci /\
    forall m e, (m, e) ∈ w_calls w' -> (m, e) ∈ w_calls w \/ msg_key m <> k).
  { revert Hl. apply (dispatch_loop_inv (fun _ v => b_circuits (w_breaker v) !! k = Some ci /\
      forall m e, (m, e) ∈ w_calls v -> (m, e) ∈ w_calls w \/ msg_key m <> k)); [|done|by split; [|left]].
    clear -Ht Hj. intros seenT seenD db v res db1 v1 Hids [Hk Hcalls] Hc.
    pose proof (claimOne_circuit _ _ _ _ _ _ _ _ _ _ _ _ Ht Hc Hk (Hj _)) as Hk1.
    pose proof (claimOne_calls _ _ _ _ _ _ _ _ _ _ Hc) as Hcalls1.
    destruct res as [[c|]|e]; [|by rewrite Hcalls1|by rewrite Hcalls1].
    pose proof (claim_not_blocked _ _ _ _ _ _ _ _ _ _ _ _ Ht Hc Hk (Hj _)) as Hne.
    intros derr v2 res' db2 v3 Hd Hf. split.
    - assert (Hv2 : w_breaker v2 = w_breaker v1) by (unfold deliver in Hd; by simplify_eq).
      apply finalizeClaim_cases in Hf. destruct res' as [[]|e]; [|by destruct Hf as (_ & -> & _); rewrite Hv2].
      destruct Hf as [_ Hf]. destruct derr as [err|].
      + destruct Hf as (? & ? & _ & _ & ->). by rewrite failure_lookup_ne, Hv2.
      + destruct Hf as (? & ? & _ & ->). by rewrite success_lookup_ne, Hv2.
    - intros m e Hin. rewrite (finalizeClaim_calls _ _ _ _ _ _ _ _ _ Hf), (deliver_calls _ _ _ _ _ _ Hd), Hcalls1 in Hin.
      apply elem_of_app in Hin as [Hin|Hin]; [by apply Hcalls|].
      apply list_elem_of_singleton in Hin. simplify_eq. by right. }
  unfold state_at. destruct HI as [-> HI]. by split.
Qed.

(** ** The theorems *)

(** C6: [Dispatch] terminates.  For every table, worker, handler, clock, jitter
    and database fault schedule the loop ends within its fuel (twice the
    attempts the backlog may still consume, plus two); it makes no more attempts
    than the backlog allows; and alone on the table it never reports a lost
    lease, an error being a database fault that the schedule really contains. *)
Theorem Dispatch_terminates (o : Outbox) (env : Env) (db : DB) (w : Worker) :
  ids_ok db ->
  exists n res db' w',
    Dispatch o env db w = Some (n, res, db', w') /\
    n <= Z.of_nat (backlog (o_maxAttempts o) (db_rows db)) /\
    (forall e, res = Err e -> e = DBFault /\ exists k, env_fault env k = true).
Proof.
  intros Hids. unfold Dispatch, clockNow.
  destruct (dispatch_loop_total (2 * backlog (o_maxAttempts o) (db_rows db) + 2) o env
    (o_now o (w_tick w)) ∅ ∅ 0 db (bump w)) as (n & res & db' & w' & -> & Hn & He); [done| |].
  - unfold spare. rewrite decide_True by done. lia.
  - exists n, res, db', w'. split_and!; [done|lia|exact He].
Qed.

(** C5: a run of [Dispatch] keeps every row of the table in place, each moved
    only along the life of a row (so tenant, destination, payload and key never
    change and a terminal row is never touched), and a row it leaves delivered
    was delivered before or the run called the handler with exactly that
    effect and got nil back. *)
Theorem Dispatch_delivers (o : Outbox) (env : Env) (db : DB) (w : Worker) n res db' w' :
  ids_ok db -> Dispatch o env db w = Some (n, res, db', w') ->
  Forall2 (fun r r' => rtc row_step r r' /\ effect_of r' = effect_of r /\
             (r_status r = "delivered" \/ r_status r = "failed" -> r' = r) /\
             (r_status r' = "delivered" -> r' = r \/ called w' r'))
    (db_rows db) (db_rows db').
Proof.
  intros Hids H. unfold Dispatch, clockNow in H.
  pose proof (dispatch_loop_row_steps _ _ _ _ _ _ _ _ _ _ _ _ _ Hids H) as Hs.
  pose proof (dispatch_loop_delivered _ _ _ _ _ _ _ _ _ _ _ _ _ Hids H) as Hd.
  apply Forall2_same_length_lookup_2; [by eapply Forall2_length|].
  intros i r r' Hr Hr'. pose proof (Forall2_lookup_lr _ _ _ _ _ _ Hs Hr Hr') as Hst.
  split_and!; [done|by apply row_steps_effect|by apply row_steps_terminal|].
  intros Hst'. destruct (Hd r' (list_elem_of_lookup_2 _ _ _ Hr') Hst') as [Hin|]; [left|by right].
  destruct Hids as [Hn _]. eapply NoDup_id_eq; [exact Hn|done|by eapply list_elem_of_lookup_2|].
  apply row_steps_effect in Hst. unfold effect_of in Hst. congruence.
Qed.

(** what [claimOne] may claim.  The claimed row is pending and due at the
    cutoff, its tenant and destination are new to the round, no older due row
    of its (tenant, destination) queue is waiting, and no circuit of its key is
    open or half-open at the claim's clock; the row is then leased to this
    worker until clock plus lease time with one more attempt, no other row is
    touched except to recover an expired lease, and the live leases of its
    destination and of its tenant are within their caps. *)
Theorem claimOne_fair (o : Outbox) (env : Env) cutoff seenT seenD db w c db' w' :
  ids_ok db -> claimOne o env cutoff seenT seenD db w = (Ok (Some c), db', w') ->
  exists l1 r l2,
    let now := claim_now o w in
    let r' := claimed_row (o_workerID o) (now + o_leaseTTL o) r in
    let live := fun f => count_rows (fun p => lease_live now p && f p) (db_rows db') in
    recover_leases now (db_rows db) = l1 ++ r :: l2 /\
    db' = mkDB (l1 ++ r' :: l2) (db_seq db) /\ c = claim_of r' /\
    r_status r = "pending" /\ r_next r <= cutoff /\
    ~ (r_tenant r ∈ seenT) /\ ~ (r_destination r ∈ seenD) /\
    (forall s, s ∈ l1 ++ r :: l2 -> due cutoff s = true -> same_queue s r = true -> row_ltb s r = false) /\
    (forall k ci, 0 < o_circuitFailureThreshold o -> b_circuits (w_breaker w) !! k = Some ci ->
       judge now ci = Blocked -> k <> (r_tenant r, r_destination r)) /\
    live (fun p => String.eqb (r_destination p) (r_destination r)) <= o_maxInFlightPerDestination o /\
    live (fun p => String.eqb (r_tenant p) (r_tenant r)) <= o_maxInFlightPerTenant o.
Proof.
  intros Hids H.
  assert (Hblk := fun k ci Ht => claim_not_blocked o env cutoff seenT seenD db w c db' w' k ci Ht H).
  apply claimOne_cases in H as (r & Hr & Hel & _ & -> & ->).
  pose proof (eligible_due _ _ _ _ _ _ _ _ Hel) as Hdue.
  unfold claimable, eligible in Hel. rewrite !andb_true_iff, !negb_true_iff, !Z.ltb_lt in Hel.
  destruct Hel as [[[[[[_ HT] HD] _] HcD] HcT] Hold].
  assert (Hn : NoDup (r_id <$> recover_leases (claim_now o w) (db_rows db)))
    by (rewrite recover_leases_ids; apply Hids).
  apply list_elem_of_split in Hr as (l1 & l2 & Hrows). rewrite Hrows in *.
  exists l1, r, l2. cbv zeta. rewrite update_id_split by done. cbn [db_rows].
  assert (Hlive : forall f, count_rows (fun p => lease_live (claim_now o w) p && f p)
      (l1 ++ claimed_row (o_workerID o) (claim_now o w + o_leaseTTL o) r :: l2)
      <= count_rows (fun p => lease_live (claim_now o w) p && f p) (l1 ++ r :: l2) + 1).
  { intros f. unfold count_rows. rewrite !List.filter_app, !length_app. simpl.
    repeat case_goal; simpl; lia. }
  pose proof (Hlive (fun p => String.eqb (r_destination p) (r_destination r))).
  pose proof (Hlive (fun p => String.eqb (r_tenant p) (r_tenant r))).
  cbv beta in *.
  unfold due in Hdue. apply andb_true_iff in Hdue as [Hp Hnext].
  split_and!; [done..|by apply is_status_spec|by apply Z.leb_le| | | | |lia|lia].
  - intros Hin. apply not_true_iff_false in HT. apply HT, mem_spec, elem_of_elements, Hin.
  - intros Hin. apply not_true_iff_false in HD. apply HD, mem_spec, elem_of_elements, Hin.
  - intros s Hs Hdu Hq. destruct (row_ltb s r) eqn:E; [|done].
    rewrite <- Hold. symmetry. apply existsb_exists. exists s.
    split; [by apply list_elem_of_In|]. by rewrite Hdu, Hq, E.
  - intros k ci Ht Hk Hj Heq. apply (Hblk k ci Ht Hk Hj). by symmetry.
Qed.

(** Why a due row is left: an older due row of its queue, a cap on live leases,
    a circuit that is not closed. *)
Definition waits (o : Outbox) (cutoff now : Z) (rows : list Row) (b : Breaker) (r : Row) : Prop :=
  (exists s, s ∈ rows /\ due cutoff s = true /\ same_queue s r = true /\ row_ltb s r = true) \/
  o_maxInFlightPerDestination o <=
    count_rows (fun p => lease_live now p && String.eqb (r_destination p) (r_destination r)) rows \/
  o_maxInFlightPerTenant o <=
    count_rows (fun p => lease_live now p && String.eqb (r_tenant p) (r_tenant r)) rows \/
  exists k, circuitKey_string k = circuitKey_string (r_tenant r, r_destination r) /\
    state_at b k <> CircuitClosed.

(** C40: when [Dispatch] returns without error the queue is drained: every row
    still pending and due at the cutoff waits behind an older due row of its
    own queue, or for a live lease of its destination or tenant to end, or for
    a circuit that is not closed. *)
Theorem Dispatch_drains (o : Outbox) (env : Env) (db : DB) (w : Worker) n db' w' :
  ids_ok db -> Dispatch o env db w = Some (n, Ok tt, db', w') ->
  exists now, forall r, r ∈ db_rows db' -> due (o_now o (w_tick w)) r = true ->
    waits o (o_now o (w_tick w)) now (db_rows db') (w_breaker w') r.
Proof.
  intros Hids H. unfold Dispatch, clockNow in H. apply dispatch_loop_last in H as (db0 & w0 & H); [|done].
  exists (claim_now o w0). intros r Hr Hdue. unfold waits.
  pose proof (fun k ci Ht => claimOne_circuit _ _ _ _ _ _ _ _ _ _ k ci Ht H) as Hkeep.
  apply claimOne_cases in H as [-> Hall]. cbn [db_rows] in *.
  rewrite Forall_forall in Hall. specialize (Hall r Hr).
  unfold claimable, eligible in Hall. rewrite Hdue in Hall.
  rewrite !andb_false_iff, !negb_false_iff, !Z.ltb_ge, !mem_spec in Hall.
  unfold mapKeys in Hall. rewrite elements_empty, !elem_of_nil in Hall.
  destruct Hall as [[[[[[?|[]]|[]]|Hb]|HD]|HT]|Hold]; [done| |tauto|tauto|].
  - right; right; right. apply blocked_spec in Hb as (Ht & k & ci & Hk & Hj & Heq).
    exists k. split; [by symmetry|]. unfold state_at. rewrite (Hkeep k ci Ht Hk Hj).
    unfold judge in Hj. by destruct (k_state ci).
  - left. apply existsb_exists in Hold as (s & Hs & Hc). rewrite !andb_true_iff in Hc.
    exists s. split; [by apply list_elem_of_In|tauto].
Qed.

(** the circuit breaker counts consecutive failures.  Over any history of
    its operations and for each (tenant, destination) key on its own, the
    recorded failures are those since the key's last success, and the circuit
    is closed exactly while they are under the threshold. *)
Theorem circuit_counts_streak (o : Outbox) (ops : list cop) (k : circuitKey) :
  0 < o_circuitFailureThreshold o ->
  failures_at (run_ops o empty_breaker ops) k = streak k ops /\
  (state_at (run_ops o empty_breaker ops) k = CircuitClosed <-> streak k ops < o_circuitFailureThreshold o).
Proof.
  intros Ht. destruct (run_ops_refines o empty_breaker ops k 0 Ht) as [Hf [_ Hc]]; [by split; [|split]|done|].
  unfold streak. rewrite <- Hf. by split.
Qed.

(** a half-open circuit is stranded.  From a worker whose circuit for a key
    is half-open, no run of [Dispatch], whatever the clock, ever calls that
    tenant's destination, and the circuit is still half-open after it: a probe
    whose outcome was not recorded (the finalizing transaction failed) leaves
    its destination blocked for good. *)
Theorem half_open_stranded (o : Outbox) (env : Env) (db : DB) (w : Worker) n res db' w' (k : circuitKey) :
  0 < o_circuitFailureThreshold o -> ids_ok db -> state_at (w_breaker w) k = CircuitHalfOpen ->
  Dispatch o env db w = Some (n, res, db', w') ->
  state_at (w_breaker w') k = CircuitHalfOpen /\
  forall m e, (m, e) ∈ w_calls w' -> (m, e) ∈ w_calls w \/ msg_key m <> k.
Proof.
  intros Ht Hids Hh H. unfold Dispatch, clockNow in H.
  by apply (dispatch_loop_half_open _ _ _ _ _ _ _ _ (bump w) _ _ _ _ k) in H.
Qed.

(** the default retry delay is one second doubled at each attempt and capped
    at five minutes, the jitter keeps it between half of that and all of it,
    and whatever functions are configured the delay applied to a failed row is
    never negative and never over the configured backoff. *)
Theorem retry_delay_bounds (o : Outbox) (rand : nat -> Z -> Z) (k : nat) (attempts : Z) :
  1 <= attempts -> (forall n, 0 < n -> 0 <= rand k n < n) ->
  defaultOutboxBackoff attempts = Z.min (5 * minute) (second * 2 ^ (attempts - 1)) /\
  defaultOutboxBackoff attempts / 2 <= defaultOutboxJitter rand k (defaultOutboxBackoff attempts)
    <= defaultOutboxBackoff attempts /\
  0 <= retryDelay o k attempts <= Z.max 0 (o_backoff o attempts).
Proof.
  intros Ha Hr. split_and!; [by apply defaultOutboxBackoff_spec| | |apply retryDelay_bounds..];
    apply defaultOutboxJitter_bounds; try done;
    pose proof (defaultOutboxBackoff_bounds attempts); unfold second in *; lia.
Qed.

(** ** A worked run

    One effect is enqueued, its first delivery fails and opens the circuit, the
    half-open probe of the second run is delivered to a handler that fails
    again but its finalizing transaction meets a database fault (the reading of
    tick 29). *)
Definition demo_outbox : Outbox :=
  NewOutbox (fun t => Z.of_nat t * minute) (fun _ _ => 0) 7 [WithCircuitBreaker 1 second; WithRetryJitter None].

Definition demo_env : Env :=
  mkEnv (fun t => Z.of_nat t * minute) (fun t => (t =? 29)%nat)
    (fun _ m => mkOutcome (if m_Attempts m <=? 2 then Some ("connection refused", false) else None) false false).

Definition demo_db : DB :=
  snd (EnqueueIfAbsent 0 (mkDB [] 1) (mkEntry "t1" "ca.issue" "k1" (DRaw "body"))).

Definition demo_worker : Worker := mkWorker 0 empty_breaker [] [].

Definition demo_run (db : DB) (w : Worker) : DB * Worker :=
  match Dispatch demo_outbox demo_env db w with
  | Some (_, _, db', w') => (db', w')
  | None => (db, w)
  end.

Definition demo_second : DB * Worker :=
  let '(db, w) := demo_run demo_db demo_worker in demo_run db w.

Lemma demo_db_ids : ids_ok demo_db.
Proof. apply ids_okb_ok. vm_compute. reflexivity. Qed.

Lemma Dispatch_terminates_witness :
  exists n res db' w', Dispatch demo_outbox demo_env demo_db demo_worker = Some (n, res, db', w') /\ n <= 10.
Proof.
  destruct (Dispatch_terminates demo_outbox demo_env demo_db demo_worker demo_db_ids)
    as (n & res & db' & w' & H & Hn & _).
  exists n, res, db', w'. split; [exact H|]. exact Hn.
Defined.

Lemma Dispatch_delivers_witness :
  exists n res db' w', Dispatch demo_outbox demo_env demo_db demo_worker = Some (n, res, db', w') /\
    length (db_rows db') = 1%nat.
Proof.
  destruct (Dispatch demo_outbox demo_env demo_db demo_worker) as [[[[n res] db'] w']|] eqn:E;
    [|vm_compute in E; discriminate E].
  exists n, res, db', w'. split; [reflexivity|].
  pose proof (Dispatch_delivers demo_outbox demo_env demo_db demo_worker n res db' w' demo_db_ids E) as H.
  apply Forall2_length in H. symmetry. exact H.
Defined.

Lemma claimOne_fair_witness :
  exists c db' w', claimOne demo_outbox demo_env minute ∅ ∅ demo_db demo_worker = (Ok (Some c), db', w') /\
    exists l1 r l2, recover_leases (claim_now demo_outbox demo_worker) (db_rows demo_db) = l1 ++ r :: l2 /\
      r_status r = "pending" /\ r_next r <= minute.
Proof.
  destruct (claimOne demo_outbox demo_env minute ∅ ∅ demo_db demo_worker) as [[[[c|]|e] db'] w'] eqn:E;
    [|vm_compute in E; discriminate E..].
  exists c, db', w'. split; [reflexivity|].
  destruct (claimOne_fair demo_outbox demo_env minute ∅ ∅ demo_db demo_worker c db' w' demo_db_ids E)
    as (l1 & r & l2 & Hrows & _ & _ & Hp & Hn & _).
  exists l1, r, l2. split; [exact Hrows|split; [exact Hp|exact Hn]].
Defined.

Lemma Dispatch_drains_witness :
  exists n db' w', Dispatch demo_outbox demo_env demo_db demo_worker = Some (n, Ok tt, db', w') /\
    exists now, forall r, r ∈ db_rows db' -> due 0 r = true ->
      waits demo_outbox 0 now (db_rows db') (w_breaker w') r.
Proof.
  destruct (Dispatch demo_outbox demo_env demo_db demo_worker) as [[[[n [[]|e]] db'] w']|] eqn:E;
    [|vm_compute in E; discriminate E..].
  exists n, db', w'. split; [reflexivity|].
  apply (Dispatch_drains demo_outbox demo_env demo_db demo_worker n db' w' demo_db_ids E).
Defined.

Lemma circuit_counts_streak_witness :
  let m := mkMessage 1 "t1" "ca.issue" "k1" (DRaw "body") 1 in
  state_at (run_ops demo_outbox empty_breaker [OpFailure m (HandlerError "refused") 5; OpReserve 9])
    ("t1", "ca.issue") <> CircuitClosed.
Proof.
  intros m Hc.
  apply (circuit_counts_streak demo_outbox [OpFailure m (HandlerError "refused") 5; OpReserve 9] ("t1", "ca.issue")) in Hc;
    [|reflexivity].
  vm_compute in Hc. discriminate Hc.
Defined.

Lemma half_open_stranded_witness :
  exists n res db' w',
    Dispatch demo_outbox demo_env (fst demo_second) (snd demo_second) = Some (n, res, db', w') /\
    state_at (w_breaker w') ("t1", "ca.issue") = CircuitHalfOpen.
Proof.
  destruct (Dispatch demo_outbox demo_env (fst demo_second) (snd demo_second)) as [[[[n res] db'] w']|] eqn:E;
    [|vm_compute in E; discriminate E].
  exists n, res, db', w'. split; [reflexivity|].
  apply (half_open_stranded demo_outbox demo_env (fst demo_second) (snd demo_second) n res db' w' ("t1", "ca.issue")).
  - reflexivity.
  - apply ids_okb_ok. vm_compute. reflexivity.
  - vm_compute. reflexivity.
  - exact E.
Defined.

Lemma retry_delay_bounds_witness : defaultOutboxBackoff 9 = 256 * second.
Proof.
  destruct (retry_delay_bounds demo_outbox (fun _ _ => 0) 0 9) as [H _]; [lia|intros; lia|].
  rewrite H. vm_compute. reflexivity.
Defined.

End DispatchSpec.
