(* ===== verification/OutboxTable.v ===== *)
(** * The outbox table under every interleaving

    All the writers of the table [outbox]: the producers, with [Enqueue] or
    [EnqueueIfAbsent] on a transaction that commits later or not at all
    ([src/internal/orchestrator/outbox.go]), the workers ([claimOne],
    [finalizeClaim]), the retention sweep ([outboxgc.go]), the queues of dynamic
    secrets and of secret sync that mark their rows delivered themselves
    ([src/internal/server/secrets.go]), the operator who requeues a dead notification
    ([src/internal/store/notification_inbox.go]) and the offboarding of a tenant
    ([src/internal/store/offboard.go]).  The table has no unique index on its
    idempotency keys, and the condition of the conditional insert reads committed rows
    only, so two open transactions can both insert. *)

From S2P Require Import Prelude Json Outbox Circuit Dispatch.
Open Scope string_scope.
Open Scope list_scope.
Open Scope Z_scope.

Module OutboxTable.
Import GoStrings Outbox Circuit Dispatch.

(** ** The other writers *)

(** A queue of [server/secrets.go] has done the work of its own row. *)
Definition done_row (dbnow : Z) (r : Row) : Row :=
  mkRow (r_id r) (r_tenant r) (r_destination r) (r_payload r) (r_key r) "delivered" (r_attempts r)
    None (r_next r) (Some dbnow) None None.

Definition Done (dbnow : Z) (tenantID destination key : string) (db : DB) : DB :=
  mkDB (update_where (fun r => String.eqb (r_tenant r) tenantID && String.eqb (r_destination r) destination
                               && String.eqb (r_key r) key && negb (is_status "delivered" r)) (done_row dbnow) (db_rows db))
    (db_seq db).

Inductive requeueError :=
| NotificationNotFound
| NotificationAlreadyProcessing
| NotificationNotDead (status : string).

Definition requeued_row (dbnow : Z) (r : Row) : Row :=
  mkRow (r_id r) (r_tenant r) (r_destination r) (r_payload r) (r_key r) "pending" 0
    (r_last_error r) dbnow (r_delivered_at r) None None.

Definition notification_row (tenantID : string) (id : Z) (r : Row) : bool :=
  String.eqb (r_tenant r) tenantID && (r_id r =? id) && HasPrefix (r_destination r) "notification.".

Definition RequeueNotificationOutbox (dbnow : Z) (tenantID : string) (id : Z) (db : DB) : result requeueError Row * DB :=
  match List.find (notification_row tenantID id) (db_rows db) with
  | None => (Err NotificationNotFound, db)
  | Some r =>
      if is_status "failed" r then
        let db' := mkDB (update_where (fun x => notification_row tenantID id x && is_status "failed" x)
                           (requeued_row dbnow) (db_rows db)) (db_seq db) in
        match List.find (notification_row tenantID id) (db_rows db') with
        | Some r' => (Ok r', db')
        | None => (Err NotificationNotFound, db)
        end
      else if is_status "pending" r then (Ok r, db)
      else if is_status "processing" r then (Err NotificationAlreadyProcessing, db)
      else (Err (NotificationNotDead (r_status r)), db)
  end.

(** The part of an offboarding that deletes from [outbox]. *)
Definition offboard (tenantID : string) (db : DB) : DB :=
  mkDB (List.filter (fun r => negb (String.eqb (r_tenant r) tenantID)) (db_rows db)) (db_seq db).

(** ** The table and the open transactions *)

(** The committed table, and the rows that open transactions have inserted. *)
Record OutboxSys := mkOS { os_db : DB; os_open : list Row }.

(** An insert on an open transaction: the id is drawn, and the rows it appends are not
    visible to the others yet. *)
Definition open_insert (insert : DB -> DB) (s : OutboxSys) : OutboxSys :=
  let db' := insert (os_db s) in
  mkOS (mkDB (db_rows (os_db s)) (db_seq db')) (os_open s ++ drop (length (db_rows (os_db s))) (db_rows db')).

(** The table is in id order. *)
Fixpoint place (r : Row) (l : list Row) : list Row :=
  match l with
  | [] => [r]
  | x :: l' => if r_id x <? r_id r then x :: place r l' else r :: x :: l'
  end.

Definition close (id : Z) (l : list Row) : list Row := List.filter (fun r => negb (r_id r =? id)) l.

Definition busy (e : Entry) (s : OutboxSys) : bool :=
  existsb (same_key (e_TenantID e) (e_IdempotencyKey e)) (os_open s).

Inductive label :=
| Enqueued (e : Entry)
| EnqueuedIfAbsent (e : Entry) (busy : bool)
| Committed (r : Row)
| RolledBack (r : Row)
| Worked
| Swept
| QueueDone (tenantID destination key : string)
| Requeued (tenantID : string) (id : Z)
| Offboarded (tenantID : string).

(** One statement or commit of any writer, whatever its local state. *)
Inductive table_step : OutboxSys -> label -> OutboxSys -> Prop :=
| ts_enqueue dbnow s e :
    table_step s (Enqueued e) (open_insert (fun db => snd (Enqueue dbnow db e)) s)
| ts_enqueue_if_absent dbnow s e :
    table_step s (EnqueuedIfAbsent e (busy e s)) (open_insert (fun db => snd (EnqueueIfAbsent dbnow db e)) s)
| ts_commit s r : r ∈ os_open s ->
    table_step s (Committed r)
      (mkOS (mkDB (place r (db_rows (os_db s))) (db_seq (os_db s))) (close (r_id r) (os_open s)))
| ts_rollback s r : r ∈ os_open s ->
    table_step s (RolledBack r) (mkOS (os_db s) (close (r_id r) (os_open s)))
| ts_claim o env cutoff seenT seenD s w res db' w' :
    claimOne o env cutoff seenT seenD (os_db s) w = (res, db', w') -> table_step s Worked (mkOS db' (os_open s))
| ts_finalize o env c derr s w res db' w' :
    finalizeClaim o env c derr (os_db s) w = (res, db', w') -> table_step s Worked (mkOS db' (os_open s))
| ts_sweep retention now s :
    table_step s Swept (mkOS (snd (Sweep retention now (os_db s))) (os_open s))
| ts_done dbnow tenantID destination key s :
    table_step s (QueueDone tenantID destination key) (mkOS (Done dbnow tenantID destination key (os_db s)) (os_open s))
| ts_requeue dbnow tenantID id s :
    table_step s (Requeued tenantID id) (mkOS (snd (RequeueNotificationOutbox dbnow tenantID id (os_db s))) (os_open s))
| ts_offboard tenantID s :
    table_step s (Offboarded tenantID) (mkOS (offboard tenantID (os_db s)) (os_open s)).

Inductive table_run : OutboxSys -> list label -> OutboxSys -> Prop :=
| run_nil s : table_run s [] s
| run_cons s l s1 tr s2 : table_step s l s1 -> table_run s1 tr s2 -> table_run s (l :: tr) s2.

(** ** Ids *)

Definition all_rows (s : OutboxSys) : list Row := db_rows (os_db s) ++ os_open s.

Definition sys_ok (s : OutboxSys) : Prop := ids_ok (mkDB (all_rows s) (db_seq (os_db s))).

Lemma sys_ok_db s : sys_ok s -> ids_ok (os_db s).
Proof.
  intros [Hn Hf]. cbn in Hn, Hf. unfold all_rows in *. rewrite fmap_app in Hn. apply NoDup_app in Hn as (Hn & _ & _).
  apply Forall_app in Hf as [Hf _]. by split.
Qed.

Lemma sublist_filter_keep {A} (f : A -> bool) (l : list A) : sublist (List.filter f l) l.
Proof. induction l as [|x l IH]; simpl; [done|]. destruct (f x); by constructor. Qed.

Lemma ids_ok_sublist n l k : sublist l k -> ids_ok (mkDB k n) -> ids_ok (mkDB l n).
Proof.
  intros Hs [Hn Hf]. split; cbn in *.
  - eapply sublist_NoDup; [exact Hn|]. clear Hn Hf. induction Hs; simpl; by constructor.
  - rewrite Forall_forall in Hf |- *. intros r Hr. apply Hf. by eapply elem_of_sublist.
Qed.

Lemma ids_ok_perm n l k : l ≡ₚ k -> ids_ok (mkDB k n) -> ids_ok (mkDB l n).
Proof. intros Hp [Hn Hf]. split; cbn in *; by rewrite Hp. Qed.

Lemma place_perm r l : place r l ≡ₚ r :: l.
Proof. induction l as [|x l IH]; cbn; [done|]. destruct (r_id x <? r_id r); [|done]. rewrite IH. by apply Permutation_swap. Qed.

(** With distinct ids, closing a transaction takes its row out. *)
Lemma close_perm r l : NoDup (r_id <$> l) -> r ∈ l -> l ≡ₚ r :: close (r_id r) l.
Proof.
  intros Hn Hr. apply list_elem_of_split in Hr as (l1 & l2 & ->).
  rewrite fmap_app, fmap_cons in Hn. apply NoDup_app in Hn as (_ & H1 & Hn). apply NoDup_cons in Hn as [H2 _].
  assert (Hkeep : forall l, r_id r ∉ (r_id <$> l) -> close (r_id r) l = l).
  { induction l as [|x l IH]; intros Hx; [done|]. cbn in *. apply not_elem_of_cons in Hx as [Hx Hl].
    destruct (Z.eqb_spec (r_id x) (r_id r)); [congruence|]. cbn. f_equal. by apply IH. }
  assert (Happ : close (r_id r) (l1 ++ r :: l2) = close (r_id r) l1 ++ close (r_id r) l2).
  { unfold close. rewrite List.filter_app. cbn. by rewrite Z.eqb_refl. }
  rewrite Happ, !Hkeep; [by rewrite Permutation_middle|done|].
  intros Hx. apply (H1 _ Hx). by left.
Qed.

(** ** Rows that keep their effect *)

(** The rows in place, each with its effect. *)
Definition same_effects (rows rows' : list Row) : Prop := Forall2 (fun r r' => effect_of r' = effect_of r) rows rows'.

Lemma row_steps_same rows rows' : Forall2 (rtc row_step) rows rows' -> same_effects rows rows'.
Proof. intros H. eapply Forall2_impl; [exact H|]. intros r r'. apply row_steps_effect. Qed.

Lemma same_effects_ids rows rows' : same_effects rows rows' -> r_id <$> rows' = r_id <$> rows.
Proof. induction 1 as [|r r' l l' Hr _ IH]; [done|]. cbn. unfold effect_of in Hr. f_equal; [congruence|exact IH]. Qed.

Lemma update_where_same p f rows : (forall r, effect_of (f r) = effect_of r) -> same_effects rows (update_where p f rows).
Proof. intros Hf. induction rows as [|r l IH]; [constructor|]. constructor; [by destruct (p r)|done]. Qed.

Lemma same_effects_refl rows : same_effects rows rows.
Proof. induction rows; by constructor. Qed.

Lemma requeue_rows dbnow tenantID id db : let db' := snd (RequeueNotificationOutbox dbnow tenantID id db) in
  same_effects (db_rows db) (db_rows db') /\ db_seq db' = db_seq db.
Proof.
  unfold RequeueNotificationOutbox. destruct (List.find _ _) as [r|]; [|split; [apply same_effects_refl|done]].
  repeat case_goal; split; try done; try apply same_effects_refl. by apply update_where_same.
Qed.

Lemma requeue_attempts dbnow tenantID id db : let db' := snd (RequeueNotificationOutbox dbnow tenantID id db) in
  Forall2 (fun r r' => r_attempts r <= r_attempts r' \/ Requeued tenantID id = Requeued (r_tenant r) (r_id r)) (db_rows db) (db_rows db').
Proof.
  assert (Hsame : Forall2 (fun r r' => r_attempts r <= r_attempts r' \/ Requeued tenantID id = Requeued (r_tenant r) (r_id r)) (db_rows db) (db_rows db))
    by (apply Forall_Forall2_diag, Forall_forall; left; lia).
  unfold RequeueNotificationOutbox. destruct (List.find _ _) as [r|]; [|done]. repeat case_goal; try done. cbn.
  clear. induction (db_rows db) as [|x l IH]; constructor; [|done].
  destruct (notification_row tenantID id x && is_status "failed" x) eqn:E; [right|left; lia].
  apply andb_true_iff in E as [E _]. unfold notification_row in E. rewrite !andb_true_iff, String.eqb_eq, Z.eqb_eq in E. naive_solver.
Qed.

Lemma claim_seq o env cutoff seenT seenD db w res db' w' :
  claimOne o env cutoff seenT seenD db w = (res, db', w') -> db_seq db' = db_seq db.
Proof.
  intros H. apply claimOne_cases in H. destruct res as [[c|]|e].
  - by destruct H as (r & _ & _ & _ & _ & ->).
  - by destruct H as [-> _].
  - by destruct H as (_ & -> & _).
Qed.

Lemma finalize_seq o env c derr db w res db' w' :
  finalizeClaim o env c derr db w = (res, db', w') -> db_seq db' = db_seq db.
Proof.
  intros H. apply finalizeClaim_cases in H. destruct res as [[]|e]; [|by destruct H as (-> & _)].
  destruct H as [_ H]. destruct derr; [by destruct H as (? & ? & _ & -> & _)|by destruct H as (? & ? & -> & _)].
Qed.

(** ** One step *)

(** What a step does to the rows: it adds one to the open ones, moves one from there into
    the table, updates rows in place, or drops some. *)
Inductive shape (s : OutboxSys) (l : label) (s' : OutboxSys) : Prop :=
| sh_insert e dbnow :
    s' = mkOS (mkDB (db_rows (os_db s)) (db_seq (os_db s) + 1)) (os_open s ++ [new_row (db_seq (os_db s)) dbnow e]) ->
    l = Enqueued e \/ l = EnqueuedIfAbsent e (busy e s) /\ ~ has_key (os_db s) (e_TenantID e) (e_IdempotencyKey e) ->
    shape s l s'
| sh_update :
    same_effects (db_rows (os_db s)) (db_rows (os_db s')) -> db_seq (os_db s') = db_seq (os_db s) -> os_open s' = os_open s ->
    Forall2 (fun r r' => r_attempts r <= r_attempts r' \/ l = Requeued (r_tenant r) (r_id r)) (db_rows (os_db s)) (db_rows (os_db s')) ->
    shape s l s'
| sh_drop rows :
    all_rows s' ≡ₚ rows -> sublist rows (all_rows s) -> db_seq (os_db s') = db_seq (os_db s) ->
    (forall r, r ∈ db_rows (os_db s) -> r ∈ db_rows (os_db s') \/ r_status r = "delivered" \/ l = Offboarded (r_tenant r)) ->
    shape s l s'.

Lemma step_shape s l s' : sys_ok s -> table_step s l s' -> shape s l s'.
Proof.
  intros Hok. pose proof (sys_ok_db _ Hok) as Hids.
  assert (Hopen : NoDup (r_id <$> os_open s)).
  { destruct Hok as [Hn _]. cbn in Hn. unfold all_rows in Hn. rewrite fmap_app in Hn. by apply NoDup_app in Hn as (_ & _ & Hn). }
  assert (Hrows : forall db', Forall2 (rtc row_step) (db_rows (os_db s)) (db_rows db') -> db_seq db' = db_seq (os_db s) ->
    forall l, shape s l (mkOS db' (os_open s))).
  { intros db' Hf Hseq l'. apply sh_update; cbn; [by apply row_steps_same|done|done|].
    eapply Forall2_impl; [exact Hf|]. intros r r' Hr. left. by apply row_steps_attempts. }
  destruct 1 as [dbnow s e|dbnow s e|s r Hr|s r Hr|o env cutoff sT sD s w res db' w' H|o env c derr s w res db' w' H|ret now s
    |dbnow t d k s|dbnow t id s|t s].
  - apply (sh_insert _ _ _ e dbnow); [|by left]. unfold open_insert. cbn. by rewrite drop_app_length.
  - unfold open_insert. rewrite EnqueueIfAbsent_spec. case_decide as Hk.
    + apply sh_update; cbn; [apply same_effects_refl|done|rewrite drop_all; apply app_nil_r|apply Forall2_same_length_lookup_2; [done|]].
      intros i r r' H1 H2. left. simplify_eq. lia.
    + apply (sh_insert _ _ _ e dbnow); [|by right]. cbn. by rewrite drop_app_length.
  - apply (sh_drop _ _ _ (all_rows s)); cbn; [|done|done|].
    + unfold all_rows. cbn. rewrite place_perm. cbn. rewrite Permutation_middle. apply Permutation_app_head.
      symmetry. by apply close_perm.
    + intros x Hx. left. rewrite place_perm. by right.
  - apply (sh_drop _ _ _ (db_rows (os_db s) ++ close (r_id r) (os_open s))); [done| |done|by left].
    apply sublist_app; [done|apply sublist_filter_keep].
  - destruct (claimOne_row_steps _ _ _ _ _ _ _ _ _ _ Hids H) as [Hs _]. apply Hrows; [done|by eapply claim_seq].
  - destruct (finalizeClaim_row_steps _ _ _ _ _ _ _ _ _ Hids H) as [Hs _]. apply Hrows; [done|by eapply finalize_seq].
  - apply (sh_drop _ _ _ (db_rows (snd (Sweep ret now (os_db s))) ++ os_open s)); [done| |done|].
    + apply sublist_app; [apply sublist_filter_keep|done].
    + intros r Hr. destruct (decide (r_status r = "delivered")); [by right; left|left]. apply Sweep_spec. split; [done|]. by intros [? _].
  - apply sh_update; cbn; [by apply update_where_same|done|done|].
    generalize (db_rows (os_db s)). induction l as [|r l IH]; constructor; [left; by destruct (_ && _)|done].
  - destruct (requeue_rows dbnow t id (os_db s)) as [Hs Hseq]. apply sh_update; [done..|].
    apply requeue_attempts.
  - apply (sh_drop _ _ _ (db_rows (offboard t (os_db s)) ++ os_open s)); [done| |done|].
    + apply sublist_app; [apply sublist_filter_keep|done].
    + intros r Hr. destruct (String.eqb_spec (r_tenant r) t) as [<-|Hne]; [by right; right|left].
      apply list_elem_of_In, filter_In. rewrite <- list_elem_of_In. split; [done|]. by apply negb_true_iff, String.eqb_neq.
Qed.

Lemma table_step_ok s l s' : sys_ok s -> table_step s l s' -> sys_ok s'.
Proof.
  intros Hok Hs. destruct (step_shape _ _ _ Hok Hs) as [e dbnow -> _|He Hseq Ho _|rows Hp Hsub Hseq _]; unfold sys_ok in *.
  - unfold all_rows in *. cbn. rewrite app_assoc. exact (Enqueue_ids_ok dbnow _ e Hok).
  - rewrite Hseq. apply same_effects_ids in He. destruct Hok as [Hn Hf]. unfold all_rows in *. cbn in *. rewrite Ho.
    split; cbn; [by rewrite fmap_app, He, <- fmap_app|]. apply Forall_app in Hf as [Hf1 Hf2]. apply Forall_app. split; [|done].
    assert (Hf1' : Forall (fun i => i < db_seq (os_db s)) (r_id <$> db_rows (os_db s))) by by apply Forall_fmap.
    rewrite <- He in Hf1'. by apply Forall_fmap in Hf1'.
  - rewrite Hseq. eapply ids_ok_perm; [exact Hp|]. by eapply ids_ok_sublist.
Qed.

Lemma run_ok s tr s' : sys_ok s -> table_run s tr s' -> sys_ok s'.
Proof. intros Hok Hr. induction Hr as [|s l s1 tr s2 Hs _ IH]; [done|]. apply IH. by eapply table_step_ok. Qed.

(** A step keeps a committed row, unless it sweeps it as delivered or erases its tenant. *)
Lemma step_row s l s' r : sys_ok s -> table_step s l s' -> r ∈ db_rows (os_db s) ->
  (exists r', r' ∈ db_rows (os_db s') /\ effect_of r' = effect_of r /\
     (r_attempts r <= r_attempts r' \/ l = Requeued (r_tenant r) (r_id r))) \/
  r_status r = "delivered" \/ l = Offboarded (r_tenant r).
Proof.
  intros Hok Hs Hr. destruct (step_shape _ _ _ Hok Hs) as [e dbnow -> _|He Hseq Ho Ha|rows _ _ _ Hd].
  - left. exists r. split_and!; [done|done|left; lia].
  - left. apply list_elem_of_lookup in Hr as [i Hi]. destruct (Forall2_lookup_l _ _ _ _ _ He Hi) as (r' & Hi' & Hr').
    exists r'. split_and!; [by eapply list_elem_of_lookup_2|done|exact (Forall2_lookup_lr _ _ _ _ _ _ Ha Hi Hi')].
  - destruct (Hd r Hr) as [Hr'|[Hx|Hx]]; [left; exists r; split_and!; [done|done|left; lia]|by right; left|by right; right].
Qed.

(** ** Copies of a key *)

(** The rows of a key, committed or about to be. *)
Definition copies (tenant key : string) (s : OutboxSys) : nat := length (List.filter (same_key tenant key) (all_rows s)).

(** An insert that the condition of [EnqueueIfAbsent] does not control: a plain
    [Enqueue], or a conditional one beside an open insert of the same key. *)
Definition uncontrolled (tenant key : string) (l : label) : bool :=
  match l with
  | Enqueued e => String.eqb (e_TenantID e) tenant && String.eqb (e_IdempotencyKey e) key
  | EnqueuedIfAbsent e b => String.eqb (e_TenantID e) tenant && String.eqb (e_IdempotencyKey e) key && b
  | _ => false
  end.

Lemma filter_perm {A} (f : A -> bool) l k : l ≡ₚ k -> List.filter f l ≡ₚ List.filter f k.
Proof.
  induction 1 as [|x l k _ IH|x y l|l k m _ IH1 _ IH2]; cbn; [done| |destruct (f x), (f y); first [done|constructor]|by etrans].
  destruct (f x); [by constructor|done].
Qed.

Lemma filter_sublist_le {A} (f : A -> bool) l k : sublist l k -> (length (List.filter f l) <= length (List.filter f k))%nat.
Proof. induction 1 as [|x l k _ IH|x l k _ IH]; cbn; [done|destruct (f x); cbn; lia..]. Qed.

Lemma same_effects_copies t k rows rows' : same_effects rows rows' ->
  length (List.filter (same_key t k) rows') = length (List.filter (same_key t k) rows).
Proof.
  induction 1 as [|r r' l l' Hr _ IH]; [done|]. cbn. unfold effect_of in Hr.
  assert (same_key t k r' = same_key t k r) as -> by (unfold same_key; congruence). destruct (same_key t k r); cbn; by rewrite IH.
Qed.

(** Without a row of the key, committed or open, there is no copy. *)
Lemma no_copies t k s : ~ has_key (os_db s) t k -> existsb (same_key t k) (os_open s) = false -> copies t k s = 0%nat.
Proof.
  rewrite <- existsb_same_key, not_true_iff_false. intros Hc Ho. unfold copies, all_rows. rewrite List.filter_app, length_app.
  assert (Hz : forall l, existsb (same_key t k) l = false -> length (List.filter (same_key t k) l) = 0%nat).
  { induction l as [|r l IH]; cbn; [done|]. intros [-> ?]%orb_false_iff. by apply IH. }
  by rewrite !Hz.
Qed.

Lemma step_copies t k s l s' : sys_ok s -> table_step s l s' ->
  (copies t k s' <= Nat.max 1 (copies t k s) + Nat.b2n (uncontrolled t k l))%nat.
Proof.
  intros Hok Hs. destruct (step_shape _ _ _ Hok Hs) as [e dbnow -> Hl|He Hseq Ho _|rows Hp Hsub _ _].
  - set (s' := mkOS _ _). assert (Hc : copies t k s' = (copies t k s + Nat.b2n (same_key t k (new_row (db_seq (os_db s)) dbnow e)))%nat).
    { unfold copies, all_rows, s'. cbn [os_db os_open db_rows]. rewrite app_assoc, List.filter_app, length_app. f_equal. cbn [List.filter]. by destruct (same_key _ _ _). }
    rewrite Hc. destruct (same_key t k _) eqn:E; [|cbn; lia]. apply same_key_spec in E as [<- <-]. cbn [r_tenant r_key new_row] in *.
    destruct Hl as [->|[-> Hno]]; cbn [uncontrolled]; rewrite !String.eqb_refl; [cbn; lia|]. cbn [andb].
    destruct (busy e s) eqn:Eb; [cbn; lia|]. rewrite (no_copies _ _ s) by done. cbn. lia.
  - unfold copies, all_rows. rewrite Ho, !List.filter_app, !length_app, (same_effects_copies _ _ _ _ He). lia.
  - unfold copies. rewrite (filter_perm _ _ _ Hp). pose proof (filter_sublist_le (same_key t k) _ _ Hsub). lia.
Qed.

(** ** The theorem *)

(** C2: at-least-once under every interleaving of the producers, whose transactions
    commit later or roll back, the workers, the retention sweep, the secret queues, an
    operator's requeue and offboardings.  A committed row stays in the table with its
    tenant, destination, payload and key, and its attempts only grow except where it is
    requeued, until it has been marked delivered or its tenant is offboarded.  The copies
    of an idempotency key, committed or about to be, never exceed one (or what there was
    at the start) by more than the plain [Enqueue]s of the key plus the
    [EnqueueIfAbsent]s that ran beside an open insert of the key: without those there is
    one row per key. *)
Theorem outbox_no_loss (s s' : OutboxSys) (tr : list label) :
  sys_ok s -> table_run s tr s' ->
  (forall r, r ∈ db_rows (os_db s) ->
    (exists r', r' ∈ db_rows (os_db s') /\ effect_of r' = effect_of r /\
       (r_attempts r <= r_attempts r' \/ Requeued (r_tenant r) (r_id r) ∈ tr)) \/
    (exists tr1 tr2 sm rm, tr = tr1 ++ tr2 /\ table_run s tr1 sm /\ table_run sm tr2 s' /\
       rm ∈ db_rows (os_db sm) /\ effect_of rm = effect_of r /\ r_status rm = "delivered") \/
    Offboarded (r_tenant r) ∈ tr) /\
  (forall tenant key,
    (copies tenant key s' <= Nat.max 1 (copies tenant key s) + length (List.filter (uncontrolled tenant key) tr))%nat).
Proof.
  intros Hok Hr. induction Hr as [s|s l s1 tr s2 Hs Hr IH].
  { split; [|intros t k; cbn; lia]. intros r Hr. left. exists r. split_and!; [done|done|left; lia]. }
  destruct (IH (table_step_ok _ _ _ Hok Hs)) as [IH1 IH2]. split.
  - intros r Hin. destruct (step_row _ _ _ _ Hok Hs Hin) as [(r1 & Hr1 & He1 & Ha1)|[Hd|Hoff]].
    + assert (Ht : r_tenant r1 = r_tenant r /\ r_id r1 = r_id r) by (unfold effect_of in He1; split; congruence). destruct Ht as [Ht Hi].
      destruct (IH1 _ Hr1) as [(r' & Hr' & He' & Ha')|[(tr1 & tr2 & sm & rm & -> & H1 & H2 & Hm & He & Hd)|Hoff]].
      * left. exists r'. split_and!; [done|congruence|]. rewrite Ht, Hi in Ha'.
        destruct Ha1 as [Ha1| ->]; [|right; by left]. destruct Ha' as [Ha'|Ha']; [left; lia|right; by right].
      * right; left. exists (l :: tr1), tr2, sm, rm. split_and!; try done; [by econstructor|congruence].
      * right; right. right. by rewrite <- Ht.
    + right; left. exists [], (l :: tr), s, r. split_and!; try done; by econstructor.
    + right; right. rewrite Hoff. by left.
  - intros t k. specialize (IH2 t k). pose proof (step_copies t k _ _ _ Hok Hs). cbn [List.filter].
    destruct (uncontrolled t k l); cbn in *; lia.
Qed.

(** Two conditional inserts of one key on overlapping transactions: both insert. *)
Definition demo_entry : Entry := mkEntry "t1" "ca.issue" "k1" (DRaw "body").
Definition demo_race : list label :=
  [EnqueuedIfAbsent demo_entry false; EnqueuedIfAbsent demo_entry true;
   Committed (new_row 1 0 demo_entry); Committed (new_row 2 0 demo_entry)].
Definition demo_raced : OutboxSys := mkOS (mkDB [new_row 1 0 demo_entry; new_row 2 0 demo_entry] 3) [].

Lemma overlapping_inserts_duplicate :
  table_run (mkOS (mkDB [] 1) []) demo_race demo_raced /\ copies "t1" "k1" demo_raced = 2%nat.
Proof.
  split; [|reflexivity]. unfold demo_race.
  eapply run_cons; [apply (ts_enqueue_if_absent 0 (mkOS (mkDB [] 1) []) demo_entry)|].
  eapply run_cons; [apply (ts_enqueue_if_absent 0 (mkOS (mkDB [] 2) [new_row 1 0 demo_entry]) demo_entry)|].
  eapply run_cons; [apply (ts_commit (mkOS (mkDB [] 3) [new_row 1 0 demo_entry; new_row 2 0 demo_entry])); by left|].
  eapply run_cons; [apply (ts_commit (mkOS (mkDB [new_row 1 0 demo_entry] 3) [new_row 2 0 demo_entry])); by left|].
  apply run_nil.
Qed.

(** A conditional insert finds the row of an earlier one, which is then marked delivered by
    its queue and swept. *)
Definition demo_trace : list label := [EnqueuedIfAbsent demo_entry false; QueueDone "t1" "ca.issue" "k1"; Swept].

Lemma outbox_no_loss_witness :
  let s := mkOS (mkDB [new_row 1 0 demo_entry] 2) [] in
  let s' := mkOS (snd (Sweep 0 5 (Done 3 "t1" "ca.issue" "k1" (os_db s)))) [] in
  (forall r, r ∈ db_rows (os_db s) ->
    (exists r', r' ∈ db_rows (os_db s') /\ effect_of r' = effect_of r /\
       (r_attempts r <= r_attempts r' \/ Requeued (r_tenant r) (r_id r) ∈ demo_trace)) \/
    (exists tr1 tr2 sm rm, demo_trace = tr1 ++ tr2 /\ table_run s tr1 sm /\ table_run sm tr2 s' /\
       rm ∈ db_rows (os_db sm) /\ effect_of rm = effect_of r /\ r_status rm = "delivered") \/
    Offboarded (r_tenant r) ∈ demo_trace) /\
  (forall tenant key,
    (copies tenant key s' <= Nat.max 1 (copies tenant key s)
       + length (List.filter (uncontrolled tenant key) demo_trace))%nat).
Proof.
  apply (outbox_no_loss (mkOS (mkDB [new_row 1 0 demo_entry] 2) [])).
  - apply ids_okb_ok. vm_compute. reflexivity.
  - eapply run_cons; [apply (ts_enqueue_if_absent 0)|].
    eapply run_cons; [apply (ts_done 3)|].
    eapply run_cons; [apply (ts_sweep 0 5)|]. apply run_nil.
Defined.

End OutboxTable.
