(* ===== verification/Tenancy.v ===== *)
(** * Tenant routing

    Models [src/internal/tenancy/tenancy.go]: the routing vocabulary, the pooled
    default router and the three resolvers (PostgreSQL schema, JetStream
    subject, object prefix) with the validation that makes them fail closed.  A
    router is the interface [Router] of the source; the regular expressions are
    the character classes they denote. *)

From S2P Require Import Prelude.
Open Scope string_scope.
Open Scope list_scope.

Module Tenancy.

Inductive IsolationModel := IsolationPooled | IsolationSiloed | IsolationHybrid | IsolationOther (s : string).

Record Targets := mkTargets {
  t_Model : IsolationModel;
  t_PostgresSchema : string;
  t_JetStreamSubjectLane : string;
  t_ObjectKeyPrefix : string
}.

Inductive tenancyError :=
| RouteError (cause : string)
| MalformedSchema (s : string)
| SubjectParts
| MalformedLane (s : string)
| MalformedPrefix (s : string)
| PrefixNoSlash (s : string).

(** The interface [Router]; an error of the registry is its text. *)
Class Router := {
  TargetsFor : string -> result string Targets;
  JetStreamSubjectLanes : result string (list string)
}.

Definition PooledRouter : Router := {|
  TargetsFor := fun _ => Ok (mkTargets IsolationPooled "" "" "");
  JetStreamSubjectLanes := Ok []
|}.

(** [SetRouter]: a nil router installs the pooled one. *)
Definition SetRouter (r : option Router) : Router := default PooledRouter r.

Definition ValidIsolationModel (model : string) : bool :=
  String.eqb model "" || String.eqb model "pooled" || String.eqb model "siloed" || String.eqb model "hybrid".

(** ** Character classes *)

Definition between (lo hi : nat) (c : ascii) : bool :=
  let n := nat_of_ascii c in (lo <=? n)%nat && (n <=? hi)%nat.

Definition is_lower : ascii -> bool := between 97 122.
Definition is_upper : ascii -> bool := between 65 90.
Definition is_digit : ascii -> bool := between 48 57.
Definition is_underscore (c : ascii) : bool := Ascii.eqb c "_".
Definition is_dash (c : ascii) : bool := Ascii.eqb c "-".

(** [^[a-z_][a-z0-9_]{0,62}$] *)
Definition pgIdentRe (s : string) : bool :=
  match list_ascii_of_string s with
  | [] => false
  | c :: l =>
      (is_lower c || is_underscore c)
      && forallb (fun c => is_lower c || is_digit c || is_underscore c) l
      && (length l <=? 62)%nat
  end.

Definition token_char (c : ascii) : bool :=
  is_upper c || is_lower c || is_digit c || is_underscore c || is_dash c.

(** [^[A-Za-z0-9_-]+$] *)
Definition subjectTokenRe (s : list ascii) : bool :=
  match s with
  | [] => false
  | _ => forallb token_char s
  end.

(** ** strings.Split, Trim, HasPrefix, HasSuffix, Contains *)

(** The tokens of [l] between occurrences of the byte [sep]; [acc] is the token
    being read, reversed. *)
Fixpoint split_on (sep : ascii) (acc : list ascii) (l : list ascii) : list (list ascii) :=
  match l with
  | [] => [rev acc]
  | c :: l' => if Ascii.eqb c sep then rev acc :: split_on sep [] l' else split_on sep (c :: acc) l'
  end.

Fixpoint drop_char (c : ascii) (l : list ascii) : list ascii :=
  match l with
  | [] => []
  | x :: l' => if Ascii.eqb x c then drop_char c l' else l
  end.

(** [strings.Trim(s, c)] for a one-byte cutset. *)
Definition Trim (s : string) (c : ascii) : string :=
  string_of_list_ascii (rev (drop_char c (rev (drop_char c (list_ascii_of_string s))))).

Fixpoint contains_dotdot (l : list ascii) : bool :=
  match l with
  | [] => false
  | x :: l' =>
      match l' with
      | y :: _ => (Ascii.eqb x "." && Ascii.eqb y ".") || contains_dotdot l'
      | [] => false
      end
  end.

Definition nul : ascii := ascii_of_nat 0.

Definition has_prefix_slash (s : string) : bool :=
  match list_ascii_of_string s with c :: _ => Ascii.eqb c "/" | [] => false end.

Definition has_suffix_slash (s : string) : bool :=
  match rev (list_ascii_of_string s) with c :: _ => Ascii.eqb c "/" | [] => false end.

(** ** Validation and resolution *)

Definition validateSubjectLane (lane : string) : option tenancyError :=
  if forallb subjectTokenRe (split_on "." [] (list_ascii_of_string lane)) then None
  else Some (MalformedLane lane).

Definition validateObjectPrefix (prefix : string) : option tenancyError :=
  if has_prefix_slash prefix || contains_dotdot (list_ascii_of_string prefix)
     || existsb (Ascii.eqb nul) (list_ascii_of_string prefix)
  then Some (MalformedPrefix prefix)
  else if has_suffix_slash prefix then None else Some (PrefixNoSlash prefix).

Section Resolve.
Context {R : Router}.

Definition PostgresSchema (tenantID : string) : result tenancyError string :=
  match TargetsFor tenantID with
  | Err e => Err (RouteError e)
  | Ok targets =>
      if String.eqb (t_PostgresSchema targets) "" then Ok ""
      else if pgIdentRe (t_PostgresSchema targets) then Ok (t_PostgresSchema targets)
      else Err (MalformedSchema (t_PostgresSchema targets))
  end.

Definition EventSubject (tenantID prefix eventType : string) : result tenancyError string :=
  match TargetsFor tenantID with
  | Err e => Err (RouteError e)
  | Ok targets =>
      let prefix := Trim prefix "." in
      let eventType := Trim eventType "." in
      if String.eqb prefix "" || String.eqb eventType "" then Err SubjectParts else
      let lane := t_JetStreamSubjectLane targets in
      if String.eqb lane "" then Ok (prefix ++ "." ++ eventType)%string
      else match validateSubjectLane lane with
           | Some e => Err e
           | None => Ok (prefix ++ "." ++ lane ++ "." ++ eventType)%string
           end
  end.

Definition ObjectPrefix (tenantID : string) : result tenancyError string :=
  match TargetsFor tenantID with
  | Err e => Err (RouteError e)
  | Ok targets =>
      if String.eqb (t_ObjectKeyPrefix targets) "" then Ok ("tenant/" ++ Trim tenantID "/" ++ "/")%string
      else match validateObjectPrefix (t_ObjectKeyPrefix targets) with
           | Some e => Err e
           | None => Ok (t_ObjectKeyPrefix targets)
           end
  end.

End Resolve.

(** ** Lemmas *)

(** Characters of a schema name that passes: none can end the quoted identifier
    the store splices into [SET LOCAL search_path]. *)
Definition ident_char (c : ascii) : bool := is_lower c || is_digit c || is_underscore c.

Lemma pgIdentRe_chars s :
  pgIdentRe s = true -> forallb ident_char (list_ascii_of_string s) = true /\ (String.length s <= 63)%nat.
Proof.
  unfold pgIdentRe. intros H.
  assert (Hlen : String.length s = length (list_ascii_of_string s)).
  { clear H. induction s as [|c s IH]; simpl; [done|by rewrite IH]. }
  rewrite Hlen. destruct (list_ascii_of_string s) as [|c l]; [done|].
  rewrite !andb_true_iff, Nat.leb_le in H. destruct H as [[Hc Hl] Hn]. split; [|simpl; lia].
  simpl. rewrite andb_true_iff. split; [|exact Hl].
  unfold ident_char. destruct (is_lower c), (is_digit c), (is_underscore c); done.
Qed.

(** Splitting on the separator and joining again is the identity. *)
Fixpoint join_on (sep : ascii) (ls : list (list ascii)) : list ascii :=
  match ls with
  | [] => []
  | [l] => l
  | l :: ls' => l ++ sep :: join_on sep ls'
  end.

Lemma split_on_nonempty sep acc l : split_on sep acc l <> [].
Proof. revert acc. induction l as [|c l IH]; intros acc; simpl; [done|]. by destruct (Ascii.eqb c sep). Qed.

Lemma join_split sep acc l : join_on sep (split_on sep acc l) = rev acc ++ l.
Proof.
  revert acc. induction l as [|c l IH]; intros acc; simpl; [by rewrite app_nil_r|].
  destruct (Ascii.eqb_spec c sep) as [->|Hne].
  - pose proof (IH []) as H0. simpl in H0. simpl.
    destruct (split_on sep [] l) eqn:E; [by destruct (split_on_nonempty sep [] l)|]. by rewrite H0.
  - rewrite IH. simpl. by rewrite <- app_assoc.
Qed.

Lemma join_chars (P : ascii -> bool) sep ls :
  P sep = true -> forallb (forallb P) ls = true -> forallb P (join_on sep ls) = true.
Proof.
  intros Hs. induction ls as [|l ls IH]; simpl; [done|]. rewrite andb_true_iff. intros [Hl Hls].
  destruct ls as [|l' ls]; [done|]. rewrite forallb_app. cbn [forallb].
  by rewrite Hl, Hs, IH.
Qed.

(** A lane that passes holds only token characters and dots. *)
Lemma lane_chars lane :
  validateSubjectLane lane = None ->
  forallb (fun c => token_char c || Ascii.eqb c ".") (list_ascii_of_string lane) = true.
Proof.
  unfold validateSubjectLane. case_goal; [|done]. intros _.
  rewrite <- (app_nil_l (list_ascii_of_string lane)). change (@nil ascii) with (rev (@nil ascii)).
  rewrite <- (join_split ".").
  apply join_chars; [by rewrite orb_true_r|].
  apply forallb_forall. intros l Hl. rewrite forallb_forall in Heq. specialize (Heq l Hl).
  unfold subjectTokenRe in Heq. destruct l as [|c l]; [done|].
  apply forallb_forall. intros x Hx. rewrite forallb_forall in Heq. by rewrite Heq.
Qed.

(** tenant routing fails closed for every router.  A routing error fails all
    three resolvers; a schema that is returned is empty or a plain identifier of
    at most 63 bytes; a subject is the trimmed prefix and type around a lane of
    token characters and dots only, so no wildcard enters it from the route; a
    routed object prefix is relative, free of dot-dot and NUL, and ends with a
    slash. *)
Theorem routing_fails_closed {R : Router} (tenantID prefix eventType : string) :
  (forall e, TargetsFor tenantID = Err e ->
     PostgresSchema tenantID = Err (RouteError e) /\
     EventSubject tenantID prefix eventType = Err (RouteError e) /\
     ObjectPrefix tenantID = Err (RouteError e)) /\
  (forall s, PostgresSchema tenantID = Ok s ->
     s = "" \/ (forallb ident_char (list_ascii_of_string s) = true /\ (String.length s <= 63)%nat)) /\
  (forall s, EventSubject tenantID prefix eventType = Ok s ->
     Trim prefix "." <> "" /\ Trim eventType "." <> "" /\
     (s = (Trim prefix "." ++ "." ++ Trim eventType ".")%string \/
      exists lane, s = (Trim prefix "." ++ "." ++ lane ++ "." ++ Trim eventType ".")%string /\
        forallb (fun c => token_char c || Ascii.eqb c ".") (list_ascii_of_string lane) = true)) /\
  (forall s targets, TargetsFor tenantID = Ok targets -> t_ObjectKeyPrefix targets <> "" ->
     ObjectPrefix tenantID = Ok s ->
     has_prefix_slash s = false /\ contains_dotdot (list_ascii_of_string s) = false /\
     existsb (Ascii.eqb nul) (list_ascii_of_string s) = false /\ has_suffix_slash s = true).
Proof.
  unfold PostgresSchema, EventSubject, ObjectPrefix.
  destruct (TargetsFor tenantID) as [targets|e]; [|by split_and!; intros; simplify_eq].
  split_and!; [done| | |].
  - intros s H. repeat case_in H; simplify_eq; [by left|right; by apply pgIdentRe_chars].
  - intros s H. case_in H; [done|]. apply orb_false_iff in Heq as [Hp He].
    apply String.eqb_neq in Hp, He. split_and!; [done|done|].
    case_in H; simplify_eq; [by left|right]. case_in H; simplify_eq.
    eexists. split; [done|by apply lane_chars].
  - intros s tg [= <-] Hne H. case_in H; [by apply String.eqb_eq in Heq|].
    destruct (validateObjectPrefix _) eqn:Hv in H; simplify_eq. unfold validateObjectPrefix in Hv.
    destruct (has_prefix_slash _), (contains_dotdot _), (existsb _ _), (has_suffix_slash _); done.
Qed.

End Tenancy.
