(* ===== verification/Events.v ===== *)
(** * The append-only event log

    Models [Append], [Import], [append], [Replay], [Delete] and [decodeStored]
    of [src/internal/events/events.go].  The stream itself is NATS JetStream, a
    third-party server: it is the class [EventStream], with the behaviour the
    log relies on as the class of laws [EventStreamLaws] (a published message
    gets the next sequence, is read back as published, and disturbs no other
    message; a deleted one leaves a gap).  [ListStream] is an instance, so that the laws are seen to be
    satisfiable and the components can be run. *)

From S2P Require Import Prelude Json Tenancy.
Open Scope string_scope.
Open Scope list_scope.
Open Scope Z_scope.

Module Events.
Import Tenancy.

(** Who performed a mutation. *)
Record Actor := mkActor { a_Subject : string; a_Roles : list string }.

(** The zero [time.Time] is 0. *)
Record Event := mkEvent {
  ev_ID : string;
  ev_Type : string;
  ev_TenantID : string;
  ev_Time : Z;
  ev_Data : data;
  ev_Sequence : Z;
  ev_Actor : option Actor;
  ev_SchemaVersion : Z
}.

Record storedEvent := mkStored {
  s_ID : string;
  s_Type : string;
  s_TenantID : string;
  s_Time : Z;
  s_SchemaVersion : Z;
  s_Data : data;
  s_Actor : option Actor
}.

Definition DefaultSchemaVersion : Z := 1.
Definition subjectPrefix : string := "events".

Inductive evError :=
| TypeRequired
| TenantRequired
| ImportMissingField
| SubjectError (e : tenancyError)
| PublishFailed
| DeleteFailed (seq : Z).

(** ** The stream *)

Class EventStream := {
  Stream : Type;
  LastSeq : Stream -> Z;
  GetMsg : Stream -> Z -> option storedEvent;
  Publish : Stream -> string -> string -> storedEvent -> option (Z * Stream);
  DeleteMsg : Stream -> Z -> option Stream;
  (** the message id is outside the duplicate window *)
  Fresh : Stream -> string -> Prop
}.

Class EventStreamLaws (S : EventStream) := {
  LastSeq_nonneg : forall st, 0 <= LastSeq st;
  GetMsg_range : forall st n m, GetMsg st n = Some m -> 1 <= n <= LastSeq st;
  Publish_seq : forall st subj id m n st', Fresh st id -> Publish st subj id m = Some (n, st') ->
    n = LastSeq st + 1 /\ LastSeq st' = n;
  Publish_stored : forall st subj id m n st', Fresh st id -> Publish st subj id m = Some (n, st') ->
    GetMsg st' n = Some m;
  Publish_others : forall st subj id m n st' k, Fresh st id -> Publish st subj id m = Some (n, st') ->
    k <> n -> GetMsg st' k = GetMsg st k;
  Delete_last : forall st n st', DeleteMsg st n = Some st' -> LastSeq st' = LastSeq st;
  Delete_gone : forall st n st', DeleteMsg st n = Some st' -> GetMsg st' n = None;
  Delete_others : forall st n st' k, DeleteMsg st n = Some st' -> k <> n -> GetMsg st' k = GetMsg st k;
  Delete_fresh : forall st n st' id, DeleteMsg st n = Some st' -> Fresh st id -> Fresh st' id
}.

(** ** The log *)

Section Log.
Context {ES : EventStream} {R : Router}.

(** [now] and [nuid] are the clock and the id the call draws; [ctxActor] is the
    actor the context carries. *)
Definition append (now : Z) (nuid : string) (ctxActor : option Actor) (e : Event)
    (requireSourceEnvelope : bool) (st : Stream) : result evError Event * Stream :=
  if String.eqb (ev_Type e) "" then (Err TypeRequired, st) else
  if String.eqb (ev_TenantID e) "" then (Err TenantRequired, st) else
  if requireSourceEnvelope && (String.eqb (ev_ID e) "" || (ev_Time e =? 0)) then (Err ImportMissingField, st) else
  let time := if ev_Time e =? 0 then now else ev_Time e in
  let id := if String.eqb (ev_ID e) "" then nuid else ev_ID e in
  let version := if ev_SchemaVersion e =? 0 then DefaultSchemaVersion else ev_SchemaVersion e in
  let actor := match ev_Actor e with Some a => Some a | None => ctxActor end in
  let payload := mkStored id (ev_Type e) (ev_TenantID e) time version (ev_Data e) actor in
  match EventSubject (ev_TenantID e) subjectPrefix (ev_Type e) with
  | Err err => (Err (SubjectError err), st)
  | Ok subject =>
      match Publish st subject id payload with
      | None => (Err PublishFailed, st)
      | Some (seq, st') =>
          (Ok (mkEvent id (ev_Type e) (ev_TenantID e) time (ev_Data e) seq actor version), st')
      end
  end.

Definition Append (now : Z) (nuid : string) (ctxActor : option Actor) (e : Event) (st : Stream) :=
  append now nuid ctxActor e false st.

Definition Import (now : Z) (nuid : string) (ctxActor : option Actor) (e : Event) (st : Stream) :=
  append now nuid ctxActor e true st.

Definition decodeStored (s : storedEvent) (seq : Z) : Event :=
  let ver := if s_SchemaVersion s =? 0 then DefaultSchemaVersion else s_SchemaVersion s in
  mkEvent (s_ID s) (s_Type s) (s_TenantID s) (s_Time s) (s_Data s) seq (s_Actor s) ver.

Section Replay.
Context {S E : Type} (fn : Event -> S -> result E unit * S).

(** The [for] loop with [n] sequences left from [seq]; the state of [fn]
    survives its error. *)
Fixpoint replay_loop (n : nat) (seq : Z) (st : Stream) (s : S) : result E unit * S :=
  match n with
  | O => (Ok tt, s)
  | Datatypes.S n' =>
      match GetMsg st seq with
      | None => replay_loop n' (seq + 1) st s
      | Some raw =>
          match fn (decodeStored raw seq) s with
          | (Ok _, s') => replay_loop n' (seq + 1) st s'
          | (Err e, s') => (Err e, s')
          end
      end
  end.

Definition Replay (from : Z) (st : Stream) (s : S) : result E unit * S :=
  let from := if from =? 0 then 1 else from in
  replay_loop (Z.to_nat (LastSeq st - from + 1)) from st s.

(** The same loop over a list of events. *)
Fixpoint each (l : list Event) (s : S) : result E unit * S :=
  match l with
  | [] => (Ok tt, s)
  | e :: l' =>
      match fn e s with
      | (Ok _, s') => each l' s'
      | (Err e, s') => (Err e, s')
      end
  end.

End Replay.

Definition Delete (seq : Z) (st : Stream) : result evError unit * Stream :=
  match DeleteMsg st seq with
  | Some st' => (Ok tt, st')
  | None => (Err (DeleteFailed seq), st)
  end.

(** The events of the [n] sequences from [seq] on, in order. *)
Fixpoint events_range (n : nat) (seq : Z) (st : Stream) : list Event :=
  match n with
  | O => []
  | Datatypes.S n' =>
      match GetMsg st seq with
      | None => events_range n' (seq + 1) st
      | Some raw => decodeStored raw seq :: events_range n' (seq + 1) st
      end
  end.

Definition events_from (from : Z) (st : Stream) : list Event :=
  events_range (Z.to_nat (LastSeq st - from + 1)) from st.

Lemma replay_loop_each {S E} (fn : Event -> S -> result E unit * S) n seq st s :
  replay_loop fn n seq st s = each fn (events_range n seq st) s.
Proof.
  revert seq s. induction n as [|n IH]; intros seq s; simpl; [done|].
  destruct (GetMsg st seq) as [raw|]; [|apply IH]. simpl.
  destruct (fn _ s) as [[]]; [apply IH|done].
Qed.

(** [Replay] calls its function on exactly the stored events from [from] on, in
    sequence order, until it fails. *)
Lemma Replay_each {S E} (fn : Event -> S -> result E unit * S) from st s :
  0 < from -> Replay fn from st s = each fn (events_from from st) s.
Proof.
  intros Hf. unfold Replay. destruct (Z.eqb_spec from 0); [lia|]. apply replay_loop_each.
Qed.

Lemma events_range_elem n seq st e :
  e ∈ events_range n seq st <->
  exists k raw, seq <= k < seq + Z.of_nat n /\ GetMsg st k = Some raw /\ e = decodeStored raw k.
Proof.
  revert seq. induction n as [|n IH]; intros seq; cbn [events_range].
  - rewrite elem_of_nil. split; [done|]. intros (k & _ & Hk & _). lia.
  - assert (Hs : e ∈ events_range n (seq + 1) st <->
      exists k raw, seq + 1 <= k < seq + Z.of_nat (Datatypes.S n) /\ GetMsg st k = Some raw /\ e = decodeStored raw k).
    { rewrite IH. split; intros (k & raw & Hk & ?); exists k, raw; (split; [lia|done]). }
    destruct (GetMsg st seq) as [raw|] eqn:E; rewrite ?elem_of_cons, Hs; split.
    + intros [->|(k & r & Hk & ?)]; [exists seq, raw; split; [lia|done]|exists k, r; split; [lia|done]].
    + intros (k & r & Hk & Hr & He). destruct (decide (k = seq)) as [->|]; [left; congruence|].
      right. exists k, r. split; [lia|done].
    + intros (k & r & Hk & ?). exists k, r. split; [lia|done].
    + intros (k & r & Hk & Hr & He). destruct (decide (k = seq)) as [->|]; [congruence|].
      exists k, r. split; [lia|done].
Qed.

Lemma events_from_elem `{!EventStreamLaws ES} from st e :
  0 < from -> e ∈ events_from from st <-> exists raw, from <= ev_Sequence e /\
    GetMsg st (ev_Sequence e) = Some raw /\ e = decodeStored raw (ev_Sequence e).
Proof.
  intros Hf. unfold events_from. rewrite events_range_elem. split.
  - intros (k & raw & Hk & Hr & ->). exists raw. cbn. split; [lia|done].
  - intros (raw & Hk & Hr & He). exists (ev_Sequence e), raw. split; [|done].
    apply GetMsg_range in Hr. lia.
Qed.

Lemma events_range_ext n seq st st' :
  (forall k, seq <= k < seq + Z.of_nat n -> GetMsg st' k = GetMsg st k) ->
  events_range n seq st' = events_range n seq st.
Proof.
  revert seq. induction n as [|n IH]; intros seq H; [done|]. cbn [events_range].
  rewrite H by lia. rewrite IH; [done|]. intros k Hk. apply H. lia.
Qed.

Lemma events_range_snoc n seq st :
  events_range (Datatypes.S n) seq st =
  events_range n seq st ++ events_range 1 (seq + Z.of_nat n) st.
Proof.
  revert seq. induction n as [|n IH]; intros seq.
  - cbn [app events_range]. by rewrite Z.add_0_r.
  - cbn [events_range] in IH |- *. rewrite IH.
    replace (seq + 1 + Z.of_nat n) with (seq + Z.of_nat (Datatypes.S n)) by lia.
    by destruct (GetMsg st seq).
Qed.

(** Publishing appends to what a replay sees. *)
Lemma events_from_publish `{!EventStreamLaws ES} from st subj id m n st' :
  0 < from <= LastSeq st + 1 -> Fresh st id -> Publish st subj id m = Some (n, st') ->
  events_from from st' = events_from from st ++ [decodeStored m n].
Proof.
  intros Hf Hfr Hp. destruct (Publish_seq _ _ _ _ _ _ Hfr Hp) as [Hn Hl].
  pose proof (Publish_stored _ _ _ _ _ _ Hfr Hp) as Hs.
  pose proof (fun k => Publish_others _ _ _ _ _ _ k Hfr Hp) as Ho.
  unfold events_from. rewrite Hl.
  replace (Z.to_nat (n - from + 1)) with (Datatypes.S (Z.to_nat (LastSeq st - from + 1))) by lia.
  rewrite events_range_snoc. f_equal.
  - apply events_range_ext. intros k Hk. apply Ho. lia.
  - cbn [events_range]. replace (from + Z.of_nat (Z.to_nat (LastSeq st - from + 1))) with n by lia.
    by rewrite Hs.
Qed.

Lemma each_app {S E} (fn : Event -> S -> result E unit * S) l k s :
  each fn (l ++ k) s = match each fn l s with (Ok _, s') => each fn k s' | r => r end.
Proof.
  revert s. induction l as [|e l IH]; intros s; simpl; [done|].
  destruct (fn e s) as [[]]; [apply IH|done].
Qed.

(** What a successful append has done. *)
Lemma append_ok `{!EventStreamLaws ES} now nuid actor e b st ev st' :
  append now nuid actor e b st = (Ok ev, st') ->
  Fresh st (if String.eqb (ev_ID e) "" then nuid else ev_ID e) ->
  ev_Type ev = ev_Type e /\ ev_TenantID ev = ev_TenantID e /\ ev_Data ev = ev_Data e /\
  ev_Type e <> "" /\ ev_TenantID e <> "" /\
  ev_ID ev = (if String.eqb (ev_ID e) "" then nuid else ev_ID e) /\
  ev_SchemaVersion ev = (if ev_SchemaVersion e =? 0 then DefaultSchemaVersion else ev_SchemaVersion e) /\
  ev_Sequence ev = LastSeq st + 1 /\ LastSeq st' = ev_Sequence ev /\
  (forall from, 0 < from <= LastSeq st + 1 -> events_from from st' = events_from from st ++ [ev]).
Proof.
  intros H Hfr. unfold append in H.
  case_in H; [done|]. case_in H; [done|]. case_in H; [done|]. case_in H; [|done].
  case_in H; [|done]. case_in H. simplify_eq. apply String.eqb_neq in Heq, Heq0. cbn.
  destruct (Publish_seq _ _ _ _ _ _ Hfr Heq3) as [Hn Hl].
  split_and!; try done. intros from Hfrom.
  rewrite (events_from_publish _ _ _ _ _ _ _ Hfrom Hfr Heq3). do 2 f_equal.
  unfold decodeStored. cbn. f_equal.
  destruct (ev_SchemaVersion e =? 0) eqn:Ev; [done|]. by rewrite Ev.
Qed.

Lemma append_err now nuid actor e b st er st' :
  append now nuid actor e b st = (Err er, st') -> st' = st.
Proof. unfold append. intros H. repeat case_in H; by simplify_eq. Qed.

End Log.

(** ** An instance of the stream

    A list of messages with their sequences; a deleted message leaves a gap and
    keeps its id in the duplicate window. *)
Module ListStream.

Record t := mk { msgs : list (Z * storedEvent); last : Z; ids : list string }.

Definition get (st : t) (n : Z) : option storedEvent :=
  snd <$> List.find (fun p => fst p =? n) (msgs st).

Definition publish (st : t) (subj id : string) (m : storedEvent) : option (Z * t) :=
  if existsb (String.eqb id) (ids st) then Some (last st, st)
  else Some (last st + 1, mk ((last st + 1, m) :: msgs st) (last st + 1) (id :: ids st)).

Definition delete (st : t) (n : Z) : option t :=
  Some (mk (List.filter (fun p => negb (fst p =? n)) (msgs st)) (last st) (ids st)).

(** Streams built by publishing and deleting: sequences lie in range. *)
Definition ok (st : t) : Prop := 0 <= last st /\ Forall (fun p => 1 <= fst p <= last st) (msgs st).

Definition good := { st : t | ok st }.

Lemma publish_ok st subj id m n st' : ok st -> publish st subj id m = Some (n, st') -> ok st'.
Proof.
  unfold publish, ok. intros [H0 Hf] H. case_in H; simplify_eq; [done|]. cbn.
  split; [lia|]. constructor; [cbn; lia|]. eapply Forall_impl; [exact Hf|]. cbn. lia.
Qed.

Lemma delete_ok st n st' : ok st -> delete st n = Some st' -> ok st'.
Proof.
  unfold delete, ok. intros [H0 Hf] H. simplify_eq. cbn. split; [done|].
  rewrite Forall_forall in Hf |- *. intros p Hp. apply Hf.
  apply list_elem_of_In, filter_In in Hp as [Hp _]. by apply list_elem_of_In.
Qed.

Definition gpublish (st : good) (subj id : string) (m : storedEvent) : option (Z * good) :=
  match publish (proj1_sig st) subj id m as r return (publish (proj1_sig st) subj id m = r -> option (Z * good)) with
  | Some (n, st') => fun H => Some (n, exist _ st' (publish_ok _ _ _ _ _ _ (proj2_sig st) H))
  | None => fun _ => None
  end eq_refl.

Definition gdelete (st : good) (n : Z) : option good :=
  match delete (proj1_sig st) n as r return (delete (proj1_sig st) n = r -> option good) with
  | Some st' => fun H => Some (exist _ st' (delete_ok _ _ _ (proj2_sig st) H))
  | None => fun _ => None
  end eq_refl.

Lemma empty_ok : ok (mk [] 0 []).
Proof. by split. Qed.

Definition empty : good := exist _ (mk [] 0 []) empty_ok.

End ListStream.

#[export] Instance ListStream_stream : EventStream := {|
  Stream := ListStream.good;
  LastSeq := fun st => ListStream.last (proj1_sig st);
  GetMsg := fun st n => ListStream.get (proj1_sig st) n;
  Publish := ListStream.gpublish;
  DeleteMsg := ListStream.gdelete;
  Fresh := fun st id => ~ (id ∈ ListStream.ids (proj1_sig st))
|}.

Lemma gpublish_inv (st : ListStream.good) subj id m n st' :
  ~ (id ∈ ListStream.ids (proj1_sig st)) -> ListStream.gpublish st subj id m = Some (n, st') ->
  n = ListStream.last (proj1_sig st) + 1 /\
  proj1_sig st' = ListStream.mk ((n, m) :: ListStream.msgs (proj1_sig st)) n (id :: ListStream.ids (proj1_sig st)).
Proof.
  intros Hf. unfold ListStream.gpublish.
  set (P := ListStream.publish_ok _ _ _ _). clearbody P. revert P.
  unfold ListStream.publish.
  assert (Hx : existsb (String.eqb id) (ListStream.ids (proj1_sig st)) = false).
  { apply not_true_iff_false. rewrite existsb_exists. intros (x & Hx & He).
    apply String.eqb_eq in He as <-. by apply Hf, list_elem_of_In. }
  rewrite Hx. intros P H. by simplify_eq.
Qed.

Lemma find_filter_same {A} (n : Z) (l : list (Z * A)) :
  List.find (fun p => fst p =? n) (List.filter (fun p => negb (fst p =? n)) l) = None.
Proof. induction l as [|p l IH]; cbn; [done|]. destruct (fst p =? n) eqn:E; cbn; [done|]. by rewrite E. Qed.

Lemma find_filter_other {A} (n k : Z) (l : list (Z * A)) :
  k <> n -> List.find (fun p => fst p =? k) (List.filter (fun p => negb (fst p =? n)) l) = List.find (fun p => fst p =? k) l.
Proof.
  intros Hk. induction l as [|p l IH]; cbn; [done|]. destruct (Z.eqb_spec (fst p) n); cbn; [|by rewrite IH].
  destruct (Z.eqb_spec (fst p) k); [lia|done].
Qed.

#[export] Instance ListStream_laws : EventStreamLaws ListStream_stream.
Proof.
  split; cbn.
  - intros [st [H0 Hf]]. exact H0.
  - intros [st [H0 Hf]] n m H. cbn in *. unfold ListStream.get in H.
    destruct (List.find _ _) as [p|] eqn:E; [|done].
    apply find_some in E as [Hin Heq]. apply Z.eqb_eq in Heq as <-.
    rewrite Forall_forall in Hf. apply Hf. by apply list_elem_of_In.
  - intros st subj id m n st' Hf H. apply gpublish_inv in H as [-> Hst]; [|done]. by rewrite Hst.
  - intros st subj id m n st' Hf H. apply gpublish_inv in H as [-> Hst]; [|done].
    unfold ListStream.get. rewrite Hst. cbn. by rewrite Z.eqb_refl.
  - intros st subj id m n st' k Hf H Hk. apply gpublish_inv in H as [-> Hst]; [|done].
    unfold ListStream.get. rewrite Hst. cbn.
    destruct (Z.eqb_spec (ListStream.last (proj1_sig st) + 1) k); [by subst|done].
  - intros st n st' H. by injection H as <-.
  - intros st n st' H. injection H as <-. cbn. unfold ListStream.get. cbn. by rewrite find_filter_same.
  - intros st n st' k H Hk. injection H as <-. cbn. unfold ListStream.get. cbn. by rewrite find_filter_other.
  - intros st n st' id H. by injection H as <-.
Qed.

End Events.
