(* ===== verification/ReadModel.v ===== *)
(** * The read-model tables: truncation, tenant erasure, snapshots

    Models the table-level operations of [src/internal/store]: the table sets
    [ReadModelTables] and the erase order of [DeleteTenantReadModelTx]
    (projection.go), [TenantScopedTables] and [OffboardTenant] (offboard.go),
    and the per-tenant snapshots (snapshot.go).  A database is a map from table
    names to rows; a row is its tenant and its remaining columns.  The
    [TRUNCATE ... CASCADE] of a rebuild follows the foreign keys that the
    migrations declare. *)

From S2P Require Import Prelude.
Open Scope string_scope.
Open Scope list_scope.
Open Scope Z_scope.

Module ReadModel.

Record TRow := mkTRow {
  row_tenant : string;
  row_body : string
}.

#[export] Instance TRow_eq_dec : EqDecision TRow.
Proof. solve_decision. Defined.

Notation Database := (gmap string (list TRow)).

Definition table (db : Database) (t : string) : list TRow := default [] (db !! t).

Definition of_tenant (tenant : string) (r : TRow) : bool := String.eqb (row_tenant r) tenant.

(** ** The table sets of the source *)

Definition ReadModelTables : list string := [
  "owners"; "issuers"; "identities"; "certificates"; "crypto_assets"; "agents";
  "agent_cert_revocations"; "tenants"; "identity_transitions"; "certificate_profiles";
  "acme_dns01_provider_configs"; "mdm_scep_policies"; "workload_attester_trust_sources";
  "tenant_members"; "ca_key_ceremonies"; "ca_ceremony_approvals"; "ca_issued_certs";
  "ca_crls"; "ca_ocsp_responders"; "discovery_sources"; "discovery_schedules";
  "discovery_runs"; "discovery_findings"; "notification_channels"; "notification_reads";
  "notification_threshold_deliveries"; "connector_delivery_receipts";
  "lifecycle_rotation_runs"; "incident_executions"; "incident_fleet_reissuance_runs";
  "remediation_playbook_runs"; "pam_sessions"; "compliance_report_schedules";
  "secret_rotation_schedules"; "privacy_subject_erasures"; "privacy_retention_runs";
  "privacy_archive_erasure_attestations"; "nhi_access_review_campaigns";
  "nhi_access_review_items"; "access_change_requests"; "access_change_request_decisions"].

(** The literal [ordered] of [DeleteTenantReadModelTx]. *)
Definition eraseOrder : list string := [
  "identity_transitions"; "connector_delivery_receipts"; "lifecycle_rotation_runs";
  "remediation_playbook_runs"; "incident_fleet_reissuance_runs"; "pam_sessions";
  "secret_rotation_schedules"; "compliance_report_schedules";
  "access_change_request_decisions"; "access_change_requests"; "nhi_access_review_items";
  "nhi_access_review_campaigns"; "notification_reads"; "notification_threshold_deliveries";
  "notification_channels"; "ca_crls"; "ca_ocsp_responders"; "ca_issued_certs";
  "ca_ceremony_approvals"; "ca_key_ceremonies"; "certificates"; "crypto_assets";
  "agent_cert_revocations"; "identities"; "certificate_profiles";
  "workload_attester_trust_sources"; "mdm_scep_policies"; "acme_dns01_provider_configs";
  "discovery_findings"; "discovery_runs"; "discovery_schedules"; "discovery_sources";
  "privacy_archive_erasure_attestations"; "privacy_retention_runs";
  "privacy_subject_erasures"; "issuers"; "owners"; "tenants"].

Definition snapshotTables : list string := [
  "owners"; "issuers"; "certificate_profiles"; "acme_dns01_provider_configs";
  "mdm_scep_policies"; "identities"; "certificates"; "crypto_assets"; "agents";
  "ca_key_ceremonies"; "ca_ceremony_approvals"; "ca_issued_certs"; "ca_crls";
  "ca_ocsp_responders"; "discovery_sources"; "discovery_schedules"; "discovery_runs";
  "discovery_findings"; "notification_channels"; "notification_reads";
  "notification_threshold_deliveries"; "connector_delivery_receipts";
  "lifecycle_rotation_runs"; "incident_executions"; "incident_fleet_reissuance_runs";
  "remediation_playbook_runs"; "pam_sessions"; "compliance_report_schedules";
  "secret_rotation_schedules"; "privacy_subject_erasures"; "privacy_retention_runs";
  "privacy_archive_erasure_attestations"; "nhi_access_review_campaigns";
  "nhi_access_review_items"; "access_change_requests"; "access_change_request_decisions";
  "identity_transitions"].

Definition TenantScopedTables : list string := [
  "attestations"; "discovery_findings"; "notification_reads";
  "notification_threshold_deliveries"; "discovery_runs"; "discovery_schedules";
  "discovery_sources"; "remediation_playbook_runs"; "incident_fleet_reissuance_runs";
  "incident_executions"; "pam_sessions"; "compliance_report_schedules";
  "secret_rotation_schedules"; "access_change_request_decisions"; "access_change_requests";
  "nhi_access_review_items"; "nhi_access_review_campaigns";
  "privacy_archive_erasure_attestations"; "privacy_retention_runs";
  "privacy_subject_erasures"; "connector_delivery_receipts"; "lifecycle_rotation_runs";
  "certificates"; "identity_transitions"; "identities"; "ca_ceremony_approvals";
  "ca_key_ceremonies"; "issuance_approvals"; "issuance_approval_requests"; "owners";
  "issuers"; "deployment_targets"; "agent_cert_revocations"; "agents";
  "agent_bootstrap_tokens"; "policy_bindings"; "tenant_members"; "api_tokens";
  "ca_authorities"; "ca_issued_certs"; "ca_crls"; "ca_ocsp_responders"; "ssh_keys";
  "ct_watched_domains"; "ct_log_checkpoints"; "crypto_assets"; "credentials";
  "certificate_profiles"; "workload_attester_trust_sources"; "acme_dns01_provider_configs";
  "mdm_scep_policies"; "audit_checkpoints"; "notification_channels";
  "notification_routing_policies"; "secret_shares"; "secret_store_versions"; "secret_store";
  "read_model_snapshots"; "idempotency_keys"; "outbox"; "rate_limits"; "tenants"].

(** The foreign keys between tables, (child, parent), from the migrations. *)
Definition foreignKeys : list (string * string) := [
  ("identities", "owners");
  ("identities", "issuers");
  ("attestations", "identities");
  ("certificates", "owners");
  ("certificates", "certificates");
  ("ca_authorities", "ca_authorities");
  ("ca_ceremony_approvals", "ca_key_ceremonies");
  ("issuance_approvals", "issuance_approval_requests");
  ("discovery_schedules", "discovery_sources");
  ("discovery_runs", "discovery_sources");
  ("discovery_runs", "discovery_schedules");
  ("discovery_findings", "discovery_runs");
  ("discovery_findings", "discovery_sources");
  ("secret_store_versions", "secret_store");
  ("nhi_access_review_items", "nhi_access_review_campaigns");
  ("access_change_request_decisions", "access_change_requests")].

(** ** Statements *)

Definition mem (t : string) (l : list string) : bool := existsb (String.eqb t) l.

(** One round of the cascade: the tables that refer to a truncated one. *)
Definition cascade_step (l : list string) : list string :=
  l ++ List.filter (fun c => negb (mem c l)) (map fst (List.filter (fun p => mem (snd p) l) foreignKeys)).

(** As many rounds as there are foreign keys reach every dependent table. *)
Definition cascade (l : list string) : list string :=
  Nat.iter (length foreignKeys) cascade_step l.

Definition truncate (l : list string) (db : Database) : Database :=
  foldr (fun t d => <[t := []]> d) db (cascade l).

(** [TRUNCATE ReadModelTables CASCADE]. *)
Definition TruncateReadModel (db : Database) : Database := truncate ReadModelTables db.

(** [DELETE FROM t WHERE tenant_id = $1], with the rows affected. *)
Definition delete_from (tenant t : string) (db : Database) : Z * Database :=
  (Z.of_nat (length (List.filter (of_tenant tenant) (table db t))),
   <[t := List.filter (fun r => negb (of_tenant tenant r)) (table db t)]> db).

Inductive rmError :=
| TenantIDRequired
| OffboardIncomplete (t : string) (remaining : Z)
| ApplyFailed (seq : Z).

Fixpoint delete_all (tenant : string) (l : list string) (db : Database) : Database :=
  match l with
  | [] => db
  | t :: l' => delete_all tenant l' (snd (delete_from tenant t db))
  end.

Definition DeleteTenantReadModelTx (tenant : string) (db : Database) : result rmError Database :=
  if String.eqb tenant "" then Err TenantIDRequired else Ok (delete_all tenant eraseOrder db).

(** ** Offboarding *)

Record Attestation := mkAttestation {
  att_TenantID : string;
  att_Deleted : list (string * Z);
  att_Total : Z;
  att_Complete : bool
}.

(** The deletion loop, with the counts it collects. *)
Fixpoint offboard_delete (tenant : string) (l : list string) (deleted : list (string * Z)) (total : Z) (db : Database)
  : list (string * Z) * Z * Database :=
  match l with
  | [] => (deleted, total, db)
  | t :: l' =>
      let '(n, db') := delete_from tenant t db in
      offboard_delete tenant l' (deleted ++ [(t, n)]) (total + n) db'
  end.

(** The verification loop: the first table with a row left. *)
Fixpoint offboard_verify (tenant : string) (l : list string) (db : Database) : option (string * Z) :=
  match l with
  | [] => None
  | t :: l' =>
      let remaining := Z.of_nat (length (List.filter (of_tenant tenant) (table db t))) in
      if remaining =? 0 then offboard_verify tenant l' db else Some (t, remaining)
  end.

(** One transaction: an error returns the database as it was. *)
Definition OffboardTenant (tenant : string) (db : Database) : result rmError Attestation * Database :=
  if String.eqb tenant "" then (Err TenantIDRequired, db) else
  let '(deleted, total, db') := offboard_delete tenant TenantScopedTables [] 0 db in
  match offboard_verify tenant TenantScopedTables db' with
  | Some (t, n) => (Err (OffboardIncomplete t n), db)
  | None => (Ok (mkAttestation tenant deleted total true), db')
  end.

(** ** Snapshots *)

Record Snapshot := mkSnapshot {
  sn_tenant : string;
  sn_covered : Z;
  sn_format : Z;
  sn_payload : list (string * list TRow)
}.

Definition SnapshotFormatVersion : Z := 1.

(** The table [read_model_snapshots], ordered by tenant. *)
Definition Snapshots := list Snapshot.

(** The row-level security of the capture leaves the tenant's own rows. *)
Definition capture (tenant : string) (db : Database) : list (string * list TRow) :=
  map (fun t => (t, List.filter (of_tenant tenant) (table db t))) snapshotTables.

Fixpoint upsert_snapshot (s : Snapshot) (l : Snapshots) : Snapshots :=
  match l with
  | [] => [s]
  | x :: l' =>
      if String.eqb (sn_tenant x) (sn_tenant s) then s :: l'
      else if String.ltb (sn_tenant s) (sn_tenant x) then s :: x :: l'
      else x :: upsert_snapshot s l'
  end.

Definition WriteTenantSnapshot (tenant : string) (covered : Z) (db : Database) (sn : Snapshots)
  : result rmError unit * Snapshots :=
  if String.eqb tenant "" then (Err TenantIDRequired, sn)
  else (Ok tt, upsert_snapshot (mkSnapshot tenant covered SnapshotFormatVersion (capture tenant db)) sn).

Definition known_format (s : Snapshot) : bool := sn_format s =? SnapshotFormatVersion.

(** [min(covered_seq)] over the known-format snapshots; [None] is ErrNoSnapshot. *)
Definition LatestSnapshotOffset (sn : Snapshots) : option Z :=
  match List.filter known_format sn with
  | [] => None
  | s :: l => Some (Z.max 0 (foldr (fun x m => Z.min (sn_covered x) m) (sn_covered s) l))
  end.

(** [INSERT INTO t SELECT jsonb_populate_recordset(payload -> t)]. *)
Definition reload (payload : list (string * list TRow)) (t : string) (db : Database) : Database :=
  match List.find (fun p => String.eqb (fst p) t) payload with
  | Some (_, rows) => <[t := table db t ++ rows]> db
  | None => db
  end.

Definition restore_one (db : Database) (s : Snapshot) : Database :=
  fold_left (fun d t => reload (sn_payload s) t d) snapshotTables db.

Definition RestoreSnapshotsTx (sn : Snapshots) (db : Database) : Z * Database :=
  let snaps := List.filter known_format sn in
  (Z.of_nat (length snaps), fold_left restore_one snaps (TruncateReadModel db)).

(** ** Lemmas *)

Lemma mem_tables_spec t l : mem t l = true <-> t ∈ l.
Proof.
  unfold mem. rewrite existsb_exists. setoid_rewrite <- list_elem_of_In.
  setoid_rewrite String.eqb_eq. naive_solver.
Qed.

Lemma table_insert_eq db t rows : table (<[t := rows]> db) t = rows.
Proof. unfold table. by rewrite lookup_insert_eq. Qed.

Lemma table_insert_ne db t t' rows : t <> t' -> table (<[t := rows]> db) t' = table db t'.
Proof. intros. unfold table. by rewrite lookup_insert_ne. Qed.

Lemma filter_filter_id {A} (f : A -> bool) l : List.filter f (List.filter f l) = List.filter f l.
Proof. induction l as [|x l IH]; simpl; [done|]. destruct (f x) eqn:E; simpl; rewrite ?E; congruence. Qed.

Lemma filter_filter_none {A} (f : A -> bool) l : List.filter f (List.filter (fun x => negb (f x)) l) = [].
Proof. induction l as [|x l IH]; simpl; [done|]. destruct (f x) eqn:E; simpl; rewrite ?E; done. Qed.

(** What the erase leaves in each table. *)
Definition without (tenant : string) (rows : list TRow) : list TRow :=
  List.filter (fun r => negb (of_tenant tenant r)) rows.

Lemma delete_all_table tenant l db t :
  table (delete_all tenant l db) t = if mem t l then without tenant (table db t) else table db t.
Proof.
  revert db. induction l as [|x l IH]; intros db; [done|]. cbn [delete_all]. rewrite IH.
  cbn [mem existsb delete_from snd]. fold (mem t l).
  destruct (String.eqb_spec t x) as [->|Hne]; cbn [orb].
  - rewrite table_insert_eq. destruct (mem x l); [|done]. apply filter_filter_id.
  - by rewrite table_insert_ne.
Qed.

Definition rows_of (tenant t : string) (db : Database) : Z :=
  Z.of_nat (length (List.filter (of_tenant tenant) (table db t))).

Definition total_rows (tenant : string) (l : list string) (db : Database) : Z :=
  foldr (fun t n => rows_of tenant t db + n) 0 l.

Lemma total_rows_ext tenant l db db' :
  (forall t, t ∈ l -> table db' t = table db t) -> total_rows tenant l db' = total_rows tenant l db.
Proof.
  unfold total_rows. induction l as [|x l IH]; intros H; [done|]. cbn [foldr].
  rewrite IH by (intros; apply H; by right). unfold rows_of. by rewrite H by by left.
Qed.

Lemma offboard_delete_spec tenant l deleted total db :
  NoDup l ->
  exists deleted', offboard_delete tenant l deleted total db =
    (deleted', total + total_rows tenant l db, delete_all tenant l db).
Proof.
  revert deleted total db. induction l as [|x l IH]; intros deleted total db Hn; cbn [offboard_delete delete_from delete_all snd].
  - exists deleted. unfold total_rows. cbn. by rewrite Z.add_0_r.
  - apply NoDup_cons in Hn as [Hx Hn]. edestruct IH as [d' ->]; [done|]. exists d'. f_equal. f_equal.
    rewrite (total_rows_ext tenant l db); [unfold total_rows, rows_of; cbn [foldr]; lia|].
    intros t Ht. apply table_insert_ne. by intros ->.
Qed.

Lemma offboard_verify_none tenant l db :
  (forall t, t ∈ l -> List.filter (of_tenant tenant) (table db t) = []) -> offboard_verify tenant l db = None.
Proof.
  induction l as [|x l IH]; intros H; [done|]. cbn. rewrite H by by left. cbn.
  apply IH. intros. apply H. by right.
Qed.

Lemma foldr_clear l db t :
  table (foldr (fun t d => <[t := []]> d) db l) t = if mem t l then [] else table db t.
Proof.
  induction l as [|x l IH]; [done|]. cbn. fold (mem t l).
  destruct (String.eqb_spec t x) as [->|Hne]; cbn; [apply table_insert_eq|].
  by rewrite table_insert_ne.
Qed.

(** The rebuild empties exactly the read-model tables and, through the foreign
    key of [attestations] on [identities], the independent table of
    attestations. *)
Lemma TruncateReadModel_table db t :
  table (TruncateReadModel db) t =
  if mem t ReadModelTables || String.eqb t "attestations" then [] else table db t.
Proof.
  unfold TruncateReadModel, truncate. rewrite foldr_clear.
  replace (mem t (cascade ReadModelTables)) with (mem t (ReadModelTables ++ ["attestations"])).
  - unfold mem. rewrite existsb_app. cbn [existsb]. by rewrite orb_false_r.
  - replace (cascade ReadModelTables) with (ReadModelTables ++ ["attestations"]); [done|].
    vm_compute. reflexivity.
Qed.

Lemma reload_table payload t t' db :
  table (reload payload t' db) t =
  if String.eqb t t' then
    table db t ++ match List.find (fun p => String.eqb (fst p) t) payload with Some (_, rows) => rows | None => [] end
  else table db t.
Proof.
  unfold reload. destruct (String.eqb_spec t t') as [->|Hne].
  - destruct (List.find _ _) as [[? rows]|]; [by rewrite table_insert_eq|by rewrite app_nil_r].
  - destruct (List.find _ _) as [[? rows]|]; [|done]. by rewrite table_insert_ne.
Qed.

Definition payload_of (s : Snapshot) (t : string) : list TRow :=
  match List.find (fun p => String.eqb (fst p) t) (sn_payload s) with Some (_, rows) => rows | None => [] end.

Lemma restore_tables s l db t :
  NoDup l ->
  table (fold_left (fun d t => reload (sn_payload s) t d) l db) t =
  table db t ++ if mem t l then payload_of s t else [].
Proof.
  revert db. induction l as [|x l IH]; intros db Hn; cbn; [by rewrite app_nil_r|].
  apply NoDup_cons in Hn as [Hx Hn]. rewrite IH by done. rewrite reload_table.
  fold (mem t l). destruct (String.eqb_spec t x) as [->|Hne]; cbn; [|done].
  replace (mem x l) with false; [by rewrite app_nil_r|].
  symmetry. apply not_true_iff_false. by rewrite mem_tables_spec.
Qed.

Lemma snapshotTables_NoDup : NoDup snapshotTables.
Proof. apply (bool_decide_unpack _). vm_compute. exact I. Qed.

Lemma TenantScopedTables_NoDup : NoDup TenantScopedTables.
Proof. apply (bool_decide_unpack _). vm_compute. exact I. Qed.

Lemma restore_all_tables snaps db t :
  table (fold_left restore_one snaps db) t =
  table db t ++ if mem t snapshotTables then flat_map (fun s => payload_of s t) snaps else [].
Proof.
  revert db. induction snaps as [|s snaps IH]; intros db; cbn [fold_left flat_map].
  - case_goal; by rewrite app_nil_r.
  - rewrite IH. unfold restore_one. rewrite restore_tables by apply snapshotTables_NoDup.
    case_goal; by rewrite <- ?app_assoc, ?app_nil_r.
Qed.

Lemma capture_payload tenant covered db t :
  t ∈ snapshotTables ->
  payload_of (mkSnapshot tenant covered SnapshotFormatVersion (capture tenant db)) t =
  List.filter (of_tenant tenant) (table db t).
Proof.
  intros Ht. unfold payload_of, capture. cbn [sn_payload]. revert Ht.
  induction snapshotTables as [|x l IH]; intros Ht; [by apply elem_of_nil in Ht|]. cbn.
  destruct (String.eqb_spec x t) as [->|Hne]; [done|].
  apply IH. apply elem_of_cons in Ht as [->|]; done.
Qed.

Lemma filter_other_tenant tenant tenant' rows :
  tenant <> tenant' -> List.filter (of_tenant tenant) (List.filter (of_tenant tenant') rows) = [].
Proof.
  intros Hne. induction rows as [|r l IH]; simpl; [done|].
  unfold of_tenant at 2. destruct (String.eqb_spec (row_tenant r) tenant') as [He|]; [|done].
  simpl. unfold of_tenant at 1. destruct (String.eqb_spec (row_tenant r) tenant); [congruence|done].
Qed.

(** The snapshots [Projector.Snapshot] writes for the listed tenants. *)
Definition snapshots_of (tenants : list string) (covered : Z) (db : Database) : Snapshots :=
  map (fun tn => mkSnapshot tn covered SnapshotFormatVersion (capture tn db)) tenants.

Lemma snapshots_of_rows tenants covered db tenant t :
  NoDup tenants -> tenant ∈ tenants -> t ∈ snapshotTables ->
  List.filter (of_tenant tenant) (flat_map (fun s => payload_of s t) (snapshots_of tenants covered db)) =
  List.filter (of_tenant tenant) (table db t).
Proof.
  intros Hn Hin Ht. induction tenants as [|x l IH]; [by apply elem_of_nil in Hin|].
  apply NoDup_cons in Hn as [Hx Hn]. cbn [snapshots_of map flat_map].
  rewrite List.filter_app, capture_payload by done. fold (snapshots_of l covered db).
  destruct (decide (tenant = x)) as [->|Hne].
  - rewrite filter_filter_id. rewrite <- (app_nil_r (List.filter _ (table db t))) at 2. f_equal.
    clear IH Hin Hn. induction l as [|y l IH]; [done|]. cbn [snapshots_of map flat_map].
    rewrite List.filter_app, capture_payload, filter_other_tenant by set_solver.
    apply IH. set_solver.
  - rewrite filter_other_tenant by done. apply IH; [done|set_solver].
Qed.

Lemma known_format_all tenants covered db :
  List.filter known_format (snapshots_of tenants covered db) = snapshots_of tenants covered db.
Proof. induction tenants as [|x l IH]; [done|]. cbn. f_equal. exact IH. Qed.

(** ** The theorems *)

(** offboarding erases a tenant and only that tenant.  For every database and
    tenant id the transaction succeeds, its attestation counts exactly the rows
    the tenant had, every tenant-scoped table keeps the other tenants' rows and
    none of the tenant's, and no other table changes; an empty tenant id is
    refused and changes nothing. *)
Theorem OffboardTenant_erases (tenant : string) (db : Database) :
  (tenant = "" -> OffboardTenant tenant db = (Err TenantIDRequired, db)) /\
  (tenant <> "" -> exists att db',
     OffboardTenant tenant db = (Ok att, db') /\ att_Complete att = true /\
     att_Total att = total_rows tenant TenantScopedTables db /\
     forall t, table db' t = if mem t TenantScopedTables then without tenant (table db t) else table db t).
Proof.
  unfold OffboardTenant. split; [by intros ->|]. intros Hne.
  destruct (String.eqb_spec tenant ""); [done|].
  destruct (offboard_delete_spec tenant TenantScopedTables [] 0 db TenantScopedTables_NoDup) as [d ->].
  rewrite offboard_verify_none.
  - eexists _, _. split_and!; [done..|]. intros t. apply delete_all_table.
  - intros t Ht. rewrite delete_all_table, (proj2 (mem_tables_spec _ _) Ht). apply filter_filter_none.
Qed.

(** the erase a rebuild replays is not the erase offboarding ran.  On the
    read-model tables [DeleteTenantReadModelTx] removes the tenant's rows
    everywhere except in [agents], [tenant_members] and [incident_executions],
    whose rows of the offboarded tenant a rebuild therefore brings back. *)
Theorem rebuild_erase_residue (tenant : string) (db : Database) :
  tenant <> "" -> exists db',
    DeleteTenantReadModelTx tenant db = Ok db' /\
    forall t, t ∈ ReadModelTables ->
      table db' t = if mem t ["agents"; "tenant_members"; "incident_executions"]
                    then table db t else without tenant (table db t).
Proof.
  intros Hne. unfold DeleteTenantReadModelTx. destruct (String.eqb_spec tenant ""); [done|].
  eexists. split; [done|]. intros t Ht. rewrite delete_all_table.
  assert (Hm : mem t eraseOrder = negb (mem t ["agents"; "tenant_members"; "incident_executions"])).
  { revert t Ht. apply Forall_forall, (bool_decide_unpack _). vm_compute. exact I. }
  rewrite Hm. destruct (mem t ["agents"; "tenant_members"; "incident_executions"]); reflexivity.
Qed.

(** restoring from snapshots.  After the snapshots of a set of tenants are
    taken and restored over any database, each of these tenants has exactly the
    rows it had in every snapshot table, and none in the read-model tables the
    snapshot leaves out: [tenants], [tenant_members], [agent_cert_revocations]
    and [workload_attester_trust_sources]. *)
Theorem snapshot_restore (tenants : list string) (covered : Z) (db db0 : Database) (tenant t : string) :
  NoDup tenants -> tenant ∈ tenants -> t ∈ ReadModelTables ->
  List.filter (of_tenant tenant) (table (snd (RestoreSnapshotsTx (snapshots_of tenants covered db) db0)) t) =
  if mem t ["tenants"; "tenant_members"; "agent_cert_revocations"; "workload_attester_trust_sources"]
  then [] else List.filter (of_tenant tenant) (table db t).
Proof.
  intros Hn Hin Ht. unfold RestoreSnapshotsTx. cbn [snd]. rewrite known_format_all, restore_all_tables.
  rewrite TruncateReadModel_table, (proj2 (mem_tables_spec _ _) Ht). cbn [orb app].
  assert (Hm : mem t snapshotTables =
    negb (mem t ["tenants"; "tenant_members"; "agent_cert_revocations"; "workload_attester_trust_sources"])).
  { revert t Ht. apply Forall_forall, (bool_decide_unpack _). vm_compute. exact I. }
  rewrite <- (negb_involutive (mem t ["tenants"; _; _; _])), <- Hm.
  destruct (mem t snapshotTables) eqn:E; cbn; [|done].
  apply snapshots_of_rows; [done..|by apply mem_tables_spec].
Qed.

(** what a rebuild truncates: the read-model tables, and by the cascade over
    the foreign key on [identities] also every row of the independent table
    [attestations], which the log cannot re-derive; nothing else. *)
Theorem TruncateReadModel_cascade (db : Database) (t : string) :
  table (TruncateReadModel db) t =
  if mem t ReadModelTables || String.eqb t "attestations" then [] else table db t.
Proof. apply TruncateReadModel_table. Qed.

Lemma rebuild_erase_residue_witness :
  exists db', DeleteTenantReadModelTx "t1" {[ "agents" := [mkTRow "t1" "agent-7"] ]} = Ok db' /\
    table db' "agents" = [mkTRow "t1" "agent-7"].
Proof.
  destruct (rebuild_erase_residue "t1" {[ "agents" := [mkTRow "t1" "agent-7"] ]}) as (db' & H & Ht); [discriminate|].
  exists db'. split; [exact H|]. rewrite (Ht "agents"); [vm_compute; reflexivity|].
  apply mem_tables_spec. vm_compute. reflexivity.
Defined.

Lemma snapshot_restore_witness :
  let db : Database := {[ "agent_cert_revocations" := [mkTRow "t1" "serial-9"] ]} in
  List.filter (of_tenant "t1")
    (table (snd (RestoreSnapshotsTx (snapshots_of ["t1"] 5 db) db)) "agent_cert_revocations") = [].
Proof.
  intros db. rewrite (snapshot_restore ["t1"] 5 db db "t1" "agent_cert_revocations").
  - vm_compute. reflexivity.
  - apply NoDup_singleton.
  - apply list_elem_of_singleton. reflexivity.
  - apply mem_tables_spec. vm_compute. reflexivity.
Defined.

End ReadModel.
