(* ===== verification/Projections.v ===== *)
(** * Projections: the read model as a function of the event log

    Models the projector of [src/internal/projections/projections.go] on the
    slice of the read model that the lifecycle uses: tenants, identities (kind,
    owner, issuer, status, creation time) and identity transitions, with the
    store functions it calls ([src/internal/store/identity.go], [projection.go],
    [projection_checkpoint.go], [tenant.go]).  The event types outside the slice
    reach [ApplyTx] too: what they do to the other tables, and whether those tables, in
    the state they are in, accept an event, are the operations of the class
    [OtherTables], and so are the keys that a new identity has to satisfy there. *)

From S2P Require Import Prelude Json Tenancy Events.
Open Scope string_scope.
Open Scope list_scope.
Open Scope Z_scope.

Module Projections.
Import Tenancy Events.

(** ** Schema versions *)

Definition LifecycleEventSchemaVersion : Z := 2.

(** Versions the projector decodes, per event type ([init] included). *)
Definition knownSchemaVersions : gmap string (list Z) := list_to_map [
  ("tenant.registered", [1]);
  ("tenant.offboarded", [1]);
  ("owner.created", [1]);
  ("owner.updated", [1]);
  ("owner.deleted", [1]);
  ("issuer.created", [1]);
  ("identity.created", [1]);
  ("identity.issued", [1; 2]);
  ("identity.deployed", [1; 2]);
  ("identity.revoked", [1; 2]);
  ("identity.renewing", [1; 2]);
  ("identity.renewed", [1; 2]);
  ("identity.retired", [1; 2]);
  ("certificate.recorded", [1]);
  ("certificate.revoked", [1]);
  ("certificate.superseded", [1]);
  ("ca.certificate.issued", [1]);
  ("ca.certificate.revoked", [1]);
  ("ca.ceremony.started", [1]);
  ("ca.ceremony.approved", [1]);
  ("ca.endentity.issued", [1]);
  ("ca.authority.rotated", [1]);
  ("ca.authority.rekeyed", [1]);
  ("ca.crl.published", [1; 2; 3]);
  ("ca.ocsp_responder.rotated", [1]);
  ("agent.heartbeat", [1]);
  ("agent.cert.renewed", [1]);
  ("agent.cert.revoked", [1]);
  ("agent.offboarded", [1]);
  ("profile.created", [1; 2]);
  ("profile.updated", [1; 2]);
  ("discovery.source.upserted", [1]);
  ("discovery.schedule.upserted", [1]);
  ("discovery.run.queued", [1]);
  ("discovery.run.started", [1]);
  ("discovery.finding.recorded", [1]);
  ("discovery.finding.triage_changed", [1]);
  ("discovery.run.completed", [1]);
  ("acme.dns01.provider_config.upserted", [1]);
  ("acme.dns01.provider_config.deleted", [1]);
  ("acme.dns01.preflighted", [1]);
  ("acme.dns01.record.presented", [1]);
  ("acme.dns01.record.cleaned", [1]);
  ("mdm.scep_policy.upserted", [1]);
  ("mdm.scep_policy.deleted", [1]);
  ("mdm.scep_challenge.rotated", [1]);
  ("workload.attester_trust_source.upserted", [1]);
  ("workload.attester_trust_source.rotated", [1]);
  ("workload.attester_trust_source.revoked", [1]);
  ("workload.attester_trust_source.deleted", [1]);
  ("compliance.report_schedule.upserted", [1]);
  ("secret.rotation_schedule.upserted", [1]);
  ("secret.rotation_schedule.ran", [1]);
  ("notification.read", [1]);
  ("notification.channel.upserted", [1]);
  ("notification.channel.deleted", [1]);
  ("notification.routing_policy.upserted", [1]);
  ("notification.routing_policy.deleted", [1]);
  ("notification.threshold.delivered", [1]);
  ("cbom.asset.observed", [1]);
  ("deployment_target.upserted", [1]);
  ("deployment_target.deleted", [1]);
  ("identity.connector_target_bound", [1]);
  ("connector.delivery.recorded", [1]);
  ("lifecycle.rotation.recorded", [1]);
  ("incident.execution.recorded", [1]);
  ("incident.fleet_reissuance.recorded", [1]);
  ("remediation.playbook_run.recorded", [1]);
  ("response.integration.dispatched", [1]);
  ("privacy.subject.erased", [1]);
  ("privacy.retention.enforced", [1]);
  ("privacy.archive_erasure.attested", [1]);
  ("tenant.member.upserted", [1]);
  ("tenant.member.offboarded", [1]);
  ("api_token.created", [1]);
  ("api_token.revoked", [1]);
  ("pam.session.started", [1]);
  ("pam.session.expired", [1]);
  ("nhi.access_review.campaign.started", [1]);
  ("nhi.access_review.item.decided", [1]);
  ("access.change_request.created", [1]);
  ("access.change_request.decided", [1]);
  ("pqc.migration.started", [1]);
  ("pqc.migration.asset_completed", [1]);
  ("pqc.migration.rollback_completed", [1])].

Definition lifecycleEventTypes : list string := [
  "identity.issued"; "identity.deployed"; "identity.revoked";
  "identity.renewing"; "identity.renewed"; "identity.retired"].

Inductive projError :=
| UnknownSchemaVersion (type : string) (v seq : Z)
| DecodeError (type : string)
| ReferenceViolation
| OtherRejected (type : string)
| TenantIDRequired.

Definition schemaVersionOf (e : Event) : Z :=
  if ev_SchemaVersion e =? 0 then DefaultSchemaVersion else ev_SchemaVersion e.

Definition ValidateSchemaVersion (e : Event) : option projError :=
  match knownSchemaVersions !! ev_Type e with
  | Some versions =>
      if existsb (Z.eqb (schemaVersionOf e)) versions then None
      else Some (UnknownSchemaVersion (ev_Type e) (schemaVersionOf e) (ev_Sequence e))
  | None => None
  end.

Definition isLifecycleEvent (eventType : string) : bool := existsb (String.eqb eventType) lifecycleEventTypes.

(** ** Payloads *)

Definition identityCreated_fields : list field := [
  mkField "id" KStr false; mkField "kind" KStr false; mkField "name" KStr false;
  mkField "owner_id" KStr false; mkField "issuer_id" KPtrStr false; mkField "attributes" KRaw false].

Definition identityTransition_fields : list field := [
  mkField "identity_id" KStr false; mkField "from" KStr false; mkField "to" KStr false;
  mkField "reason" KStr true].

Definition tenantRegistered_fields : list field := [mkField "name" KStr false].
Definition tenantOffboarded_fields : list field := [mkField "rows_deleted" KInt false].

(** ** The slice of the read model *)

Record IdentityRow := mkIdentity {
  id_kind : string;
  id_owner : string;
  id_issuer : option string;
  id_status : string;
  id_created : Z
}.

Record IdentityTransition := mkIT {
  it_IdentityID : string;
  it_Seq : Z;
  it_FromState : string;
  it_ToState : string;
  it_EventType : string;
  it_Reason : string;
  it_OccurredAt : Z
}.

(** The other tables, and the columns of identities that the slice leaves out.  What an
    event does to them, and whether they reject it, depends on what they hold:
    [rest_truncate] empties those that a rebuild derives,
    [rest_apply] projects an event of another type, [rest_constraints] says whether the
    keys of a new identity are in order, and the two erasures are those of a live
    offboarding and of a rebuild, which cover different tables. *)
Class OtherTables := {
  Rest : Type;
  rest_truncate : Rest -> Rest;
  rest_apply : Event -> gmap (string * string) IdentityRow -> Rest -> result projError Rest;
  rest_constraints : Event -> gmap (string * string) IdentityRow -> Rest -> bool;
  rest_offboard : string -> Rest -> result projError Rest;
  rest_rebuild_offboard : string -> Rest -> result projError Rest
}.

Section Projector.
Context {OT : OtherTables}.

Record RM := mkRM {
  rm_tenants : gmap string (string * Z);
  rm_identities : gmap (string * string) IdentityRow;
  rm_transitions : gmap (string * string * Z) IdentityTransition;
  rm_rest : Rest
}.

(** What the truncation at the start of a rebuild leaves. *)
Definition truncated (rm : RM) : RM := mkRM ∅ ∅ ∅ (rest_truncate (rm_rest rm)).

Definition initialIdentityStatus : string := "requested".

(** [ON CONFLICT (tenant_id, id) DO UPDATE] keeps status and creation time. *)
Definition ApplyIdentityCreatedTx (tenant id : string) (row : IdentityRow) (rm : RM) : RM :=
  let row' :=
    match rm_identities rm !! (tenant, id) with
    | Some old => mkIdentity (id_kind row) (id_owner row) (id_issuer row) (id_status old) (id_created old)
    | None => row
    end in
  mkRM (rm_tenants rm) (<[(tenant, id) := row']> (rm_identities rm)) (rm_transitions rm) (rm_rest rm).

Definition set_status (status : string) (row : IdentityRow) : IdentityRow :=
  mkIdentity (id_kind row) (id_owner row) (id_issuer row) status (id_created row).

Definition SetIdentityStatusTx (tenant id status : string) (rm : RM) : RM :=
  mkRM (rm_tenants rm) (alter (set_status status) (tenant, id) (rm_identities rm)) (rm_transitions rm) (rm_rest rm).

Definition AppendIdentityTransitionTx (tenant : string) (t : IdentityTransition) (rm : RM) : RM :=
  mkRM (rm_tenants rm) (rm_identities rm)
    (<[(tenant, it_IdentityID t, it_Seq t) := t]> (rm_transitions rm)) (rm_rest rm).

Definition GetIdentity (tenant id : string) (rm : RM) : option IdentityRow := rm_identities rm !! (tenant, id).

Fixpoint insert_by_seq (x : IdentityTransition) (l : list IdentityTransition) : list IdentityTransition :=
  match l with
  | [] => [x]
  | y :: l' => if it_Seq y <? it_Seq x then y :: insert_by_seq x l' else x :: y :: l'
  end.

(** The identity's rows, [ORDER BY seq]. *)
Definition ListIdentityTransitions (tenant id : string) (rm : RM) : list IdentityTransition :=
  foldr insert_by_seq []
    (snd <$> List.filter (fun p => String.eqb (fst (fst (fst p))) tenant && String.eqb (snd (fst (fst p))) id)
       (map_to_list (rm_transitions rm))).

Definition UpsertTenantTx (tenant name : string) (seq : Z) (rm : RM) : RM :=
  mkRM (<[tenant := (name, seq)]> (rm_tenants rm)) (rm_identities rm) (rm_transitions rm) (rm_rest rm).

(** The tenant's rows of the slice are deleted; [rest] is what is left of the other tables. *)
Definition erase_tenant (tenant : string) (rest : Rest) (rm : RM) : RM :=
  mkRM (delete tenant (rm_tenants rm))
    (filter (fun p => fst (fst p) <> tenant) (rm_identities rm))
    (filter (fun p => fst (fst (fst p)) <> tenant) (rm_transitions rm)) rest.

(** ** Applying an event *)

Definition apply_lifecycle (e : Event) (rm : RM) : result projError RM :=
  match decode_struct identityTransition_fields (ev_Data e) with
  | None => Err (DecodeError (ev_Type e))
  | Some pl =>
      let id := str_at pl 0 in
      Ok (AppendIdentityTransitionTx (ev_TenantID e)
            (mkIT id (ev_Sequence e) (str_at pl 1) (str_at pl 2) (ev_Type e) (str_at pl 3) (ev_Time e))
            (SetIdentityStatusTx (ev_TenantID e) id (str_at pl 2) rm))
  end.

Definition apply_identity_created (e : Event) (rm : RM) : result projError RM :=
  match decode_struct identityCreated_fields (ev_Data e) with
  | None => Err (DecodeError (ev_Type e))
  | Some pl =>
      if rest_constraints e (rm_identities rm) (rm_rest rm) then
        let issuer := match pl !! 4%nat with Some (VPtrStr s) => s | _ => None end in
        Ok (ApplyIdentityCreatedTx (ev_TenantID e) (str_at pl 0)
              (mkIdentity (str_at pl 1) (str_at pl 3) issuer initialIdentityStatus (ev_Time e)) rm)
      else Err ReferenceViolation
  end.

Definition ApplyTx (e : Event) (rm : RM) : result projError RM :=
  match ValidateSchemaVersion e with
  | Some err => Err err
  | None =>
      if String.eqb (ev_Type e) "identity.created" then apply_identity_created e rm
      else if isLifecycleEvent (ev_Type e) then apply_lifecycle e rm
      else match rest_apply e (rm_identities rm) (rm_rest rm) with
           | Err err => Err err
           | Ok rest => Ok (mkRM (rm_tenants rm) (rm_identities rm) (rm_transitions rm) rest)
           end
  end.

Definition apply_registered (e : Event) (rm : RM) : result projError RM :=
  match ValidateSchemaVersion e with
  | Some err => Err err
  | None =>
      match decode_struct tenantRegistered_fields (ev_Data e) with
      | None => Err (DecodeError (ev_Type e))
      | Some pl => Ok (UpsertTenantTx (ev_TenantID e) (str_at pl 0) (ev_Sequence e) rm)
      end
  end.

(** [erase] is the erasure of the other tables. *)
Definition apply_offboarded (erase : string -> Rest -> result projError Rest) (e : Event) (rm : RM) : result projError RM :=
  match ValidateSchemaVersion e with
  | Some err => Err err
  | None =>
      match decode_struct tenantOffboarded_fields (ev_Data e) with
      | None => Err (DecodeError (ev_Type e))
      | Some _ =>
          if String.eqb (ev_TenantID e) "" then Err TenantIDRequired
          else match erase (ev_TenantID e) (rm_rest rm) with
               | Err err => Err err
               | Ok rest => Ok (erase_tenant (ev_TenantID e) rest rm)
               end
      end
  end.

Definition Apply (e : Event) (rm : RM) : result projError RM :=
  if String.eqb (ev_Type e) "tenant.registered" then apply_registered e rm
  else if String.eqb (ev_Type e) "tenant.offboarded" then apply_offboarded rest_offboard e rm
  else ApplyTx e rm.

Definition applyForRebuild (e : Event) (rm : RM) : result projError RM :=
  if String.eqb (ev_Type e) "tenant.registered" then apply_registered e rm
  else if String.eqb (ev_Type e) "tenant.offboarded" then apply_offboarded rest_rebuild_offboard e rm
  else ApplyTx e rm.

(** A callback of [Replay] that applies an event in its own transaction. *)
Definition apply_step (e : Event) (rm : RM) : result projError unit * RM :=
  match Apply e rm with
  | Ok rm' => (Ok tt, rm')
  | Err err => (Err err, rm)
  end.

Context {ES : EventStream}.

Definition Project (st : Stream) (rm : RM) : result projError unit * RM := Replay apply_step 0 st rm.

(** ** Checkpointed catch-up *)

Record PState := mkP { p_rm : RM; p_checkpoint : Z }.

Definition ProjectionCheckpoint (p : PState) : Z := Z.max 0 (p_checkpoint p).
Definition AdvanceProjectionCheckpoint (seq : Z) (p : PState) : PState := mkP (p_rm p) (Z.max (p_checkpoint p) seq).

Definition checkpointEvery : Z := 256.

(** The closure of [ProjectCatchUp]: the state, [last] and [sinceCheckpoint]. *)
Definition catchup_step (e : Event) (s : PState * Z * Z) : result projError unit * (PState * Z * Z) :=
  let '(p, last, since) := s in
  match Apply e (p_rm p) with
  | Err err => (Err err, s)
  | Ok rm' =>
      let p := mkP rm' (p_checkpoint p) in
      let last := ev_Sequence e in
      let since := since + 1 in
      if checkpointEvery <=? since then (Ok tt, (AdvanceProjectionCheckpoint last p, last, 0))
      else (Ok tt, (p, last, since))
  end.

Definition ProjectCatchUp (st : Stream) (p : PState) : result projError unit * PState :=
  match Replay catchup_step (ProjectionCheckpoint p + 1) st (p, 0, 0) with
  | (Err err, (p', _, _)) => (Err err, p')
  | (Ok _, (p', last, _)) =>
      if 0 <? last then (Ok tt, AdvanceProjectionCheckpoint last p') else (Ok tt, p')
  end.

(** One transaction: truncate, replay, set the checkpoint; an error rolls it all
    back. *)
Definition Rebuild (st : Stream) (p : PState) : result projError unit * PState :=
  let fn := fun (e : Event) (s : RM * Z) =>
    match applyForRebuild e (fst s) with
    | Err err => (Err err, s)
    | Ok rm' => (Ok tt, (rm', ev_Sequence e))
    end in
  match Replay fn 0 st (truncated (p_rm p), 0) with
  | (Err err, _) => (Err err, p)
  | (Ok _, (rm', last)) => (Ok tt, mkP rm' (if 0 <? last then last else 0))
  end.

End Projector.

(** ** The effect of an event

    What an event that is accepted does to the slice depends on the event alone, and is
    one of five effects. *)
Inductive eff :=
| EffNone
| EffRegister (tenant name : string) (seq : Z)
| EffErase (tenant : string)
| EffCreate (tenant id : string) (row : IdentityRow)
| EffTransition (tenant : string) (t : IdentityTransition).

Definition effect (e : Event) : result projError eff :=
  match ValidateSchemaVersion e with
  | Some err => Err err
  | None =>
      if String.eqb (ev_Type e) "tenant.registered" then
        match decode_struct tenantRegistered_fields (ev_Data e) with
        | None => Err (DecodeError (ev_Type e))
        | Some pl => Ok (EffRegister (ev_TenantID e) (str_at pl 0) (ev_Sequence e))
        end
      else if String.eqb (ev_Type e) "tenant.offboarded" then
        match decode_struct tenantOffboarded_fields (ev_Data e) with
        | None => Err (DecodeError (ev_Type e))
        | Some _ => if String.eqb (ev_TenantID e) "" then Err TenantIDRequired else Ok (EffErase (ev_TenantID e))
        end
      else if String.eqb (ev_Type e) "identity.created" then
        match decode_struct identityCreated_fields (ev_Data e) with
        | None => Err (DecodeError (ev_Type e))
        | Some pl =>
            Ok (EffCreate (ev_TenantID e) (str_at pl 0)
                  (mkIdentity (str_at pl 1) (str_at pl 3)
                     (match pl !! 4%nat with Some (VPtrStr s) => s | _ => None end)
                     initialIdentityStatus (ev_Time e)))
        end
      else if isLifecycleEvent (ev_Type e) then
        match decode_struct identityTransition_fields (ev_Data e) with
        | None => Err (DecodeError (ev_Type e))
        | Some pl =>
            Ok (EffTransition (ev_TenantID e)
                  (mkIT (str_at pl 0) (ev_Sequence e) (str_at pl 1) (str_at pl 2) (ev_Type e) (str_at pl 3) (ev_Time e)))
        end
      else Ok EffNone
  end.

Fixpoint effects (l : list Event) : result projError (list eff) :=
  match l with
  | [] => Ok []
  | e :: l' =>
      match effect e with
      | Ok f => match effects l' with Ok fs => Ok (f :: fs) | Err err => Err err end
      | Err err => Err err
      end
  end.

Lemma effects_app l k :
  effects (l ++ k) =
  match effects l with
  | Ok a => match effects k with Ok b => Ok (a ++ b) | Err err => Err err end
  | Err err => Err err
  end.
Proof.
  induction l as [|e l IH]; cbn [app effects]; [by destruct (effects k)|].
  destruct (effect e); [|done]. rewrite IH. destruct (effects l); [|done]. by destruct (effects k).
Qed.

Lemma effects_elem l fs f : effects l = Ok fs -> f ∈ fs -> exists e, e ∈ l /\ effect e = Ok f.
Proof.
  revert fs. induction l as [|e l IH]; intros fs H Hf; cbn in H; [injection H as <-; by apply elem_of_nil in Hf|].
  destruct (effect e) as [x|] eqn:E; [|done]. destruct (effects l) as [xs|]; [|done]. injection H as <-.
  apply elem_of_cons in Hf as [->|Hf]; [exists e; split; [by left|done]|].
  destruct (IH _ eq_refl Hf) as (e' & He' & ?). exists e'. split; [by right|done].
Qed.

Lemma effect_create e t id row : effect e = Ok (EffCreate t id row) ->
  ev_TenantID e = t /\ ev_Type e = "identity.created" /\ id_status row = initialIdentityStatus.
Proof.
  unfold effect. intros H. destruct (ValidateSchemaVersion e); [done|].
  destruct (String.eqb_spec (ev_Type e) "tenant.registered"); [by destruct (decode_struct _ _)|].
  destruct (String.eqb_spec (ev_Type e) "tenant.offboarded"); [by destruct (decode_struct _ _); [destruct (String.eqb _ _)|]|].
  destruct (String.eqb_spec (ev_Type e) "identity.created") as [Ht|].
  - destruct (decode_struct _ _); [|done]. by injection H as <- _ <-.
  - destruct (isLifecycleEvent (ev_Type e)); [by destruct (decode_struct _ _)|done].
Qed.

(** ** Read models that agree on the slice *)

Section Effects.
Context {OT : OtherTables}.

Definition same_slice (a b : RM) : Prop :=
  rm_tenants a = rm_tenants b /\ rm_identities a = rm_identities b /\ rm_transitions a = rm_transitions b.

#[global] Instance same_slice_equiv : Equivalence same_slice.
Proof.
  split.
  - by intros a.
  - by intros a b (? & ? & ?).
  - intros a b c (? & ? & ?) (? & ? & ?). split_and!; congruence.
Qed.

Definition do_eff (rm : RM) (f : eff) : RM :=
  match f with
  | EffNone => rm
  | EffRegister tenant name seq => UpsertTenantTx tenant name seq rm
  | EffErase tenant => erase_tenant tenant (rm_rest rm) rm
  | EffCreate tenant id row => ApplyIdentityCreatedTx tenant id row rm
  | EffTransition tenant t =>
      AppendIdentityTransitionTx tenant t (SetIdentityStatusTx tenant (it_IdentityID t) (it_ToState t) rm)
  end.

#[global] Instance do_eff_proper : Proper (same_slice ==> eq ==> same_slice) do_eff.
Proof.
  intros a b (Ht & Hi & Hr) f _ <-. destruct f; cbn; unfold same_slice, ApplyIdentityCreatedTx; cbn; rewrite ?Ht, ?Hi, ?Hr; done.
Qed.

#[global] Instance do_effs_proper : Proper (eq ==> same_slice ==> same_slice) (fold_left do_eff).
Proof. intros fs _ <-. induction fs as [|f fs IH]; intros a b Hab; [done|]. cbn. apply IH. by rewrite Hab. Qed.

(** An accepted event has its effect on the slice, live and in a rebuild. *)
Definition faithful (app : Event -> RM -> result projError RM) : Prop :=
  forall e rm rm', app e rm = Ok rm' -> exists f, effect e = Ok f /\ same_slice rm' (do_eff rm f).

Lemma ApplyTx_effect e rm rm' : String.eqb (ev_Type e) "tenant.registered" = false -> String.eqb (ev_Type e) "tenant.offboarded" = false ->
  ApplyTx e rm = Ok rm' -> exists f, effect e = Ok f /\ same_slice rm' (do_eff rm f).
Proof.
  unfold ApplyTx, effect. intros -> ->. destruct (ValidateSchemaVersion e); [done|].
  destruct (String.eqb (ev_Type e) "identity.created").
  { unfold apply_identity_created. destruct (decode_struct _ _); [|done]. destruct (rest_constraints _ _ _); [|done]. intros [= <-]. eexists. by split. }
  destruct (isLifecycleEvent (ev_Type e)).
  { unfold apply_lifecycle. destruct (decode_struct _ _); [|done]. intros [= <-]. eexists. by split. }
  destruct (rest_apply _ _ _); [|done]. intros [= <-]. exists EffNone. by split.
Qed.

Lemma apply_registered_effect e rm rm' : String.eqb (ev_Type e) "tenant.registered" = true ->
  apply_registered e rm = Ok rm' -> exists f, effect e = Ok f /\ same_slice rm' (do_eff rm f).
Proof.
  unfold apply_registered, effect. intros ->. destruct (ValidateSchemaVersion e); [done|].
  destruct (decode_struct _ _); [|done]. intros [= <-]. eexists. by split.
Qed.

Lemma apply_offboarded_effect erase e rm rm' : String.eqb (ev_Type e) "tenant.registered" = false -> String.eqb (ev_Type e) "tenant.offboarded" = true ->
  apply_offboarded erase e rm = Ok rm' -> exists f, effect e = Ok f /\ same_slice rm' (do_eff rm f).
Proof.
  unfold apply_offboarded, effect. intros -> ->. destruct (ValidateSchemaVersion e); [done|].
  destruct (decode_struct _ _); [|done]. destruct (String.eqb _ _); [done|].
  destruct (erase _ _) as [rest|]; [|done]. intros [= <-]. eexists. by split.
Qed.

Lemma Apply_faithful : faithful Apply.
Proof.
  intros e rm rm'. unfold Apply. destruct (String.eqb (ev_Type e) "tenant.registered") eqn:E; [by apply apply_registered_effect|].
  destruct (String.eqb (ev_Type e) "tenant.offboarded") eqn:E'; [by apply apply_offboarded_effect|by apply ApplyTx_effect].
Qed.

Lemma applyForRebuild_faithful : faithful applyForRebuild.
Proof.
  intros e rm rm'. unfold applyForRebuild. destruct (String.eqb (ev_Type e) "tenant.registered") eqn:E; [by apply apply_registered_effect|].
  destruct (String.eqb (ev_Type e) "tenant.offboarded") eqn:E'; [by apply apply_offboarded_effect|by apply ApplyTx_effect].
Qed.

(** Running a list of events, stopping at the first that is rejected. *)
Fixpoint run (app : Event -> RM -> result projError RM) (l : list Event) (rm : RM) : result projError RM :=
  match l with
  | [] => Ok rm
  | e :: l' => match app e rm with Ok rm' => run app l' rm' | Err err => Err err end
  end.

Lemma run_effects app l rm rm' : faithful app -> run app l rm = Ok rm' ->
  exists fs, effects l = Ok fs /\ same_slice rm' (fold_left do_eff fs rm).
Proof.
  intros Happ. revert rm. induction l as [|e l IH]; intros rm; cbn [run effects]; [intros [= <-]; by exists []|].
  destruct (app e rm) as [rm1|] eqn:E; [|done]. intros Hr. destruct (Happ _ _ _ E) as (f & -> & Hf).
  destruct (IH _ Hr) as (fs & -> & Hs). exists (f :: fs). split; [done|]. cbn. by rewrite Hs, Hf.
Qed.

(** A run stops at an event that is rejected where it stands. *)
Lemma run_rejected app l rm err : run app l rm = Err err ->
  exists l1 e l2 rm1, l = l1 ++ e :: l2 /\ run app l1 rm = Ok rm1 /\ app e rm1 = Err err.
Proof.
  revert rm. induction l as [|e l IH]; intros rm; cbn [run]; [done|].
  destruct (app e rm) as [rm1|err'] eqn:E.
  - intros Hr. destruct (IH _ Hr) as (l1 & e1 & l2 & rm2 & -> & H1 & H2). exists (e :: l1), e1, l2, rm2. cbn. by rewrite E.
  - intros [= <-]. by exists [], e, l, rm.
Qed.

End Effects.

(** ** One row at a time *)

(** What a list of effects assigns to one existing identity row. *)
Record asg := mkAsg { a_cols : option (string * string * option string); a_status : option string }.

Definition asg_apply (a : asg) (r : IdentityRow) : IdentityRow :=
  mkIdentity
    (match a_cols a with Some (k, _, _) => k | None => id_kind r end)
    (match a_cols a with Some (_, o, _) => o | None => id_owner r end)
    (match a_cols a with Some (_, _, i) => i | None => id_issuer r end)
    (default (id_status r) (a_status a)) (id_created r).

Definition asg_then (a b : asg) : asg :=
  mkAsg (match a_cols b with Some c => Some c | None => a_cols a end)
        (match a_status b with Some s => Some s | None => a_status a end).

Definition asg_of (k : string * string) (f : eff) : asg :=
  match f with
  | EffCreate t id row => if decide ((t, id) = k) then mkAsg (Some (id_kind row, id_owner row, id_issuer row)) None
                          else mkAsg None None
  | EffTransition t tr => if decide ((t, it_IdentityID tr) = k) then mkAsg None (Some (it_ToState tr))
                          else mkAsg None None
  | _ => mkAsg None None
  end.

Definition asg_none : asg := mkAsg None None.

Definition asgs (k : string * string) (fs : list eff) : asg :=
  foldr (fun f a => asg_then (asg_of k f) a) asg_none fs.

Lemma asg_apply_none r : asg_apply asg_none r = r.
Proof. by destruct r. Qed.

Lemma asg_apply_then a b r : asg_apply (asg_then a b) r = asg_apply b (asg_apply a r).
Proof.
  unfold asg_apply, asg_then. destruct a as [[[[? ?] ?]|] [?|]], b as [[[[? ?] ?]|] [?|]]; done.
Qed.

Lemma asg_apply_idem a r : asg_apply a (asg_apply a r) = asg_apply a r.
Proof. unfold asg_apply. destruct a as [[[[? ?] ?]|] [?|]]; done. Qed.

(** Creating the row again, then the later assignments again, changes nothing. *)
Lemma asg_recreate a row :
  asg_apply (asg_then (mkAsg (Some (id_kind row, id_owner row, id_issuer row)) None) a) (asg_apply a row) =
  asg_apply a row.
Proof. unfold asg_apply, asg_then. destruct a as [[[[? ?] ?]|] [?|]]; done. Qed.

(** One effect on one row of each table. *)
Definition step_row (k : string * string) (o : option IdentityRow) (f : eff) : option IdentityRow :=
  match f with
  | EffErase t => if decide (fst k = t) then None else o
  | EffCreate t id row =>
      if decide ((t, id) = k) then Some (match o with Some old => asg_apply (asg_of k f) old | None => row end) else o
  | _ => asg_apply (asg_of k f) <$> o
  end.

Definition registration (t : string) (f : eff) : option (string * Z) :=
  match f with EffRegister t' n q => if decide (t' = t) then Some (n, q) else None | _ => None end.

Definition recorded (k : string * string * Z) (f : eff) : option IdentityTransition :=
  match f with EffTransition t tr => if decide ((t, it_IdentityID tr, it_Seq tr) = k) then Some tr else None | _ => None end.

Definition erases (t : string) (f : eff) : bool := match f with EffErase t' => bool_decide (t = t') | _ => false end.

(** A table whose rows are only written whole, or erased with their tenant. *)
Definition step_write {V} (t : string) (w : eff -> option V) (o : option V) (f : eff) : option V :=
  if erases t f then None else match w f with Some v => Some v | None => o end.

Lemma asg_fmap_none (o : option IdentityRow) : asg_apply asg_none <$> o = o.
Proof. destruct o; cbn; [by rewrite asg_apply_none|done]. Qed.

Section Rows.
Context {OT : OtherTables}.

Lemma do_eff_lookup k f rm : rm_identities (do_eff rm f) !! k = step_row k (rm_identities rm !! k) f.
Proof.
  destruct f as [|t n q|t|t id row|t tr]; cbn [do_eff step_row asg_of].
  - by rewrite asg_fmap_none.
  - by rewrite asg_fmap_none.
  - cbn [erase_tenant rm_identities]. case_decide as Hk.
    + apply map_lookup_filter_None. right. intros row _ Hne. by apply Hne.
    + destruct (rm_identities rm !! k) as [row|] eqn:E.
      * apply map_lookup_filter_Some. by split.
      * apply map_lookup_filter_None. by left.
  - cbn [ApplyIdentityCreatedTx rm_identities]. case_decide as Hk.
    + subst k. rewrite lookup_insert_eq. by destruct (rm_identities rm !! (t, id)).
    + by rewrite lookup_insert_ne.
  - cbn [AppendIdentityTransitionTx SetIdentityStatusTx rm_identities]. case_decide as Hk.
    + subst k. by rewrite lookup_alter_eq.
    + rewrite lookup_alter_ne by done. by rewrite asg_fmap_none.
Qed.

Lemma do_eff_tenants t f rm : rm_tenants (do_eff rm f) !! t = step_write t (registration t) (rm_tenants rm !! t) f.
Proof.
  unfold step_write. destruct f as [|t' n q|t'|t' id row|t' tr]; cbn; try done.
  - case_decide as Ht; [subst; by rewrite lookup_insert_eq|by rewrite lookup_insert_ne].
  - case_bool_decide as Ht; [subst; by rewrite lookup_delete_eq|rewrite lookup_delete_ne; done].
Qed.

Lemma do_eff_transitions k f rm :
  rm_transitions (do_eff rm f) !! k = step_write (fst (fst k)) (recorded k) (rm_transitions rm !! k) f.
Proof.
  unfold step_write. destruct f as [|t n q|t|t id row|t tr]; cbn; try done.
  - case_bool_decide as Hk.
    + apply map_lookup_filter_None. right. intros row _ Hne. by apply Hne.
    + destruct (rm_transitions rm !! k) as [row|] eqn:E.
      * apply map_lookup_filter_Some. by split.
      * apply map_lookup_filter_None. by left.
  - case_decide as Hk; [subst; by rewrite lookup_insert_eq|by rewrite lookup_insert_ne].
Qed.

Lemma run_lookup k fs rm : rm_identities (fold_left do_eff fs rm) !! k = fold_left (step_row k) fs (rm_identities rm !! k).
Proof. revert rm. induction fs as [|f fs IH]; intros rm; [done|]. cbn [fold_left]. by rewrite IH, do_eff_lookup. Qed.

Lemma run_tenants t fs rm : rm_tenants (fold_left do_eff fs rm) !! t = fold_left (step_write t (registration t)) fs (rm_tenants rm !! t).
Proof. revert rm. induction fs as [|f fs IH]; intros rm; [done|]. cbn [fold_left]. by rewrite IH, do_eff_tenants. Qed.

Lemma run_transitions k fs rm :
  rm_transitions (fold_left do_eff fs rm) !! k = fold_left (step_write (fst (fst k)) (recorded k)) fs (rm_transitions rm !! k).
Proof. revert rm. induction fs as [|f fs IH]; intros rm; [done|]. cbn [fold_left]. by rewrite IH, do_eff_transitions. Qed.

End Rows.

(** ** Since a tenant left *)

(** The effects after the last that erases the tenant, or all of them. *)
Fixpoint since (t : string) (fs : list eff) : list eff :=
  match fs with
  | [] => []
  | f :: l => if existsb (erases t) l then since t l else if erases t f then l else fs
  end.

Lemma since_clean t fs : Forall (fun f => erases t f = false) (since t fs).
Proof.
  assert (Hno : forall l, existsb (erases t) l = false -> Forall (fun f => erases t f = false) l).
  { intros l H. apply Forall_forall. intros f Hf. apply not_true_iff_false. intros He. apply not_true_iff_false in H. apply H.
    apply existsb_exists. exists f. by rewrite <- list_elem_of_In. }
  induction fs as [|f l IH]; cbn [since]; [constructor|]. destruct (existsb (erases t) l) eqn:E; [done|].
  destruct (erases t f) eqn:Ef; [by apply Hno|]. constructor; [done|by apply Hno].
Qed.

(** A fold that an erasure resets only sees what came since. *)
Lemma fold_since {V} (t : string) (step : option V -> eff -> option V) fs o :
  (forall o f, erases t f = true -> step o f = None) ->
  fold_left step fs o = fold_left step (since t fs) (if existsb (erases t) fs then None else o).
Proof.
  intros Hs. revert o. induction fs as [|f l IH]; intros o; [done|]. cbn [fold_left since existsb]. rewrite IH.
  destruct (existsb (erases t) l) eqn:E; [by rewrite orb_true_r|].
  assert (Hl : since t l = l) by (destruct l as [|g l']; [done|]; cbn [since existsb] in *; apply orb_false_iff in E as [-> ->]; done).
  rewrite Hl, orb_false_r. destruct (erases t f) eqn:Ef; [by rewrite Hs|done].
Qed.

Lemma step_row_erase k o f : erases (fst k) f = true -> step_row k o f = None.
Proof. destruct f; try done. cbn. intros Ht%bool_decide_eq_true. by rewrite decide_True. Qed.

Lemma step_write_erase {V} t (w : eff -> option V) o f : erases t f = true -> step_write t w o f = None.
Proof. unfold step_write. by intros ->. Qed.

(** The last write since. *)
Lemma write_last {V} t (w : eff -> option V) l o : Forall (fun f => erases t f = false) l ->
  fold_left (step_write t w) l o = match last (omap w l) with Some v => Some v | None => o end.
Proof.
  intros H. revert o. induction H as [|f l Hf _ IH]; intros o; [done|]. cbn [fold_left]. rewrite IH. unfold step_write. rewrite Hf.
  cbn [omap list_omap]. destruct (w f) as [v|]; [|done]. rewrite last_cons. by destruct (last (omap w l)).
Qed.

(** ** Re-applying a tail of the log

    Each column of the slice is a register that the effects assign; running the
    same assignments twice leaves what running them once does, and an erasure of the
    tenant resets them all. *)

(** A row that exists ends as its assignments say. *)
Lemma steps_some k fs r :
  Forall (fun f => erases (fst k) f = false) fs ->
  fold_left (step_row k) fs (Some r) = Some (asg_apply (asgs k fs) r).
Proof.
  intros H. revert r. induction H as [|f fs Hf _ IH]; intros r; cbn [fold_left asgs foldr].
  - by rewrite asg_apply_none.
  - assert (Hs : step_row k (Some r) f = Some (asg_apply (asg_of k f) r)).
    { destruct f as [|? ? ?|t|t id row|t tr]; try done; cbn [step_row asg_of erases] in *.
      - apply bool_decide_eq_false in Hf. rewrite decide_False by done. by rewrite asg_apply_none.
      - case_decide; [done|]. by rewrite asg_apply_none. }
    rewrite Hs, IH. fold (asgs k fs). by rewrite asg_apply_then.
Qed.

(** A transition of [k] finds its row. *)
Fixpoint grounded (k : string * string) (o : option IdentityRow) (fs : list eff) : Prop :=
  match fs with
  | [] => True
  | f :: fs' =>
      match f with
      | EffTransition t tr => (t, it_IdentityID tr) = k -> is_Some o
      | _ => True
      end /\ grounded k (step_row k o f) fs'
  end.

(** A row that the effects create is a fixed point of its assignments. *)
Lemma steps_none k fs r :
  Forall (fun f => erases (fst k) f = false) fs -> grounded k None fs ->
  fold_left (step_row k) fs None = Some r -> asg_apply (asgs k fs) r = r.
Proof.
  induction 1 as [|f fs Hf Hfs IH]; [done|]. cbn [grounded fold_left asgs foldr]. intros [Hg Hgs] Hr.
  fold (asgs k fs). rewrite asg_apply_then.
  destruct f as [|? ? ?|t|t id row|t tr]; try done; cbn [step_row asg_of] in *.
  - rewrite asg_apply_none. by apply IH.
  - rewrite asg_apply_none. by apply IH.
  - rewrite asg_apply_none. case_decide; by apply IH.
  - case_decide as Hk.
    + rewrite steps_some in Hr by done. simplify_eq. rewrite <- asg_apply_then. apply asg_recreate.
    + rewrite asg_apply_none. by apply IH.
  - case_decide as Hk; [by destruct (Hg Hk)|]. rewrite asg_apply_none. by apply IH.
Qed.

Definition creates (k : string * string) (f : eff) : Prop :=
  match f with EffCreate t id _ => (t, id) = k | _ => False end.

Definition moves (k : string * string) (f : eff) : Prop :=
  match f with EffTransition t tr => (t, it_IdentityID tr) = k | _ => False end.

Lemma asgs_cols k fs : is_Some (a_cols (asgs k fs)) <-> Exists (creates k) fs.
Proof.
  induction fs as [|f fs IH]; cbn [asgs foldr]; [rewrite Exists_nil; split; [by intros [? ?]|done]|].
  fold (asgs k fs). rewrite Exists_cons, <- IH. unfold asg_then. cbn [a_cols].
  destruct (a_cols (asgs k fs)) as [c|]; [split; [by right|eauto]|].
  destruct f; cbn [asg_of creates]; try case_decide; cbn [a_cols]; split; naive_solver.
Qed.

Lemma asgs_status k fs : is_Some (a_status (asgs k fs)) <-> Exists (moves k) fs.
Proof.
  induction fs as [|f fs IH]; cbn [asgs foldr]; [rewrite Exists_nil; split; [by intros [? ?]|done]|].
  fold (asgs k fs). rewrite Exists_cons, <- IH. unfold asg_then. cbn [a_status].
  destruct (a_status (asgs k fs)) as [c|]; [split; [by right|eauto]|].
  destruct f; cbn [asg_of moves]; try case_decide; cbn [a_status]; split; naive_solver.
Qed.

(** Every creation of [k] in the list is of one birth, in the initial status. *)
Definition one_birth (k : string * string) (b : Z) (fs : list eff) : Prop :=
  Forall (fun f => match f with
                   | EffCreate t id row => (t, id) = k -> id_status row = initialIdentityStatus /\ id_created row = b
                   | _ => True
                   end) fs.

(** What is known of a row made by effects of [l] alone. *)
Definition born (k : string * string) (b : Z) (l : list eff) (r : IdentityRow) : Prop :=
  Exists (creates k) l /\ id_created r = b /\
  (id_status r = initialIdentityStatus \/ Exists (moves k) l).

Lemma steps_born k b l m o :
  one_birth k b l -> Forall (fun f => f ∈ l) m ->
  match o with Some r => born k b l r | None => True end ->
  match fold_left (step_row k) m o with Some r => born k b l r | None => True end.
Proof.
  intros Hb Hm. revert o. induction Hm as [|f m Hf _ IH]; intros o Ho; [done|]. cbn [fold_left]. apply IH.
  unfold one_birth in Hb. rewrite Forall_forall in Hb. specialize (Hb f Hf).
  destruct f as [|? ? ?|t|t id row|t tr]; cbn [step_row asg_of].
  - by rewrite asg_fmap_none.
  - by rewrite asg_fmap_none.
  - by case_decide.
  - case_decide as Hk; [|done]. destruct (Hb Hk) as [Hs Hc].
    assert (Exists (creates k) l) by (apply Exists_exists; eauto).
    destruct o as [old|]; [|by split_and!; [|done|left]]. destruct Ho as (_ & Ho1 & Ho2). by split_and!.
  - case_decide as Hk; [|by rewrite asg_fmap_none]. destruct o as [old|]; cbn; [|done].
    destruct Ho as (Ho1 & Ho2 & _). split_and!; [done..|right]. apply Exists_exists. eauto.
Qed.

Lemma asg_apply_absorb a b r :
  (is_Some (a_cols a) -> is_Some (a_cols b)) -> (is_Some (a_status a) -> is_Some (a_status b)) ->
  asg_apply b (asg_apply a r) = asg_apply b r.
Proof.
  unfold asg_apply. destruct a as [[[[? ?] ?]|] [?|]], b as [[[[? ?] ?]|] [?|]]; cbn; intros Hc Hs;
    try reflexivity;
    first [by destruct (Hc (mk_is_Some _ _ eq_refl))|by destruct (Hs (mk_is_Some _ _ eq_refl))].
Qed.

(** Rows of one birth look alike once all the assignments are made. *)
Lemma born_alike k b l r r' :
  born k b l r -> born k b l r' -> asg_apply (asgs k l) r = asg_apply (asgs k l) r'.
Proof.
  intros (Hc & Hb & Hs) (_ & Hb' & Hs'). apply asgs_cols in Hc as [[[? ?] ?] Hc].
  unfold asg_apply. rewrite Hc, Hb, Hb'. f_equal.
  destruct (a_status (asgs k l)) as [st|] eqn:E; [done|]. cbn.
  assert (Hno : ~ Exists (moves k) l) by (rewrite <- asgs_status, E; by intros [? ?]).
  destruct Hs as [->|?], Hs' as [->|?]; done.
Qed.

(** Effects of [m], all of them effects of [l], applied beforehand in any order
    and with gaps or repetitions, are absorbed by running [l]. *)
Lemma absorb_row k b l m o :
  Forall (fun f => erases (fst k) f = false) l -> Forall (fun f => f ∈ l) m ->
  grounded k o l -> one_birth k b l ->
  fold_left (step_row k) l (fold_left (step_row k) m o) = fold_left (step_row k) l o.
Proof.
  intros He Hm Hg Hb.
  assert (Hem : Forall (fun f => erases (fst k) f = false) m).
  { rewrite Forall_forall in He, Hm |- *. auto. }
  assert (Hsub : forall P, Exists P m -> Exists P l).
  { intros P. rewrite !Exists_exists. rewrite Forall_forall in Hm. naive_solver. }
  destruct o as [r|].
  - rewrite !steps_some by done. f_equal. apply asg_apply_absorb; rewrite ?asgs_cols, ?asgs_status; apply Hsub.
  - pose proof (steps_born k b l m None Hb Hm I) as Hbm.
    destruct (fold_left (step_row k) m None) as [r|] eqn:Er; [|done].
    assert (Hll : Forall (fun f => f ∈ l) l) by by apply Forall_forall.
    pose proof (steps_born k b l l None Hb Hll I) as Hbl.
    destruct (fold_left (step_row k) l None) as [r'|] eqn:Er'.
    + rewrite steps_some by done. f_equal. rewrite (born_alike k b l r r' Hbm Hbl). by apply steps_none.
    + exfalso. destruct Hbm as [Hc _]. apply Exists_exists in Hc as (f & Hf & Hcf).
      apply list_elem_of_split in Hf as (l1 & l2 & ->).
      destruct f as [|? ? ?|?|t id row|t tr]; try done. cbn in Hcf.
      rewrite fold_left_app in Er'. cbn [fold_left step_row] in Er'. rewrite decide_True in Er' by done.
      apply Forall_app in He as [_ He]. apply Forall_cons in He as [_ He].
      by rewrite steps_some in Er' by done.
Qed.

Definition leaves (t : string) (l : list eff) : bool := existsb (erases t) l.

Lemma leaves_false t l : leaves t l = false <-> Forall (fun f => erases t f = false) l.
Proof.
  unfold leaves. induction l as [|f l IH]; cbn; [by split; constructor|]. rewrite orb_false_iff, IH, Forall_cons. done.
Qed.

(** An erasure in the list makes what came before it irrelevant. *)
Lemma leaves_forgets {V} (t : string) (step : option V -> eff -> option V) l o o' :
  (forall o f, erases t f = true -> step o f = None) -> leaves t l = true -> fold_left step l o = fold_left step l o'.
Proof. intros Hs Hl. rewrite (fold_since t step l o), (fold_since t step l o') by done. unfold leaves in Hl. by rewrite Hl. Qed.

Lemma absorb_write {V} (t : string) (w : eff -> option V) l m o :
  Forall (fun f => f ∈ l) m ->
  fold_left (step_write t w) l (fold_left (step_write t w) m o) = fold_left (step_write t w) l o.
Proof.
  intros Hm. destruct (leaves t l) eqn:E; [apply (leaves_forgets t); [by apply step_write_erase|done]|].
  apply leaves_false in E.
  assert (Hem : Forall (fun f => erases t f = false) m) by (rewrite Forall_forall in E, Hm |- *; auto).
  rewrite !write_last by done. destruct (last (omap w l)) as [v|] eqn:El; [done|].
  destruct (last (omap w m)) as [v|] eqn:Em; [|done]. exfalso.
  apply last_Some_elem_of, list_elem_of_omap in Em as (f & Hf & Hw). rewrite Forall_forall in Hm.
  apply last_None in El. assert (Hv : v ∈ omap w l) by (apply list_elem_of_omap; eauto). rewrite El in Hv. by apply elem_of_nil in Hv.
Qed.

(** A tail of the log in which the identities of every tenant that does not leave in it
    are each created once and moved only while they exist. *)
Record tail_ok `{OtherTables} (rm : RM) (l : list eff) : Prop := {
  tail_grounded : forall k, leaves (fst k) l = false -> grounded k (rm_identities rm !! k) l;
  tail_births : forall k, leaves (fst k) l = false -> exists b, one_birth k b l
}.

Lemma absorb `{OtherTables} l m rm :
  tail_ok rm l -> Forall (fun f => f ∈ l) m ->
  same_slice (fold_left do_eff l (fold_left do_eff m rm)) (fold_left do_eff l rm).
Proof.
  intros [Hg Hb] Hm. split_and!; apply map_eq; intros k.
  - rewrite !run_tenants. by apply absorb_write.
  - rewrite !run_lookup. destruct (leaves (fst k) l) eqn:E; [apply (leaves_forgets (fst k)); [by apply step_row_erase|done]|].
    destruct (Hb k E) as [b Hbk]. apply leaves_false in E as E'. eapply absorb_row; eauto.
  - rewrite !run_transitions. by apply absorb_write.
Qed.

(** ** The rows that a log declares *)

Definition creation (k : string * string) (f : eff) : option IdentityRow :=
  match f with EffCreate t id row => if decide ((t, id) = k) then Some row else None | _ => None end.

Definition moved_to (k : string * string) (f : eff) : option string :=
  match f with EffTransition t tr => if decide ((t, it_IdentityID tr) = k) then Some (it_ToState tr) else None | _ => None end.

(** The first creation, and what follows it. *)
Fixpoint first_creation (k : string * string) (l : list eff) : option (IdentityRow * list eff) :=
  match l with
  | [] => None
  | f :: l' => match creation k f with Some row => Some (row, l') | None => first_creation k l' end
  end.

(** The first creation since the tenant last left gives the row its creation time, the
    last one its kind, owner and issuer; the last move after the first creation gives its
    status. *)
Definition declared_identity (k : string * string) (fs : list eff) : option IdentityRow :=
  match first_creation k (since (fst k) fs) with
  | None => None
  | Some (first, later) =>
      let cols := default first (last (omap (creation k) later)) in
      Some (mkIdentity (id_kind cols) (id_owner cols) (id_issuer cols)
              (default initialIdentityStatus (last (omap (moved_to k) later))) (id_created first))
  end.

Lemma omap_last_cons {A B} (g : A -> option B) x l :
  last (omap g (x :: l)) = match last (omap g l) with Some v => Some v | None => g x end.
Proof. cbn [omap list_omap]. destruct (g x) as [v|]; [rewrite last_cons|]; by destruct (last _). Qed.

Lemma asgs_last k l :
  asgs k l = mkAsg ((fun r => (id_kind r, id_owner r, id_issuer r)) <$> last (omap (creation k) l)) (last (omap (moved_to k) l)).
Proof.
  induction l as [|f l IH]; [done|]. rewrite !omap_last_cons. cbn [asgs foldr]. fold (asgs k l). rewrite IH. unfold asg_then. cbn.
  destruct (last (omap (creation k) l)), (last (omap (moved_to k) l)); cbn; destruct f; cbn; try case_decide; done.
Qed.

Lemma steps_first k l : Forall (fun f => erases (fst k) f = false) l ->
  fold_left (step_row k) l None =
  match first_creation k l with Some (row, later) => Some (asg_apply (asgs k later) row) | None => None end.
Proof.
  induction 1 as [|f l Hf Hl IH]; [done|]. cbn [fold_left first_creation].
  destruct f as [|? ? ?|t|t id row|t tr]; cbn [step_row creation fmap option_fmap option_map]; try done.
  - by case_decide.
  - case_decide; [by rewrite steps_some|done].
Qed.

(** Effects that events have leave new rows in the initial status. *)
Lemma first_creation_initial k l row later :
  Forall (fun f => match f with EffCreate _ _ r => id_status r = initialIdentityStatus | _ => True end) l ->
  first_creation k l = Some (row, later) -> id_status row = initialIdentityStatus.
Proof.
  induction 1 as [|f l Hf _ IH]; [done|]. cbn. destruct (creation k f) eqn:E; [|done]. intros [= <- <-].
  destruct f; try done. cbn in E. by case_decide; simplify_eq.
Qed.

Lemma effects_initial l fs : effects l = Ok fs ->
  Forall (fun f => match f with EffCreate _ _ r => id_status r = initialIdentityStatus | _ => True end) fs.
Proof.
  intros H. apply Forall_forall. intros f Hf. destruct (effects_elem _ _ _ H Hf) as (e & _ & He).
  destruct f; try done. by apply effect_create in He as (_ & _ & ?).
Qed.

Lemma since_elem t fs f : f ∈ since t fs -> f ∈ fs.
Proof.
  induction fs as [|g l IH]; [done|]. cbn [since]. destruct (existsb (erases t) l); [right; by apply IH|].
  destruct (erases t g); [by right|done].
Qed.

Lemma declared_row k l fs : effects l = Ok fs -> fold_left (step_row k) fs None = declared_identity k fs.
Proof.
  intros H. rewrite (fold_since (fst k)) by (apply step_row_erase).
  replace (if existsb (erases (fst k)) fs then None else None) with (@None IdentityRow) by (by destruct (existsb _ _)).
  rewrite steps_first by apply since_clean. unfold declared_identity.
  destruct (first_creation k (since (fst k) fs)) as [[row later]|] eqn:E; [|done].
  f_equal. rewrite asgs_last. unfold asg_apply. cbn.
  assert (Hrow : id_status row = initialIdentityStatus).
  { eapply first_creation_initial; [|exact E]. apply effects_initial in H. rewrite Forall_forall in H |- *. intros f Hf.
    by apply H, (since_elem (fst k)). }
  rewrite Hrow. by destruct (last (omap (creation k) later)).
Qed.

Lemma declared_write {V} t (w : eff -> option V) fs :
  fold_left (step_write t w) fs None = last (omap w (since t fs)).
Proof.
  rewrite (fold_since t) by (apply step_write_erase). rewrite write_last by apply since_clean.
  destruct (last _); [done|]. by destruct (existsb _ _).
Qed.

(** The slice that a log declares. *)
Definition declares `{OtherTables} (l : list Event) (rm : RM) : Prop :=
  exists fs, effects l = Ok fs /\
    (forall t, rm_tenants rm !! t = last (omap (registration t) (since t fs))) /\
    (forall k, rm_identities rm !! k = declared_identity k fs) /\
    (forall k, rm_transitions rm !! k = last (omap (recorded k) (since (fst (fst k)) fs))).

Lemma declares_unique `{OtherTables} l a b : declares l a -> declares l b -> same_slice a b.
Proof.
  intros (fs & Hfs & Ha1 & Ha2 & Ha3) (fs' & Hfs' & Hb1 & Hb2 & Hb3). rewrite Hfs in Hfs'. injection Hfs' as <-.
  split_and!; apply map_eq; intros k; [by rewrite Ha1, Hb1|by rewrite Ha2, Hb2|by rewrite Ha3, Hb3].
Qed.

Lemma fold_declares `{OtherTables} l fs rm rm' : effects l = Ok fs -> same_slice rm (fold_left do_eff fs (truncated rm')) -> declares l rm.
Proof.
  intros Hfs (Ht & Hi & Htr). exists fs. split_and!; [done|..]; intros k.
  - rewrite Ht, run_tenants. apply declared_write.
  - rewrite Hi, run_lookup. by eapply declared_row.
  - rewrite Htr, run_transitions. apply declared_write.
Qed.

(** Whichever projector runs the log from empty tables, it leaves what the log declares. *)
Lemma run_declares `{OtherTables} app l rm rm' : faithful app -> run app l (truncated rm) = Ok rm' -> declares l rm'.
Proof. intros Happ Hr. destruct (run_effects _ _ _ _ Happ Hr) as (fs & Hfs & Hs). by eapply fold_declares. Qed.

(** ** The theorems *)

Section Theorems.
Context {OT : OtherTables} {ES : EventStream} {EL : EventStreamLaws ES}.

(** The sequence of the last event of a list. *)
Definition last_seq (l : list Event) (d : Z) : Z := fold_left (fun _ e => ev_Sequence e) l d.

(** The callback of a rebuild stops at the first event that is rejected. *)
Lemma rebuild_each l rm n :
  exists s, each (fun (e : Event) (s : RM * Z) =>
          match applyForRebuild e (fst s) with
          | Err err => (Err err, s)
          | Ok rm' => (Ok tt, (rm', ev_Sequence e))
          end) l (rm, n) =
  match run applyForRebuild l rm with
  | Ok rm' => (Ok tt, (rm', last_seq l n))
  | Err err => (Err err, s)
  end.
Proof.
  revert rm n. induction l as [|e l IH]; intros rm n; [by exists (rm, n)|].
  cbn [each run fst last_seq fold_left]. destruct (applyForRebuild e rm) as [rm'|err]; [apply IH|by exists (rm, n)].
Qed.

Lemma project_each l rm : (each apply_step l rm).1 = Ok tt -> run Apply l rm = Ok (each apply_step l rm).2.
Proof.
  revert rm. induction l as [|e l IH]; intros rm; [done|]. cbn [each run]. unfold apply_step at 1 3.
  destruct (Apply e rm) as [rm'|err]; [apply IH|done].
Qed.

Lemma Rebuild_run st p :
  Rebuild st p = match run applyForRebuild (events_from 1 st) (truncated (p_rm p)) with
                 | Ok rm => (Ok tt, mkP rm (Z.max 0 (last_seq (events_from 1 st) 0)))
                 | Err err => (Err err, p)
                 end.
Proof.
  unfold Rebuild. change (Replay ?f 0 st ?s) with (Replay f 1 st s).
  rewrite Replay_each by lia. destruct (rebuild_each (events_from 1 st) (truncated (p_rm p)) 0) as [s ->].
  destruct (run applyForRebuild (events_from 1 st) (truncated (p_rm p))) as [rm|err]; [|done].
  do 2 f_equal. destruct (Z.ltb_spec 0 (last_seq (events_from 1 st) 0)); lia.
Qed.

Lemma rebuilt_declares st p p' : Rebuild st p = (Ok tt, p') -> declares (events_from 1 st) (p_rm p').
Proof.
  rewrite Rebuild_run. destruct (run _ _ _) eqn:Hr; [|done]. intros [= <-]. eapply run_declares; [apply applyForRebuild_faithful|exact Hr].
Qed.

(** C12: a rebuild leaves what the log declares.  Whatever read model it starts from, a
    rebuild that succeeds leaves the checkpoint at the head of the log and, of each
    tenant, what the log says since the tenant last left: its last registration, its
    recorded transitions, and the identities created since, each with the creation time
    of its first creation, the columns of its last one and the status of its last move;
    a projection of the log in order from empty tables leaves the same.  If an event is
    rejected the rebuild changes nothing, and names an event that the tables refused where
    it stood. *)
Theorem Rebuild_declares (st : Stream) (p : PState) :
  match Rebuild st p with
  | (Ok _, p') =>
      declares (events_from 1 st) (p_rm p') /\ p_checkpoint p' = Z.max 0 (last_seq (events_from 1 st) 0) /\
      (forall rm rm', Project st (truncated rm) = (Ok tt, rm') -> same_slice rm' (p_rm p'))
  | (Err err, p') =>
      p' = p /\ exists l1 e l2 rm1, events_from 1 st = l1 ++ e :: l2 /\
        run applyForRebuild l1 (truncated (p_rm p)) = Ok rm1 /\ applyForRebuild e rm1 = Err err
  end.
Proof.
  rewrite Rebuild_run. destruct (run applyForRebuild (events_from 1 st) (truncated (p_rm p))) as [rm|err] eqn:Hr.
  - pose proof (run_declares _ _ _ _ applyForRebuild_faithful Hr) as Hd. cbn [p_rm p_checkpoint]. split_and!; [done..|].
    intros rm0 rm' Hp. eapply declares_unique; [|exact Hd].
    unfold Project in Hp. change (Replay ?f 0 st ?x) with (Replay f 1 st x) in Hp. rewrite Replay_each in Hp by lia.
    eapply run_declares; [apply Apply_faithful|]. rewrite project_each; rewrite Hp; done.
  - split; [done|]. destruct (run_rejected _ _ _ _ Hr) as (l1 & e & l2 & rm1 & ? & ? & ?). eauto 8.
Qed.

(** What catching up over a list of events does, to the end or to the first rejection. *)
Lemma catchup_each l p last since :
  exists res p' last' since', each catchup_step l (p, last, since) = (res, (p', last', since')) /\
    p_checkpoint p <= p_checkpoint p' /\
    match res with
    | Ok _ => run Apply l (p_rm p) = Ok (p_rm p') /\ last' = last_seq l last /\
        (forall N, Forall (fun e => ev_Sequence e <= N) l -> p_checkpoint p' <= Z.max (p_checkpoint p) N)
    | Err err => exists l1 e l2, l = l1 ++ e :: l2 /\ run Apply l1 (p_rm p) = Ok (p_rm p') /\ Apply e (p_rm p') = Err err /\
        (forall N, Forall (fun e => ev_Sequence e <= N) l1 -> p_checkpoint p' <= Z.max (p_checkpoint p) N)
    end.
Proof.
  revert p last since. induction l as [|e l IH]; intros p last since.
  - exists (Ok tt), p, last, since. cbn. split_and!; [done|lia|done|done|intros; lia].
  - cbn [each run last_seq fold_left]. unfold catchup_step at 1.
    destruct (Apply e (p_rm p)) as [rm1|err] eqn:E.
    + assert (Hstep : exists p1 since1, p_rm p1 = rm1 /\
        (p_checkpoint p1 = p_checkpoint p \/ p_checkpoint p1 = Z.max (p_checkpoint p) (ev_Sequence e)) /\
        (if checkpointEvery <=? since + 1
         then (Ok tt, (AdvanceProjectionCheckpoint (ev_Sequence e) (mkP rm1 (p_checkpoint p)), ev_Sequence e, 0))
         else (Ok tt, (mkP rm1 (p_checkpoint p), ev_Sequence e, since + 1))) = (Ok (E := projError) tt, (p1, ev_Sequence e, since1))).
      { destruct (checkpointEvery <=? since + 1); do 2 eexists; (split_and!; [|..|reflexivity]); [done|by right|done|by left]. }
      destruct Hstep as (p1 & since1 & Hrm & Hck & ->).
      destruct (IH p1 (ev_Sequence e) since1) as (res & p' & last' & since' & -> & Hle & H). rewrite Hrm in H.
      exists res, p', last', since'. split_and!; [done|lia|]. destruct res as [[]|err].
      * destruct H as (Hr & Hl & HN). split_and!; [done|done|]. intros N HF. apply Forall_cons in HF as [He HF]. specialize (HN N HF). lia.
      * destruct H as (l1 & e1 & l2 & -> & Hr & He1 & HN). exists (e :: l1), e1, l2. cbn [run app]. rewrite E. split_and!; [done..|].
        intros N HF. apply Forall_cons in HF as [He HF]. specialize (HN N HF). lia.
    + exists (Err err), p, last, since. split_and!; [done|lia|]. exists [], e, l. split_and!; [done..|]. intros; lia.
Qed.

Lemma events_range_app n m seq (st : Stream) :
  events_range (n + m) seq st = events_range n seq st ++ events_range m (seq + Z.of_nat n) st.
Proof.
  revert seq. induction n as [|n IH]; intros seq; [cbn; by rewrite Z.add_0_r|].
  cbn [Nat.add events_range]. rewrite IH. replace (seq + 1 + Z.of_nat n) with (seq + Z.of_nat (S n)) by lia.
  by destruct (GetMsg st seq).
Qed.

(** The log is what precedes a checkpoint and what follows it. *)
Lemma events_from_split c (st : Stream) :
  0 <= c <= LastSeq st -> events_from 1 st = events_range (Z.to_nat c) 1 st ++ events_from (c + 1) st.
Proof.
  intros Hc. unfold events_from.
  replace (Z.to_nat (LastSeq st - 1 + 1)) with (Z.to_nat c + Z.to_nat (LastSeq st - (c + 1) + 1))%nat by lia.
  rewrite events_range_app. do 2 f_equal. lia.
Qed.

(** A log is in ascending order of its sequence numbers. *)
Lemma events_range_before n seq (st : Stream) l1 e l2 :
  events_range n seq st = l1 ++ e :: l2 -> seq <= ev_Sequence e /\ Forall (fun x => ev_Sequence x <= ev_Sequence e - 1) l1.
Proof.
  revert seq l1. induction n as [|n IH]; intros seq l1; cbn [events_range]; [by destruct l1|].
  destruct (GetMsg st seq) as [raw|].
  - destruct l1 as [|x l1]; cbn [app]; intros [= <- H]; [by split; [cbn; lia|]|].
    destruct (IH _ _ H) as [? ?]. split; [lia|]. constructor; [cbn; lia|done].
  - intros H. destruct (IH _ _ H). split; [lia|done].
Qed.

Lemma last_seq_bound l d N : d <= N -> Forall (fun e => ev_Sequence e <= N) l -> last_seq l d <= N.
Proof. intros Hd H. revert d Hd. induction H as [|e l He _ IH]; intros d Hd; cbn; [done|]. by apply IH. Qed.

Lemma tail_bounded c (st : Stream) : 0 <= c -> Forall (fun e => ev_Sequence e <= LastSeq st) (events_from (c + 1) st).
Proof.
  intros Hc. apply Forall_forall. intros e He. apply events_from_elem in He as (raw & _ & Hg & _); [|lia].
  apply GetMsg_range in Hg. lia.
Qed.

(** C13: catching up converges to the log.  Let the read model hold the events up
    to the checkpoint and, on top of them, any events of the tail that running
    replicas have already projected, in any order, with gaps or repetitions; and let
    the tail be one in which the identities of a tenant that does not leave in it are
    each created once and moved only while they exist.  [ProjectCatchUp] never moves the
    checkpoint back or past the head.  If it succeeds, the slice is what the whole log
    declares, and so what any rebuild leaves.  If it fails, it stopped at an event of the
    tail that the tables reject in the state it left, with everything before that event
    applied and the checkpoint before it; if no event of the tail is rejected in any
    state, it succeeds. *)
Theorem ProjectCatchUp_converges (st : Stream) (p : PState) (fs0 fs m : list eff) :
  ProjectionCheckpoint p <= LastSeq st ->
  effects (events_range (Z.to_nat (ProjectionCheckpoint p)) 1 st) = Ok fs0 ->
  effects (events_from (ProjectionCheckpoint p + 1) st) = Ok fs ->
  tail_ok (fold_left do_eff fs0 (truncated (p_rm p))) fs -> Forall (fun f => f ∈ fs) m ->
  same_slice (p_rm p) (fold_left do_eff (fs0 ++ m) (truncated (p_rm p))) ->
  exists res p', ProjectCatchUp st p = (res, p') /\
    p_checkpoint p <= p_checkpoint p' <= Z.max (p_checkpoint p) (LastSeq st) /\
    match res with
    | Ok _ => declares (events_from 1 st) (p_rm p') /\
        (forall q q', Rebuild st q = (Ok tt, q') -> same_slice (p_rm p') (p_rm q'))
    | Err err => exists l1 e l2, events_from (ProjectionCheckpoint p + 1) st = l1 ++ e :: l2 /\
        run Apply l1 (p_rm p) = Ok (p_rm p') /\ Apply e (p_rm p') = Err err /\ p_checkpoint p' < ev_Sequence e
    end /\
    ((forall e rm err, e ∈ events_from (ProjectionCheckpoint p + 1) st -> Apply e rm <> Err err) -> res = Ok tt).
Proof.
  intros Hc Hfs0 Hfs Hok Hm Hp. set (c := ProjectionCheckpoint p) in *.
  assert (Hc0 : 0 <= c /\ p_checkpoint p <= c) by (unfold c, ProjectionCheckpoint; lia).
  pose proof (tail_bounded c st (proj1 Hc0)) as HN. unfold ProjectCatchUp. fold c. rewrite Replay_each by lia.
  set (tail := events_from (c + 1) st) in *.
  pose proof (last_seq_bound tail 0 (LastSeq st) (LastSeq_nonneg st) HN) as Hl.
  destruct (catchup_each tail p 0 0) as ([[]|err] & p' & last' & since' & -> & Hle & H).
  - destruct H as (Hr & -> & Hb). specialize (Hb _ HN).
    assert (Hd : declares (events_from 1 st) (p_rm p')).
    { destruct (run_effects _ _ _ _ Apply_faithful Hr) as (fs' & Hfs' & Hs). rewrite Hfs in Hfs'. injection Hfs' as <-.
      rewrite (events_from_split c) by lia. eapply fold_declares with (fs := fs0 ++ fs) (rm' := p_rm p).
      - rewrite effects_app, Hfs0. fold tail. by rewrite Hfs.
      - etransitivity; [exact Hs|]. etransitivity; [apply do_effs_proper; [reflexivity|exact Hp]|].
        rewrite !fold_left_app. by apply absorb. }
    assert (Hq : forall q q', Rebuild st q = (Ok tt, q') -> same_slice (p_rm p') (p_rm q')).
    { intros q q' Hq. eapply declares_unique; [exact Hd|]. eapply rebuilt_declares. exact Hq. }
    destruct (Z.ltb_spec 0 (last_seq tail 0)); exists (Ok tt); eexists; (split; [done|]); cbn [p_rm p_checkpoint AdvanceProjectionCheckpoint];
      split_and!; try done; lia.
  - destruct H as (l1 & e & l2 & Ht & Hr & He & Hb). unfold tail in Ht.
    destruct (events_range_before _ _ _ _ _ _ Ht) as [Hse Hal]. specialize (Hb _ Hal).
    assert (Hel : e ∈ tail) by (unfold tail; rewrite Ht; apply elem_of_app; right; by left).
    rewrite Forall_forall in HN. specialize (HN _ Hel).
    exists (Err err), p'. split_and!; [done|lia|lia|..].
    + exists l1, e, l2. split_and!; [done..|lia].
    + intros Hacc. by destruct (Hacc e (p_rm p') err Hel).
Qed.

End Theorems.

(** ** A worked log: an identity is created and issued. *)
Definition demo_event (type : string) (o : list (string * json)) : Event :=
  mkEvent "" type "t1" 0 (DJson (JObj o)) 0 None 0.

Definition demo_append (nuid : string) (e : Event) (st : Stream) : Stream :=
  snd (Append (R := PooledRouter) 77 nuid None e st).

Definition demo_created : Event :=
  demo_event "identity.created" [("id", JStr "i1"); ("kind", JStr "x509_certificate"); ("owner_id", JStr "o1"); ("issuer_id", JNull)].

Definition demo_stream : Stream :=
  demo_append "e2" (demo_event "identity.issued"
      [("identity_id", JStr "i1"); ("from", JStr "requested"); ("to", JStr "issued")])
    (demo_append "e1" demo_created ListStream.empty).

(** Tables that accept everything. *)
Definition no_other_tables : OtherTables := {|
  Rest := unit;
  rest_truncate := fun r => r;
  rest_apply := fun _ _ r => Ok r;
  rest_constraints := fun _ _ _ => true;
  rest_offboard := fun _ r => Ok r;
  rest_rebuild_offboard := fun _ r => Ok r
|}.

Definition demo_create : eff := EffCreate "t1" "i1" (mkIdentity "x509_certificate" "o1" None "requested" 77).

Definition demo_issue : eff :=
  EffTransition "t1" (mkIT "i1" 2 "requested" "issued" "identity.issued" "" 77).

Definition demo_rm : @RM no_other_tables :=
  @mkRM no_other_tables ∅ {[ ("t1", "i1") := mkIdentity "x509_certificate" "o1" None "requested" 77 ]} ∅ tt.

(** The checkpoint is behind the issue event, which was projected twice inline. *)
Definition demo_behind : @PState no_other_tables := mkP (fold_left do_eff [demo_issue; demo_issue] demo_rm) 1.

Lemma ProjectCatchUp_converges_witness :
  exists res p', ProjectCatchUp demo_stream demo_behind = (res, p') /\
    1 <= p_checkpoint p' <= Z.max 1 2 /\
    match res with
    | Ok _ => declares (events_from 1 demo_stream) (p_rm p') /\
        (forall q q', Rebuild demo_stream q = (Ok tt, q') -> same_slice (p_rm p') (p_rm q'))
    | Err err => exists l1 e l2, events_from 2 demo_stream = l1 ++ e :: l2 /\
        run Apply l1 (p_rm demo_behind) = Ok (p_rm p') /\ Apply e (p_rm p') = Err err /\ p_checkpoint p' < ev_Sequence e
    end /\
    ((forall e rm err, e ∈ events_from 2 demo_stream -> Apply (OT := no_other_tables) e rm <> Err err) -> res = Ok tt).
Proof.
  apply (ProjectCatchUp_converges demo_stream demo_behind [demo_create] [demo_issue] [demo_issue; demo_issue]).
  - vm_compute. discriminate.
  - vm_compute. reflexivity.
  - vm_compute. reflexivity.
  - split; intros k _.
    + split; [|exact I]. intros <-. vm_compute. eauto.
    + exists 0. repeat constructor.
  - repeat constructor.
  - split_and!; vm_compute; reflexivity.
Defined.

(** The tenant registers, creates an identity and leaves, then registers again and
    creates the identity anew: the rebuilt tables hold only what came since. *)
Definition demo_returned : Stream :=
  demo_append "e6" (demo_event "identity.issued"
      [("identity_id", JStr "i1"); ("from", JStr "requested"); ("to", JStr "issued")])
    (demo_append "e5" demo_created
    (demo_append "e4" (demo_event "tenant.registered" [("name", JStr "again")])
    (demo_append "e3" (demo_event "tenant.offboarded" [("rows_deleted", JNum 2)])
    (demo_append "e2" demo_created
    (demo_append "e1" (demo_event "tenant.registered" [("name", JStr "first")]) ListStream.empty))))).

Example Rebuild_returned :
  let r := Rebuild demo_returned demo_behind in
  r.1 = Ok tt /\ p_checkpoint r.2 = 6 /\
  rm_tenants (p_rm r.2) !! "t1" = Some ("again", 4) /\
  rm_identities (p_rm r.2) !! ("t1", "i1") = Some (mkIdentity "x509_certificate" "o1" None "issued" 77) /\
  size (rm_transitions (p_rm r.2)) = 1%nat.
Proof. vm_compute. split_and!; reflexivity. Qed.

End Projections.
