(* ===== verification/KeyCeremony.v ===== *)
(** * Key ceremonies and CA authorities: the tables

    Models [src/internal/store/ca.go]: the rows of CA authorities, of key
    ceremonies and of their approvals, with every statement on them, and the
    cases of [src/internal/projections/projections.go] that project the four CA
    events into these tables.  A table is a [gmap] by its primary key; a statement
    that selects by tenant and id finds a row only when its tenant column agrees.
    [now] is the clock of the database or of the process, as the code has it. *)

From S2P Require Import Prelude Json Tenancy Events Projections ReadModel.
Open Scope string_scope.
Open Scope list_scope.
Open Scope Z_scope.

Module KeyCeremony.
Import Tenancy Events Projections.

(** ** Rows *)

Record CAAuthority := mkCA {
  ca_ID : string;
  ca_TenantID : string;
  ca_ParentID : option string;
  ca_CommonName : string;
  ca_Kind : string;
  ca_Status : string;
  ca_CertificatePEM : string;
  ca_SignerHandle : string;
  ca_Serial : string;
  ca_NotAfter : Z;
  ca_MaxPathLen : Z;
  ca_PermittedDNSNames : list string;
  ca_EKUs : list string;
  ca_ReplacesID : option string;
  ca_CreatedAt : Z
}.

(** A row of [ca_key_ceremonies]. *)
Record CeremonyRow := mkCeremonyRow {
  cr_TenantID : string;
  cr_Purpose : string;
  cr_Threshold : Z;
  cr_Status : string;
  cr_Opener : string;
  cr_CreatedAt : Z
}.

(** A row of [ca_ceremony_approvals]; without its event it is only reserved. *)
Record ApprovalRow := mkApprovalRow {
  ar_at : Z;
  ar_event : option string;
  ar_seq : option Z
}.

(** A ceremony as it is read, with the count of its evidenced approvals. *)
Record KeyCeremony := mkKeyCeremony {
  kc_ID : string;
  kc_TenantID : string;
  kc_Purpose : string;
  kc_Threshold : Z;
  kc_Status : string;
  kc_Approvals : Z;
  kc_Opener : string;
  kc_CreatedAt : Z
}.

Record CADB := mkCADB {
  db_authorities : gmap string CAAuthority;
  db_ceremonies : gmap string CeremonyRow;
  db_approvals : gmap (string * string * string) ApprovalRow
}.

Definition empty_db : CADB := mkCADB ∅ ∅ ∅.

Definition with_authorities (f : gmap string CAAuthority -> gmap string CAAuthority) (db : CADB) : CADB :=
  mkCADB (f (db_authorities db)) (db_ceremonies db) (db_approvals db).
Definition with_ceremonies (f : gmap string CeremonyRow -> gmap string CeremonyRow) (db : CADB) : CADB :=
  mkCADB (db_authorities db) (f (db_ceremonies db)) (db_approvals db).
Definition with_approvals (f : gmap (string * string * string) ApprovalRow -> gmap (string * string * string) ApprovalRow)
    (db : CADB) : CADB :=
  mkCADB (db_authorities db) (db_ceremonies db) (f (db_approvals db)).

Inductive CAErr :=
| ErrNoRows
| ErrAnonymousApproval
| ErrSelfApproval
| ErrKeyCeremonyNotPending
| ErrKeyCeremonyPurposeMismatch
| ErrKeyCeremonyQuorumNotMet
| ErrEvidenceRequired
| ErrUnique
| ErrNotNull
| ErrForeignKey
| ErrIncompleteEvent (type : string)
| ErrProjection (e : projError)
| ErrLog (e : evError)
| ErrTx
| ErrCAHierarchyInvalid (msg : string)
| ErrCAHierarchyConflict (msg : string)
| ErrCAHierarchyUnavailable
| ErrConflict (e : CAErr)
| ErrCANotLoaded (id : string)
| ErrCrypto (msg : string).

Definition str_default (d s : string) : string := if String.eqb s "" then d else s.

(** ** Authorities *)

Definition in_tenant (tenantID : string) (c : CAAuthority) : bool := String.eqb (ca_TenantID c) tenantID.

Definition find_authority (tenantID id : string) (db : CADB) : option CAAuthority :=
  match db_authorities db !! id with
  | Some c => if in_tenant tenantID c then Some c else None
  | None => None
  end.

(** The constraints of the table on a row that is written: the serial is not
    null, a signer handle is unique in its tenant, parent and predecessor are rows
    of the tenant. *)
Definition handle_taken (c : CAAuthority) (db : CADB) : bool :=
  negb (String.eqb (ca_SignerHandle c) "")
  && existsb (fun p => negb (String.eqb p.1 (ca_ID c)) && in_tenant (ca_TenantID c) p.2
                       && String.eqb (ca_SignerHandle p.2) (ca_SignerHandle c)) (map_to_list (db_authorities db)).

Definition reference_ok (tenantID : string) (ref : option string) (db : CADB) : bool :=
  match ref with
  | None => true
  | Some id => bool_decide (is_Some (find_authority tenantID id db))
  end.

Definition constraint_error (c : CAAuthority) (db : CADB) : option CAErr :=
  if String.eqb (ca_Serial c) "" then Some ErrNotNull
  else if handle_taken c db then Some ErrUnique
  else if negb (reference_ok (ca_TenantID c) (ca_ParentID c) db && reference_ok (ca_TenantID c) (ca_ReplacesID c) db)
  then Some ErrForeignKey
  else None.

(** [newID] is the generated id, which the primary key wants new, [now] the
    default of [created_at]. *)
Definition InsertCAAuthorityTx (newID : string) (now : Z) (c : CAAuthority) (db : CADB)
  : result CAErr (CAAuthority * CADB) :=
  let c := mkCA newID (ca_TenantID c) (ca_ParentID c) (ca_CommonName c) (ca_Kind c)
             (str_default "active" (ca_Status c)) (ca_CertificatePEM c) (ca_SignerHandle c) (ca_Serial c)
             (ca_NotAfter c) (ca_MaxPathLen c) (ca_PermittedDNSNames c) (ca_EKUs c) (ca_ReplacesID c) now in
  match db_authorities db !! newID, constraint_error c db with
  | Some _, _ => Err ErrUnique
  | None, Some e => Err e
  | None, None => Ok (c, with_authorities <[newID := c]> db)
  end.

Definition GetCAAuthority (tenantID id : string) (db : CADB) : result CAErr CAAuthority :=
  match find_authority tenantID id db with
  | Some c => Ok c
  | None => Err ErrNoRows
  end.

Definition GetCAAuthorityForUpdateTx (tenantID id : string) (db : CADB) : result CAErr CAAuthority :=
  GetCAAuthority tenantID id db.

(** [ORDER BY created_at DESC, id DESC LIMIT 1]: whether [a] comes before [b]. *)
Definition newer (a b : CAAuthority) : bool :=
  (ca_CreatedAt b <? ca_CreatedAt a)
  || (ca_CreatedAt a =? ca_CreatedAt b) && String.ltb (ca_ID b) (ca_ID a).

Definition is_successor (tenantID replacesID : string) (c : CAAuthority) : bool :=
  in_tenant tenantID c && String.eqb (ca_Status c) "active"
  && match ca_ReplacesID c with Some r => String.eqb r replacesID | None => false end.

Definition pick_newer (best : option CAAuthority) (c : CAAuthority) : option CAAuthority :=
  match best with
  | Some b => if newer c b then Some c else best
  | None => Some c
  end.

Definition FindActiveCAAuthoritySuccessor (tenantID replacesID : string) (db : CADB) : result CAErr CAAuthority :=
  match fold_left pick_newer
          (List.filter (is_successor tenantID replacesID) (snd <$> map_to_list (db_authorities db))) None with
  | Some c => Ok c
  | None => Err ErrNoRows
  end.

Definition set_ca_status (status : string) (c : CAAuthority) : CAAuthority :=
  mkCA (ca_ID c) (ca_TenantID c) (ca_ParentID c) (ca_CommonName c) (ca_Kind c) status (ca_CertificatePEM c)
    (ca_SignerHandle c) (ca_Serial c) (ca_NotAfter c) (ca_MaxPathLen c) (ca_PermittedDNSNames c) (ca_EKUs c)
    (ca_ReplacesID c) (ca_CreatedAt c).

Definition set_ca_replaces (id : string) (c : CAAuthority) : CAAuthority :=
  mkCA (ca_ID c) (ca_TenantID c) (ca_ParentID c) (ca_CommonName c) (ca_Kind c) (ca_Status c) (ca_CertificatePEM c)
    (ca_SignerHandle c) (ca_Serial c) (ca_NotAfter c) (ca_MaxPathLen c) (ca_PermittedDNSNames c) (ca_EKUs c)
    (Some id) (ca_CreatedAt c).

(** An UPDATE of one authority that must hit one row. *)
Definition update_authority (tenantID id : string) (f : CAAuthority -> CAAuthority) (db : CADB) : result CAErr CADB :=
  match find_authority tenantID id db with
  | None => Err ErrNoRows
  | Some c => Ok (with_authorities <[id := f c]> db)
  end.

Definition SupersedeCAAuthorityTx (tenantID id : string) (db : CADB) : result CAErr CADB :=
  update_authority tenantID id (set_ca_status "superseded") db.

Definition ApplyCAAuthorityRotatedTx (tenantID predecessorID successorID : string) (db : CADB) : result CAErr CADB :=
  let? db := update_authority tenantID predecessorID (set_ca_status "superseded") db in
  update_authority tenantID successorID (set_ca_replaces predecessorID) db.

(** The upsert of the successor leaves a row of another tenant with its id
    alone, which then counts as no row. *)
Definition ApplyCAAuthorityRekeyedTx (now : Z) (successor : CAAuthority) (predecessorID : string) (db : CADB)
  : result CAErr CADB :=
  let created := if ca_CreatedAt successor =? 0 then now else ca_CreatedAt successor in
  let replaces := match ca_ReplacesID successor with Some r => r | None => predecessorID end in
  let? db := update_authority (ca_TenantID successor) predecessorID (set_ca_status "superseded") db in
  let row := mkCA (ca_ID successor) (ca_TenantID successor) (ca_ParentID successor) (ca_CommonName successor)
               (ca_Kind successor) (str_default "active" (ca_Status successor)) (ca_CertificatePEM successor)
               (ca_SignerHandle successor) (ca_Serial successor) (ca_NotAfter successor) (ca_MaxPathLen successor)
               (ca_PermittedDNSNames successor) (ca_EKUs successor) (Some replaces) created in
  match constraint_error row db with
  | Some e => Err e
  | None =>
      match db_authorities db !! ca_ID successor with
      | Some old =>
          if in_tenant (ca_TenantID successor) old then Ok (with_authorities <[ca_ID successor := row]> db)
          else Err ErrNoRows
      | None => Ok (with_authorities <[ca_ID successor := row]> db)
      end
  end.

(** ** Ceremonies *)

Definition find_ceremony (tenantID id : string) (db : CADB) : option CeremonyRow :=
  match db_ceremonies db !! id with
  | Some c => if String.eqb (cr_TenantID c) tenantID then Some c else None
  | None => None
  end.

(** The custodians whose approval of a ceremony has its event. *)
Definition evidenced (tenantID id : string) (p : string * string * string * ApprovalRow) : bool :=
  String.eqb p.1.1.1 tenantID && String.eqb p.1.1.2 id && bool_decide (is_Some (ar_event p.2)).

Definition custodians (tenantID id : string) (db : CADB) : list string :=
  (fun p => p.1.2) <$> List.filter (evidenced tenantID id) (map_to_list (db_approvals db)).

Definition approval_count (tenantID id : string) (db : CADB) : Z :=
  Z.of_nat (length (custodians tenantID id db)).

Definition CreateKeyCeremony (newID : string) (now : Z) (tenantID purpose opener : string) (threshold : Z) (db : CADB)
  : result CAErr (string * CADB) :=
  match db_ceremonies db !! newID with
  | Some _ => Err ErrUnique
  | None => Ok (newID, with_ceremonies <[newID := mkCeremonyRow tenantID purpose threshold "pending" opener now]> db)
  end.

(** [ON CONFLICT (id) DO NOTHING]. *)
Definition ApplyKeyCeremonyStartedTx (now : Z) (c : KeyCeremony) (db : CADB) : CADB :=
  match db_ceremonies db !! kc_ID c with
  | Some _ => db
  | None =>
      let created := if kc_CreatedAt c =? 0 then now else kc_CreatedAt c in
      with_ceremonies
        <[kc_ID c := mkCeremonyRow (kc_TenantID c) (kc_Purpose c) (kc_Threshold c)
                       (str_default "pending" (kc_Status c)) (kc_Opener c) created]> db
  end.

Definition KeyCeremonyApprovalEvidenced (tenantID ceremonyID custodian : string) (db : CADB) : bool :=
  match db_approvals db !! (tenantID, ceremonyID, custodian) with
  | Some r => bool_decide (is_Some (ar_event r))
  | None => false
  end.

(** The unique index on [(tenant_id, approval_event_id)]. *)
Definition event_taken (key : string * string * string) (eventID : string) (db : CADB) : bool :=
  existsb (fun p => String.eqb p.1.1.1 key.1.1 && negb (bool_decide (p.1 = key))
                    && bool_decide (ar_event p.2 = Some eventID)) (map_to_list (db_approvals db)).

Definition ApplyKeyCeremonyApprovedTx (now : Z) (tenantID ceremonyID custodian eventID : string) (eventSequence approvedAt : Z)
    (db : CADB) : result CAErr CADB :=
  if String.eqb custodian "" then Err ErrAnonymousApproval else
  if String.eqb eventID "" || (eventSequence =? 0) then Err ErrEvidenceRequired else
  let approvedAt := if approvedAt =? 0 then now else approvedAt in
  match find_ceremony tenantID ceremonyID db with
  | None => Err ErrNoRows
  | Some c =>
      let key := (tenantID, ceremonyID, custodian) in
      if negb (String.eqb (cr_Status c) "pending") then
        match db_approvals db !! key with
        | Some (mkApprovalRow _ (Some e) (Some q)) =>
            if String.eqb e eventID && (0 <=? q) && (q =? eventSequence) then Ok db
            else Err ErrKeyCeremonyNotPending
        | _ => Err ErrKeyCeremonyNotPending
        end
      else if negb (String.eqb (cr_Opener c) "") && String.eqb (cr_Opener c) custodian then Err ErrSelfApproval
      else
        let row :=
          match db_approvals db !! key with
          | Some old =>
              mkApprovalRow (ar_at old)
                (match ar_event old with Some e => Some e | None => Some eventID end)
                (match ar_seq old with Some q => Some q | None => Some eventSequence end)
          | None => mkApprovalRow approvedAt (Some eventID) (Some eventSequence)
          end in
        if bool_decide (ar_event row = Some eventID) && event_taken key eventID db then Err ErrUnique
        else Ok (with_approvals <[key := row]> db)
  end.

Definition ReserveKeyCeremonyApproval (now : Z) (tenantID ceremonyID custodian : string) (db : CADB)
  : result CAErr (Z * bool) * CADB :=
  if String.eqb custodian "" then (Err ErrAnonymousApproval, db) else
  match find_ceremony tenantID ceremonyID db with
  | None => (Err ErrNoRows, db)
  | Some c =>
      if negb (String.eqb (cr_Status c) "pending") then (Err ErrKeyCeremonyNotPending, db)
      else if negb (String.eqb (cr_Opener c) "") && String.eqb (cr_Opener c) custodian then (Err ErrSelfApproval, db)
      else
        let key := (tenantID, ceremonyID, custodian) in
        let db := match db_approvals db !! key with
                  | Some _ => db
                  | None => with_approvals <[key := mkApprovalRow now None None]> db
                  end in
        (Ok (approval_count tenantID ceremonyID db,
             negb (KeyCeremonyApprovalEvidenced tenantID ceremonyID custodian db)), db)
  end.

Definition AttachKeyCeremonyApprovalEvidence (tenantID ceremonyID custodian eventID : string) (eventSequence : Z) (db : CADB)
  : result CAErr Z * CADB :=
  if String.eqb eventID "" || (eventSequence =? 0) then (Err ErrEvidenceRequired, db) else
  let key := (tenantID, ceremonyID, custodian) in
  match db_approvals db !! key with
  | None => (Err ErrKeyCeremonyQuorumNotMet, db)
  | Some old =>
      let row := mkApprovalRow (ar_at old)
                   (match ar_event old with Some e => Some e | None => Some eventID end)
                   (match ar_seq old with Some q => Some q | None => Some eventSequence end) in
      if bool_decide (ar_event row = Some eventID) && event_taken key eventID db then (Err ErrUnique, db) else
      let db := with_approvals <[key := row]> db in
      (Ok (approval_count tenantID ceremonyID db), db)
  end.

Definition read_ceremony (tenantID id : string) (c : CeremonyRow) (db : CADB) : KeyCeremony :=
  mkKeyCeremony id (cr_TenantID c) (cr_Purpose c) (cr_Threshold c) (cr_Status c)
    (approval_count tenantID id db) (cr_Opener c) (cr_CreatedAt c).

Definition GetKeyCeremony (tenantID id : string) (db : CADB) : result CAErr KeyCeremony :=
  match find_ceremony tenantID id db with
  | Some c => Ok (read_ceremony tenantID id c db)
  | None => Err ErrNoRows
  end.

Definition set_completed (c : CeremonyRow) : CeremonyRow :=
  mkCeremonyRow (cr_TenantID c) (cr_Purpose c) (cr_Threshold c) "completed" (cr_Opener c) (cr_CreatedAt c).

Definition CompleteKeyCeremony (tenantID id : string) (db : CADB) : result CAErr CADB :=
  match find_ceremony tenantID id db with
  | Some c =>
      if String.eqb (cr_Status c) "pending" then Ok (with_ceremonies <[id := set_completed c]> db)
      else Err ErrKeyCeremonyNotPending
  | None => Err ErrKeyCeremonyNotPending
  end.

(** The row is locked from the SELECT to the UPDATE. *)
Definition ConsumeKeyCeremonyTx (tenantID id expectedPurpose : string) (db : CADB)
  : result CAErr (KeyCeremony * CADB) :=
  match find_ceremony tenantID id db with
  | None => Err ErrNoRows
  | Some row =>
      let c := read_ceremony tenantID id row db in
      if negb (String.eqb (kc_Status c) "pending") then Err ErrKeyCeremonyNotPending
      else if negb (String.eqb (kc_Purpose c) expectedPurpose) then Err ErrKeyCeremonyPurposeMismatch
      else if kc_Approvals c <? kc_Threshold c then Err ErrKeyCeremonyQuorumNotMet
      else Ok (mkKeyCeremony (kc_ID c) (kc_TenantID c) (kc_Purpose c) (kc_Threshold c) "completed"
                 (kc_Approvals c) (kc_Opener c) (kc_CreatedAt c),
               with_ceremonies <[id := set_completed row]> db)
  end.

(** ** Projection of the CA events *)

Definition CACeremonyStarted_fields : list field := [
  mkField "ceremony_id" KStr false; mkField "purpose" KStr false; mkField "threshold" KInt false;
  mkField "opener" KStr true].

Definition CACeremonyApproved_fields : list field := [
  mkField "ceremony_id" KStr false; mkField "custodian" KStr false; mkField "approvals" KInt true].

Definition CAAuthorityRotated_fields : list field := [
  mkField "predecessor_ca_id" KStr false; mkField "successor_ca_id" KStr false; mkField "reason" KStr true;
  mkField "issue_path" KStr true; mkField "active_issue_path" KStr true].

(** The times of the payload are numbers here. *)
Definition CAAuthorityRekeyed_fields : list field := [
  mkField "id" KStr false; mkField "predecessor_ca_id" KStr false; mkField "parent_id" KPtrStr true;
  mkField "common_name" KStr false; mkField "kind" KStr false; mkField "certificate_pem" KStr false;
  mkField "signer_handle" KStr false; mkField "serial" KStr false; mkField "not_after" KInt false;
  mkField "max_path_len" KInt false; mkField "permitted_dns_names" KStrs true;
  mkField "extended_key_usages" KStrs true; mkField "ceremony_id" KStr false; mkField "reason" KStr true;
  mkField "issue_path" KStr true; mkField "active_issue_path" KStr true].

Definition int_at (vs : svals) (i : nat) : Z := match vs !! i with Some (VInt n) => n | _ => 0 end.
Definition strs_at (vs : svals) (i : nat) : list string := match vs !! i with Some (VStrs l) => l | _ => [] end.
Definition ptr_at (vs : svals) (i : nat) : option string := match vs !! i with Some (VPtrStr s) => s | _ => None end.

Definition EventCACeremonyStarted : string := "ca.ceremony.started".
Definition EventCACeremonyApproved : string := "ca.ceremony.approved".
Definition EventCAAuthorityRotated : string := "ca.authority.rotated".
Definition EventCAAuthorityRekeyed : string := "ca.authority.rekeyed".

Definition empty_str (s : string) : bool := String.eqb s "".

Definition apply_started (now : Z) (e : Event) (db : CADB) : result CAErr CADB :=
  match decode_struct CACeremonyStarted_fields (ev_Data e) with
  | None => Err (ErrProjection (DecodeError (ev_Type e)))
  | Some pl =>
      if empty_str (str_at pl 0) || empty_str (str_at pl 1) || (int_at pl 2 <? 1)
      then Err (ErrIncompleteEvent (ev_Type e)) else
      Ok (ApplyKeyCeremonyStartedTx now
            (mkKeyCeremony (str_at pl 0) (ev_TenantID e) (str_at pl 1) (int_at pl 2) "pending" 0 (str_at pl 3) (ev_Time e)) db)
  end.

Definition apply_approved (now : Z) (e : Event) (db : CADB) : result CAErr CADB :=
  match decode_struct CACeremonyApproved_fields (ev_Data e) with
  | None => Err (ErrProjection (DecodeError (ev_Type e)))
  | Some pl =>
      if empty_str (str_at pl 0) || empty_str (str_at pl 1) then Err (ErrIncompleteEvent (ev_Type e)) else
      ApplyKeyCeremonyApprovedTx now (ev_TenantID e) (str_at pl 0) (str_at pl 1) (ev_ID e) (ev_Sequence e) (ev_Time e) db
  end.

Definition apply_rotated (e : Event) (db : CADB) : result CAErr CADB :=
  match decode_struct CAAuthorityRotated_fields (ev_Data e) with
  | None => Err (ErrProjection (DecodeError (ev_Type e)))
  | Some pl =>
      if empty_str (str_at pl 0) || empty_str (str_at pl 1) then Err (ErrIncompleteEvent (ev_Type e)) else
      ApplyCAAuthorityRotatedTx (ev_TenantID e) (str_at pl 0) (str_at pl 1) db
  end.

Definition apply_rekeyed (now : Z) (e : Event) (db : CADB) : result CAErr CADB :=
  match decode_struct CAAuthorityRekeyed_fields (ev_Data e) with
  | None => Err (ErrProjection (DecodeError (ev_Type e)))
  | Some pl =>
      if empty_str (str_at pl 0) || empty_str (str_at pl 1) || empty_str (str_at pl 3) || empty_str (str_at pl 4)
         || empty_str (str_at pl 5) || empty_str (str_at pl 6) || empty_str (str_at pl 7) || (int_at pl 8 =? 0)
      then Err (ErrIncompleteEvent (ev_Type e)) else
      ApplyCAAuthorityRekeyedTx now
        (mkCA (str_at pl 0) (ev_TenantID e) (ptr_at pl 2) (str_at pl 3) (str_at pl 4) "active" (str_at pl 5)
           (str_at pl 6) (str_at pl 7) (int_at pl 8) (int_at pl 9) (strs_at pl 10) (strs_at pl 11) None (ev_Time e))
        (str_at pl 1) db
  end.

Definition CAIssuedCertificate_fields : list field := [
  mkField "ca_id" KStr false; mkField "serial" KStr false; mkField "issued_at" KInt true; mkField "source" KStr true].

(** [RecordIssuedCertTx] writes the table of issued serials, which is not one of these;
    a statement that fails is a transaction that does not commit. *)
Definition apply_endentity (e : Event) (db : CADB) : result CAErr CADB :=
  match decode_struct CAIssuedCertificate_fields (ev_Data e) with
  | None => Err (ErrProjection (DecodeError (ev_Type e)))
  | Some pl => if empty_str (str_at pl 0) || empty_str (str_at pl 1) then Err (ErrIncompleteEvent (ev_Type e)) else Ok db
  end.

(** The projector on the CA tables; the other event types leave them alone. *)
Definition apply_ca (now : Z) (e : Event) (db : CADB) : result CAErr CADB :=
  match ValidateSchemaVersion e with
  | Some err => Err (ErrProjection err)
  | None =>
      if String.eqb (ev_Type e) EventCACeremonyStarted then apply_started now e db
      else if String.eqb (ev_Type e) EventCACeremonyApproved then apply_approved now e db
      else if String.eqb (ev_Type e) EventCAAuthorityRotated then apply_rotated e db
      else if String.eqb (ev_Type e) EventCAAuthorityRekeyed then apply_rekeyed now e db
      else if String.eqb (ev_Type e) "ca.endentity.issued" then apply_endentity e db
      else Ok db
  end.

(** A run of the projector over events, one transaction each, stopping at the
    first that is rejected. *)
Fixpoint project_ca (now : Z) (l : list Event) (db : CADB) : result CAErr unit * CADB :=
  match l with
  | [] => (Ok tt, db)
  | e :: l' =>
      match apply_ca now e db with
      | Ok db' => project_ca now l' db'
      | Err err => (Err err, db)
      end
  end.

(** The truncation of the read model on these tables: the authorities are not
    among the tables it empties. *)
Definition truncate_ca (db : CADB) : CADB :=
  mkCADB
    (if ReadModel.mem "ca_authorities" (ReadModel.cascade ReadModel.ReadModelTables) then ∅ else db_authorities db)
    (if ReadModel.mem "ca_key_ceremonies" (ReadModel.cascade ReadModel.ReadModelTables) then ∅ else db_ceremonies db)
    (if ReadModel.mem "ca_ceremony_approvals" (ReadModel.cascade ReadModel.ReadModelTables) then ∅ else db_approvals db).

(** Rebuilding from the whole log, in one transaction. *)
Definition rebuild_ca (now : Z) (l : list Event) (db : CADB) : result CAErr unit * CADB :=
  match project_ca now l (truncate_ca db) with
  | (Ok _, db') => (Ok tt, db')
  | (Err err, _) => (Err err, db)
  end.

End KeyCeremony.
