(* ===== verification/NameLane.v ===== *)
(** * Name lanes: which names a leaf may carry

    Models the SAN policy of [src/internal/crypto/leafca.go] (the profile of a leaf
    and its enforcement on a request), the binding of a certificate profile in
    [src/internal/server/profile_binding.go], and the two places where the lane of
    a CA is folded into a profile: [applyAuthorityLane] of
    [src/internal/server/ca_hierarchy.go] and [applyCALane] with [intersectDNS] of
    [src/internal/crypto/ca/hierarchy.go].

    [enforceLeafProfile_decides] says that the enforcement is the documented
    policy; [lane_meet] that the served lane is the meet of the two lists of
    suffixes while they overlap; [disjoint_lanes_unconstrained] that lanes without
    overlap give no constraint at all. *)

From S2P Require Import Prelude KeyCeremony.
Open Scope string_scope.
Open Scope list_scope.
Open Scope Z_scope.

Module NameLane.
Import KeyCeremony.

(** [net.ParseCIDR], [IPNet.Contains], [IP.String] on what is parsed, and the
    Unicode part of [strings.ToLower]; nothing is assumed of them. *)
Class NetOps := {
  IP : Type;
  IPNet : Type;
  ParseCIDR : string -> option IPNet;
  Contains : IPNet -> IP -> bool;
  LowerUnicode : string -> string
}.

(** ** Profiles *)

Record KeyUsages := mkKeyUsages {
  DigitalSignature : bool;
  KeyEncipherment : bool;
  KeyAgreement : bool;
  DataEncipherment : bool
}.

Record CertificateExtension := mkExtension { ext_OID : string; ext_Critical : bool; ext_Value : string }.

(** Durations are in nanoseconds. *)
Record LeafProfile := mkLeafProfile {
  CRLDistributionPoints : list string;
  OCSPServers : list string;
  IssuingCertificateURL : list string;
  CertificatePolicyOIDs : list string;
  ExtraExtensions : list CertificateExtension;
  MaxValidity : Z;
  AllowedKeyUsages : option KeyUsages;
  AllowedExtKeyUsage : list string;
  PermittedDNSSuffixes : list string;
  PermittedIPCIDRs : list string;
  PermittedEmailDomains : list string;
  PermittedURIPrefixes : list string
}.

Definition with_dns (l : list string) (p : LeafProfile) : LeafProfile :=
  mkLeafProfile (CRLDistributionPoints p) (OCSPServers p) (IssuingCertificateURL p) (CertificatePolicyOIDs p)
    (ExtraExtensions p) (MaxValidity p) (AllowedKeyUsages p) (AllowedExtKeyUsage p) l (PermittedIPCIDRs p)
    (PermittedEmailDomains p) (PermittedURIPrefixes p).

Definition with_ekus (l : list string) (p : LeafProfile) : LeafProfile :=
  mkLeafProfile (CRLDistributionPoints p) (OCSPServers p) (IssuingCertificateURL p) (CertificatePolicyOIDs p)
    (ExtraExtensions p) (MaxValidity p) (AllowedKeyUsages p) l (PermittedDNSSuffixes p) (PermittedIPCIDRs p)
    (PermittedEmailDomains p) (PermittedURIPrefixes p).

Definition containsString (xs : list string) (want : string) : bool := existsb (fun x => String.eqb x want) xs.

(** The key usage as the bits of [x509.KeyUsage]. *)
Definition leafKeyUsage (u : option KeyUsages) : Z :=
  match u with
  | None => Z.lor 1 4
  | Some u =>
      let ku := 0 in
      let ku := if DigitalSignature u then Z.lor ku 1 else ku in
      let ku := if KeyEncipherment u then Z.lor ku 4 else ku in
      let ku := if KeyAgreement u then Z.lor ku 16 else ku in
      let ku := if DataEncipherment u then Z.lor ku 8 else ku in
      if ku =? 0 then 1 else ku
  end.

Definition leafKeyUsageForProfile (prof : LeafProfile) : Z :=
  match AllowedKeyUsages prof with
  | Some u => leafKeyUsage (Some u)
  | None =>
      match AllowedExtKeyUsage prof with
      | _ :: _ => if containsString (AllowedExtKeyUsage prof) "serverAuth" then leafKeyUsage None else 1
      | [] => leafKeyUsage None
      end
  end.

(** ** Names *)

Definition trimLeadingDot (s : string) : string := GoStrings.TrimPrefix s ".".

Definition hasDotSuffix (name suffix : string) : bool := GoStrings.HasSuffix name ("." +:+ suffix).

(** [strings.LastIndex] for one byte, with the index counted from [i]. *)
Fixpoint last_index (c : ascii) (l : list ascii) (i : Z) (found : Z) : Z :=
  match l with
  | [] => found
  | a :: l' => last_index c l' (i + 1) (if Ascii.eqb a c then i else found)
  end.

Definition slice_from (s : string) (n : Z) : string :=
  string_of_list_ascii (drop (Z.to_nat n) (list_ascii_of_string s)).

Section Names.
Context {N : NetOps}.

Definition ToLower (s : string) : string := GoStrings.ToLower LowerUnicode s.

(** What the predicate compares: the name and the suffix without spaces, case
    and a trailing dot. *)
Definition norm_name (name : string) : string := GoStrings.TrimSuffix (ToLower (GoStrings.TrimSpace name)) ".".
Definition norm_suffix (suf : string) : string :=
  GoStrings.TrimSuffix (ToLower (GoStrings.TrimSpace (trimLeadingDot suf))) ".".

Fixpoint dns_loop (name : string) (suffixes : list string) : bool :=
  match suffixes with
  | [] => false
  | suf :: rest =>
      let suf := norm_suffix suf in
      if String.eqb suf "" then dns_loop name rest
      else if String.eqb name suf || hasDotSuffix name suf then true
      else dns_loop name rest
  end.

Definition dnsSuffixPermitted (name : string) (suffixes : list string) : bool := dns_loop (norm_name name) suffixes.

Definition emailDomainPermitted (email : string) (domains : list string) : bool :=
  let at_ := last_index "@"%char (list_ascii_of_string email) 0 (-1) in
  if (at_ <=? 0) || (at_ =? Z.of_nat (String.length email) - 1) then false
  else dnsSuffixPermitted (slice_from email (at_ + 1)) domains.

Fixpoint uriPrefixPermitted (uri : string) (prefixes : list string) : bool :=
  match prefixes with
  | [] => false
  | prefix :: rest =>
      let prefix := GoStrings.TrimSpace prefix in
      if negb (String.eqb prefix "") && GoStrings.HasPrefix uri prefix then true else uriPrefixPermitted uri rest
  end.

Fixpoint parseLeafCIDRs (cidrs : list string) : option (list IPNet) :=
  match cidrs with
  | [] => Some []
  | raw :: rest =>
      match ParseCIDR (GoStrings.TrimSpace raw) with
      | None => None
      | Some network =>
          match parseLeafCIDRs rest with
          | Some out => Some (network :: out)
          | None => None
          end
      end
  end.

Definition ipInCIDRs (ip : IP) (cidrs : list IPNet) : bool := existsb (fun network => Contains network ip) cidrs.

(** ** Enforcement *)

(** The SANs of a parsed request. *)
Record Request := mkRequest {
  DNSNames : list string;
  IPAddresses : list IP;
  EmailAddresses : list string;
  URIs : list string
}.

Inductive SANKind := SanDNS | SanIP | SanEmail | SanURI.

Inductive leafProfileError :=
| ValidityExceeds
| InvalidCIDR
| NotPermitted (k : SANKind)
| OutsidePermitted (k : SANKind).

Definition leafSANPolicyConfigured (prof : LeafProfile) : bool :=
  (0 <? Z.of_nat (length (PermittedDNSSuffixes prof)) + Z.of_nat (length (PermittedIPCIDRs prof))
        + Z.of_nat (length (PermittedEmailDomains prof)) + Z.of_nat (length (PermittedURIPrefixes prof))).

(** The loop over the SANs of one kind: [allow] is its allow-list. *)
Fixpoint check_sans {A} (k : SANKind) (sanPolicy : bool) (allow : list string) (permitted : A -> bool) (sans : list A)
  : option leafProfileError :=
  match sans with
  | [] => None
  | san :: rest =>
      match allow with
      | [] => if sanPolicy then Some (NotPermitted k) else check_sans k sanPolicy allow permitted rest
      | _ => if negb (permitted san) then Some (OutsidePermitted k) else check_sans k sanPolicy allow permitted rest
      end
  end.

Definition enforceLeafProfile (csr : Request) (ttl : Z) (prof : LeafProfile) : option leafProfileError :=
  if (0 <? MaxValidity prof) && (MaxValidity prof <? ttl) then Some ValidityExceeds else
  let sanPolicy := leafSANPolicyConfigured prof in
  match parseLeafCIDRs (PermittedIPCIDRs prof) with
  | None => Some InvalidCIDR
  | Some cidrs =>
      match check_sans SanDNS sanPolicy (PermittedDNSSuffixes prof)
              (fun name => dnsSuffixPermitted name (PermittedDNSSuffixes prof)) (DNSNames csr) with
      | Some e => Some e
      | None =>
          match check_sans SanIP sanPolicy (PermittedIPCIDRs prof) (fun ip => ipInCIDRs ip cidrs) (IPAddresses csr) with
          | Some e => Some e
          | None =>
              match check_sans SanEmail sanPolicy (PermittedEmailDomains prof)
                      (fun email => emailDomainPermitted email (PermittedEmailDomains prof)) (EmailAddresses csr) with
              | Some e => Some e
              | None =>
                  check_sans SanURI sanPolicy (PermittedURIPrefixes prof)
                    (fun uri => uriPrefixPermitted uri (PermittedURIPrefixes prof)) (URIs csr)
              end
          end
      end
  end.

(** ** The served lane *)

Definition dnsSuffixWithin (name suffix : string) : bool :=
  let name := GoStrings.TrimPrefix (ToLower name) "." in
  let suffix := GoStrings.TrimPrefix (ToLower suffix) "." in
  String.eqb name suffix || GoStrings.HasSuffix name ("." +:+ suffix).

Definition longer (x y : string) : string := if (String.length y <=? String.length x)%nat then x else y.

Definition intersect_one (x : string) (b : list string) : list string :=
  flat_map (fun y => if dnsSuffixWithin x y || dnsSuffixWithin y x then [longer x y] else []) b.

Definition intersectDNSSuffixes (a b : list string) : list string := flat_map (fun x => intersect_one x b) a.

Definition applyAuthorityLane (profile : LeafProfile) (ca : CAAuthority) : LeafProfile :=
  let profile :=
    match ca_PermittedDNSNames ca with
    | [] => profile
    | _ =>
        match PermittedDNSSuffixes profile with
        | [] => with_dns (ca_PermittedDNSNames ca) profile
        | _ => with_dns (intersectDNSSuffixes (PermittedDNSSuffixes profile) (ca_PermittedDNSNames ca)) profile
        end
    end in
  match AllowedExtKeyUsage profile, ca_EKUs ca with
  | [], _ :: _ => with_ekus (ca_EKUs ca) profile
  | _, _ => profile
  end.

(** ** The lane of the library CA *)

Fixpoint dnsPermitted (name : string) (permitted : list string) : bool :=
  match permitted with
  | [] => false
  | p :: rest =>
      let p := GoStrings.TrimPrefix p "." in
      if String.eqb name p || GoStrings.HasSuffix name ("." +:+ p) then true else dnsPermitted name rest
  end.

Definition containsFold (set : list string) (v : string) : bool :=
  let v := GoStrings.TrimPrefix v "." in
  existsb (fun s => String.eqb (GoStrings.TrimPrefix s ".") v) set.

Definition intersectDNS (target signer : list string) : list string :=
  match signer with
  | [] => target
  | _ =>
      match target with
      | [] => signer
      | _ => List.filter (fun t => dnsPermitted (GoStrings.TrimPrefix t ".") signer || containsFold signer t) target
      end
  end.

(** [ekus] are the names [ekuStrings] gives for the CA. *)
Definition applyCALane (permittedDNS ekus : list string) (prof : LeafProfile) : LeafProfile :=
  let prof :=
    match permittedDNS with
    | [] => prof
    | _ =>
        match PermittedDNSSuffixes prof with
        | [] => with_dns permittedDNS prof
        | _ => with_dns (intersectDNS (PermittedDNSSuffixes prof) permittedDNS) prof
        end
    end in
  match AllowedExtKeyUsage prof with
  | [] => match ekus with [] => prof | _ => with_ekus ekus prof end
  | _ => prof
  end.

(** ** The profile of a tenant *)

(** The fields of [profile.CertificateProfile] that are bound. *)
Record CertificateProfile := mkCertificateProfile {
  cp_MaxValidity : Z;
  cp_AllowedDNSSuffixes : list string;
  cp_AllowedIPCIDRs : list string;
  cp_AllowedEmailDomains : list string;
  cp_AllowedURIPrefixes : list string
}.

Definition intendedProfileEKUs (requested allowed : list string) : list string :=
  match requested with [] => allowed | _ => requested end.

Definition narrow (out allowed : list string) : list string :=
  match allowed, out with
  | _ :: _, [] => allowed
  | _, _ => out
  end.

Definition leafProfileForCertificateProfile (base : LeafProfile) (prof : CertificateProfile) (intendedEKUs : list string)
  : LeafProfile :=
  mkLeafProfile (CRLDistributionPoints base) (OCSPServers base) (IssuingCertificateURL base) (CertificatePolicyOIDs base)
    (ExtraExtensions base)
    (if (0 <? cp_MaxValidity prof) && ((MaxValidity base =? 0) || (cp_MaxValidity prof <? MaxValidity base))
     then cp_MaxValidity prof else MaxValidity base)
    (AllowedKeyUsages base)
    (match intendedEKUs with [] => AllowedExtKeyUsage base | _ => intendedEKUs end)
    (narrow (PermittedDNSSuffixes base) (cp_AllowedDNSSuffixes prof))
    (narrow (PermittedIPCIDRs base) (cp_AllowedIPCIDRs prof))
    (narrow (PermittedEmailDomains base) (cp_AllowedEmailDomains prof))
    (narrow (PermittedURIPrefixes base) (cp_AllowedURIPrefixes prof)).

Definition profileDNSNames (requested fallback : list string) : list string :=
  match requested with [] => fallback | _ => requested end.

(** ** The policy *)

(** What a profile says of the SANs of one kind: without any allow-list nothing is
    constrained; otherwise a SAN needs the allow-list of its kind. *)
Definition san_allowed (prof : LeafProfile) (allow : list string) (permitted : Prop) : Prop :=
  (allow <> [] /\ permitted) \/
  (PermittedDNSSuffixes prof = [] /\ PermittedIPCIDRs prof = [] /\ PermittedEmailDomains prof = [] /\
   PermittedURIPrefixes prof = []).

(** A name is at or below one of the suffixes, without case, spaces around it, a
    leading dot of the suffix and trailing dots. *)
Definition dns_below (name : string) (suffixes : list string) : Prop :=
  exists suf, suf ∈ suffixes /\ norm_suffix suf <> "" /\
    (norm_name name = norm_suffix suf \/ GoStrings.HasSuffix (norm_name name) ("." +:+ norm_suffix suf) = true).

Definition uri_below (uri : string) (prefixes : list string) : Prop :=
  exists p, p ∈ prefixes /\ GoStrings.TrimSpace p <> "" /\ GoStrings.HasPrefix uri (GoStrings.TrimSpace p) = true.

Definition policy_allows (csr : Request) (ttl : Z) (prof : LeafProfile) : Prop :=
  (MaxValidity prof <= 0 \/ ttl <= MaxValidity prof) /\
  (forall raw, raw ∈ PermittedIPCIDRs prof -> is_Some (ParseCIDR (GoStrings.TrimSpace raw))) /\
  (forall n, n ∈ DNSNames csr -> san_allowed prof (PermittedDNSSuffixes prof) (dns_below n (PermittedDNSSuffixes prof))) /\
  (forall ip, ip ∈ IPAddresses csr -> san_allowed prof (PermittedIPCIDRs prof)
     (exists raw net, raw ∈ PermittedIPCIDRs prof /\ ParseCIDR (GoStrings.TrimSpace raw) = Some net /\ Contains net ip = true)) /\
  (forall e, e ∈ EmailAddresses csr -> san_allowed prof (PermittedEmailDomains prof)
     (emailDomainPermitted e (PermittedEmailDomains prof) = true)) /\
  (forall u, u ∈ URIs csr -> san_allowed prof (PermittedURIPrefixes prof) (uri_below u (PermittedURIPrefixes prof))).

Lemma dnsSuffixPermitted_spec name l : dnsSuffixPermitted name l = true <-> dns_below name l.
Proof.
  unfold dnsSuffixPermitted, dns_below. induction l as [|suf l IH]; cbn.
  - split; [done|]. intros (s & Hs & _). by apply elem_of_nil in Hs.
  - destruct (String.eqb_spec (norm_suffix suf) "") as [He|He].
    + rewrite IH. split; intros (s & Hs & Hn & H); exists s; (split; [|done]); [by right|].
      apply elem_of_cons in Hs as [->|]; done.
    + destruct (String.eqb_spec (norm_name name) (norm_suffix suf)) as [Hq|Hq]; cbn.
      { split; [intros _|done]. exists suf. split_and!; [by left|done|by left]. }
      destruct (hasDotSuffix (norm_name name) (norm_suffix suf)) eqn:Hd.
      { split; [intros _|done]. exists suf. split_and!; [by left|done|by right]. }
      rewrite IH. split; intros (s & Hs & Hn & H); exists s; (split; [|done]); [by right|].
      apply elem_of_cons in Hs as [->|]; [|done]. unfold hasDotSuffix in Hd. destruct H; congruence.
Qed.

Lemma uriPrefixPermitted_spec uri l : uriPrefixPermitted uri l = true <-> uri_below uri l.
Proof.
  unfold uri_below. induction l as [|p l IH]; cbn.
  - split; [done|]. intros (s & Hs & _). by apply elem_of_nil in Hs.
  - destruct (negb _ && _) eqn:E.
    + apply andb_prop in E as [E1 E2]. apply negb_true_iff, String.eqb_neq in E1. split; [intros _|done]. exists p. by split; [left|].
    + rewrite IH. split; intros (q & Hq & Hn & H); exists q; (split; [|done]); [by right|].
      apply elem_of_cons in Hq as [->|]; [|done]. by rewrite (proj2 (String.eqb_neq _ _) Hn), H in E.
Qed.

Lemma parseLeafCIDRs_spec l :
  match parseLeafCIDRs l with
  | Some nets => Forall2 (fun raw net => ParseCIDR (GoStrings.TrimSpace raw) = Some net) l nets
  | None => exists raw, raw ∈ l /\ ParseCIDR (GoStrings.TrimSpace raw) = None
  end.
Proof.
  induction l as [|raw l IH]; cbn; [constructor|].
  destruct (ParseCIDR (GoStrings.TrimSpace raw)) as [net|] eqn:E; [|exists raw; by split; [left|]].
  destruct (parseLeafCIDRs l) as [nets|]; [by constructor|]. destruct IH as (r & Hr & Hn). exists r. by split; [right|].
Qed.

Lemma ipInCIDRs_spec ip l nets :
  Forall2 (fun raw net => ParseCIDR (GoStrings.TrimSpace raw) = Some net) l nets ->
  ipInCIDRs ip nets = true <->
  exists raw net, raw ∈ l /\ ParseCIDR (GoStrings.TrimSpace raw) = Some net /\ Contains net ip = true.
Proof.
  intros H. unfold ipInCIDRs. rewrite existsb_exists. split.
  - intros (net & Hin & Hc). apply list_elem_of_In, list_elem_of_lookup in Hin as [i Hi].
    destruct (Forall2_lookup_r _ _ _ _ _ H Hi) as (raw & Hr & Hp). exists raw, net. split_and!; [|done..].
    by eapply list_elem_of_lookup_2.
  - intros (raw & net & Hin & Hp & Hc). apply list_elem_of_lookup in Hin as [i Hi].
    destruct (Forall2_lookup_l _ _ _ _ _ H Hi) as (net' & Hn & Hp'). rewrite Hp in Hp'. injection Hp' as <-.
    exists net. split; [|done]. apply list_elem_of_In. by eapply list_elem_of_lookup_2.
Qed.

Lemma list_elem_of_forall_cons {A} (a : A) l (P : A -> Prop) :
  (forall x, x ∈ a :: l -> P x) <-> P a /\ forall x, x ∈ l -> P x.
Proof. setoid_rewrite elem_of_cons. naive_solver. Qed.

Lemma policy_configured prof :
  leafSANPolicyConfigured prof = false <->
  PermittedDNSSuffixes prof = [] /\ PermittedIPCIDRs prof = [] /\ PermittedEmailDomains prof = [] /\ PermittedURIPrefixes prof = [].
Proof.
  unfold leafSANPolicyConfigured. rewrite Z.ltb_ge.
  destruct (PermittedDNSSuffixes prof), (PermittedIPCIDRs prof), (PermittedEmailDomains prof), (PermittedURIPrefixes prof); cbn;
    (split; [intros; split_and!; first [done|lia]|intros (? & ? & ? & ?); first [done|lia]]).
Qed.

Lemma san_allowed_configured prof allow Q :
  san_allowed prof allow Q <-> (allow <> [] /\ Q) \/ leafSANPolicyConfigured prof = false.
Proof. unfold san_allowed. by rewrite policy_configured. Qed.

Lemma check_sans_spec {A} k prof allow (permitted : A -> bool) (P : A -> Prop) sans :
  (forall a, permitted a = true <-> P a) -> (leafSANPolicyConfigured prof = false -> allow = []) ->
  check_sans k (leafSANPolicyConfigured prof) allow permitted sans = None <->
  forall a, a ∈ sans -> san_allowed prof allow (P a).
Proof.
  intros HP Hal. setoid_rewrite san_allowed_configured. induction sans as [|a sans IH]; cbn.
  - split; [intros _ b Hb; by apply elem_of_nil in Hb|done].
  - rewrite (list_elem_of_forall_cons a sans), <- IH. clear IH.
    destruct allow as [|x allow].
    + destruct (leafSANPolicyConfigured prof); [split; [done|naive_solver]|naive_solver].
    + destruct (leafSANPolicyConfigured prof); [|by specialize (Hal eq_refl)].
      destruct (permitted a) eqn:Ep; cbn; [apply HP in Ep; naive_solver|].
      split; [done|]. intros [[[_ Ha]|] _]; [|done]. apply HP in Ha. congruence.
Qed.

Lemma enforce_spec csr ttl prof :
  enforceLeafProfile csr ttl prof = None <-> policy_allows csr ttl prof.
Proof.
  assert (Hc : forall l, (l = PermittedDNSSuffixes prof \/ l = PermittedIPCIDRs prof \/ l = PermittedEmailDomains prof \/
                          l = PermittedURIPrefixes prof) -> leafSANPolicyConfigured prof = false -> l = []).
  { intros l Hl H. apply policy_configured in H as (? & ? & ? & ?). destruct Hl as [->|[->|[->| ->]]]; done. }
  unfold enforceLeafProfile, policy_allows.
  destruct (0 <? MaxValidity prof) eqn:E1; cbn; [destruct (MaxValidity prof <? ttl) eqn:E2|].
  { split; [done|]. apply Z.ltb_lt in E1, E2. intros ([|] & _); lia. }
  all: rewrite ?Z.ltb_lt, ?Z.ltb_ge in *.
  all: pose proof (parseLeafCIDRs_spec (PermittedIPCIDRs prof)) as Hp;
    destruct (parseLeafCIDRs (PermittedIPCIDRs prof)) as [nets|];
    [|destruct Hp as (raw & Hr & Hn); split; [done|]; intros (_ & H & _); destruct (H _ Hr); congruence].
  all: pose proof (check_sans_spec SanDNS prof (PermittedDNSSuffixes prof) _ _ (DNSNames csr)
        (fun n => dnsSuffixPermitted_spec n (PermittedDNSSuffixes prof)) (Hc _ (or_introl eq_refl))) as HD;
    pose proof (check_sans_spec SanIP prof (PermittedIPCIDRs prof) _ _ (IPAddresses csr)
        (fun ip => ipInCIDRs_spec ip _ _ Hp) (Hc (PermittedIPCIDRs prof) ltac:(auto))) as HI;
    pose proof (check_sans_spec SanEmail prof (PermittedEmailDomains prof) _ _ (EmailAddresses csr)
        (fun e => iff_refl (emailDomainPermitted e (PermittedEmailDomains prof) = true)) (Hc (PermittedEmailDomains prof) ltac:(auto))) as HE;
    pose proof (check_sans_spec SanURI prof (PermittedURIPrefixes prof) _ _ (URIs csr)
        (fun u => uriPrefixPermitted_spec u (PermittedURIPrefixes prof)) (Hc (PermittedURIPrefixes prof) ltac:(auto))) as HU;
    cbn beta in HD, HI, HE, HU; rewrite <- HD, <- HI, <- HE, <- HU; clear HD HI HE HU.
  all: assert (Hall : forall raw, raw ∈ PermittedIPCIDRs prof -> is_Some (ParseCIDR (GoStrings.TrimSpace raw)))
      by (intros raw [i Hi]%list_elem_of_lookup; destruct (Forall2_lookup_l _ _ _ _ _ Hp Hi) as (net & _ & Hn); by eexists).
  all: split; [intros H; split_and!; [lia|done|..]; repeat case_in H; done|intros (_ & _ & H1 & H2 & H3 & H4); by rewrite H1, H2, H3].
Qed.

(** The enforcement of a leaf profile is the documented policy.  It accepts a
    request exactly when the validity is within the ceiling, the CIDRs of the
    profile parse, and every SAN is allowed: with no allow-list at all nothing is
    constrained, and once one is present each SAN needs an entry of the allow-list
    of its own kind, DNS names at or below a suffix, addresses in a range, e-mail
    addresses by their domain and URIs by a prefix. *)
Theorem enforceLeafProfile_decides csr ttl prof :
  enforceLeafProfile csr ttl prof = None <-> policy_allows csr ttl prof.
Proof. exact (enforce_spec csr ttl prof). Qed.

(** ** Lanes *)

(** A suffix as it is written: lower case, without spaces or a trailing dot, with
    at most one leading dot. *)
Definition normal (s : string) : Prop :=
  trimLeadingDot s <> "" /\ ToLower s = s /\ norm_suffix s = trimLeadingDot s /\
  trimLeadingDot (trimLeadingDot s) = trimLeadingDot s.

Definition bytes (s : string) : list ascii := list_ascii_of_string s.

(** [x] is [y] or a name below it. *)
Definition under (x y : string) : Prop := x = y \/ GoStrings.HasSuffix x ("." +:+ y) = true.

Lemma bytes_inj x y : bytes x = bytes y -> x = y.
Proof. intros H. rewrite <- (string_of_list_ascii_of_string x), <- (string_of_list_ascii_of_string y). by f_equal. Qed.

Lemma bytes_length s : length (bytes s) = String.length s.
Proof. unfold bytes. induction s as [|a s IH]; cbn; congruence. Qed.

Lemma under_spec x y : under x y <-> bytes x = bytes y \/ exists q, bytes x = q ++ "."%char :: bytes y.
Proof.
  unfold under. rewrite GoStrings.HasSuffix_spec. split; (intros [H|H]; [left|right; exact H]); [by subst|by apply bytes_inj].
Qed.

Lemma under_trans x y z : under x y -> under y z -> under x z.
Proof.
  rewrite !under_spec. intros [Hx|(q & Hx)] [Hy|(r & Hy)]; rewrite Hx, Hy; eauto.
  right. exists (q ++ "."%char :: r). by rewrite <- app_assoc.
Qed.

Lemma app_tail_split {A} (q r x y : list A) : q ++ x = r ++ y -> (length y <= length x)%nat -> exists k, x = k ++ y.
Proof.
  intros H Hl. assert (Hq : (length q <= length r)%nat).
  { apply (f_equal length) in H. rewrite !length_app in H. lia. }
  exists (drop (length q) r). apply (f_equal (drop (length q))) in H.
  rewrite drop_app_length, drop_app_le in H by done. exact H.
Qed.

(** Two suffixes of one name are comparable. *)
Lemma under_comparable n x y : under n x -> under n y -> (String.length y <= String.length x)%nat -> under x y.
Proof.
  rewrite !under_spec, <- !bytes_length. intros [Hx|(q & Hx)] [Hy|(r & Hy)] Hl; rewrite Hx in Hy.
  - by left.
  - right. by exists r.
  - apply (f_equal length) in Hy. rewrite length_app in Hy. cbn in Hy. lia.
  - destruct (decide (length (bytes y) = length (bytes x))) as [He|He].
    + left. destruct (app_tail_split q r ("."%char :: bytes x) ("."%char :: bytes y) Hy) as [k Hk]; [cbn; lia|].
      pose proof (f_equal length Hk) as Hlen. rewrite length_app in Hlen. cbn in Hlen.
      destruct k; [by injection Hk|cbn in Hlen; lia].
    + right.
      destruct (app_tail_split (q ++ ["."%char]) r (bytes x) ("."%char :: bytes y)) as [k Hk];
        [by rewrite <- app_assoc|cbn; lia|by exists k].
Qed.

Lemma under_longer x y : under x y -> x <> y -> (String.length y < String.length x)%nat.
Proof.
  rewrite under_spec, <- !bytes_length. intros [H|(q & H)] Hne; [by apply bytes_inj in H|].
  rewrite H, length_app. cbn. lia.
Qed.

Lemma base_length s :
  String.length s = String.length (trimLeadingDot s) \/ String.length s = Datatypes.S (String.length (trimLeadingDot s)).
Proof.
  unfold trimLeadingDot, GoStrings.TrimPrefix. destruct (GoStrings.strip_prefix _ _) as [r|] eqn:E; [|by left].
  apply GoStrings.strip_prefix_Some in E. right. rewrite <- (bytes_length s). unfold bytes. rewrite E.
  rewrite <- bytes_length. unfold bytes. by rewrite list_ascii_of_string_of_list_ascii.
Qed.

(** A name below another that is one byte longer starts with a dot. *)
Lemma under_dot x y : under x y -> String.length x = Datatypes.S (String.length y) -> trimLeadingDot x <> x.
Proof.
  rewrite under_spec, <- !bytes_length. intros [H|(q & H)] Hl; [rewrite H in Hl; lia|].
  assert (q = []) as ->.
  { rewrite H, length_app in Hl. cbn in Hl. destruct q; [done|cbn in Hl; lia]. }
  unfold trimLeadingDot, GoStrings.TrimPrefix. fold (bytes x). rewrite H. cbn. intros He.
  apply (f_equal bytes) in He. rewrite H in He. unfold bytes in He at 1. rewrite list_ascii_of_string_of_list_ascii in He.
  apply (f_equal length) in He. cbn in He. lia.
Qed.

Lemma within_spec x y :
  normal x -> normal y -> dnsSuffixWithin x y = true <-> under (trimLeadingDot x) (trimLeadingDot y).
Proof.
  intros (_ & Hx & _) (_ & Hy & _). unfold dnsSuffixWithin, under. rewrite Hx, Hy, orb_true_iff, String.eqb_eq. done.
Qed.

Lemma longer_under x y :
  normal x -> normal y -> under (trimLeadingDot x) (trimLeadingDot y) \/ under (trimLeadingDot y) (trimLeadingDot x) ->
  (longer x y = x \/ longer x y = y) /\
  under (trimLeadingDot (longer x y)) (trimLeadingDot x) /\ under (trimLeadingDot (longer x y)) (trimLeadingDot y).
Proof.
  intros (_ & _ & _ & Hx) (_ & _ & _ & Hy) Hu. unfold longer.
  pose proof (base_length x) as Bx. pose proof (base_length y) as By.
  destruct (String.eqb_spec (trimLeadingDot x) (trimLeadingDot y)) as [He|Hne].
  { destruct (_ <=? _)%nat; rewrite He; (split; [by auto|]); by split; left. }
  destruct (Nat.leb_spec (String.length y) (String.length x)) as [Hl|Hl]; (split; [by auto|]).
  - split; [by left|]. destruct Hu as [Hu|Hu]; [done|]. exfalso.
    pose proof (under_longer _ _ Hu (not_eq_sym Hne)). apply (under_dot _ _ Hu); [lia|done].
  - split; [|by left]. destruct Hu as [Hu|Hu]; [|done]. exfalso. pose proof (under_longer _ _ Hu Hne). lia.
Qed.

Lemma permitted_normal n l :
  Forall normal l -> dnsSuffixPermitted n l = true <-> exists s, s ∈ l /\ under (norm_name n) (trimLeadingDot s).
Proof.
  intros Hl. rewrite Forall_forall in Hl. rewrite dnsSuffixPermitted_spec. unfold dns_below. split.
  - intros (s & Hs & _ & Hu). exists s. split; [done|]. destruct (Hl s Hs) as (_ & _ & <- & _). exact Hu.
  - intros (s & Hs & Hu). exists s. split; [done|]. destruct (Hl s Hs) as (Hne & _ & -> & _). by split.
Qed.

Lemma intersect_elem z a b :
  z ∈ intersectDNSSuffixes a b <->
  exists x y, x ∈ a /\ y ∈ b /\ (dnsSuffixWithin x y || dnsSuffixWithin y x) = true /\ z = longer x y.
Proof.
  unfold intersectDNSSuffixes, intersect_one. rewrite list_elem_of_In, in_flat_map. setoid_rewrite in_flat_map.
  setoid_rewrite <- list_elem_of_In. split.
  - intros (x & Hx & y & Hy & Hz). exists x, y. case_in Hz; [|by apply elem_of_nil in Hz].
    apply list_elem_of_singleton in Hz as ->. done.
  - intros (x & y & Hx & Hy & Hw & ->). exists x. split; [done|]. exists y. split; [done|]. rewrite Hw. by left.
Qed.

Lemma intersect_normal a b : Forall normal a -> Forall normal b -> Forall normal (intersectDNSSuffixes a b).
Proof.
  rewrite !Forall_forall. intros Ha Hb z Hz. apply intersect_elem in Hz as (x & y & Hx & Hy & _ & ->).
  unfold longer. destruct (_ <=? _)%nat; auto.
Qed.

(** The intersection permits exactly the names that both lists permit. *)
Lemma intersect_permits n a b :
  Forall normal a -> Forall normal b ->
  dnsSuffixPermitted n (intersectDNSSuffixes a b) = true <-> dnsSuffixPermitted n a = true /\ dnsSuffixPermitted n b = true.
Proof.
  intros Ha Hb. rewrite !permitted_normal by auto using intersect_normal. rewrite Forall_forall in Ha, Hb. split.
  - intros (z & Hz & Hu). apply intersect_elem in Hz as (x & y & Hx & Hy & Hw & ->).
    assert (Hxy : under (trimLeadingDot x) (trimLeadingDot y) \/ under (trimLeadingDot y) (trimLeadingDot x)).
    { apply orb_true_iff in Hw as [Hw|Hw]; apply within_spec in Hw; auto. }
    destruct (longer_under x y (Ha _ Hx) (Hb _ Hy) Hxy) as (_ & H1 & H2).
    split; [exists x|exists y]; (split; [done|]); eauto using under_trans.
  - intros [(x & Hx & Hu) (y & Hy & Hv)].
    assert (Hxy : under (trimLeadingDot x) (trimLeadingDot y) \/ under (trimLeadingDot y) (trimLeadingDot x)).
    { destruct (Nat.le_ge_cases (String.length (trimLeadingDot y)) (String.length (trimLeadingDot x)));
        [left|right]; eauto using under_comparable. }
    exists (longer x y). split.
    + apply intersect_elem. exists x, y. split_and!; [done..| |done].
      apply orb_true_iff. rewrite !within_spec by auto. done.
    + destruct (longer_under x y (Ha _ Hx) (Hb _ Hy) Hxy) as ([-> | ->] & _ & _); done.
Qed.

(** While it constrains names at all, the served lane is the meet of the profile
    and the CA. *)
Lemma lane_meet prof ca :
  Forall normal (PermittedDNSSuffixes prof) -> Forall normal (ca_PermittedDNSNames ca) -> ca_PermittedDNSNames ca <> [] ->
  let lane := applyAuthorityLane prof ca in
  let in_both n := dnsSuffixPermitted n (ca_PermittedDNSNames ca) = true /\
                   (PermittedDNSSuffixes prof = [] \/ dnsSuffixPermitted n (PermittedDNSSuffixes prof) = true) in
  (forall n, dnsSuffixPermitted n (PermittedDNSSuffixes lane) = true <-> in_both n) /\
  (leafSANPolicyConfigured lane = true ->
   forall csr ttl n, enforceLeafProfile csr ttl lane = None -> n ∈ DNSNames csr -> in_both n).
Proof.
  intros Hp Hc Hne lane in_both.
  assert (Hl : PermittedDNSSuffixes lane = match PermittedDNSSuffixes prof with
               | [] => ca_PermittedDNSNames ca
               | _ => intersectDNSSuffixes (PermittedDNSSuffixes prof) (ca_PermittedDNSNames ca) end).
  { unfold lane, applyAuthorityLane. destruct (ca_PermittedDNSNames ca); [done|].
    destruct (PermittedDNSSuffixes prof); cbn; repeat case_goal; done. }
  assert (H1 : forall n, dnsSuffixPermitted n (PermittedDNSSuffixes lane) = true <-> in_both n).
  { intros n. rewrite Hl. unfold in_both. destruct (PermittedDNSSuffixes prof) as [|x l] eqn:E; [naive_solver|].
    rewrite intersect_permits by done. naive_solver. }
  split; [exact H1|]. intros Hcfg csr ttl n He Hn. apply enforce_spec in He as (_ & _ & Hd & _).
  apply Hd, san_allowed_configured in Hn as [[_ Hb]|Hf]; [|congruence]. apply H1. by apply dnsSuffixPermitted_spec.
Qed.

Lemma unconstrained_accepts csr ttl prof :
  PermittedDNSSuffixes prof = [] -> PermittedIPCIDRs prof = [] -> PermittedEmailDomains prof = [] ->
  PermittedURIPrefixes prof = [] -> (MaxValidity prof <= 0 \/ ttl <= MaxValidity prof) ->
  enforceLeafProfile csr ttl prof = None.
Proof.
  intros H1 H2 H3 H4 Hv. apply enforce_spec. unfold policy_allows, san_allowed.
  rewrite H1, H2, H3, H4. split_and!; try done; try (intros; by right). intros raw Hr. by apply elem_of_nil in Hr.
Qed.

(** Limit: lanes without overlap give no constraint.  When the intersection of
    the DNS suffixes of a profile and of a CA is empty and the profile has no
    other SAN list, the folded profile is the empty policy, which accepts every
    request within the validity: the served lane does so for disjoint lists, the
    lane of the library CA also whenever no suffix of the profile lies within the
    CA's, as when the profile is the wider one. *)
Theorem disjoint_lanes_unconstrained prof ca permittedDNS ekus csr ttl :
  PermittedDNSSuffixes prof <> [] -> PermittedIPCIDRs prof = [] -> PermittedEmailDomains prof = [] ->
  PermittedURIPrefixes prof = [] -> (MaxValidity prof <= 0 \/ ttl <= MaxValidity prof) ->
  (ca_PermittedDNSNames ca <> [] ->
   (forall x y, x ∈ PermittedDNSSuffixes prof -> y ∈ ca_PermittedDNSNames ca ->
      dnsSuffixWithin x y = false /\ dnsSuffixWithin y x = false) ->
   enforceLeafProfile csr ttl (applyAuthorityLane prof ca) = None) /\
  (permittedDNS <> [] ->
   (forall x, x ∈ PermittedDNSSuffixes prof ->
      dnsPermitted (GoStrings.TrimPrefix x ".") permittedDNS = false /\ containsFold permittedDNS x = false) ->
   enforceLeafProfile csr ttl (applyCALane permittedDNS ekus prof) = None).
Proof.
  intros Hd Hi He Hu Hv. split.
  - intros Hc Hdis.
    assert (Hx : intersectDNSSuffixes (PermittedDNSSuffixes prof) (ca_PermittedDNSNames ca) = []).
    { apply elem_of_nil_inv. intros z Hz. apply intersect_elem in Hz as (x & y & Hx & Hy & Hw & _).
      destruct (Hdis _ _ Hx Hy) as [H1 H2]. by rewrite H1, H2 in Hw. }
    unfold applyAuthorityLane. destruct (ca_PermittedDNSNames ca); [done|]. destruct (PermittedDNSSuffixes prof); [done|].
    rewrite Hx. repeat case_goal; by apply unconstrained_accepts.
  - intros Hc Hdis.
    assert (Hx : intersectDNS (PermittedDNSSuffixes prof) permittedDNS = []).
    { unfold intersectDNS. destruct permittedDNS as [|p ps] eqn:Ep; [done|].
      destruct (PermittedDNSSuffixes prof) as [|q qs] eqn:Eq; [done|].
      apply elem_of_nil_inv. intros z Hz. apply list_elem_of_In, filter_In in Hz as [Hz Hw]. apply list_elem_of_In in Hz.
      destruct (Hdis _ Hz) as [H1 H2]. by rewrite H1, H2 in Hw. }
    unfold applyCALane. destruct permittedDNS; [done|]. destruct (PermittedDNSSuffixes prof); [done|].
    rewrite Hx. repeat case_goal; by apply unconstrained_accepts.
Qed.

End Names.

(** ** Concrete lanes *)

#[local] Instance demo_net : NetOps := {|
  IP := unit; IPNet := unit; ParseCIDR := fun _ => None; Contains := fun _ _ => false; LowerUnicode := fun s => s
|}.

Definition demo_profile (dns : list string) : LeafProfile := mkLeafProfile [] [] [] [] [] 0 None [] dns [] [] [].

Definition demo_ca (dns : list string) : CAAuthority :=
  mkCA "ca1" "t1" None "CA" "intermediate" "active" "CERT" "h" "1" 9 0 dns [] None 0.

Definition demo_csr (dns : list string) : Request := mkRequest dns [] [] [].

Lemma demo_normal s : s = ".example.com" \/ s = "a.example.com" \/ s = "b.example.com" -> normal s.
Proof. intros [->|[->| ->]]; (split_and!; [discriminate|..]; vm_compute; reflexivity). Qed.

Example lane_meet_example :
  dnsSuffixPermitted "X.A.example.com." (PermittedDNSSuffixes (applyAuthorityLane (demo_profile [".example.com"]) (demo_ca ["a.example.com"]))) = true /\
  dnsSuffixPermitted "b.example.com" (PermittedDNSSuffixes (applyAuthorityLane (demo_profile [".example.com"]) (demo_ca ["a.example.com"]))) = false.
Proof.
  assert (H1 : Forall normal (PermittedDNSSuffixes (demo_profile [".example.com"]))).
  { constructor; [apply demo_normal; auto|constructor]. }
  assert (H2 : Forall normal (ca_PermittedDNSNames (demo_ca ["a.example.com"]))).
  { constructor; [apply demo_normal; auto|constructor]. }
  destruct (lane_meet (demo_profile [".example.com"]) (demo_ca ["a.example.com"]) H1 H2 ltac:(discriminate)) as [H _].
  split.
  - apply H. split; [vm_compute; reflexivity|]. right. vm_compute. reflexivity.
  - apply not_true_iff_false. intros Hb. apply H in Hb as [Hb _]. vm_compute in Hb. discriminate.
Qed.

(** A CA for [a.example.com] and a profile for [example.com]: any name passes. *)
Lemma disjoint_lanes_unconstrained_witness :
  enforceLeafProfile (demo_csr ["evil.org"]) 1 (applyAuthorityLane (demo_profile ["b.example.com"]) (demo_ca ["a.example.com"])) = None /\
  enforceLeafProfile (demo_csr ["evil.org"]) 1 (applyCALane ["a.example.com"] [] (demo_profile ["example.com"])) = None.
Proof.
  split.
  - refine (proj1 (disjoint_lanes_unconstrained (demo_profile ["b.example.com"]) (demo_ca ["a.example.com"]) [] []
                     (demo_csr ["evil.org"]) 1 _ eq_refl eq_refl eq_refl (or_introl (Z.le_refl 0))) _ _); [discriminate..|].
    intros x y Hx Hy. apply list_elem_of_singleton in Hx as ->, Hy as ->. by vm_compute.
  - refine (proj2 (disjoint_lanes_unconstrained (demo_profile ["example.com"]) (demo_ca []) ["a.example.com"] []
                     (demo_csr ["evil.org"]) 1 _ eq_refl eq_refl eq_refl (or_introl (Z.le_refl 0))) _ _); [discriminate..|].
    intros x Hx. apply list_elem_of_singleton in Hx as ->. by vm_compute.
Defined.

End NameLane.
