(* ===== verification/CACert.v ===== *)
(** * CA certificates: issuing and importing

    Models [src/internal/crypto/hierarchy_ca.go], the crypto boundary of the served
    CA hierarchy, with the extended key usages of [src/internal/crypto/eku.go], and
    the certificates of [src/internal/crypto/ca/hierarchy.go], the in-process CA.

    A certificate is the record of the fields of [x509.Certificate] that the code
    reads or sets, without the key identifiers.  [crypto/x509] is the class [X509]: parsing, creating and
    checking signatures, with the laws [X509Laws] that its documentation gives for
    the fields of a created certificate.  Times and durations are in nanoseconds.  A
    signer that [newX509Signer] refuses is one that creating a certificate fails
    with. *)

From stdpp Require Import sorting.
From S2P Require Import Prelude NameLane.
Open Scope string_scope.
Open Scope list_scope.
Open Scope Z_scope.

Module CACert.
Import NameLane.

Definition second : Z := 1000000000.

(** The times of a certificate are whole seconds. *)
Definition whole (t : Z) : Z := t - t mod second.

(** ** Extended key usages *)

Inductive ExtKeyUsage :=
| ExtKeyUsageAny
| ExtKeyUsageServerAuth
| ExtKeyUsageClientAuth
| ExtKeyUsageCodeSigning
| ExtKeyUsageEmailProtection
| ExtKeyUsageTimeStamping
| ExtKeyUsageOCSPSigning.

Definition extKeyUsageDefs : list (string * ExtKeyUsage) := [
  ("any", ExtKeyUsageAny); ("serverAuth", ExtKeyUsageServerAuth); ("clientAuth", ExtKeyUsageClientAuth);
  ("codeSigning", ExtKeyUsageCodeSigning); ("emailProtection", ExtKeyUsageEmailProtection);
  ("timeStamping", ExtKeyUsageTimeStamping); ("ocspSigning", ExtKeyUsageOCSPSigning)].

Definition knownExtKeyUsage (name : string) : option ExtKeyUsage :=
  snd <$> List.find (fun d => String.eqb name d.1) extKeyUsageDefs.

(** [strings.Split] by a dot. *)
Fixpoint split_dots (l : list ascii) (cur : list ascii) : list (list ascii) :=
  match l with
  | [] => [rev cur]
  | a :: l' => if Ascii.eqb a "."%char then rev cur :: split_dots l' [] else split_dots l' (a :: cur)
  end.

(** An arc: [strconv.Atoi], and not negative. *)
Definition arc (part : list ascii) : option Z :=
  match GoInt.Atoi part with
  | Some n => if n <? 0 then None else Some n
  | None => None
  end.

Definition parseDottedOID (s : string) : option (list Z) :=
  let s := GoStrings.TrimPrefix (GoStrings.TrimSpace s) "oid:" in
  let parts := split_dots (list_ascii_of_string s) [] in
  if (length parts <? 2)%nat then None else
  match mapM arc parts with
  | Some (a :: b :: rest) => if (2 <? a) || ((a <? 2) && (39 <? b)) then None else Some (a :: b :: rest)
  | _ => None
  end.

Fixpoint resolve_ekus (names : list string) : option (list ExtKeyUsage * list (list Z)) :=
  match names with
  | [] => Some ([], [])
  | name :: rest =>
      match knownExtKeyUsage name with
      | Some usage => (fun p => (usage :: p.1, p.2)) <$> resolve_ekus rest
      | None =>
          match parseDottedOID name with
          | Some oid => (fun p => (p.1, oid :: p.2)) <$> resolve_ekus rest
          | None => None
          end
      end
  end.

Definition caExtKeyUsage (names : list string) : option (list ExtKeyUsage * list (list Z)) := resolve_ekus names.

Definition leafExtKeyUsage (names : list string) : option (list ExtKeyUsage * list (list Z)) :=
  match names with
  | [] => Some ([ExtKeyUsageServerAuth; ExtKeyUsageClientAuth], [])
  | _ =>
      match resolve_ekus names with
      | Some ([], []) | None => None
      | Some r => Some r
      end
  end.

(** The names of the usages that have one here; the others are left out. *)
Definition usage_name (u : ExtKeyUsage) : option string :=
  match u with
  | ExtKeyUsageServerAuth => Some "serverAuth"
  | ExtKeyUsageClientAuth => Some "clientAuth"
  | ExtKeyUsageCodeSigning => Some "codeSigning"
  | ExtKeyUsageEmailProtection => Some "emailProtection"
  | ExtKeyUsageAny => Some "any"
  | _ => None
  end.

Definition extKeyUsageStrings (usages : list ExtKeyUsage) : list string := omap usage_name usages.

(** The same two tables in the package of the in-process CA. *)
Definition ekuStrings (ekus : list ExtKeyUsage) : list string := omap usage_name ekus.

Definition usage_of_name (n : string) : option ExtKeyUsage :=
  if String.eqb n "serverAuth" then Some ExtKeyUsageServerAuth
  else if String.eqb n "clientAuth" then Some ExtKeyUsageClientAuth
  else if String.eqb n "codeSigning" then Some ExtKeyUsageCodeSigning
  else if String.eqb n "emailProtection" then Some ExtKeyUsageEmailProtection
  else if String.eqb n "any" then Some ExtKeyUsageAny
  else None.

Definition ekusFromStrings (names : list string) : list ExtKeyUsage := omap usage_of_name names.

(** ** Certificates *)

Record Cert := mkCert {
  x_CommonName : string;
  x_PublicKey : string;
  x_Serial : string;
  x_IsCA : bool;
  x_BasicConstraintsValid : bool;
  x_MaxPathLen : Z;
  x_MaxPathLenZero : bool;
  x_PermittedDNSDomains : list string;
  x_ExtKeyUsage : list ExtKeyUsage;
  x_UnknownExtKeyUsage : list (list Z);
  x_NotBefore : Z;
  x_NotAfter : Z;
  x_KeyUsageCertSign : bool
}.

(** A request for a certificate, with whether its signature checks. *)
Record CSR {N : NetOps} := mkCSR {
  csr_CommonName : string;
  csr_PublicKey : string;
  csr_SANs : Request;
  csr_SignatureOK : bool
}.

(** An end-entity certificate: the fields that [SignLeafFromCSRWithProfile] sets,
    without the key identifiers. *)
Record Leaf {N : NetOps} := mkLeaf {
  l_CommonName : string;
  l_PublicKey : string;
  l_Serial : string;
  l_SANs : Request;
  l_NotBefore : Z;
  l_NotAfter : Z;
  l_KeyUsage : Z;
  l_ExtKeyUsage : list ExtKeyUsage;
  l_UnknownExtKeyUsage : list (list Z);
  l_CRLDistributionPoints : list string;
  l_OCSPServer : list string;
  l_IssuingCertificateURL : list string;
  l_Policies : list (list Z);
  l_Extensions : list (list Z * CertificateExtension)
}.

Arguments mkCSR {N}.
Arguments mkLeaf {N}.

Class X509 {N : NetOps} := {
  Key : Type;
  key_public : Key -> string;
  ParseCertificate : string -> option Cert;
  ParseCertificateRequest : string -> option CSR;
  ParsePKIXPublicKey : string -> bool;
  CreateCertificate : Cert -> Cert -> string -> Key -> option string;
  CheckSignatureFrom : Cert -> Cert -> bool;
  CreateLeaf : Leaf -> Cert -> string -> Key -> option string;
  ParseLeaf : string -> option Leaf;
  CheckLeafSignature : Leaf -> Cert -> bool;
  ParseOID : string -> bool;
  EncodePEM : string -> string
}.

(** The path length of a template: zero without its flag is no constraint. *)
Definition path_len (t : Cert) : Z :=
  if (x_MaxPathLen t =? 0) && negb (x_MaxPathLenZero t) then -1 else x_MaxPathLen t.

(** The certificate that a template gives. *)
Definition created (t : Cert) (pub : string) : Cert :=
  mkCert (x_CommonName t) pub (x_Serial t) (x_IsCA t) (x_BasicConstraintsValid t) (path_len t) (path_len t =? 0)
    (x_PermittedDNSDomains t) (x_ExtKeyUsage t) (x_UnknownExtKeyUsage t) (whole (x_NotBefore t)) (whole (x_NotAfter t))
    (x_KeyUsageCertSign t).

Definition created_leaf {N : NetOps} (t : Leaf) (pub : string) : Leaf :=
  mkLeaf (l_CommonName t) pub (l_Serial t) (l_SANs t) (whole (l_NotBefore t)) (whole (l_NotAfter t)) (l_KeyUsage t)
    (l_ExtKeyUsage t) (l_UnknownExtKeyUsage t) (l_CRLDistributionPoints t) (l_OCSPServer t) (l_IssuingCertificateURL t)
    (l_Policies t) (l_Extensions t).

(** The extensions that [CreateCertificate] writes from the fields of a template; an extra
    extension with one of these identifiers takes the place of it. *)
Definition core_oids : list (list Z) := [
  [2; 5; 29; 14]; [2; 5; 29; 15]; [2; 5; 29; 17]; [2; 5; 29; 19]; [2; 5; 29; 30]; [2; 5; 29; 31]; [2; 5; 29; 32];
  [2; 5; 29; 35]; [2; 5; 29; 37]; [1; 3; 6; 1; 5; 5; 7; 1; 1]].

Definition non_core (l : list (list Z * CertificateExtension)) : Prop := Forall (fun x => x.1 ∉ core_oids) l.

Class X509Laws {N : NetOps} (X : X509) := {
  Create_Parse : forall t issuer pub key der c,
    CreateCertificate t issuer pub key = Some der -> ParseCertificate der = Some c -> c = created t pub;
  Create_ParseLeaf : forall t issuer pub key der c, non_core (l_Extensions t) ->
    CreateLeaf t issuer pub key = Some der -> ParseLeaf der = Some c -> c = created_leaf t pub;
  Parse_times : forall der c, ParseCertificate der = Some c -> x_NotAfter c mod second = 0;
  Parse_path_len : forall der c, ParseCertificate der = Some c -> x_MaxPathLenZero c = (x_MaxPathLen c =? 0)
}.

(** [HierarchyCAProfile]. *)
Record HSpec := mkHSpec {
  hs_CommonName : string;
  hs_PermittedDNSDomains : list string;
  hs_MaxPathLen : Z;
  hs_EKUs : list string;
  hs_TTL : Z
}.

(** [IssuedHierarchyCA]. *)
Record Issued := mkIssued {
  is_CommonName : string;
  is_CertificatePEM : string;
  is_CertificateDER : string;
  is_Serial : string;
  is_NotAfter : Z;
  is_MaxPathLen : Z;
  is_PermittedDNSDomains : list string;
  is_EKUs : list string
}.

(** What one call draws: the clock at its three readings and the random serial,
    which may fail. *)
Record Draw := mkDraw { d_t1 : Z; d_t2 : Z; d_t3 : Z; d_serial : option string }.

Definition defaultHierarchyRootTTL : Z := 10 * 365 * 24 * 3600 * second.
Definition defaultHierarchyCATTL : Z := 5 * 365 * 24 * 3600 * second.

Definition with_ttl (ttl : Z) (p : HSpec) : HSpec :=
  mkHSpec (hs_CommonName p) (hs_PermittedDNSDomains p) (hs_MaxPathLen p) (hs_EKUs p) ttl.

Definition hasPathLen (c : Cert) : bool := (0 <? x_MaxPathLen c) || x_MaxPathLenZero c.

Section Hierarchy.
Context {N : NetOps} {X : X509}.

Definition ca_template (profile : HSpec) (serial : string) (now : Z) (ekus : list ExtKeyUsage * list (list Z)) : Cert :=
  let set := 0 <=? hs_MaxPathLen profile in
  mkCert (hs_CommonName profile) "" serial true true
    (if set then hs_MaxPathLen profile else 0) (set && (hs_MaxPathLen profile =? 0))
    (hs_PermittedDNSDomains profile) ekus.1 ekus.2 (now - 60 * second) (now + hs_TTL profile) true.

Definition signHierarchyCA (w : Draw) (signer : Key) (subjectPublic : string) (issuer : option Cert) (profile : HSpec)
  : result string Issued :=
  if String.eqb (hs_CommonName profile) "" then Err "CA common name is required" else
  if hs_TTL profile <=? 0 then Err "CA TTL must be positive" else
  if negb (ParsePKIXPublicKey subjectPublic) then Err "parse public key" else
  match d_serial w, caExtKeyUsage (hs_EKUs profile) with
  | None, _ => Err "serial"
  | _, None => Err "unsupported CA extended key usage"
  | Some serial, Some ekus =>
      let tmpl := ca_template profile serial (d_t3 w) ekus in
      match CreateCertificate tmpl (default tmpl issuer) subjectPublic signer with
      | None => Err "sign CA certificate"
      | Some der =>
          match ParseCertificate der with
          | None => Err "parse"
          | Some cert =>
              if negb (CheckSignatureFrom cert (default cert issuer)) then Err "issued CA failed verification"
              else Ok (mkIssued (x_CommonName cert) (EncodePEM der) der (x_Serial cert) (x_NotAfter cert)
                         (hs_MaxPathLen profile) (hs_PermittedDNSDomains profile) (hs_EKUs profile))
          end
      end
  end.

Definition SelfSignedHierarchyCA (w : Draw) (signer : Key) (profile : HSpec) : result string Issued :=
  let profile := if hs_TTL profile <=? 0 then with_ttl defaultHierarchyRootTTL profile else profile in
  signHierarchyCA w signer (key_public signer) None profile.

(** The profile of an intermediate under its parent. *)
Definition child_profile (w : Draw) (parent : Cert) (profile : HSpec) : HSpec :=
  let permitted := match hs_PermittedDNSDomains profile with [] => x_PermittedDNSDomains parent | l => l end in
  let ekus := match hs_EKUs profile with [] => extKeyUsageStrings (x_ExtKeyUsage parent) | l => l end in
  let depth :=
    if hasPathLen parent then
      let childPathLen := x_MaxPathLen parent - 1 in
      if (0 <=? hs_MaxPathLen profile) && (hs_MaxPathLen profile <? childPathLen) then hs_MaxPathLen profile else childPathLen
    else hs_MaxPathLen profile in
  let ttl := if hs_TTL profile <=? 0 then defaultHierarchyCATTL else hs_TTL profile in
  let ttl := if x_NotAfter parent <? d_t1 w + ttl then x_NotAfter parent - d_t2 w else ttl in
  mkHSpec (hs_CommonName profile) permitted depth ekus ttl.

Definition SignIntermediateHierarchyCA (w : Draw) (parentCertDER : string) (parentSigner : Key) (childPublic : string)
    (profile : HSpec) : result string Issued :=
  match ParseCertificate parentCertDER with
  | None => Err "parse parent CA"
  | Some parent =>
      if hasPathLen parent && (x_MaxPathLen parent =? 0) then Err "parent CA path-length constraint is exhausted"
      else signHierarchyCA w parentSigner childPublic (Some parent) (child_profile w parent profile)
  end.

Definition SignIntermediateHierarchyCAFromCSR (w : Draw) (parentCertDER : string) (parentSigner : Key) (csrDER : string)
    (profile : HSpec) : result string Issued :=
  match ParseCertificateRequest csrDER with
  | None => Err "parse intermediate CSR"
  | Some csr =>
      if negb (csr_SignatureOK csr) then Err "verify intermediate CSR signature" else
      let profile :=
        if String.eqb (hs_CommonName profile) ""
        then mkHSpec (csr_CommonName csr) (hs_PermittedDNSDomains profile) (hs_MaxPathLen profile) (hs_EKUs profile) (hs_TTL profile)
        else profile in
      SignIntermediateHierarchyCA w parentCertDER parentSigner (csr_PublicKey csr) profile
  end.

(** ** End-entity certificates *)

Inductive LeafErr :=
| LeafViolation (e : leafProfileError)
| LeafEKUs
| LeafOther (msg : string).

Definition IsLeafProfileViolation (e : LeafErr) : bool := match e with LeafOther _ => false | _ => true end.

Definition parseOID (s : string) : option (list Z) :=
  let parts := split_dots (list_ascii_of_string (GoStrings.TrimSpace s)) [] in
  if (length parts <? 2)%nat then None else mapM arc parts.

Definition policyOIDs (dotted : list string) : option (list (list Z)) := mapM parseOID dotted.
Definition modernPolicyOIDs (dotted : list string) : bool := forallb ParseOID dotted.

Definition x509Extensions (exts : list CertificateExtension) : option (list (list Z * CertificateExtension)) :=
  mapM (fun e => (fun oid => (oid, e)) <$> parseOID (ext_OID e)) exts.

Definition leaf_template (csr : CSR) (serial : string) (now ttl : Z) (prof : LeafProfile)
    (ekus : list ExtKeyUsage * list (list Z)) (policies : list (list Z)) (exts : list (list Z * CertificateExtension)) : Leaf :=
  mkLeaf (csr_CommonName csr) "" serial (csr_SANs csr) (now - 60 * second) (now + ttl) (leafKeyUsageForProfile prof)
    ekus.1 ekus.2 (CRLDistributionPoints prof) (OCSPServers prof) (IssuingCertificateURL prof) policies exts.

Definition SignLeafFromCSRWithProfile (w : Draw) (caCertDER : string) (caSigner : Key) (csrDER : string) (ttl : Z)
    (prof : LeafProfile) : result LeafErr string :=
  match ParseCertificate caCertDER, ParseCertificateRequest csrDER with
  | None, _ => Err (LeafOther "parse CA cert")
  | _, None => Err (LeafOther "parse CSR")
  | Some caCert, Some csr =>
      if negb (csr_SignatureOK csr) then Err (LeafOther "CSR signature") else
      match enforceLeafProfile (csr_SANs csr) ttl prof with
      | Some e => Err (LeafViolation e)
      | None =>
          match leafExtKeyUsage (AllowedExtKeyUsage prof), d_serial w with
          | None, _ => Err LeafEKUs
          | _, None => Err (LeafOther "serial")
          | Some ekus, Some serial =>
              match x509Extensions (ExtraExtensions prof), policyOIDs (CertificatePolicyOIDs prof) with
              | None, _ => Err (LeafOther "extension OID")
              | _, None => Err (LeafOther "certificate policy OID")
              | Some exts, Some policies =>
                  if negb (modernPolicyOIDs (CertificatePolicyOIDs prof)) then Err (LeafOther "certificate policy OID") else
                  match CreateLeaf (leaf_template csr serial (d_t3 w) ttl prof ekus policies exts) caCert
                          (csr_PublicKey csr) caSigner with
                  | None => Err (LeafOther "sign leaf")
                  | Some der =>
                      match ParseLeaf der with
                      | None => Err (LeafOther "parse issued leaf")
                      | Some issued =>
                          if negb (CheckLeafSignature issued caCert) then Err (LeafOther "issued leaf failed verification")
                          else Ok der
                      end
                  end
              end
          end
      end
  end.

(** ** Importing *)

Definition verifyCAUsable (now : Z) (cert : Cert) : option string :=
  if negb (x_IsCA cert) || negb (x_BasicConstraintsValid cert) then Some "is not a valid CA certificate"
  else if (now <? x_NotBefore cert) || (x_NotAfter cert <? now) then Some "is not currently valid"
  else if negb (x_KeyUsageCertSign cert) then Some "is missing keyCertSign usage"
  else None.

Definition verifyChildPathLen (parent child : Cert) : option string :=
  if negb (hasPathLen parent) then None
  else if x_MaxPathLen parent =? 0 then Some "offline root path-length constraint is exhausted"
  else if negb (hasPathLen child) then Some "offline-signed intermediate is missing path-length constraint"
  else if x_MaxPathLen parent - 1 <? x_MaxPathLen child then Some "offline-signed intermediate path-length exceeds offline root"
  else None.

(** Both slices are copied and sorted. *)
Definition sameStringSet (a b : list string) : bool :=
  Nat.eqb (length a) (length b) && bool_decide (merge_sort String.le a = merge_sort String.le b).

Definition verifyImportedProfile (cert : Cert) (profile : HSpec) : option string :=
  if negb (String.eqb (hs_CommonName profile) "") && negb (String.eqb (x_CommonName cert) (hs_CommonName profile))
  then Some "imported CA common name does not match ceremony profile"
  else if (0 <=? hs_MaxPathLen profile) && negb (hasPathLen cert) then Some "imported CA is missing path-length constraint"
  else if (0 <=? hs_MaxPathLen profile) && negb (x_MaxPathLen cert =? hs_MaxPathLen profile)
  then Some "imported CA max_path_len does not match ceremony profile"
  else if negb (bool_decide (hs_PermittedDNSDomains profile = []))
          && negb (sameStringSet (hs_PermittedDNSDomains profile) (x_PermittedDNSDomains cert))
  then Some "imported CA permitted DNS domains do not match ceremony profile"
  else if negb (bool_decide (hs_EKUs profile = []))
          && negb (sameStringSet (hs_EKUs profile) (extKeyUsageStrings (x_ExtKeyUsage cert)))
  then Some "imported CA extended key usages do not match ceremony profile"
  else None.

Definition hierarchyResultFromCert (der : string) (cert : Cert) : Issued :=
  mkIssued (x_CommonName cert) (EncodePEM der) der (x_Serial cert) (x_NotAfter cert) (path_len cert)
    (x_PermittedDNSDomains cert) (extKeyUsageStrings (x_ExtKeyUsage cert)).

Definition guard_err (r : option string) : result string unit :=
  match r with Some e => Err e | None => Ok tt end.

Definition parse_usable (now : Z) (der : string) : result string Cert :=
  match ParseCertificate der with
  | None => Err "parse"
  | Some cert => let? _ := guard_err (verifyCAUsable now cert) in Ok cert
  end.

Definition VerifyImportedOfflineRoot (w : Draw) (certDER : string) (profile : HSpec) : result string Issued :=
  let? cert := parse_usable (d_t1 w) certDER in
  if negb (CheckSignatureFrom cert cert) then Err "offline root is not self-signed" else
  let? _ := guard_err (verifyImportedProfile cert profile) in
  Ok (hierarchyResultFromCert certDER cert).

Definition VerifyOfflineSignedIntermediate (w : Draw) (parentCertDER certDER : string) (signerPublic : string) (profile : HSpec)
  : result string Issued :=
  let? parent := parse_usable (d_t1 w) parentCertDER in
  let? cert := parse_usable (d_t2 w) certDER in
  if negb (CheckSignatureFrom cert parent) then Err "intermediate is not signed by offline root" else
  let? _ := guard_err (verifyChildPathLen parent cert) in
  if x_NotAfter parent <? x_NotAfter cert then Err "intermediate outlives offline root" else
  if negb (String.eqb (x_PublicKey cert) signerPublic) then Err "intermediate public key does not match signer-held key" else
  let? _ := guard_err (verifyImportedProfile cert profile) in
  Ok (hierarchyResultFromCert certDER cert).

Fixpoint parse_chain (now : Z) (chain : list string) : result string (list Cert) :=
  match chain with
  | [] => Ok []
  | der :: rest =>
      let? cert := parse_usable now der in
      let? certs := parse_chain now rest in
      Ok (cert :: certs)
  end.

(** The loop over a chain and the check of its last certificate. *)
Fixpoint verify_links (certs : list Cert) : result string unit :=
  match certs with
  | [] => Ok tt
  | [root] => if CheckSignatureFrom root root then Ok tt else Err "imported CA chain root is not self-signed"
  | child :: (parent :: _) as rest =>
      if negb (CheckSignatureFrom child parent) then Err "imported CA chain certificate is not signed" else
      let? _ := guard_err (verifyChildPathLen parent child) in
      if x_NotAfter parent <? x_NotAfter child then Err "imported CA chain certificate outlives issuer"
      else verify_links rest
  end.

(** All the certificates are parsed before any other check; the clock is taken as
    one reading. *)
Definition VerifyImportedCAChain (w : Draw) (chainDER : list string) (signerPublic : string) (profile : HSpec)
  : result string (Issued * string) :=
  match chainDER with
  | [] => Err "imported CA chain is empty"
  | der :: _ =>
      let? certs := parse_chain (d_t1 w) chainDER in
      match certs with
      | [] => Err "imported CA chain is empty"
      | first :: rest =>
          if negb (String.eqb (x_PublicKey first) signerPublic) then Err "imported CA public key does not match signer-held key" else
          let? _ := guard_err (verifyImportedProfile first profile) in
          let? _ := verify_links certs in
          Ok (hierarchyResultFromCert der first, match rest with [] => "root" | _ => "intermediate" end)
      end
  end.

(** ** Chains *)

Context `{!X509Laws X}.

(** The CA [c] was issued or accepted under [p]: signed here, from a profile or a
    request, with less than a second between the readings of the clock; imported
    as signed by an offline root; or next to [p] in an imported chain. *)
Inductive accepted (p c : Cert) : Prop :=
| acc_sign w pder key pub profile i :
    ParseCertificate pder = Some p -> SignIntermediateHierarchyCA w pder key pub profile = Ok i ->
    ParseCertificate (is_CertificateDER i) = Some c -> d_t1 w <= d_t2 w <= d_t3 w -> d_t3 w < d_t1 w + second -> accepted p c
| acc_csr w pder key csr profile i :
    ParseCertificate pder = Some p -> SignIntermediateHierarchyCAFromCSR w pder key csr profile = Ok i ->
    ParseCertificate (is_CertificateDER i) = Some c -> d_t1 w <= d_t2 w <= d_t3 w -> d_t3 w < d_t1 w + second -> accepted p c
| acc_offline w pder cder pub profile i :
    ParseCertificate pder = Some p -> ParseCertificate cder = Some c ->
    VerifyOfflineSignedIntermediate w pder cder pub profile = Ok i -> accepted p c
| acc_chain w chain pub profile r n pder cder :
    VerifyImportedCAChain w chain pub profile = Ok r ->
    chain !! n = Some cder -> chain !! Datatypes.S n = Some pder ->
    ParseCertificate cder = Some c -> ParseCertificate pder = Some p -> accepted p c.

(** What a parent and a child satisfy. *)
Definition within (p c : Cert) : Prop :=
  CheckSignatureFrom c p = true /\ x_NotAfter c <= x_NotAfter p /\
  (hasPathLen p = true -> 0 < x_MaxPathLen p /\ hasPathLen c = true /\ x_MaxPathLen c <= x_MaxPathLen p - 1).

Lemma whole_le t n : n mod second = 0 -> t < n + second -> whole t <= n.
Proof.
  intros Hn Ht. unfold whole. pose proof (Z.div_mod t second ltac:(done)) as H1. pose proof (Z.div_mod n second ltac:(done)) as H2.
  pose proof (Z.mod_pos_bound t second eq_refl). assert (t / second <= n / second); [|unfold second in *; lia].
  apply Z.lt_succ_r. unfold second in *. nia.
Qed.

Lemma has_path_len_pos der c : ParseCertificate der = Some c -> hasPathLen c = true -> 0 <= x_MaxPathLen c.
Proof.
  intros Hp Hh. pose proof (Parse_path_len der c Hp) as Hz. unfold hasPathLen in Hh. rewrite Hz in Hh.
  destruct (Z.ltb_spec 0 (x_MaxPathLen c)); [lia|]. cbn in Hh. lia.
Qed.

Lemma signHierarchyCA_inv w key pub issuer profile i :
  signHierarchyCA w key pub issuer profile = Ok i ->
  exists serial ekus c, caExtKeyUsage (hs_EKUs profile) = Some ekus /\ ParseCertificate (is_CertificateDER i) = Some c /\
    c = created (ca_template profile serial (d_t3 w) ekus) pub /\ CheckSignatureFrom c (default c issuer) = true.
Proof.
  unfold signHierarchyCA. intros H. repeat case_in H; simplify_eq; cbn.
  match goal with H : CreateCertificate _ _ _ _ = Some _ |- _ => rename H into Hcr end.
  match goal with H : ParseCertificate _ = Some _ |- _ => rename H into Hpa end.
  pose proof (Create_Parse _ _ _ _ _ _ Hcr Hpa) as Hc. do 3 eexists. split_and!; [done|exact Hpa|exact Hc|].
  by match goal with H : negb _ = false |- CheckSignatureFrom _ _ = true => apply negb_false_iff in H end.
Qed.

Lemma created_path_len profile serial now ekus pub :
  0 <= hs_MaxPathLen profile ->
  let c := created (ca_template profile serial now ekus) pub in hasPathLen c = true /\ x_MaxPathLen c = hs_MaxPathLen profile.
Proof.
  intros Hd. unfold hasPathLen, created, path_len, ca_template. cbn. set (d := hs_MaxPathLen profile) in *.
  rewrite (proj2 (Z.leb_le 0 d)) by lia. cbn. destruct (Z.eqb_spec d 0) as [H0|H0]; cbn; [by rewrite H0|].
  by rewrite (proj2 (Z.ltb_lt 0 d)) by lia.
Qed.

Lemma sign_within w pder key pub profile i p c :
  ParseCertificate pder = Some p -> SignIntermediateHierarchyCA w pder key pub profile = Ok i ->
  ParseCertificate (is_CertificateDER i) = Some c -> d_t1 w <= d_t2 w <= d_t3 w -> d_t3 w < d_t1 w + second -> within p c.
Proof.
  intros Hp H Hc Ht Ht3. unfold SignIntermediateHierarchyCA in H. rewrite Hp in H. case_in H; [done|].
  apply signHierarchyCA_inv in H as (serial & ekus & c' & _ & Hc' & Hcre & Hs). rewrite Hc in Hc'. injection Hc' as <-.
  split_and!; [exact Hs| |].
  - rewrite Hcre. cbn. apply whole_le; [by eapply Parse_times|].
    destruct (hs_TTL profile <=? 0); destruct (_ <? _) eqn:El; apply Z.ltb_lt in El || apply Z.ltb_ge in El; lia.
  - intros Hh. pose proof (has_path_len_pos _ _ Hp Hh) as Hpos. rewrite Hh in Heq. cbn in Heq. apply Z.eqb_neq in Heq.
    set (d := hs_MaxPathLen (child_profile w p profile)).
    assert (Hd : 0 <= d <= x_MaxPathLen p - 1).
    { unfold d, child_profile. cbn. rewrite Hh. destruct (_ && _) eqn:E; [|lia].
      apply andb_prop in E as [E1 E2]. apply Z.leb_le in E1. apply Z.ltb_lt in E2. lia. }
    destruct (created_path_len (child_profile w p profile) serial (d_t3 w) ekus pub) as [H1 H2]; [lia|].
    rewrite Hcre. split_and!; [lia|exact H1|]. rewrite H2. fold d. lia.
Qed.

Lemma verifyChildPathLen_within p c :
  (exists der, ParseCertificate der = Some p) -> verifyChildPathLen p c = None ->
  hasPathLen p = true -> 0 < x_MaxPathLen p /\ hasPathLen c = true /\ x_MaxPathLen c <= x_MaxPathLen p - 1.
Proof.
  intros [der Hp] H Hh. pose proof (has_path_len_pos _ _ Hp Hh). unfold verifyChildPathLen in H. rewrite Hh in H. cbn in H.
  repeat case_in H; try done. apply Z.eqb_neq in Heq. apply negb_false_iff in Heq0. apply Z.ltb_ge in Heq1. split_and!; [lia|done|lia].
Qed.

Lemma parse_usable_parse now der c : parse_usable now der = Ok c -> ParseCertificate der = Some c.
Proof. unfold parse_usable, res_bind. intros H. repeat case_in H; by simplify_eq. Qed.

Lemma parse_chain_lookup now chain certs n der :
  parse_chain now chain = Ok certs -> chain !! n = Some der -> exists c, certs !! n = Some c /\ ParseCertificate der = Some c.
Proof.
  revert certs n. induction chain as [|d chain IH]; intros certs n H Hn; [done|]. cbn in H.
  destruct (parse_usable now d) as [c|] eqn:E; [|done]. destruct (parse_chain now chain) as [cs|]; [|done]. cbn in H.
  injection H as <-. destruct n as [|n]; cbn in Hn.
  - injection Hn as ->. exists c. split; [done|by eapply parse_usable_parse].
  - by apply (IH cs).
Qed.

Lemma verify_links_within certs n p c :
  verify_links certs = Ok tt -> certs !! n = Some c -> certs !! Datatypes.S n = Some p ->
  (exists der, ParseCertificate der = Some p) -> within p c.
Proof.
  revert n. induction certs as [|a certs IH]; intros n H Hc Hp Hd; [done|].
  destruct certs as [|b certs]; [by destruct n|]. cbn in H.
  destruct (negb (CheckSignatureFrom a b)) eqn:Es; [done|]. destruct (verifyChildPathLen b a) eqn:Ev; [done|]. cbn in H.
  destruct (_ <? _) eqn:Et; [done|]. destruct n as [|n]; [|by apply (IH n)].
  cbn in Hc, Hp. injection Hc as ->. injection Hp as ->. apply negb_false_iff in Es. apply Z.ltb_ge in Et.
  split_and!; [done|done|by apply verifyChildPathLen_within].
Qed.

Lemma accepted_within p c : accepted p c -> within p c.
Proof.
  intros [w pder key pub profile i Hp H Hc Ht Ht3|w pder key csr profile i Hp H Hc Ht Ht3
         |w pder cder pub profile i Hp Hc H|w chain pub profile r n pder cder H Hn Hn1 Hc Hp].
  - by eapply sign_within.
  - unfold SignIntermediateHierarchyCAFromCSR in H. repeat case_in H; try done; by eapply sign_within.
  - unfold VerifyOfflineSignedIntermediate in H.
    destruct (parse_usable (d_t1 w) pder) as [p'|] eqn:E1; [|done]. apply parse_usable_parse in E1. rewrite Hp in E1. injection E1 as <-.
    cbn in H. destruct (parse_usable (d_t2 w) cder) as [c'|] eqn:E2; [|done]. apply parse_usable_parse in E2.
    rewrite Hc in E2. injection E2 as <-. cbn in H.
    destruct (negb (CheckSignatureFrom c p)) eqn:Es; [done|]. destruct (verifyChildPathLen p c) eqn:Ev; [done|]. cbn in H.
    destruct (_ <? _) eqn:Et; [done|]. apply negb_false_iff in Es. apply Z.ltb_ge in Et.
    split_and!; [done|done|]. apply verifyChildPathLen_within; eauto.
  - unfold VerifyImportedCAChain in H. destruct chain as [|d chain]; [done|].
    destruct (parse_chain (d_t1 w) (d :: chain)) as [certs|] eqn:E; [|done]. cbn [res_bind] in H.
    destruct certs as [|f certs]; [done|]. repeat (case_in H; [done|]).
    destruct (guard_err (verifyImportedProfile f profile)) as [[]|]; [|done]. cbn [res_bind] in H.
    destruct (verify_links (f :: certs)) as [[]|] eqn:El; [|done].
    destruct (parse_chain_lookup _ _ _ _ _ E Hn) as (c' & Hc' & Hpc). rewrite Hc in Hpc. injection Hpc as <-.
    destruct (parse_chain_lookup _ _ _ _ _ E Hn1) as (p' & Hp' & Hpp). rewrite Hp in Hpp. injection Hpp as <-.
    eapply verify_links_within; eauto.
Qed.

(** A CA [n] steps below a root. *)
Inductive below (root : Cert) : Cert -> nat -> Prop :=
| below_root : below root root 0
| below_step p c n : below root p n -> accepted p c -> below root c (Datatypes.S n).

(** The path length of a root bounds its hierarchy.  Under a root with a path
    length, by whatever mix of issuing from a profile, issuing from a request,
    importing from an offline root and importing chains, every CA is at most that
    many steps below it, carries a path length that leaves room for what is above
    it, and does not outlive the root. *)
Theorem hierarchy_depth_bounded rootDER root c n :
  ParseCertificate rootDER = Some root -> hasPathLen root = true -> below root c n ->
  Z.of_nat n <= x_MaxPathLen root /\ hasPathLen c = true /\ x_MaxPathLen c <= x_MaxPathLen root - Z.of_nat n /\
  x_NotAfter c <= x_NotAfter root.
Proof.
  intros Hp Hh Hb. pose proof (has_path_len_pos _ _ Hp Hh) as Hpos.
  induction Hb as [|p c n Hb (H1 & H2 & H3 & H4) Ha]; [split_and!; [lia|done|lia|lia]|].
  destruct (accepted_within _ _ Ha) as (_ & Hn & Hd). destruct (Hd H2) as (Hq & Hc & Hl). split_and!; [lia|done|lia|lia].
Qed.

End Hierarchy.

(** ** A concrete hierarchy *)

#[export] Instance ExtKeyUsage_eq : EqDecision ExtKeyUsage.
Proof. solve_decision. Defined.

#[export] Instance Cert_eq : EqDecision Cert.
Proof. solve_decision. Defined.

Definition demo_root : Cert :=
  mkCert "root" "rk" "1" true true 1 false ["example.com"] [ExtKeyUsageServerAuth] [] 0 (100 * second) true.

Definition demo_spec : HSpec := mkHSpec "issuing" [] 7 [] (3600 * second).

Definition demo_draw : Draw := mkDraw (5 * second) (5 * second + 1) (5 * second + 2) (Some "2").

Definition demo_child : Cert :=
  created (ca_template (child_profile demo_draw demo_root demo_spec) "2" (5 * second + 2) ([ExtKeyUsageServerAuth], [])) "ck".

(** A library that knows the two certificates. *)
#[local] Existing Instance demo_net.

#[local] Instance demo_x509 : X509 := {|
  Key := unit;
  key_public := fun _ => "rk";
  ParseCertificate := fun der =>
    if String.eqb der "root" then Some demo_root else if String.eqb der "child" then Some demo_child else None;
  ParseCertificateRequest := fun _ => None;
  ParsePKIXPublicKey := fun _ => true;
  CreateCertificate := fun t _ pub _ => if decide (created t pub = demo_child) then Some "child" else None;
  CheckSignatureFrom := fun _ _ => true;
  CreateLeaf := fun _ _ _ _ => None;
  ParseLeaf := fun _ => None;
  CheckLeafSignature := fun _ _ => false;
  ParseOID := fun _ => false;
  EncodePEM := fun der => der
|}.

#[local] Instance demo_x509_laws : X509Laws demo_x509.
Proof.
  split.
  - cbn. intros t issuer pub key der c H Hp. case_in H; [|done]. injection H as <-. by injection Hp as <-.
  - done.
  - cbn. intros der c H. repeat case_in H; try done; by injection H as <-.
  - cbn. intros der c H. repeat case_in H; try done; by injection H as <-.
Qed.

Lemma demo_below : below demo_root demo_child 1.
Proof.
  eapply below_step; [apply below_root|].
  eapply (acc_sign (X := demo_x509) _ _ demo_draw "root" tt "ck" demo_spec); [reflexivity|vm_compute; reflexivity|reflexivity|..]; cbn; unfold second; lia.
Qed.

Lemma hierarchy_depth_bounded_witness :
  Z.of_nat 1 <= x_MaxPathLen demo_root /\ hasPathLen demo_child = true /\
  x_MaxPathLen demo_child <= x_MaxPathLen demo_root - Z.of_nat 1 /\ x_NotAfter demo_child <= x_NotAfter demo_root.
Proof. exact (hierarchy_depth_bounded "root" demo_root demo_child 1 eq_refl eq_refl demo_below). Defined.

End CACert.
