(* ===== verification/LibCA.v ===== *)
(** * The in-process CA

    Models [src/internal/crypto/ca/hierarchy.go]: a CA with its key in a locked
    buffer, roots, intermediates, leaves through the shared leaf signer, and
    cross-certificates.  A destroyed key is [None].  The draws of a call are those
    of [CACert], with the key that is generated.

    [cross_sign_clamps] is what a cross-certificate inherits from the target and
    from the CA that signs it. *)

From S2P Require Import Prelude NameLane CACert.
Open Scope string_scope.
Open Scope list_scope.
Open Scope Z_scope.

Module LibCA.
Import NameLane CACert.

Section CA.
Context {N : NetOps} {X : X509}.

Record CA := mkLibCA {
  k_cert : Cert;
  k_der : string;
  k_key : option Key;
  k_chainDER : list string;
  k_permittedDNS : list string;
  k_maxPathLen : Z;
  k_ekus : list ExtKeyUsage
}.

(** The leaf and the chain below it, as returned. *)
Record LibIssued := mkLibIssued { li_CertificatePEM : string; li_Serial : string; li_NotAfter : Z }.

Definition Destroy (c : CA) : CA :=
  mkLibCA (k_cert c) (k_der c) None (k_chainDER c) (k_permittedDNS c) (k_maxPathLen c) (k_ekus c).

Definition defaultRootTTL : Z := 10 * 365 * 24 * 3600 * second.
Definition defaultCATTL : Z := 5 * 365 * 24 * 3600 * second.

Definition sign_with (key : option Key) (t issuer : Cert) (pub : string) : result string string :=
  match key with
  | None => Err "ca: CA key has been destroyed"
  | Some k => match CreateCertificate t issuer pub k with Some der => Ok der | None => Err "ca: create certificate" end
  end.

Definition lib_template (commonName : string) (permitted : list string) (maxPathLen : Z) (ekus : list string)
    (serial : string) (now ttl : Z) : Cert :=
  let set := 0 <=? maxPathLen in
  mkCert commonName "" serial true true (if set then maxPathLen else 0) (set && (maxPathLen =? 0)) permitted
    (ekusFromStrings ekus) [] (now - 60 * second) (now + ttl) true.

Definition signCACert (w : Draw) (commonName : string) (permitted : list string) (maxPathLen : Z) (ekus : list string)
    (ttl : Z) (parent : option Cert) (signerKey : option Key) (pub : string) : result string (string * Cert) :=
  match d_serial w with
  | None => Err "serial"
  | Some serial =>
      let tmpl := lib_template commonName permitted maxPathLen ekus serial (d_t1 w) ttl in
      let? der := sign_with signerKey tmpl (default tmpl parent) pub in
      match ParseCertificate der with
      | None => Err "parse"
      | Some cert => Ok (der, cert)
      end
  end.

(** [gen] is the key that is generated. *)
Definition NewRoot (w : Draw) (gen : option Key) (spec : HSpec) : result string CA :=
  match gen with
  | None => Err "generate key"
  | Some key =>
      let ttl := if hs_TTL spec <=? 0 then defaultRootTTL else hs_TTL spec in
      let? (der, cert) := signCACert w (hs_CommonName spec) (hs_PermittedDNSDomains spec) (hs_MaxPathLen spec)
                            (hs_EKUs spec) ttl None (Some key) (key_public key) in
      Ok (mkLibCA cert der (Some key) [der] (hs_PermittedDNSDomains spec) (hs_MaxPathLen spec) (ekusFromStrings (hs_EKUs spec)))
  end.

Definition CreateIntermediate (w : Draw) (gen : option Key) (c : CA) (spec : HSpec) : result string CA :=
  if k_maxPathLen c =? 0 then Err "ca: path-length constraint exhausted" else
  match gen with
  | None => Err "generate key"
  | Some key =>
      let childPathLen := if 0 <? k_maxPathLen c then k_maxPathLen c - 1 else -1 in
      let permitted := match hs_PermittedDNSDomains spec with [] => k_permittedDNS c | l => l end in
      let ekus := match hs_EKUs spec with [] => ekuStrings (k_ekus c) | l => l end in
      let ttl := if hs_TTL spec <=? 0 then defaultCATTL else hs_TTL spec in
      let? (der, cert) := signCACert w (hs_CommonName spec) permitted childPathLen ekus ttl (Some (k_cert c)) (k_key c)
                            (key_public key) in
      Ok (mkLibCA cert der (Some key) (der :: k_chainDER c) permitted childPathLen (ekusFromStrings ekus))
  end.

Definition ChainPEM (c : CA) : string := fold_left (fun out der => out +:+ EncodePEM der) (k_chainDER c) "".

Definition IssueLeafWithProfile (w : Draw) (c : CA) (csrDER : string) (ttl : Z) (prof : LeafProfile) : result LeafErr LibIssued :=
  let prof := applyCALane (k_permittedDNS c) (ekuStrings (k_ekus c)) prof in
  match k_key c with
  | None => Err (LeafOther "ca: CA key has been destroyed")
  | Some signer =>
      let? leafDER := SignLeafFromCSRWithProfile w (k_der c) signer csrDER ttl prof in
      match ParseLeaf leafDER with
      | None => Err (LeafOther "ca: parse issued leaf")
      | Some leaf => Ok (mkLibIssued (EncodePEM leafDER +:+ ChainPEM c) (l_Serial leaf) (l_NotAfter leaf))
      end
  end.

Definition no_profile : LeafProfile := mkLeafProfile [] [] [] [] [] 0 None [] [] [] [] [].

Definition IssueLeaf (w : Draw) (c : CA) (csrDER : string) (ttl : Z) : result LeafErr LibIssued :=
  IssueLeafWithProfile w c csrDER ttl no_profile.

Definition crossPathLen (cert : Cert) : Z * bool :=
  if (0 <? x_MaxPathLen cert) || x_MaxPathLenZero cert then (x_MaxPathLen cert, true) else (0, false).

Definition cross_template (c : CA) (other : Cert) (serial : string) : Cert :=
  let '(pathLen, hasPathLen) := crossPathLen other in
  let '(pathLen, hasPathLen) :=
    if (0 <=? k_maxPathLen c) && (negb hasPathLen || (k_maxPathLen c <? pathLen)) then (k_maxPathLen c, true)
    else (pathLen, hasPathLen) in
  mkCert (x_CommonName other) "" serial true true (if hasPathLen then pathLen else 0) (hasPathLen && (pathLen =? 0))
    (intersectDNS (x_PermittedDNSDomains other) (k_permittedDNS c)) [] [] (x_NotBefore other) (x_NotAfter other) true.

(** The DER of the cross-certificate, which is returned in PEM. *)
Definition CrossSign (w : Draw) (c : CA) (otherCertDER : string) : result string string :=
  match ParseCertificate otherCertDER with
  | None => Err "ca: parse cross-sign target"
  | Some other =>
      if negb (x_IsCA other) then Err "ca: cross-sign target is not a CA certificate" else
      match d_serial w with
      | None => Err "serial"
      | Some serial => sign_with (k_key c) (cross_template c other serial) (k_cert c) (x_PublicKey other)
      end
  end.

(** ** Cross-certificates *)

Lemma dnsPermitted_spec n l :
  dnsPermitted n l = true <-> exists p, p ∈ l /\ under n (GoStrings.TrimPrefix p ".").
Proof.
  induction l as [|p l IH]; cbn.
  - split; [done|]. intros (q & Hq & _). by apply elem_of_nil in Hq.
  - destruct (String.eqb n (GoStrings.TrimPrefix p ".") || GoStrings.HasSuffix n ("." +:+ GoStrings.TrimPrefix p ".")) eqn:E.
    + split; [intros _|done]. exists p. split; [by left|]. apply orb_true_iff in E as [E|E]; [left; by apply String.eqb_eq|by right].
    + rewrite IH. split; intros (q & Hq & Hu); exists q; (split; [|done]); [by right|].
      apply elem_of_cons in Hq as [->|]; [|done]. exfalso. apply orb_false_iff in E as [E1 E2].
      destruct Hu as [->|Hu]; [by rewrite String.eqb_refl in E1|congruence].
Qed.

(** What the intersection permits, both of its lists permit. *)
Lemma intersectDNS_sound n target signer :
  target <> [] -> signer <> [] -> dnsPermitted n (intersectDNS target signer) = true ->
  dnsPermitted n target = true /\ dnsPermitted n signer = true.
Proof.
  intros Ht Hs. rewrite !dnsPermitted_spec. intros (p & Hp & Hu). unfold intersectDNS in Hp.
  destruct signer as [|s0 ss] eqn:Es; [done|]. destruct target as [|t0 ts] eqn:Et; [done|]. rewrite <- Es, <- Et in *. clear Es Et.
  apply list_elem_of_In, filter_In in Hp as [Hp Hf]. apply list_elem_of_In in Hp. split; [by exists p|].
  apply orb_true_iff in Hf as [Hf|Hf].
  - apply dnsPermitted_spec in Hf as (q & Hq & Hv). exists q. split; [done|by eapply under_trans].
  - unfold containsFold in Hf. apply existsb_exists in Hf as (q & Hq & Hv). apply String.eqb_eq in Hv.
    exists q. split; [by apply list_elem_of_In|by rewrite Hv].
Qed.

(** A disjoint intersection is empty. *)
Lemma intersectDNS_disjoint target signer :
  target <> [] -> signer <> [] ->
  (forall d, d ∈ target -> dnsPermitted (GoStrings.TrimPrefix d ".") signer = false /\ containsFold signer d = false) ->
  intersectDNS target signer = [].
Proof.
  intros Ht Hs Hdis. unfold intersectDNS. destruct signer as [|s0 ss] eqn:Es; [done|]. destruct target as [|t0 ts] eqn:Et; [done|].
  apply elem_of_nil_inv. intros z Hz. apply list_elem_of_In, filter_In in Hz as [Hz Hw]. apply list_elem_of_In in Hz.
  destruct (Hdis _ Hz) as [H1 H2]. by rewrite H1, H2 in Hw.
Qed.

Lemma path_len_set d t : 0 <= d -> x_MaxPathLen t = d -> x_MaxPathLenZero t = (d =? 0) ->
  forall pub, hasPathLen (created t pub) = true /\ x_MaxPathLen (created t pub) = d.
Proof.
  intros Hd Hm Hz pub. unfold hasPathLen, created, path_len. cbn. rewrite Hm, Hz.
  destruct (Z.eqb_spec d 0) as [->|]; cbn; [done|]. by rewrite (proj2 (Z.ltb_lt 0 d)) by lia.
Qed.

(** The path length of a cross-certificate. *)
Lemma cross_path c other serial pub :
  x_MaxPathLenZero other = (x_MaxPathLen other =? 0) ->
  let x := created (cross_template c other serial) pub in
  (hasPathLen other = true -> hasPathLen x = true /\ x_MaxPathLen x <= x_MaxPathLen other) /\
  (0 <= k_maxPathLen c -> hasPathLen x = true /\ x_MaxPathLen x <= k_maxPathLen c).
Proof.
  intros Hz. unfold cross_template, crossPathLen. fold (hasPathLen other).
  assert (Hpos : hasPathLen other = true -> 0 <= x_MaxPathLen other).
  { unfold hasPathLen. rewrite Hz. destruct (Z.ltb_spec 0 (x_MaxPathLen other)); [lia|]. cbn. lia. }
  destruct (hasPathLen other) eqn:Ho; cbn [negb orb].
  - specialize (Hpos eq_refl). destruct ((0 <=? k_maxPathLen c) && _) eqn:E; cbn zeta.
    + apply andb_prop in E as [E1 E2]. apply Z.leb_le in E1. apply Z.ltb_lt in E2.
      match goal with |- context [created ?t ?q] => destruct (path_len_set (k_maxPathLen c) t ltac:(done) eq_refl eq_refl q) as [H1 H2] end. rewrite H1, H2. split; intros _; split; (done || lia).
    + match goal with |- context [created ?t ?q] => destruct (path_len_set (x_MaxPathLen other) t ltac:(done) eq_refl eq_refl q) as [H1 H2] end. rewrite H1, H2.
      apply andb_false_iff in E as [E|E]; [apply Z.leb_gt in E|apply Z.ltb_ge in E]; split; intros; split; (done || lia).
  - rewrite andb_true_r. destruct (0 <=? k_maxPathLen c) eqn:E; cbn zeta.
    + apply Z.leb_le in E. match goal with |- context [created ?t ?q] => destruct (path_len_set (k_maxPathLen c) t ltac:(done) eq_refl eq_refl q) as [H1 H2] end.
      rewrite H1, H2. split; [done|]. intros _. split; [done|lia].
    + apply Z.leb_gt in E. split; [done|intros ?; exfalso; lia].
Qed.

Context `{!X509Laws X}.

Lemma CrossSign_inv w c otherDER other crossDER cert :
  ParseCertificate otherDER = Some other -> CrossSign w c otherDER = Ok crossDER -> ParseCertificate crossDER = Some cert ->
  exists serial, cert = created (cross_template c other serial) (x_PublicKey other).
Proof.
  intros Ho H Hc. unfold CrossSign in H. rewrite Ho in H. case_in H; [done|]. destruct (d_serial w) as [serial|]; [|done].
  unfold sign_with in H. destruct (k_key c) as [k|]; [|done]. destruct (CreateCertificate _ _ _ _) as [der|] eqn:E; [|done].
  injection H as ->. exists serial. by eapply Create_Parse.
Qed.

(** What a cross-certificate takes from both sides.  It names the target's
    subject and key and its last second, its path length is bounded by the path
    length of the target and by what the signing CA has left, when they have
    one, and while it has name constraints each name they permit is permitted by
    the target's and by the signing CA's.  But where both are constrained and no
    domain of the target lies within the signing CA's, it has no name constraints
    at all. *)
Theorem cross_sign_clamps w c otherDER other crossDER cert :
  ParseCertificate otherDER = Some other -> CrossSign w c otherDER = Ok crossDER -> ParseCertificate crossDER = Some cert ->
  x_CommonName cert = x_CommonName other /\ x_PublicKey cert = x_PublicKey other /\ x_NotAfter cert = x_NotAfter other /\
  (hasPathLen other = true -> hasPathLen cert = true /\ x_MaxPathLen cert <= x_MaxPathLen other) /\
  (0 <= k_maxPathLen c -> hasPathLen cert = true /\ x_MaxPathLen cert <= k_maxPathLen c) /\
  (x_PermittedDNSDomains cert <> [] -> forall n, dnsPermitted n (x_PermittedDNSDomains cert) = true ->
     (x_PermittedDNSDomains other = [] \/ dnsPermitted n (x_PermittedDNSDomains other) = true) /\
     (k_permittedDNS c = [] \/ dnsPermitted n (k_permittedDNS c) = true)) /\
  (x_PermittedDNSDomains other <> [] -> k_permittedDNS c <> [] ->
   (forall d, d ∈ x_PermittedDNSDomains other ->
      dnsPermitted (GoStrings.TrimPrefix d ".") (k_permittedDNS c) = false /\ containsFold (k_permittedDNS c) d = false) ->
   x_PermittedDNSDomains cert = []).
Proof.
  intros Ho H Hc. destruct (CrossSign_inv _ _ _ _ _ _ Ho H Hc) as [serial ->].
  destruct (cross_path c other serial (x_PublicKey other) (Parse_path_len _ _ Ho)) as [P1 P2].
  assert (Hl : x_PermittedDNSDomains (created (cross_template c other serial) (x_PublicKey other))
               = intersectDNS (x_PermittedDNSDomains other) (k_permittedDNS c)).
  { unfold cross_template. destruct (crossPathLen other). by case_goal. }
  split_and!; try done.
  - unfold cross_template. destruct (crossPathLen other). by case_goal.
  - unfold cross_template. destruct (crossPathLen other). case_goal; cbn; unfold whole; rewrite (Parse_times _ _ Ho); lia.
  - rewrite Hl. intros _ n Hn. destruct (decide (k_permittedDNS c = [])) as [Es|Es].
    { split; [right|by left]. unfold intersectDNS in Hn. by rewrite Es in Hn. }
    destruct (decide (x_PermittedDNSDomains other = [])) as [Et|Et].
    { split; [by left|right]. unfold intersectDNS in Hn. rewrite Et in Hn. by destruct (k_permittedDNS c). }
    destruct (intersectDNS_sound n _ _ Et Es Hn). auto.
  - rewrite Hl. apply intersectDNS_disjoint.
Qed.

End CA.

(** ** A concrete cross-certificate *)

#[local] Existing Instance demo_net.

(** The target permits [example.com], the signing CA [a.example.com] only. *)
Definition demo_other : Cert := demo_root.

Definition demo_cross : Cert :=
  mkCert "root" "rk" "9" true true 0 true [] [] [] 0 (100 * second) true.

#[local] Instance cross_x509 : X509 := {|
  Key := unit;
  key_public := fun _ => "rk";
  ParseCertificate := fun der =>
    if String.eqb der "other" then Some demo_other else if String.eqb der "cross" then Some demo_cross else None;
  ParseCertificateRequest := fun _ => None;
  ParsePKIXPublicKey := fun _ => true;
  CreateCertificate := fun t _ pub _ => if decide (created t pub = demo_cross) then Some "cross" else None;
  CheckSignatureFrom := fun _ _ => true;
  CreateLeaf := fun _ _ _ _ => None;
  ParseLeaf := fun _ => None;
  CheckLeafSignature := fun _ _ => false;
  ParseOID := fun _ => false;
  EncodePEM := fun der => der
|}.

#[local] Instance cross_x509_laws : X509Laws cross_x509.
Proof.
  split.
  - cbn. intros t issuer pub key der c H Hp. case_in H; [|done]. injection H as <-. by injection Hp as <-.
  - done.
  - cbn. intros der c H. repeat case_in H; try done; by injection H as <-.
  - cbn. intros der c H. repeat case_in H; try done; by injection H as <-.
Qed.

Definition cross_ca : CA (X := cross_x509) :=
  mkLibCA (X := cross_x509) demo_root "signer" (Some tt) ["signer"] ["a.example.com"] 0 [].

Lemma cross_sign_clamps_witness :
  hasPathLen demo_cross = true /\ x_MaxPathLen demo_cross <= 0 /\ x_PermittedDNSDomains demo_cross = [].
Proof.
  destruct (cross_sign_clamps (mkDraw 0 0 0 (Some "9")) cross_ca "other" demo_other "cross" demo_cross) as (_ & _ & _ & _ & H1 & _ & H2).
  - reflexivity.
  - vm_compute. reflexivity.
  - reflexivity.
  - destruct (H1 (Z.le_refl 0)) as [H3 H4]. split_and!; [exact H3|exact H4|].
    apply H2; [discriminate|discriminate|]. intros d Hd. apply list_elem_of_singleton in Hd as ->. by vm_compute.
Defined.

End LibCA.
