(* ===== verification/CAHierarchy.v ===== *)
(** * The CA hierarchy service

    Models [src/internal/server/ca_hierarchy.go], the served CA hierarchy, with the
    ceremony purposes of [src/internal/ca/hierarchy/hierarchy.go].  Every CA key
    operation is gated by a key ceremony: the operation consumes the ceremony in
    the transaction that writes the CA row.

    The class [CryptoOps] holds the operations of the crypto boundary and of the
    isolated signer that the handlers call, [encoding/pem], and SHA-256; nothing is
    assumed of them.  The approval of a ceremony reads the ceremony, appends the
    event and projects it in separate steps, so it is the composition of
    [approve_check] and [approve_commit]. *)

From stdpp Require Import sorting.
From S2P Require Import Prelude Json Tenancy Events Projections KeyCeremony NameLane CACert.
Open Scope string_scope.
Open Scope list_scope.
Open Scope Z_scope.

Module CAHierarchy.
Import SE Tenancy Events KeyCeremony NameLane CACert.

(** ** Specifications and purposes *)

(** [api.CASpec]. *)
Record CASpec := mkCASpec {
  sp_CommonName : string;
  sp_PermittedDNSDomains : list string;
  sp_MaxPathLen : Z;
  sp_ExtendedKeyUsages : list string;
  sp_TTLSeconds : Z;
  sp_SignatureAlgorithm : string
}.

(** [certinfo.Info], the fields that are used. *)
Record Info := mkInfo { in_SerialNumber : string; in_Subject : string; in_NotAfter : Z }.

Inductive SignErr := SignNotFound | SignOther (msg : string).

Record PEMBlock := mkPEM { pem_Type : string; pem_Bytes : string }.

(** The crypto boundary, the signer client and [encoding/pem].  A [World] is what
    the process and the signer answer during one call: clocks, random serials,
    keys that exist, failures. *)
Class CryptoOps := {
  Signer : Type;
  World : Type;
  SHA256Hex : data -> string;
  signer_client : World -> bool;
  createOrBind : World -> string -> result string Signer;
  SignerForDualControlHandle : World -> string -> result SignErr Signer;
  SelfSignedHierarchyCA : World -> Signer -> HSpec -> result string Issued;
  SignIntermediateHierarchyCA : World -> string -> Signer -> Signer -> HSpec -> result string Issued;
  SignIntermediateHierarchyCAFromCSR : World -> string -> Signer -> string -> HSpec -> result string Issued;
  VerifyImportedOfflineRoot : World -> string -> HSpec -> result string Issued;
  VerifyImportedCAChain : World -> list string -> Signer -> HSpec -> result string (Issued * string);
  VerifyOfflineSignedIntermediate : World -> string -> string -> Signer -> HSpec -> result string Issued;
  CreateCertificateRequest : World -> string -> Signer -> result string string;
  SignLeafFromCSRWithProfile : World -> string -> Signer -> string -> Z -> LeafProfile -> result LeafErr string;
  Inspect : string -> result string Info;
  pem_Decode : string -> option (PEMBlock * string);
  pem_Encode : PEMBlock -> string;
  ToLowerUnicode : string -> string
}.

(** [sort.Strings]. *)
Definition sort_strings (l : list string) : list string := merge_sort String.le l.

(** A nil slice is marshalled as null. *)
Definition strs_json (l : list string) : json :=
  match l with [] => JNull | _ => JArr (JStr <$> l) end.

Definition purpose_payload (spec : HSpec) : data :=
  DJson (JObj [
    ("common_name", JStr (hs_CommonName spec));
    ("permitted_dns_domains", strs_json (sort_strings (hs_PermittedDNSDomains spec)));
    ("max_path_len", JNum (hs_MaxPathLen spec));
    ("ekus", strs_json (sort_strings (hs_EKUs spec)));
    ("ttl", JNum (hs_TTL spec))]).

Section Purposes.
Context {C : CryptoOps}.

Definition purposeSpecDigest (spec : HSpec) : string := SHA256Hex (purpose_payload spec).

Definition PurposeRoot (spec : HSpec) : string := "root:" +:+ purposeSpecDigest spec.

Definition PurposeIntermediate (parentCAID : string) (spec : HSpec) : string :=
  "intermediate:" +:+ parentCAID +:+ ":" +:+ purposeSpecDigest spec.

Definition PurposeRotate (caID : string) : string := "rotation:" +:+ caID.

Definition PurposeCrossSign (caID otherCertDER : string) : string :=
  "cross-sign:" +:+ caID +:+ ":" +:+ SHA256Hex (DRaw otherCertDER).

Definition validateCASpec (spec : CASpec) : option CAErr :=
  if String.eqb (sp_CommonName spec) "" then Some (ErrCAHierarchyInvalid "common_name is required")
  else if sp_TTLSeconds spec <? 0 then Some (ErrCAHierarchyInvalid "ttl_seconds cannot be negative")
  else
    let alg := GoStrings.ToLower ToLowerUnicode (sp_SignatureAlgorithm spec) in
    if String.eqb alg "" || String.eqb alg "ecdsa-p256" then None
    else Some (ErrCAHierarchyInvalid "only ecdsa-p256 CA keys are supported by the served signer path").

(** The conversion of a spec, for its purpose and for the crypto boundary; the
    multiplication may wrap. *)
Definition cryptoProfile (spec : CASpec) : HSpec :=
  mkHSpec (sp_CommonName spec) (sp_PermittedDNSDomains spec) (sp_MaxPathLen spec) (sp_ExtendedKeyUsages spec)
    (GoInt.wrap64 (sp_TTLSeconds spec * second)).

Definition hierarchyPurpose (operation parentID : string) (spec : CASpec) : result CAErr string :=
  match validateCASpec spec with
  | Some e => Err e
  | None =>
      let hs := cryptoProfile spec in
      if String.eqb operation "create_root" then Ok (PurposeRoot hs)
      else if String.eqb operation "create_intermediate" then
        if String.eqb parentID "" then Err (ErrCAHierarchyInvalid "parent_id is required for create_intermediate")
        else Ok (PurposeIntermediate parentID hs)
      else Err (ErrCAHierarchyInvalid "unsupported ceremony operation")
  end.

Definition offlineRootPurpose (certDER : string) (spec : CASpec) : result CAErr string :=
  let? rootPurpose := hierarchyPurpose "create_root" "" spec in
  Ok ("offline-root:" +:+ SHA256Hex (DRaw certDER) +:+ ":" +:+ rootPurpose).

Definition flattenDERChain (chain : list string) : string := fold_left String.append chain "".

Definition existingCAPurpose (chainDER : list string) (signerHandle : string) (spec : CASpec) : result CAErr string :=
  if String.eqb signerHandle "" then Err (ErrCAHierarchyInvalid "signer_handle is required for import_existing_ca") else
  let? rootPurpose := hierarchyPurpose "create_root" "" spec in
  Ok ("import-existing-ca:" +:+ signerHandle +:+ ":" +:+ SHA256Hex (DRaw (flattenDERChain chainDER)) +:+ ":" +:+ rootPurpose).

Definition offlineIntermediatePurpose (parentID : string) (spec : CASpec) : result CAErr string :=
  if String.eqb parentID "" then Err (ErrCAHierarchyInvalid "parent_id is required for create_offline_intermediate") else
  let? intermediatePurpose := hierarchyPurpose "create_intermediate" parentID spec in
  Ok ("offline-" +:+ intermediatePurpose).

Definition externalIntermediateCSRPurpose (parentID csrDER : string) (spec : CASpec) : result CAErr string :=
  if String.eqb parentID "" then Err (ErrCAHierarchyInvalid "parent_id is required for issue_intermediate_csr") else
  if String.eqb csrDER "" then Err (ErrCAHierarchyInvalid "csr_pem is required for issue_intermediate_csr") else
  let? specPurpose := hierarchyPurpose "create_intermediate" parentID spec in
  Ok ("intermediate-csr:" +:+ parentID +:+ ":" +:+ SHA256Hex (DRaw csrDER) +:+ ":" +:+ specPurpose).

Definition rekeyCAPurpose (authorityID : string) : result CAErr string :=
  let authorityID := GoStrings.TrimSpace authorityID in
  if String.eqb authorityID "" then Err (ErrCAHierarchyInvalid "authority_id is required for rekey_ca")
  else Ok (PurposeRotate authorityID).

(** ** PEM input

    The loops over the blocks of an input end because every block that is decoded
    leaves a shorter rest; the fuel is the length of the input. *)

(** [strings.Contains(block.Type, "PRIVATE KEY")]. *)
Fixpoint contains_str (s sub : string) : bool :=
  String.prefix sub s || match s with EmptyString => false | String _ s' => contains_str s' sub end.

Definition block_error (block : PEMBlock) : option CAErr :=
  if contains_str (pem_Type block) "PRIVATE KEY"
  then Some (ErrCAHierarchyInvalid "certificate_pem must not contain private key material")
  else if negb (String.eqb (pem_Type block) "CERTIFICATE")
  then Some (ErrCAHierarchyInvalid "certificate_pem contains unsupported PEM block")
  else None.

Fixpoint chain_loop (fuel : nat) (rest : string) (chain : list string) (normalized : string)
  : result CAErr (list string * string) :=
  match fuel with
  | O => Err ErrTx
  | S fuel' =>
      match pem_Decode rest with
      | None =>
          if negb (String.eqb (GoStrings.TrimSpace rest) "")
          then Err (ErrCAHierarchyInvalid "certificate_pem contains trailing non-PEM data")
          else Ok (chain, normalized)
      | Some (block, next) =>
          match block_error block with
          | Some e => Err e
          | None =>
              chain_loop fuel' next (chain ++ [pem_Bytes block])
                (normalized +:+ pem_Encode (mkPEM "CERTIFICATE" (pem_Bytes block)))
          end
      end
  end.

Definition certificateChainPEM (raw : string) : result CAErr (list string * string) :=
  let? (chain, normalized) := chain_loop (S (String.length raw)) raw [] "" in
  match chain with
  | [] => Err (ErrCAHierarchyInvalid "certificate_pem must contain at least one CERTIFICATE PEM block")
  | _ => Ok (chain, normalized)
  end.

Fixpoint single_loop (fuel : nat) (rest : string) (der : option string) : result CAErr (option string) :=
  match fuel with
  | O => Err ErrTx
  | S fuel' =>
      match pem_Decode rest with
      | None =>
          if negb (String.eqb (GoStrings.TrimSpace rest) "")
          then Err (ErrCAHierarchyInvalid "certificate_pem contains trailing non-PEM data")
          else Ok der
      | Some (block, next) =>
          match block_error block with
          | Some e => Err e
          | None =>
              match der with
              | Some _ => Err (ErrCAHierarchyInvalid "certificate_pem must contain exactly one CERTIFICATE block")
              | None => single_loop fuel' next (Some (pem_Bytes block))
              end
          end
      end
  end.

Definition singleCertificatePEM (raw : string) : result CAErr (string * string) :=
  let? der := single_loop (S (String.length raw)) raw None in
  match der with
  | None => Err (ErrCAHierarchyInvalid "certificate_pem must contain one CERTIFICATE PEM block")
  | Some der => Ok (der, pem_Encode (mkPEM "CERTIFICATE" der))
  end.

(** More fuel changes nothing when a decoded block leaves a shorter rest. *)
Section PEMFuel.
Context (shorter : forall s b r, pem_Decode s = Some (b, r) -> (String.length r < String.length s)%nat).

Lemma chain_loop_fuel n k rest chain normalized :
  (String.length rest < n)%nat -> (String.length rest < k)%nat ->
  chain_loop n rest chain normalized = chain_loop k rest chain normalized.
Proof.
  revert k rest chain normalized. induction n as [|n IH]; intros k rest chain normalized Hn Hk; [lia|].
  destruct k as [|k]; [lia|]. cbn. destruct (pem_Decode rest) as [[b r]|] eqn:E; [|done]. apply shorter in E.
  destruct (block_error b); [done|]. apply IH; lia.
Qed.

Lemma single_loop_fuel n k rest der :
  (String.length rest < n)%nat -> (String.length rest < k)%nat -> single_loop n rest der = single_loop k rest der.
Proof.
  revert k rest der. induction n as [|n IH]; intros k rest der Hn Hk; [lia|].
  destruct k as [|k]; [lia|]. cbn. destruct (pem_Decode rest) as [[b r]|] eqn:E; [|done]. apply shorter in E.
  destruct (block_error b); [done|]. destruct der; [done|]. apply IH; lia.
Qed.

End PEMFuel.

Definition csrDERFromPEM (csrPEM : string) : result CAErr string :=
  match pem_Decode csrPEM with
  | Some (block, _) =>
      if String.eqb (pem_Type block) "CERTIFICATE REQUEST" then Ok (pem_Bytes block)
      else Err (ErrCAHierarchyInvalid "csr_pem must contain one CERTIFICATE REQUEST PEM block")
  | None => Err (ErrCAHierarchyInvalid "csr_pem must contain one CERTIFICATE REQUEST PEM block")
  end.

Definition firstCertDER (chainPEM : string) : result CAErr string :=
  match pem_Decode chainPEM with
  | Some (block, _) =>
      if String.eqb (pem_Type block) "CERTIFICATE" then Ok (pem_Bytes block)
      else Err (ErrCAHierarchyInvalid "CA certificate PEM is malformed")
  | None => Err (ErrCAHierarchyInvalid "CA certificate PEM is malformed")
  end.

Record CACeremonyStartRequest := mkStartRequest {
  rq_Operation : string;
  rq_ParentID : string;
  rq_AuthorityID : string;
  rq_CSRPem : string;
  rq_CertificatePEM : string;
  rq_SignerHandle : string;
  rq_Threshold : Z;
  rq_Spec : CASpec
}.

Definition hierarchyPurposeFromStartRequest (req : CACeremonyStartRequest) : result CAErr string :=
  let op := rq_Operation req in
  if String.eqb op "import_offline_root" then
    let? (certDER, _) := singleCertificatePEM (rq_CertificatePEM req) in
    offlineRootPurpose certDER (rq_Spec req)
  else if String.eqb op "import_existing_ca" then
    let? (chainDER, _) := certificateChainPEM (rq_CertificatePEM req) in
    existingCAPurpose chainDER (rq_SignerHandle req) (rq_Spec req)
  else if String.eqb op "create_offline_intermediate" then offlineIntermediatePurpose (rq_ParentID req) (rq_Spec req)
  else if String.eqb op "issue_intermediate_csr" then
    let? csrDER := csrDERFromPEM (rq_CSRPem req) in
    externalIntermediateCSRPurpose (rq_ParentID req) csrDER (rq_Spec req)
  else if String.eqb op "rekey_ca" then rekeyCAPurpose (rq_AuthorityID req)
  else hierarchyPurpose op (rq_ParentID req) (rq_Spec req).

End Purposes.

(** ** The service *)

Section Service.
Context {C : CryptoOps} {ES : EventStream} {R : Router}.

Record Sys := mkSys {
  sy_db : CADB;
  sy_log : Stream;
  sy_signers : gmap string Signer
}.

(** What a call draws from outside: the clock, the id of an appended event, the
    actor of the context, a generated UUID, the world, and whether its database transaction
    commits. *)
Record CallEnv := mkEnv {
  ce_now : Z;
  ce_nuid : string;
  ce_actor : option Actor;
  ce_uuid : string;
  ce_world : World;
  ce_commits : bool
}.

Definition S_ (A : Type) : Type := SE.M Sys CAErr A.

Definition with_db (db : CADB) (s : Sys) : Sys := mkSys db (sy_log s) (sy_signers s).

(** A read outside of a transaction of the handler. *)
Definition query {A} (f : CADB -> result CAErr A) : S_ A := fun s => (f (sy_db s), s).

(** [WithTenant]: the writes of the closure are kept when it returns no error
    and the transaction commits. *)
Definition WithTenant {A} (env : CallEnv) (f : CADB -> result CAErr (A * CADB)) : S_ A := fun s =>
  match f (sy_db s) with
  | Err e => (Err e, s)
  | Ok (a, db) => if ce_commits env then (Ok a, with_db db s) else (Err ErrTx, s)
  end.

Definition caHierarchyConflict (e : CAErr) : CAErr :=
  match e with
  | ErrKeyCeremonyQuorumNotMet | ErrKeyCeremonyNotPending | ErrKeyCeremonyPurposeMismatch
  | ErrSelfApproval | ErrAnonymousApproval => ErrConflict e
  | _ => e
  end.

Definition conflicts {A} (m : S_ A) : S_ A := fun s =>
  match m s with
  | (Err e, s') => (Err (caHierarchyConflict e), s')
  | r => r
  end.

Definition appendEvent (env : CallEnv) (tenantID eventType : string) (payload : data) : S_ Event := fun s =>
  match Append (ce_now env) (ce_nuid env) (ce_actor env)
          (mkEvent "" eventType tenantID 0 payload 0 None 0) (sy_log s) with
  | (Ok ev, st) => (Ok ev, mkSys (sy_db s) st (sy_signers s))
  | (Err e, st) => (Err (ErrLog e), mkSys (sy_db s) st (sy_signers s))
  end.

Definition emit (env : CallEnv) (tenantID eventType : string) (fields : list (string * json)) : S_ unit :=
  let! _ := appendEvent env tenantID eventType (DJson (JObj fields)) in ret tt.

(** [projections.New(h.store).Apply]. *)
Definition Apply (env : CallEnv) (ev : Event) : S_ unit :=
  WithTenant env (fun db => let? db := apply_ca (ce_now env) ev db in Ok (tt, db)).

Definition opener_of (env : CallEnv) : string :=
  match ce_actor env with Some a => a_Subject a | None => "" end.

Definition started_payload (id purpose opener : string) (threshold : Z) : data :=
  encode_struct CACeremonyStarted_fields [VStr id; VStr purpose; VInt threshold; VStr opener].

Definition StartCeremony (env : CallEnv) (tenantID : string) (req : CACeremonyStartRequest) : S_ KeyCeremony :=
  if rq_Threshold req <? 1 then fail (ErrCAHierarchyInvalid "threshold must be at least 1") else
  let! purpose := lift (hierarchyPurposeFromStartRequest req) in
  let id := ce_uuid env in
  let! ev := appendEvent env tenantID EventCACeremonyStarted
               (started_payload id purpose (opener_of env) (rq_Threshold req)) in
  let! _ := Apply env ev in
  query (GetKeyCeremony tenantID id).

Definition GetCeremony (tenantID id : string) : S_ KeyCeremony := query (GetKeyCeremony tenantID id).

(** What an approval decides from what it reads: the ceremony when the custodian
    has already approved, or the custodian and the ceremony as read. *)
Definition approve_check (custodian tenantID id : string) (db : CADB) : result CAErr (KeyCeremony + string * KeyCeremony) :=
  if String.eqb custodian "" then Err ErrAnonymousApproval else
  let? current := GetKeyCeremony tenantID id db in
  if negb (String.eqb (kc_Status current) "pending") then Err ErrKeyCeremonyNotPending else
  if negb (String.eqb (kc_Opener current) "") && String.eqb (kc_Opener current) custodian then Err ErrSelfApproval else
  if KeyCeremonyApprovalEvidenced tenantID id custodian db then Ok (inl current)
  else Ok (inr (custodian, current)).

Definition approved_payload (id custodian : string) (approvals : Z) : data :=
  encode_struct CACeremonyApproved_fields [VStr id; VStr custodian; VInt approvals].

Definition approve_commit (env : CallEnv) (tenantID id custodian : string) (current : KeyCeremony) : S_ KeyCeremony :=
  let! ev := appendEvent env tenantID EventCACeremonyApproved
               (approved_payload id custodian (kc_Approvals current + 1)) in
  let! _ := Apply env ev in
  query (GetKeyCeremony tenantID id).

Definition ApproveCeremony (env : CallEnv) (tenantID id : string) : S_ KeyCeremony :=
  let! r := query (approve_check (opener_of env) tenantID id) in
  match r with
  | inl current => ret current
  | inr (custodian, current) => approve_commit env tenantID id custodian current
  end.

Definition hierarchySignerHandle (ceremonyID : string) : string := "ca-hierarchy-" +:+ ceremonyID.

Definition createOrBindSigner (w : World) (handle : string) : result CAErr Signer :=
  if negb (signer_client w) then Err ErrCAHierarchyUnavailable else
  match createOrBind w handle with
  | Ok signer => Ok signer
  | Err msg => Err (ErrCrypto msg)
  end.

Definition rememberSigner (caID : string) (signer : Signer) : S_ unit := fun s =>
  if String.eqb caID "" then (Ok tt, s)
  else (Ok tt, mkSys (sy_db s) (sy_log s) (<[caID := signer]> (sy_signers s))).

Definition signerForAuthority (w : World) (ca : CAAuthority) : S_ Signer := fun s =>
  if String.eqb (ca_SignerHandle ca) "" then (Err ErrCAHierarchyUnavailable, s) else
  match sy_signers s !! ca_ID ca with
  | Some signer => (Ok signer, s)
  | None =>
      if negb (signer_client w) then (Err ErrCAHierarchyUnavailable, s) else
      match SignerForDualControlHandle w (ca_SignerHandle ca) with
      | Err SignNotFound => (Err (ErrCrypto "not found"), s)
      | Err (SignOther msg) => (Err (ErrCrypto msg), s)
      | Ok signer => bind (rememberSigner (ca_ID ca) signer) (fun _ => ret signer) s
      end
  end.

(** An error of the crypto boundary that the handler reports as invalid. *)
Definition invalid {A} (r : result string A) : result CAErr A :=
  match r with
  | Ok a => Ok a
  | Err msg => Err (ErrCAHierarchyInvalid msg)
  end.

Definition crypto {A} (r : result string A) : result CAErr A :=
  match r with
  | Ok a => Ok a
  | Err msg => Err (ErrCrypto msg)
  end.

Definition required (cond : bool) (msg : string) : S_ unit :=
  if cond then fail (ErrCAHierarchyInvalid msg) else ret tt.

(** The row of a CA that has been issued. *)
Definition issued_row (tenantID : string) (parent : option string) (commonName kind pem handle : string) (i : Issued)
  : CAAuthority :=
  mkCA "" tenantID parent commonName kind "active" pem handle (is_Serial i) (is_NotAfter i) (is_MaxPathLen i)
    (is_PermittedDNSDomains i) (is_EKUs i) None 0.

Definition CreateRoot (env : CallEnv) (tenantID ceremonyID : string) (spec : CASpec) : S_ CAAuthority :=
  let! _ := required (empty_str ceremonyID) "ceremony_id is required" in
  let! purpose := lift (hierarchyPurpose "create_root" "" spec) in
  let handle := hierarchySignerHandle ceremonyID in
  let! (created, signer) := conflicts (WithTenant env (fun db =>
    let? (_, db) := ConsumeKeyCeremonyTx tenantID ceremonyID purpose db in
    let? signer := createOrBindSigner (ce_world env) handle in
    let? issued := invalid (SelfSignedHierarchyCA (ce_world env) signer (cryptoProfile spec)) in
    let? (c, db) := InsertCAAuthorityTx (ce_uuid env) (ce_now env)
                      (issued_row tenantID None (sp_CommonName spec) "root" (is_CertificatePEM issued) handle issued) db in
    Ok (c, signer, db))) in
  let! _ := rememberSigner (ca_ID created) signer in
  let! _ := emit env tenantID "ca.root.created"
              [("ca_id", JStr (ca_ID created)); ("ceremony_id", JStr ceremonyID);
               ("common_name", JStr (ca_CommonName created)); ("signer_handle", JStr handle)] in
  ret created.

Definition ImportOfflineRoot (env : CallEnv) (tenantID ceremonyID certificatePEM : string) (spec : CASpec) : S_ CAAuthority :=
  let! _ := required (empty_str ceremonyID) "ceremony_id is required" in
  let! (rootDER, rootPEM) := lift (singleCertificatePEM certificatePEM) in
  let! issued := lift (invalid (VerifyImportedOfflineRoot (ce_world env) rootDER (cryptoProfile spec))) in
  let! purpose := lift (offlineRootPurpose rootDER spec) in
  let! created := conflicts (WithTenant env (fun db =>
    let? (_, db) := ConsumeKeyCeremonyTx tenantID ceremonyID purpose db in
    InsertCAAuthorityTx (ce_uuid env) (ce_now env)
      (issued_row tenantID None (is_CommonName issued) "root" rootPEM "" issued) db)) in
  let! _ := emit env tenantID "ca.root.created"
              [("ca_id", JStr (ca_ID created)); ("ceremony_id", JStr ceremonyID);
               ("common_name", JStr (ca_CommonName created)); ("offline_root", JBool true)] in
  ret created.

Definition ImportExisting (env : CallEnv) (tenantID ceremonyID certificatePEM signerHandle : string) (spec : CASpec)
  : S_ CAAuthority :=
  let! _ := required (empty_str ceremonyID || empty_str signerHandle) "ceremony_id and signer_handle are required" in
  let! (chainDER, chainPEM) := lift (certificateChainPEM certificatePEM) in
  let! _ := if negb (signer_client (ce_world env)) then fail ErrCAHierarchyUnavailable else ret tt in
  let! signer := lift (match SignerForDualControlHandle (ce_world env) signerHandle with
                       | Ok s => Ok s
                       | Err SignNotFound => Err (ErrCrypto "not found")
                       | Err (SignOther msg) => Err (ErrCrypto msg)
                       end) in
  let! (issued, kind) := lift (invalid (VerifyImportedCAChain (ce_world env) chainDER signer (cryptoProfile spec))) in
  let! purpose := lift (existingCAPurpose chainDER signerHandle spec) in
  let! created := conflicts (WithTenant env (fun db =>
    let? (_, db) := ConsumeKeyCeremonyTx tenantID ceremonyID purpose db in
    InsertCAAuthorityTx (ce_uuid env) (ce_now env)
      (issued_row tenantID None (is_CommonName issued) kind chainPEM signerHandle issued) db)) in
  let! _ := rememberSigner (ca_ID created) signer in
  let! _ := emit env tenantID "ca.authority.imported"
              [("ca_id", JStr (ca_ID created)); ("ceremony_id", JStr ceremonyID);
               ("chain_sha256", JStr (SHA256Hex (DRaw chainPEM))); ("common_name", JStr (ca_CommonName created));
               ("kind", JStr kind); ("signer_handle", JStr signerHandle)] in
  ret created.

Definition CreateIntermediate (env : CallEnv) (tenantID ceremonyID parentID : string) (spec : CASpec) : S_ CAAuthority :=
  let! _ := required (empty_str ceremonyID || empty_str parentID) "ceremony_id and parent_id are required" in
  let! parent := query (GetCAAuthority tenantID parentID) in
  let! parentDER := lift (firstCertDER (ca_CertificatePEM parent)) in
  let! parentSigner := signerForAuthority (ce_world env) parent in
  let! purpose := lift (hierarchyPurpose "create_intermediate" parentID spec) in
  let handle := hierarchySignerHandle ceremonyID in
  let! (created, childSigner) := conflicts (WithTenant env (fun db =>
    let? (_, db) := ConsumeKeyCeremonyTx tenantID ceremonyID purpose db in
    let? childSigner := createOrBindSigner (ce_world env) handle in
    let? issued := invalid (SignIntermediateHierarchyCA (ce_world env) parentDER parentSigner childSigner (cryptoProfile spec)) in
    let? (c, db) := InsertCAAuthorityTx (ce_uuid env) (ce_now env)
                      (issued_row tenantID (Some parentID) (sp_CommonName spec) "intermediate"
                         (is_CertificatePEM issued +:+ ca_CertificatePEM parent) handle issued) db in
    Ok (c, childSigner, db))) in
  let! _ := rememberSigner (ca_ID created) childSigner in
  let! _ := emit env tenantID "ca.intermediate.created"
              [("ca_id", JStr (ca_ID created)); ("ceremony_id", JStr ceremonyID);
               ("parent_id", JStr parentID); ("signer_handle", JStr handle)] in
  ret created.

Definition requirePendingCeremonyQuorum (tenantID ceremonyID purpose : string) (db : CADB) : result CAErr unit :=
  let? c := GetKeyCeremony tenantID ceremonyID db in
  if negb (String.eqb (kc_Status c) "pending") then Err ErrKeyCeremonyNotPending
  else if negb (String.eqb (kc_Purpose c) purpose) then Err ErrKeyCeremonyPurposeMismatch
  else if kc_Approvals c <? kc_Threshold c then Err ErrKeyCeremonyQuorumNotMet
  else Ok tt.

Definition offline_root (parent : CAAuthority) : bool :=
  negb (negb (String.eqb (ca_Kind parent) "root") || negb (String.eqb (ca_SignerHandle parent) "")).

(** The CSR of an offline intermediate needs the quorum and leaves the ceremony
    pending; the import of the signed certificate consumes it. *)
Definition CreateOfflineIntermediateCSR (env : CallEnv) (tenantID caID ceremonyID : string) (spec : CASpec)
  : S_ (string * string) :=
  let! _ := required (empty_str ceremonyID) "ceremony_id is required" in
  let! parent := query (GetCAAuthority tenantID caID) in
  let! _ := required (negb (offline_root parent)) "parent must be an imported offline root" in
  let! purpose := lift (offlineIntermediatePurpose caID spec) in
  let! _ := conflicts (query (requirePendingCeremonyQuorum tenantID ceremonyID purpose)) in
  let handle := hierarchySignerHandle ceremonyID in
  let! signer := lift (createOrBindSigner (ce_world env) handle) in
  let! csrDER := lift (invalid (CreateCertificateRequest (ce_world env) (sp_CommonName spec) signer)) in
  let csrPEM := pem_Encode (mkPEM "CERTIFICATE REQUEST" csrDER) in
  let! _ := emit env tenantID "ca.intermediate_csr.issued"
              [("ca_id", JStr caID); ("ceremony_id", JStr ceremonyID); ("csr_sha256", JStr (SHA256Hex (DRaw csrDER)));
               ("offline_root", JBool true); ("signer_handle", JStr handle)] in
  ret (csrPEM, handle).

Definition ImportOfflineIntermediate (env : CallEnv) (tenantID caID ceremonyID certificatePEM : string) (spec : CASpec)
  : S_ CAAuthority :=
  let! _ := required (empty_str ceremonyID) "ceremony_id is required" in
  let! parent := query (GetCAAuthority tenantID caID) in
  let! _ := required (negb (offline_root parent)) "parent must be an imported offline root" in
  let! parentDER := lift (firstCertDER (ca_CertificatePEM parent)) in
  let! (childDER, childPEM) := lift (singleCertificatePEM certificatePEM) in
  let! purpose := lift (offlineIntermediatePurpose caID spec) in
  let handle := hierarchySignerHandle ceremonyID in
  let! _ := if negb (signer_client (ce_world env)) then fail ErrCAHierarchyUnavailable else ret tt in
  let! childSigner := lift (match SignerForDualControlHandle (ce_world env) handle with
                            | Ok s => Ok s
                            | Err SignNotFound => Err (ErrCAHierarchyConflict "offline intermediate CSR has not been generated")
                            | Err (SignOther msg) => Err (ErrCrypto msg)
                            end) in
  let! issued := lift (invalid (VerifyOfflineSignedIntermediate (ce_world env) parentDER childDER childSigner (cryptoProfile spec))) in
  let! created := conflicts (WithTenant env (fun db =>
    let? (_, db) := ConsumeKeyCeremonyTx tenantID ceremonyID purpose db in
    InsertCAAuthorityTx (ce_uuid env) (ce_now env)
      (issued_row tenantID (Some caID) (is_CommonName issued) "intermediate"
         (childPEM +:+ ca_CertificatePEM parent) handle issued) db)) in
  let! _ := rememberSigner (ca_ID created) childSigner in
  let! _ := emit env tenantID "ca.intermediate.created"
              [("ca_id", JStr (ca_ID created)); ("ceremony_id", JStr ceremonyID); ("offline_root", JBool true);
               ("parent_id", JStr caID); ("signer_handle", JStr handle)] in
  ret created.

(** An external subordinate CA: the certificate is returned and not recorded as
    an authority. *)
Definition IssueIntermediateCSR (env : CallEnv) (tenantID caID ceremonyID csrDER : string) (spec : CASpec)
  : S_ (string * Info) :=
  let! _ := required (empty_str ceremonyID) "ceremony_id is required" in
  let! _ := required (empty_str csrDER) "CSR is required" in
  let! _ := required (sp_TTLSeconds spec <=? 0) "spec.ttl_seconds must be positive" in
  let! _ := match validateCASpec spec with Some e => fail e | None => ret tt end in
  let! ca := query (GetCAAuthority tenantID caID) in
  let! signer := signerForAuthority (ce_world env) ca in
  let! caDER := lift (firstCertDER (ca_CertificatePEM ca)) in
  let profile := cryptoProfile spec in
  let profile :=
    match hs_PermittedDNSDomains profile with
    | [] => mkHSpec (hs_CommonName profile) (ca_PermittedDNSNames ca) (hs_MaxPathLen profile) (hs_EKUs profile) (hs_TTL profile)
    | _ => profile
    end in
  let! purpose := lift (externalIntermediateCSRPurpose caID csrDER spec) in
  let! (issued, info) := conflicts (WithTenant env (fun db =>
    let? (_, db) := ConsumeKeyCeremonyTx tenantID ceremonyID purpose db in
    let? issued := invalid (SignIntermediateHierarchyCAFromCSR (ce_world env) caDER signer csrDER profile) in
    let? info := crypto (Inspect (is_CertificateDER issued)) in
    Ok (issued, info, db))) in
  let! _ := emit env tenantID "ca.intermediate_csr.issued"
              [("ca_id", JStr caID); ("ceremony_id", JStr ceremonyID);
               ("serial", JStr (in_SerialNumber info)); ("subject", JStr (in_Subject info))] in
  ret (is_CertificatePEM issued +:+ ca_CertificatePEM ca, info).

(** ** Rotation and re-key *)

Definition sameStringPtr (a b : option string) : bool :=
  match a, b with
  | Some x, Some y => String.eqb x y
  | None, None => true
  | _, _ => false
  end.

Definition fold_key (v : string) : string := GoStrings.ToLower ToLowerUnicode (GoStrings.TrimSpace v).

Fixpoint remove_all (seen : gmap string Z) (b : list string) : bool :=
  match b with
  | [] => true
  | v :: b' =>
      let k := fold_key v in
      let n := default 0 (seen !! k) in
      if n =? 0 then false else remove_all (<[k := n - 1]> seen) b'
  end.

Definition sameStringSet (a b : list string) : bool :=
  if negb (Nat.eqb (length a) (length b)) then false else
  remove_all (fold_left (fun seen v => <[fold_key v := default 0 (seen !! fold_key v) + 1]> seen) a ∅) b.

Definition validateAuthorityRotation (p s : CAAuthority) : option CAErr :=
  if negb (String.eqb (ca_Status p) "active") then Some (ErrCAHierarchyConflict "predecessor CA must be active")
  else if negb (String.eqb (ca_Status s) "active") then Some (ErrCAHierarchyConflict "successor CA must be active")
  else if empty_str (ca_SignerHandle p) || empty_str (ca_SignerHandle s)
  then Some (ErrCAHierarchyInvalid "predecessor and successor must both be signer-backed issuing authorities")
  else if negb (String.eqb (ca_Kind p) (ca_Kind s))
  then Some (ErrCAHierarchyInvalid "successor kind must match predecessor kind")
  else if negb (sameStringPtr (ca_ParentID p) (ca_ParentID s))
  then Some (ErrCAHierarchyInvalid "successor must share the predecessor parent authority")
  else if match ca_ReplacesID s with Some r => negb (String.eqb r (ca_ID p)) | None => false end
  then Some (ErrCAHierarchyConflict "successor already replaces a different CA")
  else if negb (ca_MaxPathLen p =? ca_MaxPathLen s)
  then Some (ErrCAHierarchyInvalid "successor max_path_len must match predecessor")
  else if negb (sameStringSet (ca_PermittedDNSNames p) (ca_PermittedDNSNames s))
  then Some (ErrCAHierarchyInvalid "successor DNS constraints must match predecessor")
  else if negb (sameStringSet (ca_EKUs p) (ca_EKUs s))
  then Some (ErrCAHierarchyInvalid "successor EKUs must match predecessor")
  else None.

Definition check (r : option CAErr) : result CAErr unit :=
  match r with Some e => Err e | None => Ok tt end.

(** [url.PathEscape] of an id, which is a UUID, changes nothing. *)
Definition caAuthorityIssuePath (id : string) : string := "/api/v1/ca/authorities/" +:+ id +:+ "/issue".

Definition rotated_payload (pred succ reason : string) : data :=
  encode_struct CAAuthorityRotated_fields
    [VStr pred; VStr succ; VStr reason; VStr (caAuthorityIssuePath pred); VStr (caAuthorityIssuePath succ)].

(** The transaction of a handler that appends an event inside of it: the event is
    in the log, and a signer that the closure bound is in the cache, whether or not the
    transaction commits. *)
Definition with_tenant_append {A} (env : CallEnv) (plan : CADB -> S_ (A * (string * data) * CADB))
    (tenantID : string) : S_ A := fun s =>
  match plan (sy_db s) s with
  | (Err e, s) => (Err e, s)
  | (Ok (a, (eventType, payload), db), s) =>
      match appendEvent env tenantID eventType payload s with
      | (Err e, s') => (Err e, s')
      | (Ok ev, s') =>
          match apply_ca (ce_now env) ev db with
          | Err e => (Err e, s')
          | Ok db' => if ce_commits env then (Ok a, with_db db' s') else (Err ErrTx, s')
          end
      end
  end.

Definition RotateAuthority (env : CallEnv) (tenantID caID successorID reason : string) : S_ (CAAuthority * CAAuthority) :=
  let successorID := GoStrings.TrimSpace successorID in
  let! _ := required (empty_str caID || empty_str successorID) "predecessor and successor_id are required" in
  let! _ := required (String.eqb caID successorID) "successor_id must be a different CA authority" in
  conflicts (with_tenant_append env (fun db => lift (
    let? p := GetCAAuthorityForUpdateTx tenantID caID db in
    let? s := GetCAAuthorityForUpdateTx tenantID successorID db in
    let? _ := check (validateAuthorityRotation p s) in
    Ok ((set_ca_status "superseded" p, set_ca_replaces (ca_ID p) s),
        (EventCAAuthorityRotated, rotated_payload (ca_ID p) (ca_ID s) (GoStrings.TrimSpace reason)), db))) tenantID).

Definition validateAuthorityRekey (ca : CAAuthority) : option CAErr :=
  if negb (String.eqb (ca_Status ca) "active") then Some (ErrCAHierarchyConflict "CA authority must be active to re-key")
  else if empty_str (ca_SignerHandle ca) then Some (ErrCAHierarchyInvalid "CA authority must be signer-backed to re-key")
  else if String.eqb (ca_Kind ca) "root" || String.eqb (ca_Kind ca) "intermediate" then None
  else Some (ErrCAHierarchyInvalid "unsupported CA kind").

Definition rekeyAuthoritySpec (ca : CAAuthority) (ttlSeconds : Z) : CASpec :=
  mkCASpec (ca_CommonName ca) (ca_PermittedDNSNames ca) (ca_MaxPathLen ca) (ca_EKUs ca) ttlSeconds "ecdsa-p256".

Definition issueRekeyedCA (w : World) (tenantID : string) (predecessor : CAAuthority) (signer : Signer) (spec : CASpec) (db : CADB)
  : S_ (Issued * string) :=
  if String.eqb (ca_Kind predecessor) "root" then
    let! issued := lift (invalid (SelfSignedHierarchyCA w signer (cryptoProfile spec))) in
    ret (issued, is_CertificatePEM issued)
  else if String.eqb (ca_Kind predecessor) "intermediate" then
    match ca_ParentID predecessor with
    | None => fail (ErrCAHierarchyInvalid "intermediate CA has no parent authority")
    | Some pid =>
        if empty_str pid then fail (ErrCAHierarchyInvalid "intermediate CA has no parent authority") else
        let! parent := lift (GetCAAuthorityForUpdateTx tenantID pid db) in
        let! _ := required (negb (String.eqb (ca_Status parent) "active") || empty_str (ca_SignerHandle parent))
                    "parent CA must be active and signer-backed for served re-key" in
        let! parentDER := lift (firstCertDER (ca_CertificatePEM parent)) in
        let! parentSigner := signerForAuthority w parent in
        let! issued := lift (invalid (SignIntermediateHierarchyCA w parentDER parentSigner signer (cryptoProfile spec))) in
        ret (issued, is_CertificatePEM issued +:+ ca_CertificatePEM parent)
    end
  else fail (ErrCAHierarchyInvalid "unsupported CA kind").

Definition rekeyed_payload (c : CAAuthority) (pred ceremonyID reason : string) : data :=
  encode_struct CAAuthorityRekeyed_fields
    [VStr (ca_ID c); VStr pred; VPtrStr (ca_ParentID c); VStr (ca_CommonName c); VStr (ca_Kind c);
     VStr (ca_CertificatePEM c); VStr (ca_SignerHandle c); VStr (ca_Serial c); VInt (ca_NotAfter c);
     VInt (ca_MaxPathLen c); VStrs (ca_PermittedDNSNames c); VStrs (ca_EKUs c); VStr ceremonyID; VStr reason;
     VStr (caAuthorityIssuePath pred); VStr (caAuthorityIssuePath (ca_ID c))].

Definition RekeyAuthority (env : CallEnv) (tenantID caID ceremonyID reason : string) (ttlSeconds : Z)
  : S_ (CAAuthority * CAAuthority) :=
  let ceremonyID := GoStrings.TrimSpace ceremonyID in
  let! _ := required (empty_str caID || empty_str ceremonyID) "authority id and ceremony_id are required" in
  let! _ := required (ttlSeconds <? 0) "ttl_seconds cannot be negative" in
  let! purpose := lift (rekeyCAPurpose caID) in
  let handle := hierarchySignerHandle ceremonyID in
  let newID := ce_uuid env in
  let! (predecessor, successor, signer) := conflicts (with_tenant_append env (fun db =>
    let! (p, db) := lift (
      let? p := GetCAAuthorityForUpdateTx tenantID caID db in
      let? _ := check (validateAuthorityRekey p) in
      let? (_, db) := ConsumeKeyCeremonyTx tenantID ceremonyID purpose db in
      Ok (p, db)) in
    let! signer := lift (createOrBindSigner (ce_world env) handle) in
    let spec := rekeyAuthoritySpec p ttlSeconds in
    let! (issued, chainPEM) := issueRekeyedCA (ce_world env) tenantID p signer spec db in
    let successor := mkCA newID tenantID (ca_ParentID p) (sp_CommonName spec) (ca_Kind p) "active" chainPEM handle
                       (is_Serial issued) (is_NotAfter issued) (is_MaxPathLen issued)
                       (is_PermittedDNSDomains issued) (is_EKUs issued) None 0 in
    ret ((set_ca_status "superseded" p, set_ca_replaces (ca_ID p) successor, signer),
         (EventCAAuthorityRekeyed, rekeyed_payload successor (ca_ID p) ceremonyID (GoStrings.TrimSpace reason)), db)) tenantID) in
  let! _ := rememberSigner (ca_ID successor) signer in
  ret (predecessor, successor).

(** Which CA signs a leaf asked of [caID]. *)
Definition issuingAuthority (tenantID caID : string) (db : CADB) : result CAErr (CAAuthority * CAAuthority) :=
  let? ca := GetCAAuthority tenantID caID db in
  if String.eqb (ca_Status ca) "active" then Ok (ca, ca)
  else if String.eqb (ca_Status ca) "superseded" then
    match FindActiveCAAuthoritySuccessor tenantID (ca_ID ca) db with
    | Ok successor => Ok (ca, successor)
    | Err ErrNoRows => Err (ErrCAHierarchyConflict "superseded CA has no active successor")
    | Err e => Err e
    end
  else if String.eqb (ca_Status ca) "revoked" then Err (ErrCAHierarchyConflict "revoked CA cannot issue")
  else Err (ErrCAHierarchyConflict "CA status cannot issue").

End Service.

Section Leaves.
Context {N : NetOps} {C : CryptoOps} {ES : EventStream} {R : Router}.

(** [leafProfile] is the profile the service was built with. *)
Definition IssueLeaf (leafProfile : LeafProfile) (env : CallEnv) (tenantID caID csrDER : string) (ttlSeconds : Z)
  : S_ (string * Info) :=
  let! _ := required (empty_str csrDER) "CSR is required" in
  let! _ := required (ttlSeconds <=? 0) "ttl_seconds must be positive" in
  let! (requestedCA, ca) := query (issuingAuthority tenantID caID) in
  let! signer := signerForAuthority (ce_world env) ca in
  let! caDER := lift (firstCertDER (ca_CertificatePEM ca)) in
  let profile := applyAuthorityLane leafProfile ca in
  let! leafDER := lift (match SignLeafFromCSRWithProfile (ce_world env) caDER signer csrDER
                                (GoInt.wrap64 (ttlSeconds * second)) profile with
                        | Ok der => Ok der
                        | Err e => if IsLeafProfileViolation e then Err (ErrCAHierarchyInvalid "leaf profile violation")
                                   else Err (ErrCrypto "sign leaf")
                        end) in
  let! info := lift (crypto (Inspect leafDER)) in
  let out := pem_Encode (mkPEM "CERTIFICATE" leafDER) +:+ ca_CertificatePEM ca in
  let fields :=
    if String.eqb (ca_ID requestedCA) (ca_ID ca)
    then [("ca_id", JStr caID); ("serial", JStr (in_SerialNumber info)); ("subject", JStr (in_Subject info))]
    else [("ca_id", JStr (ca_ID ca)); ("requested_ca_id", JStr (ca_ID requestedCA)); ("rotation_routed", JBool true);
          ("serial", JStr (in_SerialNumber info)); ("subject", JStr (in_Subject info))] in
  let! ev := appendEvent env tenantID "ca.endentity.issued" (DJson (JObj fields)) in
  let! _ := Apply env ev in
  ret (out, info).

End Leaves.

End CAHierarchy.
