(* ===== verification/CAIssuance.v ===== *)
(** * Issuing a leaf from the hierarchy, end to end

    [x509_crypto] builds the crypto boundary of [CAHierarchy] from the definitions
    of [CACert] over [crypto/x509] and a [Host] (the signer client, SHA-256 and
    PEM).  [issued_leaf_in_lane] follows one request through the service: which CA
    signs, and which names the certificate may carry. *)

From S2P Require Import Prelude Json Tenancy Events Projections KeyCeremony NameLane CACert CAHierarchy.
Open Scope string_scope.
Open Scope list_scope.
Open Scope Z_scope.

Module CAIssuance.
Import SE Tenancy Events KeyCeremony NameLane CACert CAHierarchy.

(** What the crypto boundary uses besides [crypto/x509]. *)
Class Host {N : NetOps} {X : X509} := {
  h_World : Type;
  h_SHA256Hex : data -> string;
  h_client : h_World -> bool;
  h_createOrBind : h_World -> string -> result string Key;
  h_signerFor : h_World -> string -> result SignErr Key;
  h_csr : h_World -> string -> Key -> result string string;
  h_Inspect : string -> result string Info;
  h_pem_Decode : string -> option (PEMBlock * string);
  h_pem_Encode : PEMBlock -> string
}.

#[export] Instance x509_crypto {N : NetOps} {X : X509} {H : Host} : CryptoOps := {|
  Signer := Key;
  World := Draw * h_World;
  SHA256Hex := h_SHA256Hex;
  signer_client := fun w => h_client w.2;
  createOrBind := fun w => h_createOrBind w.2;
  SignerForDualControlHandle := fun w => h_signerFor w.2;
  SelfSignedHierarchyCA := fun w => CACert.SelfSignedHierarchyCA w.1;
  SignIntermediateHierarchyCA := fun w parent key child => CACert.SignIntermediateHierarchyCA w.1 parent key (key_public child);
  SignIntermediateHierarchyCAFromCSR := fun w => CACert.SignIntermediateHierarchyCAFromCSR w.1;
  VerifyImportedOfflineRoot := fun w => CACert.VerifyImportedOfflineRoot w.1;
  VerifyImportedCAChain := fun w chain key => CACert.VerifyImportedCAChain w.1 chain (key_public key);
  VerifyOfflineSignedIntermediate := fun w parent cert key => CACert.VerifyOfflineSignedIntermediate w.1 parent cert (key_public key);
  CreateCertificateRequest := fun w => h_csr w.2;
  SignLeafFromCSRWithProfile := fun w => CACert.SignLeafFromCSRWithProfile w.1;
  Inspect := h_Inspect;
  pem_Decode := h_pem_Decode;
  pem_Encode := h_pem_Encode;
  ToLowerUnicode := LowerUnicode
|}.

Section Issuance.
Context {N : NetOps} {X : X509} {L : X509Laws X} {H : Host} {ES : EventStream} {R : Router}.

(** ** The leaf *)

(** A leaf that is returned carries the names and the key of the request and the
    usages of the profile, is within the profile, and checks under the CA. *)
Definition leaf_of (w : Draw) (caDER csrDER : string) (ttl : Z) (prof : LeafProfile) (leaf : Leaf) : Prop :=
  exists caCert csr ekus, ParseCertificate caDER = Some caCert /\ ParseCertificateRequest csrDER = Some csr /\
    csr_SignatureOK csr = true /\ CheckLeafSignature leaf caCert = true /\
    l_SANs leaf = csr_SANs csr /\ l_PublicKey leaf = csr_PublicKey csr /\ l_NotAfter leaf = whole (d_t3 w + ttl) /\
    l_KeyUsage leaf = leafKeyUsageForProfile prof /\ leafExtKeyUsage (AllowedExtKeyUsage prof) = Some ekus /\
    l_ExtKeyUsage leaf = ekus.1 /\ l_UnknownExtKeyUsage leaf = ekus.2 /\ policy_allows (l_SANs leaf) ttl prof.

(** The extra extensions of a profile are non-core ones, as its documentation asks. *)
Definition extra_non_core (prof : LeafProfile) : Prop :=
  forall exts, x509Extensions (ExtraExtensions prof) = Some exts -> non_core exts.

Lemma lane_extra prof ca : ExtraExtensions (applyAuthorityLane prof ca) = ExtraExtensions prof.
Proof. unfold applyAuthorityLane. by repeat case_match. Qed.

Lemma SignLeaf_leaf w caDER key csrDER ttl prof der : extra_non_core prof ->
  CACert.SignLeafFromCSRWithProfile w caDER key csrDER ttl prof = Ok der ->
  exists leaf, ParseLeaf der = Some leaf /\ leaf_of w caDER csrDER ttl prof leaf.
Proof.
  unfold CACert.SignLeafFromCSRWithProfile. intros Hx Hs. repeat case_in Hs; simplify_eq.
  match goal with H0 : x509Extensions _ = Some _, H1 : CreateLeaf _ _ _ _ = Some _, H2 : ParseLeaf _ = Some _ |- _ =>
    pose proof (fun Hn => Create_ParseLeaf _ _ _ _ _ _ Hn H1 H2) as Hc; specialize (Hc (Hx _ H0)); eexists; split; [exact H2|] end.
  match goal with H1 : enforceLeafProfile _ _ _ = None |- _ => apply enforce_spec in H1 end.
  match goal with H1 : negb (csr_SignatureOK _) = false |- _ => apply negb_false_iff in H1 end.
  match goal with H1 : negb (CheckLeafSignature _ _) = false |- _ => apply negb_false_iff in H1; rewrite Hc in H1 end.
  do 3 eexists. rewrite Hc. cbn. split_and!; try eassumption; reflexivity.
Qed.

(** ** The CA *)

Lemma find_authority_Some t id db c :
  find_authority t id db = Some c -> db_authorities db !! id = Some c /\ ca_TenantID c = t.
Proof.
  unfold find_authority, in_tenant. destruct (db_authorities db !! id) as [d|]; [|done].
  destruct (String.eqb_spec (ca_TenantID d) t); naive_solver.
Qed.

Lemma pick_newer_in l best c : fold_left pick_newer l best = Some c -> best = Some c \/ c ∈ l.
Proof.
  revert best. induction l as [|a l IH]; intros best Hf; cbn in Hf; [by left|].
  apply IH in Hf as [Hf|Hf]; [|right; by right]. unfold pick_newer in Hf. destruct best as [b|].
  - destruct (newer a b); simplify_eq; [right; by left|by left].
  - simplify_eq. right. by left.
Qed.

Lemma successor_spec t id db c :
  FindActiveCAAuthoritySuccessor t id db = Ok c ->
  ca_TenantID c = t /\ ca_Status c = "active" /\ ca_ReplacesID c = Some id.
Proof.
  unfold FindActiveCAAuthoritySuccessor. destruct (fold_left _ _ _) as [b|] eqn:E; [|done]. intros [= ->].
  apply pick_newer_in in E as [|E]; [done|]. apply list_elem_of_In, filter_In in E as [_ E].
  unfold is_successor, in_tenant in E. apply andb_prop in E as [E E3]. apply andb_prop in E as [E1 E2].
  apply String.eqb_eq in E1, E2. destruct (ca_ReplacesID c) as [r|]; [|done]. apply String.eqb_eq in E3 as ->. done.
Qed.

(** The CA that signs is active and of the tenant: the one that is asked for, or
    the successor of it when it is superseded. *)
Lemma issuing_spec t id db req ca :
  issuingAuthority t id db = Ok (req, ca) ->
  find_authority t id db = Some req /\ ca_TenantID ca = t /\ ca_Status ca = "active" /\
  (ca = req \/ (ca_Status req = "superseded" /\ ca_ReplacesID ca = Some (ca_ID req))).
Proof.
  unfold issuingAuthority, GetCAAuthority. destruct (find_authority t id db) as [c|] eqn:E; [|done]. cbn.
  destruct (String.eqb_spec (ca_Status c) "active") as [Ha|Ha].
  { intros [= <- <-]. apply find_authority_Some in E as [_ Ht]. auto. }
  destruct (String.eqb_spec (ca_Status c) "superseded") as [Hs|Hs]; [|by case_goal].
  destruct (FindActiveCAAuthoritySuccessor t (ca_ID c) db) as [su|e] eqn:Es; [|by destruct e].
  intros [= <- <-]. apply successor_spec in Es as (Ht & Hact & Hr). auto 6.
Qed.

(** ** The request *)

(** C15: A leaf of the hierarchy is within its lane.  When the service returns a
    certificate, it is signed under the certificate of an active CA of the
    tenant, the one asked for or the successor of it when that is superseded; it
    has the names and the key of the request and is within the profile folded
    with the CA; so, if that CA is constrained to DNS suffixes and the folded
    profile has a SAN policy, every DNS name of the certificate is at or below a
    suffix of the CA, and of the profile where it lists any.  The extra extensions of the
    profile must be non-core ones, as the field is documented: [crypto/x509] lets an extra
    extension override the names. *)
Theorem issued_leaf_in_lane leafProfile env t caID csrDER ttlSeconds s out info s' :
  extra_non_core leafProfile ->
  IssueLeaf leafProfile env t caID csrDER ttlSeconds s = (Ok (out, info), s') ->
  exists req ca caDER der leaf,
    find_authority t caID (sy_db s) = Some req /\ ca_TenantID ca = t /\ ca_Status ca = "active" /\
    (ca = req \/ (ca_Status req = "superseded" /\ ca_ReplacesID ca = Some (ca_ID req))) /\
    firstCertDER (ca_CertificatePEM ca) = Ok caDER /\
    out = h_pem_Encode (mkPEM "CERTIFICATE" der) +:+ ca_CertificatePEM ca /\ ParseLeaf der = Some leaf /\
    leaf_of (ce_world env).1 caDER csrDER (GoInt.wrap64 (ttlSeconds * second)) (applyAuthorityLane leafProfile ca) leaf /\
    (Forall normal (PermittedDNSSuffixes leafProfile) -> Forall normal (ca_PermittedDNSNames ca) ->
     ca_PermittedDNSNames ca <> [] -> leafSANPolicyConfigured (applyAuthorityLane leafProfile ca) = true ->
     forall n, n ∈ DNSNames (l_SANs leaf) ->
       dnsSuffixPermitted n (ca_PermittedDNSNames ca) = true /\
       (PermittedDNSSuffixes leafProfile = [] \/ dnsSuffixPermitted n (PermittedDNSSuffixes leafProfile) = true)).
Proof.
  intros Hx Hi. unfold IssueLeaf in Hi.
  apply bind_Ok in Hi as (? & s1 & H1 & Hi). apply bind_Ok in Hi as (? & s2 & H2 & Hi).
  apply bind_Ok in Hi as ([req ca] & s3 & H3 & Hi). apply bind_Ok in Hi as (sg & s4 & _ & Hi).
  apply bind_Ok in Hi as (caDER & s5 & H5 & Hi). apply bind_Ok in Hi as (der & s6 & H6 & Hi).
  apply bind_Ok in Hi as (inf & s7 & _ & Hi). apply bind_Ok in Hi as (ev & s8 & _ & Hi).
  apply bind_Ok in Hi as (? & s9 & _ & Hi). unfold ret in Hi. injection Hi as <- <- <-.
  assert (s1 = s /\ s2 = s) as [-> ->].
  { unfold required in H1, H2. destruct (empty_str csrDER); [done|]. injection H1 as _ <-.
    destruct (ttlSeconds <=? 0); [done|]. by injection H2 as _ <-. }
  unfold query in H3. injection H3 as H3 _. apply issuing_spec in H3 as (Hf & Ht & Ha & Hr).
  unfold lift in H5, H6. injection H5 as H5 _. injection H6 as H6 _.
  destruct (CACert.SignLeafFromCSRWithProfile _ _ _ _ _ _) as [d|e] eqn:E; [|by case_in H6]. injection H6 as ->.
  apply SignLeaf_leaf in E as (leaf & Hp & Hl); [|unfold extra_non_core; by rewrite lane_extra]. exists req, ca, caDER, der, leaf.
  repeat (split; [done|]). intros N1 N2 N3 N4 n Hn.
  destruct Hl as (_ & _ & _ & _ & _ & _ & _ & _ & _ & _ & _ & _ & _ & _ & Hpol).
  apply enforce_spec in Hpol. exact (proj2 (lane_meet leafProfile ca N1 N2 N3) N4 _ _ n Hpol Hn).
Qed.

End Issuance.

(** ** A concrete request *)

#[local] Existing Instance demo_net.
#[local] Existing Instance PooledRouter.

#[local] Instance demo_ip_eq : EqDecision (IP (NetOps := demo_net)) := unit_eq_dec.

#[local] Instance demo_request_eq : EqDecision (Request (N := demo_net)).
Proof. solve_decision. Defined.

#[local] Instance extension_eq : EqDecision CertificateExtension.
Proof. solve_decision. Defined.

#[local] Instance demo_leaf_eq : EqDecision (Leaf (N := demo_net)).
Proof. solve_decision. Defined.

Definition demo_sans : Request := mkRequest ["www.a.example.com"] [] [] [].

Definition leaf_profile : LeafProfile := mkLeafProfile [] [] [] [] [] 0 None ["serverAuth"] [".example.com"] [] [] [].

Definition demo_row : CAAuthority :=
  mkCA "ca1" "11111111-1111-1111-1111-111111111111" None "CA" "root" "active" "CERT" "h" "1" 9 0 ["a.example.com"] [] None 0.

Definition demo_leaf : Leaf :=
  mkLeaf "www" "lk" "3" demo_sans (-60 * second) (3600 * second) 5 [ExtKeyUsageServerAuth] [] [] [] [] [] [].

#[local] Instance leaf_x509 : X509 := {|
  Key := unit;
  key_public := fun _ => "rk";
  ParseCertificate := fun der => if String.eqb der "der" then Some demo_root else None;
  ParseCertificateRequest := fun der => if String.eqb der "csr" then Some (mkCSR "www" "lk" demo_sans true) else None;
  ParsePKIXPublicKey := fun _ => true;
  CreateCertificate := fun _ _ _ _ => None;
  CheckSignatureFrom := fun _ _ => true;
  CreateLeaf := fun t _ pub _ => if decide (created_leaf t pub = demo_leaf) then Some "leaf" else None;
  ParseLeaf := fun der => if String.eqb der "leaf" then Some demo_leaf else None;
  CheckLeafSignature := fun _ _ => true;
  ParseOID := fun _ => true;
  EncodePEM := fun der => der
|}.

#[local] Instance leaf_x509_laws : X509Laws leaf_x509.
Proof.
  split; cbn.
  - done.
  - intros t issuer pub key der c _ H Hp. case_in H; [|done]. injection H as <-. by injection Hp as <-.
  - intros der c H. case_in H; [|done]. by injection H as <-.
  - intros der c H. case_in H; [|done]. by injection H as <-.
Qed.

#[local] Instance demo_host : Host := {|
  h_World := unit;
  h_SHA256Hex := fun _ => "digest";
  h_client := fun _ => true;
  h_createOrBind := fun _ _ => Ok tt;
  h_signerFor := fun _ _ => Ok tt;
  h_csr := fun _ _ _ => Ok "csr";
  h_Inspect := fun _ => Ok (mkInfo "3" "www" 9);
  h_pem_Decode := fun s => if String.eqb s "CERT" then Some (mkPEM "CERTIFICATE" "der", "") else None;
  h_pem_Encode := fun _ => "LEAF"
|}.

Definition demo_sys : Sys := mkSys (mkCADB {["ca1" := demo_row]} ∅ ∅) ListStream.empty ∅.

Definition issue_env : CallEnv := mkEnv 0 "n1" None "" (mkDraw 0 0 0 (Some "3"), tt) true.

Definition demo_call : result CAErr (string * Info) * Sys :=
  IssueLeaf leaf_profile issue_env "11111111-1111-1111-1111-111111111111" "ca1" "csr" 3600 demo_sys.

Lemma demo_issued : demo_call = (Ok ("LEAFCERT", mkInfo "3" "www" 9), demo_call.2).
Proof.
  assert (H : demo_call.1 = Ok ("LEAFCERT", mkInfo "3" "www" 9)) by (vm_compute; reflexivity).
  rewrite <- H. apply surjective_pairing.
Qed.

Lemma demo_extra : extra_non_core leaf_profile.
Proof. intros exts [= <-]. constructor. Qed.

(** The names of what is issued for [www.a.example.com]. *)
Lemma issued_leaf_in_lane_witness :
  exists ca leaf, ca_Status ca = "active" /\ ParseLeaf "leaf" = Some leaf /\
    forall n, n ∈ DNSNames (l_SANs leaf) -> dnsSuffixPermitted n ["a.example.com"] = true.
Proof.
  destruct (issued_leaf_in_lane leaf_profile issue_env "11111111-1111-1111-1111-111111111111" "ca1" "csr" 3600
              demo_sys "LEAFCERT" (mkInfo "3" "www" 9) demo_call.2 demo_extra demo_issued)
    as (req & ca & caDER & der & leaf & Hf & _ & Ha & Hr & _ & _ & Hp & _ & Hn).
  assert (Hreq : req = demo_row) by (vm_compute in Hf; by injection Hf as <-).
  assert (Hca : ca = demo_row) by (destruct Hr as [->|[Hs _]]; [done|rewrite Hreq in Hs; discriminate Hs]).
  exists ca, leaf. assert (Hl : leaf = demo_leaf) by (cbn in Hp; case_in Hp; by simplify_eq).
  rewrite Hca, Hl in *. split_and!; [done|reflexivity|]. intros n Hin.
  refine (proj1 (Hn _ _ _ _ n Hin)).
  - constructor; [apply demo_normal; auto|constructor].
  - constructor; [apply demo_normal; auto|constructor].
  - discriminate.
  - reflexivity.
Defined.

End CAIssuance.
