(* ===== verification/CACeremonySpec.v ===== *)
(** * Every CA key operation has its quorum

    The abstract ceremony ([astep]): it is opened by one actor, approved by
    others, and used at most once, when its quorum is met.  The handlers of
    [CAHierarchy] and the tables of [KeyCeremony] refine it
    ([served_refines_ceremonies]); with the log as evidence this gives
    [ca_keys_need_quorum].  [rebuild_reopens_ceremony] and
    [late_approval_blocks_catchup] are the limits: the use of a ceremony is not an
    event, so a rebuild forgets it, and an approval that reaches the log after
    the use is rejected by the projection for good. *)

From S2P Require Import Prelude Json Tenancy Events Projections KeyCeremony NameLane CACert CAHierarchy.
Open Scope string_scope.
Open Scope list_scope.
Open Scope Z_scope.

Module CACeremonySpec.
Import SE Tenancy Events KeyCeremony NameLane CACert CAHierarchy.

(** ** The abstract ceremony *)

Record Ceremony := mkCeremony {
  c_tenant : string;
  c_purpose : string;
  c_threshold : Z;
  c_opener : string;
  c_approvers : gset string;
  c_used : bool
}.

Inductive label :=
| LSkip
| LStart (id tenant purpose opener : string) (threshold : Z)
| LApprove (tenant id custodian : string)
| LUse (tenant id purpose : string).

Definition approve_by (cu : string) (c : Ceremony) : Ceremony :=
  mkCeremony (c_tenant c) (c_purpose c) (c_threshold c) (c_opener c) ({[cu]} ∪ c_approvers c) (c_used c).

Definition use (c : Ceremony) : Ceremony :=
  mkCeremony (c_tenant c) (c_purpose c) (c_threshold c) (c_opener c) (c_approvers c) true.

Inductive astep : gmap string Ceremony -> label -> gmap string Ceremony -> Prop :=
| a_skip A : astep A LSkip A
| a_start A id t p o n :
    A !! id = None -> 1 <= n ->
    astep A (LStart id t p o n) (<[id := mkCeremony t p n o ∅ false]> A)
| a_approve A id c cu :
    A !! id = Some c -> c_used c = false -> cu <> "" -> cu <> c_opener c ->
    astep A (LApprove (c_tenant c) id cu) (<[id := approve_by cu c]> A)
| a_use A id c :
    A !! id = Some c -> c_used c = false -> c_threshold c <= Z.of_nat (size (c_approvers c)) ->
    astep A (LUse (c_tenant c) id (c_purpose c)) (<[id := use c]> A).

Definition same_ceremonies (db db' : CADB) : Prop :=
  db_ceremonies db' = db_ceremonies db /\ db_approvals db' = db_approvals db.

(** The ceremonies a database holds. *)
Definition ceremony_of (db : CADB) (id : string) (row : CeremonyRow) : Ceremony :=
  mkCeremony (cr_TenantID row) (cr_Purpose row) (cr_Threshold row) (cr_Opener row)
    (list_to_set (custodians (cr_TenantID row) id db)) (negb (String.eqb (cr_Status row) "pending")).

Definition alpha (db : CADB) : gmap string Ceremony := map_imap (fun id row => Some (ceremony_of db id row)) (db_ceremonies db).

Lemma alpha_lookup db id : alpha db !! id = ceremony_of db id <$> db_ceremonies db !! id.
Proof. unfold alpha. rewrite map_lookup_imap. by destruct (db_ceremonies db !! id). Qed.

Lemma custodians_elem t id db cu :
  cu ∈ custodians t id db <-> exists r, db_approvals db !! (t, id, cu) = Some r /\ is_Some (ar_event r).
Proof.
  unfold custodians. rewrite list_elem_of_fmap. split.
  - intros ([[[t' id'] cu'] r] & -> & Hin). apply list_elem_of_In, filter_In in Hin as [Hin He].
    unfold evidenced in He. cbn in He. apply andb_prop in He as [He Hb]. apply andb_prop in He as [Ht Hi].
    apply String.eqb_eq in Ht as ->, Hi as ->. apply bool_decide_eq_true in Hb. cbn.
    exists r. split; [|done]. by apply elem_of_map_to_list, list_elem_of_In.
  - intros (r & Hr & He). exists (t, id, cu, r). split; [done|]. apply list_elem_of_In, filter_In. split.
    + by apply list_elem_of_In, elem_of_map_to_list.
    + unfold evidenced. cbn. by rewrite !String.eqb_refl, bool_decide_eq_true_2.
Qed.

Lemma custodians_NoDup t id db : NoDup (custodians t id db).
Proof.
  unfold custodians. apply NoDup_fmap_2_strong; [|apply NoDup_ListNoDup, List.NoDup_filter, NoDup_ListNoDup, NoDup_map_to_list].
  intros [[[t1 i1] c1] r1] [[[t2 i2] c2] r2] H1 H2 Hc. cbn in Hc. subst c2.
  apply list_elem_of_In, filter_In in H1 as [H1 E1], H2 as [H2 E2]. unfold evidenced in E1, E2. cbn in E1, E2.
  apply andb_prop in E1 as [E1 _], E2 as [E2 _]. apply andb_prop in E1 as [Ht1 Hi1], E2 as [Ht2 Hi2].
  apply String.eqb_eq in Ht1, Hi1, Ht2, Hi2. subst. f_equal.
  apply list_elem_of_In, elem_of_map_to_list in H1, H2. congruence.
Qed.

Lemma approvers_count t id db : Z.of_nat (size (list_to_set (C := gset string) (custodians t id db))) = approval_count t id db.
Proof. unfold approval_count. by rewrite size_list_to_set by apply custodians_NoDup. Qed.

Lemma alpha_ext db db' : same_ceremonies db db' -> alpha db' = alpha db.
Proof.
  intros [Hc Ha]. apply map_eq. intros id. rewrite !alpha_lookup, Hc. unfold ceremony_of, custodians. by rewrite Ha.
Qed.

Lemma find_ceremony_Some t id db c :
  find_ceremony t id db = Some c <-> db_ceremonies db !! id = Some c /\ cr_TenantID c = t.
Proof.
  unfold find_ceremony. destruct (db_ceremonies db !! id) as [d|]; [|naive_solver].
  destruct (String.eqb_spec (cr_TenantID d) t); naive_solver.
Qed.

(** Consuming a ceremony uses it. *)
Lemma Consume_uses t id p db k db' :
  ConsumeKeyCeremonyTx t id p db = Ok (k, db') -> astep (alpha db) (LUse t id p) (alpha db').
Proof.
  unfold ConsumeKeyCeremonyTx. destruct (find_ceremony t id db) as [c|] eqn:E; [|done]. cbn.
  intros H. branches H. apply find_ceremony_Some in E as [Hc <-].
  apply negb_false_iff, String.eqb_eq in Heq, Heq0. apply Z.ltb_ge in Heq1. subst p.
  assert (Ha : alpha db !! id = Some (ceremony_of db id c)) by by rewrite alpha_lookup, Hc.
  replace (alpha (with_ceremonies _ _)) with (<[id := use (ceremony_of db id c)]> (alpha db)).
  - apply (a_use (alpha db) id (ceremony_of db id c)); cbn; [done|by rewrite Heq|by rewrite approvers_count].
  - apply map_eq. intros i. rewrite alpha_lookup. cbn. destruct (decide (i = id)) as [->|Hne].
    + by rewrite !lookup_insert_eq.
    + rewrite !lookup_insert_ne, alpha_lookup by done. done.
Qed.

Definition approvers (t id : string) (db : CADB) : gset string := list_to_set (custodians t id db).

Lemma approvers_elem t id db cu :
  cu ∈ approvers t id db <-> exists r, db_approvals db !! (t, id, cu) = Some r /\ is_Some (ar_event r).
Proof. unfold approvers. by rewrite elem_of_list_to_set, custodians_elem. Qed.

(** Approvals are of ceremonies that exist, as the foreign key has it. *)
Definition approvals_of_ceremonies (db : CADB) : Prop :=
  forall t id cu r, db_approvals db !! (t, id, cu) = Some r -> is_Some (find_ceremony t id db).

(** A ceremony that the projection adds is new and has no approval yet. *)
Lemma ApplyStarted_starts now c db :
  approvals_of_ceremonies db -> 1 <= kc_Threshold c -> kc_Status c = "pending" ->
  let db' := ApplyKeyCeremonyStartedTx now c db in
  db' = db \/ astep (alpha db) (LStart (kc_ID c) (kc_TenantID c) (kc_Purpose c) (kc_Opener c) (kc_Threshold c)) (alpha db').
Proof.
  intros Hfk Hn Hst. unfold ApplyKeyCeremonyStartedTx. destruct (db_ceremonies db !! kc_ID c) eqn:E; [by left|]. right.
  assert (Hnone : alpha db !! kc_ID c = None) by by rewrite alpha_lookup, E.
  match goal with |- astep _ _ (alpha ?d) => set (db' := d) end.
  replace (alpha db') with
    (<[kc_ID c := mkCeremony (kc_TenantID c) (kc_Purpose c) (kc_Threshold c) (kc_Opener c) ∅ false]> (alpha db)).
  - by apply a_start.
  - apply map_eq. intros i. rewrite alpha_lookup. cbn. destruct (decide (i = kc_ID c)) as [->|Hne].
    + rewrite !lookup_insert_eq. cbn. rewrite Hst. unfold ceremony_of. cbn. f_equal. f_equal. symmetry.
      fold (approvers (kc_TenantID c) (kc_ID c) db'). apply set_eq. intros cu. rewrite approvers_elem.
      split; [|set_solver]. intros (r & Hr & _). apply Hfk in Hr as [d Hd]. apply find_ceremony_Some in Hd as [Hd _]. congruence.
    + by rewrite !lookup_insert_ne, alpha_lookup by done.
Qed.

(** An approval that the projection accepts adds its custodian, or is the one
    already counted of a ceremony that has been used. *)
Lemma ApplyApproved_approves now t id cu eid q at_ db db' :
  ApplyKeyCeremonyApprovedTx now t id cu eid q at_ db = Ok db' ->
  db' = db \/ (astep (alpha db) (LApprove t id cu) (alpha db') /\
               exists c r, find_ceremony t id db = Some c /\ cr_Opener c <> cu /\ cu <> "" /\
               db' = with_approvals <[(t, id, cu) := r]> db /\
               (ar_event r = Some eid \/ exists r0, db_approvals db !! (t, id, cu) = Some r0 /\ is_Some (ar_event r0) /\ ar_event r = ar_event r0)).
Proof.
  unfold ApplyKeyCeremonyApprovedTx. intros H.
  destruct (String.eqb_spec cu "") as [|Hcu]; [done|]. case_in H; [done|].
  destruct (find_ceremony t id db) as [c|] eqn:Ec; [|done].
  destruct (String.eqb_spec (cr_Status c) "pending") as [Hp|]; cbn in H; [|left; by branches H].
  case_in H; [done|]. case_in H; [done|]. right.
  match type of H with Ok (with_approvals <[_ := ?r]> _) = _ => set (row := r) in H end. injection H as <-.
  assert (Hop : cr_Opener c <> cu).
  { intros Ho. rewrite Ho, String.eqb_refl in Heq0. by destruct (String.eqb_spec cu ""). }
  assert (Hev : is_Some (ar_event row)) by (unfold row; repeat case_goal; eauto).
  split.
  - pose proof Ec as Hf. apply find_ceremony_Some in Hf as [Hc Ht].
    replace (alpha (with_approvals _ _)) with (<[id := approve_by cu (ceremony_of db id c)]> (alpha db)).
    + rewrite <- Ht. apply (a_approve _ _ (ceremony_of db id c)); [by rewrite alpha_lookup, Hc|cbn; by rewrite Hp|done|].
      cbn. congruence.
    + apply map_eq. intros i. rewrite alpha_lookup. cbn. destruct (decide (i = id)) as [->|Hne].
      * rewrite lookup_insert_eq, Hc. cbn. unfold approve_by, ceremony_of. cbn. f_equal. f_equal.
        rewrite Ht. apply set_eq. intros x. rewrite elem_of_union, elem_of_singleton.
        fold (approvers t id db). fold (approvers t id (with_approvals <[(t, id, cu):=row]> db)). rewrite !approvers_elem. cbn.
        destruct (decide (x = cu)) as [->|Hx]; [rewrite lookup_insert_eq; naive_solver|].
        rewrite lookup_insert_ne by congruence. naive_solver.
      * rewrite lookup_insert_ne, alpha_lookup by done. destruct (db_ceremonies db !! i) as [d|]; [|done]. cbn. f_equal.
        unfold ceremony_of. f_equal. fold (approvers (cr_TenantID d) i db).
        fold (approvers (cr_TenantID d) i (with_approvals <[(t, id, cu):=row]> db)).
        apply set_eq. intros x. rewrite !approvers_elem. cbn. by rewrite lookup_insert_ne by congruence.
  - exists c, row. split_and!; try done. unfold row. destruct (db_approvals db !! (t, id, cu)) as [r0|]; [|by left].
    cbn. destruct (ar_event r0) eqn:E0; [|by left]. right. exists r0. by rewrite E0.
Qed.

(** ** Calls of the service *)

Section Calls.
Context {N : NetOps} {C : CryptoOps} {ES : EventStream} {R : Router}.

(** A call of the service; an approval decides on an earlier reading [db0] of the
    database, whatever it was. *)
Inductive Op :=
| OStart (env : CallEnv) (t : string) (req : CACeremonyStartRequest)
| OApprove (env : CallEnv) (t id : string) (db0 : CADB)
| OCreateRoot (env : CallEnv) (t cid : string) (spec : CASpec)
| OImportOfflineRoot (env : CallEnv) (t cid pem : string) (spec : CASpec)
| OImportExisting (env : CallEnv) (t cid pem handle : string) (spec : CASpec)
| OCreateIntermediate (env : CallEnv) (t cid parent : string) (spec : CASpec)
| OOfflineCSR (env : CallEnv) (t ca cid : string) (spec : CASpec)
| OImportOfflineIntermediate (env : CallEnv) (t ca cid pem : string) (spec : CASpec)
| OIssueIntermediateCSR (env : CallEnv) (t ca cid csr : string) (spec : CASpec)
| ORotate (env : CallEnv) (t ca succ reason : string)
| ORekey (env : CallEnv) (t ca cid reason : string) (ttl : Z)
| OIssueLeaf (leafProfile : LeafProfile) (env : CallEnv) (t ca csr : string) (ttl : Z).

Definition env_of (op : Op) : CallEnv :=
  match op with
  | OStart e _ _ | OApprove e _ _ _ | OCreateRoot e _ _ _ | OImportOfflineRoot e _ _ _ _ | OImportExisting e _ _ _ _ _
  | OCreateIntermediate e _ _ _ _ | OOfflineCSR e _ _ _ _ | OImportOfflineIntermediate e _ _ _ _ _
  | OIssueIntermediateCSR e _ _ _ _ _ | ORotate e _ _ _ _ | ORekey e _ _ _ _ _
  | OIssueLeaf _ e _ _ _ _ => e
  end.

Definition forget {A} (m : S_ A) : S_ unit := bind m (fun _ => ret tt).

Definition approve_from (env : CallEnv) (t id : string) (db0 : CADB) : S_ unit :=
  match approve_check (opener_of env) t id db0 with
  | Ok (inr (custodian, current)) => forget (approve_commit env t id custodian current)
  | Ok (inl _) => ret tt
  | Err e => fail e
  end.

Definition exec (op : Op) : S_ unit :=
  match op with
  | OStart env t req => forget (StartCeremony env t req)
  | OApprove env t id db0 => approve_from env t id db0
  | OCreateRoot env t cid spec => forget (CreateRoot env t cid spec)
  | OImportOfflineRoot env t cid pem spec => forget (ImportOfflineRoot env t cid pem spec)
  | OImportExisting env t cid pem handle spec => forget (ImportExisting env t cid pem handle spec)
  | OCreateIntermediate env t cid parent spec => forget (CreateIntermediate env t cid parent spec)
  | OOfflineCSR env t ca cid spec => forget (CreateOfflineIntermediateCSR env t ca cid spec)
  | OImportOfflineIntermediate env t ca cid pem spec => forget (ImportOfflineIntermediate env t ca cid pem spec)
  | OIssueIntermediateCSR env t ca cid csr spec => forget (IssueIntermediateCSR env t ca cid csr spec)
  | ORotate env t ca succ reason => forget (RotateAuthority env t ca succ reason)
  | ORekey env t ca cid reason ttl => forget (RekeyAuthority env t ca cid reason ttl)
  | OIssueLeaf prof env t ca csr ttl => forget (IssueLeaf prof env t ca csr ttl)
  end.

(** The ceremony a key operation names, and the purpose its request has. *)
Definition gate (op : Op) : option (string * string * result CAErr string) :=
  match op with
  | OCreateRoot _ t cid spec => Some (t, cid, hierarchyPurpose "create_root" "" spec)
  | OImportOfflineRoot _ t cid pem spec =>
      Some (t, cid, let? (der, _) := singleCertificatePEM pem in offlineRootPurpose der spec)
  | OImportExisting _ t cid pem handle spec =>
      Some (t, cid, let? (chain, _) := certificateChainPEM pem in existingCAPurpose chain handle spec)
  | OCreateIntermediate _ t cid parent spec => Some (t, cid, hierarchyPurpose "create_intermediate" parent spec)
  | OOfflineCSR _ t ca cid spec => Some (t, cid, offlineIntermediatePurpose ca spec)
  | OImportOfflineIntermediate _ t ca cid _ spec => Some (t, cid, offlineIntermediatePurpose ca spec)
  | OIssueIntermediateCSR _ t ca cid csr spec => Some (t, cid, externalIntermediateCSRPurpose ca csr spec)
  | ORekey _ t ca cid _ _ => Some (t, GoStrings.TrimSpace cid, rekeyCAPurpose ca)
  | OStart _ _ _ | OApprove _ _ _ _ | ORotate _ _ _ _ _ | OIssueLeaf _ _ _ _ _ _ => None
  end.

(** The CSR of an offline intermediate is the first half of a key operation: it
    leaves the ceremony to the import. *)
Definition consumes (op : Op) : bool := match op with OOfflineCSR _ _ _ _ _ => false | _ => true end.

(** A key operation has happened: a CA row was added, or the call of a key
    operation returned its certificate or CSR. *)
Definition minted (op : Op) (r : result CAErr unit) (s s' : Sys) : Prop :=
  (is_Some (gate op) /\ r = Ok tt) \/ exists id, db_authorities (sy_db s) !! id = None /\ is_Some (db_authorities (sy_db s') !! id).

(** ** Parts of handlers *)

Definition events (s : Sys) : list Event := events_from 1 (sy_log s).

(** A part that only reads, up to the cache of signers. *)
Definition quiet {A} (m : S_ A) : Prop := forall s, sy_db (m s).2 = sy_db s /\ sy_log (m s).2 = sy_log s.

(** A part that writes no table and appends at most one event, with the id drawn
    by the call. *)
Definition log_step (env : CallEnv) (s s' : Sys) : Prop :=
  sy_log s' = sy_log s \/
  exists t ty d ev, Append (ce_now env) (ce_nuid env) (ce_actor env) (mkEvent "" ty t 0 d 0 None 0) (sy_log s)
                    = (Ok ev, sy_log s').

Definition logs {A} (env : CallEnv) (m : S_ A) : Prop := forall s, sy_db (m s).2 = sy_db s /\ log_step env s (m s).2.

(** A part that either fails and leaves the tables, or has consumed the ceremony
    for the purpose. *)
Definition consumed (t id p : string) (s s' : Sys) : Prop :=
  exists k db1, ConsumeKeyCeremonyTx t id p (sy_db s) = Ok (k, db1) /\ same_ceremonies db1 (sy_db s').

Definition gated {A} (env : CallEnv) (t id : string) (pur : result CAErr string) (m : S_ A) : Prop := forall s,
  log_step env s (m s).2 /\
  (((exists e, (m s).1 = Err e) /\ sy_db (m s).2 = sy_db s) \/ exists p, pur = Ok p /\ consumed t id p s (m s).2).

Lemma quiet_ret {A} (a : A) : quiet (ret a).
Proof. by intros s. Qed.

Lemma quiet_fail {A} e : quiet (A := A) (fail e).
Proof. by intros s. Qed.

Lemma quiet_lift {A} (r : result CAErr A) : quiet (lift r).
Proof. by intros s. Qed.

Lemma quiet_query {A} (f : CADB -> result CAErr A) : quiet (query f).
Proof. by intros s. Qed.

Lemma quiet_required b msg : quiet (required b msg).
Proof. intros s. by destruct b. Qed.

Lemma quiet_remember id sg : quiet (rememberSigner id sg).
Proof. intros s. unfold rememberSigner. by case_goal. Qed.

Lemma quiet_bind {A B} (m : S_ A) (k : A -> S_ B) : quiet m -> (forall a, quiet (k a)) -> quiet (bind m k).
Proof.
  intros Hm Hk s. specialize (Hm s). unfold bind. destruct (m s) as [[a|e] s1]; [|done].
  destruct (Hk a s1), Hm. cbn in *. split; congruence.
Qed.

Lemma quiet_signer w ca : quiet (signerForAuthority w ca).
Proof.
  intros s. unfold signerForAuthority. repeat case_goal; try done.
  apply quiet_bind; [apply quiet_remember|intros; apply quiet_ret].
Qed.

Lemma quiet_conflicts {A} (m : S_ A) : quiet m -> quiet (conflicts m).
Proof. intros Hm s. specialize (Hm s). unfold conflicts. by destruct (m s) as [[a|e] s1]. Qed.

Lemma logs_quiet {A} env (m : S_ A) : quiet m -> logs env m.
Proof. intros Hm s. destruct (Hm s). split; [done|by left]. Qed.

Lemma appendEvent_step env t ty d : logs env (appendEvent env t ty d).
Proof.
  intros s. unfold appendEvent. destruct (Append _ _ _ _ _) as [[ev|e] st] eqn:E; cbn; (split; [done|]).
  - right. by exists t, ty, d, ev.
  - left. unfold Append in E. by apply append_err in E.
Qed.

Lemma logs_bind_quiet {A B} env (m : S_ A) (k : A -> S_ B) : quiet m -> (forall a, logs env (k a)) -> logs env (bind m k).
Proof.
  intros Hm Hk s. specialize (Hm s). unfold bind. destruct (m s) as [[a|e] s1]; cbn in *.
  - destruct (Hk a s1) as [Hd Hl], Hm as [Hd1 Hl1]. split; [congruence|]. unfold log_step in *. by rewrite <- Hl1.
  - destruct Hm. split; [done|by left].
Qed.

Lemma logs_bind {A B} env (m : S_ A) (k : A -> S_ B) : logs env m -> (forall a, quiet (k a)) -> logs env (bind m k).
Proof.
  intros Hm Hk s. specialize (Hm s). unfold bind. destruct (m s) as [[a|e] s1]; cbn in *; [|done].
  destruct (Hk a s1) as [Hd Hl], Hm as [Hd1 Hl1]. split; [congruence|]. unfold log_step in *. by rewrite Hl.
Qed.

Lemma logs_emit env t ty fs : logs env (emit env t ty fs).
Proof. apply logs_bind; [apply appendEvent_step|intros; apply quiet_ret]. Qed.

Section Gated.
Context (env : CallEnv) (t id : string) (pur : result CAErr string).

Lemma gated_quiet {A B} (m : S_ A) (k : A -> S_ B) :
  quiet m -> (forall a, gated env t id pur (k a)) -> gated env t id pur (bind m k).
Proof.
  intros Hm Hk s. specialize (Hm s). unfold bind. destruct (m s) as [[a|e] s1]; cbn in *.
  - destruct (Hk a s1) as [Hl Hd], Hm as [Hd1 Hl1]. unfold log_step, consumed in *. rewrite <- Hd1, <- Hl1. by split.
  - destruct Hm. split; [by left|]. left. eauto.
Qed.

Lemma gated_lift {A B} (r : result CAErr A) (k : A -> S_ B) :
  (forall a, r = Ok a -> gated env t id pur (k a)) -> gated env t id pur (bind (lift r) k).
Proof.
  intros Hk s. unfold bind, lift. destruct r as [a|e]; [by apply Hk|]. split; [by left|]. left. eauto.
Qed.

Lemma gated_post {A B} (m : S_ A) (k : A -> S_ B) :
  gated env t id pur m -> (forall a, quiet (k a)) -> gated env t id pur (bind m k).
Proof.
  intros Hm Hk s. specialize (Hm s). unfold bind. destruct (m s) as [[a|e] s1]; cbn in *.
  - destruct (Hk a s1) as [Hd Hl], Hm as [Hl1 Hc]. unfold log_step, consumed in *. rewrite Hd, Hl.
    split; [done|]. destruct Hc as [[[e He] ?]|?]; [done|by right].
  - destruct Hm as [Hl [[_ Hd]|Hc]]; (split; [done|]); [left; eauto|by right].
Qed.

(** The transaction that consumes the ceremony first, with what follows it. *)
Lemma gated_tx {A B} p (f : CADB -> result CAErr (A * CADB)) (k : A -> S_ B) :
  pur = Ok p ->
  (forall db a db', f db = Ok (a, db') ->
     exists c db1, ConsumeKeyCeremonyTx t id p db = Ok (c, db1) /\ same_ceremonies db1 db') ->
  (forall a, logs env (k a)) -> gated env t id pur (bind (conflicts (WithTenant env f)) k).
Proof.
  intros Hp Hf Hk s. unfold bind, conflicts, WithTenant.
  destruct (f (sy_db s)) as [[a db']|e] eqn:E; [|split; [by left|]; left; eauto].
  destruct (ce_commits env); [|split; [by left|]; left; eauto].
  destruct (Hk a (with_db db' s)) as [Hd Hl]. split; [exact Hl|]. right. exists p. split; [done|].
  destruct (Hf _ _ _ E) as (c & db1 & Hc & Hs). exists c, db1. split; [done|]. by rewrite Hd.
Qed.

End Gated.

Lemma Insert_same u now c db a db' : InsertCAAuthorityTx u now c db = Ok (a, db') -> same_ceremonies db db'.
Proof. unfold InsertCAAuthorityTx. intros H. branches H. by split. Qed.

Lemma same_refl db : same_ceremonies db db.
Proof. by split. Qed.

Lemma appendEvent_Ok env t ty d s ev s' :
  appendEvent env t ty d s = (Ok ev, s') ->
  sy_db s' = sy_db s /\ ev_Type ev = ty /\
  Append (ce_now env) (ce_nuid env) (ce_actor env) (mkEvent "" ty t 0 d 0 None 0) (sy_log s) = (Ok ev, sy_log s').
Proof.
  unfold appendEvent. destruct (Append _ _ _ _ _) as [[e|e] st] eqn:E; intros H; simplify_eq/=. split_and!; [done| |done].
  unfold Append, append in E. cbn in E. branches E. done.
Qed.

Lemma update_same t id f db db' : update_authority t id f db = Ok db' -> same_ceremonies db db'.
Proof. unfold update_authority. intros H. branches H. by split. Qed.

Lemma same_trans db1 db2 db3 : same_ceremonies db1 db2 -> same_ceremonies db2 db3 -> same_ceremonies db1 db3.
Proof. unfold same_ceremonies. intros [] []. split; congruence. Qed.

Lemma rotated_same e db db' : apply_rotated e db = Ok db' -> same_ceremonies db db'.
Proof.
  unfold apply_rotated, ApplyCAAuthorityRotatedTx, res_bind. intros H. branches H. eauto using update_same, same_trans.
Qed.

Lemma rekeyed_same now e db db' : apply_rekeyed now e db = Ok db' -> same_ceremonies db db'.
Proof.
  unfold apply_rekeyed, ApplyCAAuthorityRekeyedTx, res_bind. intros H.
  branches H; (eapply same_trans; [by eapply update_same|by split]).
Qed.

Lemma apply_ca_authority now ev db db' :
  ev_Type ev = EventCAAuthorityRotated \/ ev_Type ev = EventCAAuthorityRekeyed ->
  apply_ca now ev db = Ok db' -> same_ceremonies db db'.
Proof.
  intros Ht H. unfold apply_ca in H. case_in H; [done|]. clear Heq.
  destruct Ht as [Ht|Ht]; rewrite Ht in H; cbn in H; eauto using rotated_same, rekeyed_same.
Qed.

Lemma gated_append {A} env t id pur p (plan : CADB -> S_ (A * (string * data) * CADB)) :
  pur = Ok p -> (forall db, quiet (plan db)) ->
  (forall s db a ty d db' s', plan db s = (Ok (a, (ty, d), db'), s') ->
     ty = EventCAAuthorityRekeyed /\
     exists c db1, ConsumeKeyCeremonyTx t id p db = Ok (c, db1) /\ same_ceremonies db1 db') ->
  gated env t id pur (conflicts (with_tenant_append env plan t)).
Proof.
  intros Hp Hquiet Hf s. unfold conflicts, with_tenant_append. destruct (Hquiet (sy_db s) s) as [Hqd Hql].
  destruct (plan (sy_db s) s) as [[[[a [ty d]] db']|e] s1] eqn:E; cbn in Hqd, Hql; [|split; [by left|]; left; eauto].
  destruct (Hf _ _ _ _ _ _ _ E) as (-> & c & db1 & Hc & Hs).
  pose proof (appendEvent_step env t EventCAAuthorityRekeyed d s1) as [Hd Hl]. unfold log_step in Hl |- *. rewrite Hqd in Hd. rewrite Hql in Hl.
  destruct (appendEvent _ _ _ _ _) as [[ev|er] s'] eqn:Ea; cbn in Hd, Hl; [|split; [done|]; left; eauto].
  apply appendEvent_Ok in Ea as (_ & Hty & _).
  destruct (apply_ca _ _ _) as [db2|er] eqn:Eap; [|split; [done|]; left; eauto].
  destruct (ce_commits env); [|split; [done|]; left; eauto].
  split; [exact Hl|]. right. exists p. split; [done|]. exists c, db1. split; [done|].
  apply apply_ca_authority in Eap as [H1 H2]; [|by right]. destruct Hs as [H3 H4]. cbn. split; congruence.
Qed.

Ltac quiet_tac :=
  repeat lazymatch goal with
  | |- forall _, _ => intros ?
  | |- quiet (bind _ _) => apply quiet_bind
  | |- quiet (ret _) => apply quiet_ret
  | |- quiet (fail _) => apply quiet_fail
  | |- quiet (lift _) => apply quiet_lift
  | |- quiet (query _) => apply quiet_query
  | |- quiet (required _ _) => apply quiet_required
  | |- quiet (rememberSigner _ _) => apply quiet_remember
  | |- quiet (signerForAuthority _ _) => apply quiet_signer
  | |- quiet (conflicts _) => apply quiet_conflicts
  | |- quiet (issueRekeyedCA _ _ _ _ _ _) => unfold issueRekeyedCA
  | |- quiet (match ?x with _ => _ end) => destruct x
  end.

Ltac logs_tac :=
  repeat lazymatch goal with
  | |- forall _, _ => intros ?
  | |- logs _ (match ?x with _ => _ end) => destruct x
  | |- logs _ (bind (emit _ _ _ _) _) => apply logs_bind; [apply logs_emit|quiet_tac]
  | |- logs _ (bind _ _) => apply logs_bind_quiet; [solve [quiet_tac]|]
  end.

(** The closure consumes the ceremony before anything else. *)
Ltac closure_end := eexists _, _; split; [reflexivity || eassumption|eauto using Insert_same, same_refl].

Ltac closure_tac :=
  let H := fresh "H" in
  intros ? ? ? H; unfold res_bind in H; branches H; closure_end.

Ltac purpose_tac :=
  repeat match goal with H : ?r = Ok _ |- context [res_bind ?r _] => rewrite H; cbn [res_bind] end; eassumption.

(** A handler up to its transaction; the side goal left is about the closure. *)
Ltac gated_tac :=
  repeat lazymatch goal with
  | |- gated _ _ _ _ (forget _) => apply gated_post; [|solve [quiet_tac]]
  | |- gated _ _ _ _ (match ?x with _ => _ end) => destruct x
  | |- gated _ _ _ _ (bind (lift _) _) => apply gated_lift; intros ? ?
  | |- gated _ _ _ _ (bind (conflicts (WithTenant _ _)) _) =>
      eapply gated_tx; [purpose_tac|solve [closure_tac]|solve [logs_tac]]
  | |- gated _ _ _ _ (bind _ _) => apply gated_quiet; [solve [quiet_tac]|intros ?]
  end.

(** Every key operation that consumes is gated by the ceremony it names, for the
    purpose of its request. *)
Lemma exec_gated op t id pur : gate op = Some (t, id, pur) -> consumes op = true -> gated (env_of op) t id pur (exec op).
Proof.
  destruct op; intros [= <- <- <-] Hc; try done; cbn [exec env_of].
  - unfold CreateRoot. gated_tac.
  - unfold ImportOfflineRoot. gated_tac.
  - unfold ImportExisting. gated_tac.
  - unfold CreateIntermediate. gated_tac.
  - unfold ImportOfflineIntermediate. gated_tac.
  - unfold IssueIntermediateCSR. gated_tac.
  - unfold RekeyAuthority. gated_tac. apply gated_post; [|quiet_tac]. eapply gated_append; [eassumption|quiet_tac|].
    intros ? ? ? ? ? ? ? H'. apply bind_Ok in H' as ([q db2] & ? & H1 & H'). apply bind_Ok in H' as (? & ? & _ & H').
    apply bind_Ok in H' as ([? ?] & ? & _ & H'). unfold ret in H'. injection H' as _ <- _ <- _. split; [done|].
    unfold lift in H1. injection H1 as H1 _. unfold res_bind in H1. branches H1. closure_end.
Qed.

(** ** Starting and approving *)

Lemma started_decode id p o n pl :
  decode_struct CACeremonyStarted_fields (started_payload id p o n) = Some pl -> pl = [VStr id; VStr p; VInt n; VStr o].
Proof.
  destruct (int64 n) eqn:En.
  - unfold started_payload. rewrite decode_encode; [by intros [= <-]| |by repeat constructor].
    apply (bool_decide_unpack _). vm_compute. exact I.
  - unfold started_payload, encode_struct, encode_object. cbn. rewrite En.
    destruct (String.eqb o ""); done.
Qed.

Lemma approved_decode id cu n pl :
  decode_struct CACeremonyApproved_fields (approved_payload id cu n) = Some pl -> str_at pl 0 = id /\ str_at pl 1 = cu.
Proof.
  unfold approved_payload, encode_struct, encode_object. cbn. destruct (n =? 0); cbn; [by intros [= <-]|].
  destruct (int64 n); cbn; [by intros [= <-]|done].
Qed.

(** The event an append returns. *)
Lemma Append_event env t ty d st ev st' :
  Append (ce_now env) (ce_nuid env) (ce_actor env) (mkEvent "" ty t 0 d 0 None 0) st = (Ok ev, st') ->
  ev_Type ev = ty /\ ev_TenantID ev = t /\ ev_Data ev = d /\ ev_Actor ev = ce_actor env /\ ev_ID ev = ce_nuid env.
Proof. unfold Append, append. cbn. intros H. by branches H. Qed.

(** An event that is appended and then projected. *)
Lemma project_effect {A} env t ty d (k : CADB -> result CAErr A) s :
  let s' := (forget (let! ev := appendEvent env t ty d in let! _ := Apply env ev in query k) s).2 in
  log_step env s s' /\
  (sy_db s' = sy_db s \/
   exists ev, Append (ce_now env) (ce_nuid env) (ce_actor env) (mkEvent "" ty t 0 d 0 None 0) (sy_log s) = (Ok ev, sy_log s') /\
              apply_ca (ce_now env) ev (sy_db s) = Ok (sy_db s')).
Proof.
  unfold forget, bind. pose proof (appendEvent_step env t ty d s) as [Hd Hl].
  destruct (appendEvent env t ty d s) as [[ev|er] s1] eqn:E; cbn in Hd, Hl; [|by auto].
  apply appendEvent_Ok in E as (_ & _ & Ha). unfold Apply, WithTenant.
  destruct (apply_ca (ce_now env) ev (sy_db s1)) as [db'|er] eqn:Eap; cbn [res_bind]; [|by auto].
  destruct (ce_commits env); [|by auto]. unfold query.
  destruct (k _); cbn; (split; [exact Hl|]); right; exists ev; rewrite <- Hd; by split.
Qed.

Lemma apply_ca_started now ev id p o n db db' :
  ev_Type ev = EventCACeremonyStarted -> ev_Data ev = started_payload id p o n -> apply_ca now ev db = Ok db' ->
  1 <= n /\ db' = ApplyKeyCeremonyStartedTx now (mkKeyCeremony id (ev_TenantID ev) p n "pending" 0 o (ev_Time ev)) db.
Proof.
  intros Ht Hd H. unfold apply_ca in H. case_in H; [done|]. rewrite Ht in H. cbn in H. unfold apply_started in H.
  rewrite Hd in H. destruct (decode_struct _ _) as [pl|] eqn:E; [|done]. apply started_decode in E as ->. cbn in H.
  case_in H; [done|]. apply orb_false_iff in Heq0 as [_ Hn]. apply Z.ltb_ge in Hn.
  injection H as <-. split; [exact Hn|reflexivity].
Qed.

Lemma apply_ca_approved now ev id cu n db db' :
  ev_Type ev = EventCACeremonyApproved -> ev_Data ev = approved_payload id cu n -> apply_ca now ev db = Ok db' ->
  ApplyKeyCeremonyApprovedTx now (ev_TenantID ev) id cu (ev_ID ev) (ev_Sequence ev) (ev_Time ev) db = Ok db'.
Proof.
  intros Ht Hd H. unfold apply_ca in H. case_in H; [done|]. rewrite Ht in H. cbn in H. unfold apply_approved in H.
  rewrite Hd in H. destruct (decode_struct _ _) as [pl|] eqn:E; [|done]. apply approved_decode in E as [<- <-].
  by case_in H.
Qed.

(** ** Evidence *)

(** The event of an approval of [cu], made by [cu]. *)
Definition approves (t id cu : string) (e : Event) : Prop :=
  ev_Type e = EventCACeremonyApproved /\ ev_TenantID e = t /\ (exists n, ev_Data e = approved_payload id cu n) /\
  exists a, ev_Actor e = Some a /\ a_Subject a = cu.

(** The event that opened a ceremony, and who made it. *)
Definition opens (id : string) (c : CeremonyRow) (e : Event) : Prop :=
  ev_Type e = EventCACeremonyStarted /\ ev_TenantID e = cr_TenantID c /\
  ev_Data e = started_payload id (cr_Purpose c) (cr_Opener c) (cr_Threshold c) /\
  cr_Opener c = match ev_Actor e with Some a => a_Subject a | None => "" end.

Record wf (s : Sys) : Prop := {
  wf_approvals t id cu r : db_approvals (sy_db s) !! (t, id, cu) = Some r ->
    cu <> "" /\ (exists c, find_ceremony t id (sy_db s) = Some c /\ cr_Opener c <> cu) /\
    exists e, e ∈ events s /\ ar_event r = Some (ev_ID e) /\ approves t id cu e;
  wf_ceremonies id c : db_ceremonies (sy_db s) !! id = Some c ->
    1 <= cr_Threshold c /\ exists e, e ∈ events s /\ opens id c e
}.

Lemma wf_fk s : wf s -> approvals_of_ceremonies (sy_db s).
Proof. intros [Ha _] t id cu r Hr. destruct (Ha _ _ _ _ Hr) as (_ & (c & Hc & _) & _). eauto. Qed.

(** ** What a call changes *)

Definition no_new_authority (s s' : Sys) : Prop :=
  forall id, is_Some (db_authorities (sy_db s') !! id) -> is_Some (db_authorities (sy_db s) !! id).

Inductive change (op : Op) (r : result CAErr unit) (s s' : Sys) : Prop :=
| ch_none :
    same_ceremonies (sy_db s) (sy_db s') -> no_new_authority s s' ->
    (forall t id pur, gate op = Some (t, id, pur) -> r = Ok tt ->
       consumes op = false /\ exists p, pur = Ok p /\ requirePendingCeremonyQuorum t id p (sy_db s) = Ok tt) ->
    change op r s s'
| ch_start ev id t p n :
    gate op = None ->
    Append (ce_now (env_of op)) (ce_nuid (env_of op)) (ce_actor (env_of op))
      (mkEvent "" EventCACeremonyStarted t 0 (started_payload id p (opener_of (env_of op)) n) 0 None 0) (sy_log s) = (Ok ev, sy_log s') ->
    1 <= n ->
    sy_db s' = ApplyKeyCeremonyStartedTx (ce_now (env_of op))
                 (mkKeyCeremony id t p n "pending" 0 (opener_of (env_of op)) (ev_Time ev)) (sy_db s) ->
    change op r s s'
| ch_approve ev id t n :
    gate op = None ->
    let cu := opener_of (env_of op) in
    Append (ce_now (env_of op)) (ce_nuid (env_of op)) (ce_actor (env_of op))
      (mkEvent "" EventCACeremonyApproved t 0 (approved_payload id cu n) 0 None 0) (sy_log s) = (Ok ev, sy_log s') ->
    ApplyKeyCeremonyApprovedTx (ce_now (env_of op)) t id cu (ev_ID ev) (ev_Sequence ev) (ev_Time ev) (sy_db s) = Ok (sy_db s') ->
    change op r s s'
| ch_use t id p :
    gate op = Some (t, id, Ok p) -> consumes op = true -> consumed t id p s s' -> change op r s s'.

Lemma unchanged_none op r s s' :
  sy_db s' = sy_db s -> (forall t id pur, gate op = Some (t, id, pur) -> exists e, r = Err e) -> change op r s s'.
Proof.
  intros Hd Hr. apply ch_none; [rewrite Hd; apply same_refl|by intros id; rewrite Hd|].
  intros t id pur Hg ->. by destruct (Hr _ _ _ Hg).
Qed.

Lemma Start_change env t req s :
  log_step env s (exec (OStart env t req) s).2 /\
  change (OStart env t req) (exec (OStart env t req) s).1 s (exec (OStart env t req) s).2.
Proof.
  cbn [exec]. unfold StartCeremony.
  destruct (rq_Threshold req <? 1); [split; [by left|by apply unchanged_none]|].
  destruct (hierarchyPurposeFromStartRequest req) as [p|e]; [|split; [by left|by apply unchanged_none]].
  repeat match goal with |- context [bind (lift (Ok p)) ?k] => change (bind (lift (Ok p)) k) with (k p); cbn beta end.
  match goal with |- log_step _ _ (?m s).2 /\ _ => set (f := m) end.
  pose proof (project_effect env t EventCACeremonyStarted (started_payload (ce_uuid env) p (opener_of env) (rq_Threshold req))
                (GetKeyCeremony t (ce_uuid env)) s) as [Hl Hc]. fold f in Hl, Hc.
  split; [exact Hl|]. destruct Hc as [Hd|(ev & Ha & Hap)]; [by apply unchanged_none|].
  destruct (Append_event _ _ _ _ _ _ _ Ha) as (Hty & Ht & Hda & _).
  apply apply_ca_started with (id := ce_uuid env) (p := p) (o := opener_of env) (n := rq_Threshold req) in Hap as [Hn Hdb]; [|done..].
  eapply ch_start; [done|exact Ha|done|]. rewrite Hdb, Ht. done.
Qed.

Lemma approve_check_inr cu t id db cu' cur : approve_check cu t id db = Ok (inr (cu', cur)) -> cu' = cu /\ cu <> "".
Proof. unfold approve_check, res_bind. intros H. branches H. split; [done|by apply String.eqb_neq]. Qed.

Lemma Approve_change env t id db0 s :
  log_step env s (exec (OApprove env t id db0) s).2 /\
  change (OApprove env t id db0) (exec (OApprove env t id db0) s).1 s (exec (OApprove env t id db0) s).2.
Proof.
  cbn [exec]. unfold approve_from.
  destruct (approve_check _ _ _ _) as [[c|[cu cur]]|e] eqn:E; try (split; [by left|by apply unchanged_none]).
  apply approve_check_inr in E as [-> _]. unfold approve_commit.
  match goal with |- log_step _ _ (?m s).2 /\ _ => set (f := m) end.
  pose proof (project_effect env t EventCACeremonyApproved (approved_payload id (opener_of env) (kc_Approvals cur + 1))
                (GetKeyCeremony t id) s) as [Hl Hc]. fold f in Hl, Hc.
  split; [exact Hl|]. destruct Hc as [Hd|(ev & Ha & Hap)]; [by apply unchanged_none|].
  destruct (Append_event _ _ _ _ _ _ _ Ha) as (Hty & Ht & Hda & _).
  eapply apply_ca_approved in Hap; [|done..]. rewrite Ht in Hap. by eapply ch_approve.
Qed.

Lemma update_dom t id f db db' x :
  update_authority t id f db = Ok db' -> is_Some (db_authorities db' !! x) -> is_Some (db_authorities db !! x).
Proof.
  unfold update_authority, find_authority. destruct (db_authorities db !! id) eqn:E; [|done]. intros H. branches H. cbn.
  destruct (decide (x = id)) as [->|]; [intros _; by eexists|by rewrite lookup_insert_ne].
Qed.

Lemma rotated_dom e db db' x :
  apply_rotated e db = Ok db' -> is_Some (db_authorities db' !! x) -> is_Some (db_authorities db !! x).
Proof.
  unfold apply_rotated, ApplyCAAuthorityRotatedTx, res_bind. intros H. branches H. eauto using update_dom.
Qed.

Lemma Rotate_change env t ca su reason s :
  log_step env s (exec (ORotate env t ca su reason) s).2 /\
  change (ORotate env t ca su reason) (exec (ORotate env t ca su reason) s).1 s (exec (ORotate env t ca su reason) s).2.
Proof.
  cbn [exec]. unfold RotateAuthority, required.
  destruct (_ || _); [split; [by left|by apply unchanged_none]|].
  destruct (String.eqb _ _); [split; [by left|by apply unchanged_none]|].
  unfold forget, bind, ret, conflicts, with_tenant_append, lift.
  match goal with |- context [match ?x with Ok _ => _ | Err _ => _ end] => destruct x as [[[a [ty d]] db']|e] eqn:E end;
    [|split; [by left|by apply unchanged_none]].
  assert (ty = EventCAAuthorityRotated /\ db' = sy_db s) as [-> ->].
  { destruct (GetCAAuthorityForUpdateTx t ca _) as [p|]; cbn [res_bind] in E; [|done].
    destruct (GetCAAuthorityForUpdateTx t _ _) as [q|]; cbn [res_bind] in E; [|done].
    destruct (check _); cbn [res_bind] in E; [|done]. by injection E as _ <- _ <-. }
  pose proof (appendEvent_step env t EventCAAuthorityRotated d s) as [Hd Hl].
  destruct (appendEvent _ _ _ _ _) as [[ev|er] s'] eqn:Ea; cbn in Hd, Hl; [|split; [done|by apply unchanged_none]].
  apply appendEvent_Ok in Ea as (_ & Hty & _).
  destruct (apply_ca _ _ _) as [db2|er] eqn:Eap; [|split; [done|by apply unchanged_none]].
  destruct (ce_commits env); [|split; [done|by apply unchanged_none]]. split; [exact Hl|].
  apply ch_none; cbn; [apply apply_ca_authority in Eap; auto| |done].
  intros x. cbn. unfold apply_ca in Eap. case_in Eap; [done|]. rewrite Hty in Eap. cbn in Eap.
  eauto using rotated_dom.
Qed.

Lemma OfflineCSR_change env t ca cid spec s :
  log_step env s (exec (OOfflineCSR env t ca cid spec) s).2 /\
  change (OOfflineCSR env t ca cid spec) (exec (OOfflineCSR env t ca cid spec) s).1 s (exec (OOfflineCSR env t ca cid spec) s).2.
Proof.
  assert (Hlogs : logs env (exec (OOfflineCSR env t ca cid spec))).
  { cbn [exec]. apply logs_bind; [|quiet_tac]. unfold CreateOfflineIntermediateCSR. logs_tac. }
  destruct (Hlogs s) as [Hd Hl]. split; [done|]. apply ch_none; [rewrite Hd; apply same_refl|by intros id; rewrite Hd|].
  cbn [gate consumes]. intros ? ? ? [= <- <- <-] Hr. split; [done|].
  destruct (exec _ s) as [r s'] eqn:E. cbn in Hr. subst r. cbn [exec] in E. apply bind_Ok in E as (? & ? & E & _).
  unfold CreateOfflineIntermediateCSR in E. repeat (apply bind_Ok in E as (? & ? & ? & E)).
  unfold required, query, lift, conflicts in *.
  repeat match goal with H : (if ?b then fail _ else ret _) _ = _ |- _ => destruct b; [done|]; unfold ret in H end.
  simplify_eq/=. eexists. split; [eassumption|].
  match goal with H : context [requirePendingCeremonyQuorum ?a ?b ?c ?d] |- _ =>
    destruct (requirePendingCeremonyQuorum a b c d) as [[]|]; by simplify_eq/= end.
Qed.

(** An event of another type is projected into other tables. *)
Lemma apply_ca_leaf now ev db db' : ev_Type ev = "ca.endentity.issued" -> apply_ca now ev db = Ok db' -> db' = db.
Proof.
  intros Ht H. unfold apply_ca in H. case_in H; [done|]. rewrite Ht in H. cbn in H. unfold apply_endentity in H.
  repeat case_in H; try done. by injection H as <-.
Qed.

Lemma logs_leaf {A} env t d (x : A) :
  logs env (let! ev := appendEvent env t "ca.endentity.issued" d in let! _ := Apply env ev in ret x).
Proof.
  intros s. unfold bind. pose proof (appendEvent_step env t "ca.endentity.issued" d s) as [Hd Hl].
  destruct (appendEvent env t _ d s) as [[ev|er] s1] eqn:E; cbn in Hd, Hl; [|by auto].
  apply appendEvent_Ok in E as (_ & Ht & _). unfold Apply, WithTenant.
  destruct (apply_ca (ce_now env) ev (sy_db s1)) as [db'|er] eqn:Eap; cbn [res_bind]; [|by auto].
  apply apply_ca_leaf in Eap as ->; [|done]. destruct (ce_commits env); by auto.
Qed.

Lemma Leaf_change prof env t ca csr ttl s :
  log_step env s (exec (OIssueLeaf prof env t ca csr ttl) s).2 /\
  change (OIssueLeaf prof env t ca csr ttl) (exec (OIssueLeaf prof env t ca csr ttl) s).1 s
    (exec (OIssueLeaf prof env t ca csr ttl) s).2.
Proof.
  assert (Hlogs : logs env (exec (OIssueLeaf prof env t ca csr ttl))).
  { cbn [exec]. apply logs_bind; [|quiet_tac]. unfold IssueLeaf.
    repeat lazymatch goal with
    | |- logs _ (bind (appendEvent _ _ _ _) _) => apply logs_leaf
    | |- logs _ (bind _ _) => apply logs_bind_quiet; [solve [quiet_tac]|intros ?]
    | |- logs _ (match ?x with _ => _ end) => destruct x
    end. }
  destruct (Hlogs s) as [Hd Hl]. split; [done|by apply unchanged_none].
Qed.

Lemma exec_change op s : log_step (env_of op) s (exec op s).2 /\ change op (exec op s).1 s (exec op s).2.
Proof.
  destruct op; [apply Start_change|apply Approve_change| | | | |apply OfflineCSR_change| | |apply Rotate_change| |apply Leaf_change].
  all: match goal with |- log_step (env_of ?o) _ _ /\ _ =>
    destruct (gate o) as [[[t' id'] pur']|] eqn:Eg; [|done];
    destruct (exec_gated o _ _ _ Eg eq_refl s) as [Hl [[[e He] Hd]|(p' & -> & Hc)]]; (split; [exact Hl|]);
    [apply unchanged_none; [done|intros; by eexists]|by eapply ch_use] end.
Qed.

(** ** Refinement *)

Definition fresh (op : Op) (s : Sys) : Prop := Fresh (sy_log s) (ce_nuid (env_of op)).

Section Laws.
Context `{!EventStreamLaws ES}.

Lemma Append_grows env t ty d s ev st' :
  Append (ce_now env) (ce_nuid env) (ce_actor env) (mkEvent "" ty t 0 d 0 None 0) (sy_log s) = (Ok ev, st') ->
  Fresh (sy_log s) (ce_nuid env) -> events_from 1 st' = events s ++ [ev].
Proof.
  intros H Hf. unfold Append in H. apply append_ok in H; [|done]. destruct H as (_ & _ & _ & _ & _ & _ & _ & _ & _ & He).
  apply He. pose proof (LastSeq_nonneg (sy_log s)). lia.
Qed.

Lemma log_step_grows env s s' e :
  log_step env s s' -> Fresh (sy_log s) (ce_nuid env) -> e ∈ events s -> e ∈ events s'.
Proof.
  intros [Hl|(t & ty & d & ev & Ha)] Hf He; unfold events; [by rewrite Hl|].
  rewrite (Append_grows _ _ _ _ _ _ _ Ha Hf). apply elem_of_app. by left.
Qed.

Lemma Append_in env t ty d s ev s' :
  Append (ce_now env) (ce_nuid env) (ce_actor env) (mkEvent "" ty t 0 d 0 None 0) (sy_log s) = (Ok ev, sy_log s') ->
  Fresh (sy_log s) (ce_nuid env) -> ev ∈ events s'.
Proof. intros Ha Hf. unfold events. rewrite (Append_grows _ _ _ _ _ _ _ Ha Hf). apply elem_of_app. right. by constructor. Qed.

(** The evidence stays when the tables keep what it is about. *)
Lemma wf_mono s s' :
  wf s -> (forall e, e ∈ events s -> e ∈ events s') ->
  db_approvals (sy_db s') = db_approvals (sy_db s) ->
  (forall t id c, find_ceremony t id (sy_db s) = Some c ->
     exists c', find_ceremony t id (sy_db s') = Some c' /\ cr_Opener c' = cr_Opener c) ->
  (forall id c, db_ceremonies (sy_db s') !! id = Some c -> 1 <= cr_Threshold c /\ exists e, e ∈ events s' /\ opens id c e) ->
  wf s'.
Proof.
  intros [Ha _] Hg Hap Hc Ho. split; [|done]. intros t id cu r. rewrite Hap. intros Hr.
  destruct (Ha _ _ _ _ Hr) as (Hne & (c & Hf & Hop) & e & He & Hev). split_and!; [done| |eauto].
  destruct (Hc _ _ _ Hf) as (c' & Hf' & Heq). exists c'. by rewrite Heq.
Qed.

Lemma opener_actor env : opener_of env <> "" -> exists a, ce_actor env = Some a /\ a_Subject a = opener_of env.
Proof. unfold opener_of. destruct (ce_actor env) as [a|]; [by exists a|done]. Qed.

Section Preserved.
Context (s s' : Sys).
Context (Hwf : wf s).
Context (Hg : forall e, e ∈ events s -> e ∈ events s').

Lemma ceremonies_kept id c : db_ceremonies (sy_db s) !! id = Some c ->
  1 <= cr_Threshold c /\ exists e, e ∈ events s' /\ opens id c e.
Proof. intros Hc. destruct (wf_ceremonies _ Hwf _ _ Hc) as (Hn & e & He & Ho). eauto. Qed.

Lemma wf_same : same_ceremonies (sy_db s) (sy_db s') -> wf s'.
Proof.
  intros [Hc Ha]. apply (wf_mono s); try done.
  - intros t id c. unfold find_ceremony. rewrite Hc. eauto.
  - intros id c. rewrite Hc. apply ceremonies_kept.
Qed.

Lemma wf_start now id t p n o tm ev :
  1 <= n -> ev ∈ events s' -> opens id (mkCeremonyRow t p n "pending" o tm) ev ->
  sy_db s' = ApplyKeyCeremonyStartedTx now (mkKeyCeremony id t p n "pending" 0 o tm) (sy_db s) -> wf s'.
Proof.
  intros Hn Hin Hop Hdb. unfold ApplyKeyCeremonyStartedTx in Hdb. cbn in Hdb.
  destruct (db_ceremonies (sy_db s) !! id) eqn:E; [apply wf_same; rewrite Hdb; apply same_refl|].
  apply (wf_mono s); rewrite ?Hdb; try done.
  - intros t' id' c' Hf. exists c'. split; [|done]. apply find_ceremony_Some in Hf as [Hf <-].
    apply find_ceremony_Some. split; [|done]. cbn. rewrite lookup_insert_ne; congruence.
  - intros id' c'. cbn. destruct (decide (id' = id)) as [->|]; [|rewrite lookup_insert_ne by done; apply ceremonies_kept].
    rewrite lookup_insert_eq. intros [= <-]. split; [done|]. exists ev. split; [done|exact Hop].
Qed.

Lemma wf_approve now t id cu ev q at_ :
  ev ∈ events s' -> (cu <> "" -> approves t id cu ev) ->
  ApplyKeyCeremonyApprovedTx now t id cu (ev_ID ev) q at_ (sy_db s) = Ok (sy_db s') -> wf s'.
Proof.
  intros Hin Hapv Hap. apply ApplyApproved_approves in Hap as [Hdb|(_ & c & row & Hf & Hop & Hcu & Hdb & Hrow)].
  { apply wf_same. rewrite Hdb. apply same_refl. }
  split; [|intros id' c'; rewrite Hdb; apply ceremonies_kept].
  intros t' id' cu' r'. rewrite Hdb. cbn. intros Hr'. pose proof (wf_approvals _ Hwf) as Hwa.
  destruct (decide ((t', id', cu') = (t, id, cu))) as [[= -> -> ->]|Hne].
  - rewrite lookup_insert_eq in Hr'. injection Hr' as <-. split_and!; [done|by exists c|].
    destruct Hrow as [Hrow|(r0 & Hr0 & _ & Hrow)]; [by exists ev; auto|].
    destruct (Hwa _ _ _ _ Hr0) as (_ & _ & e & He & Hev & Happ'). exists e. rewrite Hrow. eauto.
  - rewrite lookup_insert_ne in Hr' by congruence. destruct (Hwa _ _ _ _ Hr') as (? & ? & e & He & ?). eauto 6.
Qed.

Lemma wf_use t id p : consumed t id p s s' -> wf s'.
Proof.
  intros (k & db1 & Hk & Hc & Ha). unfold ConsumeKeyCeremonyTx in Hk.
  destruct (find_ceremony t id (sy_db s)) as [row|] eqn:Ef; [|done].
  cbn in Hk. branches Hk. cbn in Hc, Ha. apply find_ceremony_Some in Ef as [Hid Ht]. apply (wf_mono s); try done.
  - intros t' id' c' Hf. apply find_ceremony_Some in Hf as [Hf <-]. destruct (decide (id' = id)) as [->|Hne].
    + exists (set_completed row). rewrite Hid in Hf. injection Hf as <-. split; [|done].
      apply find_ceremony_Some. by rewrite Hc, lookup_insert_eq.
    + exists c'. split; [|done]. apply find_ceremony_Some. by rewrite Hc, lookup_insert_ne.
  - intros id' c'. rewrite Hc. destruct (decide (id' = id)) as [->|]; [|rewrite lookup_insert_ne by done; apply ceremonies_kept].
    rewrite lookup_insert_eq. intros [= <-]. exact (ceremonies_kept _ _ Hid).
Qed.

End Preserved.

Lemma wf_change op r s s' :
  wf s -> fresh op s -> log_step (env_of op) s s' -> change op r s s' -> wf s'.
Proof.
  intros Hwf Hfr Hl Hch. pose proof (fun e => log_step_grows _ _ _ e Hl Hfr) as Hg.
  destruct Hch as [Hs _ _|ev id t p n _ Happ Hn Hdb|ev id t n _ cu Happ Hap|t id p _ _ Hc].
  - by eapply wf_same.
  - destruct (Append_event _ _ _ _ _ _ _ Happ) as (Hty & Ht & Hd & Hac & _).
    eapply wf_start; [done..|by eapply Append_in| |done]. unfold opens. cbn. by rewrite Hac.
  - destruct (Append_event _ _ _ _ _ _ _ Happ) as (Hty & Ht & Hd & Hac & _).
    eapply wf_approve; [done..|by eapply Append_in| |done].
    intros Hcu. destruct (opener_actor (env_of op) Hcu) as (a & Hact & Hsub).
    unfold approves. split_and!; [done|done|eauto|]. rewrite Hac. eauto.
  - by eapply wf_use.
Qed.

(** A step of the abstract ceremony that the call may take, in the name of its
    actor. *)
Definition label_of (op : Op) (l : label) : Prop :=
  match l with
  | LSkip => True
  | LStart _ _ _ o _ => gate op = None /\ o = opener_of (env_of op)
  | LApprove _ _ cu => gate op = None /\ cu = opener_of (env_of op)
  | LUse t id p => gate op = Some (t, id, Ok p)
  end.

Lemma change_step op r s s' :
  wf s -> change op r s s' ->
  exists l, astep (alpha (sy_db s)) l (alpha (sy_db s')) /\ label_of op l /\
    (minted op r s s' -> consumes op = true -> exists t id p, l = LUse t id p).
Proof.
  intros Hwf Hch.
  destruct Hch as [Hs Hn Hg|ev id t p n Hg Happ Hn Hdb|ev id t n Hg cu Happ Hap|t id p Hg Hco (k & db1 & Hk & Hs)].
  - exists LSkip. rewrite (alpha_ext _ _ Hs). split_and!; [constructor|done|]. intros [[[[[t id] pur] Hg'] Hr]|(id & H1 & H2)] Hc.
    + destruct (Hg _ _ _ Hg' Hr). congruence.
    + apply Hn in H2. rewrite H1 in H2. by destruct H2.
  - assert (Hm : ~ minted op r s s').
    { intros [[[x Hx] _]|(x & H1 & H2)]; [congruence|]. rewrite Hdb in H2. unfold ApplyKeyCeremonyStartedTx in H2.
      cbn in H2. destruct (db_ceremonies (sy_db s) !! id); cbn in H2; rewrite H1 in H2; by destruct H2. }
    destruct (ApplyStarted_starts (ce_now (env_of op)) (mkKeyCeremony id t p n "pending" 0 (opener_of (env_of op)) (ev_Time ev))
                (sy_db s)) as [Heq|Hst]; [by apply wf_fk|done|done| |].
    + exists LSkip. rewrite Hdb, Heq. split_and!; [constructor|done|by intros]. 
    + eexists. rewrite Hdb. split_and!; [exact Hst|by split|by intros].
  - assert (Hm : ~ minted op r s s').
    { intros [[[x Hx] _]|(x & H1 & H2)]; [congruence|].
      apply ApplyApproved_approves in Hap as [Heq|(_ & c & row & _ & _ & _ & Heq & _)]; rewrite Heq in H2; cbn in H2;
        rewrite H1 in H2; by destruct H2. }
    apply ApplyApproved_approves in Hap as [Heq|(Hst & _)].
    + exists LSkip. rewrite Heq. split_and!; [constructor|done|by intros].
    + eexists. split_and!; [exact Hst|by split|by intros].
  - exists (LUse t id p). rewrite (alpha_ext _ _ Hs). split_and!; [by eapply Consume_uses|done|eauto].
Qed.

(** C14: The served CA hierarchy refines the abstract key ceremony.  Every call, in
    every state with its evidence in the log, takes one step of the ceremonies: it
    opens one, adds one approval, uses one, or leaves them alone.  Openings and
    approvals are in the name of the actor of the call; a call that adds a CA row
    or returns a CA certificate uses the ceremony it names, for the purpose of
    its request.  The evidence stays in the log. *)
Theorem served_refines_ceremonies op s :
  wf s -> fresh op s ->
  wf (exec op s).2 /\
  exists l, astep (alpha (sy_db s)) l (alpha (sy_db (exec op s).2)) /\ label_of op l /\
    (minted op (exec op s).1 s (exec op s).2 -> consumes op = true -> exists t id p, l = LUse t id p).
Proof.
  intros Hwf Hfr. destruct (exec_change op s) as [Hl Hch]. split; [by eapply wf_change|by apply change_step].
Qed.

(** ** Runs *)

Inductive run : Sys -> list Op -> Sys -> Prop :=
| run_nil s : run s [] s
| run_cons s op ops s' : fresh op s -> run (exec op s).2 ops s' -> run s (op :: ops) s'.

Lemma run_wf s ops s' : wf s -> run s ops s' -> wf s'.
Proof.
  intros Hwf Hr. induction Hr as [|s op ops s' Hf Hr IH]; [done|]. apply IH.
  destruct (exec_change op s) as [Hl Hch]. by eapply wf_change.
Qed.

(** A ceremony that has been used stays as it is. *)
Lemma astep_used A l A' id c : astep A l A' -> A !! id = Some c -> c_used c = true -> A' !! id = Some c.
Proof.
  intros Hst Hid Hu. destruct Hst as [A|A i t p o n Hn _|A i d cu Hd Hdu _ _|A i d Hd Hdu _]; [by eauto|..];
    (destruct (decide (i = id)) as [->|Hne]; [|rewrite lookup_insert_ne by done; eauto]); congruence.
Qed.

Lemma run_used s ops s' id c :
  wf s -> run s ops s' -> alpha (sy_db s) !! id = Some c -> c_used c = true -> alpha (sy_db s') !! id = Some c.
Proof.
  intros Hwf Hr. induction Hr as [|s op ops s' Hf Hr IH]; intros Hid Hu; [done|].
  destruct (exec_change op s) as [Hl Hch]. apply IH; [by eapply wf_change| |done].
  destruct (change_step _ _ _ _ Hwf Hch) as (l & Hst & _). by eapply astep_used.
Qed.

(** The quorum of a ceremony: its opening and the approvals of enough custodians,
    each other than the opener, are events made by those actors. *)
Definition quorum (t id p : string) (s : Sys) : Prop :=
  exists c e0 cs, find_ceremony t id (sy_db s) = Some c /\ cr_Status c = "pending" /\ cr_Purpose c = p /\
    e0 ∈ events s /\ opens id c e0 /\ NoDup cs /\ 1 <= cr_Threshold c <= Z.of_nat (length cs) /\
    Forall (fun cu => cu <> "" /\ cu <> cr_Opener c /\ exists e, e ∈ events s /\ approves t id cu e) cs.

Lemma quorum_met t id p c s :
  wf s -> find_ceremony t id (sy_db s) = Some c -> cr_Status c = "pending" -> cr_Purpose c = p ->
  cr_Threshold c <= approval_count t id (sy_db s) -> quorum t id p s.
Proof.
  intros Hwf Hf Hst Hp Hn. pose proof Hf as Hf'. apply find_ceremony_Some in Hf' as [Hc Ht].
  destruct (wf_ceremonies _ Hwf _ _ Hc) as (H1 & e0 & He0 & Ho).
  exists c, e0, (custodians t id (sy_db s)). split_and!; try done; [apply custodians_NoDup|].
  apply Forall_forall. intros cu Hcu. apply custodians_elem in Hcu as (r & Hr & _).
  destruct (wf_approvals _ Hwf _ _ _ _ Hr) as (Hne & (c' & Hf2 & Hop) & e & He & _ & Hap).
  rewrite Hf in Hf2. injection Hf2 as <-. eauto 7.
Qed.

Lemma minted_quorum op r s s' :
  wf s -> change op r s s' -> minted op r s s' -> exists t id p, gate op = Some (t, id, Ok p) /\ quorum t id p s.
Proof.
  intros Hwf Hch Hm. destruct (consumes op) eqn:Hco.
  - destruct (change_step _ _ _ _ Hwf Hch) as (l & Hst & Hl & Hu). destruct (Hu Hm Hco) as (t & id & p & ->).
    exists t, id, p. split; [exact Hl|]. inversion Hst as [| | |A i c Hc Hun Hn]; subst.
    rewrite alpha_lookup in Hc. destruct (db_ceremonies (sy_db s) !! id) as [row|] eqn:Er; [|done]. cbn in Hc. injection Hc as <-.
    cbn in *. rewrite approvers_count in Hn. apply negb_false_iff, String.eqb_eq in Hun.
    eapply quorum_met; [done|by apply find_ceremony_Some|done..].
  - destruct op; try done. cbn in Hm.
    destruct Hch as [Hs Hn Hg| | |]; [|done..]. destruct Hm as [[_ Hr]|(x & H1 & H2)].
    + destruct (Hg _ _ _ eq_refl Hr) as (_ & p & Hp & Hq). exists t, cid, p. split; [by cbn; rewrite Hp|].
      unfold requirePendingCeremonyQuorum, GetKeyCeremony, res_bind in Hq.
      destruct (find_ceremony t cid (sy_db s)) as [c|] eqn:Ef; [|done]. cbn in Hq. branches Hq.
      apply negb_false_iff, String.eqb_eq in Heq, Heq0. apply Z.ltb_ge in Heq1. by eapply quorum_met.
    + apply Hn in H2. rewrite H1 in H2. by destruct H2.
Qed.

(** C8: No CA key without its quorum, and no ceremony for two keys.  In every run
    of the service, with approvals deciding on stale readings and transactions
    that fail, a call that adds a CA row or returns a CA certificate or CSR names
    a ceremony of its tenant that is pending, for the purpose of its request,
    with an opening and approvals of at least the threshold (one or more) of distinct,
    named custodians other than the opener, each in the log as an event made by
    that custodian.  Once it has been consumed, no later call that names it
    succeeds. *)
Theorem ca_keys_need_quorum st0 ops s op :
  run (mkSys empty_db st0 ∅) ops s -> fresh op s -> minted op (exec op s).1 s (exec op s).2 ->
  exists t id p, gate op = Some (t, id, Ok p) /\ quorum t id p s /\
    (consumes op = true -> forall ops' s1 op' t' pur', run (exec op s).2 ops' s1 -> gate op' = Some (t', id, pur') ->
       ~ minted op' (exec op' s1).1 s1 (exec op' s1).2).
Proof.
  intros Hr Hf Hm. assert (Hwf : wf s) by (eapply run_wf; [|done]; split; intros *; cbn; by rewrite lookup_empty).
  destruct (exec_change op s) as [Hl Hch]. destruct (minted_quorum _ _ _ _ Hwf Hch Hm) as (t & id & p & Hg & Hq).
  exists t, id, p. split_and!; [done..|]. intros Hco ops' s1 op' t' pur' Hr1 Hg' Hm'.
  pose proof (wf_change _ _ _ _ Hwf Hf Hl Hch) as Hwf'. pose proof (run_wf _ _ _ Hwf' Hr1) as Hwf1.
  destruct (change_step _ _ _ _ Hwf Hch) as (l & Hst & Hlab & Hu). destruct (Hu Hm Hco) as (t2 & id2 & p2 & ->).
  cbn in Hlab. rewrite Hg in Hlab. injection Hlab as <- <- <-.
  inversion Hst as [| | |A i c Hc Hun Hn Ha Hid Ha']; subst.
  assert (Hc1 : alpha (sy_db s1) !! id = Some (use c)).
  { eapply (run_used _ _ _ id (use c) Hwf' Hr1); [by rewrite <- Ha', lookup_insert_eq|done]. }
  destruct (minted_quorum _ _ _ _ Hwf1 (proj2 (exec_change op' s1)) Hm') as (t3 & id3 & p3 & Hg3 & (row & _ & _ & Hrow & Hst1 & _)).
  rewrite Hg' in Hg3. injection Hg3 as -> -> _. apply find_ceremony_Some in Hrow as [Hrow _].
  rewrite alpha_lookup, Hrow in Hc1. apply (f_equal (option_map c_used)) in Hc1. cbn in Hc1. by rewrite Hst1 in Hc1.
Qed.

(** ** Limits *)

Definition all_pending (db : CADB) : Prop := forall id c, db_ceremonies db !! id = Some c -> cr_Status c = "pending".

(** The projection of events never uses a ceremony. *)
Lemma apply_ca_pending now e db db' : apply_ca now e db = Ok db' -> all_pending db -> all_pending db'.
Proof.
  unfold apply_ca. intros H Hp. case_in H; [done|]. clear Heq. repeat (case_in H); try (by injection H as <-).
  - unfold apply_started in H. branches H. unfold ApplyKeyCeremonyStartedTx. cbn. case_goal; [done|].
    intros id c. cbn. intros Hc. apply lookup_insert_Some in Hc as [[<- <-]|[_ Hc]]; [done|by eapply Hp].
  - unfold apply_approved in H. branches H. apply ApplyApproved_approves in H as [->|(_ & c & r & _ & _ & _ & -> & _)]; done.
  - apply rotated_same in H as [Hc _]. intros id c. rewrite Hc. apply Hp.
  - apply rekeyed_same in H as [Hc _]. intros id c. rewrite Hc. apply Hp.
  - unfold apply_endentity in H. by branches H.
Qed.

Lemma project_ca_pending now l db db' : project_ca now l db = (Ok tt, db') -> all_pending db -> all_pending db'.
Proof.
  revert db. induction l as [|e l IH]; intros db H Hp; cbn in H; [by injection H as <-|].
  destruct (apply_ca now e db) as [db1|] eqn:E; [|done]. eauto using apply_ca_pending.
Qed.

Lemma Consume_ready t id c db :
  find_ceremony t id db = Some c -> cr_Status c = "pending" -> cr_Threshold c <= approval_count t id db ->
  is_ok (ConsumeKeyCeremonyTx t id (cr_Purpose c) db) = true.
Proof.
  intros Hf Hs Hn. unfold ConsumeKeyCeremonyTx. rewrite Hf. cbn. rewrite Hs, !String.eqb_refl. cbn.
  by rewrite (proj2 (Z.ltb_ge _ _) Hn).
Qed.

(** Limit: a rebuild of the read model reopens every ceremony.  The use of a
    ceremony is a column of a table that the rebuild empties and no event, so
    after it every ceremony is pending, and each one whose approvals are in the log
    can be consumed once more for the same purpose; the authorities, which the
    rebuild leaves alone, stay. *)
Theorem rebuild_reopens_ceremony now l db db' :
  rebuild_ca now l db = (Ok tt, db') ->
  all_pending db' /\
  forall t id c, find_ceremony t id db' = Some c -> cr_Threshold c <= approval_count t id db' ->
    is_ok (ConsumeKeyCeremonyTx t id (cr_Purpose c) db') = true.
Proof.
  intros H. unfold rebuild_ca in H. destruct (project_ca now l (truncate_ca db)) as [[[]|] db1] eqn:E; [|done].
  injection H as <-. assert (Hp : all_pending db1).
  { eapply project_ca_pending; [done|]. intros id c.
    change (db_ceremonies (truncate_ca db)) with (∅ : gmap string CeremonyRow). by rewrite lookup_empty. }
  split; [done|]. intros t id c Hf. apply Consume_ready; [done|]. apply find_ceremony_Some in Hf as [Hf _]. by eapply Hp.
Qed.

Lemma Approved_used now t id cu eid q at_ db c :
  find_ceremony t id db = Some c -> cr_Status c <> "pending" -> cu <> "" -> eid <> "" -> q <> 0 ->
  cu ∉ custodians t id db ->
  ApplyKeyCeremonyApprovedTx now t id cu eid q at_ db = Err ErrKeyCeremonyNotPending.
Proof.
  intros Hf Hs Hcu Hid Hq Hn. unfold ApplyKeyCeremonyApprovedTx.
  rewrite (proj2 (String.eqb_neq _ _) Hcu), (proj2 (String.eqb_neq _ _) Hid), (proj2 (Z.eqb_neq _ _) Hq), Hf. cbn.
  rewrite (proj2 (String.eqb_neq _ _) Hs). cbn.
  destruct (db_approvals db !! (t, id, cu)) as [[a [e|] [n|]]|] eqn:E; try done.
  exfalso. apply Hn, custodians_elem. eauto.
Qed.

(** The projection of an approval of a ceremony that has been used. *)
Lemma late_rejected now ev t id cu n db c :
  ev_Type ev = EventCACeremonyApproved -> ev_TenantID ev = t -> ev_Data ev = approved_payload id cu n -> int64 n = true ->
  ev_SchemaVersion ev = 1 -> ev_ID ev <> "" -> ev_Sequence ev <> 0 -> id <> "" -> cu <> "" ->
  find_ceremony t id db = Some c -> cr_Status c <> "pending" -> cu ∉ custodians t id db ->
  apply_ca now ev db = Err ErrKeyCeremonyNotPending.
Proof.
  intros Hty Ht Hd Hn Hv Hid Hq Hne Hcu Hf Hs Hnc. unfold apply_ca, Projections.ValidateSchemaVersion, Projections.schemaVersionOf.
  rewrite Hty, Hv. cbn. unfold apply_approved. rewrite Hd. unfold approved_payload. rewrite decode_encode.
  - cbn. unfold empty_str. rewrite (proj2 (String.eqb_neq _ _) Hne), (proj2 (String.eqb_neq _ _) Hcu), Ht. cbn.
    by eapply Approved_used.
  - apply (bool_decide_unpack _). vm_compute. exact I.
  - by repeat constructor.
Qed.

(** A ceremony that has been used keeps its custodians. *)
Lemma run_used_ceremony s ops s' t id c :
  wf s -> run s ops s' -> find_ceremony t id (sy_db s) = Some c -> cr_Status c <> "pending" ->
  exists c', find_ceremony t id (sy_db s') = Some c' /\ cr_Status c' <> "pending" /\
    forall cu, cu ∈ custodians t id (sy_db s') -> cu ∈ custodians t id (sy_db s).
Proof.
  intros Hwf Hr Hf Hs. apply find_ceremony_Some in Hf as [Hc Ht].
  assert (Ha : alpha (sy_db s') !! id = Some (ceremony_of (sy_db s) id c)).
  { eapply run_used; [done|done|by rewrite alpha_lookup, Hc|]. cbn. by rewrite (proj2 (String.eqb_neq _ _) Hs). }
  rewrite alpha_lookup in Ha. destruct (db_ceremonies (sy_db s') !! id) as [c'|] eqn:Hc'; [|done]. cbn in Ha.
  injection Ha as Ht' _ _ _ Hap Hu. exists c'. split_and!.
  - apply find_ceremony_Some. split; [done|congruence].
  - intros Hp. rewrite Hp, (proj2 (String.eqb_neq _ _) Hs) in Hu. done.
  - intros cu Hcu. rewrite Ht', Ht in Hap. apply (elem_of_list_to_set (C := gset string)). rewrite <- Hap.
    by apply elem_of_list_to_set.
Qed.

(** Limit: an approval that loses the race against the use of its ceremony stops
    the projection for good.  The approval decides on a reading in which the
    ceremony is pending; when its event is appended after the ceremony was
    consumed, the call fails, but the event is in the log, and in every later
    state of the service the catch-up over it fails with the same error and
    projects nothing after it. *)
Theorem late_approval_blocks_catchup env t id db0 cu cur s c ev st' :
  wf s -> fresh (OApprove env t id db0) s -> ce_nuid env <> "" ->
  approve_check (opener_of env) t id db0 = Ok (inr (cu, cur)) ->
  find_ceremony t id (sy_db s) = Some c -> cr_Status c <> "pending" -> cu ∉ custodians t id (sy_db s) ->
  int64 (kc_Approvals cur + 1) = true -> id <> "" ->
  Append (ce_now env) (ce_nuid env) (ce_actor env)
    (mkEvent "" EventCACeremonyApproved t 0 (approved_payload id cu (kc_Approvals cur + 1)) 0 None 0) (sy_log s) = (Ok ev, st') ->
  let s' := (exec (OApprove env t id db0) s).2 in
  (exec (OApprove env t id db0) s).1 = Err ErrKeyCeremonyNotPending /\
  events s' = events s ++ [ev] /\ sy_db s' = sy_db s /\
  forall ops s1 now l, run s' ops s1 -> project_ca now (ev :: l) (sy_db s1) = (Err ErrKeyCeremonyNotPending, sy_db s1).
Proof.
  intros Hwf Hfr Hnu Hck Hf Hs Hnc Hn Hid Happ s'.
  assert (Hcu : cu <> "") by (apply approve_check_inr in Hck as [-> ?]; done).
  pose proof (Append_event _ _ _ _ _ _ _ Happ) as (Hty & Ht & Hd & _ & Hev).
  unfold Append in Happ. pose proof Happ as Hok. apply append_ok in Hok; [|done].
  destruct Hok as (_ & _ & _ & _ & _ & _ & Hv & Hq & _ & Hlog). cbn in Hv, Hq.
  pose proof (LastSeq_nonneg (sy_log s)) as Hpos.
  assert (Hrej : forall now db c', find_ceremony t id db = Some c' -> cr_Status c' <> "pending" -> cu ∉ custodians t id db ->
            apply_ca now ev db = Err ErrKeyCeremonyNotPending).
  { intros. eapply late_rejected; try done; [congruence|lia]. }
  assert (Hex : exec (OApprove env t id db0) s = (Err ErrKeyCeremonyNotPending, mkSys (sy_db s) st' (sy_signers s))).
  { cbn [exec]. unfold approve_from. rewrite Hck. unfold approve_commit, forget, bind, appendEvent, Append. rewrite Happ.
    unfold Apply, WithTenant. cbn. by rewrite (Hrej _ _ _ Hf Hs Hnc). }
  unfold s'. rewrite Hex. cbn. split_and!; [done|apply Hlog; lia|done|].
  intros ops s1 now l Hr. destruct (exec_change (OApprove env t id db0) s) as [Hl Hch]. rewrite Hex in Hl, Hch.
  destruct (run_used_ceremony _ _ _ t id c (wf_change _ _ _ _ Hwf Hfr Hl Hch) Hr) as (c' & Hf' & Hs' & Hc'); [done..|].
  erewrite Hrej; [done|done|done|]. intros Hin. by apply Hnc, Hc'.
Qed.

End Laws.
End Calls.

(** ** A concrete system

    A crypto boundary that signs everything, the list stream and the pooled
    router; [alice] opens the ceremonies and [bob] approves them. *)

Definition demo_issued (spec : HSpec) : Issued :=
  mkIssued (hs_CommonName spec) "CERT" "der" "serial" 9 (hs_MaxPathLen spec) (hs_PermittedDNSDomains spec) (hs_EKUs spec).

#[local] Instance demo_crypto : CryptoOps := {|
  Signer := unit;
  World := unit;
  SHA256Hex := fun _ => "digest";
  signer_client := fun _ => true;
  createOrBind := fun _ _ => Ok tt;
  SignerForDualControlHandle := fun _ _ => Ok tt;
  SelfSignedHierarchyCA := fun _ _ spec => Ok (demo_issued spec);
  SignIntermediateHierarchyCA := fun _ _ _ _ spec => Ok (demo_issued spec);
  SignIntermediateHierarchyCAFromCSR := fun _ _ _ _ spec => Ok (demo_issued spec);
  VerifyImportedOfflineRoot := fun _ _ spec => Ok (demo_issued spec);
  VerifyImportedCAChain := fun _ _ _ spec => Ok (demo_issued spec, "root");
  VerifyOfflineSignedIntermediate := fun _ _ _ _ spec => Ok (demo_issued spec);
  CreateCertificateRequest := fun _ _ _ => Ok "csr";
  SignLeafFromCSRWithProfile := fun _ _ _ _ _ _ => Err LeafEKUs;
  Inspect := fun _ => Ok (mkInfo "serial" "subject" 9);
  pem_Decode := fun s =>
    if String.eqb s "CERT" then Some (mkPEM "CERTIFICATE" "der", "")
    else if String.eqb s "CSR" then Some (mkPEM "CERTIFICATE REQUEST" "csr", "") else None;
  pem_Encode := fun _ => "PEM";
  ToLowerUnicode := fun s => s
|}.

#[local] Existing Instance PooledRouter.
#[local] Existing Instance demo_net.

Definition demo_tenant : string := "11111111-1111-1111-1111-111111111111".

Definition demo_env (nuid uuid who : string) : CallEnv := mkEnv 7 nuid (Some (mkActor who [])) uuid tt true.

Definition demo_spec : CASpec := mkCASpec "CA" [] 1 [] 3600 "".

Definition demo_start (op parent csr : string) : CACeremonyStartRequest := mkStartRequest op parent "" csr "" "" 1 demo_spec.

Definition demo_init : Sys := mkSys empty_db ListStream.empty ∅.

(** A root by ceremony [k1]; a ceremony [k2] for an external intermediate. *)
Definition demo_ops1 : list Op := [
  OStart (demo_env "n1" "k1" "alice") demo_tenant (demo_start "create_root" "" "");
  OApprove (demo_env "n2" "" "bob") demo_tenant "k1"
    (sy_db (exec (OStart (demo_env "n1" "k1" "alice") demo_tenant (demo_start "create_root" "" "")) demo_init).2);
  OCreateRoot (demo_env "n3" "ca1" "alice") demo_tenant "k1" demo_spec;
  OStart (demo_env "n4" "k2" "alice") demo_tenant (demo_start "issue_intermediate_csr" "ca1" "CSR")].

Definition exec_all (ops : list Op) (s : Sys) : Sys := fold_left (fun s op => (exec op s).2) ops s.

Definition demo_s1 : Sys := exec_all demo_ops1 demo_init.

Definition demo_ops2 : list Op := [OApprove (demo_env "n5" "" "bob") demo_tenant "k2" (sy_db demo_s1)].

Definition demo_s2 : Sys := exec_all demo_ops2 demo_s1.

Definition demo_issue (nuid : string) : Op :=
  OIssueIntermediateCSR (demo_env nuid "" "alice") demo_tenant "ca1" "k2" "csr" demo_spec.

(** One ceremony, one certificate; after a rebuild, another. *)
Example demo_issues :
  let s3 := (exec (demo_issue "n6") demo_s2).2 in
  let s4 := with_db (rebuild_ca 8 (events s3) (sy_db s3)).2 s3 in
  ((exec (demo_issue "n6") demo_s2).1, (exec (demo_issue "n7") s3).1, (rebuild_ca 8 (events s3) (sy_db s3)).1,
   (exec (demo_issue "n7") s4).1)
  = (Ok tt, Err (ErrConflict ErrKeyCeremonyNotPending), Ok tt, Ok tt).
Proof. vm_compute. reflexivity. Qed.

Lemma demo_wf : wf demo_init.
Proof. split; intros *; cbn; by rewrite lookup_empty. Qed.

(** Freshness of the ids of a run, computed. *)
Definition freshb (op : Op) (s : Sys) : bool :=
  negb (existsb (String.eqb (ce_nuid (env_of op))) (ListStream.ids (proj1_sig (sy_log s)))).

Fixpoint fresh_ops (ops : list Op) (s : Sys) : bool :=
  match ops with
  | [] => true
  | op :: ops' => freshb op s && fresh_ops ops' (exec op s).2
  end.

Lemma freshb_fresh op s : freshb op s = true -> fresh op s.
Proof.
  unfold freshb, fresh. intros H Hin. apply negb_true_iff in H. apply not_true_iff_false in H. apply H.
  apply existsb_exists. exists (ce_nuid (env_of op)). split; [by apply list_elem_of_In|apply String.eqb_refl].
Qed.

Lemma fresh_ops_run ops s : fresh_ops ops s = true -> run s ops (exec_all ops s).
Proof.
  revert s. induction ops as [|op ops IH]; intros s H; [apply run_nil|]. apply andb_prop in H as [H1 H2].
  apply run_cons; [by apply freshb_fresh|by apply IH].
Qed.

Definition demo_ops : list Op := demo_ops1 ++ demo_ops2.

Lemma demo_run1 : run demo_init demo_ops (exec_all demo_ops demo_init).
Proof. apply fresh_ops_run. vm_compute. reflexivity. Qed.

Lemma demo_s2_eq : demo_s2 = exec_all demo_ops demo_init.
Proof. unfold demo_s2, demo_s1, demo_ops, exec_all. by rewrite fold_left_app. Qed.

Lemma demo_run2 : run demo_init demo_ops demo_s2.
Proof. rewrite demo_s2_eq. exact demo_run1. Qed.

Lemma demo_wf2 : wf demo_s2.
Proof. exact (run_wf _ _ _ demo_wf demo_run2). Qed.

Definition demo_s3 : Sys := (exec (demo_issue "n6") demo_s2).2.

Lemma demo_fresh6 : fresh (demo_issue "n6") demo_s2.
Proof. apply freshb_fresh. vm_compute. reflexivity. Qed.

Lemma demo_wf3 : wf demo_s3.
Proof.
  apply (run_wf demo_s2 [demo_issue "n6"]); [exact demo_wf2|]. exact (run_cons _ _ _ _ demo_fresh6 (run_nil _)).
Qed.

Lemma served_refines_ceremonies_witness :
  wf (exec (demo_issue "n6") demo_s2).2 /\
  exists l, astep (alpha (sy_db demo_s2)) l (alpha (sy_db (exec (demo_issue "n6") demo_s2).2)) /\
    label_of (demo_issue "n6") l /\
    (minted (demo_issue "n6") (exec (demo_issue "n6") demo_s2).1 demo_s2 (exec (demo_issue "n6") demo_s2).2 ->
     consumes (demo_issue "n6") = true -> exists t id p, l = LUse t id p).
Proof.
  apply (served_refines_ceremonies (demo_issue "n6") demo_s2).
  - exact demo_wf2.
  - exact demo_fresh6.
Defined.

Lemma ca_keys_need_quorum_witness :
  exists t id p, gate (demo_issue "n6") = Some (t, id, Ok p) /\ quorum t id p demo_s2 /\
    (consumes (demo_issue "n6") = true ->
     forall ops' s1 op' t' pur', run (exec (demo_issue "n6") demo_s2).2 ops' s1 -> gate op' = Some (t', id, pur') ->
       ~ minted op' (exec op' s1).1 s1 (exec op' s1).2).
Proof.
  apply (ca_keys_need_quorum (ES := ListStream_stream) (ListStream.empty : Stream (EventStream := ListStream_stream))
           demo_ops demo_s2 (demo_issue "n6")).
  - exact demo_run2.
  - exact demo_fresh6.
  - left. split; [by eexists|]. vm_compute. reflexivity.
Defined.

Definition demo_rebuilt : CADB := (rebuild_ca 8 (events demo_s3) (sy_db demo_s3)).2.

Lemma demo_rebuild : rebuild_ca 8 (events demo_s3) (sy_db demo_s3) = (Ok tt, demo_rebuilt).
Proof.
  unfold demo_rebuilt. rewrite (surjective_pairing (rebuild_ca _ _ _)) at 1. by f_equal.
Qed.

Lemma rebuild_reopens_ceremony_witness :
  all_pending demo_rebuilt /\
  forall t id c, find_ceremony t id demo_rebuilt = Some c -> cr_Threshold c <= approval_count t id demo_rebuilt ->
    is_ok (ConsumeKeyCeremonyTx t id (cr_Purpose c) demo_rebuilt) = true.
Proof. exact (rebuild_reopens_ceremony 8 (events demo_s3) (sy_db demo_s3) demo_rebuilt demo_rebuild). Defined.

(** [carol] reads the ceremony before [demo_issue] and appends after it. *)
Definition carol : CallEnv := demo_env "n7" "" "carol".

Definition carol_reading : KeyCeremony :=
  match GetKeyCeremony demo_tenant "k2" (sy_db demo_s2) with
  | Ok c => c
  | Err _ => mkKeyCeremony "" "" "" 0 "" 0 "" 0
  end.

Abbreviation carol_append :=
  (Append (ce_now carol) (ce_nuid carol) (ce_actor carol)
    (mkEvent "" EventCACeremonyApproved demo_tenant 0 (approved_payload "k2" "carol" (kc_Approvals carol_reading + 1)) 0 None 0)
    (sy_log demo_s3)).

Definition carol_event : Event :=
  match carol_append.1 with
  | Ok ev => ev
  | Err _ => mkEvent "" "" "" 0 (DRaw "") 0 None 0
  end.

Definition demo_used : CeremonyRow :=
  default (mkCeremonyRow "" "" 0 "" "" 0) (find_ceremony demo_tenant "k2" (sy_db demo_s3)).

Lemma carol_fresh : fresh (OApprove carol demo_tenant "k2" (sy_db demo_s2)) demo_s3.
Proof. apply freshb_fresh. vm_compute. reflexivity. Qed.

Lemma carol_check : approve_check (opener_of carol) demo_tenant "k2" (sy_db demo_s2) = Ok (inr ("carol", carol_reading)).
Proof. vm_compute. reflexivity. Qed.

Lemma carol_used :
  find_ceremony demo_tenant "k2" (sy_db demo_s3) = Some demo_used /\ cr_Status demo_used <> "pending" /\
  ~ ("carol" ∈ custodians demo_tenant "k2" (sy_db demo_s3)).
Proof.
  split_and!; [vm_compute; reflexivity|vm_compute; discriminate|].
  change (~ ("carol" ∈ custodians demo_tenant "k2" (sy_db demo_s3))). rewrite custodians_elem.
  assert (H : db_approvals (sy_db demo_s3) !! (demo_tenant, "k2", "carol") = None) by (vm_compute; reflexivity).
  rewrite H. by intros (r & ? & _).
Qed.

Lemma pair_of_Ok {E A B} (p : result E A * B) a : p.1 = Ok a -> p = (Ok a, p.2).
Proof. destruct p. by intros <-. Qed.

Lemma carol_appended : carol_append = (Ok carol_event, carol_append.2).
Proof. apply pair_of_Ok. vm_compute. reflexivity. Qed.

Lemma late_approval_blocks_catchup_witness :
  let s' := (exec (OApprove carol demo_tenant "k2" (sy_db demo_s2)) demo_s3).2 in
  (exec (OApprove carol demo_tenant "k2" (sy_db demo_s2)) demo_s3).1 = Err ErrKeyCeremonyNotPending /\
  events s' = events demo_s3 ++ [carol_event] /\ sy_db s' = sy_db demo_s3 /\
  forall ops s1 now l, run s' ops s1 ->
    project_ca now (carol_event :: l) (sy_db s1) = (Err ErrKeyCeremonyNotPending, sy_db s1).
Proof.
  destruct carol_used as (H1 & H2 & H3).
  refine (late_approval_blocks_catchup carol demo_tenant "k2" (sy_db demo_s2) "carol" carol_reading demo_s3 demo_used
            carol_event carol_append.2 demo_wf3 carol_fresh _ carol_check H1 H2 H3 _ _ carol_appended).
  - discriminate.
  - vm_compute. reflexivity.
  - discriminate.
Defined.

End CACeremonySpec.
