(* ===== verification/Orchestrator.v ===== *)
(** * The orchestrator: transitions, reconciliation, history

    Models [src/internal/orchestrator/orchestrator.go] with the outbox payloads
    of [response_integrations.go] and the ServiceNow table names of [itsm.go].
    The system state is the event stream, the read model, the outbox table and
    the reconciliation checkpoint.  A transition appends its event first and
    then, in one tenant transaction, projects it and enqueues its side effect;
    the argument [txn] says whether that transaction takes place, so that the
    crash window between the two is a run of the model.  [transition] is the
    composition of [plan_transition], the part that reads, and
    [commit_transition], the part that writes, which lets concurrent callers be
    interleaved between them. *)

From S2P Require Import Prelude Json Lifecycle Outbox Tenancy Events Projections.
Open Scope string_scope.
Open Scope list_scope.
Open Scope Z_scope.

Module Orchestrator.
Import GoStrings Lifecycle Outbox Tenancy Events Projections.

Definition ctSubmissionEventQueued : string := "ct.submission.queued".
Definition ctSubmissionDestination : string := "ct.submit".
Definition ctSubmissionCapability : string := "CAP-REV-06".
Definition pqcMigrationReissueDestination : string := "pqc.migration.reissue".
Definition EventITSMTicketRequested : string := "itsm.ticket.requested".
Definition DestinationITSMServiceNow : string := "itsm.servicenow".
Definition EventDiscoveryRunQueued : string := "discovery.run.queued".
Definition discoveryRunDestination : string := "discovery.run".
Definition EventRemediationPlaybookRunRecorded : string := "remediation.playbook_run.recorded".
Definition DestinationConnectorRightSize : string := "connector.right_size".
Definition EventResponseIntegrationDispatched : string := "response.integration.dispatched".
Definition EventPQCMigrationStarted : string := "pqc.migration.started".

(** ** Payload types *)

Definition transitionPayload_fields : list field := [
  mkField "identity_id" KStr false; mkField "from" KStr false; mkField "to" KStr false;
  mkField "reason" KStr true; mkField "idempotency_key" KStr true].

Definition discoveryRunQueued_fields : list field := [
  mkField "id" KStr false; mkField "source_id" KStr false; mkField "schedule_id" KPtrStr true;
  mkField "dry_run" KBool false; mkField "requested_by" KStr true].

Definition remediationRun_fields : list field := [
  mkField "id" KStr false; mkField "playbook_id" KStr false; mkField "target_identity_id" KStr true;
  mkField "inventory_id" KStr true; mkField "status" KStr false; mkField "phase" KStr false;
  mkField "action" KStr false; mkField "reason" KStr true; mkField "connector" KStr true;
  mkField "target" KStr true; mkField "outbox_id" KPtrInt true; mkField "connector_delivery_id" KPtrStr true;
  mkField "scope_delta" KRaw false; mkField "evidence_refs" KStrs true; mkField "rollback_refs" KStrs true;
  mkField "idempotency_key" KStr true; mkField "created_by" KStr true].

Definition responseDispatch_fields : list field := [
  mkField "id" KStr false; mkField "incident_id" KStr true; mkField "remediation_run_id" KStr true;
  mkField "title" KStr false; mkField "summary" KStr true; mkField "severity" KStr true;
  mkField "correlation_id" KStr true; mkField "evidence_refs" KStrs true;
  mkField "destinations" KList false; mkField "requested_by" KStr true].

Definition responseDestination_fields : list field := [
  mkField "id" KStr true; mkField "provider" KStr false; mkField "endpoint_url" KStr true;
  mkField "instance_url" KStr true; mkField "token_ref" KStr true; mkField "project_key" KStr true;
  mkField "issue_type" KStr true; mkField "table" KStr true; mkField "channel" KStr true;
  mkField "allow_private_endpoint" KBool true; mkField "private_egress_cidrs" KStrs true].

Definition responsePayload_fields : list field := [
  mkField "dispatch_id" KStr false; mkField "tenant_id" KStr false; mkField "provider" KStr false;
  mkField "endpoint_url" KStr true; mkField "token_ref" KStr true; mkField "project_key" KStr true;
  mkField "issue_type" KStr true; mkField "title" KStr false; mkField "summary" KStr true;
  mkField "severity" KStr true; mkField "correlation_id" KStr true; mkField "incident_id" KStr true;
  mkField "remediation_run_id" KStr true; mkField "evidence_refs" KStrs true;
  mkField "allow_private_endpoint" KBool true; mkField "private_egress_cidrs" KStrs true].

(** The fields of [notify.Alert] that a response alert sets; [not_after] is a
    struct, which [omitempty] does not omit. *)
Definition responseAlert_fields : list field := [
  mkField "kind" KStr false; mkField "tenant_id" KStr false; mkField "subject" KStr true;
  mkField "not_after" KStr false; mkField "detail" KStr true; mkField "severity" KStr true;
  mkField "routing_policy_id" KStr true].

Definition serviceNowTicket_fields : list field := [
  mkField "id" KStr false; mkField "instance_url" KStr false; mkField "table" KStr false;
  mkField "token_ref" KStr false; mkField "short_description" KStr false; mkField "description" KStr true;
  mkField "category" KStr true; mkField "urgency" KStr true; mkField "impact" KStr true;
  mkField "correlation_id" KStr true; mkField "allow_private_endpoint" KBool true;
  mkField "private_egress_cidrs" KStrs true; mkField "requested_by" KStr true].

Definition pqcMigrationStarted_fields : list field := [
  mkField "run_id" KStr false; mkField "asset_ids" KStrs false; mkField "target_algorithm" KStr false;
  mkField "effective_algorithm" KStr false; mkField "protocol" KStr false;
  mkField "rollback_on_failure" KBool false; mkField "queued" KInt false; mkField "reissues" KList true].

Definition pqcReissue_fields : list field := [
  mkField "run_id" KStr false; mkField "asset_id" KStr false; mkField "kind" KStr false;
  mkField "location" KStr false; mkField "algorithm" KStr false; mkField "key_bits" KInt true;
  mkField "asset_protocol" KStr true; mkField "cipher" KStr true; mkField "library" KStr true;
  mkField "strength" KStr false; mkField "quantum_vulnerable" KBool false;
  mkField "out_of_policy" KBool false; mkField "reasons" KStrs true;
  mkField "target_algorithm" KStr false; mkField "effective_algorithm" KStr false;
  mkField "protocol" KStr false; mkField "rollback_on_failure" KBool false].

Definition ctSubmissionQueuedEvent_fields : list field := [
  mkField "capability" KStr false; mkField "payloads" KList true].

Definition ctSubmissionPayloadEnvelope_fields : list field := [
  mkField "submission_id" KStr false; mkField "entry_type" KStr false; mkField "idempotency_key" KStr false].

(** ** Errors and state *)

Inductive orchError :=
| IdentityNotFound (id : string)
| InvalidTransition (e : TransitionError)
| AppendError (e : evError)
| TransformError (text : string)
| ProjectionError (e : projError)
| TxFailed
| SchemaError (e : projError)
| ReconcileDecode (type : string) (seq : Z)
| InvalidCapability (type : string) (seq : Z) (capability : string)
| CTDecode (seq : Z)
| CTKeyFields
| ReissueFields (seq : Z)
| UnsupportedTable (table : string)
| UnsupportedProvider (provider : string)
| CheckpointFailed.

Section WithStream.
Context {ES : EventStream} {R : Router}.
Context {OT : OtherTables}.

Record Sys := mkSys {
  sy_stream : Stream;
  sy_rm : RM;
  sy_outbox : DB;
  sy_reconciled : Z
}.

(** ** Transitions *)

Record SideEffectPayloadContext := mkCtx {
  sc_TenantID : string;
  sc_Destination : string;
  sc_IdempotencyKey : string;
  sc_Payload : data
}.

Definition SideEffectPayloadTransform : Type := SideEffectPayloadContext -> result string data.

(** [len(payload) == 0]: a JSON document is never empty. *)
Definition data_empty (d : data) : bool :=
  match d with DRaw b => String.eqb b "" | DJson _ => false end.

Definition transitionOutboxIdempotencyKey (eventID requestKey : string) : string :=
  let requestKey := TrimSpace requestKey in
  if String.eqb requestKey "" then eventID else ("transition:" ++ requestKey)%string.

(** What the reading half of a transition decides. *)
Record Plan := mkPlan {
  pl_from : State;
  pl_to : State;
  pl_key : string;
  pl_event : Event;
  pl_payload : data
}.

Definition plan_transition (tenantID identityID : string) (to : State) (reason : string)
    (idempotencyKey : string) (s : Sys) : result orchError Plan :=
  match GetIdentity tenantID identityID (sy_rm s) with
  | None => Err (IdentityNotFound identityID)
  | Some ident =>
      let from := id_status ident in
      match EventTypeFor from to with
      | None => Err (InvalidTransition (mkTransitionError identityID from to))
      | Some evType =>
          let key := TrimSpace idempotencyKey in
          let payload := encode_struct transitionPayload_fields
            [VStr identityID; VStr from; VStr to; VStr reason; VStr key] in
          let schemaVersion := if String.eqb key "" then 0 else LifecycleEventSchemaVersion in
          Ok (mkPlan from to key (mkEvent "" evType tenantID 0 payload 0 None schemaVersion) payload)
      end
  end.

(** The readings a call draws from outside: clock, event id, actor of the
    context, and the database clock of its transaction. *)
Record Draw := mkDraw { d_now : Z; d_nuid : string; d_actor : option Actor; d_dbnow : Z }.

Definition project_and_enqueue (dbnow : Z) (ev : Event) (entry : option Entry) (s : Sys) : result orchError unit * Sys :=
  match ApplyTx ev (sy_rm s) with
  | Err e => (Err (ProjectionError e), s)
  | Ok rm' =>
      let ob' := match entry with
                 | Some e => snd (EnqueueIfAbsent dbnow (sy_outbox s) e)
                 | None => sy_outbox s
                 end in
      (Ok tt, mkSys (sy_stream s) rm' ob' (sy_reconciled s))
  end.

Definition commit_transition (d : Draw) (txn : bool) (tenantID : string) (p : Plan)
    (sideEffectPayload : data) (transform : option SideEffectPayloadTransform) (s : Sys) : result orchError unit * Sys :=
  let outboxPayload := if data_empty sideEffectPayload then pl_payload p else sideEffectPayload in
  match Append (d_now d) (d_nuid d) (d_actor d) (pl_event p) (sy_stream s) with
  | (Err e, st) => (Err (AppendError e), mkSys st (sy_rm s) (sy_outbox s) (sy_reconciled s))
  | (Ok ev, st) =>
      let s := mkSys st (sy_rm s) (sy_outbox s) (sy_reconciled s) in
      match sideEffectFor (pl_from p) (pl_to p) with
      | None => if txn then project_and_enqueue (d_dbnow d) ev None s else (Err TxFailed, s)
      | Some dest =>
          let key := transitionOutboxIdempotencyKey (ev_ID ev) (pl_key p) in
          let body :=
            match transform with
            | Some f =>
                if data_empty sideEffectPayload then Ok outboxPayload
                else f (mkCtx tenantID dest key outboxPayload)
            | None => Ok outboxPayload
            end in
          match body with
          | Err text => (Err (TransformError text), s)
          | Ok body =>
              if txn then project_and_enqueue (d_dbnow d) ev (Some (mkEntry tenantID dest key body)) s
              else (Err TxFailed, s)
          end
      end
  end.

Definition transition (d : Draw) (txn : bool) (tenantID identityID : string) (to : State) (reason : string)
    (sideEffectPayload : data) (idempotencyKey : string) (transform : option SideEffectPayloadTransform)
    (s : Sys) : result orchError unit * Sys :=
  match plan_transition tenantID identityID to reason idempotencyKey s with
  | Err e => (Err e, s)
  | Ok p => commit_transition d txn tenantID p sideEffectPayload transform s
  end.

Definition no_bytes : data := DRaw "".

Definition Transition (d : Draw) (txn : bool) (tenantID identityID : string) (to : State) (reason : string) (s : Sys) :=
  transition d txn tenantID identityID to reason no_bytes "" None s.

Definition TransitionWithIdempotency (d : Draw) (txn : bool) (tenantID identityID : string) (to : State)
    (reason idempotencyKey : string) (s : Sys) :=
  transition d txn tenantID identityID to reason no_bytes idempotencyKey None s.

Definition TransitionWithSideEffectPayload (d : Draw) (txn : bool) (tenantID identityID : string) (to : State)
    (reason : string) (payload : data) (s : Sys) :=
  if data_empty payload then Transition d txn tenantID identityID to reason s
  else transition d txn tenantID identityID to reason payload "" None s.

Definition TransitionWithSideEffectPayloadTransform (d : Draw) (txn : bool) (tenantID identityID : string) (to : State)
    (reason : string) (payload : data) (tf : option SideEffectPayloadTransform) (s : Sys) :=
  if data_empty payload then Transition d txn tenantID identityID to reason s
  else transition d txn tenantID identityID to reason payload "" tf s.

(** ** State and history *)

Definition History (tenantID identityID : string) (s : Sys) : list Lifecycle.Transition :=
  map (fun r => mkTransition (it_FromState r) (it_ToState r) (it_EventType r) (it_Reason r) (it_Seq r) (it_OccurredAt r))
    (ListIdentityTransitions tenantID identityID (sy_rm s)).

Definition State_ (tenantID identityID : string) (s : Sys) : State :=
  let hist := History tenantID identityID s in
  match last hist with
  | Some t => tr_To t
  | None => StateRequested
  end.

(** ** Reconciliation: the effects an event asks for *)

Definition isLifecycleTransition (eventType : string) : bool :=
  existsb (fun p => String.eqb eventType (snd p)) (map_to_list transitionEvents).

Definition ctSubmissionOutboxKey (p : svals) : result orchError string :=
  let submissionID := str_at p 0 in
  let entryType := str_at p 1 in
  let key := str_at p 2 in
  if String.eqb submissionID "" || String.eqb entryType "" || String.eqb key "" then Err CTKeyFields
  else Ok (ctSubmissionDestination ++ ":" ++ key ++ ":" ++ entryType ++ ":" ++ submissionID)%string.

Definition NormalizeServiceNowTable (table : string) : option string :=
  let t := lower (TrimSpace table) in
  if String.eqb t "" || String.eqb t "incident" then Some "incident"
  else if String.eqb t "change_request" then Some "change_request"
  else if String.eqb t "sc_task" then Some "sc_task"
  else None.

Definition serviceNowPriority (severity : string) : string :=
  let t := lower (TrimSpace severity) in
  if String.eqb t "critical" then "1" else if String.eqb t "warning" then "2" else "3".

Definition fval_at (vs : svals) (i : nat) : fval := default (VStr "") (vs !! i).

Definition marshalResponseDestination (destination tenantID : string) (req dst : svals) : string * data :=
  (destination, encode_struct responsePayload_fields [
     VStr (str_at req 0); VStr tenantID; VStr (str_at dst 1); VStr (str_at dst 2); VStr (str_at dst 4);
     VStr (str_at dst 5); VStr (str_at dst 6); VStr (str_at req 3); VStr (str_at req 4); VStr (str_at req 5);
     VStr (str_at req 6); VStr (str_at req 1); VStr (str_at req 2); fval_at req 7; fval_at dst 9; fval_at dst 10]).

Definition responseIntegrationOutboxPayload (tenantID : string) (req dst : svals) : result orchError (string * data) :=
  let provider := str_at dst 1 in
  if String.eqb provider "splunk" then Ok (marshalResponseDestination "response.splunk" tenantID req dst)
  else if String.eqb provider "jira" then Ok (marshalResponseDestination "response.jira" tenantID req dst)
  else if String.eqb provider "slack" then
    Ok ("notification.response", encode_struct responseAlert_fields [
      VStr "response.integration"; VStr tenantID; VStr (str_at req 3); VStr "0001-01-01T00:00:00Z";
      VStr (str_at req 4); VStr (str_at req 5); VStr (str_at dst 8)])
  else if String.eqb provider "servicenow" then
    match NormalizeServiceNowTable (str_at dst 7) with
    | None => Err (UnsupportedTable (str_at dst 7))
    | Some table =>
        let priority := serviceNowPriority (str_at req 5) in
        Ok (DestinationITSMServiceNow, encode_struct serviceNowTicket_fields [
          VStr (str_at req 0 ++ "-servicenow")%string; VStr (str_at dst 3); VStr table; VStr (str_at dst 4);
          VStr (str_at req 3); VStr (str_at req 4); VStr "security"; VStr priority; VStr priority;
          VStr (str_at req 6); fval_at dst 9; fval_at dst 10; VStr (str_at req 9)])
    end
  else Err (UnsupportedProvider provider).

(** The entries an event asks for, in the order of the loop that enqueues them;
    an entry that cannot be built fails the transaction when it is reached. *)
Definition Intents := list (result orchError Entry).

Definition single (ev : Event) (dest key : string) : Intents := [Ok (mkEntry (ev_TenantID ev) dest key (ev_Data ev))].

Definition decode_or {A} (ev : Event) (fs : list field) (k : svals -> result orchError A) : result orchError A :=
  match decode_struct fs (ev_Data ev) with
  | None => Err (ReconcileDecode (ev_Type ev) (ev_Sequence ev))
  | Some pl => k pl
  end.

Definition validated {A} (ev : Event) (k : result orchError A) : result orchError A :=
  match ValidateSchemaVersion ev with
  | Some e => Err (SchemaError e)
  | None => k
  end.

Definition response_intent (ev : Event) (req dst : svals) : result orchError Entry :=
  match responseIntegrationOutboxPayload (ev_TenantID ev) req dst with
  | Err e => Err e
  | Ok (dest, body) => Ok (mkEntry (ev_TenantID ev) dest (ev_ID ev ++ ":" ++ str_at dst 0)%string body)
  end.

Definition ct_intent (ev : Event) (raw : json) : result orchError Entry :=
  match decode_json ctSubmissionPayloadEnvelope_fields raw with
  | None => Err (CTDecode (ev_Sequence ev))
  | Some p =>
      match ctSubmissionOutboxKey p with
      | Err e => Err e
      | Ok key => Ok (mkEntry (ev_TenantID ev) ctSubmissionDestination key (DJson raw))
      end
  end.

Definition pqc_intent (ev : Event) (reissue : svals) : result orchError Entry :=
  if String.eqb (str_at reissue 0) "" || String.eqb (str_at reissue 1) "" then Err (ReissueFields (ev_Sequence ev))
  else Ok (mkEntry (ev_TenantID ev) pqcMigrationReissueDestination
             ("pqc-migration:" ++ str_at reissue 0 ++ ":" ++ str_at reissue 1)%string
             (encode_struct pqcReissue_fields reissue)).

(** The branches of the closure of [ReconcileOutbox], up to its transaction;
    [None] is a branch that only advances the checkpoint. *)
Definition intents (ev : Event) : result orchError (option Intents) :=
  if String.eqb (ev_Type ev) EventITSMTicketRequested then
    Ok (Some (single ev DestinationITSMServiceNow (ev_ID ev)))
  else if String.eqb (ev_Type ev) EventDiscoveryRunQueued then
    validated ev (decode_or ev discoveryRunQueued_fields (fun _ => Ok (Some (single ev discoveryRunDestination (ev_ID ev)))))
  else if String.eqb (ev_Type ev) EventRemediationPlaybookRunRecorded then
    validated ev (decode_or ev remediationRun_fields (fun pl =>
      if String.eqb (str_at pl 6) "right_size" then Ok (Some (single ev DestinationConnectorRightSize (ev_ID ev))) else Ok None))
  else if String.eqb (ev_Type ev) EventResponseIntegrationDispatched then
    validated ev (decode_or ev responseDispatch_fields (fun pl =>
      match mapM (decode_json responseDestination_fields) (list_at pl 8) with
      | None => Err (ReconcileDecode (ev_Type ev) (ev_Sequence ev))
      | Some dsts => Ok (Some (map (response_intent ev pl) dsts))
      end))
  else if String.eqb (ev_Type ev) ctSubmissionEventQueued then
    decode_or ev ctSubmissionQueuedEvent_fields (fun pl =>
      if negb (String.eqb (str_at pl 0) "") && negb (String.eqb (str_at pl 0) ctSubmissionCapability)
      then Err (InvalidCapability (ev_Type ev) (ev_Sequence ev) (str_at pl 0))
      else match list_at pl 1 with
           | [] => Ok None
           | payloads => Ok (Some (map (ct_intent ev) payloads))
           end)
  else if String.eqb (ev_Type ev) EventPQCMigrationStarted then
    validated ev (decode_or ev pqcMigrationStarted_fields (fun pl =>
      match mapM (decode_json pqcReissue_fields) (list_at pl 7) with
      | None => Err (ReconcileDecode (ev_Type ev) (ev_Sequence ev))
      | Some [] => Ok None
      | Some reissues => Ok (Some (map (pqc_intent ev) reissues))
      end))
  else if negb (isLifecycleTransition (ev_Type ev)) then Ok None
  else
    validated ev (decode_or ev transitionPayload_fields (fun pl =>
      match sideEffectFor (str_at pl 1) (str_at pl 2) with
      | None => Ok None
      | Some dest => Ok (Some (single ev dest (transitionOutboxIdempotencyKey (ev_ID ev) (str_at pl 4))))
      end)).

(** The body of the tenant transaction: [healed] is a variable of the process,
    which a rollback does not restore. *)
Fixpoint enqueue_all (dbnow : Z) (l : Intents) (ob : DB) (healed : Z) : result orchError unit * DB * Z :=
  match l with
  | [] => (Ok tt, ob, healed)
  | Err e :: _ => (Err e, ob, healed)
  | Ok entry :: l' =>
      let '(inserted, ob') := EnqueueIfAbsent dbnow ob entry in
      enqueue_all dbnow l' ob' (if inserted then healed + 1 else healed)
  end.

Definition OutboxReconciliationCheckpoint (s : Sys) : Z := Z.max 0 (sy_reconciled s).

(** Where the database may fail for an event: its transaction, or the advance of
    the checkpoint after it. *)
Inductive rfault := FaultTx | FaultAdvance.

Record RState := mkR { r_outbox : DB; r_checkpoint : Z; r_healed : Z }.

(** [AdvanceOutboxReconciliationCheckpoint], the last call of every branch. *)
Definition advance (f : option rfault) (seq : Z) (r : RState) : result orchError unit * RState :=
  match f with
  | Some FaultAdvance => (Err CheckpointFailed, r)
  | _ => (Ok tt, mkR (r_outbox r) (Z.max (r_checkpoint r) seq) (r_healed r))
  end.

Definition reconcile_event (dbnow : Event -> Z) (fault : Event -> option rfault) (ev : Event) (r : RState)
  : result orchError unit * RState :=
  match intents ev with
  | Err e => (Err e, r)
  | Ok None => advance (fault ev) (ev_Sequence ev) r
  | Ok (Some items) =>
      match fault ev with
      | Some FaultTx => (Err TxFailed, r)
      | f =>
          match enqueue_all (dbnow ev) items (r_outbox r) (r_healed r) with
          | (Err e, _, healed) => (Err e, mkR (r_outbox r) (r_checkpoint r) healed)
          | (Ok _, ob, healed) => advance f (ev_Sequence ev) (mkR ob (r_checkpoint r) healed)
          end
      end
  end.

(** Returns the number of effects healed, and the error if any. *)
Definition ReconcileOutbox (dbnow : Event -> Z) (fault : Event -> option rfault) (s : Sys)
  : Z * result orchError unit * Sys :=
  let from := OutboxReconciliationCheckpoint s in
  let '(res, r) := Replay (reconcile_event dbnow fault) (from + 1) (sy_stream s)
                     (mkR (sy_outbox s) (sy_reconciled s) 0) in
  (r_healed r, res, mkSys (sy_stream s) (sy_rm s) (r_outbox r) (r_checkpoint r)).

End WithStream.

(** ** Enqueueing a list of intents *)

(** The row is the fresh row of the entry. *)
Definition fresh_row_of (e : Entry) (r : Row) : Prop :=
  r_tenant r = e_TenantID e /\ r_key r = e_IdempotencyKey e /\ r_destination r = e_Destination e /\
  r_payload r = e_Payload e /\ r_status r = "pending" /\ r_attempts r = 0.

Definition keyed (ob : DB) (e : Entry) : Prop := has_key ob (e_TenantID e) (e_IdempotencyKey e).

(** [ob'] is [ob] with fresh rows for entries that had none. *)
Definition grown (P : Entry -> Prop) (ob ob' : DB) (new : list Row) : Prop :=
  db_rows ob' = db_rows ob ++ new /\
  Forall (fun r => exists e, P e /\ fresh_row_of e r /\ ~ keyed ob e) new.

Lemma keyed_grown P ob ob' new e : grown P ob ob' new -> keyed ob e -> keyed ob' e.
Proof. intros [Hr _] (r & Hin & ?). exists r. split; [rewrite Hr; apply elem_of_app; by left|done]. Qed.

Lemma grown_refl P ob : grown P ob ob [].
Proof. split; [by rewrite app_nil_r|constructor]. Qed.

Lemma grown_trans (P Q : Entry -> Prop) ob1 ob2 ob3 n1 n2 :
  (forall e, P e -> Q e) -> grown P ob1 ob2 n1 -> grown Q ob2 ob3 n2 -> grown Q ob1 ob3 (n1 ++ n2).
Proof.
  intros HPQ H1 H2. pose proof H1 as H1'. destruct H1 as [Hr1 Hf1], H2 as [Hr2 Hf2].
  split; [by rewrite Hr2, Hr1, app_assoc|]. apply Forall_app. split.
  - eapply Forall_impl; [exact Hf1|]. intros r (e & ? & ? & ?). eauto.
  - eapply Forall_impl; [exact Hf2|]. intros r (e & ? & ? & Hk). exists e. split_and!; [done..|].
    intros Hk1. by apply Hk, (keyed_grown _ _ _ _ _ H1').
Qed.

Lemma EnqueueIfAbsent_grown dbnow ob e inserted ob' :
  EnqueueIfAbsent dbnow ob e = (inserted, ob') ->
  keyed ob' e /\ exists new, grown (eq e) ob ob' new /\ length new = (if inserted then 1%nat else 0%nat).
Proof.
  intros H. pose proof (EnqueueIfAbsent_has_key dbnow ob e) as Hk. rewrite H in Hk. split; [exact Hk|].
  rewrite EnqueueIfAbsent_spec in H. case_decide as Hd; simplify_eq.
  - exists []. split; [apply grown_refl|done].
  - exists [new_row (db_seq ob) dbnow e]. split; [|done]. split; [done|]. repeat constructor. by exists e.
Qed.

Definition listed (l : Intents) (e : Entry) : Prop := Ok e ∈ l.

Lemma enqueue_all_spec dbnow l ob healed res ob' healed' :
  enqueue_all dbnow l ob healed = (res, ob', healed') ->
  exists new, grown (listed l) ob ob' new /\ healed' = healed + Z.of_nat (length new) /\
    (res = Ok tt -> forall e, listed l e -> keyed ob' e) /\
    (keys_unique ob -> keys_unique ob') /\ (ids_ok ob -> ids_ok ob').
Proof.
  revert ob healed. induction l as [|[e|err] l IH]; intros ob healed H; cbn [enqueue_all] in H.
  - simplify_eq. exists []. split_and!; [apply grown_refl|cbn; lia|intros _ e He; by apply elem_of_nil in He|done|done].
  - destruct (EnqueueIfAbsent dbnow ob e) as [inserted ob1] eqn:E.
    destruct (EnqueueIfAbsent_grown _ _ _ _ _ E) as [Hk1 (n1 & Hg1 & Hl1)].
    destruct (IH _ _ H) as (n2 & Hg2 & Hh & Hall & Hu & Hi).
    pose proof (EnqueueIfAbsent_keys_unique dbnow ob e) as Hu1.
    pose proof (EnqueueIfAbsent_ids_ok dbnow ob e) as Hi1. rewrite E in Hu1, Hi1. cbn in Hu1, Hi1.
    assert (Hg2' : grown (listed (Ok e :: l)) ob1 ob' n2).
    { destruct Hg2 as [? Hf]. split; [done|]. eapply Forall_impl; [exact Hf|].
      intros r (x & Hx & ?). exists x. split; [by right|done]. }
    exists (n1 ++ n2). split_and!.
    + eapply grown_trans; [|exact Hg1|exact Hg2']. intros x ->. by left.
    + rewrite length_app, Hl1, Hh. destruct inserted; lia.
    + intros Hr x Hx. apply elem_of_cons in Hx as [[= ->]|Hx]; [by eapply keyed_grown|by apply Hall].
    + auto.
    + auto.
  - simplify_eq. exists []. split_and!; [apply grown_refl|cbn; lia|done|done|done].
Qed.

(** ** Reconciling a list of events *)

(** The event asks for the entry. *)
Definition asks (ev : Event) (e : Entry) : Prop := exists l, intents ev = Ok (Some l) /\ Ok e ∈ l.

Definition asked_by (l : list Event) (e : Entry) : Prop := exists ev, ev ∈ l /\ asks ev e.

Lemma reconcile_event_spec dbnow fault ev r res r' :
  reconcile_event dbnow fault ev r = (res, r') ->
  exists new, grown (asks ev) (r_outbox r) (r_outbox r') new /\
    (keys_unique (r_outbox r) -> keys_unique (r_outbox r')) /\ (ids_ok (r_outbox r) -> ids_ok (r_outbox r')) /\
    match res with
    | Ok _ => r_healed r' = r_healed r + Z.of_nat (length new) /\
              r_checkpoint r' = Z.max (r_checkpoint r) (ev_Sequence ev) /\
              forall e, asks ev e -> keyed (r_outbox r') e
    | Err _ => r_checkpoint r' = r_checkpoint r
    end.
Proof.
  unfold reconcile_event. destruct (intents ev) as [[items|]|err] eqn:Hi; intros H.
  - destruct (fault ev) as [[]|]; [simplify_eq; exists []; split_and!; try done; apply grown_refl| |];
      destruct (enqueue_all (dbnow ev) items (r_outbox r) (r_healed r)) as [[res0 ob] healed] eqn:E;
      destruct (enqueue_all_spec _ _ _ _ _ _ _ E) as (new & Hg & Hh & Hall & Hu & Hids);
      (assert (Hg' : grown (asks ev) (r_outbox r) ob new);
       [destruct Hg as [? Hf]; split; [done|]; eapply Forall_impl; [exact Hf|];
        intros row (x & Hx & ?); exists x; split; [by exists items|done]|]);
      destruct res0 as [[]|err]; cbn in H; simplify_eq.
    + exists new. by split_and!.
    + exists []. split_and!; try done. apply grown_refl.
    + exists new. split_and!; try done. intros e (l & Hl & He). rewrite Hi in Hl. simplify_eq. by apply Hall.
    + exists []. split_and!; try done. apply grown_refl.
  - exists []. assert (Hno : forall e, asks ev e -> False) by (intros e (l & Hl & _); congruence).
    unfold advance in H. destruct (fault ev) as [[]|]; simplify_eq; cbn; split_and!; try done;
      try apply grown_refl; try lia; intros e He; by destruct (Hno e).
  - simplify_eq. exists []. split_and!; try done. apply grown_refl.
Qed.

(** The effects of every event the checkpoint has passed are in the outbox. *)
Definition reconciled_upto (l : list Event) (c : Z) (ob : DB) : Prop :=
  forall ev e, ev ∈ l -> ev_Sequence ev <= c -> asks ev e -> keyed ob e.

Fixpoint ascending (l : list Event) : Prop :=
  match l with
  | [] => True
  | e :: l' => Forall (fun x => ev_Sequence e < ev_Sequence x) l' /\ ascending l'
  end.

Lemma each_reconcile dbnow fault l r res r' :
  ascending l -> Forall (fun e => r_checkpoint r < ev_Sequence e) l ->
  each (reconcile_event dbnow fault) l r = (res, r') ->
  exists new, grown (asked_by l) (r_outbox r) (r_outbox r') new /\
    (keys_unique (r_outbox r) -> keys_unique (r_outbox r')) /\ (ids_ok (r_outbox r) -> ids_ok (r_outbox r')) /\
    r_checkpoint r <= r_checkpoint r' /\ reconciled_upto l (r_checkpoint r') (r_outbox r') /\
    (res = Ok tt -> Forall (fun e => ev_Sequence e <= r_checkpoint r') l /\
                    r_healed r' = r_healed r + Z.of_nat (length new)).
Proof.
  revert r. induction l as [|ev l IH]; intros r Ha Hc H; cbn [each] in H.
  - simplify_eq. exists []. split_and!; try done; [apply grown_refl|intros ev e Hev; by apply elem_of_nil in Hev|].
    intros _. split; [constructor|cbn; lia].
  - destruct Ha as [Hlt Ha]. apply Forall_cons in Hc as [Hc0 Hc].
    destruct (reconcile_event dbnow fault ev r) as [[[]|err] r1] eqn:E;
      destruct (reconcile_event_spec _ _ _ _ _ _ E) as (n1 & Hg1 & Hu1 & Hi1 & Hs).
    + destruct Hs as (Hh1 & Hc1 & Hall1).
      assert (Hc1' : Forall (fun e => r_checkpoint r1 < ev_Sequence e) l).
      { rewrite Hc1. rewrite Forall_forall in Hlt, Hc |- *. intros x Hx. specialize (Hlt x Hx). specialize (Hc x Hx). lia. }
      destruct (IH r1 Ha Hc1' H) as (n2 & Hg2 & Hu2 & Hi2 & Hm & Hr & Hok).
      assert (Hg2' : grown (asked_by (ev :: l)) (r_outbox r1) (r_outbox r') n2).
      { destruct Hg2 as [? Hf]. split; [done|]. eapply Forall_impl; [exact Hf|].
        intros row (x & (e' & He' & ?) & ?). exists x. split; [exists e'; split; [by right|done]|done]. }
      exists (n1 ++ n2). split_and!; auto.
      * eapply grown_trans; [|exact Hg1|exact Hg2']. intros x Hx. exists ev. split; [by left|done].
      * rewrite Hc1 in Hm. lia.
      * intros e x Hin Hseq Hask. apply elem_of_cons in Hin as [->|Hin]; [|by eapply Hr].
        eapply keyed_grown; [exact Hg2'|by apply Hall1].
      * intros Hres. destruct (Hok Hres) as [Hf Hh2]. split.
        -- constructor; [rewrite Hc1 in Hm; lia|exact Hf].
        -- rewrite Hh2, Hh1, length_app. lia.
    + simplify_eq. exists n1. split_and!; auto.
      * destruct Hg1 as [? Hf]. split; [done|]. eapply Forall_impl; [exact Hf|].
        intros row (x & Hx & ?). exists x. split; [exists ev; split; [by left|done]|done].
      * rewrite Hs. lia.
      * rewrite Hs. intros e x Hin Hseq _. exfalso. apply elem_of_cons in Hin as [->|Hin]; [lia|].
        rewrite Forall_forall in Hc. specialize (Hc e Hin). lia.
      * done.
Qed.

Lemma events_range_ascending `{EventStream} n seq st : ascending (events_range n seq st).
Proof.
  revert seq. induction n as [|n IH]; intros seq; cbn [events_range]; [done|].
  destruct (GetMsg st seq); [|apply IH]. split; [|apply IH].
  apply Forall_forall. intros e He. apply events_range_elem in He as (k & raw & Hk & _ & ->). cbn. lia.
Qed.

End Orchestrator.
