(* ===== verification/OrchestratorSpec.v ===== *)
(** * What the orchestrator guarantees

    Theorems about [src/internal/orchestrator/orchestrator.go]: a transition
    follows the lifecycle and changes nothing when it is rejected; state,
    history and status agree; the side effect of a transition lands exactly
    once, whether or not the process died in the crash window; reconciliation
    heals and is idempotent.  The last theorems show what the code does not
    prevent: an effect that was delivered and swept is enqueued again at the
    next boot, and two concurrent transitions of one identity may both commit. *)

From S2P Require Import Prelude Json Lifecycle Outbox Tenancy Events Projections Orchestrator.
Open Scope string_scope.
Open Scope list_scope.
Open Scope Z_scope.

Module OrchestratorSpec.
Import GoStrings Lifecycle Outbox Tenancy Events Projections Orchestrator.

(** ** The payload of a transition *)

Definition payload_of (id : string) (from to : State) (reason key : string) : data :=
  encode_struct transitionPayload_fields [VStr id; VStr from; VStr to; VStr reason; VStr key].

Lemma transition_decode id from to reason key :
  decode_struct transitionPayload_fields (payload_of id from to reason key) =
  Some [VStr id; VStr from; VStr to; VStr reason; VStr key].
Proof.
  apply decode_encode.
  - apply (bool_decide_unpack _). vm_compute. exact I.
  - repeat constructor.
Qed.

(** The projector reads the same document with its own struct. *)
Lemma projection_decode id from to reason key :
  decode_struct identityTransition_fields (payload_of id from to reason key) =
  Some [VStr id; VStr from; VStr to; VStr reason].
Proof.
  unfold payload_of, encode_struct, encode_object, transitionPayload_fields. cbn [f_omit f_name andb is_empty].
  destruct (String.eqb_spec reason ""), (String.eqb_spec key ""); subst; reflexivity.
Qed.

Lemma lifecycle_type from to ty :
  EventTypeFor from to = Some ty ->
  knownSchemaVersions !! ty = Some [1; 2] /\ isLifecycleEvent ty = true /\
  String.eqb ty "identity.created" = false /\ isLifecycleTransition ty = true.
Proof.
  intros H. apply EventTypeFor_inv in H. table_cases H; split_and!; vm_compute; reflexivity.
Qed.

Definition version_ok (e : Event) : Prop := ev_SchemaVersion e = 1 \/ ev_SchemaVersion e = 2.

Lemma lifecycle_validates from to e :
  EventTypeFor from to = Some (ev_Type e) -> version_ok e -> ValidateSchemaVersion e = None.
Proof.
  intros H Hv. apply lifecycle_type in H as (Hk & _). unfold ValidateSchemaVersion, schemaVersionOf.
  rewrite Hk. by destruct Hv as [-> | ->].
Qed.

(** The entry a transition event asks for. *)
Definition effect_entry (e : Event) (from to : State) (key : string) : option Entry :=
  match sideEffectFor from to with
  | Some dest => Some (mkEntry (ev_TenantID e) dest (transitionOutboxIdempotencyKey (ev_ID e) key) (ev_Data e))
  | None => None
  end.

Lemma intents_transition e id from to reason key :
  EventTypeFor from to = Some (ev_Type e) -> version_ok e -> ev_Data e = payload_of id from to reason key ->
  intents e = Ok ((fun en => [Ok en]) <$> effect_entry e from to key).
Proof.
  intros Ht Hv Hd. pose proof (lifecycle_validates _ _ _ Ht Hv) as Hval.
  pose proof (lifecycle_type _ _ _ Ht) as (_ & Hev & _ & Hl).
  assert (Hne : forall c, isLifecycleEvent c = false -> String.eqb (ev_Type e) c = false).
  { intros c Hc. apply String.eqb_neq. intros <-. congruence. }
  unfold intents. rewrite !Hne by (vm_compute; reflexivity). rewrite Hl. cbn [negb].
  unfold validated, decode_or. rewrite Hval, Hd, transition_decode. cbn [str_at lookup list_lookup].
  unfold effect_entry. destruct (sideEffectFor from to); [|done]. cbn. unfold single. rewrite Hd. reflexivity.
Qed.

(** ** One transition *)

Section System.
Context {ES : EventStream} {EL : EventStreamLaws ES} {R : Router}.
Context {OT : OtherTables}.

(** The read model after projecting a transition event. *)
Definition moved (tenant id : string) (from to : State) (reason : string) (e : Event) (rm : RM) : RM :=
  AppendIdentityTransitionTx tenant (mkIT id (ev_Sequence e) from to (ev_Type e) reason (ev_Time e))
    (SetIdentityStatusTx tenant id to rm).

Lemma project_transition e id from to reason key rm :
  EventTypeFor from to = Some (ev_Type e) -> version_ok e -> ev_Data e = payload_of id from to reason key ->
  ApplyTx e rm = Ok (moved (ev_TenantID e) id from to reason e rm).
Proof.
  intros Ht Hv Hd. unfold ApplyTx. rewrite (lifecycle_validates _ _ _ Ht Hv).
  apply lifecycle_type in Ht as (_ & Hl & Hc & _). rewrite Hc, Hl.
  unfold apply_lifecycle. by rewrite Hd, projection_decode.
Qed.

(** What a transition that got past the append has done. *)
Record appended (d : Draw) (tenant id : string) (to : State) (reason key : string)
    (s s1 : Sys) (ident : IdentityRow) (e : Event) : Prop := {
  ap_ident : GetIdentity tenant id (sy_rm s) = Some ident;
  ap_type : EventTypeFor (id_status ident) to = Some (ev_Type e);
  ap_tenant : ev_TenantID e = tenant;
  ap_id : ev_ID e = d_nuid d;
  ap_version : version_ok e;
  ap_data : ev_Data e = payload_of id (id_status ident) to reason (TrimSpace key);
  ap_seq : ev_Sequence e = LastSeq (sy_stream s) + 1;
  ap_last : LastSeq (sy_stream s1) = ev_Sequence e;
  ap_log : forall from, 0 < from <= LastSeq (sy_stream s) + 1 ->
    events_from from (sy_stream s1) = events_from from (sy_stream s) ++ [e];
  ap_recon : sy_reconciled s1 = sy_reconciled s
}.

(** The outbox after a transition that committed. *)
Definition enqueued (tenant : string) (from to : State) (key : string) (e : Event) (ob ob' : DB) : Prop :=
  match sideEffectFor from to with
  | None => ob' = ob
  | Some dest => exists dbnow body,
      ob' = snd (EnqueueIfAbsent dbnow ob
              (mkEntry tenant dest (transitionOutboxIdempotencyKey (ev_ID e) key) body))
  end.

Lemma transition_cases d txn tenant id to reason payload key tf s res s1 :
  Fresh (sy_stream s) (d_nuid d) ->
  transition d txn tenant id to reason payload key tf s = (res, s1) ->
  (res = Err (IdentityNotFound id) /\ GetIdentity tenant id (sy_rm s) = None /\ s1 = s) \/
  (exists ident, GetIdentity tenant id (sy_rm s) = Some ident /\ CanTransition (id_status ident) to = false /\
     res = Err (InvalidTransition (mkTransitionError id (id_status ident) to)) /\ s1 = s) \/
  (exists e, res = Err (AppendError e) /\ s1 = s) \/
  (exists ident e, appended d tenant id to reason key s s1 ident e /\
     ((res = Ok tt /\ txn = true /\
       sy_rm s1 = moved tenant id (id_status ident) to reason e (sy_rm s) /\
       enqueued tenant (id_status ident) to (TrimSpace key) e (sy_outbox s) (sy_outbox s1)) \/
      (((res = Err TxFailed /\ txn = false) \/ exists text, res = Err (TransformError text)) /\
       sy_rm s1 = sy_rm s /\ sy_outbox s1 = sy_outbox s))).
Proof.
  intros Hfr. unfold Orchestrator.transition, plan_transition.
  destruct (GetIdentity tenant id (sy_rm s)) as [ident|] eqn:Hid; [|intros; simplify_eq; by left].
  destruct (EventTypeFor (id_status ident) to) as [ty|] eqn:Hty.
  2: { intros; simplify_eq. right; left. exists ident. split_and!; try done.
       apply not_true_iff_false. rewrite CanTransition_EventTypeFor, Hty. by intros [? ?]. }
  unfold commit_transition. cbn [pl_event pl_payload pl_from pl_to pl_key].
  set (k := TrimSpace key). set (v := if String.eqb k "" then 0 else LifecycleEventSchemaVersion).
  destruct (Append _ _ _ _ (sy_stream s)) as [[e|err] st] eqn:Ha.
  2: { intros. simplify_eq. right; right; left. exists err. split; [done|].
       apply append_err in Ha as ->. by destruct s. }
  apply append_ok in Ha as (Ht & Htn & Hd & _ & _ & Hi & Hv & Hs & Hl & Hlog); [|exact Hfr].
  cbn in Ht, Htn, Hd, Hi, Hv.
  assert (Hvok : version_ok e).
  { unfold version_ok. rewrite Hv. unfold v. destruct (String.eqb k ""); [by left|by right]. }
  assert (Happ : forall rm ob, appended d tenant id to reason key s (mkSys st rm ob (sy_reconciled s)) ident e).
  { intros rm ob. split; try done. by rewrite Ht. }
  assert (Hproj : ApplyTx e (sy_rm s) = Ok (moved tenant id (id_status ident) to reason e (sy_rm s))).
  { rewrite <- Htn. eapply project_transition; [by rewrite Ht|done|exact Hd]. }
  unfold project_and_enqueue, enqueued. cbn [sy_rm sy_outbox sy_stream sy_reconciled]. rewrite Hproj.
  intros H. right; right; right. exists ident, e.
  destruct (sideEffectFor (id_status ident) to) as [dest|].
  - case_in H; [|injection H as <- <-; split; [apply Happ|right; split; [right; by eexists|by split]]].
    destruct txn; injection H as <- <-; (split; [apply Happ|]); [left|right]; cbn; split_and!; eauto.
  - destruct txn; injection H as <- <-; (split; [apply Happ|]); [left|right]; cbn; split_and!; eauto.
Qed.

(** ** State, history and status *)

Lemma insert_by_seq_last x l :
  Forall (fun y => it_Seq y < it_Seq x) l -> insert_by_seq x l = l ++ [x].
Proof.
  induction 1 as [|y l Hy _ IH]; cbn; [done|]. destruct (Z.ltb_spec (it_Seq y) (it_Seq x)); [|lia]. by rewrite IH.
Qed.

Lemma insert_by_seq_keeps_last a x l :
  it_Seq a < it_Seq x -> last l = Some x -> last (insert_by_seq a l) = Some x.
Proof.
  intros Hlt. induction l as [|y l IH]; intros Hl; [done|]. cbn.
  destruct (Z.ltb_spec (it_Seq y) (it_Seq a)) as [Hy|Hy].
  - destruct l as [|z l]; [cbn in Hl; simplify_eq; lia|].
    change (last (y :: insert_by_seq a (z :: l)) = Some x). specialize (IH Hl).
    destruct (insert_by_seq a (z :: l)) eqn:E; [cbn in E; by case_in E|]. exact IH.
  - destruct l; exact Hl.
Qed.

Lemma insert_by_seq_elem a x l : x ∈ insert_by_seq a l <-> x = a \/ x ∈ l.
Proof.
  induction l as [|y l IH]; cbn; [set_solver|]. case_goal; rewrite ?elem_of_cons, ?IH; set_solver.
Qed.

Lemma sort_elem x l : x ∈ foldr insert_by_seq [] l <-> x ∈ l.
Proof. induction l as [|y l IH]; cbn; [done|]. rewrite insert_by_seq_elem, IH, elem_of_cons. done. Qed.

(** The row of the greatest sequence comes last. *)
Lemma sort_last x l :
  NoDup l -> x ∈ l -> (forall y, y ∈ l -> y = x \/ it_Seq y < it_Seq x) -> last (foldr insert_by_seq [] l) = Some x.
Proof.
  induction l as [|a l IH]; intros Hn Hx Hall; [by apply elem_of_nil in Hx|].
  apply NoDup_cons in Hn as [Ha Hn]. cbn. apply elem_of_cons in Hx as [<-|Hx].
  - rewrite insert_by_seq_last, last_snoc; [done|]. apply Forall_forall. intros y Hy. rewrite sort_elem in Hy.
    assert (Hy' : y ∈ x :: l) by by right. destruct (Hall y Hy') as [->|]; [by destruct Ha|done].
  - assert (Ha' : a ∈ a :: l) by by left.
    apply insert_by_seq_keeps_last; [destruct (Hall a Ha') as [->|]; [by destruct Ha|done]|].
    apply IH; [done|done|]. intros y Hy. apply Hall. by right.
Qed.

Lemma exists_max (l : list IdentityTransition) :
  l = [] \/ exists x, x ∈ l /\ forall y, y ∈ l -> it_Seq y <= it_Seq x.
Proof.
  induction l as [|a l [->|(x & Hx & Hmax)]]; [by left|right; exists a; set_solver by lia|right].
  destruct (Z.le_ge_cases (it_Seq a) (it_Seq x)).
  - exists x. split; [by right|]. intros y Hy. apply elem_of_cons in Hy as [->|]; [done|by apply Hmax].
  - exists a. split; [by left|]. intros y Hy. apply elem_of_cons in Hy as [->|Hy]; [done|].
    specialize (Hmax y Hy). lia.
Qed.

(** Rows are keyed by their own identity and sequence, and come from the log. *)
Definition rows_keyed (s : Sys) : Prop :=
  forall t id q tr, rm_transitions (sy_rm s) !! (t, id, q) = Some tr ->
    it_IdentityID tr = id /\ it_Seq tr = q /\ q <= LastSeq (sy_stream s).

Definition selected (tenant id : string) (p : string * string * Z * IdentityTransition) : bool :=
  String.eqb (fst (fst (fst p))) tenant && String.eqb (snd (fst (fst p))) id.

Lemma ListIdentityTransitions_eq tenant id rm :
  ListIdentityTransitions tenant id rm =
  foldr insert_by_seq [] (snd <$> List.filter (selected tenant id) (map_to_list (rm_transitions rm))).
Proof. done. Qed.

Lemma selected_spec tenant id k tr :
  selected tenant id (k, tr) = true <-> fst (fst k) = tenant /\ snd (fst k) = id.
Proof. unfold selected. cbn. by rewrite andb_true_iff, !String.eqb_eq. Qed.

Lemma history_rows tenant id (s : Sys) tr :
  rows_keyed s ->
  tr ∈ snd <$> List.filter (selected tenant id) (map_to_list (rm_transitions (sy_rm s))) <->
  rm_transitions (sy_rm s) !! (tenant, id, it_Seq tr) = Some tr.
Proof.
  intros Hk. rewrite list_elem_of_fmap. split.
  - intros ([[[t i] q] tr'] & -> & Hin). apply list_elem_of_In, filter_In in Hin as [Hin Hsel].
    apply list_elem_of_In, elem_of_map_to_list in Hin. apply selected_spec in Hsel as [Ht Hi]. cbn in *. subst.
    destruct (Hk _ _ _ _ Hin) as (_ & <- & _). done.
  - intros Hr. exists ((tenant, id, it_Seq tr), tr). split; [done|].
    apply list_elem_of_In, filter_In. split; [by apply list_elem_of_In, elem_of_map_to_list|by apply selected_spec].
Qed.

Lemma history_NoDup tenant id (s : Sys) :
  rows_keyed s -> NoDup (snd <$> List.filter (selected tenant id) (map_to_list (rm_transitions (sy_rm s)))).
Proof.
  intros Hk. apply NoDup_fmap_2_strong.
  - intros [[[t i] q] tr] [[[t' i'] q'] tr'] H1 H2 Heq. cbn in Heq. subst tr'.
    apply list_elem_of_In, filter_In in H1 as [H1 S1], H2 as [H2 S2].
    apply list_elem_of_In, elem_of_map_to_list in H1, H2. apply selected_spec in S1, S2. cbn in S1, S2.
    destruct S1 as [-> ->], S2 as [-> ->].
    destruct (Hk _ _ _ _ H1) as (_ & Hq1 & _), (Hk _ _ _ _ H2) as (_ & Hq2 & _). congruence.
  - apply NoDup_ListNoDup, List.NoDup_filter, NoDup_ListNoDup, NoDup_map_to_list.
Qed.

(** [State] is the target of the transition with the greatest sequence. *)
Lemma State_last tenant id (s : Sys) tr :
  rows_keyed s -> rm_transitions (sy_rm s) !! (tenant, id, it_Seq tr) = Some tr ->
  (forall q tr', rm_transitions (sy_rm s) !! (tenant, id, q) = Some tr' -> q <= it_Seq tr) ->
  State_ tenant id s = it_ToState tr.
Proof.
  intros Hk Hr Hmax. unfold State_, History.
  assert (Hl : last (ListIdentityTransitions tenant id (sy_rm s)) = Some tr).
  { rewrite ListIdentityTransitions_eq. apply sort_last; [by apply history_NoDup|by apply history_rows|].
    intros y Hy. apply history_rows in Hy; [|done]. pose proof (Hmax _ _ Hy) as Hle.
    destruct (decide (it_Seq y = it_Seq tr)) as [He|]; [left|right; lia]. rewrite He in Hy. congruence. }
  change (map ?f ?l) with (f <$> l). rewrite fmap_last, Hl. done.
Qed.

Lemma State_none tenant id (s : Sys) :
  rows_keyed s -> (forall q, rm_transitions (sy_rm s) !! (tenant, id, q) = None) ->
  State_ tenant id s = StateRequested.
Proof.
  intros Hk Hn. unfold State_, History. rewrite ListIdentityTransitions_eq.
  destruct (snd <$> List.filter (selected tenant id) (map_to_list (rm_transitions (sy_rm s)))) as [|tr l] eqn:E; [done|].
  assert (Hin : tr ∈ snd <$> List.filter (selected tenant id) (map_to_list (rm_transitions (sy_rm s))))
    by (rewrite E; by left).
  apply history_rows in Hin; [|done]. by rewrite Hn in Hin.
Qed.

(** The status column, the last transition and the lifecycle agree. *)
Definition consistent (s : Sys) : Prop :=
  rows_keyed s /\
  forall tenant id row, GetIdentity tenant id (sy_rm s) = Some row -> State_ tenant id s = id_status row.

Lemma moved_lookup tenant id from to reason e rm t i :
  GetIdentity t i (moved tenant id from to reason e rm) =
  if decide ((t, i) = (tenant, id)) then set_status to <$> GetIdentity tenant id rm else GetIdentity t i rm.
Proof.
  unfold GetIdentity. cbn. case_decide as H; [simplify_eq; by rewrite lookup_alter_eq|by rewrite lookup_alter_ne].
Qed.

Lemma moved_consistent d tenant id to reason key (s s1 : Sys) ident e :
  consistent s -> appended d tenant id to reason key s s1 ident e ->
  sy_rm s1 = moved tenant id (id_status ident) to reason e (sy_rm s) ->
  consistent s1 /\ State_ tenant id s1 = to.
Proof.
  intros [Hk Hst] Ha Hrm. destruct Ha.
  set (tr := mkIT id (ev_Sequence e) (id_status ident) to (ev_Type e) reason (ev_Time e)).
  assert (Htr : rm_transitions (sy_rm s1) = <[(tenant, id, ev_Sequence e) := tr]> (rm_transitions (sy_rm s)))
    by (rewrite Hrm; done).
  assert (Hk1 : rows_keyed s1).
  { intros t i q x Hx. rewrite Htr in Hx. apply lookup_insert_Some in Hx as [[? <-]|[Hne Hx]].
    - simplify_eq. cbn. split_and!; [done|done|lia].
    - destruct (Hk _ _ _ _ Hx) as (? & ? & ?). split_and!; [done|done|lia]. }
  assert (Hto : State_ tenant id s1 = to).
  { apply (State_last tenant id s1 tr); [done| |].
    - rewrite Htr. apply lookup_insert_eq.
    - intros q x Hx. destruct (Hk1 _ _ _ _ Hx) as (_ & _ & Hq). cbn. lia. }
  split; [|done]. split; [done|]. intros t i row Hrow. rewrite Hrm, moved_lookup in Hrow.
  case_decide as Heq; [simplify_eq; rewrite ap_ident0 in Hrow; cbn in Hrow; by simplify_eq|].
  specialize (Hst t i row Hrow). rewrite <- Hst.
  assert (Hsame : forall q, rm_transitions (sy_rm s1) !! (t, i, q) = rm_transitions (sy_rm s) !! (t, i, q)).
  { intros q. rewrite Htr. apply lookup_insert_ne. intros ?. simplify_eq. }
  destruct (exists_max (snd <$> List.filter (selected t i) (map_to_list (rm_transitions (sy_rm s))))) as [Hnil|(x & Hx & Hmax)].
  - assert (Hno : forall q, rm_transitions (sy_rm s) !! (t, i, q) = None).
    { intros q. destruct (rm_transitions (sy_rm s) !! (t, i, q)) as [y|] eqn:Hy; [|done].
      destruct (Hk _ _ _ _ Hy) as (_ & Hq & _). rewrite <- Hq in Hy. apply history_rows in Hy; [|done].
      rewrite Hnil in Hy. by apply elem_of_nil in Hy. }
    rewrite !State_none; [done|done|done|done|]. intros q. by rewrite Hsame.
  - apply history_rows in Hx; [|done].
    assert (Hge : forall q y, rm_transitions (sy_rm s) !! (t, i, q) = Some y -> q <= it_Seq x).
    { intros q y Hy. destruct (Hk _ _ _ _ Hy) as (_ & Hq & _). rewrite <- Hq in Hy |- *.
      apply Hmax. by apply history_rows. }
    rewrite (State_last t i s x), (State_last t i s1 x); try done; [by rewrite Hsame|].
    intros q y. rewrite Hsame. apply Hge.
Qed.

Lemma same_rm_consistent (s s1 : Sys) :
  sy_rm s1 = sy_rm s -> LastSeq (sy_stream s) <= LastSeq (sy_stream s1) -> consistent s -> consistent s1.
Proof.
  intros Hrm Hl [Hk Hst]. split.
  - intros t i q tr Hx. rewrite Hrm in Hx. destruct (Hk _ _ _ _ Hx) as (? & ? & ?). split_and!; [done|done|lia].
  - intros t i row Hrow. rewrite Hrm in Hrow. rewrite <- (Hst _ _ _ Hrow).
    unfold State_, History. by rewrite Hrm.
Qed.

(** ** The theorems *)

(** C3: a transition follows the lifecycle.  From a consistent state, whatever
    is asked and wherever the process fails: the state stays consistent (the
    status column, the last history row and [State] agree); no other identity
    changes; an unknown identity or an edge outside the table is rejected with
    nothing changed; and a transition that returns nil was an edge of the
    lifecycle, sets the status, appends exactly its event to the log, and
    enqueues exactly the side effect of the edge, if it has one. *)
Theorem transition_sound d txn tenant id to reason payload key tf (s : Sys) res s1 :
  consistent s -> Fresh (sy_stream s) (d_nuid d) ->
  transition d txn tenant id to reason payload key tf s = (res, s1) ->
  consistent s1 /\
  (forall t i, (t, i) <> (tenant, id) -> GetIdentity t i (sy_rm s1) = GetIdentity t i (sy_rm s)) /\
  (forall e, res = Err (InvalidTransition e) -> s1 = s /\ CanTransition (te_From e) (te_To e) = false) /\
  (forall i, res = Err (IdentityNotFound i) -> s1 = s) /\
  (res = Ok tt -> exists row e,
     GetIdentity tenant id (sy_rm s) = Some row /\ step (id_status row) to /\
     GetIdentity tenant id (sy_rm s1) = Some (set_status to row) /\ State_ tenant id s1 = to /\
     events_from 1 (sy_stream s1) = events_from 1 (sy_stream s) ++ [e] /\
     ev_TenantID e = tenant /\ EventTypeFor (id_status row) to = Some (ev_Type e) /\
     enqueued tenant (id_status row) to (TrimSpace key) e (sy_outbox s) (sy_outbox s1)).
Proof.
  intros Hc Hfr H.
  destruct (transition_cases _ _ _ _ _ _ _ _ _ _ _ _ Hfr H)
    as [(-> & _ & ->)|[(ident & _ & Hcan & -> & ->)|[(e & -> & ->)|(ident & e & Ha & Hout)]]].
  - split_and!; try done.
  - split_and!; try done. intros e [= <-]. by split.
  - split_and!; try done.
  - pose proof (LastSeq_nonneg (sy_stream s)) as Hl0.
    destruct Hout as [(-> & _ & Hrm & Henq)|(Hres & Hrm & Hob)].
    + destruct (moved_consistent _ _ _ _ _ _ _ _ _ _ Hc Ha Hrm) as [Hc1 Hto]. destruct Ha.
      split_and!; try done.
      * intros t i Hne. rewrite Hrm, moved_lookup. by rewrite decide_False.
      * intros _. exists ident, e. split_and!; try done.
        -- by eapply EventTypeFor_step.
        -- rewrite Hrm, moved_lookup, decide_True, ap_ident0 by done. done.
        -- apply ap_log0. lia.
    + destruct Ha. split_and!.
      * eapply same_rm_consistent; [done| |done]. lia.
      * intros t i _. by rewrite Hrm.
      * intros x ->. destruct Hres as [[? ?]|[? ?]]; done.
      * intros x ->. destruct Hres as [[? ?]|[? ?]]; done.
      * intros ->. destruct Hres as [[? ?]|[? ?]]; done.
Qed.

(** The system driven by one caller at a time. *)
Inductive sys_step : Sys -> Sys -> Prop :=
| sys_transition d txn tenant id to reason payload key tf s res s1 :
    Fresh (sy_stream s) (d_nuid d) ->
    transition d txn tenant id to reason payload key tf s = (res, s1) -> sys_step s s1
| sys_reconcile dbnow fault s h res s1 :
    ReconcileOutbox dbnow fault s = (h, res, s1) -> sys_step s s1.

Lemma sys_step_status s s1 tenant id row :
  sys_step s s1 -> GetIdentity tenant id (sy_rm s) = Some row ->
  exists row', GetIdentity tenant id (sy_rm s1) = Some row' /\ rtc step (id_status row) (id_status row').
Proof.
  destruct 1 as [d txn tn i to reason payload key tf s res s1 Hfr H|dbnow fault s h res s1 H]; intros Hrow.
  - destruct (transition_cases _ _ _ _ _ _ _ _ _ _ _ _ Hfr H)
      as [(_ & _ & ->)|[(ident & _ & _ & _ & ->)|[(e & _ & ->)|(ident & e & Ha & Hout)]]]; try by exists row.
    destruct Hout as [(_ & _ & Hrm & _)|(_ & Hrm & _)]; rewrite Hrm; [|by exists row].
    destruct Ha. rewrite moved_lookup. case_decide as Heq; [|by exists row]. injection Heq as -> ->.
    assert (ident = row) as -> by congruence. rewrite Hrow. exists (set_status to row). split; [done|].
    apply rtc_once. by eapply EventTypeFor_step.
  - exists row. split; [|done]. unfold ReconcileOutbox in H.
    destruct (Replay _ _ _ _) as [? ?]. by simplify_eq.
Qed.

(** C4: driven by one caller at a time, an identity only ever moves along the
    lifecycle; in particular once revoked it can only be retired. *)
Theorem identity_follows_lifecycle (s s' : Sys) tenant id row :
  rtc sys_step s s' -> GetIdentity tenant id (sy_rm s) = Some row ->
  exists row', GetIdentity tenant id (sy_rm s') = Some row' /\ rtc step (id_status row) (id_status row') /\
    (id_status row = StateRevoked -> id_status row' = StateRevoked \/ id_status row' = StateRetired).
Proof.
  intros Hs Hrow.
  assert (Hex : exists row', GetIdentity tenant id (sy_rm s') = Some row' /\ rtc step (id_status row) (id_status row')).
  { revert row Hrow. induction Hs as [s|s1 s2 s3 H12 _ IH]; intros row Hrow; [by exists row|].
    destruct (sys_step_status _ _ _ _ _ H12 Hrow) as (row2 & Hrow2 & Hst).
    destruct (IH _ Hrow2) as (row3 & Hrow3 & Hst3). exists row3. split; [done|by etrans]. }
  destruct Hex as (row' & Hrow' & Hst). exists row'. split_and!; [done|done|].
  intros Hrev. rewrite Hrev in Hst. by apply rtc_from_revoked.
Qed.

(** ** Reconciliation *)

Lemma ReconcileOutbox_each dbnow fault (s : Sys) h res s1 :
  ReconcileOutbox dbnow fault s = (h, res, s1) ->
  exists r, each (reconcile_event dbnow fault) (events_from (OutboxReconciliationCheckpoint s + 1) (sy_stream s))
              (mkR (sy_outbox s) (sy_reconciled s) 0) = (res, r) /\
    h = r_healed r /\ s1 = mkSys (sy_stream s) (sy_rm s) (r_outbox r) (r_checkpoint r).
Proof.
  unfold ReconcileOutbox, OutboxReconciliationCheckpoint. rewrite Replay_each by lia.
  destruct (each _ _ _) as [res' r]. intros. simplify_eq. by exists r.
Qed.

(** The events a reconciliation from this state looks at. *)
Definition unreconciled (s : Sys) : list Event := events_from (OutboxReconciliationCheckpoint s + 1) (sy_stream s).

Lemma unreconciled_after (s : Sys) : Forall (fun e => sy_reconciled s < ev_Sequence e) (unreconciled s).
Proof.
  apply Forall_forall. intros e He. unfold unreconciled, OutboxReconciliationCheckpoint in He.
  apply events_from_elem in He as (raw & Hs & _); lia.
Qed.

(** C9: reconciliation heals and never harms.  Whatever fails on the way, a run
    of [ReconcileOutbox] leaves the log and read model alone, keeps every outbox
    row, adds only fresh pending rows, each for an effect that an event past the
    checkpoint asks for and that had no row, and moves the checkpoint forward
    only over events whose effects are all in the outbox.  A run that returns
    nil has every such effect in the outbox, reports exactly the rows it added,
    and running it again finds nothing to do. *)
Theorem ReconcileOutbox_heals dbnow fault (s : Sys) h res s1 :
  keys_unique (sy_outbox s) -> ReconcileOutbox dbnow fault s = (h, res, s1) ->
  sy_stream s1 = sy_stream s /\ sy_rm s1 = sy_rm s /\ keys_unique (sy_outbox s1) /\
  sy_reconciled s <= sy_reconciled s1 /\
  reconciled_upto (unreconciled s) (sy_reconciled s1) (sy_outbox s1) /\
  exists new, grown (asked_by (unreconciled s)) (sy_outbox s) (sy_outbox s1) new /\
    (res = Ok tt ->
       h = Z.of_nat (length new) /\ (forall e, asked_by (unreconciled s) e -> keyed (sy_outbox s1) e) /\
       forall dbnow' fault', ReconcileOutbox dbnow' fault' s1 = (0, Ok tt, s1)).
Proof.
  intros Hu H. apply ReconcileOutbox_each in H as (r & He & -> & ->). fold (unreconciled s) in He.
  assert (Hasc : ascending (unreconciled s)) by apply events_range_ascending.
  destruct (each_reconcile dbnow fault _ (mkR (sy_outbox s) (sy_reconciled s) 0) _ _ Hasc (unreconciled_after s) He) as (new & Hg & Hu1 & _ & Hm & Hr & Hok).
  cbn in *. split_and!; try done; [by apply Hu1|]. exists new. split; [done|]. intros ->.
  destruct (Hok eq_refl) as [Hf Hh]. split_and!; [lia| |].
  - intros e (ev & Hin & Ha). eapply Hr; [exact Hin| |exact Ha]. rewrite Forall_forall in Hf. by apply Hf.
  - intros dbnow' fault'. unfold ReconcileOutbox, OutboxReconciliationCheckpoint. cbn [sy_stream sy_reconciled sy_outbox sy_rm].
    rewrite Replay_each by lia.
    replace (events_from (Z.max 0 (r_checkpoint r) + 1) (sy_stream s)) with (@nil Event); [done|].
    destruct (events_from (Z.max 0 (r_checkpoint r) + 1) (sy_stream s)) as [|ev l] eqn:E; [done|exfalso].
    assert (Hev : ev ∈ events_from (Z.max 0 (r_checkpoint r) + 1) (sy_stream s)) by (rewrite E; by left).
    apply events_from_elem in Hev as (raw & Hs & Hg' & Heq); [|lia].
    rewrite Forall_forall in Hf. specialize (Hf ev).
    assert (ev ∈ unreconciled s); [|specialize (Hf ltac:(done)); lia].
    apply events_from_elem; [unfold OutboxReconciliationCheckpoint; lia|].
    exists raw. unfold OutboxReconciliationCheckpoint. split_and!; [lia|done|done].
Qed.

(** ** A side effect lands exactly once *)

Lemma keys_unique_inj ob r r' :
  keys_unique ob -> r ∈ db_rows ob -> r' ∈ db_rows ob -> r_tenant r = r_tenant r' -> r_key r = r_key r' -> r = r'.
Proof.
  intros Hu Hr Hr' Ht Hk. apply list_elem_of_lookup in Hr as [i Hi], Hr' as [j Hj].
  assert (i = j); [|congruence].
  eapply NoDup_lookup; [exact Hu|by rewrite list_lookup_fmap, Hi|]. by rewrite list_lookup_fmap, Hj, Ht, Hk.
Qed.

Lemma outbox_key_trim eid key :
  transitionOutboxIdempotencyKey eid (TrimSpace key) = transitionOutboxIdempotencyKey eid key.
Proof. unfold transitionOutboxIdempotencyKey. by rewrite TrimSpace_idem. Qed.

(** A transition event that has been appended asks for its effect. *)
Lemma appended_asks d tenant id to reason key (s s1 : Sys) ident e dest :
  appended d tenant id to reason key s s1 ident e -> sideEffectFor (id_status ident) to = Some dest ->
  sy_reconciled s <= LastSeq (sy_stream s) ->
  asked_by (unreconciled s1)
    (mkEntry tenant dest (transitionOutboxIdempotencyKey (d_nuid d) key) (ev_Data e)).
Proof.
  intros [] Hdest Hrec. exists e. pose proof (LastSeq_nonneg (sy_stream s)) as Hl0. split.
  - unfold unreconciled, OutboxReconciliationCheckpoint. rewrite ap_recon0, ap_log0 by lia.
    apply elem_of_app. right. by left.
  - pose proof (intents_transition e _ _ _ _ _ ap_type0 ap_version0 ap_data0) as Hi.
    unfold effect_entry in Hi. rewrite Hdest, ap_id0, ap_tenant0, outbox_key_trim in Hi. cbn in Hi.
    eexists. split; [exact Hi|by left].
Qed.

(** C1: the side effect of a transition lands exactly once.  Whether the
    transaction after the append took place or the process died before it
    ([txn]), once [ReconcileOutbox] has run through, the outbox holds exactly
    one row under the key of the transition; and if the transition returned nil
    and the key was not in use, that row is a pending row for the destination of
    the edge. *)
Theorem effect_exactly_once d txn tenant id to reason payload key tf (s : Sys) res s1 ident dest dbnow fault h s2 :
  keys_unique (sy_outbox s) -> Fresh (sy_stream s) (d_nuid d) -> sy_reconciled s <= LastSeq (sy_stream s) ->
  GetIdentity tenant id (sy_rm s) = Some ident -> sideEffectFor (id_status ident) to = Some dest ->
  transition d txn tenant id to reason payload key tf s = (res, s1) -> (res = Ok tt \/ res = Err TxFailed) ->
  ReconcileOutbox dbnow fault s1 = (h, Ok tt, s2) ->
  let k := transitionOutboxIdempotencyKey (d_nuid d) key in
  exists r, r ∈ db_rows (sy_outbox s2) /\ r_tenant r = tenant /\ r_key r = k /\
    (forall r', r' ∈ db_rows (sy_outbox s2) -> r_tenant r' = tenant -> r_key r' = k -> r' = r) /\
    (res = Ok tt -> ~ has_key (sy_outbox s) tenant k -> r_destination r = dest /\ r_status r = "pending").
Proof.
  intros Hu Hfr Hrec Hid Hdest Ht Hres Hr k.
  destruct (transition_cases _ _ _ _ _ _ _ _ _ _ _ _ Hfr Ht)
    as [(-> & _ & ->)|[(x & _ & _ & -> & ->)|[(e & -> & ->)|(x & e & Ha & Hout)]]]; [naive_solver..|].
  assert (x = ident) as -> by (destruct Ha; congruence).
  pose proof (appended_asks _ _ _ _ _ _ _ _ _ _ _ Ha Hdest Hrec) as Hask. fold k in Hask.
  assert (Hu1 : keys_unique (sy_outbox s1)).
  { destruct Hout as [(_ & _ & _ & Henq)|(_ & _ & ->)]; [|done]. unfold enqueued in Henq. rewrite Hdest in Henq.
    destruct Henq as (now & body & ->). by apply EnqueueIfAbsent_keys_unique. }
  apply ReconcileOutbox_each in Hr as (r & He & _ & ->). fold (unreconciled s1) in He. cbn [sy_outbox].
  assert (Hasc : ascending (unreconciled s1)) by apply events_range_ascending.
  destruct (each_reconcile dbnow fault _ (mkR (sy_outbox s1) (sy_reconciled s1) 0) _ _ Hasc (unreconciled_after s1) He)
    as (new & [Hrows _] & Hu2 & _ & _ & Hr & Hok). cbn in Hrows, Hu2.
  destruct (Hok eq_refl) as [Hf _]. destruct Hask as (ev & Hin & Hev).
  rewrite Forall_forall in Hf.
  destruct (Hr ev _ Hin (Hf ev Hin) Hev) as (row & Hrow & Hrt & Hrk). cbn in Hrt, Hrk.
  exists row. split_and!; try done.
  - intros r' Hr' Ht' Hk'. eapply keys_unique_inj; [by apply Hu2|done|done|congruence|congruence].
  - intros -> Hno. destruct Hout as [(_ & _ & _ & Henq)|([[? _]|[? ?]] & _)]; [|done|done].
    unfold enqueued in Henq. rewrite Hdest in Henq. destruct Henq as (now & body & Hob).
    rewrite outbox_key_trim in Hob. destruct Ha. rewrite ap_id0 in Hob. fold k in Hob.
    rewrite EnqueueIfAbsent_spec, decide_False in Hob by done.
    assert (row = new_row (db_seq (sy_outbox s)) now (mkEntry tenant dest k body)) as ->; [|done].
    eapply keys_unique_inj; [by apply Hu2|done| |done|done]. rewrite Hrows, Hob.
    apply elem_of_app. left. apply elem_of_app. right. by left.
Qed.

(** ** What the code does not prevent *)

(** an effect that has landed, been delivered and been swept is enqueued a
    second time.  [ReconcileOutbox] runs on boot only, so the checkpoint may be
    before the event; when the retention sweep has since reclaimed the delivered
    row, the next successful reconciliation finds no row for the event and adds
    a fresh pending one, which will be delivered again. *)
Theorem swept_effect_redelivered retention now (s : Sys) ev entry row dbnow fault h s2 :
  keys_unique (sy_outbox s) -> ev ∈ unreconciled s -> asks ev entry ->
  row ∈ db_rows (sy_outbox s) -> r_key row = e_IdempotencyKey entry ->
  r_tenant row = e_TenantID entry -> r_status row = "delivered" ->
  (exists t, r_delivered_at row = Some t /\ t < now - retention) ->
  ReconcileOutbox dbnow fault (mkSys (sy_stream s) (sy_rm s) (snd (Sweep retention now (sy_outbox s))) (sy_reconciled s))
    = (h, Ok tt, s2) ->
  exists row', row' ∈ db_rows (sy_outbox s2) /\ r_tenant row' = r_tenant row /\ r_key row' = r_key row /\
    r_status row' = "pending" /\ r_attempts row' = 0.
Proof.
  intros Hu Hin Hask Hrow Hkey Htn Hdel Hold Hr.
  set (sw := mkSys (sy_stream s) (sy_rm s) (snd (Sweep retention now (sy_outbox s))) (sy_reconciled s)) in *.
  change (unreconciled s) with (unreconciled sw) in Hin.
  apply ReconcileOutbox_each in Hr as (r & He & _ & ->). fold (unreconciled sw) in He. cbn [sy_outbox].
  assert (Hasc : ascending (unreconciled sw)) by apply events_range_ascending.
  destruct (each_reconcile dbnow fault _ (mkR (sy_outbox sw) (sy_reconciled sw) 0) _ _ Hasc (unreconciled_after sw) He)
    as (new & [Hrows Hnew] & _ & _ & _ & Hrec & Hok). cbn in Hrows.
  destruct (Hok eq_refl) as [Hf _]. rewrite Forall_forall in Hf.
  destruct (Hrec ev _ Hin (Hf ev Hin) Hask) as (row' & Hrow' & Hrt & Hrk).
  exists row'. split_and!; [done|congruence|congruence| |];
    (rewrite Hrows in Hrow'; apply elem_of_app in Hrow' as [Hs|Hn];
     [exfalso; apply Sweep_spec in Hs as [Hs Hno];
      assert (row' = row) as -> by (eapply keys_unique_inj; [exact Hu|done|done|congruence|congruence]); by apply Hno
     |rewrite Forall_forall in Hnew; destruct (Hnew _ Hn) as (? & _ & (_ & _ & _ & _ & ? & ?) & _); done]).
Qed.

(** of two concurrent transitions of one identity, the one that read first
    and writes last decides its status, whatever the other has done in between:
    the guard is evaluated on the status read before the append, and neither the
    append nor the transaction checks it again. *)
Theorem concurrent_transition_overrides d1 d2 tenant id to1 to2 reason1 reason2 key1 key2 (s : Sys) p s1 res s2 :
  Fresh (sy_stream s) (d_nuid d2) -> Fresh (sy_stream s1) (d_nuid d1) ->
  plan_transition tenant id to1 reason1 key1 s = Ok p ->
  transition d2 true tenant id to2 reason2 no_bytes key2 None s = (Ok tt, s1) ->
  commit_transition d1 true tenant p no_bytes None s1 = (res, s2) ->
  (exists e, res = Err (AppendError e)) \/
  (res = Ok tt /\ id_status <$> GetIdentity tenant id (sy_rm s2) = Some to1).
Proof.
  intros Hf2 Hf1 Hp H2 H1.
  destruct (transition_cases _ _ _ _ _ _ _ _ _ _ _ _ Hf2 H2)
    as [(? & _)|[(? & _ & _ & ? & _)|[(? & ? & _)|(ident & e & Ha & Hout)]]]; [done..|].
  destruct Hout as [(_ & _ & Hrm & _)|([[? _]|[? ?]] & _)]; [|done|done].
  assert (Hrow : GetIdentity tenant id (sy_rm s1) = Some (set_status to2 ident)).
  { destruct Ha. by rewrite Hrm, moved_lookup, decide_True, ap_ident0. }
  assert (Hid : GetIdentity tenant id (sy_rm s) = Some ident) by by destruct Ha.
  unfold plan_transition in Hp. rewrite Hid in Hp.
  destruct (EventTypeFor (id_status ident) to1) as [ty|] eqn:Hty; [|done]. injection Hp as <-.
  unfold commit_transition in H1. cbn [pl_event pl_payload pl_from pl_to pl_key data_empty no_bytes String.eqb] in H1.
  destruct (Append _ _ _ _ (sy_stream s1)) as [[ev|err] st] eqn:Happ;
    [|left; exists err; by injection H1 as <- <-].
  right. apply append_ok in Happ as (Ht & Htn & Hd & _ & _ & _ & Hv & _); [|exact Hf1]. cbn in Ht, Htn, Hd, Hv.
  assert (Hproj : ApplyTx ev (sy_rm s1) = Ok (moved tenant id (id_status ident) to1 reason1 ev (sy_rm s1))).
  { rewrite <- Htn. eapply project_transition; [by rewrite Ht| |exact Hd].
    unfold version_ok. rewrite Hv. destruct (String.eqb _ ""); [by left|by right]. }
  unfold project_and_enqueue in H1. cbn [sy_rm] in H1. rewrite Hproj in H1.
  destruct (sideEffectFor _ _); injection H1 as <- <-; (split; [done|]); cbn [sy_rm];
    by rewrite moved_lookup, decide_True, Hrow.
Qed.

End System.

(** ** A worked system: a requested identity in a fresh installation *)

#[local] Existing Instance PooledRouter.
#[local] Existing Instance no_other_tables.

(** The id is not among those of the stream. *)
Ltac fresh_id := apply (bool_decide_unpack _); vm_compute; exact I.

Definition demo_sys : Sys :=
  mkSys (demo_append "e1" (demo_event "identity.created"
           [("id", JStr "i1"); ("kind", JStr "x509_certificate"); ("owner_id", JStr "o1"); ("issuer_id", JNull)])
           ListStream.empty)
    demo_rm (mkDB [] 1) 0.

Definition demo_draw (nuid : string) : Draw := mkDraw 80 nuid None 80.

Definition demo_move (nuid : string) (txn : bool) (to : State) (s : Sys) : result orchError unit * Sys :=
  transition (demo_draw nuid) txn "t1" "i1" to "" no_bytes "" None s.

Lemma demo_consistent : consistent demo_sys.
Proof.
  split; [intros t i q tr H; cbn in H; by rewrite lookup_empty in H|].
  intros t i row H. unfold GetIdentity in H. cbn in H. apply lookup_singleton_Some in H as [Hk <-]. injection Hk as <- <-. vm_compute. reflexivity.
Qed.

Lemma transition_sound_witness :
  consistent (snd (demo_move "e2" true StateIssued demo_sys)) /\
  State_ "t1" "i1" (snd (demo_move "e2" true StateIssued demo_sys)) = StateIssued.
Proof.
  destruct (demo_move "e2" true StateIssued demo_sys) as [res s1] eqn:E.
  assert (Hok : res = Ok tt) by (apply (f_equal fst) in E; cbn [fst snd] in E; rewrite <- E; vm_compute; reflexivity).
  destruct (transition_sound (demo_draw "e2") true "t1" "i1" StateIssued "" no_bytes "" None
    demo_sys res s1 demo_consistent) as (Hc & _ & _ & _ & Hk); [fresh_id|exact E|].
  destruct (Hk Hok) as (row & e & _ & _ & _ & Hs & _). split; [exact Hc|exact Hs].
Defined.

Lemma identity_follows_lifecycle_witness :
  exists row', GetIdentity "t1" "i1" (sy_rm (snd (demo_move "e2" true StateIssued demo_sys))) = Some row' /\
    rtc step StateRequested (id_status row').
Proof.
  destruct (demo_move "e2" true StateIssued demo_sys) as [res s1] eqn:E.
  destruct (identity_follows_lifecycle demo_sys s1 "t1" "i1"
    (mkIdentity "x509_certificate" "o1" None "requested" 77)) as (row' & H & Hs & _).
  - apply rtc_once. eapply (sys_transition (demo_draw "e2")); [|exact E]. fresh_id.
  - vm_compute. reflexivity.
  - exists row'. split; [exact H|exact Hs].
Defined.

(** The transaction of the issue is lost in a crash; reconciliation heals it. *)
Definition demo_crashed : Sys := snd (demo_move "e2" false StateIssued demo_sys).

Definition no_fault (e : Event) : option rfault := None.

Lemma ReconcileOutbox_heals_witness :
  keys_unique (snd (ReconcileOutbox (fun _ => 90) no_fault demo_crashed)).(sy_outbox).
Proof.
  destruct (ReconcileOutbox (fun _ => 90) no_fault demo_crashed) as [[h res] s1] eqn:E.
  destruct (ReconcileOutbox_heals (fun _ => 90) no_fault demo_crashed h res s1) as (_ & _ & Hu & _);
    [vm_compute; constructor|exact E|exact Hu].
Defined.

Lemma effect_exactly_once_witness :
  exists r, r ∈ db_rows (sy_outbox (snd (ReconcileOutbox (fun _ => 90) no_fault demo_crashed))) /\
    r_tenant r = "t1" /\ r_key r = "e2".
Proof.
  destruct (ReconcileOutbox (fun _ => 90) no_fault demo_crashed) as [[h res] s2] eqn:E.
  assert (Hok : res = Ok tt) by (apply (f_equal (fun x => snd (fst x))) in E; cbn [fst snd] in E; rewrite <- E; vm_compute; reflexivity).
  destruct (effect_exactly_once (demo_draw "e2") false "t1" "i1" StateIssued "" no_bytes "" None
    demo_sys (Err TxFailed) demo_crashed (mkIdentity "x509_certificate" "o1" None "requested" 77) "ca.issue"
    (fun _ => 90) no_fault h s2) as (r & Hin & Ht & Hk & _).
  - constructor.
  - fresh_id.
  - vm_compute. discriminate.
  - vm_compute. reflexivity.
  - vm_compute. reflexivity.
  - unfold demo_crashed. rewrite (surjective_pairing (demo_move "e2" false StateIssued demo_sys)) at 1.
    f_equal; vm_compute; reflexivity.
  - by right.
  - rewrite E, Hok; reflexivity.
  - exists r. split; [exact Hin|split; [exact Ht|exact Hk]].
Defined.

(** The issue is delivered at 100, swept a day later, and reconciled on the next
    boot. *)
Definition demo_issued : Sys := snd (demo_move "e2" true StateIssued demo_sys).

Definition demo_done : Row := mkRow 1 "t1" "ca.issue" (payload_of "i1" "requested" "issued" "" "") "e2" "delivered" 1
  None 80 (Some 100) None None.

Definition demo_delivered : Sys :=
  mkSys (sy_stream demo_issued) (sy_rm demo_issued) (mkDB [demo_done] 2) (sy_reconciled demo_issued).

Definition demo_issue_event : Event :=
  mkEvent "e2" "identity.issued" "t1" 80 (payload_of "i1" "requested" "issued" "" "") 2 None 1.

Lemma swept_effect_redelivered_witness :
  exists row', row' ∈ db_rows (sy_outbox (snd (ReconcileOutbox (fun _ => 90) no_fault
      (mkSys (sy_stream demo_issued) (sy_rm demo_issued) (snd (Sweep 10 120 (mkDB [demo_done] 2))) 0)))) /\
    r_key row' = "e2" /\ r_status row' = "pending".
Proof.
  destruct (ReconcileOutbox (fun _ => 90) no_fault
      (mkSys (sy_stream demo_issued) (sy_rm demo_issued) (snd (Sweep 10 120 (mkDB [demo_done] 2))) 0)) as [[h res] s2] eqn:E.
  assert (Hok : res = Ok tt) by (apply (f_equal (fun x => snd (fst x))) in E; cbn [fst snd] in E; rewrite <- E; vm_compute; reflexivity).
  destruct (swept_effect_redelivered 10 120 demo_delivered demo_issue_event
    (mkEntry "t1" "ca.issue" "e2" (payload_of "i1" "requested" "issued" "" "")) demo_done (fun _ => 90) no_fault h s2)
    as (row' & Hin & _ & Hk & Hp & _).
  - vm_compute. repeat constructor. intros H. by apply elem_of_nil in H.
  - change (unreconciled demo_delivered) with
      (events_from 1 (sy_stream demo_issued)). 
    apply events_from_elem; [lia|]. eexists. cbn [ev_Sequence demo_issue_event]. split; [lia|].
    split; vm_compute; reflexivity.
  - eexists. split; [vm_compute; reflexivity|by left].
  - by left.
  - vm_compute. reflexivity.
  - vm_compute. reflexivity.
  - vm_compute. reflexivity.
  - exists 100. split; [reflexivity|lia].
  - rewrite Hok in E. exact E.
  - exists row'. split; [exact Hin|split; [exact Hk|exact Hp]].
Defined.

(** A deployment planned before a revocation and committed after it brings the
    revoked identity back to deployed. *)
Definition demo_plan : Plan :=
  match plan_transition "t1" "i1" StateDeployed "" "" demo_issued with
  | Ok p => p
  | Err _ => mkPlan "" "" "" demo_issue_event no_bytes
  end.

Definition demo_revoked : Sys := snd (demo_move "e3" true StateRevoked demo_issued).

Lemma concurrent_transition_overrides_witness :
  id_status <$> GetIdentity "t1" "i1" (sy_rm demo_revoked) = Some StateRevoked /\
  CanTransition StateRevoked StateDeployed = false /\
  id_status <$> GetIdentity "t1" "i1" (sy_rm (snd
    (commit_transition (demo_draw "e4") true "t1" demo_plan no_bytes None demo_revoked)))
  = Some StateDeployed.
Proof.
  split; [vm_compute; reflexivity|]. split; [vm_compute; reflexivity|].
  destruct (commit_transition (demo_draw "e4") true "t1" demo_plan no_bytes None demo_revoked)
    as [res s2] eqn:E.
  assert (Hok : res = Ok tt) by (apply (f_equal fst) in E; cbn [fst snd] in E; rewrite <- E; vm_compute; reflexivity).
  destruct (concurrent_transition_overrides (demo_draw "e4") (demo_draw "e3") "t1" "i1"
    StateDeployed StateRevoked "" "" "" "" demo_issued demo_plan demo_revoked res s2) as [[e He]|[_ Hs]].
  - fresh_id.
  - fresh_id.
  - vm_compute. reflexivity.
  - unfold demo_revoked. rewrite (surjective_pairing (demo_move "e3" true StateRevoked demo_issued)) at 1.
    f_equal; vm_compute; reflexivity.
  - exact E.
  - congruence.
  - exact Hs.
Defined.

End OrchestratorSpec.
