(* ===== verification/Idempotency.v ===== *)
(** * Idempotency: one effect per key

    Models [src/internal/orchestrator/idempotency.go] (the PostgreSQL table),
    [src/internal/idem/idem.go] (the in-process map) and the retention sweep
    [src/internal/idemgc/idemgc.go].  Both implementations claim a key, run the
    operation outside the claim, and record its result; the class [TwoPhase]
    states what the two halves promise, and the theorem about concurrent callers
    is proved against it.  In the table a second claim waits for the transaction
    that holds the row; in the map it is refused: to the interface both are
    [LBusy]. *)

From S2P Require Import Prelude Outbox.
Open Scope string_scope.
Open Scope list_scope.
Open Scope Z_scope.

Module Idempotency.

(** A result is a byte string. *)
Definition bytes : Type := string.

Inductive idemError :=
| ErrInProgress
| ErrIdempotencyNotFound
| ClaimError
| LoadError
| FnError (text : string)
| RecordError
| CommitError.

(** ** The table *)

(** A row of [idempotency_keys]; [result] and [completed_at] are nullable. *)
Record IdemRow := mkIdem {
  ik_status : string;
  ik_result : option bytes;
  ik_completed_at : option Z
}.

Abbreviation Keys := (gmap (string * string) IdemRow).

(** Where the transaction of [Do] may fail on the database's side. *)
Inductive idemFault := FaultClaim | FaultLoad | FaultRecord | FaultCommit.

#[export] Instance idemFault_eq_dec : EqDecision idemFault.
Proof. solve_decision. Defined.

(** What the claiming half decides: the answer without running the operation, or
    that the key is now claimed. *)
Inductive claim :=
| Answered (r : result idemError bytes)
| Claimed.

Definition do_claim (fault : option idemFault) (tenantID key : string) (k : Keys) : claim :=
  match fault with
  | Some FaultClaim => Answered (Err ClaimError)
  | _ =>
      match k !! (tenantID, key) with
      | None => Claimed
      | Some row =>
          match fault with
          | Some FaultLoad => Answered (Err LoadError)
          | _ =>
              if negb (String.eqb (ik_status row) "completed") then Answered (Err ErrInProgress)
              else match fault with
                   | Some FaultCommit => Answered (Err CommitError)
                   | _ => Answered (Ok (default "" (ik_result row)))
                   end
          end
      end
  end.

(** The recording half: [dbnow] is [now()] of the transaction. *)
Definition do_finish (fault : option idemFault) (dbnow : Z) (tenantID key : string) (out : result string bytes)
    (k : Keys) : result idemError bytes * Keys :=
  match out with
  | Err text => (Err (FnError text), k)
  | Ok out =>
      match fault with
      | Some FaultRecord => (Err RecordError, k)
      | Some FaultCommit => (Err CommitError, k)
      | _ => (Ok out, <[(tenantID, key) := mkIdem "completed" (Some out) (Some dbnow)]> k)
      end
  end.

(** [fn] acts on a world of its own: its appends and transactions are not part
    of the transaction of the claim. *)
Definition Do {W} (fault : option idemFault) (dbnow : Z) (tenantID key : string)
    (fn : W -> result string bytes * W) (k : Keys) (w : W) : result idemError bytes * Keys * W :=
  match do_claim fault tenantID key k with
  | Answered r => (r, k, w)
  | Claimed =>
      let '(out, w') := fn w in
      let '(r, k') := do_finish fault dbnow tenantID key out k in
      (r, k', w')
  end.

Definition Result (tenantID key : string) (k : Keys) : result idemError bytes :=
  match k !! (tenantID, key) with
  | None => Err ErrIdempotencyNotFound
  | Some row =>
      if negb (String.eqb (ik_status row) "completed") then Err ErrInProgress
      else Ok (default "" (ik_result row))
  end.

(** ** The sweep *)

Definition DefaultRetention : Z := 7 * 24 * 3600 * Outbox.second.

Definition new_sweeper (retention : Z) : Z := if retention <=? 0 then DefaultRetention else retention.

Definition expired (cutoff : Z) (row : IdemRow) : bool :=
  match ik_completed_at row with
  | Some t => t <? cutoff
  | None => false
  end.

Definition Sweep (retention now : Z) (k : Keys) : Z * Keys :=
  let cutoff := now - retention in
  (Z.of_nat (size (filter (fun p : string * string * IdemRow => expired cutoff (snd p) = true) k)),
   filter (fun p : string * string * IdemRow => expired cutoff (snd p) = false) k).

Definition Count (k : Keys) : Z := Z.of_nat (size k).

(** ** The in-process map *)

Record Memory := mkMemory { m_done : gmap string bytes; m_inflight : gset string }.

Definition NewMemory : Memory := mkMemory ∅ ∅.

Definition full_key (tenantID key : string) : string := (tenantID ++ "|" ++ key)%string.

Definition mem_claim (tenantID key : string) (m : Memory) : claim * Memory :=
  let full := full_key tenantID key in
  match m_done m !! full with
  | Some r => (Answered (Ok r), m)
  | None =>
      if decide (full ∈ m_inflight m) then (Answered (Err ErrInProgress), m)
      else (Claimed, mkMemory (m_done m) ({[ full ]} ∪ m_inflight m))
  end.

Definition mem_finish (tenantID key : string) (out : result string bytes) (m : Memory) : result idemError bytes * Memory :=
  let full := full_key tenantID key in
  let inflight := m_inflight m ∖ {[ full ]} in
  match out with
  | Ok res => (Ok res, mkMemory (<[full := res]> (m_done m)) inflight)
  | Err text => (Err (FnError text), mkMemory (m_done m) inflight)
  end.

Definition Memory_Do {W} (tenantID key : string) (fn : W -> result string bytes * W) (m : Memory) (w : W)
  : result idemError bytes * Memory * W :=
  match mem_claim tenantID key m with
  | (Answered r, m) => (r, m, w)
  | (Claimed, m) =>
      let '(out, w') := fn w in
      let '(r, m') := mem_finish tenantID key out m in
      (r, m', w')
  end.

(** ** What the two halves promise *)

Inductive look := LReplay (r : bytes) | LBusy | LFresh.

(** [tp_finish c (Some r)] records a result, [tp_finish c None] gives the claim
    up without one.  [tp_ok] is the invariant of the implementation and
    [tp_tenant] the tenant ids it keeps apart. *)
Class TwoPhase := {
  tp_state : Type;
  tp_tenant : string -> Prop;
  tp_ok : tp_state -> Prop;
  tp_look : string * string -> tp_state -> look;
  tp_claim : string * string -> tp_state -> tp_state;
  tp_finish : string * string -> option bytes -> tp_state -> tp_state
}.

Class TwoPhaseLaws (T : TwoPhase) := {
  tp_claimed : forall c st, tp_look c st = LFresh -> tp_look c (tp_claim c st) = LBusy;
  tp_recorded : forall c r st, tp_look c st = LBusy -> tp_look c (tp_finish c (Some r) st) = LReplay r;
  tp_released : forall c st, tp_ok st -> tp_look c st = LBusy -> tp_look c (tp_finish c None st) = LFresh;
  tp_ok_claim : forall c st, tp_ok st -> tp_ok (tp_claim c st);
  tp_ok_finish : forall c r st, tp_ok st -> tp_ok (tp_finish c r st);
  tp_claim_other : forall c c' st, tp_tenant (fst c) -> tp_tenant (fst c') -> c' <> c ->
    tp_look c' (tp_claim c st) = tp_look c' st;
  tp_finish_other : forall c c' r st, tp_tenant (fst c) -> tp_tenant (fst c') -> c' <> c ->
    tp_look c' (tp_finish c r st) = tp_look c' st
}.

(** ** Concurrent callers *)

(** What callers observe: a claim, the end of an operation (recorded, failed, or
    done but not recorded), an answer from the record. *)
Inductive act :=
| Started (c : string * string)
| Recorded (c : string * string) (r : bytes)
| Failed (c : string * string)
| Lost (c : string * string) (r : bytes)
| Replied (c : string * string) (r : bytes).

Definition act_key (a : act) : string * string :=
  match a with Started c | Recorded c _ | Failed c | Lost c _ | Replied c _ => c end.

(** The operation ran to its end. *)
Definition effect_of (c : string * string) (a : act) : bool :=
  match a with Recorded c' _ | Lost c' _ => bool_decide (c' = c) | _ => false end.

Definition lost_of (c : string * string) (a : act) : bool :=
  match a with Lost c' _ => bool_decide (c' = c) | _ => false end.

(** A caller of the key was told the result. *)
Definition told (c : string * string) (r : bytes) (a : act) : Prop := a = Recorded c r \/ a = Replied c r.

Section Concurrent.
Context {T : TwoPhase} {L : TwoPhaseLaws T}.

Inductive idem_step : tp_state -> act -> tp_state -> Prop :=
| step_start c st : tp_tenant (fst c) -> tp_look c st = LFresh -> idem_step st (Started c) (tp_claim c st)
| step_record c r st : tp_tenant (fst c) -> tp_look c st = LBusy -> idem_step st (Recorded c r) (tp_finish c (Some r) st)
| step_fail c st : tp_tenant (fst c) -> tp_look c st = LBusy -> idem_step st (Failed c) (tp_finish c None st)
| step_lost c r st : tp_tenant (fst c) -> tp_look c st = LBusy -> idem_step st (Lost c r) (tp_finish c None st)
| step_reply c r st : tp_tenant (fst c) -> tp_look c st = LReplay r -> idem_step st (Replied c r) st.

Inductive idem_run : tp_state -> list act -> tp_state -> Prop :=
| run_nil st : idem_run st [] st
| run_cons st a st1 l st2 : idem_step st a st1 -> idem_run st1 l st2 -> idem_run st (a :: l) st2.

Lemma step_other c st a st1 :
  tp_tenant (fst c) -> idem_step st a st1 -> act_key a <> c -> tp_look c st1 = tp_look c st.
Proof.
  intros Hc H Hne. destruct H; cbn in Hne;
    [apply tp_claim_other|apply tp_finish_other|apply tp_finish_other|apply tp_finish_other|]; auto; congruence.
Qed.

(** Once recorded, a key is only ever replayed. *)
Lemma run_recorded c r st l st' :
  tp_tenant (fst c) -> idem_run st l st' -> tp_look c st = LReplay r ->
  tp_look c st' = LReplay r /\ Forall (fun a => act_key a = c -> a = Replied c r) l.
Proof.
  intros Hc. induction 1 as [st|st a st1 l st2 Hs _ IH]; intros Hl; [done|].
  assert (Ha : tp_look c st1 = LReplay r /\ (act_key a = c -> a = Replied c r)).
  { destruct (decide (act_key a = c)) as [He|Hne]; [|by rewrite (step_other _ _ _ _ Hc Hs Hne)].
    destruct Hs; cbn in He; subst c0; rewrite Hl in *; try done. by split; [|intros _; congruence]. }
  destruct Ha as [H1 H2]. destruct (IH H1) as [H3 H4]. split; [done|by constructor].
Qed.

Lemma key_effect c a : act_key a <> c -> effect_of c a = false /\ forall r, ~ told c r a.
Proof.
  destruct a; cbn; intros Hne; (split; [by try (case_bool_decide)|]); intros x [?|?]; congruence.
Qed.

Lemma replies_no_effect c r l :
  Forall (fun a => act_key a = c -> a = Replied c r) l ->
  length (List.filter (effect_of c) l) = 0%nat /\ forall r', Exists (told c r') l -> r' = r.
Proof.
  induction 1 as [|a l Ha _ [IH1 IH2]]; [split; [done|]; intros r' H; by apply Exists_nil in H|].
  destruct (decide (act_key a = c)) as [He|Hne].
  - rewrite (Ha He). cbn. split; [done|]. intros r' [[?|?]|H]%Exists_cons; [done|congruence|by apply IH2].
  - destruct (key_effect _ _ Hne) as [E1 E2]. cbn. rewrite E1. split; [done|].
    intros r' [H|H]%Exists_cons; [by destruct (E2 r')|by apply IH2].
Qed.

Lemma step_ok st a st1 : idem_step st a st1 -> tp_ok st -> tp_ok st1.
Proof. destruct 1; auto using tp_ok_claim, tp_ok_finish. Qed.

Lemma run_fresh c st l st' :
  tp_tenant (fst c) -> idem_run st l st' -> tp_ok st -> tp_look c st = LFresh \/ tp_look c st = LBusy ->
  (length (List.filter (effect_of c) l) <= 1 + length (List.filter (lost_of c) l))%nat /\
  (exists r0, forall r, Exists (told c r) l -> r = r0).
Proof.
  intros Hc. induction 1 as [st|st a st1 l st2 Hs Hrun IH]; intros Hok Hl.
  - split; [cbn; lia|]. exists "". intros r H. by apply Exists_nil in H.
  - specialize (IH (step_ok _ _ _ Hs Hok)). destruct (decide (act_key a = c)) as [He|Hne].
    + destruct Hs; cbn in He; subst c0.
      * destruct (IH (or_intror (tp_claimed _ _ H0))) as [I1 [r0 I2]]. split; [exact I1|].
        exists r0. intros r [[?|?]|H']%Exists_cons; [done|done|by apply I2].
      * destruct (run_recorded c r _ _ _ Hc Hrun (tp_recorded _ _ _ H0)) as [_ Hf].
        destruct (replies_no_effect _ _ _ Hf) as [E1 E2]. cbn. rewrite bool_decide_true by done. cbn.
        split; [lia|]. exists r. intros r' [[?|?]|H']%Exists_cons; [congruence|done|by apply E2].
      * destruct (IH (or_introl (tp_released _ _ Hok H0))) as [I1 [r0 I2]]. split; [exact I1|].
        exists r0. intros r' [[?|?]|H']%Exists_cons; [done|done|by apply I2].
      * destruct (IH (or_introl (tp_released _ _ Hok H0))) as [I1 [r0 I2]]. cbn. rewrite bool_decide_true by done. cbn.
        split; [lia|]. exists r0. intros r' [[?|?]|H']%Exists_cons; [done|done|by apply I2].
      * destruct Hl; congruence.
    + rewrite <- (step_other _ _ _ _ Hc Hs Hne) in Hl. destruct (IH Hl) as [I1 [r0 I2]].
      destruct (key_effect _ _ Hne) as [E1 E2]. cbn. rewrite E1. split.
      * destruct (lost_of c a); cbn; lia.
      * exists r0. intros r [H'|H']%Exists_cons; [by destruct (E2 r)|by apply I2].
Qed.

(** C38: one effect per key, against the interface.  In every interleaving of
    callers, from a state where the key has no record: the operation of a key
    runs to its end at most once more than the number of times its result was
    lost after the fact (a failed commit), so at most once when no commit fails;
    and every caller that is told a result is told the same one. *)
Theorem one_effect_per_key c st l st' :
  tp_tenant (fst c) -> tp_ok st -> tp_look c st = LFresh -> idem_run st l st' ->
  (length (List.filter (effect_of c) l) <= 1 + length (List.filter (lost_of c) l))%nat /\
  forall r r', Exists (told c r) l -> Exists (told c r') l -> r = r'.
Proof.
  intros Hc Hok Hl Hrun. destruct (run_fresh c st l st' Hc Hrun Hok (or_introl Hl)) as [H1 [r0 H2]].
  split; [exact H1|]. intros r r' Hr Hr'. by rewrite (H2 _ Hr), (H2 _ Hr').
Qed.

End Concurrent.

(** ** The table implements the interface *)

(** Every committed row is completed: the pending row of a claim is only ever
    committed together with its result. *)
Definition all_completed (k : Keys) : Prop :=
  map_Forall (fun _ row => ik_status row = "completed" /\ exists r, ik_result row = Some r) k.

Definition look_of (c : claim) : look :=
  match c with
  | Answered (Ok r) => LReplay r
  | Answered (Err _) => LBusy
  | Claimed => LFresh
  end.

Lemma do_claim_lookup tenant key k :
  all_completed k ->
  do_claim None tenant key k =
  match k !! (tenant, key) with Some row => Answered (Ok (default "" (ik_result row))) | None => Claimed end.
Proof.
  intros Hk. unfold do_claim. destruct (k !! (tenant, key)) as [row|] eqn:E; [|done].
  destruct (Hk _ _ E) as [-> _]. done.
Qed.

Lemma do_finish_completed fault dbnow tenant key out k r k' :
  do_finish fault dbnow tenant key out k = (r, k') -> all_completed k -> all_completed k'.
Proof.
  unfold do_finish. intros H Hk. destruct out as [out|]; [|by injection H as _ <-].
  destruct fault as [[]|]; injection H as _ <-; try done; apply map_Forall_insert_2; eauto.
Qed.

#[local] Arguments do_claim : simpl never.

(** The keys that open transactions hold, beside the committed rows. *)
#[refine, export] Instance TableTwoPhase (dbnow : Z) : TwoPhase := {|
  tp_state := Keys * gset (string * string);
  tp_tenant := fun _ => True;
  tp_ok := fun st => all_completed (fst st);
  tp_look := fun c st =>
    match look_of (do_claim None (fst c) (snd c) (fst st)) with
    | LFresh => if decide (c ∈ snd st) then LBusy else LFresh
    | l => l
    end;
  tp_claim := fun c st => (fst st, {[ c ]} ∪ snd st);
  tp_finish := fun c out st =>
    (match out with
     | Some r => snd (do_finish None dbnow (fst c) (snd c) (Ok r) (fst st))
     | None => fst st
     end, snd st ∖ {[ c ]})
|}.
Proof. Defined.

#[export] Instance TableTwoPhase_laws dbnow : TwoPhaseLaws (TableTwoPhase dbnow).
Proof.
  split; cbn.
  - intros [t k] [m l]; cbn. destruct (look_of _) eqn:E; try done. intros _. by rewrite decide_True by set_solver.
  - intros [t k] r [m l] _. cbn. unfold do_claim. by rewrite lookup_insert_eq.
  - intros [t k] [m l] Hok. cbn [fst snd] in *. rewrite do_claim_lookup by done. destruct (m !! (t, k)); [done|].
    intros _. cbn. by rewrite decide_False by set_solver.
  - done.
  - intros [t k] [r|] [m l] Hok; cbn in *; [|done]. apply map_Forall_insert_2; eauto.
  - intros [t k] [t' k'] [m l] _ _ Hne. cbn. destruct (look_of _); try done.
    case_decide as H1; case_decide as H2; set_solver.
  - intros [t k] [t' k'] out [m l] _ _ Hne. cbn.
    assert (Hl : do_claim None t' k'
        match out with Some r => <[(t, k) := mkIdem "completed" (Some r) (Some dbnow)]> m | None => m end
      = do_claim None t' k' m) by (destruct out; [unfold do_claim; by rewrite lookup_insert_ne|done]).
    rewrite Hl. destruct (look_of _); try done. case_decide as H1; case_decide as H2; set_solver.
Qed.

(** ** The map implements it for tenant ids without the separator *)

Fixpoint has_bar (s : string) : bool :=
  match s with
  | EmptyString => false
  | String c s' => Ascii.eqb c "|" || has_bar s'
  end.

Lemma full_key_inj t1 t2 k1 k2 :
  has_bar t1 = false -> has_bar t2 = false -> full_key t1 k1 = full_key t2 k2 -> t1 = t2 /\ k1 = k2.
Proof.
  unfold full_key. revert t2. induction t1 as [|c t1 IH]; intros [|d t2] H1 H2 H; cbn in *.
  - injection H as H. split; [done|exact H].
  - injection H as <- _. done.
  - injection H as -> _. done.
  - injection H as -> H. apply orb_false_iff in H1 as [_ H1], H2 as [_ H2].
    destruct (IH t2 H1 H2 H) as [-> ->]. done.
Qed.

#[refine, export] Instance MemoryTwoPhase : TwoPhase := {|
  tp_state := Memory;
  tp_tenant := fun t => has_bar t = false;
  tp_ok := fun _ => True;
  tp_look := fun c m => look_of (fst (mem_claim (fst c) (snd c) m));
  tp_claim := fun c m => snd (mem_claim (fst c) (snd c) m);
  tp_finish := fun c out m =>
    snd (mem_finish (fst c) (snd c) (match out with Some r => Ok r | None => Err "" end) m)
|}.
Proof. Defined.

Lemma mem_claim_look t k m :
  look_of (fst (mem_claim t k m)) =
  match m_done m !! full_key t k with
  | Some r => LReplay r
  | None => if decide (full_key t k ∈ m_inflight m) then LBusy else LFresh
  end.
Proof. unfold mem_claim. destruct (m_done m !! _); [done|]. by case_decide. Qed.

Lemma mem_claim_fresh t k m :
  look_of (fst (mem_claim t k m)) = LFresh ->
  snd (mem_claim t k m) = mkMemory (m_done m) ({[ full_key t k ]} ∪ m_inflight m) /\ m_done m !! full_key t k = None.
Proof. unfold mem_claim. destruct (m_done m !! _); [done|]. by case_decide. Qed.

#[export] Instance MemoryTwoPhase_laws : TwoPhaseLaws MemoryTwoPhase.
Proof.
  split; cbn; try done.
  - intros [t k] m H. cbn in *. destruct (mem_claim_fresh _ _ _ H) as [-> Hd]. rewrite mem_claim_look. cbn.
    by rewrite Hd, decide_True by set_solver.
  - intros [t k] r m _. rewrite mem_claim_look. cbn. by rewrite lookup_insert_eq.
  - intros [t k] m _. cbn. rewrite !mem_claim_look. cbn. destruct (m_done m !! _); [done|].
    intros _. by rewrite decide_False by set_solver.
  - intros [t k] [t' k'] m Ht Ht' Hne. cbn in *.
    assert (Hf : full_key t' k' <> full_key t k) by (intros H; apply full_key_inj in H as [-> ->]; done).
    rewrite !mem_claim_look. unfold mem_claim. destruct (m_done m !! full_key t k); [done|].
    case_decide; [done|]. cbn. destruct (m_done m !! full_key t' k'); [done|].
    case_decide as H1; case_decide as H2; set_solver.
  - intros [t k] [t' k'] out m Ht Ht' Hne. cbn in *.
    assert (Hf : full_key t' k' <> full_key t k) by (intros H; apply full_key_inj in H as [-> ->]; done).
    rewrite !mem_claim_look. destruct out; cbn; rewrite ?lookup_insert_ne by done;
      (destruct (m_done m !! full_key t' k'); [done|]); case_decide as H1; case_decide as H2; set_solver.
Qed.

(** ** One call of the table *)

(** a call of [Do], on every branch.  Whatever fails, only completed rows
    are committed, so that neither [Do] nor [Result] ever reports an operation
    in progress; other keys are untouched; a call that fails leaves the table
    as it was, so that a retry may run; a call that succeeds returns what
    [Result] returns from then on; and the operation runs if and only if the
    key had no row and could be claimed. *)
Theorem Do_spec {W} fault dbnow tenant key (fn : W -> result string bytes * W) k w r k' w' :
  all_completed k -> Do fault dbnow tenant key fn k w = (r, k', w') ->
  all_completed k' /\ r <> Err ErrInProgress /\ Result tenant key k' <> Err ErrInProgress /\
  (forall t x, (t, x) <> (tenant, key) -> k' !! (t, x) = k !! (t, x)) /\
  match r with
  | Ok out => Result tenant key k' = Ok out
  | Err _ => k' = k
  end /\
  (if decide (is_Some (k !! (tenant, key)) \/ fault = Some FaultClaim) then w' = w /\ k' = k else w' = snd (fn w)).
Proof.
  intros Hk H.
  assert (Hres : forall k1, all_completed k1 -> Result tenant key k1 <> Err ErrInProgress).
  { intros k1 H1. unfold Result. destruct (k1 !! (tenant, key)) as [row|] eqn:E; [|done]. by destruct (H1 _ _ E) as [-> _]. }
  unfold Do in H. destruct (do_claim fault tenant key k) as [a|] eqn:E.
  - injection H as <- <- <-. unfold do_claim in E.
    assert (Hc : a <> Err ErrInProgress /\ match a with Ok out => Result tenant key k = Ok out | Err _ => k = k end /\
      (is_Some (k !! (tenant, key)) \/ fault = Some FaultClaim)).
    { unfold Result. destruct fault as [[]|]; [injection E as <-; naive_solver| | | |];
        (destruct (k !! (tenant, key)) as [row|] eqn:Er; [|done]); destruct (Hk _ _ Er) as [Hst _]; rewrite ?Hst in *;
        cbn in E |- *; injection E as <-; naive_solver. }
    destruct Hc as (Ha & Hm & Hd). split_and!; auto. by rewrite decide_True.
  - assert (Hn : k !! (tenant, key) = None /\ fault <> Some FaultClaim).
    { unfold do_claim in E. destruct fault as [[]|]; [done| | | |]; (destruct (k !! _); [|by split]); by repeat case_in E. }
    destruct Hn as [Hn Hf]. destruct (fn w) as [out w1] eqn:Hfn.
    destruct (do_finish fault dbnow tenant key out k) as [r1 k1] eqn:Hfin. injection H as <- <- <-.
    pose proof (do_finish_completed _ _ _ _ _ _ _ _ Hfin Hk) as Hk1. unfold do_finish in Hfin.
    rewrite decide_False by (rewrite Hn; intros [[? ?]|?]; done).
    assert (Hcases : (exists out', r1 = Ok out' /\ k1 = <[(tenant, key) := mkIdem "completed" (Some out') (Some dbnow)]> k) \/
      (exists e, r1 = Err e /\ e <> ErrInProgress /\ k1 = k)).
    { destruct out as [out|]; [destruct fault as [[]|]|]; injection Hfin as <- <-; naive_solver. }
    destruct Hcases as [(out' & -> & ->)|(e & -> & He & ->)].
    + split_and!; auto; [intros t x Hx; by rewrite lookup_insert_ne|]. unfold Result. by rewrite lookup_insert_eq.
    + split_and!; auto. congruence.
Qed.

(** within the retention window a retry is answered from the record.  A
    sweep removes exactly the rows completed before the window, counts them,
    and never touches a row that is not completed; after it, a call with a key
    completed within the window still returns the recorded result and does not
    run the operation. *)
Theorem Sweep_keeps_window {W} retention now dbnow tenant key (fn : W -> result string bytes * W) k w :
  all_completed k ->
  let '(n, k') := Sweep retention now k in
  n = Count k - Count k' /\
  (forall c row, k' !! c = Some row <->
     k !! c = Some row /\ ~ (exists t, ik_completed_at row = Some t /\ t < now - retention)) /\
  (forall row t r, k !! (tenant, key) = Some row -> ik_completed_at row = Some t -> now - retention <= t ->
     ik_result row = Some r -> Do None dbnow tenant key fn k' w = (Ok r, k', w)).
Proof.
  intros Hk. unfold Sweep. cbn zeta.
  assert (Hex : forall row, expired (now - retention) row = false <->
    ~ (exists t, ik_completed_at row = Some t /\ t < now - retention)).
  { intros row. unfold expired. destruct (ik_completed_at row) as [t|]; [|naive_solver].
    rewrite Z.ltb_ge. split; [intros Hl (x & [= <-] & Hx); lia|]. intros Hno.
    destruct (Z.le_gt_cases (now - retention) t); [done|]. exfalso. eauto with lia. }
  assert (Hlook : forall c row, filter (fun p : string * string * IdemRow => expired (now - retention) (snd p) = false) k !! c
    = Some row <-> k !! c = Some row /\ ~ (exists t, ik_completed_at row = Some t /\ t < now - retention)).
  { intros c row. rewrite map_lookup_filter_Some. cbn. by rewrite Hex. }
  split_and!.
  - unfold Count.
    rewrite <- (map_filter_union_complement (fun p : string * string * IdemRow => expired (now - retention) (snd p) = true) k) at 2.
    rewrite map_size_disj_union by apply map_disjoint_filter_complement.
    assert (Hc : filter (fun p : string * string * IdemRow => ~ expired (now - retention) (snd p) = true) k =
      filter (fun p : string * string * IdemRow => expired (now - retention) (snd p) = false) k).
    { apply map_filter_ext. intros c row _. cbn. by rewrite not_true_iff_false. }
    rewrite Hc. lia.
  - exact Hlook.
  - intros row t r Hrow Ht Hle Hr. unfold Do. rewrite do_claim_lookup.
    + assert (Hin : filter (fun p : string * string * IdemRow => expired (now - retention) (snd p) = false) k !! (tenant, key) = Some row).
      { apply Hlook. split; [done|]. rewrite Ht. intros (x & [= <-] & Hx). lia. }
      by rewrite Hin, Hr.
    + intros c row' [H _]%map_lookup_filter_Some. by eapply Hk.
Qed.

(** an operation whose commit fails runs again.  The effects of the
    operation are not part of the transaction that records its result: when that
    transaction fails after the operation succeeded, the caller gets an error,
    the key stays free, and a retry runs the operation a second time on top of
    the first. *)
Theorem lost_commit_runs_twice {W} dbnow dbnow' tenant key (fn : W -> result string bytes * W) k w out w1 out' w2 :
  k !! (tenant, key) = None -> fn w = (Ok out, w1) -> fn w1 = (Ok out', w2) ->
  Do (Some FaultCommit) dbnow tenant key fn k w = (Err CommitError, k, w1) /\
  Do None dbnow' tenant key fn k w1 =
    (Ok out', <[(tenant, key) := mkIdem "completed" (Some out') (Some dbnow')]> k, w2).
Proof.
  intros Hk H1 H2. unfold Do, do_claim. rewrite Hk, H1, H2. done.
Qed.

(** ** Witnesses: an operation that counts its runs *)

Definition demo_fn (w : Z) : result string bytes * Z := (Ok "done", w + 1).

Lemma Do_spec_witness :
  Result "t1" "k1" (snd (fst (Do None 5 "t1" "k1" demo_fn ∅ 0))) = Ok "done".
Proof.
  destruct (Do None 5 "t1" "k1" demo_fn ∅ 0) as [[r k'] w'] eqn:E.
  destruct (Do_spec None 5 "t1" "k1" demo_fn ∅ 0 r k' w') as (_ & _ & _ & _ & H & _);
    [apply map_Forall_empty|exact E|].
  vm_compute in E. injection E as <- _ _. exact H.
Defined.

Lemma Sweep_keeps_window_witness :
  Do None 9 "t1" "k1" demo_fn (snd (Sweep 10 12 {[ ("t1", "k1") := mkIdem "completed" (Some "done") (Some 5) ]})) 3
  = (Ok "done", snd (Sweep 10 12 {[ ("t1", "k1") := mkIdem "completed" (Some "done") (Some 5) ]}), 3).
Proof.
  pose proof (Sweep_keeps_window 10 12 9 "t1" "k1" demo_fn
    {[ ("t1", "k1") := mkIdem "completed" (Some "done") (Some 5) ]} 3) as H.
  destruct (Sweep 10 12 {[ ("t1", "k1") := mkIdem "completed" (Some "done") (Some 5) ]}) as [n k'].
  destruct H as (_ & _ & H); [apply map_Forall_singleton; cbn; eauto|].
  apply (H (mkIdem "completed" (Some "done") (Some 5)) 5); [apply lookup_singleton_eq|reflexivity|lia|reflexivity].
Defined.

Lemma lost_commit_runs_twice_witness :
  Do (Some FaultCommit) 5 "t1" "k1" demo_fn ∅ 0 = (Err CommitError, ∅, 1) /\
  snd (Do None 6 "t1" "k1" demo_fn ∅ 1) = 2.
Proof.
  destruct (lost_commit_runs_twice 5 6 "t1" "k1" demo_fn ∅ 0 "done" 1 "done" 2) as [H1 H2];
    [reflexivity|reflexivity|reflexivity|].
  split; [exact H1|]. rewrite H2. reflexivity.
Defined.

(** Two callers of one key of the map: the second is told what the first got. *)
Definition demo_acts : list act :=
  [Started ("t1", "k1"); Recorded ("t1", "k1") "done"; Replied ("t1", "k1") "done"].

Lemma one_effect_per_key_witness :
  (length (List.filter (effect_of ("t1", "k1")) demo_acts) <= 1 + 0)%nat.
Proof.
  destruct (one_effect_per_key (T := MemoryTwoPhase) ("t1", "k1") NewMemory demo_acts
    (snd (mem_finish "t1" "k1" (Ok "done") (snd (mem_claim "t1" "k1" NewMemory))))) as [H _].
  - reflexivity.
  - exact I.
  - reflexivity.
  - eapply run_cons; [apply step_start; reflexivity|].
    eapply run_cons; [apply step_record; reflexivity|].
    eapply run_cons; [apply step_reply; reflexivity|]. apply run_nil.
  - exact H.
Defined.

End Idempotency.
