(* ===== verification/Approval.v ===== *)
(** * Approval: issuance under dual control

    Models [src/internal/approval/approval.go].  The store of requests, the
    approver policy, the notifier and the issuer are interfaces of the code: the
    store is a class with laws and [MemoryStore] its instance, the others are
    parameters, and the issuer and notifier act on a world of their own.  A
    manager takes no lock between reading a request and saving it, so [Approve]
    is split into [Get] and [approve_with] and the invariant is proved for every
    interleaving of the halves of concurrent callers. *)

From S2P Require Import Prelude Idempotency.
Open Scope string_scope.
Open Scope list_scope.
Open Scope Z_scope.

Module Approval.

Inductive State := StateAwaitingApproval | StateApproved | StateDenied | StateIssued | StateExpired.

#[export] Instance State_eq_dec : EqDecision State.
Proof. solve_decision. Defined.

Definition KindCertIssuance : string := "cert_issuance".
Definition KindProfileEdit : string := "profile_edit".

Record Approval := mkApproval { a_Approver : string; a_Decision : string; a_At : Z }.

Record Request := mkRequest {
  r_ID : string;
  r_TenantID : string;
  r_Kind : string;
  r_Resource : string;
  r_Requester : string;
  r_RequiredApprovals : Z;
  r_Approvals : list Approval;
  r_State : State;
  r_CredentialID : string;
  r_Payload : string;
  r_CreatedAt : Z;
  r_ExpiresAt : Z
}.

Definition with_state (st : State) (r : Request) : Request :=
  mkRequest (r_ID r) (r_TenantID r) (r_Kind r) (r_Resource r) (r_Requester r) (r_RequiredApprovals r)
    (r_Approvals r) st (r_CredentialID r) (r_Payload r) (r_CreatedAt r) (r_ExpiresAt r).

Definition with_approval (a : Approval) (r : Request) : Request :=
  mkRequest (r_ID r) (r_TenantID r) (r_Kind r) (r_Resource r) (r_Requester r) (r_RequiredApprovals r)
    (r_Approvals r ++ [a]) (r_State r) (r_CredentialID r) (r_Payload r) (r_CreatedAt r) (r_ExpiresAt r).

Definition with_credential (c : string) (r : Request) : Request :=
  mkRequest (r_ID r) (r_TenantID r) (r_Kind r) (r_Resource r) (r_Requester r) (r_RequiredApprovals r)
    (r_Approvals r) (r_State r) c (r_Payload r) (r_CreatedAt r) (r_ExpiresAt r).

Record RequestSpec := mkSpec {
  sp_ID : string;
  sp_Kind : string;
  sp_Resource : string;
  sp_Requester : string;
  sp_Payload : string;
  sp_RequiredApprovals : Z;
  sp_TTL : Z
}.

(** ** The store of requests *)

Class Store := {
  SState : Type;
  Save : Request -> SState -> result string SState;
  Get_ : string -> string -> SState -> result string (option Request);
  store_ok : SState -> Prop;
  store_tenant : string -> Prop
}.

(** What the manager relies on: a request is read back as saved, under its own
    tenant and id, and saving it disturbs no other. *)
Class StoreLaws (S : Store) := {
  save_ok : forall r st st', store_ok st -> store_tenant (r_TenantID r) -> Save r st = Ok st' -> store_ok st';
  save_get : forall r st st', Save r st = Ok st' -> Get_ (r_TenantID r) (r_ID r) st' = Ok (Some r);
  save_other : forall r st st' t i, store_tenant (r_TenantID r) -> store_tenant t -> Save r st = Ok st' ->
    (t, i) <> (r_TenantID r, r_ID r) -> Get_ t i st' = Get_ t i st;
  get_key : forall st t i r, store_ok st -> store_tenant t -> Get_ t i st = Ok (Some r) ->
    r_TenantID r = t /\ r_ID r = i
}.

Definition MemoryStore_Save (r : Request) (m : gmap string Request) : result string (gmap string Request) :=
  Ok (<[Idempotency.full_key (r_TenantID r) (r_ID r) := r]> m).

Definition MemoryStore_Get (tenantID id : string) (m : gmap string Request) : result string (option Request) :=
  Ok (m !! Idempotency.full_key tenantID id).

Definition memory_keyed (m : gmap string Request) : Prop :=
  map_Forall (fun k r => k = Idempotency.full_key (r_TenantID r) (r_ID r) /\ Idempotency.has_bar (r_TenantID r) = false) m.

Definition MemoryStore : Store := {|
  SState := gmap string Request;
  Save := MemoryStore_Save;
  Get_ := MemoryStore_Get;
  store_ok := memory_keyed;
  store_tenant := fun t => Idempotency.has_bar t = false
|}.

(** ** The manager *)

Inductive apprError :=
| TenantRequired
| StoreAndIssuerRequired
| MissingFields
| StoreError (text : string)
| UnknownRequest (id : string)
| RequestExpired (id : string)
| SelfApproval
| NotPermitted (approver id reason : string)
| IssueFailed (text : string)
| AlreadyIssued (id : string).

Inductive auditEvent :=
| AuditRequested (id requester resource : string) (required : Z)
| AuditExpired (id : string)
| AuditRefused (id approver reason : string)
| AuditApproved (id approver requester : string)
| AuditIssued (id credential : string)
| AuditDenied (id approver reason : string).

(** The configuration after the defaults of [New]; a nil policy or notifier is
    [None]. *)
Record Config (W : Type) := mkConfig {
  c_TenantID : string;
  c_Policy : option (string -> string -> string -> bool * string);
  c_Notifier : option (Request -> W -> W);
  c_Issuer : string -> string -> string -> W -> result string string * W;
  c_DefaultTTL : Z;
  c_DefaultRequiredApprovals : Z
}.
Arguments mkConfig {W}.
Arguments c_TenantID {W}.
Arguments c_Policy {W}.
Arguments c_Notifier {W}.
Arguments c_Issuer {W}.
Arguments c_DefaultTTL {W}.
Arguments c_DefaultRequiredApprovals {W}.

Definition hour : Z := 3600 * 1000000000.

Definition New {W} (tenantID : string) (store_set : bool) policy notifier
    (issuer : option (string -> string -> string -> W -> result string string * W)) (ttl required : Z)
  : result apprError (Config W) :=
  if String.eqb tenantID "" then Err TenantRequired else
  match issuer, store_set with
  | Some issuer, true =>
      Ok (mkConfig tenantID policy notifier issuer
            (if ttl <=? 0 then hour else ttl) (if required <=? 0 then 2 else required))
  | _, _ => Err StoreAndIssuerRequired
  end.

Definition approveCount (r : Request) : Z :=
  Z.of_nat (length (List.filter (fun a => String.eqb (a_Decision a) "approve") (r_Approvals r))).

Section Manager.
Context {S : Store} {W : Type} (cfg : Config W).

Record Mgr := mkMgr { mg_store : SState; mg_world : W; mg_audit : list auditEvent }.

Definition audit (e : auditEvent) (m : Mgr) : Mgr := mkMgr (mg_store m) (mg_world m) (mg_audit m ++ [e]).

(** Saves the request; an error leaves the store as it was. *)
Definition save (r : Request) (m : Mgr) : option string * Mgr :=
  match Save r (mg_store m) with
  | Ok st => (None, mkMgr st (mg_world m) (mg_audit m))
  | Err text => (Some text, m)
  end.

(** A call returns a request (the zero request is [None]) and an error. *)
Definition ret : Type := option Request * option apprError.

Definition RequestIssuance (now : Z) (spec : RequestSpec) (m : Mgr) : ret * Mgr :=
  if String.eqb (sp_ID spec) "" || String.eqb (sp_Requester spec) "" || String.eqb (sp_Resource spec) ""
  then ((None, Some MissingFields), m) else
  let ttl := if sp_TTL spec <=? 0 then c_DefaultTTL cfg else sp_TTL spec in
  let kind := if String.eqb (sp_Kind spec) "" then KindCertIssuance else sp_Kind spec in
  let required := if sp_RequiredApprovals spec <=? 0 then c_DefaultRequiredApprovals cfg else sp_RequiredApprovals spec in
  let req := mkRequest (sp_ID spec) (c_TenantID cfg) kind (sp_Resource spec) (sp_Requester spec) required []
               StateAwaitingApproval "" (sp_Payload spec) now (now + ttl) in
  match save req m with
  | (Some text, m) => ((None, Some (StoreError text)), m)
  | (None, m) =>
      let w := match c_Notifier cfg with Some f => f req (mg_world m) | None => mg_world m end in
      ((Some req, None),
       audit (AuditRequested (r_ID req) (r_Requester req) (r_Resource req) required) (mkMgr (mg_store m) w (mg_audit m)))
  end.

(** The reading half of [Approve] and [Deny], which is also [Get]. *)
Definition Get (tenantID reqID : string) (m : Mgr) : result apprError Request :=
  match Get_ tenantID reqID (mg_store m) with
  | Err text => Err (StoreError text)
  | Ok None => Err (UnknownRequest reqID)
  | Ok (Some r) => Ok r
  end.

Definition allowed (tenantID reqID approver : string) : bool * string :=
  match c_Policy cfg with
  | Some p => p tenantID reqID approver
  | None => (true, "")
  end.

Definition has_approved (approver : string) (r : Request) : bool :=
  existsb (fun a => String.eqb (a_Approver a) approver && String.eqb (a_Decision a) "approve") (r_Approvals r).

Definition is_state (st : State) (r : Request) : bool := bool_decide (r_State r = st).

(** The rest of [Approve], on the request that was read. *)
Definition approve_with (now : Z) (tenantID reqID approver : string) (req : Request) (m : Mgr) : ret * Mgr :=
  if is_state StateIssued req || is_state StateDenied req then ((Some req, None), m) else
  if is_state StateExpired req || (r_ExpiresAt req <? now) then
    if negb (is_state StateExpired req) then
      let req := with_state StateExpired req in
      ((Some req, Some (RequestExpired reqID)), audit (AuditExpired (r_ID req)) (snd (save req m)))
    else ((Some req, Some (RequestExpired reqID)), m)
  else if String.eqb approver (r_Requester req) then
    ((Some req, Some SelfApproval), audit (AuditRefused (r_ID req) approver "self-approval") m)
  else let '(ok, reason) := allowed tenantID reqID approver in
  if negb ok then
    ((Some req, Some (NotPermitted approver reqID reason)), audit (AuditRefused (r_ID req) approver reason) m)
  else if has_approved approver req then ((Some req, None), m)
  else
    let req := with_approval (mkApproval approver "approve" now) req in
    let m := audit (AuditApproved (r_ID req) approver (r_Requester req)) m in
    let finish (req : Request) (m : Mgr) : ret * Mgr :=
      match save req m with
      | (Some text, m) => ((None, Some (StoreError text)), m)
      | (None, m) => ((Some req, None), m)
      end in
    if r_RequiredApprovals req <=? approveCount req then
      let req := with_state StateApproved req in
      let '(cred, w) := c_Issuer cfg tenantID reqID (r_Resource req) (mg_world m) in
      let m := mkMgr (mg_store m) w (mg_audit m) in
      match cred with
      | Err text => ((Some req, Some (IssueFailed text)), snd (save req m))
      | Ok credID =>
          let req := with_credential credID (with_state StateIssued req) in
          finish req (audit (AuditIssued (r_ID req) credID) m)
      end
    else finish req m.

Definition Approve (now : Z) (tenantID reqID approver : string) (m : Mgr) : ret * Mgr :=
  match Get tenantID reqID m with
  | Err e => ((None, Some e), m)
  | Ok req => approve_with now tenantID reqID approver req m
  end.

(** The rest of [Deny]. *)
Definition deny_with (now : Z) (tenantID reqID approver reason : string) (req : Request) (m : Mgr) : ret * Mgr :=
  if is_state StateIssued req then ((Some req, Some (AlreadyIssued reqID)), m) else
  if is_state StateDenied req then ((Some req, None), m) else
  let req := with_state StateDenied (with_approval (mkApproval approver "deny" now) req) in
  match save req m with
  | (Some text, m) => ((None, Some (StoreError text)), m)
  | (None, m) => ((Some req, None), audit (AuditDenied (r_ID req) approver reason) m)
  end.

Definition Deny (now : Z) (tenantID reqID approver reason : string) (m : Mgr) : ret * Mgr :=
  match Get tenantID reqID m with
  | Err e => ((None, Some e), m)
  | Ok req => deny_with now tenantID reqID approver reason req m
  end.

End Manager.

(** ** The in-process store keeps its promise *)

#[export] Instance MemoryStore_laws : StoreLaws MemoryStore.
Proof.
  split; cbn.
  - intros r st st' Hok Ht H. injection H as <-. by apply map_Forall_insert_2.
  - intros r st st' H. injection H as <-. unfold MemoryStore_Get. by rewrite lookup_insert_eq.
  - intros r st st' t i Hr Ht H Hne. injection H as <-. unfold MemoryStore_Get. rewrite lookup_insert_ne; [done|].
    intros Hk. apply Idempotency.full_key_inj in Hk as [? ?]; [congruence|done|done].
  - intros st t i r Hok Ht H. injection H as H. destruct (Hok _ _ H) as [Hk Hb].
    by apply Idempotency.full_key_inj in Hk as [? ?].
Qed.

(** ** Dual control *)

Section Proofs.
Context {S : Store} {SL : StoreLaws S} {W : Type} (cfg : Config W).

Definition approvals_of (r : Request) : list Approval :=
  List.filter (fun a => String.eqb (a_Decision a) "approve") (r_Approvals r).

Definition approvers (r : Request) : list string := a_Approver <$> approvals_of r.

(** What dual control promises about a request. *)
Record valid (r : Request) : Prop := {
  v_required : 1 <= r_RequiredApprovals r;
  v_distinct : NoDup (approvers r);
  v_other : ~ (r_Requester r ∈ approvers r);
  v_allowed : Forall (fun a => fst (allowed cfg (r_TenantID r) (r_ID r) a) = true) (approvers r);
  v_time : Forall (fun a => a_At a <= r_ExpiresAt r) (approvals_of r);
  v_quorum : r_State r = StateApproved \/ r_State r = StateIssued ->
    r_RequiredApprovals r <= Z.of_nat (length (approvers r))
}.

Lemma approveCount_approvers r : approveCount r = Z.of_nat (length (approvers r)).
Proof. unfold approveCount, approvers. by rewrite length_fmap. Qed.

Lemma has_approved_spec approver r : has_approved approver r = true <-> approver ∈ approvers r.
Proof.
  unfold has_approved, approvers, approvals_of. rewrite existsb_exists, list_elem_of_fmap. split.
  - intros (a & Hin & [Ha Hd]%andb_true_iff). apply String.eqb_eq in Ha as <-. exists a. split; [done|].
    apply list_elem_of_In, filter_In. by split.
  - intros (a & -> & Hin). apply list_elem_of_In, filter_In in Hin as [Hin Hd].
    exists a. split; [done|]. by rewrite String.eqb_refl.
Qed.

Lemma approvals_of_snoc r a :
  approvals_of (with_approval a r) = approvals_of r ++ (if String.eqb (a_Decision a) "approve" then [a] else []).
Proof. unfold approvals_of. cbn. rewrite List.filter_app. cbn. by case_goal. Qed.

Lemma has_approved_snoc now approver r : has_approved approver (with_approval (mkApproval approver "approve" now) r) = true.
Proof.
  apply has_approved_spec. unfold approvers. rewrite approvals_of_snoc. cbn. rewrite fmap_app.
  apply elem_of_app. right. by left.
Qed.

Lemma valid_state st r :
  valid r -> (st = StateApproved \/ st = StateIssued -> r_RequiredApprovals r <= approveCount r) ->
  valid (with_state st r).
Proof. intros [] H. split; try done. intros Hs. specialize (H Hs). by rewrite approveCount_approvers in H. Qed.

Lemma valid_credential c r : valid r -> valid (with_credential c r).
Proof. intros []. by split. Qed.

Lemma valid_deny now approver r :
  valid r -> valid (with_state StateDenied (with_approval (mkApproval approver "deny" now) r)).
Proof.
  intros []. assert (He : approvals_of (with_approval (mkApproval approver "deny" now) r) = approvals_of r)
    by (rewrite approvals_of_snoc; by rewrite app_nil_r).
  split; unfold approvers in *; change (approvals_of (with_state ?s ?x)) with (approvals_of x); rewrite ?He; try done.
  cbn. intros [?|?]; done.
Qed.

Lemma valid_approve now approver r :
  valid r -> approver <> r_Requester r -> fst (allowed cfg (r_TenantID r) (r_ID r) approver) = true ->
  has_approved approver r = false -> now <= r_ExpiresAt r ->
  valid (with_approval (mkApproval approver "approve" now) r).
Proof.
  intros [] Hself Hal Hnew Hnow.
  assert (Hn : ~ (approver ∈ approvers r)) by (rewrite <- has_approved_spec; congruence).
  assert (He : approvers (with_approval (mkApproval approver "approve" now) r) = approvers r ++ [approver]).
  { unfold approvers. rewrite approvals_of_snoc. cbn. by rewrite fmap_app. }
  split; rewrite ?He; cbn [with_approval r_Requester r_TenantID r_ID r_ExpiresAt r_State r_RequiredApprovals]; try done.
  - apply NoDup_app. split_and!; [done| |apply NoDup_singleton]. intros x Hx Hx'%list_elem_of_singleton. congruence.
  - rewrite elem_of_app, list_elem_of_singleton. intros [?|?]; [done|congruence].
  - apply Forall_app. split; [done|]. by repeat constructor.
  - rewrite approvals_of_snoc. apply Forall_app. split; [done|]. by repeat constructor.
  - intros Hs. rewrite length_app. cbn. specialize (v_quorum0 Hs). lia.
Qed.

(** The call left the store alone, or saved a request that is valid if the one
    it started from was. *)
Definition saves (t i : string) (r : Request) (m m' : Mgr (W := W)) : Prop :=
  mg_store m' = mg_store m \/
  exists r', Save r' (mg_store m) = Ok (mg_store m') /\ r_TenantID r' = r_TenantID r /\ r_ID r' = r_ID r /\
    (valid r -> r_TenantID r = t -> r_ID r = i -> valid r').

Lemma save_saves t i r r' (m0 m : Mgr (W := W)) :
  mg_store m = mg_store m0 -> r_TenantID r' = r_TenantID r -> r_ID r' = r_ID r ->
  (valid r -> r_TenantID r = t -> r_ID r = i -> valid r') -> saves t i r m0 (snd (save r' m)).
Proof.
  intros Hs Ht Hi Hv. unfold saves, save. destruct (Save r' (mg_store m)) as [st|] eqn:E; cbn; [right|by left].
  exists r'. rewrite <- Hs. by split_and!.
Qed.

Lemma approve_with_saves now t i approver r (m m' : Mgr) out :
  approve_with cfg now t i approver r m = (out, m') -> saves t i r m m'.
Proof.
  unfold approve_with. destruct (is_state StateIssued r || is_state StateDenied r); [intros [= _ <-]; by left|].
  destruct (is_state StateExpired r || (r_ExpiresAt r <? now)) eqn:He.
  { destruct (negb _); intros [= _ <-]; [|by left].
    change (saves t i r m (snd (save (with_state StateExpired r) m))).
    apply save_saves; try done. intros Hv _ _. apply valid_state; [done|]. intros [?|?]; done. }
  apply orb_false_iff in He as [_ Hnow]. apply Z.ltb_ge in Hnow.
  destruct (String.eqb_spec approver (r_Requester r)) as [|Hself]; [intros [= _ <-]; by left|].
  destruct (allowed cfg t i approver) as [ok reason] eqn:Hal. destruct ok; cbn [negb]; [|intros [= _ <-]; by left].
  destruct (has_approved approver r) eqn:Hnew; [intros [= _ <-]; by left|].
  set (r1 := with_approval (mkApproval approver "approve" now) r). set (m1 := audit _ m).
  assert (Hv1 : valid r -> r_TenantID r = t -> r_ID r = i -> valid r1).
  { intros Hv Ht Hi. apply valid_approve; try done. by rewrite Ht, Hi, Hal. }
  assert (Hfin : forall r2 m2, mg_store m2 = mg_store m -> r_TenantID r2 = r_TenantID r -> r_ID r2 = r_ID r ->
    (valid r -> r_TenantID r = t -> r_ID r = i -> valid r2) ->
    saves t i r m (snd (let (o, m3) := save r2 m2 in
      match o with Some text => ((None, Some (StoreError text)), m3) | None => ((Some r2, None), m3) end))).
  { intros r2 m2 Hm2 Ht2 Hi2 Hv2. pose proof (save_saves t i r r2 m m2 Hm2 Ht2 Hi2 Hv2) as Hs.
    destruct (save r2 m2) as [[text|] m3]; exact Hs. }
  destruct (r_RequiredApprovals r1 <=? approveCount r1) eqn:Hq.
  - apply Z.leb_le in Hq. destruct (c_Issuer cfg _ _ _ _) as [[cred|text] w]; intros H; apply (f_equal snd) in H; cbn [snd] in H;
      subst m'.
    + apply Hfin; try done. intros Hv Ht Hi. apply valid_credential, valid_state; [by apply valid_state; auto|done].
    + apply save_saves; try done. intros Hv Ht Hi. by apply valid_state; auto.
  - intros H. apply (f_equal snd) in H. cbn [snd] in H. subst m'. by apply Hfin.
Qed.

Lemma deny_with_saves now t i approver reason r (m m' : Mgr (W := W)) out :
  deny_with now t i approver reason r m = (out, m') -> saves t i r m m'.
Proof.
  unfold deny_with. destruct (is_state StateIssued r); [intros [= _ <-]; by left|].
  destruct (is_state StateDenied r); [intros [= _ <-]; by left|].
  set (r1 := with_state _ _).
  pose proof (save_saves t i r r1 m m eq_refl eq_refl eq_refl (fun Hv _ _ => valid_deny now approver r Hv)) as Hs.
  destruct (save r1 m) as [[text|] m1]; intros [= _ <-]; exact Hs.
Qed.

(** Concurrent callers: each reads a request and acts on what it read later. *)
Record Conc := mkConc { cc_mgr : Mgr (W := W); cc_reads : list (string * string * Request) }.

Inductive conc_step : Conc -> Conc -> Prop :=
| conc_request now spec out m m' reads :
    RequestIssuance cfg now spec m = (out, m') -> conc_step (mkConc m reads) (mkConc m' reads)
| conc_read t i r m reads :
    store_tenant t -> Get t i m = Ok r -> conc_step (mkConc m reads) (mkConc m ((t, i, r) :: reads))
| conc_approve now t i approver r out m m' reads :
    (t, i, r) ∈ reads -> approve_with cfg now t i approver r m = (out, m') ->
    conc_step (mkConc m reads) (mkConc m' reads)
| conc_deny now t i approver reason r out m m' reads :
    (t, i, r) ∈ reads -> deny_with now t i approver reason r m = (out, m') ->
    conc_step (mkConc m reads) (mkConc m' reads).

Definition store_valid (st : SState) : Prop :=
  store_ok st /\ forall t i r, store_tenant t -> Get_ t i st = Ok (Some r) -> valid r.

Definition read_valid (x : string * string * Request) : Prop :=
  store_tenant (fst (fst x)) /\ r_TenantID (snd x) = fst (fst x) /\ r_ID (snd x) = snd (fst x) /\ valid (snd x).

Definition conc_valid (c : Conc) : Prop := store_valid (mg_store (cc_mgr c)) /\ Forall read_valid (cc_reads c).

Lemma store_valid_save r st st' :
  store_valid st -> store_tenant (r_TenantID r) -> valid r -> Save r st = Ok st' -> store_valid st'.
Proof.
  intros [Hok Hall] Ht Hv Hs. split; [by eapply save_ok|]. intros t i x Htx Hx.
  destruct (decide ((t, i) = (r_TenantID r, r_ID r))) as [[= -> ->]|Hne].
  - rewrite (save_get _ _ _ Hs) in Hx. by injection Hx as <-.
  - rewrite (save_other _ _ _ _ _ Ht Htx Hs Hne) in Hx. by eapply Hall.
Qed.

Lemma saves_valid t i r (m m' : Mgr) :
  store_valid (mg_store m) -> read_valid (t, i, r) -> saves t i r m m' -> store_valid (mg_store m').
Proof.
  intros Hst (Ht & Htr & Hir & Hv) [->|(r' & Hs & Ht' & Hi' & Hv')]; [done|]. cbn in *.
  eapply store_valid_save; [exact Hst| |by apply Hv'|exact Hs]. by rewrite Ht', Htr.
Qed.

Lemma RequestIssuance_valid now spec out (m m' : Mgr) :
  1 <= c_DefaultRequiredApprovals cfg -> store_tenant (c_TenantID cfg) ->
  store_valid (mg_store m) -> RequestIssuance cfg now spec m = (out, m') -> store_valid (mg_store m').
Proof.
  intros Hreq Ht Hst. unfold RequestIssuance. case_goal; [intros [= _ <-]; done|].
  match goal with |- context [save ?x m] => set (req := x) end.
  assert (Hv : valid req).
  { split; cbn; [|constructor|by apply not_elem_of_nil|constructor|constructor|intros [?|?]; done].
    destruct (Z.leb_spec (sp_RequiredApprovals spec) 0); lia. }
  unfold save. destruct (Save req (mg_store m)) as [st|] eqn:E; intros [= _ <-]; [|done].
  change (store_valid st). eapply (store_valid_save req); [exact Hst|exact Ht|exact Hv|exact E].
Qed.

Lemma conc_step_valid c c' :
  1 <= c_DefaultRequiredApprovals cfg -> store_tenant (c_TenantID cfg) ->
  conc_step c c' -> conc_valid c -> conc_valid c'.
Proof.
  intros Hreq Ht. destruct 1 as [now spec out m m' reads H|t i r m reads Htt H|now t i a r out m m' reads Hin H
                                |now t i a reason r out m m' reads Hin H]; intros [Hst Hrd]; split; try done; cbn in *.
  - by eapply RequestIssuance_valid.
  - constructor; [|done]. unfold Get in H. destruct (Get_ t i (mg_store m)) as [[x|]|] eqn:E; [|done|done].
    injection H as ->. destruct Hst as [Hok Hall]. destruct (get_key _ _ _ _ Hok Htt E) as [? ?].
    unfold read_valid. cbn. split_and!; [done|done|done|by eapply Hall].
  - rewrite Forall_forall in Hrd. eapply saves_valid; [exact Hst|by apply Hrd|by eapply approve_with_saves].
  - rewrite Forall_forall in Hrd. eapply saves_valid; [exact Hst|by apply Hrd|by eapply deny_with_saves].
Qed.

End Proofs.

(** C7: dual control holds under every interleaving.  For a manager configured by
    [New] over an empty store, however concurrent requests, approvals and denials
    interleave between reading and saving: a stored request that is approved or
    issued has at least its required number of approvals, at least one, by
    distinct approvers, none of them the requester, each permitted by the policy
    and given before the request expired. *)
Theorem dual_control {S : Store} {SL : StoreLaws S} {W} tenantID policy notifier issuer ttl required (cfg : Config W) m0 c t i r :
  New tenantID true policy notifier issuer ttl required = Ok cfg -> store_tenant tenantID ->
  store_ok (mg_store m0) -> (forall t i x, Get_ t i (mg_store m0) <> Ok (Some x)) ->
  rtc (conc_step cfg) (mkConc m0 []) c -> store_tenant t -> Get t i (cc_mgr c) = Ok r ->
  r_State r = StateApproved \/ r_State r = StateIssued ->
  1 <= r_RequiredApprovals r <= Z.of_nat (length (approvers r)) /\ NoDup (approvers r) /\
  ~ (r_Requester r ∈ approvers r) /\
  Forall (fun a => fst (allowed cfg t i a) = true) (approvers r) /\
  Forall (fun a => a_At a <= r_ExpiresAt r) (approvals_of r).
Proof.
  intros Hnew Htid Hok Hempty Hrun Ht Hget Hst.
  assert (Hcfg : 1 <= c_DefaultRequiredApprovals cfg /\ c_TenantID cfg = tenantID).
  { unfold New in Hnew. case_in Hnew; [done|]. destruct issuer as [iss|]; [|done]. injection Hnew as <-. cbn.
    split; [|done]. destruct (Z.leb_spec required 0); lia. }
  destruct Hcfg as [Hreq Hcid].
  assert (Hinv : conc_valid cfg c).
  { revert Hrun. apply (rtc_ind_r (fun c => conc_valid cfg c)).
    - split; [|constructor]. split; [done|]. intros ? ? ? _ H. by destruct (Hempty _ _ _ H).
    - intros c1 c2 _ Hs IH. eapply conc_step_valid; [done|by rewrite Hcid|done|done]. }
  destruct Hinv as [[Hok' Hall] _]. unfold Get in Hget.
  destruct (Get_ t i (mg_store (cc_mgr c))) as [[x|]|] eqn:E; [|done|done]. injection Hget as ->.
  destruct (Hall _ _ _ Ht E). destruct (get_key _ _ _ _ Hok' Ht E) as [<- <-].
  split_and!; try done. by apply v_quorum0.
Qed.

(** approving twice is approving once.  After a call of [Approve] that
    returned no error, a second call by the same approver at any time before the
    expiry returns no error, issues nothing and leaves the manager as it is. *)
Theorem Approve_idempotent {S : Store} {SL : StoreLaws S} {W} (cfg : Config W) now now' t i approver m r m' :
  store_tenant t -> store_ok (mg_store m) ->
  Approve cfg now t i approver m = ((Some r, None), m') -> now' <= r_ExpiresAt r ->
  Approve cfg now' t i approver m' = ((Some r, None), m').
Proof.
  intros Ht Hok H Hnow'. unfold Approve in *. destruct (Get t i m) as [r0|e] eqn:Hg; [|done].
  assert (Hkey : r_TenantID r0 = t /\ r_ID r0 = i).
  { unfold Get in Hg. destruct (Get_ t i (mg_store m)) as [[x|]|] eqn:E; [|done|done]. injection Hg as ->. by eapply get_key. }
  assert (Hsame : forall r1 m1, r_TenantID r1 = t -> r_ID r1 = i ->
    (let (o, m3) := save r1 m1 in match o with Some text => ((None, Some (StoreError text)), m3) | None => ((Some r1, None), m3) end)
      = ((Some r, None), m') -> r1 = r /\ Get t i m' = Ok r1).
  { intros r1 m1 Ht1 Hi1 Hs. unfold save in Hs. destruct (Save r1 (mg_store m1)) as [st|] eqn:E; [|done].
    injection Hs as -> <-. split; [done|]. unfold Get. cbn. rewrite <- Ht1, <- Hi1 at 1. by rewrite (save_get _ _ _ E). }
  unfold approve_with in H.
  destruct (is_state StateIssued r0 || is_state StateDenied r0) eqn:Hterm.
  { injection H as <- <-. rewrite Hg. unfold approve_with. by rewrite Hterm. }
  destruct (is_state StateExpired r0 || (r_ExpiresAt r0 <? now)) eqn:Hexp; [by case_in H|].
  apply orb_false_iff in Hexp as [Hexp _].
  destruct (String.eqb approver (r_Requester r0)) eqn:Hself; [done|].
  destruct (allowed cfg t i approver) as [ok reason] eqn:Hal. destruct ok; cbn [negb] in H; [|done].
  destruct (has_approved approver r0) eqn:Hap.
  { injection H as <- <-. rewrite Hg. unfold approve_with.
    rewrite Hterm, Hexp, Hself, Hal, Hap. by destruct (Z.ltb_spec (r_ExpiresAt r0) now'); [lia|]. }
  set (r1 := with_approval (mkApproval approver "approve" now) r0) in H.
  pose proof (has_approved_snoc now approver r0) as Hap1. fold r1 in Hap1.
  case_in H.
  - destruct (c_Issuer cfg _ _ _ _) as [[cred|text] w]; [|done].
    apply Hsame in H as [<- Hg']; [|by destruct Hkey|by destruct Hkey]. rewrite Hg'. done.
  - apply Hsame in H as [<- Hg']; [|by destruct Hkey|by destruct Hkey]. rewrite Hg'. unfold approve_with.
    change (is_state ?s r1) with (is_state s r0). rewrite Hterm, Hexp.
    change (r_ExpiresAt r1) with (r_ExpiresAt r0) in *. change (r_Requester r1) with (r_Requester r0).
    rewrite Hself, Hal, Hap1. by destruct (Z.ltb_spec (r_ExpiresAt r0) now'); [lia|].
Qed.

(** an approved request whose issuance failed is not retried.  When the
    issuer fails on the approval that reaches the quorum, the request is saved as
    approved with that approval; the same approver calling again gets no error
    and nothing is issued, so only another approver can bring the request to
    issued. *)
Theorem failed_issue_not_retried {S : Store} {SL : StoreLaws S} {W} (cfg : Config W) now now' t i approver m r text m' :
  store_tenant t -> store_ok (mg_store m) ->
  (forall x st, exists st', Save x st = Ok st') ->
  Approve cfg now t i approver m = ((Some r, Some (IssueFailed text)), m') -> now' <= r_ExpiresAt r ->
  r_State r = StateApproved /\ Approve cfg now' t i approver m' = ((Some r, None), m').
Proof.
  intros Ht Hok Hsave H Hnow'. unfold Approve in *. destruct (Get t i m) as [r0|e] eqn:Hg; [|done].
  assert (Hkey : r_TenantID r0 = t /\ r_ID r0 = i).
  { unfold Get in Hg. destruct (Get_ t i (mg_store m)) as [[x|]|] eqn:E; [|done|done]. injection Hg as ->. by eapply get_key. }
  unfold approve_with in H.
  destruct (is_state StateIssued r0 || is_state StateDenied r0) eqn:Hterm; [done|].
  destruct (is_state StateExpired r0 || (r_ExpiresAt r0 <? now)) eqn:Hexp; [by case_in H|].
  destruct (String.eqb approver (r_Requester r0)) eqn:Hself; [done|].
  destruct (allowed cfg t i approver) as [ok reason] eqn:Hal. destruct ok; cbn [negb] in H; [|done].
  destruct (has_approved approver r0) eqn:Hap; [done|].
  set (r1 := with_approval (mkApproval approver "approve" now) r0) in H.
  pose proof (has_approved_snoc now approver r0) as Hap1. fold r1 in Hap1.
  case_in H; [|unfold save in H; destruct (Save _ _); done].
  destruct (c_Issuer cfg _ _ _ _) as [[cred|tx] w]; [unfold save in H; destruct (Save _ _); done|].
  set (r2 := with_state StateApproved r1) in H. unfold save in H.
  match type of H with context [Save r2 ?st] => destruct (Hsave r2 st) as [st' E] end.
  rewrite E in H. injection H as <- _ <-. split; [done|].
  assert (Hg' : Get_ t i st' = Ok (Some r2)) by (destruct Hkey as [<- <-]; exact (save_get _ _ _ E)).
  unfold Get. cbn [snd mg_store]. rewrite Hg'. unfold approve_with.
  change (r_ExpiresAt r2) with (r_ExpiresAt r0) in *. change (r_Requester r2) with (r_Requester r0).
  change (has_approved approver r2) with (has_approved approver r1).
  rewrite Hself, Hal, Hap1. unfold is_state. change (r_State r2) with StateApproved. rewrite !bool_decide_false by done. cbn [orb].
  by destruct (Z.ltb_spec (r_ExpiresAt r0) now'); [lia|].
Qed.

(** two approvers that read before either saves may both issue.  When one
    approval is missing and two approvers act on the same reading of the request,
    each reaches the quorum and each calls the issuer: the world has two
    credentials, and the stored request carries one of the two approvals and
    the credential of the second. *)
Theorem concurrent_approvals_issue_twice {S : Store} {SL : StoreLaws S} {W} (cfg : Config W) now t i a1 a2 r m c1 w1 c2 w2 :
  store_tenant t -> store_ok (mg_store m) -> (forall x st, exists st', Save x st = Ok st') ->
  Get t i m = Ok r -> r_State r = StateAwaitingApproval -> now <= r_ExpiresAt r ->
  r_RequiredApprovals r = approveCount r + 1 ->
  (forall a, a = a1 \/ a = a2 -> a <> r_Requester r /\ fst (allowed cfg t i a) = true /\ has_approved a r = false) ->
  c_Issuer cfg t i (r_Resource r) (mg_world m) = (Ok c1, w1) -> c_Issuer cfg t i (r_Resource r) w1 = (Ok c2, w2) ->
  exists m1 m2 r1 r2,
    approve_with cfg now t i a1 r m = ((Some r1, None), m1) /\
    approve_with cfg now t i a2 r m1 = ((Some r2, None), m2) /\
    mg_world m2 = w2 /\ r_CredentialID r1 = c1 /\ Get t i m2 = Ok r2 /\ r_CredentialID r2 = c2 /\
    approvers r2 = approvers r ++ [a2].
Proof.
  intros Ht Hok Hsave Hg Hst Hnow Hreq Hall Hi1 Hi2.
  assert (Hkey : r_TenantID r = t /\ r_ID r = i).
  { unfold Get in Hg. destruct (Get_ t i (mg_store m)) as [[x|]|] eqn:E; [|done|done]. injection Hg as ->. by eapply get_key. }
  assert (Hone : forall a m0 c w, a = a1 \/ a = a2 -> c_Issuer cfg t i (r_Resource r) (mg_world m0) = (Ok c, w) ->
    exists m', approve_with cfg now t i a r m0 =
      ((Some (with_credential c (with_state StateIssued (with_state StateApproved
         (with_approval (mkApproval a "approve" now) r)))), None), m') /\ mg_world m' = w /\
      Get t i m' = Ok (with_credential c (with_state StateIssued (with_state StateApproved
         (with_approval (mkApproval a "approve" now) r))))).
  { intros a m0 c w Ha Hi. destruct (Hall a Ha) as (Hs & Hal & Hap). apply String.eqb_neq in Hs.
    unfold approve_with, is_state. rewrite Hst, !bool_decide_false by done. cbn [orb].
    destruct (Z.ltb_spec (r_ExpiresAt r) now); [lia|]. rewrite Hs.
    destruct (allowed cfg t i a) as [ok reason]. cbn in Hal. subst ok. cbn [negb]. rewrite Hap.
    set (r1 := with_approval _ r).
    assert (Hq : approveCount r1 = approveCount r + 1).
    { rewrite !approveCount_approvers. unfold approvers, r1. rewrite approvals_of_snoc, fmap_app, length_app. cbn. lia. }
    change (r_RequiredApprovals r1) with (r_RequiredApprovals r). rewrite Hq, Hreq, Z.leb_refl.
    change (r_Resource (with_state StateApproved r1)) with (r_Resource r). cbn [audit mg_world]. rewrite Hi.
    set (r2 := with_credential _ _). unfold save. cbn [audit mg_store].
    destruct (Hsave r2 (mg_store m0)) as [st' E]. rewrite E. eexists. split; [reflexivity|]. split; [done|].
    assert (Hg' : Get_ t i st' = Ok (Some r2)) by (destruct Hkey as [<- <-]; exact (save_get _ _ _ E)).
    unfold Get. cbn. by rewrite Hg'. }
  destruct (Hone a1 m c1 w1 (or_introl eq_refl) Hi1) as (m1 & H1 & Hw1 & _).
  rewrite <- Hw1 in Hi2. destruct (Hone a2 m1 c2 w2 (or_intror eq_refl) Hi2) as (m2 & H2 & Hw2 & Hg2).
  exists m1, m2. do 2 eexists. split_and!; [exact H1|exact H2|exact Hw2|reflexivity|exact Hg2|reflexivity|].
  unfold approvers. change (approvals_of (with_credential ?c (with_state ?x (with_state ?y ?z)))) with (approvals_of z).
  rewrite approvals_of_snoc. cbn. by rewrite fmap_app.
Qed.

(** ** Witnesses *)

#[local] Existing Instance MemoryStore.

(** The issuer counts its calls; it fails when the world is negative. *)
Definition demo_issuer (t i res : string) (w : Z) : result string string * Z :=
  if w <? 0 then (Err "unavailable", w) else (Ok "cred", w + 1).

Definition demo_cfg : Config Z := mkConfig "t1" None None demo_issuer hour 2.

Definition demo_spec : RequestSpec := mkSpec "r1" "" "host" "alice" "" 0 0.

Definition demo_m0 (w : Z) : Mgr := mkMgr (S := MemoryStore) (∅ : gmap string Request) w [].

Definition demo_open (w : Z) : Mgr := snd (RequestIssuance demo_cfg 0 demo_spec (demo_m0 w)).
Definition demo_half (w : Z) : Mgr := snd (Approve demo_cfg 1 "t1" "r1" "bob" (demo_open w)).
Definition demo_full (w : Z) : ret * Mgr := Approve demo_cfg 2 "t1" "r1" "carol" (demo_half w).

Ltac keyed_store :=
  lazymatch goal with |- store_ok ?st => change (memory_keyed st); unfold memory_keyed end;
  apply (bool_decide_unpack _); vm_compute; exact I.

Definition demo_request (approvals : list Approval) (st : State) (cred : string) : Request :=
  mkRequest "r1" "t1" KindCertIssuance "host" "alice" 2 approvals st cred "" 0 hour.

Definition bob : Approval := mkApproval "bob" "approve" 1.
Definition carol : Approval := mkApproval "carol" "approve" 2.

Lemma demo_step_approve now approver m m' r reads :
  Get "t1" "r1" m = Ok r -> snd (approve_with demo_cfg now "t1" "r1" approver r m) = m' ->
  rtc (conc_step demo_cfg) (mkConc m reads) (mkConc m' (("t1", "r1", r) :: reads)).
Proof.
  intros Hg H. eapply rtc_l; [apply (conc_read _ "t1" "r1" r); [reflexivity|exact Hg]|]. eapply rtc_once. rewrite <- H.
  eapply conc_approve; [by left|apply surjective_pairing].
Qed.

Lemma dual_control_witness :
  approvers (demo_request [bob; carol] StateIssued "cred") = ["bob"; "carol"] /\
  2 <= Z.of_nat (length (approvers (demo_request [bob; carol] StateIssued "cred"))).
Proof.
  split; [reflexivity|].
  destruct (dual_control "t1" None None (Some demo_issuer) 0 0 demo_cfg (demo_m0 0)
    (mkConc (snd (demo_full 0)) [("t1", "r1", demo_request [bob] StateAwaitingApproval "");
                                 ("t1", "r1", demo_request [] StateAwaitingApproval "")]) "t1" "r1"
    (demo_request [bob; carol] StateIssued "cred")) as ([_ H] & _).
  - reflexivity.
  - reflexivity.
  - apply map_Forall_empty.
  - intros t i x. cbn. unfold MemoryStore_Get. rewrite lookup_empty. discriminate.
  - eapply rtc_l; [eapply (conc_request demo_cfg 0 demo_spec); apply surjective_pairing|].
    etrans; [eapply (demo_step_approve 1 "bob"); [vm_compute; reflexivity|reflexivity]|].
    eapply (demo_step_approve 2 "carol"); [vm_compute; reflexivity|vm_compute; reflexivity].
  - reflexivity.
  - vm_compute. reflexivity.
  - by right.
  - exact H.
Defined.

Lemma Approve_idempotent_witness :
  Approve demo_cfg 3 "t1" "r1" "carol" (snd (demo_full 0)) =
  ((Some (demo_request [bob; carol] StateIssued "cred"), None), snd (demo_full 0)).
Proof.
  apply (Approve_idempotent demo_cfg 2 3 "t1" "r1" "carol" (demo_half 0)).
  - reflexivity.
  - keyed_store.
  - vm_compute. reflexivity.
  - vm_compute. discriminate.
Defined.

Lemma failed_issue_not_retried_witness :
  Approve demo_cfg 3 "t1" "r1" "carol" (snd (demo_full (-1))) =
  ((Some (demo_request [bob; carol] StateApproved ""), None), snd (demo_full (-1))).
Proof.
  apply (failed_issue_not_retried demo_cfg 2 3 "t1" "r1" "carol" (demo_half (-1)) _ "unavailable").
  - reflexivity.
  - keyed_store.
  - intros x st. by eexists.
  - vm_compute. reflexivity.
  - vm_compute. discriminate.
Defined.

Lemma concurrent_approvals_issue_twice_witness :
  exists m1 m2 r1 r2,
    approve_with demo_cfg 2 "t1" "r1" "carol" (demo_request [bob] StateAwaitingApproval "") (demo_half 0) = ((Some r1, None), m1) /\
    approve_with demo_cfg 2 "t1" "r1" "dave" (demo_request [bob] StateAwaitingApproval "") m1 = ((Some r2, None), m2) /\
    mg_world m2 = 2.
Proof.
  destruct (concurrent_approvals_issue_twice demo_cfg 2 "t1" "r1" "carol" "dave"
    (demo_request [bob] StateAwaitingApproval "") (demo_half 0) "cred" 1 "cred" 2)
    as (m1 & m2 & r1 & r2 & H1 & H2 & H3 & _).
  - reflexivity.
  - keyed_store.
  - intros x st. by eexists.
  - vm_compute. reflexivity.
  - reflexivity.
  - vm_compute. discriminate.
  - reflexivity.
  - intros a [->| ->]; (split; [discriminate|split; reflexivity]).
  - reflexivity.
  - reflexivity.
  - exists m1, m2, r1, r2. split; [exact H1|split; [exact H2|exact H3]].
Defined.

End Approval.
