(* ===== verification/Authz.v ===== *)
(** * Authorization: permissions, roles, scopes and the decision

    Models [src/internal/authz/authz.go]: the permission catalog, the built-in
    roles, scopes and their covering order, the decision [Can], and the registry
    of roles.  The map a registry holds is iterated in no particular order by the
    code: [Roles] takes the order as an argument and is proved not to depend on
    it. *)

From stdpp Require Import sorting.
From S2P Require Import Prelude.
Open Scope string_scope.
Open Scope list_scope.

Module Authz.

Definition Permission : Type := string.

Definition OwnersRead : Permission := "owners:read".
Definition OwnersWrite : Permission := "owners:write".
Definition IssuersRead : Permission := "issuers:read".
Definition IssuersWrite : Permission := "issuers:write".
Definition IdentitiesRead : Permission := "identities:read".
Definition IdentitiesWrite : Permission := "identities:write".
Definition CertsRead : Permission := "certs:read".
Definition CertsWrite : Permission := "certs:write".
Definition AuditRead : Permission := "audit:read".
Definition AuditWrite : Permission := "audit:write".
Definition PrivacyRead : Permission := "privacy:read".
Definition PrivacyWrite : Permission := "privacy:write".
Definition GraphRead : Permission := "graph:read".
Definition RiskRead : Permission := "risk:read".
Definition AgentsRead : Permission := "agents:read".
Definition AgentsWrite : Permission := "agents:write".
Definition AgentsHeartbeat : Permission := "agents:heartbeat".
Definition AgentsJobPoll : Permission := "agents:job.poll".
Definition AgentsJobComplete : Permission := "agents:job.complete".
Definition AgentsJobReport : Permission := "agents:job.report".
Definition DiscoveryRead : Permission := "discovery:read".
Definition DiscoveryWrite : Permission := "discovery:write".
Definition NHIRead : Permission := "nhi:read".
Definition PolicyRead : Permission := "policy:read".
Definition PolicyWrite : Permission := "policy:write".
Definition NotificationsRead : Permission := "notifications:read".
Definition NotificationsWrite : Permission := "notifications:write".
Definition ConnectorsRead : Permission := "connectors:read".
Definition ConnectorsWrite : Permission := "connectors:write".
Definition LifecycleRead : Permission := "lifecycle:read".
Definition IncidentsRead : Permission := "incidents:read".
Definition IncidentsWrite : Permission := "incidents:write".
Definition PrivateEgress : Permission := "egress:private".
Definition AccessRead : Permission := "access:read".
Definition AccessWrite : Permission := "access:write".
Definition AccessRoleAssign : Permission := "access:role.assign".
Definition SecretsRead : Permission := "secrets:read".
Definition SecretsWrite : Permission := "secrets:write".
Definition ProfilesRead : Permission := "profiles:read".
Definition ProfilesWrite : Permission := "profiles:write".
Definition CertsRequest : Permission := "certs:request".
Definition CertsIssue : Permission := "certs:issue".
Definition KeysRead : Permission := "keys:read".
Definition KeysWrite : Permission := "keys:write".

Definition Wildcard : Permission := "*".

(** Every constant of the catalog. *)
Definition catalog : list Permission := [
  OwnersRead; OwnersWrite; IssuersRead; IssuersWrite; IdentitiesRead; IdentitiesWrite; CertsRead;
  CertsWrite; AuditRead; AuditWrite; PrivacyRead; PrivacyWrite; GraphRead; RiskRead; AgentsRead;
  AgentsWrite; AgentsHeartbeat; AgentsJobPoll; AgentsJobComplete; AgentsJobReport; DiscoveryRead;
  DiscoveryWrite; NHIRead; PolicyRead; PolicyWrite; NotificationsRead; NotificationsWrite;
  ConnectorsRead; ConnectorsWrite; LifecycleRead; IncidentsRead; IncidentsWrite; PrivateEgress;
  AccessRead; AccessWrite; AccessRoleAssign; SecretsRead; SecretsWrite; ProfilesRead;
  ProfilesWrite; CertsRequest; CertsIssue; KeysRead; KeysWrite].

Definition allResourcePermissions : list Permission := [
  OwnersRead; OwnersWrite; IssuersRead; IssuersWrite; IdentitiesRead; IdentitiesWrite; CertsRead;
  CertsWrite; AuditWrite; PrivacyRead; PrivacyWrite; GraphRead; RiskRead; AgentsRead; AgentsWrite;
  AgentsHeartbeat; AgentsJobPoll; AgentsJobComplete; AgentsJobReport; DiscoveryRead;
  DiscoveryWrite; NHIRead; PolicyRead; PolicyWrite; NotificationsRead; NotificationsWrite;
  ConnectorsRead; ConnectorsWrite; LifecycleRead; IncidentsRead; IncidentsWrite; PrivateEgress;
  AccessRead; AccessWrite; AccessRoleAssign; ProfilesRead; ProfilesWrite; CertsRequest; CertsIssue;
  SecretsRead; SecretsWrite; KeysRead; KeysWrite].

Record Role := mkRole { Name : string; Permissions : list Permission }.

Definition Allows (r : Role) (p : Permission) : bool :=
  existsb (fun have => String.eqb have Wildcard || String.eqb have p) (Permissions r).

(** [seen] and [dropped] are sets kept in maps. *)
Definition withoutPermissions (perms drop : list Permission) : list Permission :=
  List.filter (fun p => negb (existsb (String.eqb p) drop)) perms.

Fixpoint add_new (seen out l : list Permission) : list Permission * list Permission :=
  match l with
  | [] => (seen, out)
  | p :: l' => if existsb (String.eqb p) seen then add_new seen out l' else add_new (p :: seen) (out ++ [p]) l'
  end.

Definition withPermissions (perms add : list Permission) : list Permission :=
  let '(seen, out) := add_new [] [] perms in
  snd (add_new seen out add).

Definition readOnly : list Permission := [
  OwnersRead; IssuersRead; IdentitiesRead; CertsRead; PrivacyRead; GraphRead; RiskRead; AgentsRead;
  DiscoveryRead; NHIRead; PolicyRead; NotificationsRead; ConnectorsRead; LifecycleRead;
  IncidentsRead; AccessRead; ProfilesRead; SecretsRead; KeysRead].

Definition agent : list Permission := [
  CertsRead; AgentsHeartbeat; AgentsJobPoll; AgentsJobComplete; AgentsJobReport; DiscoveryWrite].

Definition mcp : list Permission := [
  OwnersRead; IssuersRead; IdentitiesRead; CertsRead; AuditRead; PrivacyRead; GraphRead; RiskRead;
  AgentsRead; DiscoveryRead; DiscoveryWrite; NHIRead; PolicyRead; NotificationsRead;
  ConnectorsRead; LifecycleRead; IncidentsRead; AccessRead; ProfilesRead; CertsRequest;
  SecretsRead; KeysRead].

Definition cli : list Permission :=
  withPermissions (withoutPermissions allResourcePermissions [AccessRoleAssign]) [AuditRead].

Definition BuiltinRoles : gmap string Role := list_to_map [
  ("admin", mkRole "admin" [Wildcard]);
  ("operator", mkRole "operator" allResourcePermissions);
  ("viewer", mkRole "viewer" readOnly);
  ("auditor", mkRole "auditor" [AuditRead]);
  ("agent", mkRole "agent" agent);
  ("mcp", mkRole "mcp" mcp);
  ("cli", mkRole "cli" cli);
  ("ra-officer", mkRole "ra-officer" [ProfilesRead; ProfilesWrite; CertsRead; CertsRequest])].

(** ** Scopes and the decision *)

Record Scope := mkScope { TenantID : string; Project : string; Profile : string; Issuer : string }.

Definition dimensionCovers (grant target : string) : bool := String.eqb grant "" || String.eqb grant target.

Definition Covers (g t : Scope) : bool :=
  if negb (String.eqb (TenantID g) (TenantID t)) then false
  else dimensionCovers (Project g) (Project t) && dimensionCovers (Profile g) (Profile t)
       && dimensionCovers (Issuer g) (Issuer t).

Record Grant := mkGrant { g_Role : Role; g_Scope : Scope }.

Record Principal := mkPrincipal { p_TenantID : string; p_Subject : string; p_Grants : list Grant }.

Definition Can (p : Principal) (perm : Permission) (target : Scope) : bool :=
  if negb (String.eqb (p_TenantID p) (TenantID target)) then false
  else existsb (fun g => Covers (g_Scope g) target && Allows (g_Role g) perm) (p_Grants p).

(** ** The registry *)

Abbreviation Registry := (gmap string Role).

Definition NewRegistry (custom : list Role) : Registry :=
  fold_left (fun roles r => <[Name r := r]> roles) custom BuiltinRoles.

Definition Role_ (r : Registry) (name : string) : option Role := r !! name.

(** The order the roles are sorted by: no later name is bytewise less. *)
Definition name_le (a b : Role) : Prop := String.le (Name a) (Name b).

#[export] Instance name_le_dec : RelDecision name_le.
Proof. intros a b. unfold name_le. apply _. Defined.

(** [order] is the order in which the range over the map runs. *)
Definition Roles (order : list (string * Role)) : list Role :=
  merge_sort name_le (map (fun p => mkRole (Name (snd p)) (Permissions (snd p))) order).

(** ** Lemmas *)

#[export] Instance name_le_trans : Transitive name_le.
Proof. intros a b c. unfold name_le. by transitivity (Name b). Qed.

#[export] Instance name_le_total : Total name_le.
Proof. intros a b. unfold name_le. apply String.le_total. Qed.

Lemma Allows_spec r p : Allows r p = true <-> Wildcard ∈ Permissions r \/ p ∈ Permissions r.
Proof.
  unfold Allows. rewrite existsb_exists. setoid_rewrite orb_true_iff. setoid_rewrite String.eqb_eq.
  setoid_rewrite <- list_elem_of_In. naive_solver.
Qed.

Lemma dimensionCovers_spec g t : dimensionCovers g t = true <-> g = "" \/ g = t.
Proof. unfold dimensionCovers. by rewrite orb_true_iff, !String.eqb_eq. Qed.

Lemma Covers_spec g t :
  Covers g t = true <-> TenantID g = TenantID t /\ (Project g = "" \/ Project g = Project t) /\
    (Profile g = "" \/ Profile g = Profile t) /\ (Issuer g = "" \/ Issuer g = Issuer t).
Proof.
  unfold Covers. destruct (String.eqb_spec (TenantID g) (TenantID t)); cbn; [|naive_solver].
  rewrite !andb_true_iff, !dimensionCovers_spec. tauto.
Qed.

(** Covering is a preorder on scopes. *)
#[export] Instance Covers_preorder : PreOrder (fun g t => Covers g t = true).
Proof.
  split.
  - intros g. apply Covers_spec. tauto.
  - intros a b c. rewrite !Covers_spec. intros (-> & Hp & Hf & Hi) (-> & Hp' & Hf' & Hi').
    split_and!; [done|destruct Hp as [|Hp]|destruct Hf as [|Hf]|destruct Hi as [|Hi]]; try (by left); by rewrite ?Hp, ?Hf, ?Hi.
Qed.

Lemma Can_spec p perm target :
  Can p perm target = true <-> p_TenantID p = TenantID target /\
    exists g, g ∈ p_Grants p /\ Covers (g_Scope g) target = true /\ Allows (g_Role g) perm = true.
Proof.
  unfold Can. destruct (String.eqb_spec (p_TenantID p) (TenantID target)); cbn; [|naive_solver].
  rewrite existsb_exists. setoid_rewrite andb_true_iff. setoid_rewrite <- list_elem_of_In. naive_solver.
Qed.

(** ** Theorems *)

(** the decision is exactly the documented rule.  A principal may perform a
    permission on a target if and only if the target is in its tenant and some
    grant, of that tenant, has a scope that is tenant-wide or equal in each
    dimension and a role that holds the permission or the wildcard.  So nothing is
    allowed across a tenant, further grants never take anything away, and what is
    allowed on a scope is allowed on everything that scope covers. *)
Theorem Can_decides p perm target :
  (Can p perm target = true <->
     p_TenantID p = TenantID target /\
     exists g, g ∈ p_Grants p /\ TenantID (g_Scope g) = TenantID target /\
       (Project (g_Scope g) = "" \/ Project (g_Scope g) = Project target) /\
       (Profile (g_Scope g) = "" \/ Profile (g_Scope g) = Profile target) /\
       (Issuer (g_Scope g) = "" \/ Issuer (g_Scope g) = Issuer target) /\
       (Wildcard ∈ Permissions (g_Role g) \/ perm ∈ Permissions (g_Role g))) /\
  (p_TenantID p <> TenantID target -> Can p perm target = false) /\
  (forall more, Can p perm target = true ->
     Can (mkPrincipal (p_TenantID p) (p_Subject p) (p_Grants p ++ more)) perm target = true) /\
  (forall narrower, Can p perm target = true -> Covers target narrower = true -> Can p perm narrower = true).
Proof.
  split_and!.
  - rewrite Can_spec. setoid_rewrite Covers_spec. setoid_rewrite Allows_spec. naive_solver.
  - intros Hne. apply not_true_iff_false. rewrite Can_spec. naive_solver.
  - intros more. rewrite !Can_spec. cbn. intros [? (g & Hin & ?)]. split; [done|]. exists g.
    split; [apply elem_of_app; by left|done].
  - intros narrower. rewrite !Can_spec. intros [Ht (g & Hin & Hc & Ha)] Hn.
    pose proof (proj1 (Covers_spec _ _) Hn) as (Htn & _). split; [congruence|]. exists g. split_and!; [done| |done].
    exact (transitivity (R := fun g t => Covers g t = true) Hc Hn).
Qed.

(** ** The registry *)

Definition named (r : Registry) : Prop := map_Forall (fun k role => Name role = k) r.

Lemma BuiltinRoles_named : named BuiltinRoles.
Proof. apply (bool_decide_unpack _). vm_compute. exact I. Qed.

Lemma NewRegistry_named custom : named (NewRegistry custom).
Proof.
  unfold NewRegistry. generalize BuiltinRoles_named. generalize BuiltinRoles.
  induction custom as [|r l IH]; intros m Hm; [done|]. cbn. apply IH. by apply map_Forall_insert_2.
Qed.

Lemma NewRegistry_lookup custom name :
  NewRegistry custom !! name =
  match List.find (fun r => String.eqb (Name r) name) (rev custom) with
  | Some r => Some r
  | None => BuiltinRoles !! name
  end.
Proof.
  unfold NewRegistry. generalize BuiltinRoles as m. induction custom as [|r l IH] using rev_ind; intros m; [done|].
  rewrite fold_left_app, rev_app_distr. cbn. destruct (String.eqb_spec (Name r) name) as [<-|Hne].
  - by rewrite lookup_insert_eq.
  - rewrite lookup_insert_ne by done. apply IH.
Qed.

Lemma role_eta (r : Role) : mkRole (Name r) (Permissions r) = r.
Proof. by destruct r. Qed.

Lemma copies_eq (order : list (string * Role)) :
  map (fun p => mkRole (Name (snd p)) (Permissions (snd p))) order = snd <$> order.
Proof. apply map_ext. intros p. apply role_eta. Qed.

Lemma registry_values reg x y :
  named reg -> x ∈ (snd <$> map_to_list reg) -> y ∈ (snd <$> map_to_list reg) -> Name x = Name y -> x = y.
Proof.
  intros Hn (p & -> & Hp)%list_elem_of_fmap (q & -> & Hq)%list_elem_of_fmap He.
  destruct p as [k x], q as [k' y]. cbn in *. apply elem_of_map_to_list in Hp, Hq.
  pose proof (Hn _ _ Hp). pose proof (Hn _ _ Hq). cbn in *. congruence.
Qed.

(** the catalog is deterministic.  For a registry of built-in and custom
    roles, in whatever order the map is iterated and whatever order sorting by
    name leaves equal elements in: [Roles] returns the same list, sorted by name,
    of exactly the registered roles; and a name resolves to the last custom role
    of that name, or to the built-in one. *)
Theorem Roles_deterministic custom order out name :
  order ≡ₚ map_to_list (NewRegistry custom) -> out ≡ₚ (snd <$> order) -> StronglySorted name_le out ->
  out = Roles (map_to_list (NewRegistry custom)) /\ Roles order = out /\
  (forall r, r ∈ out <-> Role_ (NewRegistry custom) (Name r) = Some r) /\
  Role_ (NewRegistry custom) name =
    match List.find (fun r => String.eqb (Name r) name) (rev custom) with
    | Some r => Some r
    | None => BuiltinRoles !! name
    end.
Proof.
  intros Ho Hp Hs. pose proof (NewRegistry_named custom) as Hn.
  assert (Hout : out ≡ₚ snd <$> map_to_list (NewRegistry custom)) by (rewrite Hp; by rewrite Ho).
  assert (Huniq : forall l, l ≡ₚ map_to_list (NewRegistry custom) -> Roles l = out).
  { intros l Hl. unfold Roles. rewrite copies_eq.
    assert (Hm : merge_sort name_le (snd <$> l) ≡ₚ snd <$> map_to_list (NewRegistry custom))
      by (rewrite merge_sort_Permutation, Hl; done).
    apply (StronglySorted_unique_strong name_le); [|apply (StronglySorted_merge_sort name_le)|done|by rewrite Hm, Hout].
    intros x y Hx Hy Hxy Hyx. rewrite Hm in Hx. rewrite Hout in Hy.
    eapply registry_values; [exact Hn|done|done|]. unfold name_le in *. by apply (anti_symm String.le). }
  split_and!; [symmetry; by apply Huniq|by apply Huniq| |apply NewRegistry_lookup].
  intros r. rewrite Hout, list_elem_of_fmap. unfold Role_. split.
  - intros ([k x] & -> & Hin). apply elem_of_map_to_list in Hin. cbn. by rewrite (Hn _ _ Hin).
  - intros Hl. exists (Name r, r). split; [done|]. by apply elem_of_map_to_list.
Qed.

(** separation of duties in the built-in roles.  Only admin holds the
    wildcard; the registration authority can request certificates and cannot
    issue them; a viewer can do nothing but read; an auditor reads the audit log
    and nothing else; an agent cannot read secrets or write anything but
    discovery results; the machine actors cannot assign roles; and the operator
    holds every permission of the catalog except reading the audit log. *)
Theorem builtin_separation :
  (forall name r, BuiltinRoles !! name = Some r -> Wildcard ∈ Permissions r -> name = "admin") /\
  (forall r, BuiltinRoles !! "ra-officer" = Some r -> Allows r CertsRequest = true /\ Allows r CertsIssue = false) /\
  (forall r p, BuiltinRoles !! "viewer" = Some r -> p ∈ catalog ->
     Allows r p = true -> String.substring (String.length p - 5) 5 p = ":read") /\
  (forall r p, BuiltinRoles !! "auditor" = Some r -> Allows r p = true -> p = AuditRead) /\
  (forall r p, BuiltinRoles !! "agent" = Some r -> Allows r p = true ->
     p ∈ [CertsRead; AgentsHeartbeat; AgentsJobPoll; AgentsJobComplete; AgentsJobReport; DiscoveryWrite]) /\
  (forall name r, name ∈ ["agent"; "mcp"; "cli"] -> BuiltinRoles !! name = Some r -> Allows r AccessRoleAssign = false) /\
  (forall r p, BuiltinRoles !! "operator" = Some r -> p ∈ catalog -> Allows r p = true <-> p <> AuditRead).
Proof.
  split_and!.
  - assert (H : map_Forall (fun k r => Wildcard ∈ Permissions r -> k = "admin") BuiltinRoles)
      by (apply (bool_decide_unpack _); vm_compute; exact I).
    intros name r Hr. by apply (H name r).
  - intros r Hr. vm_compute in Hr. injection Hr as <-. split; reflexivity.
  - intros r p Hr Hp Ha. vm_compute in Hr. injection Hr as <-. revert p Hp Ha. refine (proj1 (Forall_forall _ _) _).
    apply (bool_decide_unpack _). vm_compute. exact I.
  - intros r p Hr Ha. vm_compute in Hr. injection Hr as <-. apply Allows_spec in Ha as [H|H]; cbn in H;
      apply list_elem_of_singleton in H; [discriminate|exact H].
  - intros r p Hr Ha. vm_compute in Hr. injection Hr as <-. apply Allows_spec in Ha as [H|H]; [|exact H].
    cbn [Permissions] in H. by repeat (apply elem_of_cons in H as [H|H]; [discriminate|]); apply elem_of_nil in H.
  - intros name r Hin Hr. repeat (apply elem_of_cons in Hin as [->|Hin]); [| | |by apply elem_of_nil in Hin];
      vm_compute in Hr; injection Hr as <-; reflexivity.
  - intros r p Hr Hp. vm_compute in Hr. injection Hr as <-. revert p Hp. refine (proj1 (Forall_forall _ _) _).
    apply (bool_decide_unpack _). vm_compute. exact I.
Qed.

(** A tenant that widens the built-in auditor. *)
Definition demo_auditor : Role := mkRole "auditor" [AuditRead; CertsRead].

Lemma Roles_deterministic_witness :
  Role_ (NewRegistry [demo_auditor]) "auditor" = Some demo_auditor.
Proof.
  destruct (Roles_deterministic [demo_auditor] (map_to_list (NewRegistry [demo_auditor]))
    (Roles (map_to_list (NewRegistry [demo_auditor]))) "auditor") as (_ & _ & _ & H).
  - reflexivity.
  - unfold Roles. rewrite copies_eq. apply merge_sort_Permutation.
  - apply (StronglySorted_merge_sort name_le).
  - rewrite H. reflexivity.
Defined.

End Authz.
