(* ===== verification/AuditTrail.v ===== *)
(** * Audit: the hash chain, search, evidence bundles and retention

    Models [src/internal/audit/chain.go], [audit.go] and [retention.go] with the
    checkpoint table of [src/internal/store/audit_checkpoint.go], over the event
    log of [Events].  Parameters stand for what is not part of these files: the
    hash of a link ([sha prev core] is SHA-256 of the previous hash followed by
    the canonical JSON of the record's core), the text of a payload, the privacy
    redactor, the feature ledger, the signature of a bundle and the archive.  The
    theorem about tampering assumes nothing of the hash: it exhibits a collision
    instead. *)

From stdpp Require Import sorting.
From S2P Require Import Prelude Json Tenancy Events.
Open Scope string_scope.
Open Scope list_scope.
Open Scope Z_scope.

Module AuditTrail.
Import Tenancy Events.

Record ARecord := mkARecord {
  ar_Sequence : Z;
  ar_StreamSequence : Z;
  ar_ID : string;
  ar_Type : string;
  ar_TenantID : string;
  ar_Time : Z;
  ar_Actor : option Actor;
  ar_Data : data;
  ar_Hash : string
}.

(** What the hash covers: everything except the hash and the stream sequence. *)
Record recordCore := mkCore {
  co_Sequence : Z;
  co_ID : string;
  co_Type : string;
  co_TenantID : string;
  co_Time : Z;
  co_Actor : option Actor;
  co_Data : data
}.

Definition core_of (r : ARecord) : recordCore :=
  mkCore (ar_Sequence r) (ar_ID r) (ar_Type r) (ar_TenantID r) (ar_Time r) (ar_Actor r) (ar_Data r).

Definition with_hash (h : string) (r : ARecord) : ARecord :=
  mkARecord (ar_Sequence r) (ar_StreamSequence r) (ar_ID r) (ar_Type r) (ar_TenantID r) (ar_Time r)
    (ar_Actor r) (ar_Data r) h.

(** [json.Marshal] of a raw message fails on bytes that are no JSON text; an
    empty one is omitted. *)
Definition marshals (d : data) : bool :=
  match d with DJson _ => true | DRaw b => String.eqb b "" end.

Inductive auditError :=
| ErrMissingTenant
| LinkError
| ChainBroken (i : Z) (sequence : Z) (type : string)
| HeadMismatch
| BadSignature
| SignError
| MissingStreamSequence
| VerificationFailed (e : auditError)
| ArchiveError (text : string)
| CheckpointError
| PruneError (e : evError)
| AppendArchived (e : evError).

Record Query := mkQuery {
  q_TenantID : string;
  q_Types : list string;
  q_FeatureID : string;
  q_Action : string;
  q_Since : Z;
  q_Until : Z;
  q_AsOfSequence : Z;
  q_Contains : string;
  q_Limit : Z
}.

Definition tenant_query (tenantID : string) : Query := mkQuery tenantID [] "" "" 0 0 0 "" 0.

Record Checkpoint := mkCheckpoint {
  cp_TenantID : string;
  cp_BoundarySeq : Z;
  cp_BoundaryHash : string;
  cp_RecordCount : Z;
  cp_ArchiveURI : string
}.

Record Bundle := mkBundle {
  b_TenantID : string;
  b_GeneratedAt : Z;
  b_Query : Query;
  b_Records : list ARecord;
  b_Count : Z;
  b_PrevHash : string;
  b_ChainHead : string
}.

Record Summary := mkSummary {
  su_TenantsProcessed : Z;
  su_SegmentsArchived : Z;
  su_RecordsArchived : Z;
  su_RecordsPruned : Z
}.

(** ** The checkpoint table *)

Definition Checkpoints : Type := list Checkpoint.

Definition same_boundary (a b : Checkpoint) : bool :=
  String.eqb (cp_TenantID a) (cp_TenantID b) && (cp_BoundarySeq a =? cp_BoundarySeq b).

Definition SaveAuditCheckpoint (cp : Checkpoint) (l : Checkpoints) : Checkpoints :=
  if existsb (same_boundary cp) l then map (fun x => if same_boundary cp x then cp else x) l else l ++ [cp].

(** The row with the highest boundary. *)
Definition LatestAuditCheckpoint (tenantID : string) (l : Checkpoints) : option Checkpoint :=
  fold_right (fun x best =>
    if String.eqb (cp_TenantID x) tenantID then
      match best with
      | Some b => if cp_BoundarySeq x <? cp_BoundarySeq b then best else Some x
      | None => Some x
      end
    else best) None l.

(** ** The chain *)

(** A tenant's last boundary after a new, later one has been saved. *)
Lemma Latest_app tenantID l cp :
  cp_TenantID cp = tenantID -> Forall (fun x => cp_TenantID x = tenantID -> cp_BoundarySeq x < cp_BoundarySeq cp) l ->
  LatestAuditCheckpoint tenantID (l ++ [cp]) = Some cp.
Proof.
  intros Ht. induction 1 as [|x l Hx _ IH]; cbn; [by rewrite Ht, String.eqb_refl|].
  fold (LatestAuditCheckpoint tenantID (l ++ [cp])). rewrite IH. destruct (String.eqb_spec (cp_TenantID x) tenantID) as [He|]; [|done].
  specialize (Hx He). by destruct (Z.ltb_spec (cp_BoundarySeq x) (cp_BoundarySeq cp)); [|lia].
Qed.

Lemma Latest_app_other tenantID l cp :
  cp_TenantID cp <> tenantID -> LatestAuditCheckpoint tenantID (l ++ [cp]) = LatestAuditCheckpoint tenantID l.
Proof.
  intros Ht. unfold LatestAuditCheckpoint. rewrite fold_right_app. cbn. by rewrite (proj2 (String.eqb_neq _ _) Ht).
Qed.

Lemma Latest_max tenantID l :
  match LatestAuditCheckpoint tenantID l with
  | Some cp => cp ∈ l /\ cp_TenantID cp = tenantID /\ Forall (fun x => cp_TenantID x = tenantID -> cp_BoundarySeq x <= cp_BoundarySeq cp) l
  | None => Forall (fun x => cp_TenantID x <> tenantID) l
  end.
Proof.
  induction l as [|x l IH]; cbn; [constructor|]. fold (LatestAuditCheckpoint tenantID l).
  destruct (String.eqb_spec (cp_TenantID x) tenantID) as [He|Hne].
  - destruct (LatestAuditCheckpoint tenantID l) as [b|].
    + destruct IH as (Hb & Htb & Hf). destruct (Z.ltb_spec (cp_BoundarySeq x) (cp_BoundarySeq b)).
      * split_and!; [by right|done|]. constructor; [lia|done].
      * split_and!; [by left|done|]. constructor; [lia|]. eapply Forall_impl; [exact Hf|]. cbn. intros y Hy Ht. specialize (Hy Ht). lia.
    + split_and!; [by left|done|]. constructor; [lia|]. eapply Forall_impl; [exact IH|]. cbn. congruence.
  - destruct (LatestAuditCheckpoint tenantID l) as [b|].
    + destruct IH as (Hb & Htb & Hf). split_and!; [by right|done|]. constructor; [done|done].
    + by constructor.
Qed.

Section Chain.
Context (sha : string -> recordCore -> string).

Definition link (prevHash : string) (r : ARecord) : option string :=
  if marshals (ar_Data r) then Some (sha prevHash (core_of r)) else None.

(** Returns the head and the records with their hashes filled in. *)
Fixpoint SealFrom (seed : string) (records : list ARecord) : string * list ARecord :=
  match records with
  | [] => (seed, [])
  | r :: l =>
      match link seed r with
      | None => let '(h, l') := SealFrom seed l in (h, with_hash "" r :: l')
      | Some h => let '(h', l') := SealFrom h l in (h', with_hash h r :: l')
      end
  end.

Definition Seal (records : list ARecord) : string * list ARecord := SealFrom "" records.

Definition chainHead (records : list ARecord) : string :=
  match last records with Some r => ar_Hash r | None => "" end.

Fixpoint verify_loop (i : Z) (prev : string) (records : list ARecord) : result auditError string :=
  match records with
  | [] => Ok prev
  | r :: l =>
      match link prev r with
      | None => Err LinkError
      | Some want =>
          if negb (String.eqb (ar_Hash r) want) then Err (ChainBroken i (ar_Sequence r) (ar_Type r))
          else verify_loop (i + 1) want l
      end
  end.

Definition VerifyChainFrom (seed : string) (records : list ARecord) : result auditError string :=
  verify_loop 0 seed records.

Definition VerifyChain_ (records : list ARecord) : result auditError string := VerifyChainFrom "" records.

(** ** Lemmas on chains *)

Lemma SealFrom_app seed l1 l2 :
  SealFrom seed (l1 ++ l2) =
  (fst (SealFrom (fst (SealFrom seed l1)) l2), snd (SealFrom seed l1) ++ snd (SealFrom (fst (SealFrom seed l1)) l2)).
Proof.
  revert seed. induction l1 as [|r l1 IH]; intros seed; cbn; [by destruct (SealFrom seed l2)|].
  destruct (link seed r) as [h|]; rewrite IH;
    [destruct (SealFrom h l1) as [h1 s1]|destruct (SealFrom seed l1) as [h1 s1]]; cbn; by destruct (SealFrom h1 l2).
Qed.

Lemma with_hash_core h r : core_of (with_hash h r) = core_of r.
Proof. done. Qed.

Lemma SealFrom_cores seed l : core_of <$> snd (SealFrom seed l) = core_of <$> l.
Proof.
  revert seed. induction l as [|r l IH]; intros seed; cbn; [done|].
  destruct (link seed r) as [h|]; [destruct (SealFrom h l) as [? s] eqn:E; specialize (IH h)
                                  |destruct (SealFrom seed l) as [? s] eqn:E; specialize (IH seed)];
    rewrite E in IH; cbn in IH |- *; by rewrite IH.
Qed.

Definition all_marshal (l : list ARecord) : Prop := Forall (fun r => marshals (ar_Data r) = true) l.

Lemma link_hash prev h r : link prev (with_hash h r) = link prev r.
Proof. done. Qed.

(** A sealed chain verifies, with the same head. *)
Lemma seal_verifies i seed l :
  all_marshal l -> verify_loop i seed (snd (SealFrom seed l)) = Ok (fst (SealFrom seed l)).
Proof.
  intros H. revert i seed. induction H as [|r l Hr _ IH]; intros i seed; cbn; [done|].
  destruct (link seed r) as [h|] eqn:E; [|unfold link in E; by rewrite Hr in E].
  specialize (IH (i + 1) h). destruct (SealFrom h l) as [h' s]. cbn in *. rewrite link_hash, E.
  by rewrite String.eqb_refl.
Qed.

(** A chain that verifies is the sealing of itself. *)
Lemma verify_sealed i seed l h :
  verify_loop i seed l = Ok h -> all_marshal l /\ SealFrom seed l = (h, l).
Proof.
  revert i seed. induction l as [|r l IH]; intros i seed H; cbn in H; [injection H as ->; by split; [constructor|]|].
  destruct (link seed r) as [want|] eqn:E; [|done].
  destruct (String.eqb_spec (ar_Hash r) want) as [He|]; [cbn in H|done].
  destruct (IH _ _ H) as [Hm Hs]. split.
  - constructor; [|done]. unfold link in E. by case_in E.
  - cbn. rewrite E, Hs. rewrite <- He. by destruct r.
Qed.

Lemma verify_snoc i seed l r h :
  verify_loop i seed (l ++ [r]) = Ok h <->
  exists h', verify_loop i seed l = Ok h' /\ link h' r = Some h /\ ar_Hash r = h.
Proof.
  revert i seed. induction l as [|x l IH]; intros i seed; cbn.
  - destruct (link seed r) as [want|] eqn:E; [|naive_solver].
    destruct (String.eqb_spec (ar_Hash r) want); cbn; naive_solver.
  - destruct (link seed x) as [want|]; [|naive_solver].
    destruct (String.eqb (ar_Hash x) want); cbn; [apply IH|naive_solver].
Qed.

Lemma sealed_head seed l :
  all_marshal l -> l <> [] -> chainHead (snd (SealFrom seed l)) = fst (SealFrom seed l).
Proof.
  intros Hm Hne. pose proof (seal_verifies 0 seed l Hm) as Hv.
  destruct l as [|r0 l0] using rev_ind; [done|]. clear IHl0.
  destruct (snd (SealFrom seed (l0 ++ [r0]))) as [|x s _] eqn:E using rev_ind.
  - apply (f_equal length) in E. rewrite <- (length_fmap core_of), SealFrom_cores, length_fmap, length_app in E. cbn in E. lia.
  - apply verify_snoc in Hv as (h' & _ & _ & Hh). unfold chainHead. by rewrite last_snoc.
Qed.

(** ** Tampering *)

#[local] Instance recordCore_eq_dec : EqDecision recordCore.
Proof.
  assert (EqDecision Actor) by solve_decision. solve_decision.
Defined.

Lemma link_core prev r h : link prev r = Some h -> h = sha prev (core_of r).
Proof. unfold link. case_goal; [by intros [= <-]|done]. Qed.

(** A record as exported: the stream sequence is not part of the JSON. *)
Definition exported (r : ARecord) : ARecord :=
  mkARecord (ar_Sequence r) 0 (ar_ID r) (ar_Type r) (ar_TenantID r) (ar_Time r) (ar_Actor r) (ar_Data r) (ar_Hash r).

Lemma exported_eq r r' : core_of r = core_of r' -> ar_Hash r = ar_Hash r' -> exported r = exported r'.
Proof. intros H Hh. injection H as Hq Hi Hy Ht Htm Ha Hd. unfold exported. congruence. Qed.

(** What verifying a list hashes: each record after the hash of the one before it. *)
Fixpoint inputs (seed : string) (l : list ARecord) : list (string * recordCore) :=
  match l with
  | [] => []
  | r :: l' => (seed, core_of r) :: inputs (ar_Hash r) l'
  end.

(** Two lists of hash inputs from their ends: the first place where they part. *)
Inductive breakage := Collision (x y : string * recordCore) | Preimage (x : string * recordCore).

Fixpoint find_break (i1 i2 : list (string * recordCore)) : option breakage :=
  match i1, i2 with
  | [], [] => None
  | x :: _, [] | [], x :: _ => Some (Preimage x)
  | x :: i1', y :: i2' => if decide (x = y) then find_break i1' i2' else Some (Collision x y)
  end.

Definition broken (seed : string) (l1 l2 : list ARecord) : option breakage :=
  find_break (rev (inputs seed l1)) (rev (inputs seed l2)).

Lemma inputs_snoc i seed l r h : verify_loop i seed l = Ok h -> inputs seed (l ++ [r]) = inputs seed l ++ [(h, core_of r)].
Proof.
  revert i seed. induction l as [|x l IH]; intros i seed; cbn; [by intros [= <-]|].
  destruct (link seed x) as [want|]; [|done]. destruct (String.eqb_spec (ar_Hash x) want) as [->|]; [cbn|done].
  intros H. by rewrite (IH _ _ H).
Qed.

Lemma last_input i seed l r h : verify_loop i seed (l ++ [r]) = Ok h ->
  exists h', verify_loop i seed l = Ok h' /\ sha h' (core_of r) = h /\ ar_Hash r = h /\
    rev (inputs seed (l ++ [r])) = (h', core_of r) :: rev (inputs seed l).
Proof.
  intros (h' & Hv & Hl & Hh)%verify_snoc. exists h'. rewrite (inputs_snoc _ _ _ _ _ Hv), rev_app_distr.
  split_and!; [done|by apply link_core in Hl|done|done].
Qed.

(** C10: the chain is tamper evident.  Of two lists of records that verify from the same
    seed with the same head, such as the head that was signed when the evidence was
    exported, [broken] computes, from the two lists alone, where they part.  When it
    finds no place, they have the same records, hashes included; when it finds one, it
    gives two different inputs that verifying the lists hashes to the same value, or one
    that it hashes to the seed.  So a record that is altered, dropped, inserted or moved
    changes the head, or hands over a collision of the hash. *)
Theorem tamper_evident seed l1 l2 h :
  VerifyChainFrom seed l1 = Ok h -> VerifyChainFrom seed l2 = Ok h ->
  match broken seed l1 l2 with
  | None => exported <$> l1 = exported <$> l2
  | Some (Collision x y) => x ∈ inputs seed l1 /\ y ∈ inputs seed l2 /\ x <> y /\ sha x.1 x.2 = sha y.1 y.2
  | Some (Preimage x) => x ∈ inputs seed l1 ++ inputs seed l2 /\ sha x.1 x.2 = seed
  end.
Proof.
  unfold VerifyChainFrom, broken. revert l2 h. induction l1 as [|r1 l1 IH] using rev_ind; intros l2 h H1 H2.
  - destruct l2 as [|r2 l2 _] using rev_ind; [done|]. cbn in H1. injection H1 as ->.
    apply last_input in H2 as (h' & Hv & Hs & _ & Hi). rewrite Hi. cbn. split; [|done].
    rewrite (inputs_snoc _ _ _ _ _ Hv). set_solver.
  - apply last_input in H1 as (h1 & Hv1 & Hs1 & Hh1 & Hi1). rewrite Hi1. destruct l2 as [|r2 l2 _] using rev_ind.
    + cbn in H2. injection H2 as ->. cbn. split; [|done]. rewrite (inputs_snoc _ _ _ _ _ Hv1). set_solver.
    + apply last_input in H2 as (h2 & Hv2 & Hs2 & Hh2 & Hi2). rewrite Hi2. cbn [find_break].
      rewrite (inputs_snoc _ _ _ _ _ Hv1), (inputs_snoc _ _ _ _ _ Hv2). case_decide as Heq.
      * pose proof (f_equal snd Heq) as Hcore. apply (f_equal fst) in Heq. cbn [fst snd] in Heq, Hcore. subst h2.
        specialize (IH l2 h1 Hv1 Hv2). destruct (find_break _ _) as [[x y|x]|].
        -- destruct IH as (Hx & Hy & Hxy). split_and!; [set_solver..|apply Hxy|apply Hxy].
        -- destruct IH as [Hx Hs]. split; [|done]. set_solver.
        -- rewrite !fmap_app, IH. cbn [fmap list_fmap]. by rewrite (exported_eq r1 r2) by congruence.
      * split_and!; [set_solver|set_solver|done|]. cbn. congruence.
Qed.

(** ** Queries *)

Context (text_of : data -> string) (redact : string -> Event -> Event) (ledger : string -> string -> option (list string)).

Definition contains (set : list string) (v : string) : bool := existsb (String.eqb v) set.

(** [strings.Contains]. *)
Definition has_substring (s sub : string) : bool :=
  match String.index 0 sub s with Some _ => true | None => false end.

Definition matches (q : Query) (e : Event) (tenantSequence : Z) : bool :=
  if negb (q_AsOfSequence q =? 0) && (q_AsOfSequence q <? tenantSequence) then false
  else if negb (q_Since q =? 0) && (ev_Time e <? q_Since q) then false
  else if negb (q_Until q =? 0) && (q_Until q <? ev_Time e) then false
  else if negb (bool_decide (q_Types q = [])) && negb (contains (q_Types q) (ev_Type e)) then false
  else if match ledger (q_FeatureID q) (q_Action q) with Some ts => negb (contains ts (ev_Type e)) | None => false end then false
  else if negb (String.eqb (q_Contains q) "") && negb (has_substring (ev_Type e) (q_Contains q))
          && negb (has_substring (text_of (ev_Data e)) (q_Contains q)) then false
  else true.

(** The floor of the replay, the seed of the chain and the ordinal of the last
    archived record; [None] is a service without a checkpoint source. *)
Definition searchSeed (cps : option Checkpoints) (tenantID : string) : Z * string * Z :=
  match cps with
  | None => (0, "", 0)
  | Some cps =>
      if String.eqb tenantID "" then (0, "", 0) else
      match LatestAuditCheckpoint tenantID cps with
      | None => (0, "", 0)
      | Some cp => (cp_BoundarySeq cp + 1, cp_BoundaryHash cp, cp_RecordCount cp)
      end
  end.

Context {ES : EventStream} {R : Router}.

Definition search_step (q : Query) (e : Event) (s : Z * list ARecord) : result auditError unit * (Z * list ARecord) :=
  let '(tenantOrdinal, out) := s in
  if negb (String.eqb (ev_TenantID e) (q_TenantID q)) then (Ok tt, s)
  else
    let redacted := redact (q_TenantID q) e in
    let tenantOrdinal := tenantOrdinal + 1 in
    if negb (matches q redacted tenantOrdinal) then (Ok tt, (tenantOrdinal, out))
    else (Ok tt, (tenantOrdinal, out ++ [mkARecord tenantOrdinal (ev_Sequence e) (ev_ID e) (ev_Type e) (ev_TenantID e)
                                           (ev_Time e) (ev_Actor redacted) (ev_Data redacted) ""])).

Definition Search (cps : option Checkpoints) (q : Query) (st : Stream) : result auditError (list ARecord) :=
  if String.eqb (q_TenantID q) "" then Err ErrMissingTenant
  else
    let '(from, seed, base) := searchSeed cps (q_TenantID q) in
    match Replay (search_step q) from st (base, []) with
    | (Err e, _) => Err e
    | (Ok _, (_, out)) =>
        let out := if (0 <? q_Limit q) && (q_Limit q <? Z.of_nat (length out)) then take (Z.to_nat (q_Limit q)) out else out in
        Ok (snd (SealFrom seed out))
    end.

Definition VerifyChain (cps : option Checkpoints) (tenantID : string) (st : Stream) : result auditError string :=
  match Search cps (tenant_query tenantID) st with
  | Err e => Err e
  | Ok recs =>
      let '(_, seed, _) := searchSeed cps tenantID in
      VerifyChainFrom seed recs
  end.

(** ** Bundles *)

Context (sign : Bundle -> option string) (verify : string -> option Bundle).

Definition Export (now : Z) (cps : option Checkpoints) (q : Query) (st : Stream) : result auditError string :=
  match Search cps q st with
  | Err e => Err e
  | Ok recs =>
      let '(_, seed, _) := searchSeed cps (q_TenantID q) in
      match sign (mkBundle (q_TenantID q) now q recs (Z.of_nat (length recs)) seed (chainHead recs)) with
      | None => Err SignError
      | Some s => Ok s
      end
  end.

Definition VerifyBundle (signed : string) : result auditError Bundle :=
  match verify signed with
  | None => Err BadSignature
  | Some b =>
      match VerifyChainFrom (b_PrevHash b) (b_Records b) with
      | Err e => Err e
      | Ok head => if negb (String.eqb head (b_ChainHead b)) then Err HeadMismatch else Ok b
      end
  end.

(** ** Retention *)

Definition EventTypeArchived : string := "audit.archived".

Definition retentionEvent_fields : list field := [
  mkField "count" KInt false; mkField "boundary_sequence" KInt false;
  mkField "boundary_hash" KStr false; mkField "archive_uri" KStr false].

Definition signSegment (now : Z) (tenantID prevHash head : string) (segment : list ARecord) : option string :=
  sign (mkBundle tenantID now (tenant_query tenantID) segment (Z.of_nat (length segment)) prevHash head).

(** The leading run older than the cutoff. *)
Fixpoint due (cutoff : Z) (l : list ARecord) : nat :=
  match l with
  | [] => 0
  | r :: l' => if ar_Time r <=? cutoff then S (due cutoff l') else 0
  end.

Fixpoint prune (segment : list ARecord) (st : Stream) : result auditError unit * Stream :=
  match segment with
  | [] => (Ok tt, st)
  | r :: l =>
      if ar_StreamSequence r =? 0 then (Err MissingStreamSequence, st)
      else match Delete (ar_StreamSequence r) st with
           | (Err e, st) => (Err (PruneError e), st)
           | (Ok _, st) => prune l st
           end
  end.

(** The archive keeps what it was given under a locator. *)
Context (archive : string -> Z -> string -> result string string).

Record Retention := mkRetention { rt_stream : Stream; rt_cps : Checkpoints; rt_archived : list (string * string) }.

(** [save_ok] says whether the checkpoint insert succeeds; [now] and [nuid] are
    what the call draws. *)
Definition archiveTenant (now : Z) (nuid : string) (save_ok : bool) (tenantID : string) (cutoff : Z) (w : Retention)
  : result auditError Z * Retention :=
  match Search (Some (rt_cps w)) (tenant_query tenantID) (rt_stream w) with
  | Err e => (Err e, w)
  | Ok recs =>
      let k := due cutoff recs in
      let segment := take k recs in
      match last segment with
      | None => (Ok 0, w)
      | Some boundary =>
          let '(_, prevSeed, _) := searchSeed (Some (rt_cps w)) tenantID in
          if ar_StreamSequence boundary =? 0 then (Err MissingStreamSequence, w) else
          match signSegment now tenantID prevSeed (ar_Hash boundary) segment with
          | None => (Err SignError, w)
          | Some signed =>
              match VerifyBundle signed with
              | Err e => (Err (VerificationFailed e), w)
              | Ok _ =>
                  match archive tenantID (ar_Sequence boundary) signed with
                  | Err text => (Err (ArchiveError text), w)
                  | Ok uri =>
                      let w := mkRetention (rt_stream w) (rt_cps w) (rt_archived w ++ [(uri, signed)]) in
                      if negb save_ok then (Err CheckpointError, w) else
                      let cps := SaveAuditCheckpoint (mkCheckpoint tenantID (ar_StreamSequence boundary)
                                   (ar_Hash boundary) (ar_Sequence boundary) uri) (rt_cps w) in
                      let w := mkRetention (rt_stream w) cps (rt_archived w) in
                      match prune segment (rt_stream w) with
                      | (Err e, st) => (Err e, mkRetention st (rt_cps w) (rt_archived w))
                      | (Ok _, st) =>
                          let payload := encode_struct retentionEvent_fields
                            [VInt (Z.of_nat (length segment)); VInt (ar_Sequence boundary);
                             VStr (ar_Hash boundary); VStr uri] in
                          match Append now nuid None (mkEvent "" EventTypeArchived tenantID 0 payload 0 None 0) st with
                          | (Err e, st) => (Err (AppendArchived e), mkRetention st (rt_cps w) (rt_archived w))
                          | (Ok _, st) => (Ok (Z.of_nat (length segment)), mkRetention st (rt_cps w) (rt_archived w))
                          end
                      end
                  end
              end
          end
      end
  end.

(** The tenants seen so far are those collected. *)
Definition live_step (e : Event) (out : list string) : result auditError unit * list string :=
  if negb (String.eqb (ev_TenantID e) "") && negb (contains out (ev_TenantID e))
  then (Ok tt, out ++ [ev_TenantID e]) else (Ok tt, out).

Definition liveTenants (st : Stream) : result auditError (list string) :=
  match Replay live_step 0 st [] with
  | (Err e, _) => Err e
  | (Ok _, out) => Ok (merge_sort String.le out)
  end.

Fixpoint run_tenants (now : Z) (nuid : string -> string) (save_ok : string -> bool) (cutoff : Z) (l : list string)
    (sum : Summary) (w : Retention) : result auditError Summary * Summary * Retention :=
  match l with
  | [] => (Ok sum, sum, w)
  | t :: l' =>
      match archiveTenant now (nuid t) (save_ok t) t cutoff w with
      | (Err e, w) => (Err e, sum, w)
      | (Ok n, w) =>
          let sum := if 0 <? n then mkSummary (su_TenantsProcessed sum + 1) (su_SegmentsArchived sum + 1)
                                      (su_RecordsArchived sum + n) (su_RecordsPruned sum + n)
                     else sum in
          run_tenants now nuid save_ok cutoff l' sum w
      end
  end.

(** The summary is returned with the error too. *)
Definition RunOnce (now : Z) (nuid : string -> string) (save_ok : string -> bool) (retention : Z) (w : Retention)
  : result auditError Summary * Summary * Retention :=
  let sum := mkSummary 0 0 0 0 in
  if retention <=? 0 then (Ok sum, sum, w)
  else match liveTenants (rt_stream w) with
       | Err e => (Err e, sum, w)
       | Ok tenants => run_tenants now nuid save_ok (now - retention) tenants sum w
       end.

End Chain.

End AuditTrail.
