(* ===== verification/AuditSpec.v ===== *)
(** * What the audit trail guarantees

    Theorems about search, verification and retention of
    [src/internal/audit]: retention keeps the chain of the survivors as it was,
    prunes nothing that is not in a verified archive, and leaves other tenants
    alone.  The last theorems show two limits: [VerifyChain] of the service
    accepts every log, since it recomputes the hashes it compares, and a rebuild
    of the read model after retention has run loses what the pruned events had
    created. *)

From S2P Require Import Prelude Json Tenancy Events Projections AuditTrail.
Open Scope string_scope.
Open Scope list_scope.
Open Scope Z_scope.

Module AuditSpec.
Import Tenancy Events AuditTrail.

Section Spec.
Context (sha : string -> recordCore -> string) (text_of : data -> string).
Context (redact : string -> Event -> Event) (ledger : string -> string -> option (list string)).
(** No feature or action selects every event type. *)
Context (ledger_unset : ledger "" "" = None).
Context {ES : EventStream} {EL : EventStreamLaws ES} {R : Router}.

#[local] Abbreviation Search := (Search sha text_of redact ledger).
#[local] Abbreviation SealFrom := (SealFrom sha).

(** The records of a tenant in a list of events, numbered after [n]. *)
Fixpoint records_of (tenant : string) (n : Z) (l : list Event) : list ARecord :=
  match l with
  | [] => []
  | e :: l' =>
      if negb (String.eqb (ev_TenantID e) tenant) then records_of tenant n l'
      else mkARecord (n + 1) (ev_Sequence e) (ev_ID e) (ev_Type e) (ev_TenantID e) (ev_Time e)
             (ev_Actor (redact tenant e)) (ev_Data (redact tenant e)) "" :: records_of tenant (n + 1) l'
  end.

Lemma matches_tenant tenant e n : matches text_of ledger (tenant_query tenant) e n = true.
Proof. unfold matches. cbn. by rewrite ledger_unset. Qed.

Lemma each_search tenant l n out :
  each (search_step text_of redact ledger (tenant_query tenant)) l (n, out) =
  (Ok tt, (n + Z.of_nat (length (records_of tenant n l)), out ++ records_of tenant n l)).
Proof.
  revert n out. induction l as [|e l IH]; intros n out; cbn [each records_of].
  - cbn. by rewrite Z.add_0_r, app_nil_r.
  - unfold search_step. cbn [q_TenantID tenant_query].
    destruct (String.eqb (ev_TenantID e) tenant); cbn [negb]; [|apply IH].
    rewrite matches_tenant. cbn [negb]. rewrite IH. cbn [length]. f_equal. f_equal; [lia|]. by rewrite <- app_assoc.
Qed.

(** Boundaries are stream sequences. *)
Definition cps_ok (cps : Checkpoints) : Prop := Forall (fun c => 0 <= cp_BoundarySeq c) cps.

Definition floor_of (cps : option Checkpoints) (tenant : string) : Z := Z.max 1 (fst (fst (searchSeed cps tenant))).
Definition seed_of (cps : option Checkpoints) (tenant : string) : string := snd (fst (searchSeed cps tenant)).
Definition base_of (cps : option Checkpoints) (tenant : string) : Z := snd (searchSeed cps tenant).

Definition unsealed (cps : option Checkpoints) (tenant : string) (st : Stream) : list ARecord :=
  records_of tenant (base_of cps tenant) (events_from (floor_of cps tenant) st).

Lemma Search_tenant cps tenant st :
  match cps with Some l => cps_ok l | None => True end -> tenant <> "" ->
  Search cps (tenant_query tenant) st = Ok (snd (SealFrom (seed_of cps tenant) (unsealed cps tenant st))).
Proof.
  intros Hok Ht. unfold AuditTrail.Search. cbn [q_TenantID tenant_query q_Limit]. rewrite (proj2 (String.eqb_neq _ _) Ht).
  assert (Hf : 0 <= fst (fst (searchSeed cps tenant))).
  { unfold searchSeed. destruct cps as [cps|]; [|done]. case_goal; [done|].
    pose proof (Latest_max tenant cps) as Hm. destruct (LatestAuditCheckpoint tenant cps) as [c|]; [|done].
    destruct Hm as (Hin & _). unfold cps_ok in Hok. rewrite Forall_forall in Hok. specialize (Hok c Hin). cbn. lia. }
  unfold unsealed, seed_of, base_of, floor_of. destruct (searchSeed cps tenant) as [[from seed] base]. cbn [fst snd] in *.
  assert (Hrep : forall s, Replay (search_step text_of redact ledger (tenant_query tenant)) from st s =
    each (search_step text_of redact ledger (tenant_query tenant)) (events_from (Z.max 1 from) st) s).
  { intros s. destruct (Z.eq_dec from 0) as [->|].
    - change (Replay ?f 0 st s) with (Replay f 1 st s). by rewrite Replay_each by lia.
    - replace (Z.max 1 from) with from by lia. by rewrite Replay_each by lia. }
  rewrite Hrep, each_search. done.
Qed.

Lemma records_of_app tenant n l1 l2 :
  records_of tenant n (l1 ++ l2) = records_of tenant n l1 ++ records_of tenant (n + Z.of_nat (length (records_of tenant n l1))) l2.
Proof.
  revert n. induction l1 as [|e l1 IH]; intros n; cbn [app records_of].
  - cbn. by rewrite Z.add_0_r.
  - destruct (negb _); [apply IH|]. rewrite IH. cbn [length app]. do 3 f_equal. lia.
Qed.

Definition all_json (tenant : string) (st : Stream) : Prop :=
  forall e, e ∈ events_from 1 st -> ev_TenantID e = tenant -> marshals (ev_Data (redact tenant e)) = true.

Lemma records_marshal tenant n l :
  (forall e, e ∈ l -> ev_TenantID e = tenant -> marshals (ev_Data (redact tenant e)) = true) -> all_marshal (records_of tenant n l).
Proof.
  revert n. induction l as [|e l IH]; intros n H; cbn [records_of]; [constructor|].
  assert (Hl : forall e, e ∈ l -> ev_TenantID e = tenant -> marshals (ev_Data (redact tenant e)) = true)
    by (intros x Hx; apply H; by right).
  destruct (String.eqb_spec (ev_TenantID e) tenant) as [He|]; cbn [negb]; [|by apply IH].
  constructor; [|by apply IH]. cbn. apply H; [by left|done].
Qed.

Lemma events_from_sub from st e : 0 < from -> e ∈ events_from from st -> e ∈ events_from 1 st.
Proof.
  intros Hf He. apply events_from_elem in He as (raw & Hk & Hg & Heq); [|done].
  apply events_from_elem; [lia|]. exists raw. split; [lia|done].
Qed.

(** [VerifyChain] of the service accepts every log.  The hashes are not
    stored: the search that the verification starts with seals the records it
    reads, and the verification recomputes the same hashes.  So for every content
    of the stream whose payloads are JSON, altered or not, it returns a head and
    never reports tampering; only comparing that head with an exported one can. *)
Theorem VerifyChain_accepts_any_log cps tenant st :
  match cps with Some l => cps_ok l | None => True end -> tenant <> "" -> all_json tenant st ->
  exists h, VerifyChain sha text_of redact ledger cps tenant st = Ok h.
Proof.
  intros Hok Ht Hj. unfold VerifyChain. rewrite Search_tenant by done.
  exists (fst (SealFrom (seed_of cps tenant) (unsealed cps tenant st))).
  unfold seed_of at 1. destruct (searchSeed cps tenant) as [[from seed] base] eqn:E.
  unfold seed_of. rewrite E. cbn [fst snd]. unfold VerifyChainFrom. apply seal_verifies, records_marshal.
  intros e He. apply Hj. eapply events_from_sub; [|exact He]. unfold floor_of. lia.
Qed.

(** ** Retention *)

Context (sign : Bundle -> option string) (verify : string -> option Bundle).
Context (archive : string -> Z -> string -> result string string).

(** A bundle is verified as it was signed; the stream sequence of a record is
    not part of the payload. *)
Definition same_record (r r' : ARecord) : Prop := core_of r = core_of r' /\ ar_Hash r = ar_Hash r'.

Definition faithful : Prop := forall b s b', sign b = Some s -> verify s = Some b' ->
  b_PrevHash b' = b_PrevHash b /\ b_ChainHead b' = b_ChainHead b /\ Forall2 same_record (b_Records b') (b_Records b).

#[local] Abbreviation archiveTenant := (archiveTenant sha text_of redact ledger sign verify archive).
#[local] Abbreviation VerifyBundle := (VerifyBundle sha verify).

(** What a run that got past the checkpoint has done. *)
Record sealed_run (now : Z) (nuid tenant : string) (cutoff : Z) (w w' : Retention) (res : result auditError Z)
    (seg rest : list ARecord) (boundary : ARecord) (signed : string) (b : Bundle) (uri : string) : Prop := {
  sr_recs : Search (Some (rt_cps w)) (tenant_query tenant) (rt_stream w) = Ok (seg ++ rest);
  sr_due : Forall (fun r => ar_Time r <= cutoff) seg;
  sr_rest : match rest with [] => True | r :: _ => cutoff < ar_Time r end;
  sr_last : last seg = Some boundary;
  sr_sign : sign (mkBundle tenant now (tenant_query tenant) seg (Z.of_nat (length seg))
              (seed_of (Some (rt_cps w)) tenant) (ar_Hash boundary)) = Some signed;
  sr_bundle : VerifyBundle signed = Ok b;
  sr_archived : rt_archived w' = rt_archived w ++ [(uri, signed)];
  sr_cps : rt_cps w' = SaveAuditCheckpoint
    (mkCheckpoint tenant (ar_StreamSequence boundary) (ar_Hash boundary) (ar_Sequence boundary) uri) (rt_cps w);
  sr_end : exists pr st1, prune seg (rt_stream w) = (pr, st1) /\
    match pr with
    | Err e => res = Err e /\ rt_stream w' = st1
    | Ok _ => exists data ar st2,
        Append now nuid None (mkEvent "" EventTypeArchived tenant 0 data 0 None 0) st1 = (ar, st2) /\ rt_stream w' = st2 /\
        match ar with Err e => res = Err (AppendArchived e) | Ok _ => res = Ok (Z.of_nat (length seg)) end
    end
}.

Lemma due_spec cutoff l : Forall (fun r => ar_Time r <= cutoff) (take (due cutoff l) l).
Proof.
  induction l as [|r l IH]; cbn; [constructor|]. destruct (Z.leb_spec (ar_Time r) cutoff); cbn; [|constructor].
  by constructor.
Qed.

Lemma due_maximal cutoff l : match drop (due cutoff l) l with [] => True | r :: _ => cutoff < ar_Time r end.
Proof. induction l as [|r l IH]; cbn; [done|]. destruct (Z.leb_spec (ar_Time r) cutoff); cbn; [apply IH|lia]. Qed.

Lemma archive_cases now nuid save_ok tenant cutoff w res w' :
  archiveTenant now nuid save_ok tenant cutoff w = (res, w') ->
  (rt_stream w' = rt_stream w /\ rt_cps w' = rt_cps w /\ (forall n, res = Ok n -> n = 0 /\ w' = w)) \/
  exists seg rest boundary signed b uri, sealed_run now nuid tenant cutoff w w' res seg rest boundary signed b uri.
Proof.
  unfold AuditTrail.archiveTenant. destruct (Search _ _ _) as [recs|e] eqn:Hs; [|intros [= <- <-]; by left].
  destruct (last (take (due cutoff recs) recs)) as [boundary|] eqn:Hl; [|intros [= <- <-]; left; split_and!; try done; by intros n [= <-]].
  destruct (searchSeed _ _) as [[from seed] base] eqn:Hseed.
  destruct (ar_StreamSequence boundary =? 0); [intros [= <- <-]; by left|].
  unfold signSegment. destruct (sign _) as [signed|] eqn:Hsign; [|intros [= <- <-]; by left].
  destruct (VerifyBundle signed) as [b|e] eqn:Hb; [|intros [= <- <-]; by left].
  destruct (archive _ _ _) as [uri|text]; [|intros [= <- <-]; by left].
  destruct save_ok; cbn [negb]; [|intros [= <- <-]; by left]. cbn [rt_stream rt_cps rt_archived].
  intros H. right. exists (take (due cutoff recs) recs), (drop (due cutoff recs) recs), boundary, signed, b, uri.
  assert (Hmain : rt_cps w' = SaveAuditCheckpoint
      (mkCheckpoint tenant (ar_StreamSequence boundary) (ar_Hash boundary) (ar_Sequence boundary) uri) (rt_cps w) /\
    rt_archived w' = rt_archived w ++ [(uri, signed)] /\
    exists pr st1, prune (take (due cutoff recs) recs) (rt_stream w) = (pr, st1) /\
    match pr with
    | Err e => res = Err e /\ rt_stream w' = st1
    | Ok _ => exists data ar st2,
        Append now nuid None (mkEvent "" EventTypeArchived tenant 0 data 0 None 0) st1 = (ar, st2) /\ rt_stream w' = st2 /\
        match ar with Err e => res = Err (AppendArchived e) | Ok _ => res = Ok (Z.of_nat (length (take (due cutoff recs) recs))) end
    end).
  { destruct (prune _ (rt_stream w)) as [[[]|e] st1]; [|injection H as <- <-; cbn; split_and!; try done; do 2 eexists; (split; [reflexivity|]); by split].
    destruct (Append _ _ _ _ st1) as [[ev|e] st2] eqn:Ha; injection H as <- <-; cbn; split_and!; try done;
      do 2 eexists; (split; [done|]); cbn; do 3 eexists; (split; [exact Ha|]); done. }
  destruct Hmain as (Hcps & Har & Hend).
  split; try done; [by rewrite take_drop|apply due_spec|apply due_maximal|].
  unfold seed_of. by rewrite Hseed.
Qed.

(** Deleting removes exactly the given sequences. *)
Lemma prune_spec seg st res st' :
  prune seg st = (res, st') ->
  LastSeq st' = LastSeq st /\ (forall id, Fresh st id -> Fresh st' id) /\
  (forall k, GetMsg st' k = GetMsg st k \/ (GetMsg st' k = None /\ k ∈ (ar_StreamSequence <$> seg))) .
Proof.
  revert st. induction seg as [|r seg IH]; intros st H; cbn [prune] in H.
  - injection H as _ <-. split_and!; auto.
  - destruct (ar_StreamSequence r =? 0); [injection H as _ <-; split_and!; auto|]. unfold Delete in H.
    destruct (DeleteMsg st (ar_StreamSequence r)) as [st1|] eqn:E; [|injection H as _ <-; split_and!; auto].
    destruct (IH _ H) as (Hl & Hf & Hg). split_and!.
    + rewrite Hl. by eapply Delete_last.
    + intros id Hid. apply Hf. by eapply Delete_fresh.
    + intros k. cbn [fmap list_fmap]. rewrite elem_of_cons. destruct (Hg k) as [Hk|[Hk Hin]]; [|right; tauto].
      destruct (decide (k = ar_StreamSequence r)) as [->|Hne].
      * right. rewrite Hk. split; [by eapply Delete_gone|by left].
      * left. rewrite Hk. by eapply Delete_others.
Qed.

(** ** The segment in the chain *)

Lemma verify_loop_same i seed l l' :
  Forall2 same_record l l' -> verify_loop sha i seed l = verify_loop sha i seed l'.
Proof.
  intros H. revert i seed. induction H as [|r r' l l' [Hc Hh] _ IH]; intros i seed; cbn; [done|].
  injection Hc as Hq Hi Hty Htn Htm Hac Hd. unfold link. rewrite <- Hd.
  assert (Hcore : core_of r = core_of r') by (unfold core_of; congruence). rewrite <- Hcore, <- Hh, <- Hq, <- Hty.
  destruct (marshals (ar_Data r)); [|done]. case_goal; [done|apply IH].
Qed.

Lemma SealFrom_head_cores seed l l' : core_of <$> l = core_of <$> l' -> fst (SealFrom seed l) = fst (SealFrom seed l').
Proof.
  revert seed l'. induction l as [|r l IH]; intros seed [|r' l'] H; [done|done|done|].
  cbn [fmap list_fmap] in H. injection H. intros Hl Hd Hac Htm Htn Hty Hi Hq. cbn [AuditTrail.SealFrom]. unfold link. rewrite <- Hd.
  assert (Hcore : core_of r = core_of r') by (unfold core_of; congruence). rewrite <- Hcore.
  destruct (marshals (ar_Data r)).
  - specialize (IH (sha seed (core_of r)) l' Hl). destruct (SealFrom _ l), (SealFrom _ l'). exact IH.
  - specialize (IH seed l' Hl). destruct (SealFrom _ l), (SealFrom _ l'). exact IH.
Qed.

Lemma SealFrom_streams seed l : ar_StreamSequence <$> snd (SealFrom seed l) = ar_StreamSequence <$> l.
Proof.
  revert seed. induction l as [|r l IH]; intros seed; cbn; [done|].
  destruct (link sha seed r) as [h|]; [specialize (IH h); destruct (SealFrom h l)|specialize (IH seed); destruct (SealFrom seed l)];
    cbn in *; by rewrite IH.
Qed.

Lemma SealFrom_length seed l : length (snd (SealFrom seed l)) = length l.
Proof. by rewrite <- (length_fmap core_of), SealFrom_cores, length_fmap. Qed.

Lemma sealed_segment now nuid tenant cutoff w w' res seg rest boundary signed b uri :
  faithful -> sealed_run now nuid tenant cutoff w w' res seg rest boundary signed b uri ->
  SealFrom (seed_of (Some (rt_cps w)) tenant) seg = (ar_Hash boundary, seg) /\ Forall2 same_record (b_Records b) seg /\
  b_PrevHash b = seed_of (Some (rt_cps w)) tenant.
Proof.
  intros Hfaith []. unfold AuditTrail.VerifyBundle in sr_bundle0.
  destruct (verify signed) as [b'|] eqn:Hv; [|done].
  destruct (VerifyChainFrom sha (b_PrevHash b') (b_Records b')) as [head|] eqn:Hc; [|done].
  destruct (String.eqb_spec head (b_ChainHead b')) as [->|]; [|done]. cbn in sr_bundle0. injection sr_bundle0 as ->.
  destruct (Hfaith _ _ _ sr_sign0 Hv) as (Hp & Hh & Hr). cbn in Hp, Hh, Hr.
  unfold VerifyChainFrom in Hc. rewrite (verify_loop_same _ _ _ _ Hr), Hp, Hh in Hc.
  apply verify_sealed in Hc as [_ Hc]. by split_and!.
Qed.

Lemma records_of_elem tenant n l r :
  r ∈ records_of tenant n l -> exists e, e ∈ l /\ ev_Sequence e = ar_StreamSequence r /\ ev_TenantID e = tenant /\
    ev_ID e = ar_ID r /\ ev_Type e = ar_Type r.
Proof.
  revert n. induction l as [|e l IH]; intros n; cbn [records_of]; [by intros ?%elem_of_nil|].
  destruct (String.eqb_spec (ev_TenantID e) tenant) as [He|]; cbn [negb].
  - intros [->|H]%elem_of_cons; [exists e; split; [by left|done]|].
    destruct (IH _ H) as (x & Hx & ?). exists x. split; [by right|done].
  - intros H. destruct (IH _ H) as (x & Hx & ?). exists x. split; [by right|done].
Qed.

Lemma records_of_sequence tenant n l r : last (records_of tenant n l) = Some r ->
  ar_Sequence r = n + Z.of_nat (length (records_of tenant n l)).
Proof.
  revert n. induction l as [|e l IH]; intros n; cbn [records_of]; [done|].
  destruct (negb _); [apply IH|]. specialize (IH (n + 1)). destruct (records_of tenant (n + 1) l) as [|x l'] eqn:E.
  - intros [= <-]. cbn. lia.
  - intros H. specialize (IH H). cbn [length] in *. lia.
Qed.

Lemma records_of_streams tenant n l lo hi :
  Forall (fun e => lo <= ev_Sequence e <= hi) l -> Forall (fun r => lo <= ar_StreamSequence r <= hi) (records_of tenant n l).
Proof.
  intros H. rewrite Forall_forall in H. apply Forall_forall. intros r Hr. apply records_of_elem in Hr as (e & He & Hs & _).
  rewrite <- Hs. by apply H.
Qed.

Lemma events_range_bounds n seq st : Forall (fun e => seq <= ev_Sequence e <= seq + Z.of_nat n - 1) (events_range n seq st).
Proof.
  apply Forall_forall. intros e He. apply events_range_elem in He as (k & raw & Hk & _ & ->). cbn. lia.
Qed.

(** The records up to the boundary, and the records after it. *)
Lemma boundary_split tenant base F st U1 U2 boundary :
  0 < F -> records_of tenant base (events_from F st) = U1 ++ U2 -> last U1 = Some boundary ->
  let B := ar_StreamSequence boundary in
  F <= B <= LastSeq st /\ Forall (fun r => ar_StreamSequence r <= B) U1 /\
  records_of tenant (ar_Sequence boundary) (events_from (B + 1) st) = U2.
Proof.
  intros HF HU Hl B.
  assert (Hb : boundary ∈ U1 ++ U2) by (apply elem_of_app; left; by apply last_Some_elem_of).
  rewrite <- HU in Hb. apply records_of_elem in Hb as (e & He & Hs & Ht & _).
  apply events_from_elem in He as (raw & HFe & Hg & Heq); [|done]. rewrite Hs in HFe, Hg, Heq.
  fold B in HFe, Hg, Heq. pose proof (GetMsg_range _ _ _ Hg) as HB.
  assert (Hsplit : events_from F st = events_range (Z.to_nat (B - F)) F st ++ [e] ++ events_from (B + 1) st).
  { unfold events_from. replace (Z.to_nat (LastSeq st - F + 1)) with
      (Z.to_nat (B - F) + (1 + Z.to_nat (LastSeq st - (B + 1) + 1)))%nat by lia.
    rewrite !Projections.events_range_app. cbn [events_range].
    replace (F + Z.of_nat (Z.to_nat (B - F))) with B by lia. rewrite Hg, <- Heq. done. }
  rewrite Hsplit, !records_of_app in HU.
  set (A0 := records_of tenant base (events_range (Z.to_nat (B - F)) F st)) in HU.
  set (n0 := base + Z.of_nat (length A0)) in HU.
  assert (Hone : exists x, records_of tenant n0 [e] = [x] /\ ar_StreamSequence x = B /\ ar_Sequence x = n0 + 1).
  { cbn. rewrite Ht, String.eqb_refl. cbn. eexists. split; [done|]. by rewrite Hs. }
  destruct Hone as (x & Hx & HxB & Hxs). rewrite Hx in HU. cbn [length] in HU.
  set (C := records_of tenant (n0 + Z.of_nat 1) (events_from (B + 1) st)) in HU.
  assert (HA0 : Forall (fun r => F <= ar_StreamSequence r <= B - 1) A0).
  { apply records_of_streams. eapply Forall_impl; [apply events_range_bounds|]. cbn. lia. }
  assert (HC : Forall (fun r => B + 1 <= ar_StreamSequence r <= LastSeq st) C).
  { apply records_of_streams. apply Forall_forall. intros y Hy.
    apply events_from_elem in Hy as (? & ? & Hgy & _); [|lia]. apply GetMsg_range in Hgy. lia. }
  rewrite last_lookup in Hl. assert (Hidx : (A0 ++ x :: C) !! pred (length U1) = Some boundary).
  { change (A0 ++ x :: C) with (A0 ++ [x] ++ C). rewrite HU. rewrite lookup_app_l; [done|].
    apply lookup_lt_Some in Hl. done. }
  assert (Hlen : length U1 = S (length A0)).
  { pose proof (lookup_lt_Some _ _ _ Hl) as Hlt.
    destruct (Nat.lt_trichotomy (pred (length U1)) (length A0)) as [H|[H|H]]; [exfalso| lia|exfalso].
    - rewrite lookup_app_l in Hidx by done. apply list_elem_of_lookup_2 in Hidx. rewrite Forall_forall in HA0.
      specialize (HA0 _ Hidx). fold B in HA0. lia.
    - rewrite lookup_app_r in Hidx by lia.
      destruct (pred (length U1) - length A0)%nat as [|j] eqn:Ej; [lia|]. cbn in Hidx.
      apply list_elem_of_lookup_2 in Hidx. rewrite Forall_forall in HC. specialize (HC _ Hidx). fold B in HC. lia. }
  rewrite Hlen in Hidx. cbn in Hidx. rewrite list_lookup_middle in Hidx by done. injection Hidx as <-.
  rewrite app_assoc in HU. apply app_inj_1 in HU as [HU1 HU2]; [|rewrite length_app, Hlen; cbn; lia].
  split_and!; [lia|lia| |rewrite Hxs; exact HU2].
  rewrite <- HU1. apply Forall_app. split; [eapply Forall_impl; [exact HA0|cbn; lia]|]. repeat constructor. lia.
Qed.

(** ** What a retention run leaves behind *)

(** Checkpoints are boundaries in the stream. *)
Definition retention_ok (w : Retention) : Prop :=
  Forall (fun c => 0 <= cp_BoundarySeq c <= LastSeq (rt_stream w)) (rt_cps w).

Lemma retention_cps_ok w : retention_ok w -> cps_ok (rt_cps w).
Proof. intros H. eapply Forall_impl; [exact H|]. cbn. lia. Qed.

Lemma floor_range w tenant : retention_ok w -> 0 < floor_of (Some (rt_cps w)) tenant <= Z.max 0 (LastSeq (rt_stream w)) + 1.
Proof.
  intros H. unfold floor_of, searchSeed. destruct (String.eqb tenant ""); [cbn; lia|].
  pose proof (Latest_max tenant (rt_cps w)) as Hm. destruct (LatestAuditCheckpoint tenant (rt_cps w)) as [c|]; [|cbn; lia].
  destruct Hm as (Hin & _). unfold retention_ok in H. rewrite Forall_forall in H. specialize (H c Hin). cbn. lia.
Qed.

(** Past the floor of a tenant, its checkpoint is new. *)
Lemma SaveAuditCheckpoint_new cp cps :
  cp_TenantID cp <> "" -> floor_of (Some cps) (cp_TenantID cp) <= cp_BoundarySeq cp ->
  SaveAuditCheckpoint cp cps = cps ++ [cp] /\ LatestAuditCheckpoint (cp_TenantID cp) (cps ++ [cp]) = Some cp.
Proof.
  intros Ht Hf.
  assert (Hlt : Forall (fun x => cp_TenantID x = cp_TenantID cp -> cp_BoundarySeq x < cp_BoundarySeq cp) cps).
  { unfold floor_of, searchSeed in Hf. rewrite (proj2 (String.eqb_neq _ _) Ht) in Hf.
    pose proof (Latest_max (cp_TenantID cp) cps) as Hm. destruct (LatestAuditCheckpoint (cp_TenantID cp) cps) as [c|].
    - destruct Hm as (_ & _ & Hm). eapply Forall_impl; [exact Hm|]. cbn in *. intros x Hx Hxt. specialize (Hx Hxt). lia.
    - eapply Forall_impl; [exact Hm|]. cbn. congruence. }
  split; [|by apply Latest_app]. unfold SaveAuditCheckpoint. rewrite (proj1 (not_true_iff_false _)); [done|].
  rewrite existsb_exists. intros (x & Hx & Hs). unfold same_boundary in Hs. apply andb_true_iff in Hs as [Hxt Hxb].
  apply String.eqb_eq in Hxt. apply Z.eqb_eq in Hxb. rewrite Forall_forall in Hlt. apply list_elem_of_In in Hx.
  specialize (Hlt x Hx (eq_sym Hxt)). lia.
Qed.

(** Events of other tenants are all a tenant's records depend on. *)
Lemma records_of_ext tenant n st st' m seq :
  (forall k, seq <= k < seq + Z.of_nat m -> GetMsg st' k = GetMsg st k \/
     (GetMsg st' k = None /\ exists raw, GetMsg st k = Some raw /\ s_TenantID raw <> tenant)) ->
  records_of tenant n (events_range m seq st') = records_of tenant n (events_range m seq st).
Proof.
  revert n seq. induction m as [|m IH]; intros n seq H; [done|]. cbn [events_range].
  assert (Hrest : forall n, records_of tenant n (events_range m (seq + 1) st') = records_of tenant n (events_range m (seq + 1) st)).
  { intros n'. apply IH. intros k Hk. apply H. lia. }
  destruct (H seq) as [->|[-> (raw & -> & Ht)]]; [lia| |].
  - destruct (GetMsg st seq) as [raw|]; [|apply Hrest]. cbn [records_of]. case_goal; by rewrite Hrest.
  - cbn [records_of]. unfold decodeStored at 1. cbn [ev_TenantID].
    by rewrite (proj2 (String.eqb_neq _ _) Ht).
Qed.

(** The sequences of a segment carry events of the tenant. *)
Lemma segment_events now nuid tenant cutoff w w' res seg rest boundary signed b uri :
  retention_ok w -> tenant <> "" ->
  sealed_run now nuid tenant cutoff w w' res seg rest boundary signed b uri ->
  Forall (fun r => exists raw, GetMsg (rt_stream w) (ar_StreamSequence r) = Some raw /\ s_TenantID raw = tenant /\
    s_ID raw = ar_ID r /\ s_Type raw = ar_Type r) seg.
Proof.
  intros Hok Ht []. rewrite Search_tenant in sr_recs0; [|by apply retention_cps_ok|done].
  injection sr_recs0 as Hrecs. apply Forall_forall. intros r Hr.
  set (U := unsealed (Some (rt_cps w)) tenant (rt_stream w)) in Hrecs.
  assert (Hin : exists u, u ∈ U /\ ar_StreamSequence u = ar_StreamSequence r /\ core_of u = core_of r).
  { assert (Hr' : r ∈ snd (SealFrom (seed_of (Some (rt_cps w)) tenant) U)) by (rewrite Hrecs; apply elem_of_app; by left).
    apply list_elem_of_lookup in Hr' as [j Hj].
    pose proof (f_equal (fun l => l !! j) (SealFrom_cores sha (seed_of (Some (rt_cps w)) tenant) U)) as Hc.
    pose proof (f_equal (fun l => l !! j) (SealFrom_streams (seed_of (Some (rt_cps w)) tenant) U)) as Hs.
    cbn beta in Hc, Hs. rewrite !list_lookup_fmap, Hj in Hc. rewrite !list_lookup_fmap, Hj in Hs.
    destruct (U !! j) as [u|] eqn:Eu; [|done]. cbn in Hc, Hs.
    exists u. split; [by eapply list_elem_of_lookup_2|]. split; [congruence|congruence]. }
  destruct Hin as (u & Hu & Hst & Hcore). apply records_of_elem in Hu as (e & He & Hes & Het & Hid & Hty).
  pose proof (floor_range w tenant Hok) as [Hf _].
  apply events_from_elem in He as (raw & _ & Hg & Heq); [|done]. rewrite Hes, Hst in Hg. exists raw.
  injection Hcore as _ Hi Hy _ _ _ _. rewrite Heq in Het, Hid, Hty. cbn in *. split_and!; congruence.
Qed.

(** The unsealed records behind a segment and its survivors. *)
Lemma segment_split seed U seg rest boundary :
  snd (SealFrom seed U) = seg ++ rest -> SealFrom seed seg = (ar_Hash boundary, seg) -> last seg = Some boundary ->
  exists U1 U2 u, U = U1 ++ U2 /\ last U1 = Some u /\ ar_StreamSequence <$> U1 = ar_StreamSequence <$> seg /\
    ar_StreamSequence u = ar_StreamSequence boundary /\ ar_Sequence u = ar_Sequence boundary /\
    rest = snd (SealFrom (ar_Hash boundary) U2).
Proof.
  intros HU Hseg Hl. rewrite <- (take_drop (length seg) U) in HU.
  set (U1 := take (length seg) U) in *. set (U2 := drop (length seg) U) in *.
  rewrite SealFrom_app in HU. cbn [snd] in HU.
  assert (Hlen : length U1 = length seg).
  { apply (f_equal length) in HU. rewrite !length_app, !SealFrom_length in HU. unfold U1, U2 in *.
    rewrite length_take, length_drop in *. lia. }
  apply app_inj_1 in HU as [HU1 HU2]; [|by rewrite SealFrom_length].
  assert (Hh : fst (SealFrom seed U1) = ar_Hash boundary).
  { rewrite (SealFrom_head_cores seed U1 seg); [by rewrite Hseg|]. rewrite <- HU1. by rewrite SealFrom_cores. }
  rewrite Hh in HU2.
  pose proof (SealFrom_streams seed U1) as Hst. pose proof (SealFrom_cores sha seed U1) as Hco. rewrite HU1 in Hst, Hco.
  rewrite last_lookup in Hl. pose proof (f_equal (fun l => l !! pred (length seg)) Hst) as Hs1.
  pose proof (f_equal (fun l => l !! pred (length seg)) Hco) as Hc1. cbn beta in Hs1, Hc1.
  rewrite !list_lookup_fmap, Hl in Hs1. rewrite !list_lookup_fmap, Hl in Hc1.
  destruct (U1 !! pred (length seg)) as [u|] eqn:Eu; [|done]. cbn [fmap option_fmap option_map] in Hs1, Hc1.
  injection Hs1 as Hs1. injection Hc1 as Hq _ _ _ _ _ _.
  exists U1, U2, u. split_and!; [symmetry; apply take_drop|by rewrite last_lookup, Hlen|done|congruence|congruence|done].
Qed.

Lemma events_from_prune seg st res st1 from :
  prune seg st = (res, st1) -> Forall (fun r => ar_StreamSequence r < from) seg -> events_from from st1 = events_from from st.
Proof.
  intros Hpr Hs. destruct (prune_spec _ _ _ _ Hpr) as (Hl & _ & Hg). unfold events_from. rewrite Hl.
  apply events_range_ext. intros k Hk. destruct (Hg k) as [|[_ Hin]]; [done|exfalso].
  apply list_elem_of_fmap in Hin as (r & -> & Hr). rewrite Forall_forall in Hs. specialize (Hs r Hr). lia.
Qed.

(** The state after a run that archived [seg] up to a boundary and noted it. *)
Section After.
Context (tenant : string) (w : Retention) (seg : list ARecord) (st1 st2 : Stream) (cp : Checkpoint) (note : Event).
Context (Hok : retention_ok w) (Hok' : cps_ok (rt_cps w ++ [cp])) (Hcp : cp_TenantID cp = tenant).
Context (Hpr : prune seg (rt_stream w) = (Ok tt, st1)) (Hnote : ev_TenantID note = tenant).
Context (Hlog : forall from, 0 < from <= LastSeq st1 + 1 -> events_from from st2 = events_from from st1 ++ [note]).

Lemma search_survivors U2 :
  tenant <> "" -> 0 <= cp_BoundarySeq cp <= LastSeq (rt_stream w) ->
  LatestAuditCheckpoint tenant (rt_cps w ++ [cp]) = Some cp ->
  Forall (fun r => ar_StreamSequence r < cp_BoundarySeq cp + 1) seg ->
  records_of tenant (cp_RecordCount cp) (events_from (cp_BoundarySeq cp + 1) (rt_stream w)) = U2 ->
  exists last, ar_Type last = ev_Type note /\
    Search (Some (rt_cps w ++ [cp])) (tenant_query tenant) st2 = Ok (snd (SealFrom (cp_BoundaryHash cp) U2) ++ [last]).
Proof.
  intros Ht HB Hlatest Hseg HU2. rewrite Search_tenant by done.
  assert (Hseed : searchSeed (Some (rt_cps w ++ [cp])) tenant = (cp_BoundarySeq cp + 1, cp_BoundaryHash cp, cp_RecordCount cp)).
  { unfold searchSeed. by rewrite (proj2 (String.eqb_neq _ _) Ht), Hlatest. }
  destruct (prune_spec _ _ _ _ Hpr) as (Hl1 & _ & _).
  unfold unsealed, seed_of, base_of, floor_of. rewrite Hseed. cbn [fst snd].
  replace (Z.max 1 (cp_BoundarySeq cp + 1)) with (cp_BoundarySeq cp + 1) by lia.
  rewrite Hlog by lia. rewrite records_of_app, (events_from_prune _ _ _ _ _ Hpr Hseg), HU2, SealFrom_app. cbn [snd records_of].
  rewrite Hnote, String.eqb_refl. cbn [negb AuditTrail.SealFrom]. destruct (link sha _ _); eexists; (split; [|reflexivity]); reflexivity.
Qed.

Lemma search_other t :
  t <> tenant -> t <> "" ->
  Forall (fun r => exists raw, GetMsg (rt_stream w) (ar_StreamSequence r) = Some raw /\ s_TenantID raw = tenant) seg ->
  Search (Some (rt_cps w ++ [cp])) (tenant_query t) st2 = Search (Some (rt_cps w)) (tenant_query t) (rt_stream w).
Proof.
  intros Hne Ht Hev. rewrite !Search_tenant by (done || by apply retention_cps_ok).
  assert (Hs' : searchSeed (Some (rt_cps w ++ [cp])) t = searchSeed (Some (rt_cps w)) t).
  { unfold searchSeed. rewrite Latest_app_other; [done|]. congruence. }
  destruct (prune_spec _ _ _ _ Hpr) as (Hl1 & _ & Hg1). pose proof (LastSeq_nonneg (rt_stream w)) as Hl0.
  pose proof (floor_range w t Hok) as [Hft1 Hft2].
  unfold seed_of, unsealed, base_of, floor_of in *. rewrite Hs'. do 3 f_equal.
  rewrite Hlog by lia. rewrite records_of_app. cbn [records_of].
  rewrite (proj2 (String.eqb_neq _ _)) by congruence. cbn [negb]. rewrite app_nil_r.
  unfold events_from. rewrite Hl1. apply records_of_ext. intros k Hk.
  destruct (Hg1 k) as [|[Hk' Hin]]; [by left|right]. split; [done|].
  apply list_elem_of_fmap in Hin as (r & -> & Hr). rewrite Forall_forall in Hev.
  destruct (Hev r Hr) as (raw & Hraw & Hrt). exists raw. split; [done|congruence].
Qed.

End After.

(** C11: retention keeps the chain.  When a run over a tenant succeeds, either
    nothing was due and nothing changed, or the records it found are a segment,
    all of it due, followed by the survivors, of which the first is not; the segment is archived in a bundle
    that verifies, continues the previous boundary and carries exactly the
    records of the segment; and from then on a search returns exactly the
    survivors, every hash as it was, and the note of the run.  The searches of
    other tenants return what they returned before. *)
Theorem retention_keeps_chain now nuid save_ok tenant cutoff w n w' recs :
  faithful -> retention_ok w -> Fresh (rt_stream w) nuid -> tenant <> "" ->
  archiveTenant now nuid save_ok tenant cutoff w = (Ok n, w') ->
  Search (Some (rt_cps w)) (tenant_query tenant) (rt_stream w) = Ok recs ->
  retention_ok w' /\ (n = 0 -> w' = w) /\
  (0 < n -> exists seg rest note uri signed b,
     recs = seg ++ rest /\ n = Z.of_nat (length seg) /\ Forall (fun r => ar_Time r <= cutoff) seg /\
     match rest with [] => True | r :: _ => cutoff < ar_Time r end /\
     rt_archived w' = rt_archived w ++ [(uri, signed)] /\ VerifyBundle signed = Ok b /\
     b_PrevHash b = seed_of (Some (rt_cps w)) tenant /\ Forall2 same_record (b_Records b) seg /\
     Search (Some (rt_cps w')) (tenant_query tenant) (rt_stream w') = Ok (rest ++ [note]) /\
     ar_Type note = EventTypeArchived) /\
  (forall t, t <> tenant -> t <> "" ->
     Search (Some (rt_cps w')) (tenant_query t) (rt_stream w') = Search (Some (rt_cps w)) (tenant_query t) (rt_stream w)).
Proof.
  intros Hfa Hok Hfr Ht H Hrecs.
  destruct (archive_cases _ _ _ _ _ _ _ _ H) as [(Hst & Hcps & Hz)|(seg & rest & boundary & signed & b & uri & Hr)].
  { destruct (Hz n eq_refl) as [-> ->]. split_and!; try done. }
  destruct (sealed_segment _ _ _ _ _ _ _ _ _ _ _ _ _ Hfa Hr) as (Hseal & Hsame & Hprev).
  pose proof (segment_events _ _ _ _ _ _ _ _ _ _ _ _ _ Hok Ht Hr) as Hev. destruct Hr.
  rewrite Hrecs in sr_recs0. injection sr_recs0 as ->.
  destruct sr_end0 as (pr & st1 & Hpr & Hend). destruct pr as [[]|]; [|by destruct Hend].
  destruct Hend as (data & [ev|] & st2 & Ha & Hst2 & Hres); [|done]. injection Hres as ->.
  destruct (prune_spec _ _ _ _ Hpr) as (Hl1 & Hf1 & Hg1).
  apply append_ok in Ha as (Hty & Htn & _ & _ & _ & _ & _ & Hs & Hl2 & Hlog); [|exact (Hf1 _ Hfr)]. cbn in Hty, Htn.
  pose proof (LastSeq_nonneg (rt_stream w)) as Hl0.
  rewrite Search_tenant in Hrecs; [|by apply retention_cps_ok|done]. injection Hrecs as Hrecs.
  destruct (segment_split _ _ _ _ _ Hrecs Hseal sr_last0) as (U1 & U2 & u & HU & Hlu & Hstreams & Hus & Huq & Hrest).
  pose proof (floor_range w tenant Hok) as [Hfl _].
  destruct (boundary_split _ _ _ _ _ _ _ Hfl HU Hlu) as (HB & Hle & HU2). rewrite Hus in HB, Hle, HU2. rewrite Huq in HU2.
  set (B := ar_StreamSequence boundary) in *.
  assert (Hsegle : Forall (fun r => ar_StreamSequence r < B + 1) seg).
  { rewrite <- (Forall_fmap ar_StreamSequence (fun q => q < B + 1)), <- Hstreams, Forall_fmap.
    eapply Forall_impl; [exact Hle|]. cbn. lia. }
  set (cp := mkCheckpoint tenant B (ar_Hash boundary) (ar_Sequence boundary) uri) in *.
  destruct (SaveAuditCheckpoint_new cp (rt_cps w)) as [Hsave Hlatest]; [done|cbn; lia|]. rewrite Hsave in sr_cps0.
  assert (Hok' : retention_ok w').
  { unfold retention_ok. rewrite sr_cps0, Hst2. apply Forall_app. split; [|repeat constructor; cbn; lia].
    eapply Forall_impl; [exact Hok|]. cbn. lia. }
  assert (Hcok : cps_ok (rt_cps w ++ [cp])) by (apply retention_cps_ok in Hok'; by rewrite sr_cps0 in Hok').
  rewrite sr_cps0, Hst2. split_and!; [done| | |].
  - intros Hz. exfalso. destruct seg; [done|]. cbn in Hz. lia.
  - intros _. destruct (search_survivors tenant w seg st1 st2 cp ev Hcok Hpr Htn Hlog U2) as (note & Hnt & Hsearch);
      [done|cbn; lia|done|done|done|].
    cbn [cp_BoundaryHash cp] in Hsearch. rewrite <- Hrest in Hsearch. exists seg, rest, note, uri, signed, b. split_and!; try done. congruence.
  - intros t Hne Ht'. apply (search_other tenant w seg st1 st2 cp ev); try done.
    eapply Forall_impl; [exact Hev|]. cbn. naive_solver.
Qed.

(** ** Nothing is pruned that is not archived *)

Lemma append_get now nuid actor e st ar st2 k m :
  Fresh st nuid -> ev_ID e = "" -> Append now nuid actor e st = (ar, st2) -> GetMsg st k = Some m -> GetMsg st2 k = Some m.
Proof.
  intros Hfr Hid H Hg. unfold Append, append in H. rewrite Hid in H. cbn [String.eqb orb] in H.
  repeat (case_in H; [injection H as _ <-; exact Hg|]). case_in H; [|injection H as _ <-; exact Hg].
  match type of H with context [Publish ?a ?b ?c ?d] => destruct (Publish a b c d) as [[q st']|] eqn:E end;
    [|injection H as _ <-; exact Hg].
  injection H as _ <-. rewrite (Publish_others _ _ _ _ _ _ k Hfr E); [done|].
  apply Publish_seq in E as [-> _]; [|done]. apply GetMsg_range in Hg. lia.
Qed.

(** an event is pruned only after it has been archived.  Whatever fails, in a
    run over a tenant every message of the stream is still there afterwards, or
    the archive holds a bundle that verifies and has its record. *)
Theorem archive_before_prune now nuid save_ok tenant cutoff w res w' seq raw :
  faithful -> retention_ok w -> Fresh (rt_stream w) nuid -> tenant <> "" ->
  archiveTenant now nuid save_ok tenant cutoff w = (res, w') -> GetMsg (rt_stream w) seq = Some raw ->
  GetMsg (rt_stream w') seq = Some raw \/
  exists uri signed b r, (uri, signed) ∈ rt_archived w' /\ VerifyBundle signed = Ok b /\ r ∈ b_Records b /\
    ar_ID r = s_ID raw /\ ar_Type r = s_Type raw /\ s_TenantID raw = tenant.
Proof.
  intros Hfa Hok Hfr Ht H Hg.
  destruct (archive_cases _ _ _ _ _ _ _ _ H) as [(-> & _ & _)|(seg & rest & boundary & signed & b & uri & Hr)]; [by left|].
  destruct (sealed_segment _ _ _ _ _ _ _ _ _ _ _ _ _ Hfa Hr) as (_ & Hsame & _).
  pose proof (segment_events _ _ _ _ _ _ _ _ _ _ _ _ _ Hok Ht Hr) as Hev. destruct Hr.
  destruct sr_end0 as (pr & st1 & Hpr & Hend). destruct (prune_spec _ _ _ _ Hpr) as (_ & Hf1 & Hg1).
  destruct (Hg1 seq) as [Hk|[_ Hin]].
  - left. rewrite Hg in Hk. destruct pr as [[]|]; [|by destruct Hend as [_ ->]].
    destruct Hend as (data & ar & st2 & Ha & -> & _). eapply append_get; [| |exact Ha|exact Hk]; [by apply Hf1|reflexivity].
  - right. apply list_elem_of_fmap in Hin as (r & -> & Hr). rewrite Forall_forall in Hev.
    destruct (Hev r Hr) as (raw' & Hraw & Htn & Hid & Hty). rewrite Hg in Hraw. injection Hraw as <-.
    apply list_elem_of_lookup in Hr as [j Hj]. destruct (Forall2_lookup_r _ _ _ _ _ Hsame Hj) as (x & Hx & [Hc _]).
    injection Hc as _ Hxi Hxt _ _ _ _.
    exists uri, signed, b, x. split_and!; [rewrite sr_archived0; apply elem_of_app; right; by left|done|
      by eapply list_elem_of_lookup_2|congruence|congruence|done].
Qed.

(** ** Rebuilding after retention *)

Lemma records_of_time tenant n l u :
  u ∈ records_of tenant n l -> exists e, e ∈ l /\ ev_TenantID e = tenant /\ ev_Time e = ar_Time u.
Proof.
  revert n. induction l as [|e l IH]; intros n; cbn [records_of]; [by intros ?%elem_of_nil|].
  destruct (String.eqb_spec (ev_TenantID e) tenant) as [He|]; cbn [negb].
  - intros [->|H]%elem_of_cons; [exists e; split; [by left|done]|].
    destruct (IH _ H) as (x & Hx & ?). exists x. split; [by right|done].
  - intros H. destruct (IH _ H) as (x & Hx & ?). exists x. split; [by right|done].
Qed.

Lemma records_of_stream tenant n l e :
  e ∈ l -> ev_TenantID e = tenant -> ev_Sequence e ∈ ar_StreamSequence <$> records_of tenant n l.
Proof.
  revert n. induction l as [|x l IH]; intros n He Ht; [by apply elem_of_nil in He|]. cbn [records_of].
  apply elem_of_cons in He as [<-|He].
  - rewrite Ht, String.eqb_refl. cbn. by left.
  - destruct (negb _); [by apply IH|]. cbn. right. by apply IH.
Qed.


Lemma prune_gone seg st st' :
  prune seg st = (Ok tt, st') -> Forall (fun r => GetMsg st' (ar_StreamSequence r) = None) seg.
Proof.
  revert st. induction seg as [|r seg IH]; intros st H; [constructor|]. cbn [prune] in H.
  destruct (ar_StreamSequence r =? 0); [done|]. unfold Delete in H.
  destruct (DeleteMsg st (ar_StreamSequence r)) as [st1|] eqn:E; [|done]. constructor; [|by eapply IH].
  destruct (prune_spec _ _ _ _ H) as (_ & _ & Hg). apply Delete_gone in E.
  destruct (Hg (ar_StreamSequence r)) as [Hk|[Hk _]]; congruence.
Qed.

Context {OT : Projections.OtherTables}.

Lemma no_create_no_row k fs :
  Forall (fun f => forall t id row, f = Projections.EffCreate t id row -> (t, id) <> k) fs ->
  fold_left (Projections.step_row k) fs None = None.
Proof.
  induction 1 as [|f fs Hf _ IH]; [done|]. cbn [fold_left].
  assert (Hn : Projections.step_row k None f = None); [|by rewrite Hn].
  destruct f as [|? ? ?|?|t id row|t tr]; cbn; try done; [by case_decide|].
  rewrite decide_False; [done|]. intros Hk. exact (Hf _ _ _ eq_refl Hk).
Qed.

(** A log without a creation in the tenant rebuilds to a read model without its
    identities. *)
Lemma rebuild_without_create st p p' tenant id :
  (forall e, e ∈ events_from 1 st -> ev_TenantID e = tenant -> ev_Type e <> "identity.created") ->
  Projections.Rebuild st p = (Ok tt, p') -> Projections.GetIdentity tenant id (Projections.p_rm p') = None.
Proof.
  intros Hno H. rewrite Projections.Rebuild_run in H.
  destruct (Projections.run _ (events_from 1 st) _) as [rm|] eqn:Hrun; [|done]. injection H as <-. cbn.
  destruct (Projections.run_effects _ _ _ _ Projections.applyForRebuild_faithful Hrun) as (fs & Hfs & _ & Hi & _).
  unfold Projections.GetIdentity. rewrite Hi, Projections.run_lookup. apply no_create_no_row.
  apply Forall_forall. intros f Hf t i row -> [= -> ->]. destruct (Projections.effects_elem _ _ _ Hfs Hf) as (e & He & Heff).
  apply Projections.effect_create in Heff as (Ht & Hty & _). by eapply Hno.
Qed.

(** a rebuild after retention loses a dormant tenant.  When all events of a
    tenant are older than the window, its first retention run prunes them all
    from the log, the creations of its identities included; the next rebuild that
    succeeds leaves no identity of the tenant, although the read model is said to
    be a pure function of the log and retention is said to keep the history. *)
Theorem retention_breaks_rebuild now nuid save_ok tenant cutoff w n w' p p' id :
  retention_ok w -> Fresh (rt_stream w) nuid -> tenant <> "" ->
  LatestAuditCheckpoint tenant (rt_cps w) = None ->
  (forall e, e ∈ events_from 1 (rt_stream w) -> ev_TenantID e = tenant -> ev_Time e <= cutoff) ->
  archiveTenant now nuid save_ok tenant cutoff w = (Ok n, w') -> 0 < n ->
  Projections.Rebuild (rt_stream w') p = (Ok tt, p') ->
  Projections.GetIdentity tenant id (Projections.p_rm p') = None.
Proof.
  intros Hok Hfr Ht Hnone Hold H Hn Hreb. apply (rebuild_without_create (rt_stream w') p p' tenant id); [|done].
  destruct (archive_cases _ _ _ _ _ _ _ _ H) as [(_ & _ & Hz)|(seg & rest & boundary & signed & b & uri & [])].
  { destruct (Hz n eq_refl). lia. }
  rewrite Search_tenant in sr_recs0; [|by apply retention_cps_ok|done]. injection sr_recs0 as Hrecs.
  assert (Hseed : searchSeed (Some (rt_cps w)) tenant = (0, "", 0)).
  { unfold searchSeed. by rewrite (proj2 (String.eqb_neq _ _) Ht), Hnone. }
  unfold unsealed, seed_of, base_of, floor_of in Hrecs. rewrite Hseed in Hrecs. cbn [fst snd] in Hrecs.
  change (Z.max 1 0) with 1 in Hrecs.
  assert (Hrest : rest = []).
  { destruct rest as [|r rest]; [done|exfalso].
    assert (Hr : core_of r ∈ core_of <$> records_of tenant 0 (events_from 1 (rt_stream w))).
    { rewrite <- (SealFrom_cores sha ""), Hrecs. apply list_elem_of_fmap. exists r. split; [done|].
      apply elem_of_app. right. by left. }
    apply list_elem_of_fmap in Hr as (u & Hc & Hu). injection Hc as _ _ _ _ Htm _ _.
    apply records_of_time in Hu as (e & He & Het & Hetm). specialize (Hold e He Het). lia. }
  subst rest. rewrite app_nil_r in Hrecs.
  destruct sr_end0 as (pr & st1 & Hpr & Hend). destruct pr as [[]|]; [|by destruct Hend].
  destruct Hend as (data & [ev|] & st2 & Ha & -> & Hres); [|done].
  destruct (prune_spec _ _ _ _ Hpr) as (_ & Hf1 & Hg1). pose proof (prune_gone _ _ _ Hpr) as Hgone.
  apply append_ok in Ha as (Hty & _ & _ & _ & _ & _ & _ & _ & _ & Hlog); [|exact (Hf1 _ Hfr)].
  pose proof (LastSeq_nonneg st1). rewrite Hlog by lia. intros e [He|He]%elem_of_app Het; [|apply list_elem_of_singleton in He as ->; by rewrite Hty].
  exfalso. apply events_from_elem in He as (raw & Hk & Hg & Heq); [|lia].
  destruct (Hg1 (ev_Sequence e)) as [Hsame|[Hno _]]; [|congruence]. rewrite Hg in Hsame.
  assert (Hin : ev_Sequence e ∈ ar_StreamSequence <$> records_of tenant 0 (events_from 1 (rt_stream w))).
  { apply records_of_stream; [|done]. apply events_from_elem; [lia|]. exists raw. by split_and!. }
  rewrite <- (SealFrom_streams "") in Hin. rewrite Hrecs in Hin. apply list_elem_of_fmap in Hin as (r & Hr & Hin).
  rewrite Forall_forall in Hgone. specialize (Hgone r Hin). congruence.
Qed.

End Spec.

(** ** Witnesses: the log of an issued identity, all of it due *)

#[local] Existing Instance PooledRouter.

Definition demo_sha (p : string) (c : recordCore) : string := (p ++ co_ID c ++ ".")%string.
Definition demo_text (d : data) : string := "".
Definition demo_redact (t : string) (e : Event) : Event := e.
Definition demo_ledger (f a : string) : option (list string) := None.

#[local] Instance Actor_eq_dec : EqDecision Actor.
Proof. solve_decision. Defined.
#[local] Instance ARecord_eq_dec : EqDecision ARecord.
Proof. solve_decision. Defined.
#[local] Instance Query_eq_dec : EqDecision Query.
Proof. solve_decision. Defined.
#[local] Instance Bundle_eq_dec : EqDecision Bundle.
Proof. solve_decision. Defined.

Definition demo_w : Retention := mkRetention Projections.demo_stream [] [].

Definition demo_recs : list ARecord :=
  match AuditTrail.Search demo_sha demo_text demo_redact demo_ledger (Some []) (tenant_query "t1") Projections.demo_stream with
  | Ok l => l
  | Err _ => []
  end.

Definition demo_bundle : Bundle := mkBundle "t1" 1000 (tenant_query "t1") demo_recs 2 "" (chainHead demo_recs).
Definition demo_sign (b : Bundle) : option string := if decide (b = demo_bundle) then Some "sig" else None.
Definition demo_verify (s : string) : option Bundle := Some demo_bundle.
Definition demo_archive (t : string) (q : Z) (s : string) : result string string := Ok "uri".

Lemma demo_faithful : faithful demo_sign demo_verify.
Proof.
  intros b s b' Hs Hv. unfold demo_sign in Hs. case_decide as Hb; [|done]. injection Hv as <-. subst b.
  split_and!; [done|done|]. apply Forall_Forall2_diag, Forall_forall. by intros r _.
Qed.

Definition demo_run : result auditError Z * Retention :=
  AuditTrail.archiveTenant demo_sha demo_text demo_redact demo_ledger demo_sign demo_verify demo_archive
    1000 "e9" true "t1" 100 demo_w.

Lemma demo_run_ok : fst demo_run = Ok 2.
Proof. vm_compute. reflexivity. Qed.

Lemma demo_run_eq : demo_run = (Ok 2, snd demo_run).
Proof. rewrite <- demo_run_ok. apply surjective_pairing. Qed.

Lemma demo_fresh : Fresh (rt_stream demo_w) "e9".
Proof. apply (bool_decide_unpack _). vm_compute. exact I. Qed.

(** A hash that ignores the payload: a record whose payload was exchanged verifies with
    the head of the original, and the two inputs that collide are found. *)
Definition weak_sha (p : string) (c : recordCore) : string := co_ID c.
Definition demo_record (d : data) : ARecord := mkARecord 1 1 "e1" "identity.created" "t1" 7 None d "e1".
Definition demo_original : list ARecord := [demo_record (DJson (JStr "real"))].
Definition demo_forged : list ARecord := [demo_record (DJson (JStr "forged"))].

Lemma tamper_evident_witness : exists x y, broken "" demo_original demo_forged = Some (Collision x y) /\
  x ∈ inputs "" demo_original /\ y ∈ inputs "" demo_forged /\ x <> y /\ weak_sha x.1 x.2 = weak_sha y.1 y.2.
Proof.
  pose proof (tamper_evident weak_sha "" demo_original demo_forged "e1" eq_refl eq_refl) as H.
  exists ("", core_of (demo_record (DJson (JStr "real")))), ("", core_of (demo_record (DJson (JStr "forged")))).
  assert (Hb : broken "" demo_original demo_forged =
    Some (Collision ("", core_of (demo_record (DJson (JStr "real")))) ("", core_of (demo_record (DJson (JStr "forged")))))) by reflexivity.
  rewrite Hb in H. split; [exact Hb|exact H].
Defined.

Lemma VerifyChain_accepts_any_log_witness :
  exists h, VerifyChain demo_sha demo_text demo_redact demo_ledger None "t1" Projections.demo_stream = Ok h.
Proof.
  apply (VerifyChain_accepts_any_log demo_sha demo_text demo_redact demo_ledger eq_refl None "t1").
  - exact I.
  - discriminate.
  - intros e He _. revert e He. refine (proj1 (Forall_forall _ _) _).
    apply (bool_decide_unpack _). vm_compute. exact I.
Defined.

Lemma retention_keeps_chain_witness :
  retention_ok (snd demo_run) /\ exists note, AuditTrail.Search demo_sha demo_text demo_redact demo_ledger
    (Some (rt_cps (snd demo_run))) (tenant_query "t1") (rt_stream (snd demo_run)) = Ok [note].
Proof.
  destruct (retention_keeps_chain demo_sha demo_text demo_redact demo_ledger eq_refl demo_sign demo_verify demo_archive
    1000 "e9" true "t1" 100 demo_w 2 (snd demo_run) demo_recs) as (Hok & _ & H & _).
  - exact demo_faithful.
  - constructor.
  - exact demo_fresh.
  - discriminate.
  - exact demo_run_eq.
  - vm_compute. reflexivity.
  - split; [exact Hok|]. destruct H as (seg & rest & note & uri & signed & b & Hr & Hn & _ & _ & _ & _ & _ & _ & Hs & _); [lia|].
    assert (rest = []) as ->.
    { apply (f_equal length) in Hr. rewrite length_app in Hr. change (length demo_recs) with 2%nat in Hr.
      destruct rest; [done|]. cbn in Hr. lia. }
    exists note. exact Hs.
Defined.

Lemma archive_before_prune_witness :
  GetMsg (rt_stream (snd demo_run)) 1 = Some (mkStored "e1" "identity.created" "t1" 77 1
    (DJson (JObj [("id", JStr "i1"); ("kind", JStr "x509_certificate"); ("owner_id", JStr "o1"); ("issuer_id", JNull)])) None) \/
  exists uri signed, (uri, signed) ∈ rt_archived (snd demo_run).
Proof.
  destruct (archive_before_prune demo_sha demo_text demo_redact demo_ledger eq_refl demo_sign demo_verify demo_archive
    1000 "e9" true "t1" 100 demo_w (Ok 2) (snd demo_run) 1
    (mkStored "e1" "identity.created" "t1" 77 1
      (DJson (JObj [("id", JStr "i1"); ("kind", JStr "x509_certificate"); ("owner_id", JStr "o1"); ("issuer_id", JNull)])) None))
    as [H|(uri & signed & b & r & H & _)].
  - exact demo_faithful.
  - constructor.
  - exact demo_fresh.
  - discriminate.
  - exact demo_run_eq.
  - vm_compute. reflexivity.
  - left. exact H.
  - right. exists uri, signed. exact H.
Defined.

(** Before the run a rebuild has the identity, after it none. *)
Lemma retention_breaks_rebuild_witness :
  Projections.GetIdentity "t1" "i1" (Projections.p_rm (snd (Projections.Rebuild
    (rt_stream demo_w) (Projections.mkP Projections.demo_rm 0)))) <> None /\
  Projections.GetIdentity "t1" "i1" (Projections.p_rm (snd (Projections.Rebuild
    (rt_stream (snd demo_run)) (Projections.mkP Projections.demo_rm 0)))) = None.
Proof.
  split; [vm_compute; discriminate|].
  apply (retention_breaks_rebuild demo_sha demo_text demo_redact demo_ledger eq_refl demo_sign demo_verify demo_archive
    1000 "e9" true "t1" 100 demo_w 2 (snd demo_run)
    (Projections.mkP Projections.demo_rm 0)).
  - constructor.
  - exact demo_fresh.
  - discriminate.
  - reflexivity.
  - intros e He _. revert e He. refine (proj1 (Forall_forall _ _) _). apply (bool_decide_unpack _). vm_compute. exact I.
  - exact demo_run_eq.
  - lia.
  - rewrite (surjective_pairing (Projections.Rebuild _ _)) at 1. f_equal; vm_compute; reflexivity.
Defined.

End AuditSpec.
