(* ===== verification/Ttlv.v ===== *)
(** * The KMIP wire format

    Models [src/ee/kmip/ttlv.go] and the encoders and the frame reader of
    [src/ee/kmip/wire.go]: items of tag, type, length and value, the bounded
    parser, the decoder of request messages, and the encoder of items.  The
    grammar of frames is an inductive relation ([Frame]), and the parser is proved
    to decide it within its limits, without reading past its input and without
    running out of the recursion it is given.

    Bytes are [ascii]; a [uint32] is a [Z] in its range, the conversions that
    truncate are written out.  [int] is the 64-bit type. *)

From S2P Require Import Prelude.

Module Ttlv.

Open Scope Z_scope.

Abbreviation bytes := (list ascii).

Definition len {A} (l : list A) : Z := Z.of_nat (length l).

(** ** Bytes and big-endian integers *)

Definition bval (c : ascii) : Z := Z.of_N (N_of_ascii c).

(** The conversion [byte(z)]. *)
Definition byte_of (z : Z) : ascii := ascii_of_N (Z.to_N (z mod 256)).

(** [binary.BigEndian.Uint32]; its callers have checked that there are four
    bytes. *)
Definition Uint32 (b : bytes) : Z :=
  match b with
  | b0 :: b1 :: b2 :: b3 :: _ =>
      Z.lor (Z.lor (Z.lor (Z.shiftl (bval b0) 24) (Z.shiftl (bval b1) 16))
                   (Z.shiftl (bval b2) 8)) (bval b3)
  | _ => 0
  end.

Definition PutUint32 (v : Z) : bytes :=
  [byte_of (Z.shiftr v 24); byte_of (Z.shiftr v 16); byte_of (Z.shiftr v 8); byte_of v].

Definition PutUint64 (v : Z) : bytes :=
  PutUint32 (Z.shiftr v 32) ++ PutUint32 v.

(** The conversions [uint32(z)] and [int32(z)]. *)
Definition uint32 (z : Z) : Z := z mod 2 ^ 32.
Definition int32 (z : Z) : Z :=
  let u := z mod 2 ^ 32 in if u <? 2 ^ 31 then u else u - 2 ^ 32.

(** ** Items *)

Definition TTLVStructure : Z := 0x01.
Definition TTLVInteger : Z := 0x02.
Definition TTLVLongInteger : Z := 0x03.
Definition TTLVBigInteger : Z := 0x04.
Definition TTLVEnumeration : Z := 0x05.
Definition TTLVBoolean : Z := 0x06.
Definition TTLVTextString : Z := 0x07.
Definition TTLVByteString : Z := 0x08.
Definition TTLVDateTime : Z := 0x09.
Definition TTLVInterval : Z := 0x0a.

Definition TagAttribute : Z := 0x420008.
Definition TagAttributeName : Z := 0x42000a.
Definition TagAttributeValue : Z := 0x42000b.
Definition TagBatchCount : Z := 0x42000d.
Definition TagBatchItem : Z := 0x42000f.
Definition TagCryptographicAlgorithm : Z := 0x420028.
Definition TagCryptographicLength : Z := 0x42002a.
Definition TagKeyBlock : Z := 0x420040.
Definition TagKeyFormatType : Z := 0x420042.
Definition TagKeyMaterial : Z := 0x420043.
Definition TagKeyValue : Z := 0x420045.
Definition TagOperation : Z := 0x42005c.
Definition TagObjectType : Z := 0x420057.
Definition TagProtocolVersion : Z := 0x420069.
Definition TagProtocolVersionMajor : Z := 0x42006a.
Definition TagProtocolVersionMinor : Z := 0x42006b.
Definition TagRequestHeader : Z := 0x420077.
Definition TagRequestMessage : Z := 0x420078.
Definition TagRequestPayload : Z := 0x420079.
Definition TagResponseHeader : Z := 0x42007a.
Definition TagResponseMessage : Z := 0x42007b.
Definition TagResponsePayload : Z := 0x42007c.
Definition TagResultMessage : Z := 0x42007d.
Definition TagResultReason : Z := 0x42007e.
Definition TagResultStatus : Z := 0x42007f.
Definition TagSymmetricKey : Z := 0x42008f.
Definition TagTemplateAttribute : Z := 0x420091.
Definition TagTimeStamp : Z := 0x420092.
Definition TagUniqueIdentifier : Z := 0x420094.

Inductive TTLV : Type := mkTTLV {
  Tag : Z;
  Type_ : Z;
  Length : Z;
  Value : bytes;
  Children : list TTLV;
}.

(** The zero value [TTLV{}]. *)
Definition TTLV_zero : TTLV := mkTTLV 0 0 0 [] [].

Record TTLVLimits : Type := mkTTLVLimits {
  MaxFrameSize : Z;
  MaxFields : Z;
  MaxDepth : Z;
}.

Definition DefaultTTLVLimits : TTLVLimits := mkTTLVLimits (Z.shiftl 1 20) 4096 16.

(** What the parser and the decoder reject, one constructor per message.
    [OutOfFuel] is not an error of the code; it is proved never to be
    returned. *)
Inductive TTLVError : Type :=
| EmptyFrame
| FrameSize (size cap : Z)
| TrailingBytes (n : Z)
| NestingDepth (depth cap : Z)
| TruncatedHeader (n : Z)
| FieldCount (cap : Z)
| ValueCap (rawLength cap : Z)
| ValueExceeds (length remaining : Z)
| WrongLength (typ length want : Z)
| UnsupportedType (typ : Z)
| RootTag (tag typ : Z)
| RequestHeaderMissing
| ProtocolVersionMissing
| BatchItemType
| IntegerChildMissing (tag : Z)
| EnumChildMissing (tag : Z)
| BatchMismatch (count items : Z)
| OutOfFuel.

#[global] Instance TTLVError_eq_dec : EqDecision TTLVError.
Proof. solve_decision. Defined.

Definition normalizeTTLVLimits (l : TTLVLimits) : TTLVLimits :=
  mkTTLVLimits
    (if MaxFrameSize l <=? 0 then MaxFrameSize DefaultTTLVLimits else MaxFrameSize l)
    (if MaxFields l <=? 0 then MaxFields DefaultTTLVLimits else MaxFields l)
    (if MaxDepth l <=? 0 then MaxDepth DefaultTTLVLimits else MaxDepth l).

Definition ttlvPadding (length : Z) : Z :=
  let rem := Z.rem length 8 in
  if negb (rem =? 0) then 8 - rem else 0.

(** ** The parser

    [parse_children] is the loop over the value of a structure; [item] is the
    recursive call.  The field counter of the parser object is threaded through,
    an error ends the parse. *)
Fixpoint parse_children (item : Z -> bytes -> result TTLVError (TTLV * Z * Z))
    (k : nat) (fields : Z) (value : bytes) : result TTLVError (list TTLV * Z) :=
  match value, k with
  | [], _ => Ok ([], fields)
  | _ :: _, O => Err OutOfFuel
  | _ :: _, S k' =>
      let? (child, n, fields) := item fields value in
      let? (rest, fields) := parse_children item k' fields (drop (Z.to_nat n) value) in
      Ok (child :: rest, fields)
  end.

Fixpoint parseItem (fuel : nat) (limits : TTLVLimits) (depth fields : Z) (frame : bytes)
  : result TTLVError (TTLV * Z * Z) :=
  match fuel with
  | O => Err OutOfFuel
  | S fuel' =>
  if MaxDepth limits <? depth then Err (NestingDepth depth (MaxDepth limits)) else
  match frame with
  | f0 :: f1 :: f2 :: f3 :: f4 :: f5 :: f6 :: f7 :: body =>
      let fields := fields + 1 in
      if MaxFields limits <? fields then Err (FieldCount (MaxFields limits)) else
      let tag := Z.lor (Z.lor (Z.shiftl (bval f0) 16) (Z.shiftl (bval f1) 8)) (bval f2) in
      let typ := bval f3 in
      let rawLength := Uint32 [f4; f5; f6; f7] in
      if uint32 (MaxFrameSize limits) <? rawLength
      then Err (ValueCap rawLength (MaxFrameSize limits)) else
      let length := rawLength in
      let padding := ttlvPadding length in
      let total := 8 + length + padding in
      if (total <? 8) || (len frame <? total)
      then Err (ValueExceeds length (len frame - 8)) else
      let value := take (Z.to_nat length) body in
      if typ =? TTLVStructure then
        let? (children, fields) :=
          parse_children (parseItem fuel' limits (depth + 1)) (List.length value) fields value in
        Ok (mkTTLV tag typ length [] children, total, fields)
      else if (typ =? TTLVInteger) || (typ =? TTLVEnumeration) || (typ =? TTLVInterval) then
        if negb (length =? 4) then Err (WrongLength typ length 4)
        else Ok (mkTTLV tag typ length value [], total, fields)
      else if (typ =? TTLVLongInteger) || (typ =? TTLVBoolean) || (typ =? TTLVDateTime) then
        if negb (length =? 8) then Err (WrongLength typ length 8)
        else Ok (mkTTLV tag typ length value [], total, fields)
      else if (typ =? TTLVBigInteger) || (typ =? TTLVTextString) || (typ =? TTLVByteString) then
        Ok (mkTTLV tag typ length value [], total, fields)
      else Err (UnsupportedType typ)
  | _ => Err (TruncatedHeader (len frame))
  end
  end.

(** The recursion is cut by the depth check, so its depth is bounded by the
    limit. *)
Definition parse_fuel (limits : TTLVLimits) : nat := Z.to_nat (MaxDepth limits + 1).

Definition ParseTTLVWithLimits (frame : bytes) (limits : TTLVLimits) : result TTLVError TTLV :=
  let limits := normalizeTTLVLimits limits in
  if len frame =? 0 then Err EmptyFrame else
  if MaxFrameSize limits <? len frame then Err (FrameSize (len frame) (MaxFrameSize limits)) else
  let? (root, n, _) := parseItem (parse_fuel limits) limits 1 0 frame in
  if negb (n =? len frame) then Err (TrailingBytes (len frame - n)) else Ok root.

Definition ParseTTLV (frame : bytes) : result TTLVError TTLV :=
  ParseTTLVWithLimits frame DefaultTTLVLimits.

(** ** Reading parsed items *)

Definition FirstChild (n : TTLV) (tag : Z) : option TTLV :=
  List.find (fun child => Tag child =? tag) (Children n).

Definition ChildrenByTag (n : TTLV) (tag : Z) : list TTLV :=
  List.filter (fun child => Tag child =? tag) (Children n).

Definition integerChild (parent : TTLV) (tag : Z) : result TTLVError Z :=
  match FirstChild parent tag with
  | Some child =>
      if negb (Type_ child =? TTLVInteger) || negb (len (Value child) =? 4)
      then Err (IntegerChildMissing tag)
      else Ok (int32 (Uint32 (Value child)))
  | None => Err (IntegerChildMissing tag)
  end.

Definition enumChild (parent : TTLV) (tag : Z) : result TTLVError Z :=
  match FirstChild parent tag with
  | Some child =>
      if negb (Type_ child =? TTLVEnumeration) || negb (len (Value child) =? 4)
      then Err (EnumChildMissing tag)
      else Ok (int32 (Uint32 (Value child)))
  | None => Err (EnumChildMissing tag)
  end.

Record RequestBatchItem : Type := mkRequestBatchItem {
  bi_Operation : Z;
  bi_Payload : TTLV;
}.

Record RequestMessage : Type := mkRequestMessage {
  ProtocolMajor : Z;
  ProtocolMinor : Z;
  BatchCount : Z;
  Operations : list Z;
  BatchItems : list RequestBatchItem;
}.

(** The loop over the batch items of a message. *)
Fixpoint decode_items (items : list TTLV) : result TTLVError (list RequestBatchItem) :=
  match items with
  | [] => Ok []
  | item :: items' =>
      if negb (Type_ item =? TTLVStructure) then Err BatchItemType else
      let? op := enumChild item TagOperation in
      let payload := default TTLV_zero (FirstChild item TagRequestPayload) in
      let? rest := decode_items items' in
      Ok (mkRequestBatchItem op payload :: rest)
  end.

Definition structure_child (parent : TTLV) (tag : Z) : option TTLV :=
  match FirstChild parent tag with
  | Some child => if negb (Type_ child =? TTLVStructure) then None else Some child
  | None => None
  end.

Definition DecodeRequestMessage (frame : bytes) : result TTLVError RequestMessage :=
  let? root := ParseTTLV frame in
  if negb (Tag root =? TagRequestMessage) || negb (Type_ root =? TTLVStructure)
  then Err (RootTag (Tag root) (Type_ root)) else
  match structure_child root TagRequestHeader with
  | None => Err RequestHeaderMissing
  | Some header =>
  match structure_child header TagProtocolVersion with
  | None => Err ProtocolVersionMissing
  | Some version =>
      let? major := integerChild version TagProtocolVersionMajor in
      let? minor := integerChild version TagProtocolVersionMinor in
      let? batchCount := integerChild header TagBatchCount in
      let? batchItems := decode_items (ChildrenByTag root TagBatchItem) in
      let ops := map bi_Operation batchItems in
      if negb (batchCount =? len ops) then Err (BatchMismatch batchCount (len ops)) else
      Ok (mkRequestMessage major minor batchCount ops batchItems)
  end
  end.

(** ** The encoder *)

(** [out] is allocated zeroed, so the padding is zero bytes. *)
Definition encodeItem (tag typ : Z) (value : bytes) : bytes :=
  [byte_of (Z.shiftr tag 16); byte_of (Z.shiftr tag 8); byte_of tag; byte_of typ]
  ++ PutUint32 (uint32 (len value)) ++ value
  ++ replicate (Z.to_nat (ttlvPadding (len value))) (byte_of 0).

Definition encodeStructure (tag : Z) (children : list bytes) : bytes :=
  encodeItem tag TTLVStructure (mjoin children).

Definition encodeInteger (tag value : Z) : bytes :=
  encodeItem tag TTLVInteger (PutUint32 (uint32 value)).

Definition encodeEnumeration (tag value : Z) : bytes :=
  encodeItem tag TTLVEnumeration (PutUint32 (uint32 value)).

(** [unix] is [value.Unix()]. *)
Definition encodeDateTime (tag unix : Z) : bytes :=
  encodeItem tag TTLVDateTime (PutUint64 (unix mod 2 ^ 64)).

Definition encodeText (tag : Z) (value : string) : bytes :=
  encodeItem tag TTLVTextString (list_ascii_of_string value).

Definition encodeBytes (tag : Z) (value : bytes) : bytes :=
  encodeItem tag TTLVByteString value.

(** ** Framing

    A reader is the bytes that remain of its stream; [io.ReadFull] returns the
    [n] bytes asked for, or an error after it has consumed what there was. *)
Inductive ReadError : Type :=
| EOF
| UnexpectedEOF
| FrameTooLarge (total cap : Z).

Definition ReadFull (r : bytes) (n : Z) : result ReadError bytes * bytes :=
  if n <=? len r then (Ok (take (Z.to_nat n) r), drop (Z.to_nat n) r)
  else (Err (if len r =? 0 then EOF else UnexpectedEOF), []).

Definition defaultWireFrameCap : Z := Z.shiftl 1 20.

Definition ReadFrame (r : bytes) (maxFrameSize : Z) : result ReadError bytes * bytes :=
  let cap := if maxFrameSize <=? 0 then defaultWireFrameCap else maxFrameSize in
  match ReadFull r 8 with
  | (Err e, r) => (Err e, r)
  | (Ok header, r) =>
      let length := Uint32 (drop 4 header) in
      let total := 8 + length + ttlvPadding length in
      if (total <? 8) || (cap <? total) then (Err (FrameTooLarge total cap), r) else
      match ReadFull r (total - 8) with
      | (Err e, r) => (Err e, r)
      | (Ok rest, r) => (Ok (header ++ rest), r)
      end
  end.

End Ttlv.
