(* ===== verification/TtlvSpec.v ===== *)
(** * The KMIP wire format: theorems

    The grammar of TTLV frames, the proof that the parser of [Ttlv] decides it
    within its limits, that the encoder produces frames of the grammar, and that
    the frame reader cuts a stream exactly at the end of an item. *)

From S2P Require Import Prelude Ttlv.

Module TtlvSpec.
Import Ttlv.

Open Scope Z_scope.

(** ** Bytes and integers *)

Lemma bval_range c : 0 <= bval c < 256.
Proof.
  unfold bval. pose proof (N_ascii_bounded c). lia.
Qed.

Lemma bval_byte_of z : bval (byte_of z) = z mod 256.
Proof.
  unfold bval, byte_of. pose proof (Z.mod_pos_bound z 256 ltac:(lia)).
  rewrite N_ascii_embedding by lia. lia.
Qed.

Lemma byte_of_bval c : byte_of (bval c) = c.
Proof.
  unfold byte_of. rewrite Z.mod_small by apply bval_range.
  unfold bval. rewrite N2Z.id. apply ascii_N_embedding.
Qed.

Lemma lor_disjoint x y n : 0 <= n -> 0 <= y < 2 ^ n -> Z.lor (Z.shiftl x n) y = x * 2 ^ n + y.
Proof.
  intros Hn Hy. rewrite <- Z.shiftl_mul_pow2 by done.
  assert (Hland : Z.land (Z.shiftl x n) y = 0).
  { apply Z.bits_inj'. intros i Hi. rewrite Z.land_spec, Z.bits_0.
    destruct (Z.lt_ge_cases i n); [by rewrite Z.shiftl_spec_low|].
    rewrite <- (Z.mod_small y (2 ^ n)), Z.mod_pow2_bits_high by lia. apply andb_false_r. }
  rewrite Z.add_nocarry_lxor by done. symmetry. by apply Z.lxor_lor.
Qed.

(** The value of four bytes, most significant first. *)
Lemma Uint32_eq a b c d :
  Uint32 [a; b; c; d] = bval a * 2 ^ 24 + bval b * 2 ^ 16 + bval c * 2 ^ 8 + bval d.
Proof.
  pose proof (bval_range a). pose proof (bval_range b).
  pose proof (bval_range c). pose proof (bval_range d).
  unfold Uint32.
  rewrite (lor_disjoint (bval a) _ 24) by (rewrite ?Z.shiftl_mul_pow2; lia).
  rewrite (Z.shiftl_mul_pow2 (bval b)) by lia.
  replace (bval a * 2 ^ 24 + bval b * 2 ^ 16) with (Z.shiftl (bval a * 2 ^ 8 + bval b) 16)
    by (rewrite Z.shiftl_mul_pow2; lia).
  rewrite lor_disjoint by (rewrite ?Z.shiftl_mul_pow2; lia).
  rewrite (Z.shiftl_mul_pow2 (bval c)) by lia.
  replace ((bval a * 2 ^ 8 + bval b) * 2 ^ 16 + bval c * 2 ^ 8)
    with (Z.shiftl ((bval a * 2 ^ 8 + bval b) * 2 ^ 8 + bval c) 8)
    by (rewrite Z.shiftl_mul_pow2; lia).
  rewrite lor_disjoint by lia. rewrite ?Z.shiftl_mul_pow2 by lia. lia.
Qed.

Lemma tag_eq a b c :
  Z.lor (Z.lor (Z.shiftl (bval a) 16) (Z.shiftl (bval b) 8)) (bval c)
  = bval a * 2 ^ 16 + bval b * 2 ^ 8 + bval c.
Proof.
  pose proof (bval_range a). pose proof (bval_range b). pose proof (bval_range c).
  rewrite lor_disjoint by (rewrite ?Z.shiftl_mul_pow2; lia).
  rewrite (Z.shiftl_mul_pow2 (bval b)) by lia.
  replace (bval a * 2 ^ 16 + bval b * 2 ^ 8) with (Z.shiftl (bval a * 2 ^ 8 + bval b) 8)
    by (rewrite Z.shiftl_mul_pow2; lia).
  rewrite lor_disjoint by lia. rewrite ?Z.shiftl_mul_pow2 by lia. lia.
Qed.

Ltac bytes_arith :=
  rewrite ?bval_byte_of, ?Z.shiftr_div_pow2 by lia; Z.div_mod_to_equations; lia.

Lemma Uint32_PutUint32 v : Uint32 (PutUint32 v) = v mod 2 ^ 32.
Proof. unfold PutUint32. rewrite Uint32_eq. bytes_arith. Qed.

(** A byte is recovered from a number whose digit it is. *)
Lemma byte_of_digit c hi lo n :
  0 <= n -> 0 <= lo < 2 ^ n ->
  byte_of (Z.shiftr (hi * 2 ^ (n + 8) + bval c * 2 ^ n + lo) n) = c.
Proof.
  intros Hn Hlo. rewrite Z.shiftr_div_pow2, Z.pow_add_r by lia.
  replace (hi * (2 ^ n * 2 ^ 8) + bval c * 2 ^ n + lo)
    with ((hi * 256 + bval c) * 2 ^ n + lo) by lia.
  rewrite Z.div_add_l, (Z.div_small lo), Z.add_0_r by lia.
  rewrite <- (byte_of_bval c) at 2. unfold byte_of. do 2 f_equal.
  rewrite Z.add_comm, Z.mod_add by lia. done.
Qed.

Lemma PutUint32_Uint32 a b c d : PutUint32 (Uint32 [a; b; c; d]) = [a; b; c; d].
Proof.
  pose proof (bval_range a). pose proof (bval_range b).
  pose proof (bval_range c). pose proof (bval_range d).
  rewrite Uint32_eq. unfold PutUint32. repeat f_equal.
  - etransitivity; [|apply (byte_of_digit a 0 (bval b * 2 ^ 16 + bval c * 2 ^ 8 + bval d) 24); lia].
    do 2 f_equal. lia.
  - etransitivity; [|apply (byte_of_digit b (bval a) (bval c * 2 ^ 8 + bval d) 16); lia].
    do 2 f_equal. lia.
  - etransitivity; [|apply (byte_of_digit c (bval a * 2 ^ 8 + bval b) (bval d) 8); lia].
    do 2 f_equal. lia.
  - etransitivity; [|apply (byte_of_digit d (bval a * 2 ^ 16 + bval b * 2 ^ 8 + bval c) 0 0); lia].
    rewrite Z.shiftr_0_r. f_equal. lia.
Qed.

Lemma Uint32_range a b c d : 0 <= Uint32 [a; b; c; d] < 2 ^ 32.
Proof.
  rewrite Uint32_eq.
  pose proof (bval_range a). pose proof (bval_range b).
  pose proof (bval_range c). pose proof (bval_range d). lia.
Qed.

Lemma int32_uint32 z : - 2 ^ 31 <= z < 2 ^ 31 -> int32 (uint32 z) = z.
Proof.
  intros Hz. unfold int32, uint32. rewrite Z.mod_mod by lia.
  destruct (Z.ltb_spec (z mod 2 ^ 32) (2 ^ 31)); Z.div_mod_to_equations; lia.
Qed.

Lemma ttlvPadding_spec n :
  0 <= n -> 0 <= ttlvPadding n < 8 /\ (8 | n + ttlvPadding n).
Proof.
  intros Hn. unfold ttlvPadding. rewrite Z.rem_mod_nonneg by lia.
  pose proof (Z.mod_pos_bound n 8 ltac:(lia)).
  destruct (Z.eqb_spec (n mod 8) 0) as [H0|H0]; simpl.
  - split; [lia|]. exists (n / 8). Z.div_mod_to_equations; lia.
  - split; [lia|]. exists (n / 8 + 1). Z.div_mod_to_equations; lia.
Qed.

Lemma ttlvPadding_aligned n : (8 | n) -> ttlvPadding n = 0.
Proof.
  intros [k ->]. unfold ttlvPadding.
  by rewrite Z.rem_mul by lia.
Qed.

Lemma len_nonneg {A} (l : list A) : 0 <= len l.
Proof. unfold len. lia. Qed.

Lemma len_app {A} (l k : list A) : len (l ++ k) = len l + len k.
Proof. unfold len. rewrite length_app. lia. Qed.

Lemma len_cons {A} (x : A) l : len (x :: l) = 1 + len l.
Proof. unfold len. simpl length. lia. Qed.

Lemma len_nil {A} : len (@nil A) = 0.
Proof. done. Qed.

#[export] Hint Rewrite @len_app @len_cons @len_nil : trst_rw.

Ltac lens := autorewrite with trst_rw in *; unfold len in *; lia.

(** ** The grammar of frames

    [Frame t f] says that the bytes [f] are one complete item whose content is
    [t]; the padding of a primitive value may be anything, and a structure has
    none because its items are aligned. *)

Definition header (tag typ n : Z) : bytes :=
  [byte_of (Z.shiftr tag 16); byte_of (Z.shiftr tag 8); byte_of tag; byte_of typ] ++ PutUint32 n.

(** The lengths that each primitive type allows. *)
Definition primitive_length (typ n : Z) : bool :=
  if (typ =? TTLVInteger) || (typ =? TTLVEnumeration) || (typ =? TTLVInterval) then n =? 4
  else if (typ =? TTLVLongInteger) || (typ =? TTLVBoolean) || (typ =? TTLVDateTime) then n =? 8
  else (typ =? TTLVBigInteger) || (typ =? TTLVTextString) || (typ =? TTLVByteString).

Inductive Frame : TTLV -> bytes -> Prop :=
| Frame_structure tag children body :
    0 <= tag < 2 ^ 24 -> len body < 2 ^ 32 -> Frames children body ->
    Frame (mkTTLV tag TTLVStructure (len body) [] children)
          (header tag TTLVStructure (len body) ++ body)
| Frame_primitive tag typ value pad :
    0 <= tag < 2 ^ 24 -> len value < 2 ^ 32 -> primitive_length typ (len value) = true ->
    len pad = ttlvPadding (len value) ->
    Frame (mkTTLV tag typ (len value) value []) (header tag typ (len value) ++ value ++ pad)
with Frames : list TTLV -> bytes -> Prop :=
| Frames_nil : Frames [] []
| Frames_cons t f ts fs : Frame t f -> Frames ts fs -> Frames (t :: ts) (f ++ fs).

Scheme Frame_mut := Minimality for Frame Sort Prop
  with Frames_mut := Minimality for Frames Sort Prop.
Combined Scheme Frame_Frames_ind from Frame_mut, Frames_mut.

(** The number of items of a tree and its depth. *)
Fixpoint nodes (t : TTLV) : Z :=
  match t with
  | mkTTLV _ _ _ _ children => 1 + foldr (fun c n => nodes c + n) 0 children
  end.

Fixpoint height (t : TTLV) : Z :=
  match t with
  | mkTTLV _ _ _ _ children => 1 + foldr (fun c n => Z.max (height c) n) 0 children
  end.

Definition nodes_list (l : list TTLV) : Z := foldr (fun c n => nodes c + n) 0 l.
Definition heights (l : list TTLV) : Z := foldr (fun c n => Z.max (height c) n) 0 l.

Lemma nodes_eq tag typ n v ch : nodes (mkTTLV tag typ n v ch) = 1 + nodes_list ch.
Proof. done. Qed.

Lemma height_eq tag typ n v ch : height (mkTTLV tag typ n v ch) = 1 + heights ch.
Proof. done. Qed.

Lemma nodes_list_cons t l : nodes_list (t :: l) = nodes t + nodes_list l.
Proof. done. Qed.

Lemma heights_cons t l : heights (t :: l) = Z.max (height t) (heights l).
Proof. done. Qed.

#[export] Hint Rewrite nodes_eq height_eq nodes_list_cons heights_cons : trst_rw.

Lemma len_header tag typ n : len (header tag typ n) = 8.
Proof. done. Qed.

#[export] Hint Rewrite len_header : trst_rw.

Lemma primitive_type typ n : primitive_length typ n = true -> 1 < typ < 256.
Proof.
  unfold primitive_length, TTLVInteger, TTLVEnumeration, TTLVInterval, TTLVLongInteger,
    TTLVBoolean, TTLVDateTime, TTLVBigInteger, TTLVTextString, TTLVByteString.
  intros H. repeat case_in H; lia.
Qed.

(** Items are aligned and at least a header long. *)
Lemma Frame_size_both :
  (forall t f, Frame t f -> (8 | len f) /\ 8 * nodes t <= len f) /\
  (forall ts fs, Frames ts fs -> (8 | len fs) /\ 8 * nodes_list ts <= len fs).
Proof.
  apply Frame_Frames_ind.
  - intros tag children body _ _ _ [Hd Hn]. rewrite len_app, len_header. split.
    + apply Z.divide_add_r; [by exists 1|done].
    + autorewrite with trst_rw. lia.
  - intros tag typ value pad _ _ _ Hpad. rewrite !len_app, len_header, Hpad.
    destruct (ttlvPadding_spec (len value)) as [Hr Hd]; [apply len_nonneg|]. split.
    + apply Z.divide_add_r; [by exists 1|done].
    + autorewrite with trst_rw. pose proof (len_nonneg value). unfold nodes_list; simpl foldr. lia.
  - split; [by exists 0|done].
  - intros t f ts fs _ [Hd Hn] _ [Hds Hns]. rewrite len_app. split.
    + by apply Z.divide_add_r.
    + autorewrite with trst_rw. lia.
Qed.

Lemma Frame_aligned t f : Frame t f -> (8 | len f).
Proof. apply Frame_size_both. Qed.

Lemma Frames_aligned ts fs : Frames ts fs -> (8 | len fs).
Proof. apply Frame_size_both. Qed.

Lemma Frame_nodes t f : Frame t f -> 8 * nodes t <= len f.
Proof. apply Frame_size_both. Qed.

Lemma nodes_pos_both t : 1 <= nodes t /\ 1 <= height t.
Proof.
  revert t. fix IH 1. intros [tag typ n v ch]. simpl.
  assert (0 <= foldr (fun c n => nodes c + n) 0 ch /\ 0 <= foldr (fun c n => Z.max (height c) n) 0 ch).
  { induction ch as [|c ch IHch]; simpl; [lia|]. destruct (IH c). lia. }
  lia.
Qed.

Lemma nodes_pos t : 1 <= nodes t.
Proof. apply nodes_pos_both. Qed.

Lemma height_pos t : 1 <= height t.
Proof. apply nodes_pos_both. Qed.

Lemma nodes_list_nonneg l : 0 <= nodes_list l.
Proof. induction l as [|t l IH]; simpl; [done|]. pose proof (nodes_pos t). unfold nodes_list in *. lia. Qed.

Lemma heights_nonneg l : 0 <= heights l.
Proof. induction l as [|t l IH]; simpl; [done|]. unfold heights in *. lia. Qed.

(** ** The parser decides the grammar *)

(** What [parseItem] does once the header has been read. *)
Definition parse_body (fuel : nat) (limits : TTLVLimits) (depth fields tag typ n : Z) (body : bytes)
  : result TTLVError (TTLV * Z * Z) :=
  let total := 8 + n + ttlvPadding n in
  if MaxFields limits <? fields + 1 then Err (FieldCount (MaxFields limits)) else
  if uint32 (MaxFrameSize limits) <? n then Err (ValueCap n (MaxFrameSize limits)) else
  if (total <? 8) || (8 + len body <? total) then Err (ValueExceeds n (len body)) else
  let value := take (Z.to_nat n) body in
  if typ =? TTLVStructure then
    let? (children, fields) :=
      parse_children (parseItem fuel limits (depth + 1)) (List.length value) (fields + 1) value in
    Ok (mkTTLV tag typ n [] children, total, fields)
  else if (typ =? TTLVInteger) || (typ =? TTLVEnumeration) || (typ =? TTLVInterval) then
    if negb (n =? 4) then Err (WrongLength typ n 4)
    else Ok (mkTTLV tag typ n value [], total, fields + 1)
  else if (typ =? TTLVLongInteger) || (typ =? TTLVBoolean) || (typ =? TTLVDateTime) then
    if negb (n =? 8) then Err (WrongLength typ n 8)
    else Ok (mkTTLV tag typ n value [], total, fields + 1)
  else if (typ =? TTLVBigInteger) || (typ =? TTLVTextString) || (typ =? TTLVByteString) then
    Ok (mkTTLV tag typ n value [], total, fields + 1)
  else Err (UnsupportedType typ).

Lemma parseItem_header fuel limits depth fields tag typ n body :
  0 <= tag < 2 ^ 24 -> 0 <= typ < 256 -> 0 <= n < 2 ^ 32 ->
  parseItem (S fuel) limits depth fields (header tag typ n ++ body)
  = if MaxDepth limits <? depth then Err (NestingDepth depth (MaxDepth limits))
    else parse_body fuel limits depth fields tag typ n body.
Proof.
  intros Htag Htyp Hn. unfold header, PutUint32, parse_body. cbn [app parseItem].
  change [byte_of (Z.shiftr n 24); byte_of (Z.shiftr n 16); byte_of (Z.shiftr n 8); byte_of n]
    with (PutUint32 n).
  rewrite Uint32_PutUint32, (Z.mod_small n) by lia.
  rewrite tag_eq, (bval_byte_of typ), (Z.mod_small typ) by lia.
  replace (bval _ * 2 ^ 16 + bval _ * 2 ^ 8 + bval _) with tag by bytes_arith.
  autorewrite with trst_rw. replace (1 + _) with (8 + len body) by lia.
  replace (8 + len body - 8) with (len body) by lia. done.
Qed.

(** Every frame of at least eight bytes starts with a header. *)
Lemma header_surj frame :
  8 <= len frame ->
  exists tag typ n body, frame = header tag typ n ++ body /\
    0 <= tag < 2 ^ 24 /\ 0 <= typ < 256 /\ 0 <= n < 2 ^ 32.
Proof.
  intros Hlen.
  destruct frame as [|f0 [|f1 [|f2 [|f3 [|f4 [|f5 [|f6 [|f7 body]]]]]]]]; try (unfold len in Hlen; simpl in Hlen; lia).
  pose proof (bval_range f0). pose proof (bval_range f1). pose proof (bval_range f2).
  exists (bval f0 * 2 ^ 16 + bval f1 * 2 ^ 8 + bval f2), (bval f3), (Uint32 [f4; f5; f6; f7]), body.
  split; [|split; [lia|]; split; [apply bval_range|apply Uint32_range]].
  unfold header. rewrite PutUint32_Uint32, byte_of_bval. cbn [app]. repeat f_equal; symmetry.
  - etransitivity; [|apply (byte_of_digit f0 0 (bval f1 * 2 ^ 8 + bval f2) 16); lia].
    do 2 f_equal. lia.
  - etransitivity; [|apply (byte_of_digit f1 (bval f0) (bval f2) 8); lia].
    do 2 f_equal.
  - etransitivity; [|apply (byte_of_digit f2 (bval f0 * 2 ^ 8 + bval f1) 0 0); lia].
    rewrite Z.shiftr_0_r. f_equal. lia.
Qed.

Lemma parseItem_short fuel limits depth fields frame :
  len frame < 8 ->
  parseItem (S fuel) limits depth fields frame
  = Err (if MaxDepth limits <? depth then NestingDepth depth (MaxDepth limits)
         else TruncatedHeader (len frame)).
Proof.
  intros Hlen. cbn [parseItem]. destruct (MaxDepth limits <? depth); [done|].
  do 8 (destruct frame as [|? frame]; [done|]). exfalso. revert Hlen. unfold len. simpl length. lia.
Qed.

(** The result of a call of the parser, in terms of the grammar. *)
Definition item_sound (limits : TTLVLimits) (depth fields : Z) (frame : bytes)
    (t : TTLV) (n fields' : Z) : Prop :=
  exists f rest, frame = f ++ rest /\ n = len f /\ Frame t f /\
    fields' = fields + nodes t /\ fields' <= MaxFields limits /\
    depth + height t - 1 <= MaxDepth limits.

Lemma parse_children_sound limits depth item :
  (forall fields v t n fields', item fields v = Ok (t, n, fields') ->
     item_sound limits depth fields v t n fields') ->
  depth - 1 <= MaxDepth limits ->
  forall k fields value ch fields',
  parse_children item k fields value = Ok (ch, fields') -> fields <= MaxFields limits ->
  Frames ch value /\ fields' = fields + nodes_list ch /\ fields' <= MaxFields limits /\
  depth + heights ch - 1 <= MaxDepth limits.
Proof.
  intros Hitem Hd. induction k as [|k IH]; intros fields [|b value] ch fields' H Hf; simpl in H; simplify_eq.
  - split_and!; [constructor|unfold nodes_list; simpl; lia|done|unfold heights; simpl; lia].
  - split_and!; [constructor|unfold nodes_list; simpl; lia|done|unfold heights; simpl; lia].
  - destruct (item fields (b :: value)) as [[[t n] f1]|e] eqn:Hi; simpl in H; [|done].
    apply Hitem in Hi as (f & rest & Hv & -> & HF & -> & Hmax & Hh).
    rewrite Hv in H |- *. unfold len in H. rewrite Nat2Z.id, drop_app_length in H.
    destruct (parse_children item k _ rest) as [[ts f2]|e] eqn:Hr; simpl in H; [|done]. simplify_eq.
    apply IH in Hr as (HFs & -> & Hmax' & Hhs); [|done].
    split_and!; [by constructor|rewrite nodes_list_cons; lia|done|rewrite heights_cons; lia].
Qed.

Lemma take_drop_len (n : Z) (l : bytes) :
  0 <= n <= len l -> len (take (Z.to_nat n) l) = n /\ l = take (Z.to_nat n) l ++ drop (Z.to_nat n) l.
Proof.
  intros H. split; [|by rewrite take_drop].
  unfold len in *. rewrite length_take. lia.
Qed.

(** A primitive item, once its length has been checked. *)
Lemma primitive_sound limits depth fields tag typ n body :
  0 <= tag < 2 ^ 24 -> 0 <= n < 2 ^ 32 -> n + ttlvPadding n <= len body ->
  primitive_length typ n = true ->
  fields + 1 <= MaxFields limits -> depth <= MaxDepth limits ->
  item_sound limits depth fields (header tag typ n ++ body)
    (mkTTLV tag typ n (take (Z.to_nat n) body) []) (8 + n + ttlvPadding n) (fields + 1).
Proof.
  intros Htag Hn Hlen Hprim Hf Hd.
  destruct (ttlvPadding_spec n) as [Hp _]; [lia|].
  destruct (take_drop_len n body) as [Hv Hbody]; [lia|].
  destruct (take_drop_len (ttlvPadding n) (drop (Z.to_nat n) body)) as [Hpad Hrest].
  { unfold len in *. rewrite length_drop. lia. }
  set (value := take (Z.to_nat n) body) in *.
  set (pad := take (Z.to_nat (ttlvPadding n)) (drop (Z.to_nat n) body)) in *.
  exists (header tag typ n ++ value ++ pad), (drop (Z.to_nat (ttlvPadding n)) (drop (Z.to_nat n) body)).
  split_and!.
  - rewrite <- !app_assoc. by rewrite <- Hrest, <- Hbody.
  - autorewrite with trst_rw. lia.
  - rewrite <- Hv. constructor; [done|lia|by rewrite Hv|by rewrite Hv].
  - done.
  - done.
  - rewrite height_eq. unfold heights. simpl foldr. lia.
Qed.

(** A structure whose items the loop has accepted. *)
Lemma structure_sound limits depth fields tag n body ch fields' :
  0 <= tag < 2 ^ 24 -> 0 <= n < 2 ^ 32 -> n + ttlvPadding n <= len body ->
  Frames ch (take (Z.to_nat n) body) -> fields' = fields + 1 + nodes_list ch ->
  fields' <= MaxFields limits -> depth + 1 + heights ch - 1 <= MaxDepth limits ->
  item_sound limits depth fields (header tag TTLVStructure n ++ body)
    (mkTTLV tag TTLVStructure n [] ch) (8 + n + ttlvPadding n) fields'.
Proof.
  intros Htag Hn Hlen HF -> Hf Hh.
  destruct (ttlvPadding_spec n) as [Hp _]; [lia|].
  destruct (take_drop_len n body) as [Hv Hbody]; [lia|].
  assert (Hpad : ttlvPadding n = 0).
  { apply ttlvPadding_aligned. rewrite <- Hv. by eapply Frames_aligned. }
  set (value := take (Z.to_nat n) body) in *.
  exists (header tag TTLVStructure n ++ value), (drop (Z.to_nat n) body). split_and!.
  - by rewrite <- app_assoc, <- Hbody.
  - autorewrite with trst_rw. lia.
  - rewrite <- Hv. constructor; [done|lia|done].
  - rewrite nodes_eq. lia.
  - done.
  - rewrite height_eq. lia.
Qed.

Lemma parse_body_sound fuel limits depth fields tag typ n body t m fields' :
  (forall depth fields frame t n fields',
     parseItem fuel limits depth fields frame = Ok (t, n, fields') ->
     item_sound limits depth fields frame t n fields') ->
  0 <= tag < 2 ^ 24 -> 0 <= n < 2 ^ 32 -> depth <= MaxDepth limits ->
  parse_body fuel limits depth fields tag typ n body = Ok (t, m, fields') ->
  item_sound limits depth fields (header tag typ n ++ body) t m fields'.
Proof.
  intros IH Htag Hn Hd H. unfold parse_body in H.
  destruct (Z.ltb_spec (MaxFields limits) (fields + 1)) as [|Hf]; [done|].
  destruct (uint32 (MaxFrameSize limits) <? n); [done|].
  destruct ((_ <? 8) || (8 + len body <? _)) eqn:Htot; [done|].
  apply orb_false_elim in Htot as [_ Htot]. apply Z.ltb_ge in Htot.
  assert (Hlen : n + ttlvPadding n <= len body) by lia.
  assert (Hprim : primitive_length typ n = true -> t = mkTTLV tag typ n (take (Z.to_nat n) body) [] ->
    m = 8 + n + ttlvPadding n -> fields' = fields + 1 ->
    item_sound limits depth fields (header tag typ n ++ body) t m fields')
    by (intros ? -> -> ->; by apply primitive_sound).
  unfold primitive_length in Hprim.
  destruct (Z.eqb_spec typ TTLVStructure) as [->|Hty].
  { destruct (parse_children _ _ _ _) as [[ch f1]|] eqn:Hc; simpl in H; [|done]. simplify_eq.
    eapply parse_children_sound in Hc as (HF & Hf1 & Hmax & Hh);
      [by apply structure_sound|by intros; apply IH|lia|done]. }
  destruct ((typ =? TTLVInteger) || _ || _);
    [destruct (n =? 4); simpl in H; simplify_eq; by apply Hprim|].
  destruct ((typ =? TTLVLongInteger) || _ || _);
    [destruct (n =? 8); simpl in H; simplify_eq; by apply Hprim|].
  destruct ((typ =? TTLVBigInteger) || _ || _); simplify_eq. by apply Hprim.
Qed.

Lemma parseItem_sound fuel limits : forall depth fields frame t n fields',
  parseItem fuel limits depth fields frame = Ok (t, n, fields') ->
  item_sound limits depth fields frame t n fields'.
Proof.
  induction fuel as [|fuel IH]; intros depth fields frame t n fields' H; [done|].
  destruct (Z.lt_ge_cases (len frame) 8) as [Hs|Hs]; [by rewrite parseItem_short in H|].
  apply header_surj in Hs as (tag & typ & m & body & -> & Htag & Htyp & Hm).
  rewrite parseItem_header in H by done.
  destruct (Z.ltb_spec (MaxDepth limits) depth); [done|]. by eapply parse_body_sound.
Qed.

Lemma take_app_len (v r : bytes) : take (Z.to_nat (len v)) (v ++ r) = v.
Proof. unfold len. by rewrite Nat2Z.id, take_app_length. Qed.

(** Enough room for an item within the limits. *)
Definition fits (limits : TTLVLimits) (depth fields : Z) (size : Z) (nodes height : Z) : Prop :=
  size <= MaxFrameSize limits /\ fields + nodes <= MaxFields limits /\
  depth + height - 1 <= MaxDepth limits.

Lemma parse_body_guards limits fields n (body : bytes) :
  MaxFrameSize limits < 2 ^ 32 -> 0 <= n <= MaxFrameSize limits ->
  fields + 1 <= MaxFields limits -> n + ttlvPadding n <= len body ->
  (MaxFields limits <? fields + 1) = false /\
  (uint32 (MaxFrameSize limits) <? n) = false /\
  ((8 + n + ttlvPadding n <? 8) || (8 + len body <? 8 + n + ttlvPadding n)) = false.
Proof.
  intros Hcap Hn Hf Hlen. destruct (ttlvPadding_spec n) as [Hp _]; [lia|].
  unfold uint32. rewrite (Z.mod_small (MaxFrameSize limits)) by lia.
  split_and!; try (apply Z.ltb_ge; lia).
  apply orb_false_intro; apply Z.ltb_ge; lia.
Qed.

Section Complete.
Variable limits : TTLVLimits.
Hypothesis Hcap : MaxFrameSize limits < 2 ^ 32.

Lemma structure_complete tag ch body fuel depth fields rest :
  0 <= tag < 2 ^ 24 -> len body < 2 ^ 32 -> Frames ch body ->
  fits limits depth fields (8 + len body) (1 + nodes_list ch) (1 + heights ch) ->
  parse_children (parseItem fuel limits (depth + 1)) (length body) (fields + 1) body
    = Ok (ch, fields + 1 + nodes_list ch) ->
  parseItem (S fuel) limits depth fields (header tag TTLVStructure (len body) ++ body ++ rest)
    = Ok (mkTTLV tag TTLVStructure (len body) [] ch, 8 + len body, fields + (1 + nodes_list ch)).
Proof.
  intros Htag Hlen HFs (Hs & Hf & Hh) Hch.
  pose proof (len_nonneg body). pose proof (heights_nonneg ch).
  pose proof (nodes_list_nonneg ch). pose proof (len_nonneg rest).
  rewrite parseItem_header by (unfold TTLVStructure; lia).
  destruct (Z.ltb_spec (MaxDepth limits) depth); [lia|]. unfold parse_body.
  assert (Hpad : ttlvPadding (len body) = 0) by (apply ttlvPadding_aligned; by eapply Frames_aligned).
  destruct (parse_body_guards limits fields (len body) (body ++ rest)) as (-> & -> & ->);
    [done|lia|lia|rewrite len_app; lia|].
  rewrite take_app_len, Hch. simpl. by rewrite Hpad, Z.add_0_r, Z.add_assoc.
Qed.

Lemma primitive_complete tag typ value pad fuel depth fields rest :
  0 <= tag < 2 ^ 24 -> len value < 2 ^ 32 -> primitive_length typ (len value) = true ->
  len pad = ttlvPadding (len value) ->
  fits limits depth fields (8 + (len value + len pad)) 1 1 ->
  parseItem (S fuel) limits depth fields (header tag typ (len value) ++ value ++ pad ++ rest)
    = Ok (mkTTLV tag typ (len value) value [], 8 + (len value + len pad), fields + 1).
Proof.
  intros Htag Hlen Hprim Hpad (Hs & Hf & Hh).
  pose proof (len_nonneg value). pose proof (len_nonneg pad). pose proof (len_nonneg rest).
  pose proof (primitive_type _ _ Hprim) as Hty.
  rewrite parseItem_header by lia.
  destruct (Z.ltb_spec (MaxDepth limits) depth); [lia|]. unfold parse_body.
  destruct (parse_body_guards limits fields (len value) (value ++ pad ++ rest)) as (-> & -> & ->);
    [done|lia|lia|rewrite !len_app; lia|].
  rewrite take_app_len, (proj2 (Z.eqb_neq typ TTLVStructure)) by (unfold TTLVStructure; lia).
  unfold primitive_length in Hprim. rewrite Hpad, Z.add_assoc.
  repeat case_goal; simplify_eq/=; try done; by rewrite Hprim in *.
Qed.

Lemma parse_complete_both :
  (forall t f, Frame t f -> forall fuel depth fields rest,
     fits limits depth fields (len f) (nodes t) (height t) ->
     (Z.to_nat (height t) <= fuel)%nat ->
     parseItem fuel limits depth fields (f ++ rest) = Ok (t, len f, fields + nodes t)) /\
  (forall ts fs, Frames ts fs -> forall fuel depth fields k,
     fits limits depth fields (len fs) (nodes_list ts) (heights ts) ->
     (Z.to_nat (heights ts) <= fuel)%nat -> (length fs <= k)%nat ->
     parse_children (parseItem fuel limits depth) k fields fs = Ok (ts, fields + nodes_list ts)).
Proof.
  apply Frame_Frames_ind.
  - intros tag ch body Htag Hlen HFs IH [|fuel] depth fields rest Hfit Hfuel;
      pose proof (heights_nonneg ch); autorewrite with trst_rw in *; [lia|].
    rewrite <- app_assoc. apply structure_complete; try done.
    destruct Hfit as (? & ? & ?). apply IH; [unfold fits; lia|lia|done].
  - intros tag typ value pad Htag Hlen Hprim Hpad [|fuel] depth fields rest Hfit Hfuel;
      autorewrite with trst_rw in *; unfold nodes_list, heights in *; simpl foldr in *; [lia|].
    rewrite <- !app_assoc. by apply primitive_complete.
  - intros fuel depth fields k _ _ _. unfold nodes_list. simpl foldr. rewrite Z.add_0_r. by destruct k.
  - intros t f ts fs HF IH HFs IHs fuel depth fields k (Hs & Hf & Hh) Hfuel Hk.
    autorewrite with trst_rw in *. pose proof (Frame_nodes _ _ HF). pose proof (nodes_pos t).
    pose proof (len_nonneg fs). pose proof (nodes_list_nonneg ts). rewrite length_app in Hk.
    destruct k as [|k]; [unfold len in *; lia|].
    destruct (f ++ fs) as [|b g] eqn:Hbg.
    { apply app_nil in Hbg as [-> _]. unfold len in *. simpl in *. lia. }
    cbn [parse_children]. rewrite <- Hbg, IH; [|unfold fits; lia|lia]. simpl.
    unfold len at 1. rewrite Nat2Z.id, drop_app_length.
    rewrite IHs; [|unfold fits; lia|lia|unfold len in *; lia]. simpl. do 2 f_equal. lia.
Qed.

End Complete.

(** The recursion never runs out: the depth check and the progress of the loop
    come first. *)
Lemma parse_children_fuel item :
  (forall fields v, item fields v <> Err OutOfFuel) ->
  (forall fields v t n fields', item fields v = Ok (t, n, fields') -> 0 < n) ->
  forall k fields value, (length value <= k)%nat -> parse_children item k fields value <> Err OutOfFuel.
Proof.
  intros Hne Hpos. induction k as [|k IH]; intros fields [|b value] Hk; simpl in *; try done; [lia|].
  destruct (item fields (b :: value)) as [[[t n] f1]|e] eqn:Hi; simpl; [|specialize (Hne fields (b :: value)); congruence].
  apply Hpos in Hi.
  specialize (IH f1 (drop (Z.to_nat n) (b :: value))).
  destruct (parse_children item k f1 _) as [[ts f2]|e]; simpl; [done|].
  intros [= ->]. apply IH; [rewrite length_drop; simpl; lia|done].
Qed.

Lemma parseItem_fuel limits : forall fuel depth fields frame,
  MaxDepth limits - depth + 2 <= Z.of_nat fuel -> 0 < Z.of_nat fuel ->
  parseItem fuel limits depth fields frame <> Err OutOfFuel.
Proof.
  induction fuel as [|fuel IH]; intros depth fields frame Hfuel Hpos; [lia|].
  destruct (Z.lt_ge_cases (len frame) 8) as [Hs|Hs];
    [rewrite parseItem_short by done; by destruct (_ <? _)|].
  apply header_surj in Hs as (tag & typ & n & body & -> & Htag & Htyp & Hn).
  rewrite parseItem_header by done.
  destruct (Z.ltb_spec (MaxDepth limits) depth) as [|Hd]; [done|]. unfold parse_body.
  repeat (case_goal; try done).
  destruct (parse_children _ _ _ _) as [[ch f]|e] eqn:Hc; simpl; [done|]. intros [= ->].
  eapply parse_children_fuel; [..|exact Hc]; [intros; apply IH; lia| |done].
  intros fields' v t m f' Hi. apply parseItem_sound in Hi as (f1 & r & _ & -> & HF & _).
  pose proof (Frame_nodes _ _ HF). pose proof (nodes_pos t). lia.
Qed.

(** ** The encoder produces the grammar *)

(** The frame of a tree, built with [encodeItem]. *)
Fixpoint encode (t : TTLV) : bytes :=
  match t with
  | mkTTLV tag typ _ value children =>
      encodeItem tag typ (if typ =? TTLVStructure then mjoin (map encode children) else value)
  end.

Lemma encodeItem_eq tag typ value :
  len value < 2 ^ 32 ->
  encodeItem tag typ value = header tag typ (len value) ++ value
    ++ replicate (Z.to_nat (ttlvPadding (len value))) (byte_of 0).
Proof.
  intros Hlen. unfold encodeItem, header, uint32.
  rewrite Z.mod_small by (split; [apply len_nonneg|done]). done.
Qed.

Lemma encodeStructure_Frame tag bs ch :
  0 <= tag < 2 ^ 24 -> len (mjoin bs) < 2 ^ 32 -> Frames ch (mjoin bs) ->
  Frame (mkTTLV tag TTLVStructure (len (mjoin bs)) [] ch) (encodeStructure tag bs).
Proof.
  intros Htag Hlen HF. unfold encodeStructure. rewrite encodeItem_eq by done.
  rewrite (ttlvPadding_aligned (len (mjoin bs))) by (by eapply Frames_aligned).
  simpl replicate. rewrite app_nil_r. by constructor.
Qed.

Lemma encodePrimitive_Frame tag typ value :
  0 <= tag < 2 ^ 24 -> len value < 2 ^ 32 -> primitive_length typ (len value) = true ->
  Frame (mkTTLV tag typ (len value) value []) (encodeItem tag typ value).
Proof.
  intros Htag Hlen Hp. rewrite encodeItem_eq by done. constructor; try done.
  unfold len at 1. rewrite length_replicate.
  destruct (ttlvPadding_spec (len value)) as [Hr _]; [apply len_nonneg|]. lia.
Qed.

Lemma encode_Frame_both :
  (forall t f, Frame t f -> Frame t (encode t) /\ len (encode t) = len f) /\
  (forall ts fs, Frames ts fs -> Frames ts (mjoin (map encode ts)) /\ len (mjoin (map encode ts)) = len fs).
Proof.
  apply Frame_Frames_ind.
  - intros tag ch body Htag Hlen _ [HF Hl]. simpl. fold (encodeStructure tag (map encode ch)).
    assert (Ha : (8 | len (mjoin (map encode ch)))) by (by eapply Frames_aligned).
    split; [rewrite <- Hl; apply encodeStructure_Frame; [done|lia|done]|].
    unfold encodeStructure. rewrite encodeItem_eq, ttlvPadding_aligned by (lia || done).
    simpl replicate. rewrite app_nil_r. autorewrite with trst_rw. lia.
  - intros tag typ value pad Htag Hlen Hp Hpad. pose proof (primitive_type _ _ Hp). simpl.
    rewrite (proj2 (Z.eqb_neq typ TTLVStructure)) by (unfold TTLVStructure; lia).
    split; [by apply encodePrimitive_Frame|]. rewrite encodeItem_eq by done.
    autorewrite with trst_rw. rewrite Hpad. unfold len at 2. rewrite length_replicate.
    destruct (ttlvPadding_spec (len value)) as [Hr _]; [apply len_nonneg|]. lia.
  - by split; [constructor|].
  - intros t f ts fs _ [HF Hl] _ [HFs Hls]. simpl. rewrite !len_app. split; [by constructor|lia].
Qed.

Lemma encode_Frame t f : Frame t f -> Frame t (encode t) /\ len (encode t) = len f.
Proof. apply encode_Frame_both. Qed.

Lemma normalize_pos limits :
  let L := normalizeTTLVLimits limits in
  0 < MaxFrameSize L /\ 0 < MaxFields L /\ 0 < MaxDepth L.
Proof.
  unfold normalizeTTLVLimits. cbn [MaxFrameSize MaxFields MaxDepth DefaultTTLVLimits].
  assert (0 < Z.shiftl 1 20) by done.
  destruct (Z.leb_spec (MaxFrameSize limits) 0), (Z.leb_spec (MaxFields limits) 0),
    (Z.leb_spec (MaxDepth limits) 0); lia.
Qed.

(** Acceptance is membership in the grammar within the limits. *)
Lemma Parse_iff frame limits t :
  let L := normalizeTTLVLimits limits in
  MaxFrameSize L < 2 ^ 32 ->
  ParseTTLVWithLimits frame limits = Ok t <->
  Frame t frame /\ len frame <= MaxFrameSize L /\ nodes t <= MaxFields L /\ height t <= MaxDepth L.
Proof.
  intros L Hcap. unfold ParseTTLVWithLimits. fold L. split.
  - intros H. case_in H; [done|]. case_in H; [done|].
    destruct (parseItem _ _ _ _ _) as [[[root n] f]|] eqn:Hp; simpl in H; [|done].
    destruct (Z.eqb_spec n (len frame)) as [->|]; simpl in H; simplify_eq.
    apply parseItem_sound in Hp as (g & rest & Hfr & Hlen & HF & Hfields & Hmax & Hh).
    assert (rest = []) as ->.
    { apply nil_length_inv. rewrite Hfr, len_app in Hlen. unfold len in Hlen. lia. }
    rewrite app_nil_r in Hfr. subst g. split_and!; [done|lia|lia|lia].
  - intros (HF & Hlen & Hn & Hh). pose proof (Frame_nodes _ _ HF). pose proof (nodes_pos t).
    pose proof (height_pos t).
    rewrite (proj2 (Z.eqb_neq (len frame) 0)), (proj2 (Z.ltb_ge _ _)) by lia.
    rewrite <- (app_nil_r frame) at 1.
    rewrite (proj1 (parse_complete_both L Hcap) t frame HF); [|unfold fits; lia|unfold parse_fuel; lia].
    simpl. by rewrite Z.eqb_refl.
Qed.

Lemma Parse_no_fuel frame limits : ParseTTLVWithLimits frame limits <> Err OutOfFuel.
Proof.
  unfold ParseTTLVWithLimits. pose proof (normalize_pos limits) as (? & ? & ?).
  repeat (case_goal; try done).
  destruct (parseItem _ _ _ _ _) as [[[root n] f]|e] eqn:Hp; simpl; [by case_goal|].
  intros [= ->]. revert Hp. apply parseItem_fuel; unfold parse_fuel; lia.
Qed.

(** The reader cuts a stream where the item ends. *)
Lemma ReadFrame_Frame t f rest cap :
  Frame t f -> 0 < cap -> len f <= cap -> ReadFrame (f ++ rest) cap = (Ok f, rest).
Proof.
  intros HF Hcap Hlen.
  assert (Hform : exists tag typ n body, f = header tag typ n ++ body /\
            0 <= n < 2 ^ 32 /\ len body = n + ttlvPadding n).
  { destruct HF as [tag ch body Ht Hl HFs|tag typ value pad Ht Hl Hp Hpad].
    - exists tag, TTLVStructure, (len body), body. split; [done|]. pose proof (len_nonneg body).
      rewrite ttlvPadding_aligned by (by eapply Frames_aligned). lia.
    - exists tag, typ, (len value), (value ++ pad). split; [done|]. pose proof (len_nonneg value).
      rewrite len_app. lia. }
  destruct Hform as (tag & typ & n & body & -> & Hn & Hbody).
  rewrite len_app, len_header in Hlen.
  destruct (ttlvPadding_spec n) as [Hp _]; [lia|].
  unfold ReadFrame. rewrite (proj2 (Z.leb_gt cap 0)) by lia.
  unfold ReadFull at 1. rewrite <- app_assoc, (proj2 (Z.leb_le 8 _))
    by (autorewrite with trst_rw; pose proof (len_nonneg rest); lia).
  change (take (Z.to_nat 8) (header tag typ n ++ body ++ rest)) with (header tag typ n).
  change (drop (Z.to_nat 8) (header tag typ n ++ body ++ rest)) with (body ++ rest).
  change (drop 4 (header tag typ n)) with (PutUint32 n).
  rewrite Uint32_PutUint32, Z.mod_small by lia.
  rewrite (proj2 (Z.ltb_ge (8 + n + ttlvPadding n) 8)), (proj2 (Z.ltb_ge cap _)) by lia. simpl orb.
  replace (8 + n + ttlvPadding n - 8) with (len body) by lia.
  unfold ReadFull. rewrite (proj2 (Z.leb_le _ _)) by (rewrite len_app; pose proof (len_nonneg rest); lia).
  rewrite take_app_len. unfold len. by rewrite Nat2Z.id, drop_app_length.
Qed.

(** C39: The KMIP parser decides the grammar of frames within its limits.  For
    every input and every limits (frame cap below 2^32) it accepts with the tree
    [t] exactly when the whole input is one item whose content is [t], its size,
    its number of items and its nesting depth are within the limits; it always
    returns, since its recursion and its loops never run out.  What it accepts
    survives the encoder: encoding the tree gives a frame of the same length that
    is accepted with the same tree, and the frame reader cuts it out of any stream
    that it starts. *)
Theorem ParseTTLV_decides frame limits t rest :
  let L := normalizeTTLVLimits limits in
  MaxFrameSize L < 2 ^ 32 ->
  ParseTTLVWithLimits frame limits <> Err OutOfFuel /\
  (ParseTTLVWithLimits frame limits = Ok t <->
   Frame t frame /\ len frame <= MaxFrameSize L /\ nodes t <= MaxFields L /\ height t <= MaxDepth L) /\
  (ParseTTLVWithLimits frame limits = Ok t ->
   len (encode t) = len frame /\ ParseTTLVWithLimits (encode t) limits = Ok t /\
   ReadFrame (encode t ++ rest) (MaxFrameSize L) = (Ok (encode t), rest)).
Proof.
  intros L Hcap. split; [apply Parse_no_fuel|]. split; [by apply Parse_iff|].
  intros H. apply (Parse_iff _ _ _ Hcap) in H as (HF & Hlen & Hn & Hh).
  destruct (encode_Frame _ _ HF) as [HE Hl]. split; [done|]. split.
  - apply Parse_iff; [done|]. split_and!; [done|by rewrite Hl|done|done].
  - apply (ReadFrame_Frame t); [done|apply normalize_pos|by rewrite Hl].
Qed.

(** A structure with an integer and a padded text. *)
Definition sample_tree : TTLV :=
  mkTTLV TagRequestHeader TTLVStructure 32 []
    [mkTTLV TagBatchCount TTLVInteger 4 (PutUint32 1) [];
     mkTTLV TagUniqueIdentifier TTLVTextString 6 (list_ascii_of_string "kmip-1") []].

Lemma ParseTTLV_decides_witness :
  ParseTTLVWithLimits (encode sample_tree) DefaultTTLVLimits <> Err OutOfFuel /\
  (ParseTTLVWithLimits (encode sample_tree) DefaultTTLVLimits = Ok sample_tree <->
   Frame sample_tree (encode sample_tree) /\ len (encode sample_tree) <= 2 ^ 20 /\
   nodes sample_tree <= 4096 /\ height sample_tree <= 16) /\
  (ParseTTLVWithLimits (encode sample_tree) DefaultTTLVLimits = Ok sample_tree ->
   len (encode sample_tree) = len (encode sample_tree) /\
   ParseTTLVWithLimits (encode sample_tree) DefaultTTLVLimits = Ok sample_tree /\
   ReadFrame (encode sample_tree ++ []) (2 ^ 20) = (Ok (encode sample_tree), [])).
Proof.
  apply (ParseTTLV_decides (encode sample_tree) DefaultTTLVLimits sample_tree []).
  vm_compute. reflexivity.
Defined.

End TtlvSpec.
