(* ===== verification/Kmip.v ===== *)
(** * The KMIP server

    Models [src/ee/kmip/kmip.go] (the managed objects and the operations on them),
    the request handlers and the responses of [src/ee/kmip/wire.go], and the loop
    over a connection of [src/ee/kmip/runtime.go].

    The mutex of the server makes each operation atomic, so an operation is a
    function from the server to a result and the server after it ([M]).  What an
    operation draws from outside is an argument: random bytes, the clock, and the
    order in which a map is iterated.  The parameters of the section are the
    client authenticator (an interface of the code), [strconv.Quote], and the
    part of [strings.ToLower] that needs the Unicode tables. *)

From stdpp Require Import pretty.
From S2P Require Import Prelude Ttlv.

Module Kmip.
Import SE Ttlv.

Open Scope Z_scope.

(** ** Formatting *)

Definition dq : string := String (ascii_of_nat 34) EmptyString.

Definition hex_digit (d : Z) : ascii :=
  ascii_of_nat (Z.to_nat (if d <? 10 then 48 + d else 87 + d)).

Fixpoint hex_digits (k : nat) (z : Z) (acc : string) : string :=
  match k with
  | O => acc
  | S k' => hex_digits k' (z / 16) (String (hex_digit (z mod 16)) acc)
  end.

(** The number of hexadecimal digits of a value of at most 32 bits. *)
Definition hex_width (z : Z) : nat :=
  List.length (List.filter (fun k => Z.pow 16 k <=? z) [1; 2; 3; 4; 5; 6; 7]) + 1.

(** [%#0wx]: the prefix and at least [w] digits. *)
Definition hex (w : nat) (z : Z) : string := "0x" ++ hex_digits (Nat.max w (hex_width z)) z "".

Definition TTLVError_Error (e : TTLVError) : string :=
  match e with
  | EmptyFrame => "kmip ttlv: empty frame"
  | FrameSize n cap => "kmip ttlv: frame size " ++ pretty n ++ " exceeds cap " ++ pretty cap
  | TrailingBytes n => "kmip ttlv: trailing bytes after top-level item: " ++ pretty n
  | NestingDepth d cap => "kmip ttlv: nesting depth " ++ pretty d ++ " exceeds cap " ++ pretty cap
  | TruncatedHeader n => "kmip ttlv: truncated item header: " ++ pretty n ++ " bytes"
  | FieldCount cap => "kmip ttlv: field count exceeds cap " ++ pretty cap
  | ValueCap n cap => "kmip ttlv: value length " ++ pretty n ++ " exceeds frame cap " ++ pretty cap
  | ValueExceeds n rem =>
      "kmip ttlv: value length " ++ pretty n ++ " exceeds remaining frame " ++ pretty rem
  | WrongLength typ n want =>
      "kmip ttlv: type " ++ hex 2 typ ++ " length " ++ pretty n ++ ", want " ++ pretty want
  | UnsupportedType typ => "kmip ttlv: unsupported type " ++ hex 2 typ
  | RootTag tag typ =>
      "kmip ttlv: root tag/type = " ++ hex 6 tag ++ "/" ++ hex 2 typ ++ ", want RequestMessage structure"
  | RequestHeaderMissing => "kmip ttlv: request header missing"
  | ProtocolVersionMissing => "kmip ttlv: protocol version missing"
  | BatchItemType => "kmip ttlv: batch item is not a structure"
  | IntegerChildMissing tag => "kmip ttlv: integer child " ++ hex 6 tag ++ " missing"
  | EnumChildMissing tag => "kmip ttlv: enumeration child " ++ hex 6 tag ++ " missing"
  | BatchMismatch n m =>
      "kmip ttlv: batch count " ++ pretty n ++ " does not match " ++ pretty m ++ " batch items"
  | OutOfFuel => ""
  end%string.

(** [strings.Contains]. *)
Fixpoint Contains (s sub : string) : bool :=
  String.prefix sub s ||
  match s with
  | EmptyString => false
  | String _ s' => Contains s' sub
  end.

(** ** Constants *)

Definition OperationCreate : Z := 0x00000001.
Definition OperationLocate : Z := 0x00000008.
Definition OperationGet : Z := 0x0000000a.
Definition OperationRevoke : Z := 0x00000013.
Definition OperationDestroy : Z := 0x00000014.

Definition objectTypeSymmetricKey : Z := 0x00000002.
Definition cryptographicAlgorithmAES : Z := 0x00000003.
Definition keyFormatTypeRaw : Z := 0x00000001.
Definition resultStatusSuccess : Z := 0x00000000.
Definition resultStatusOperationFailed : Z := 0x00000001.
Definition resultReasonItemNotFound : Z := 0x00000001.
Definition resultReasonAuthFailed : Z := 0x00000003.
Definition resultReasonInvalidMessage : Z := 0x00000004.
Definition resultReasonUnsupported : Z := 0x00000005.
Definition resultReasonInvalidField : Z := 0x00000007.
Definition resultReasonGeneralFailure : Z := 0x00000100.

(** ** State *)

Inductive ObjectState : Type := StateActive | StateRevoked | StateDestroyed.

#[global] Instance ObjectState_eq_dec : EqDecision ObjectState.
Proof. solve_decision. Defined.

Definition ObjectState_string (st : ObjectState) : string :=
  match st with
  | StateActive => "active"
  | StateRevoked => "revoked"
  | StateDestroyed => "destroyed"
  end.

Record ManagedObject : Type := mkManagedObject {
  mo_ID : string;
  mo_Algorithm : string;
  mo_State : ObjectState;
  mo_Version : Z;
  mo_key : bytes;
}.

Record ManagedObjectView : Type := mkManagedObjectView {
  vw_ID : string;
  vw_Algorithm : string;
  vw_Version : Z;
  vw_Key : bytes;
}.

Record AuditEvent : Type := mkAuditEvent {
  ae_type : string;
  ae_tenant : string;
  ae_data : string;
}.

Record Server : Type := mkServer {
  sv_tenantID : string;
  sv_objects : gmap string ManagedObject;
  sv_n : Z;
  sv_audit : list AuditEvent;
}.

Definition New (tenantID : string) : Server := mkServer tenantID ∅ 0 [].

(** Errors of the operations; [WireError] carries its KMIP reason. *)
Inductive KError : Type :=
| WireError (reason : Z) (message : string)
| NotAuthenticated
| ObjectNotAvailable (id : string)
| ObjectNotActive (id : string)
| ObjectNotFound (id : string)
| RandomFailed (text : string).

(** Operations: state and error. *)
Abbreviation M := (SE.M Server KError).

(** [fmt.Sprintf("kmip-%d", n)]. *)
Definition object_id (n : Z) : string := ("kmip-" ++ pretty n)%string.

Definition with_objects (f : gmap string ManagedObject -> gmap string ManagedObject) (s : Server) : Server :=
  mkServer (sv_tenantID s) (f (sv_objects s)) (sv_n s) (sv_audit s).

(** The iteration of a map, in an order that the runtime chooses. *)
Abbreviation range_order := (gmap string ManagedObject -> list (string * ManagedObject)).

(** An authenticator maps a certificate to a client id, or refuses it. *)
Class Authenticator : Type := Authenticate : bytes -> option string.

Definition VerifiedClientCertAuthenticator (SHA256Hex : bytes -> string) : Authenticator :=
  fun clientCertDER =>
    if len clientCertDER =? 0 then None else Some ("sha256:" ++ SHA256Hex clientCertDER)%string.

Section Server.
Context {auth : Authenticator}.
Variable Quote : string -> string.
Variable ToLowerUnicode : string -> string.

Definition KError_Error (e : KError) : string :=
  match e with
  | WireError _ message => message
  | NotAuthenticated => "kmip: client certificate not authenticated"
  | ObjectNotAvailable id => "kmip: object " ++ Quote id ++ " not available"
  | ObjectNotActive id => "kmip: object " ++ Quote id ++ " not active"
  | ObjectNotFound id => "kmip: object " ++ Quote id ++ " not found"
  | RandomFailed text => text
  end%string.

(** [auditsink.Emit]: what the sink is asked to record; its error is ignored by
    all the callers. *)
Definition Emit (eventType data : string) : M unit := fun s =>
  (Ok tt, mkServer (sv_tenantID s) (sv_objects s) (sv_n s)
            (sv_audit s ++ [mkAuditEvent eventType (sv_tenantID s) data])).

(** One JSON member [dq]key[dq]:value of the audit payloads. *)
Definition member (key value : string) : string := (dq ++ key ++ dq ++ ":" ++ value)%string.

Definition authClient (op : string) (clientCertDER : bytes) : M string :=
  match Authenticate clientCertDER with
  | Some id => ret id
  | None =>
      let! _ := Emit "kmip.unauthenticated" ("{" ++ member "op" (Quote op) ++ "}") in
      fail NotAuthenticated
  end.

(** ** Operations *)

Definition register (algorithm : string) (key : bytes) : M string := fun s =>
  let n := sv_n s + 1 in
  let id := object_id n in
  let s := mkServer (sv_tenantID s)
             (<[id := mkManagedObject id algorithm StateActive 1 key]> (sv_objects s)) n (sv_audit s) in
  bind (Emit "kmip.object.created" ("{" ++ member "id" (Quote id) ++ "," ++ member "alg" (Quote algorithm) ++ "}"))
       (fun _ => ret id) s.

Definition Create (random : result string bytes) (clientCertDER : bytes) (algorithm : string) : M string :=
  let! _ := authClient "create" clientCertDER in
  match random with
  | Err text => fail (RandomFailed text)
  | Ok key => register algorithm key
  end.

Definition Register (clientCertDER : bytes) (algorithm : string) (key : bytes) : M string :=
  let! _ := authClient "register" clientCertDER in
  register algorithm key.

Definition GetObject (clientCertDER : bytes) (id : string) : M ManagedObjectView :=
  let! _ := authClient "get" clientCertDER in
  fun s =>
    match sv_objects s !! id with
    | Some obj =>
        if decide (mo_State obj = StateActive)
        then (Ok (mkManagedObjectView (mo_ID obj) (mo_Algorithm obj) (mo_Version obj) (mo_key obj)), s)
        else (Err (ObjectNotAvailable id), s)
    | None => (Err (ObjectNotAvailable id), s)
    end.

Definition Get (clientCertDER : bytes) (id : string) : M bytes :=
  let! obj := GetObject clientCertDER id in ret (vw_Key obj).

Definition Locate (range : range_order) (clientCertDER : bytes) (algorithm : string) : M (list string) :=
  let! _ := authClient "locate" clientCertDER in
  fun s =>
    let wanted (p : string * ManagedObject) :=
      bool_decide (mo_State p.2 = StateActive)
      && (String.eqb algorithm "" || String.eqb (mo_Algorithm p.2) algorithm) in
    (Ok (map fst (List.filter wanted (range (sv_objects s)))), s).

Definition ReKey (random : result string bytes) (clientCertDER : bytes) (id : string) : M Z :=
  let! _ := authClient "rekey" clientCertDER in
  match random with
  | Err text => fail (RandomFailed text)
  | Ok key => fun s =>
      match sv_objects s !! id with
      | Some obj =>
          if decide (mo_State obj = StateActive) then
            let version := mo_Version obj + 1 in
            let obj' := mkManagedObject (mo_ID obj) (mo_Algorithm obj) (mo_State obj) version key in
            bind (Emit "kmip.object.rekeyed"
                    ("{" ++ member "id" (Quote id) ++ "," ++ member "version" (pretty version) ++ "}"))
                 (fun _ => ret version) (with_objects <[id := obj']> s)
          else (Err (ObjectNotActive id), s)
      | None => (Err (ObjectNotActive id), s)
      end
  end.

Definition transition (clientCertDER : bytes) (op id : string) (to : ObjectState) : M unit :=
  let! _ := authClient op clientCertDER in
  fun s =>
    match sv_objects s !! id with
    | None => (Err (ObjectNotFound id), s)
    | Some obj =>
        let obj' := mkManagedObject (mo_ID obj) (mo_Algorithm obj) to (mo_Version obj) (mo_key obj) in
        Emit ("kmip.object." ++ op)
          ("{" ++ member "id" (Quote id) ++ "," ++ member "state" (Quote (ObjectState_string to)) ++ "}")
          (with_objects <[id := obj']> s)
    end.

Definition Revoke (clientCertDER : bytes) (id : string) : M unit :=
  transition clientCertDER "revoke" id StateRevoked.

Definition Destroy (clientCertDER : bytes) (id : string) : M unit :=
  let! _ := authClient "destroy" clientCertDER in
  fun s =>
    match sv_objects s !! id with
    | None => (Err (ObjectNotFound id), s)
    | Some obj =>
        let obj' := mkManagedObject (mo_ID obj) (mo_Algorithm obj) StateDestroyed (mo_Version obj) [] in
        Emit "kmip.object.destroyed" ("{" ++ member "id" (Quote id) ++ "}")
          (with_objects <[id := obj']> s)
    end.

(** Every object is wiped and the map cleared; the counter stays. *)
Definition Close (s : Server) : Server := with_objects (fun _ => ∅) s.

Definition DecodeTTLVRequest (clientCertDER : bytes) (frame : bytes)
  : Server -> result (KError + TTLVError) RequestMessage * Server := fun s =>
  match authClient "decode_ttlv" clientCertDER s with
  | (Err e, s') => (Err (inl e), s')
  | (Ok _, s') =>
      (match DecodeRequestMessage frame with Ok msg => Ok msg | Err e => Err (inr e) end, s')
  end.

(** ** Responses *)

Record wireResponseItem : Type := mkItem {
  wi_operation : Z;
  wi_status : Z;
  wi_reason : Z;
  wi_message : string;
  wi_payload : bytes;
}.

Definition failureItem (op reason : Z) (message : string) : wireResponseItem :=
  mkItem op resultStatusOperationFailed reason message [].

(** An item literal that sets the operation and the payload only. *)
Definition successItem (op : Z) (payload : bytes) : wireResponseItem := mkItem op 0 0 "" payload.

Definition errorItem (op : Z) (err : KError) : wireResponseItem :=
  let text := KError_Error err in
  match err with
  | WireError reason message => failureItem op reason message
  | _ =>
      if Contains text "not available" || Contains text "not active" || Contains text "not found"
      then failureItem op resultReasonItemNotFound text
      else if Contains text "not authenticated" then failureItem op resultReasonAuthFailed text
      else failureItem op resultReasonGeneralFailure text
  end.

Definition encodeResponseBatchItem (item : wireResponseItem) : bytes :=
  let status :=
    if (wi_status item =? 0) && (wi_reason item =? 0) && String.eqb (wi_message item) ""
    then resultStatusSuccess else wi_status item in
  encodeStructure TagBatchItem
    ((if negb (wi_operation item =? 0) then [encodeEnumeration TagOperation (wi_operation item)] else [])
     ++ [encodeEnumeration TagResultStatus status]
     ++ (if negb (status =? resultStatusSuccess)
         then [encodeEnumeration TagResultReason (wi_reason item); encodeText TagResultMessage (wi_message item)]
         else [])
     ++ (if 0 <? len (wi_payload item) then [wi_payload item] else [])).

Definition encodeResponse (now major minor : Z) (items : list wireResponseItem) : bytes :=
  let major := if major <=? 0 then 1 else major in
  let minor := if minor <? 0 then 2 else minor in
  encodeStructure TagResponseMessage
    (encodeStructure TagResponseHeader
       [encodeStructure TagProtocolVersion
          [encodeInteger TagProtocolVersionMajor (int32 major);
           encodeInteger TagProtocolVersionMinor (int32 minor)];
        encodeDateTime TagTimeStamp now;
        encodeInteger TagBatchCount (int32 (len items))]
     :: map encodeResponseBatchItem items).

(** ** Request payloads *)

Definition underscore (c : ascii) : ascii :=
  if Ascii.eqb c " " || Ascii.eqb c "." || Ascii.eqb c "-" then "_"%char else c.

Definition normalizedAttributeName (name : string) : string :=
  GoStrings.ToLower ToLowerUnicode (string_of_list_ascii (map underscore (list_ascii_of_string name))).

Definition parseAttribute (attr : TTLV) : option (string * TTLV) :=
  match FirstChild attr TagAttributeName with
  | None => None
  | Some nameNode =>
      if negb (Type_ nameNode =? TTLVTextString) then None else
      match FirstChild attr TagAttributeValue with
      | None => None
      | Some valueNode => Some (string_of_list_ascii (Value nameNode), valueNode)
      end
  end.

Definition is_attribute (attr : TTLV) : bool :=
  negb (negb (Tag attr =? TagAttribute) || negb (Type_ attr =? TTLVStructure)).

Record createPayloadSpec : Type := mkSpec {
  objectType : Z;
  algorithm : Z;
  key_length : Z;
}.

(** One attribute of the template of a Create request. *)
Definition create_attribute (spec : createPayloadSpec) (attr : TTLV) : createPayloadSpec :=
  if negb (is_attribute attr) then spec else
  match parseAttribute attr with
  | None => spec
  | Some (name, value) =>
      let name := normalizedAttributeName name in
      if String.eqb name "cryptographic_algorithm" then
        if (Type_ value =? TTLVEnumeration) && (len (Value value) =? 4)
        then mkSpec (objectType spec) (int32 (Uint32 (Value value))) (key_length spec) else spec
      else if String.eqb name "cryptographic_length" then
        if (Type_ value =? TTLVInteger) && (len (Value value) =? 4)
        then mkSpec (objectType spec) (algorithm spec) (Uint32 (Value value)) else spec
      else spec
  end.

Definition is_payload (payload : TTLV) : bool :=
  negb (negb (Tag payload =? TagRequestPayload) || negb (Type_ payload =? TTLVStructure)).

Definition parseCreatePayload (payload : TTLV) : result KError createPayloadSpec :=
  if negb (is_payload payload)
  then Err (WireError resultReasonInvalidMessage "Create request payload missing") else
  match enumChild payload TagObjectType with
  | Err e => Err (WireError resultReasonInvalidField (TTLVError_Error e))
  | Ok ot =>
      let spec := mkSpec ot cryptographicAlgorithmAES 256 in
      match structure_child payload TagTemplateAttribute with
      | Some tmpl => Ok (fold_left create_attribute (Children tmpl) spec)
      | None => Ok spec
      end
  end.

(** The loop over the template of a Locate request. *)
Fixpoint locate_attributes (attrs : list TTLV) : result KError string :=
  match attrs with
  | [] => Ok ""%string
  | attr :: attrs' =>
      if negb (is_attribute attr) then locate_attributes attrs' else
      match parseAttribute attr with
      | None => locate_attributes attrs'
      | Some (name, value) =>
          if negb (String.eqb (normalizedAttributeName name) "cryptographic_algorithm")
          then locate_attributes attrs' else
          if negb (Type_ value =? TTLVEnumeration) || negb (len (Value value) =? 4)
          then Err (WireError resultReasonInvalidField "Cryptographic Algorithm must be an enumeration") else
          if negb (int32 (Uint32 (Value value)) =? cryptographicAlgorithmAES)
          then Err (WireError resultReasonInvalidField "only AES SymmetricKey Locate is served") else
          Ok "AES"%string
      end
  end.

Definition parseLocateAlgorithm (payload : TTLV) : result KError string :=
  if Tag payload =? 0 then Ok ""%string else
  if negb (is_payload payload)
  then Err (WireError resultReasonInvalidMessage "Locate request payload malformed") else
  match structure_child payload TagTemplateAttribute with
  | Some tmpl => locate_attributes (Children tmpl)
  | None => Ok ""%string
  end.

Definition parseUniqueIdentifierPayload (payload : TTLV) : result KError string :=
  if negb (is_payload payload)
  then Err (WireError resultReasonInvalidMessage "UniqueIdentifier request payload missing") else
  match FirstChild payload TagUniqueIdentifier with
  | None => Err (WireError resultReasonInvalidField "UniqueIdentifier is required")
  | Some uid =>
      if negb (Type_ uid =? TTLVTextString)
      then Err (WireError resultReasonInvalidField "UniqueIdentifier is required") else
      let id := GoStrings.TrimSpace (string_of_list_ascii (Value uid)) in
      if String.eqb id "" then Err (WireError resultReasonInvalidField "UniqueIdentifier is empty") else
      Ok id
  end.

(** ** Handlers *)

(** What one batch item draws from outside. *)
Record ItemEnv : Type := mkItemEnv {
  ie_random : result string bytes;
  ie_range : range_order;
}.

Definition handleCreate (env : ItemEnv) (clientCertDER : bytes) (payload : TTLV) : M wireResponseItem :=
  let! spec := lift (parseCreatePayload payload) in
  if negb (objectType spec =? objectTypeSymmetricKey)
  then fail (WireError resultReasonInvalidField "only SymmetricKey creation is served") else
  if negb (algorithm spec =? cryptographicAlgorithmAES) || negb (key_length spec =? 256)
  then fail (WireError resultReasonInvalidField "only AES-256 SymmetricKey creation is served") else
  let! id := Create (ie_random env) clientCertDER "AES" in
  ret (successItem OperationCreate
         (encodeStructure TagResponsePayload
            [encodeEnumeration TagObjectType objectTypeSymmetricKey;
             encodeText TagUniqueIdentifier id])).

Definition handleLocate (env : ItemEnv) (clientCertDER : bytes) (payload : TTLV) : M wireResponseItem :=
  let! algorithm := lift (parseLocateAlgorithm payload) in
  let! ids := Locate (ie_range env) clientCertDER algorithm in
  ret (successItem OperationLocate
         (encodeStructure TagResponsePayload (map (encodeText TagUniqueIdentifier) ids))).

Definition handleGet (clientCertDER : bytes) (payload : TTLV) : M wireResponseItem :=
  let! id := lift (parseUniqueIdentifierPayload payload) in
  let! obj := GetObject clientCertDER id in
  ret (successItem OperationGet
         (encodeStructure TagResponsePayload
            [encodeEnumeration TagObjectType objectTypeSymmetricKey;
             encodeText TagUniqueIdentifier (vw_ID obj);
             encodeStructure TagSymmetricKey
               [encodeStructure TagKeyBlock
                  [encodeEnumeration TagKeyFormatType keyFormatTypeRaw;
                   encodeStructure TagKeyValue [encodeBytes TagKeyMaterial (vw_Key obj)];
                   encodeEnumeration TagCryptographicAlgorithm cryptographicAlgorithmAES;
                   encodeInteger TagCryptographicLength (int32 (len (vw_Key obj) * 8))]]])).

Definition handleRevoke (clientCertDER : bytes) (payload : TTLV) : M wireResponseItem :=
  let! id := lift (parseUniqueIdentifierPayload payload) in
  let! _ := Revoke clientCertDER id in
  ret (successItem OperationRevoke
         (encodeStructure TagResponsePayload [encodeText TagUniqueIdentifier id])).

Definition handleDestroy (clientCertDER : bytes) (payload : TTLV) : M wireResponseItem :=
  let! id := lift (parseUniqueIdentifierPayload payload) in
  let! _ := Destroy clientCertDER id in
  ret (successItem OperationDestroy
         (encodeStructure TagResponsePayload [encodeText TagUniqueIdentifier id])).

(** The error of a handler becomes an item of its own. *)
Definition answer (op : Z) (m : M wireResponseItem) : Server -> wireResponseItem * Server := fun s =>
  match m s with
  | (Ok item, s') => (item, s')
  | (Err e, s') => (errorItem op e, s')
  end.

Definition handle_item (env : ItemEnv) (clientCertDER : bytes) (item : RequestBatchItem)
  : Server -> wireResponseItem * Server :=
  let op := bi_Operation item in
  if op =? OperationCreate then answer op (handleCreate env clientCertDER (bi_Payload item))
  else if op =? OperationLocate then answer op (handleLocate env clientCertDER (bi_Payload item))
  else if op =? OperationGet then answer op (handleGet clientCertDER (bi_Payload item))
  else if op =? OperationRevoke then answer op (handleRevoke clientCertDER (bi_Payload item))
  else if op =? OperationDestroy then answer op (handleDestroy clientCertDER (bi_Payload item))
  else fun s => (failureItem op resultReasonUnsupported "KMIP operation is not served yet", s).

Fixpoint handle_items (env : nat -> ItemEnv) (clientCertDER : bytes) (items : list RequestBatchItem)
    (s : Server) : list wireResponseItem * Server :=
  match items with
  | [] => ([], s)
  | item :: items' =>
      let (resp, s1) := handle_item (env 0%nat) clientCertDER item s in
      let (resps, s2) := handle_items (fun k => env (S k)) clientCertDER items' s1 in
      (resp :: resps, s2)
  end.

Definition HandleFrame (env : nat -> ItemEnv) (now : Z) (clientCertDER frame : bytes) (s : Server)
  : bytes * Server :=
  match DecodeRequestMessage frame with
  | Err e =>
      (encodeResponse now 1 2 [failureItem 0 resultReasonInvalidMessage (TTLVError_Error e)], s)
  | Ok msg =>
      if (BatchCount msg =? 0) || (len (BatchItems msg) =? 0) then
        (encodeResponse now (ProtocolMajor msg) (ProtocolMinor msg)
           [failureItem 0 resultReasonInvalidMessage "empty KMIP batch"], s)
      else
        let (items, s') := handle_items env clientCertDER (BatchItems msg) s in
        (encodeResponse now (ProtocolMajor msg) (ProtocolMinor msg) items, s')
  end.

(** The loop over a connection whose peer has presented [clientCertDER]: [k] is
    the number of frames before the context is cancelled or a write fails, the
    result the responses written. *)
Fixpoint handleConn (k : nat) (env : nat -> nat -> ItemEnv) (now : nat -> Z) (clientCertDER conn : bytes)
    (s : Server) : list bytes * Server :=
  match k with
  | O => ([], s)
  | S k' =>
      match ReadFrame conn (Z.shiftl 1 20) with
      | (Err _, _) => ([], s)
      | (Ok frame, conn') =>
          let (resp, s1) := HandleFrame (env 0%nat) (now 0%nat) clientCertDER frame s in
          let (resps, s2) := handleConn k' (fun j => env (S j)) (fun j => now (S j)) clientCertDER conn' s1 in
          (resp :: resps, s2)
      end
  end.

End Server.

End Kmip.
