(* ===== verification/KmipSpec.v ===== *)
(** * The KMIP server: theorems

    The operations as steps of a transition system, with what they may do to the
    managed objects ([effect]); retired keys are never served again; the handler
    of a frame is a sequence of such steps, and its response is a frame of the
    grammar that answers every item of the request. *)

From stdpp Require Import pretty.
From S2P Require Import Prelude Ttlv TtlvSpec Kmip.

Module KmipSpec.
Import SE Ttlv TtlvSpec Kmip.

Open Scope Z_scope.

Lemma object_id_inj j k : object_id j = object_id k -> j = k.
Proof. unfold object_id. intros H. apply (inj (String.append _)) in H. by apply (inj pretty). Qed.

(** A change of one object keeps its identity, never reactivates it, and
    replaces the key only with a new version of an active object or by wiping
    it. *)
Definition object_step (o o' : ManagedObject) : Prop :=
  mo_ID o' = mo_ID o /\ mo_Algorithm o' = mo_Algorithm o /\
  (mo_State o' = StateActive -> mo_State o = StateActive) /\
  ((mo_State o = StateActive /\ mo_State o' = StateActive /\ mo_Version o' = mo_Version o + 1)
   \/ (mo_Version o' = mo_Version o /\ mo_key o' = mo_key o /\ mo_State o' = StateRevoked)
   \/ (mo_Version o' = mo_Version o /\ mo_key o' = [] /\ mo_State o' = StateDestroyed)).

(** What a step may do to the objects: nothing, add one under a fresh id, change
    one in place, or drop them all. *)
Inductive effect (s s' : Server) : Prop :=
| effect_same :
    sv_objects s' = sv_objects s -> sv_n s' = sv_n s -> effect s s'
| effect_new alg key :
    sv_objects s' = <[object_id (sv_n s + 1) :=
      mkManagedObject (object_id (sv_n s + 1)) alg StateActive 1 key]> (sv_objects s) ->
    sv_n s' = sv_n s + 1 -> effect s s'
| effect_update id o o' :
    sv_objects s !! id = Some o -> object_step o o' ->
    sv_objects s' = <[id := o']> (sv_objects s) -> sv_n s' = sv_n s -> effect s s'
| effect_clear :
    sv_objects s' = ∅ -> sv_n s' = sv_n s -> effect s s'.

Section Spec.
Context {auth : Authenticator}.
Variable Quote : string -> string.

(** One atomic operation of some client. *)
Inductive step (s : Server) : Server -> Prop :=
| step_create random cert alg : step s (Create Quote random cert alg s).2
| step_register cert alg key : step s (Register Quote cert alg key s).2
| step_get cert id : step s (GetObject Quote cert id s).2
| step_locate range cert alg : step s (Locate Quote range cert alg s).2
| step_rekey random cert id : step s (ReKey Quote random cert id s).2
| step_revoke cert id : step s (Revoke Quote cert id s).2
| step_destroy cert id : step s (Destroy Quote cert id s).2
| step_decode cert frame : step s (DecodeTTLVRequest Quote cert frame s).2
| step_close : step s (Close s).

Definition steps : Server -> Server -> Prop := rtc step.

(** Authentication either succeeds and changes nothing or refuses and leaves an
    audit record. *)
Lemma bind_authClient {A} op cert (k : string -> M A) s :
  bind (authClient Quote op cert) k s =
  match Authenticate cert with
  | Some id => k id s
  | None => (Err NotAuthenticated, (authClient Quote op cert s).2)
  end.
Proof. unfold authClient, bind. by destruct (Authenticate cert). Qed.

Lemma authClient_objects op cert s :
  sv_objects (authClient Quote op cert s).2 = sv_objects s /\ sv_n (authClient Quote op cert s).2 = sv_n s.
Proof. unfold authClient. by destruct (Authenticate cert). Qed.

Ltac unauthenticated :=
  rewrite bind_authClient; destruct (Authenticate _);
  [|by apply effect_same; apply authClient_objects].

Lemma step_effect s s' : step s s' -> effect s s'.
Proof.
  intros [random cert alg|cert alg key|cert id|range cert alg|random cert id|cert id|cert id|cert frame|].
  - unfold Create. unauthenticated.
    destruct random as [key|text]; [by eapply effect_new|by apply effect_same].
  - unfold Register. unauthenticated. by eapply effect_new.
  - unfold GetObject. unauthenticated.
    repeat case_match; by apply effect_same.
  - unfold Locate. unauthenticated. by apply effect_same.
  - unfold ReKey. unauthenticated. destruct random as [key|text]; [|by apply effect_same].
    destruct (sv_objects s !! id) as [o|] eqn:Ho; [|by apply effect_same].
    destruct (decide (mo_State o = StateActive)) as [Hact|]; [|by apply effect_same].
    eapply effect_update; [exact Ho| |done..]. unfold object_step. naive_solver.
  - unfold Revoke, transition. unauthenticated.
    destruct (sv_objects s !! id) as [o|] eqn:Ho; [|by apply effect_same].
    eapply effect_update; [exact Ho| |done..]. unfold object_step. naive_solver.
  - unfold Destroy. unauthenticated.
    destruct (sv_objects s !! id) as [o|] eqn:Ho; [|by apply effect_same].
    eapply effect_update; [exact Ho| |done..]. unfold object_step. naive_solver.
  - unfold DecodeTTLVRequest. pose proof (authClient_objects "decode_ttlv" cert s) as [??].
    destruct (authClient Quote "decode_ttlv" cert s) as [[?|?] ?]; by apply effect_same.
  - by apply effect_clear.
Qed.

(** ** Invariants *)

Definition issued (s : Server) (id : string) : Prop := exists k, 1 <= k <= sv_n s /\ id = object_id k.

(** Objects are filed under their own id, which was issued; a destroyed object
    holds no key; versions count from one. *)
Definition server_inv (s : Server) : Prop :=
  0 <= sv_n s /\
  forall id o, sv_objects s !! id = Some o ->
    issued s id /\ mo_ID o = id /\ 1 <= mo_Version o /\ (mo_State o = StateDestroyed -> mo_key o = []).

Lemma issued_step s s' id : effect s s' -> issued s id -> issued s' id.
Proof.
  intros He (k & Hk & ->). exists k. split; [|done]. destruct He; lia.
Qed.

Lemma server_inv_step s s' : effect s s' -> server_inv s -> server_inv s'.
Proof.
  intros He [Hn Hobj]. pose proof (fun id => issued_step s s' id He) as Hiss.
  destruct He as [Ho Hn'|alg key Ho Hn'|id o o' Hid (HID & _ & _ & Hst) Ho Hn'|Ho Hn'];
    (split; [lia|]); intros jd q; rewrite Ho.
  - intros Hq. apply Hobj in Hq as (? & ? & ? & ?). eauto.
  - rewrite lookup_insert_Some. intros [[<- <-]|[Hne Hq]].
    + simpl. split_and!; [exists (sv_n s + 1); split; [lia|done]|done|lia|done].
    + apply Hobj in Hq as (? & ? & ? & ?). eauto.
  - rewrite lookup_insert_Some. intros [[<- <-]|[Hne Hq]].
    + apply Hobj in Hid as (? & <- & ? & ?). split_and!; [eauto|done|lia|].
      intros Hd. destruct Hst as [(_ & Ha & _)|[(_ & _ & Hr)|(_ & Hk & _)]]; [congruence..|done].
    + apply Hobj in Hq as (? & ? & ? & ?). eauto.
  - by rewrite lookup_empty.
Qed.

(** A property of an object that the changes of [object_step] keep holds as long
    as the server lives: ids are not issued twice. *)
Definition covered (s : Server) (id : string) (Q : ManagedObject -> Prop) : Prop :=
  issued s id /\ forall o, sv_objects s !! id = Some o -> Q o.

Lemma covered_step Q s s' id :
  (forall o o', object_step o o' -> Q o -> Q o') ->
  effect s s' -> covered s id Q -> covered s' id Q.
Proof.
  intros HQ He [Hiss Hcov]. split; [by eapply issued_step|]. intros q.
  destruct He as [Ho Hn'|alg key Ho Hn'|jd o o' Hid Hst Ho Hn'|Ho Hn']; rewrite Ho.
  - apply Hcov.
  - destruct Hiss as (k & Hk & ->). rewrite lookup_insert_ne by (intros H%object_id_inj; lia). apply Hcov.
  - rewrite lookup_insert_Some. intros [[<- <-]|[Hne Hq]]; [eauto|by apply Hcov].
  - by rewrite lookup_empty.
Qed.

Lemma covered_steps Q s s' id :
  (forall o o', object_step o o' -> Q o -> Q o') ->
  steps s s' -> covered s id Q -> covered s' id Q.
Proof.
  intros HQ Hs. induction Hs as [|s1 s2 s3 H1 _ IH]; [done|]. intros Hc. apply IH.
  eapply covered_step; [done|by apply step_effect|done].
Qed.

Lemma server_inv_steps s s' : steps s s' -> server_inv s -> server_inv s'.
Proof.
  induction 1 as [|s1 s2 s3 H1 _ IH]; [done|]. intros Hi. apply IH.
  eapply server_inv_step; [by apply step_effect|done].
Qed.

Lemma server_inv_New tenant : server_inv (New tenant).
Proof. split; [done|]. intros id o. simpl. by rewrite lookup_empty. Qed.

(** ** Retired keys *)

Definition retired (o : ManagedObject) : Prop := mo_State o <> StateActive.
Definition wiped (o : ManagedObject) : Prop := mo_State o <> StateActive /\ mo_key o = [].
(** What an object that was seen at version [v] with key [k] may look like. *)
Definition at_version (alg : string) (v : Z) (k : bytes) (o : ManagedObject) : Prop :=
  mo_Algorithm o = alg /\ v <= mo_Version o /\
  (mo_State o = StateActive -> mo_Version o = v -> mo_key o = k).

Lemma retired_stable o o' : object_step o o' -> retired o -> retired o'.
Proof. unfold object_step, retired. naive_solver. Qed.

Lemma wiped_stable o o' : object_step o o' -> wiped o -> wiped o'.
Proof.
  intros (_ & _ & Ha & Hc) [Hs Hk]. split; [auto|].
  destruct Hc as [(? & _)|[(_ & -> & _)|(_ & -> & _)]]; done.
Qed.

Lemma at_version_stable alg v k o o' :
  object_step o o' -> at_version alg v k o -> at_version alg v k o'.
Proof.
  intros (_ & Halg & Hst & Hc) (Ha & Hv & Hk). split; [congruence|].
  destruct Hc as [(_ & _ & Hv')|[(Hv' & _ & Hr)|(Hv' & _ & Hd)]]; split; try lia;
    intros; try lia; congruence.
Qed.

Lemma retired_refused s id cert random :
  covered s id retired ->
  is_ok (GetObject Quote cert id s).1 = false /\ is_ok (ReKey Quote random cert id s).1 = false.
Proof.
  intros [_ Hr]. unfold GetObject, ReKey. rewrite !bind_authClient.
  destruct (Authenticate cert); [|done]. destruct random as [key|text];
  (destruct (sv_objects s !! id) as [o|] eqn:Ho; [|done]);
  (destruct (decide (mo_State o = StateActive)) as [Ha|]; [by destruct (Hr o)|done]).
Qed.

Lemma retired_not_located s id range cert alg ids s' :
  (forall m, range m ≡ₚ map_to_list m) -> covered s id retired ->
  Locate Quote range cert alg s = (Ok ids, s') -> id ∉ ids.
Proof.
  intros Hrange [_ Hr]. unfold Locate. rewrite bind_authClient.
  destruct (Authenticate cert); [|done]. intros [= <- <-].
  intros ([jd o] & <- & Hin)%list_elem_of_In%in_map_iff. simpl in Hr.
  apply filter_In in Hin as [Hin Hw]. simpl in Hw.
  apply list_elem_of_In in Hin. rewrite Hrange, elem_of_map_to_list in Hin.
  apply Hr in Hin. apply andb_true_iff in Hw as [Hw _]. by apply bool_decide_eq_true in Hw.
Qed.

Lemma GetObject_covered s s' cert id v :
  server_inv s -> GetObject Quote cert id s = (Ok v, s') ->
  s' = s /\ vw_ID v = id /\ covered s id (at_version (vw_Algorithm v) (vw_Version v) (vw_Key v)).
Proof.
  intros [_ Hobj]. unfold GetObject. rewrite bind_authClient.
  destruct (Authenticate cert); [|done].
  destruct (sv_objects s !! id) as [o|] eqn:Ho; [|done].
  destruct (decide (mo_State o = StateActive)); [|done]. intros [= <- <-]. simpl.
  apply Hobj in Ho as Hi. destruct Hi as (Hiss & HID & _). split_and!; [done|done|].
  split; [done|]. intros q Hq. rewrite Ho in Hq. injection Hq as <-. by split_and!.
Qed.

Lemma Revoke_covered s cert id :
  server_inv s -> (Revoke Quote cert id s).1 = Ok () -> covered (Revoke Quote cert id s).2 id retired.
Proof.
  intros [_ Hobj]. unfold Revoke, transition. rewrite bind_authClient.
  destruct (Authenticate cert); [|done].
  destruct (sv_objects s !! id) as [o|] eqn:Ho; [|done]. intros _.
  apply Hobj in Ho as [Hiss _]. split; [done|]. simpl. intros q.
  rewrite lookup_insert. rewrite decide_True by done. intros [= <-]. done.
Qed.

Lemma Destroy_covered s cert id :
  server_inv s -> (Destroy Quote cert id s).1 = Ok () -> covered (Destroy Quote cert id s).2 id wiped.
Proof.
  intros [_ Hobj]. unfold Destroy. rewrite bind_authClient.
  destruct (Authenticate cert); [|done].
  destruct (sv_objects s !! id) as [o|] eqn:Ho; [|done]. intros _.
  apply Hobj in Ho as [Hiss _]. split; [done|]. simpl. intros q.
  rewrite lookup_insert. rewrite decide_True by done. intros [= <-]. done.
Qed.

(** A retired key is never served again, and a served key is the one that was
    stored.  In every state [s] that the server reaches by operations of any
    clients: once a revocation or a destruction of [id] has succeeded, then
    whatever operations follow, getting and rekeying [id] fail for every client and
    no Locate lists it, and after a destruction the server holds no byte of its
    key.  And when a client has been served a key of some version, a client that
    is served [id] after any further operations sees the same algorithm, a version
    at least as new, and, for the same version, the same key. *)
Theorem retired_keys_stay_retired tenant s :
  steps (New tenant) s ->
  (forall id cert s',
     (is_ok (Revoke Quote cert id s).1 = true /\ steps (Revoke Quote cert id s).2 s' \/
      is_ok (Destroy Quote cert id s).1 = true /\ steps (Destroy Quote cert id s).2 s') ->
     (forall cert' random,
        is_ok (GetObject Quote cert' id s').1 = false /\ is_ok (ReKey Quote random cert' id s').1 = false) /\
     (forall range cert' alg ids s'', (forall m, range m ≡ₚ map_to_list m) ->
        Locate Quote range cert' alg s' = (Ok ids, s'') -> id ∉ ids)) /\
  (forall id cert s',
     is_ok (Destroy Quote cert id s).1 = true -> steps (Destroy Quote cert id s).2 s' ->
     forall o, sv_objects s' !! id = Some o -> mo_key o = []) /\
  (forall id cert cert' v v' s' s'',
     GetObject Quote cert id s = (Ok v, s) -> steps s s' ->
     GetObject Quote cert' id s' = (Ok v', s'') ->
     vw_ID v' = id /\ vw_Algorithm v' = vw_Algorithm v /\ vw_Version v <= vw_Version v' /\
     (vw_Version v' = vw_Version v -> vw_Key v' = vw_Key v)).
Proof.
  intros Hreach. assert (Hinv : server_inv s) by (eapply server_inv_steps; [done|apply server_inv_New]).
  split_and!.
  - intros id cert s' Hret. assert (Hr : covered s' id retired).
    { destruct Hret as [[Hok Hs]|[Hok Hs]].
      - destruct (Revoke Quote cert id s).1 as [[]|] eqn:HR; [|done].
        eapply covered_steps; [apply retired_stable|done|by apply Revoke_covered].
      - destruct (Destroy Quote cert id s).1 as [[]|] eqn:HR; [|done].
        eapply covered_steps; [apply retired_stable|done|].
        destruct (Destroy_covered s cert id Hinv HR) as [Hi Hw]. split; [done|]. by intros o [? _]%Hw. }
    split; [intros; by apply retired_refused|]. intros. by eapply retired_not_located.
  - intros id cert s' Hok Hs. destruct (Destroy Quote cert id s).1 as [[]|] eqn:HR; [|done].
    apply Destroy_covered in HR; [|done].
    eapply covered_steps in HR as [_ Hw]; [|apply wiped_stable|done]. by intros o [_ ?]%Hw.
  - intros id cert cert' v v' s' s'' Hg Hs Hg'.
    apply GetObject_covered in Hg as (_ & _ & Hc); [|done].
    assert (Hinv' : server_inv s') by (by eapply server_inv_steps).
    eapply covered_steps in Hc as [_ Hc]; [|apply at_version_stable|done].
    destruct Hinv' as [_ Hobj]. revert Hg'. unfold GetObject. rewrite bind_authClient.
    destruct (Authenticate cert'); [|done].
    destruct (sv_objects s' !! id) as [o|] eqn:Ho; [|done].
    destruct (decide (mo_State o = StateActive)); [|done]. intros [= <- <-]. simpl.
    destruct (Hc o eq_refl) as (? & ? & ?). destruct (Hobj id o Ho) as (_ & ? & _). auto.
Qed.

(** ** Encoded trees

    [enc t b]: the bytes [b], when their length fits the length field, are the
    frame of [t].  The trees mirror the encoders of the code. *)
Definition enc (t : TTLV) (b : bytes) : Prop := len b < 2 ^ 32 -> Frame t b.

Definition is_tag (tag : Z) : Prop := 0 <= tag < 2 ^ 24.

Definition tEnum (tag v : Z) : TTLV := mkTTLV tag TTLVEnumeration 4 (PutUint32 (uint32 v)) [].
Definition tInt (tag v : Z) : TTLV := mkTTLV tag TTLVInteger 4 (PutUint32 (uint32 v)) [].
Definition tDate (tag v : Z) : TTLV := mkTTLV tag TTLVDateTime 8 (PutUint64 (v mod 2 ^ 64)) [].
Definition tText (tag : Z) (v : string) : TTLV :=
  mkTTLV tag TTLVTextString (len (list_ascii_of_string v)) (list_ascii_of_string v) [].
Definition tBytes (tag : Z) (v : bytes) : TTLV := mkTTLV tag TTLVByteString (len v) v [].
Definition tStruct (tag : Z) (ts : list TTLV) (bs : list bytes) : TTLV :=
  mkTTLV tag TTLVStructure (len (mjoin bs)) [] ts.

Lemma len_replicate {A} n (x : A) : len (replicate n x) = Z.of_nat n.
Proof. unfold len. by rewrite length_replicate. Qed.

Lemma len_encodeItem tag typ v : len (encodeItem tag typ v) = 8 + len v + ttlvPadding (len v).
Proof.
  unfold encodeItem. rewrite !len_app, len_replicate.
  destruct (ttlvPadding_spec (len v)) as [Hp _]; [apply len_nonneg|].
  change (len (PutUint32 _)) with 4. change (len [_; _; _; _]) with 4. lia.
Qed.

Lemma enc_primitive tag typ v :
  is_tag tag -> primitive_length typ (len v) = true ->
  enc (mkTTLV tag typ (len v) v []) (encodeItem tag typ v).
Proof.
  intros Htag Hp Hlen. rewrite len_encodeItem in Hlen.
  destruct (ttlvPadding_spec (len v)) as [Hr _]; [apply len_nonneg|].
  apply encodePrimitive_Frame; [done|lia|done].
Qed.

Lemma enc_enum tag v : is_tag tag -> enc (tEnum tag v) (encodeEnumeration tag v).
Proof. intros Ht. by apply (enc_primitive tag TTLVEnumeration (PutUint32 (uint32 v))). Qed.

Lemma enc_int tag v : is_tag tag -> enc (tInt tag v) (encodeInteger tag v).
Proof. intros Ht. by apply (enc_primitive tag TTLVInteger (PutUint32 (uint32 v))). Qed.

Lemma enc_date tag v : is_tag tag -> enc (tDate tag v) (encodeDateTime tag v).
Proof. intros Ht. by apply (enc_primitive tag TTLVDateTime (PutUint64 (v mod 2 ^ 64))). Qed.

Lemma enc_text tag v : is_tag tag -> enc (tText tag v) (encodeText tag v).
Proof. intros Ht. by apply (enc_primitive tag TTLVTextString (list_ascii_of_string v)). Qed.

Lemma enc_bytes tag v : is_tag tag -> enc (tBytes tag v) (encodeBytes tag v).
Proof. intros Ht. by apply (enc_primitive tag TTLVByteString v). Qed.

Lemma enc_list ts bs : Forall2 enc ts bs -> len (mjoin bs) < 2 ^ 32 -> Frames ts (mjoin bs).
Proof.
  induction 1 as [|t b ts bs Ht _ IH]; simpl; [constructor|]. rewrite len_app. intros Hlen.
  pose proof (len_nonneg b). pose proof (len_nonneg (mjoin bs)).
  constructor; [apply Ht; lia|apply IH; lia].
Qed.

Lemma enc_struct tag ts bs :
  is_tag tag -> Forall2 enc ts bs -> enc (tStruct tag ts bs) (encodeStructure tag bs).
Proof.
  intros Htag HF Hlen. unfold encodeStructure in Hlen. rewrite len_encodeItem in Hlen.
  destruct (ttlvPadding_spec (len (mjoin bs))) as [Hr _]; [apply len_nonneg|].
  apply encodeStructure_Frame; [done|lia|]. apply enc_list; [done|lia].
Qed.

Lemma heights_le ts h : 0 <= h -> Forall (fun t => height t <= h) ts -> heights ts <= h.
Proof. intros Hh. induction 1; [done|]. rewrite heights_cons. lia. Qed.

Lemma height_struct tag ts bs h :
  0 <= h -> Forall (fun t => height t <= h) ts -> height (tStruct tag ts bs) <= 1 + h.
Proof. intros Hh HF. unfold tStruct. rewrite height_eq. pose proof (heights_le ts h Hh HF). lia. Qed.

Definition in_int32 (v : Z) : Prop := - 2 ^ 31 <= v < 2 ^ 31.

Lemma value_of_enum v : in_int32 v -> int32 (Uint32 (PutUint32 (uint32 v))) = v.
Proof.
  intros Hv. rewrite Uint32_PutUint32. unfold uint32 at 1. rewrite Z.mod_mod by lia.
  by apply int32_uint32.
Qed.

Lemma enumChild_range t tag v : enumChild t tag = Ok v -> in_int32 v.
Proof.
  unfold enumChild. destruct (FirstChild t tag) as [c|]; [|done].
  destruct (negb _ || negb _); [done|]. intros [= <-]. unfold int32, in_int32.
  pose proof (Z.mod_pos_bound (Uint32 (Value c)) (2 ^ 32) ltac:(lia)).
  destruct (Z.ltb_spec (Uint32 (Value c) mod 2 ^ 32) (2 ^ 31)); lia.
Qed.

End Spec.

(** A server that holds one key, created by a client with a certificate. *)
Definition one_client : Authenticator := VerifiedClientCertAuthenticator (fun _ => "00"%string).
Definition one_key : Server :=
  (@Create one_client id (Ok (list_ascii_of_string "k")) ["c"%char] "AES" (New "t")).2.

(** The key is served before its destruction and wiped after it. *)
Lemma retired_keys_stay_retired_witness :
  is_ok (@GetObject one_client id ["c"%char] "kmip-1" one_key).1 = true /\
  is_ok (@GetObject one_client id ["c"%char] "kmip-1" (@Destroy one_client id ["c"%char] "kmip-1" one_key).2).1 = false /\
  (forall o, sv_objects (@Destroy one_client id ["c"%char] "kmip-1" one_key).2 !! "kmip-1" = Some o -> mo_key o = []).
Proof.
  destruct (@retired_keys_stay_retired one_client id "t" one_key) as (H1 & H2 & _).
  - apply rtc_once, step_create.
  - split; [vm_compute; reflexivity|]. split.
    + apply (H1 "kmip-1" ["c"%char]) with (random := Err ""%string). right.
      split; [vm_compute; reflexivity|apply rtc_refl].
    + apply (H2 "kmip-1" ["c"%char]); [vm_compute; reflexivity|apply rtc_refl].
Defined.

End KmipSpec.
