(* ===== verification/KmipWire.v ===== *)
(** * The KMIP server on the wire

    Theorems about the handlers of [Kmip]: each of them is a sequence of the
    operations of [KmipSpec], succeeds only for an authenticated client, and fails
    with a reason code that its error determines; the response of a frame parses
    and answers the items of the request one by one, in order. *)

From S2P Require Import Prelude Ttlv TtlvSpec Kmip KmipSpec.

Module KmipWire.
Import SE Ttlv TtlvSpec Kmip KmipSpec.

Open Scope Z_scope.

(** ** Error texts *)

Lemma Contains_app_r a b sub : Contains b sub = true -> Contains (a ++ b) sub = true.
Proof.
  intros H. induction a as [|c a IH]; [done|]. simpl. rewrite IH. apply orb_true_r.
Qed.

Section Wire.
Context {auth : Authenticator}.
Variable Quote : string -> string.
Variable ToLowerUnicode : string -> string.

Definition reason_of (e : KError) : Z := wi_reason (errorItem Quote 0 e).

Lemma errorItem_eq op e :
  errorItem Quote op e = mkItem op resultStatusOperationFailed (reason_of e) (KError_Error Quote e) [].
Proof. destruct e; unfold reason_of; simpl errorItem; repeat case_match; done. Qed.

(** The reason code of each error. *)
Lemma reason_of_not_available id : reason_of (ObjectNotAvailable id) = resultReasonItemNotFound.
Proof.
  unfold reason_of, errorItem, KError_Error.
  rewrite (Contains_app_r "kmip: object "); [done|]. by apply Contains_app_r.
Qed.

Lemma reason_of_not_found id : reason_of (ObjectNotFound id) = resultReasonItemNotFound.
Proof.
  unfold reason_of, errorItem, KError_Error.
  rewrite (Contains_app_r "kmip: object " _ "not found"); [by rewrite !orb_true_r|].
  by apply Contains_app_r.
Qed.

Lemma reason_of_unauthenticated : reason_of NotAuthenticated = resultReasonAuthFailed.
Proof. done. Qed.

(** The payload parsers reject with these two reasons only. *)
Definition parse_error (e : KError) : Prop :=
  exists reason text, e = WireError reason text /\
    (reason = resultReasonInvalidMessage \/ reason = resultReasonInvalidField).

Ltac parse_error := eexists _, _; split; [reflexivity|auto].

Lemma parseCreatePayload_error p e : parseCreatePayload ToLowerUnicode p = Err e -> parse_error e.
Proof.
  unfold parseCreatePayload. repeat case_match; intros [= <-]; parse_error.
Qed.

Lemma locate_attributes_error l e : locate_attributes ToLowerUnicode l = Err e -> parse_error e.
Proof.
  induction l as [|a l IH]; simpl; [done|].
  repeat case_match; eauto; intros [= <-]; parse_error.
Qed.

Lemma parseLocateAlgorithm_error p e : parseLocateAlgorithm ToLowerUnicode p = Err e -> parse_error e.
Proof.
  unfold parseLocateAlgorithm. repeat case_match; eauto using locate_attributes_error;
    intros [= <-]; parse_error.
Qed.

Lemma parseUniqueIdentifierPayload_error p e : parseUniqueIdentifierPayload p = Err e -> parse_error e.
Proof.
  unfold parseUniqueIdentifierPayload. repeat case_match; intros [= <-]; parse_error.
Qed.

(** ** Handlers *)

Definition served (op : Z) : Prop :=
  op ∈ [OperationCreate; OperationLocate; OperationGet; OperationRevoke; OperationDestroy].

Lemma served_nonzero op : served op -> op <> 0.
Proof. unfold served. intros H ->. apply (bool_decide_pack _) in H. by vm_compute in H. Qed.

(** A payload of a successful item. *)
Definition payload_ok (b : bytes) : Prop :=
  0 < len b /\ exists p, enc p b /\ Tag p = TagResponsePayload /\ height p <= 5.

(** Failures of a handler: an unauthenticated client is told so unless its
    payload was already rejected. *)
Definition not_wire (e : KError) : Prop :=
  match e with WireError _ _ => False | _ => True end.

Definition error_ok (cert : bytes) (e : KError) : Prop :=
  (not_wire e \/ parse_error e) /\
  (Authenticate cert = None -> e = NotAuthenticated \/ parse_error e).

Lemma parse_error_ok cert e : parse_error e -> error_ok cert e.
Proof. intros H. split; auto. Qed.

Definition handler_ok (cert : bytes) (op : Z) (m : M wireResponseItem) : Prop :=
  forall s, steps Quote s (m s).2 /\
    match (m s).1 with
    | Ok item => Authenticate cert <> None /\ exists b, item = successItem op b /\ payload_ok b
    | Err e => error_ok cert e
    end.

Lemma payload_ok_struct ts bs :
  Forall2 enc ts bs -> Forall (fun t => height t <= 4) ts ->
  payload_ok (encodeStructure TagResponsePayload bs).
Proof.
  intros HF Hh. split.
  - unfold encodeStructure. rewrite len_encodeItem.
    destruct (ttlvPadding_spec (len (mjoin bs))) as [Hp _]; [apply len_nonneg|].
    pose proof (len_nonneg (mjoin bs)). lia.
  - exists (tStruct TagResponsePayload ts bs). split_and!.
    + apply enc_struct; [done|done].
    + done.
    + by apply (height_struct _ _ _ 4).
Qed.

(** A handler parses its payload, then calls one operation, then encodes. *)
Lemma handler_bind {A B} cert op (r : result KError A) (m : A -> M B) (k : A -> B -> wireResponseItem) :
  (forall e, r = Err e -> parse_error e) ->
  (forall a s, step Quote s (m a s).2) ->
  (forall a s e, (m a s).1 = Err e -> error_ok cert e) ->
  (forall a s b, (m a s).1 = Ok b -> Authenticate cert <> None /\
     exists p, k a b = successItem op p /\ payload_ok p) ->
  handler_ok cert op (bind (lift r) (fun a => bind (m a) (fun b => ret (k a b)))).
Proof.
  intros Hr Hstep Herr Hok s. unfold bind, lift.
  destruct r as [a|e]; [|split; [apply rtc_refl|]; by apply parse_error_ok, Hr].
  specialize (Hstep a s). specialize (Herr a s). specialize (Hok a s).
  destruct (m a s) as [[b|e] s']; simpl in *.
  - split; [by apply rtc_once|]. by apply Hok.
  - split; [by apply rtc_once|]. by apply Herr.
Qed.

(** Past the authentication the error is one of the operation. *)
Lemma bind_auth_error {A} op cert (k : string -> M A) s e :
  (forall id e, (k id s).1 = Err e -> not_wire e) ->
  (bind (authClient Quote op cert) k s).1 = Err e -> error_ok cert e.
Proof.
  rewrite bind_authClient. unfold error_ok. intros Hk H.
  destruct (Authenticate cert) as [id|]; [split; [by eauto|done]|].
  injection H as <-. split; [by left|auto].
Qed.

Lemma bind_auth_ok {A} op cert (k : string -> M A) s a :
  (bind (authClient Quote op cert) k s).1 = Ok a -> Authenticate cert <> None.
Proof. rewrite bind_authClient. by destruct (Authenticate cert). Qed.

Ltac encoded :=
  lazymatch goal with
  | |- Forall2 enc _ [] => apply Forall2_nil_2
  | |- Forall2 enc _ (_ :: _) => eapply Forall2_cons_2; [encoded|encoded]
  | |- enc _ (encodeEnumeration _ _) => apply enc_enum; done
  | |- enc _ (encodeInteger _ _) => apply enc_int; done
  | |- enc _ (encodeText _ _) => apply enc_text; done
  | |- enc _ (encodeBytes _ _) => apply enc_bytes; done
  | |- enc _ (encodeDateTime _ _) => apply enc_date; done
  | |- enc _ (encodeStructure _ _) => eapply enc_struct; [done|encoded]
  end.

Ltac heights :=
  repeat apply List.Forall_cons; try apply List.Forall_nil;
  cbn [height foldr tStruct tEnum tInt tText tBytes]; lia.

Ltac payload := eexists; split; [reflexivity|]; eapply payload_ok_struct; [encoded|heights].

(** The errors of an operation, by its branches. *)
Ltac op_errors :=
  intros ? ?; unfold fail, register, Emit, bind, ret; simpl; repeat case_match; by intros [= <-].

Lemma handleCreate_ok env cert p : handler_ok cert OperationCreate (handleCreate Quote ToLowerUnicode env cert p).
Proof.
  intros s. unfold handleCreate, lift, bind.
  destruct (parseCreatePayload ToLowerUnicode p) as [spec|e] eqn:Hp;
    [|split; [apply rtc_refl|]; apply parse_error_ok; by eapply parseCreatePayload_error].
  destruct (negb (objectType spec =? _)); [split; [apply rtc_refl|]; apply parse_error_ok; parse_error|].
  destruct (negb _ || negb _); [split; [apply rtc_refl|]; apply parse_error_ok; parse_error|].
  pose proof (step_create Quote s (ie_random env) cert "AES") as Hstep.
  destruct (Create Quote (ie_random env) cert "AES" s) as [[id|e] s'] eqn:Hc; simpl in *;
    (split; [by apply rtc_once|]); apply (f_equal fst) in Hc; simpl in Hc.
  - split; [by eapply bind_auth_ok|]. payload.
  - eapply bind_auth_error; [|exact Hc]. op_errors.
Qed.

Lemma handleLocate_ok env cert p : handler_ok cert OperationLocate (handleLocate Quote ToLowerUnicode env cert p).
Proof.
  unfold handleLocate. apply handler_bind.
  - apply parseLocateAlgorithm_error.
  - intros a s. apply step_locate.
  - intros a s e. apply bind_auth_error. op_errors.
  - intros a s ids H. split; [by eapply bind_auth_ok|]. eexists. split; [reflexivity|].
    apply (payload_ok_struct (map (tText TagUniqueIdentifier) ids)).
    + clear H. induction ids as [|i ids IH]; constructor; [by apply enc_text|done].
    + apply Forall_forall. intros t (i & -> & _)%list_elem_of_fmap. done.
Qed.

Lemma handleGet_ok cert p : handler_ok cert OperationGet (handleGet Quote cert p).
Proof.
  unfold handleGet. apply handler_bind.
  - apply parseUniqueIdentifierPayload_error.
  - intros a s. apply step_get.
  - intros a s e. apply bind_auth_error. op_errors.
  - intros a s v H. split; [by eapply bind_auth_ok|]. payload.
Qed.

Lemma handleRevoke_ok cert p : handler_ok cert OperationRevoke (handleRevoke Quote cert p).
Proof.
  unfold handleRevoke. apply handler_bind.
  - apply parseUniqueIdentifierPayload_error.
  - intros a s. apply step_revoke.
  - intros a s e. apply bind_auth_error. op_errors.
  - intros a s v H. split; [by eapply bind_auth_ok|]. payload.
Qed.

Lemma handleDestroy_ok cert p : handler_ok cert OperationDestroy (handleDestroy Quote cert p).
Proof.
  unfold handleDestroy. apply handler_bind.
  - apply parseUniqueIdentifierPayload_error.
  - intros a s. apply step_destroy.
  - intros a s e. apply bind_auth_error. op_errors.
  - intros a s v H. split; [by eapply bind_auth_ok|]. payload.
Qed.

(** ** Response items *)

Definition failed_tree (op reason : Z) (message : string) (t : TTLV) : Prop :=
  Tag t = TagBatchItem /\ height t <= 6 /\
  (op <> 0 -> enumChild t TagOperation = Ok op) /\
  enumChild t TagResultStatus = Ok resultStatusOperationFailed /\
  enumChild t TagResultReason = Ok reason /\
  FirstChild t TagResultMessage = Some (tText TagResultMessage message) /\
  FirstChild t TagResponsePayload = None.

Definition success_tree (op : Z) (t : TTLV) : Prop :=
  Tag t = TagBatchItem /\ height t <= 6 /\
  enumChild t TagOperation = Ok op /\
  enumChild t TagResultStatus = Ok resultStatusSuccess /\
  exists p, FirstChild t TagResponsePayload = Some p.

Lemma enumChild_head tag v rest n tag' len' :
  in_int32 v -> enumChild (mkTTLV tag' n len' [] (tEnum tag v :: rest)) tag = Ok v.
Proof.
  intros Hv. unfold enumChild, FirstChild. cbn [Children List.find tEnum Tag].
  rewrite Z.eqb_refl. cbn [Type_ Value tEnum]. rewrite value_of_enum by done. done.
Qed.

Lemma enumChild_skip tag c rest n tag' len' :
  Tag c <> tag ->
  enumChild (mkTTLV tag' n len' [] (c :: rest)) tag = enumChild (mkTTLV tag' n len' [] rest) tag.
Proof.
  intros Hne. unfold enumChild, FirstChild. cbn [Children List.find].
  by rewrite (proj2 (Z.eqb_neq _ _)).
Qed.

Ltac enum_child := unfold tStruct;
  repeat (rewrite enumChild_skip by (cbn; done)); by rewrite enumChild_head.

Lemma failure_encoded op reason message :
  in_int32 op -> in_int32 reason ->
  exists t, enc t (encodeResponseBatchItem (failureItem op reason message)) /\
    failed_tree op reason message t.
Proof.
  intros Hop Hr.
  unfold encodeResponseBatchItem, failureItem. cbn [wi_status wi_reason wi_message wi_operation wi_payload].
  change (resultStatusOperationFailed =? 0) with false. cbn [andb].
  change (negb (resultStatusOperationFailed =? resultStatusSuccess)) with true. cbn iota.
  change (0 <? len (@nil ascii)) with false. cbn iota. rewrite app_nil_r.
  destruct (Z.eqb_spec op 0) as [->|Hne]; cbn [negb app]; eexists; (split; [encoded|]);
    (split_and!; [done|cbn [height foldr tStruct tEnum tInt tText tBytes]; lia|..]);
    try done; intros; enum_child.
Qed.

Lemma success_encoded op b :
  in_int32 op -> op <> 0 -> payload_ok b ->
  exists t, enc t (encodeResponseBatchItem (successItem op b)) /\ success_tree op t.
Proof.
  intros Hop Hne (Hlen & p & Hp & Htag & Hh).
  unfold encodeResponseBatchItem, successItem. cbn [wi_status wi_reason wi_message wi_operation wi_payload].
  change ((0 =? 0) && (0 =? 0) && String.eqb "" "") with true. cbn iota.
  rewrite (proj2 (Z.eqb_neq op 0)), (proj2 (Z.ltb_lt _ _)) by done. cbn [negb app].
  change (negb (resultStatusSuccess =? resultStatusSuccess)) with false. cbn [app].
  exists (tStruct TagBatchItem [tEnum TagOperation op; tEnum TagResultStatus resultStatusSuccess; p]
    [encodeEnumeration TagOperation op; encodeEnumeration TagResultStatus resultStatusSuccess; b]).
  split.
  { apply enc_struct; [done|]. repeat apply Forall2_cons_2; try by apply enc_enum. done. apply Forall2_nil_2. }
  split_and!; [done|cbn [height foldr tStruct tEnum]; lia|enum_child|enum_child|].
  exists p. unfold FirstChild. cbn [Children tStruct List.find Tag tEnum].
  rewrite Htag. done.
Qed.

(** How one item of a request has been answered. *)
Definition item_answer (cert : bytes) (op : Z) (t : TTLV) : Prop :=
  (op <> 0 -> enumChild t TagOperation = Ok op) /\
  ((enumChild t TagResultStatus = Ok resultStatusSuccess /\ served op /\
    Authenticate cert <> None /\ exists p, FirstChild t TagResponsePayload = Some p) \/
   (enumChild t TagResultStatus = Ok resultStatusOperationFailed /\
    FirstChild t TagResponsePayload = None /\
    exists reason, enumChild t TagResultReason = Ok reason /\
      (reason = resultReasonUnsupported <-> ~ served op) /\
      (served op -> Authenticate cert = None ->
       reason ∈ [resultReasonAuthFailed; resultReasonInvalidMessage; resultReasonInvalidField]))).

Lemma reason_of_ok cert e :
  error_ok cert e ->
  in_int32 (reason_of e) /\ reason_of e <> resultReasonUnsupported /\
  (Authenticate cert = None ->
   reason_of e ∈ [resultReasonAuthFailed; resultReasonInvalidMessage; resultReasonInvalidField]).
Proof.
  intros [Hw Hn]. assert (Hn' : Authenticate cert = None ->
    reason_of e ∈ [resultReasonAuthFailed; resultReasonInvalidMessage; resultReasonInvalidField]).
  { intros [->|(r & text & -> & [->| ->])]%Hn; unfold reason_of; simpl; set_solver. }
  destruct Hw as [Hw|(r & text & -> & [->| ->])]; [|done..].
  destruct e; [done|..]; unfold reason_of, errorItem in *; repeat case_match; (split; [done|]); done.
Qed.

Lemma answer_ok cert op m s :
  in_int32 op -> served op -> handler_ok cert op m ->
  steps Quote s (answer Quote op m s).2 /\
  exists t, enc t (encodeResponseBatchItem (answer Quote op m s).1) /\
    Tag t = TagBatchItem /\ height t <= 6 /\ item_answer cert op t.
Proof.
  intros Hop Hsv Hm. destruct (Hm s) as [Hst Hres]. unfold answer.
  destruct (m s) as [[item|e] s']; simpl in *; (split; [done|]).
  - destruct Hres as [Ha (b & -> & Hb)].
    destruct (success_encoded op b) as (t & Ht & Htag & Hh & Ho & Hs & Hp);
      [done|by apply served_nonzero|done|].
    exists t. split_and!; [done..|]. split; [done|]. by left.
  - apply reason_of_ok in Hres as (Hr & Hne & Hau). rewrite errorItem_eq.
    destruct (failure_encoded op (reason_of e) (KError_Error Quote e) Hop Hr)
      as (t & Ht & Htag & Hh & Ho & Hs & Hre & _ & Hp).
    exists t. split_and!; [done..|]. split; [done|]. right. split_and!; [done..|]. exists (reason_of e).
    by split_and!.
Qed.

Lemma handle_item_ok env cert bi s :
  in_int32 (bi_Operation bi) ->
  steps Quote s (handle_item Quote ToLowerUnicode env cert bi s).2 /\
  exists t, enc t (encodeResponseBatchItem (handle_item Quote ToLowerUnicode env cert bi s).1) /\
    Tag t = TagBatchItem /\ height t <= 6 /\ item_answer cert (bi_Operation bi) t.
Proof.
  destruct bi as [op payload]. simpl. intros Hop. unfold handle_item. simpl.
  repeat match goal with
  | |- context [op =? ?c] =>
      destruct (Z.eqb_spec op c) as [->|];
      [apply answer_ok; [done|unfold served; set_solver|
        first [apply handleCreate_ok|apply handleLocate_ok|apply handleGet_ok|apply handleRevoke_ok|apply handleDestroy_ok]]|]
  end.
  split; [apply rtc_refl|]. simpl.
  destruct (failure_encoded op resultReasonUnsupported "KMIP operation is not served yet")
    as (t & Ht & Htag & Hh & Ho & Hs & Hre & _ & Hp); [done|done|].
  exists t. split_and!; [done..|]. split; [done|]. right. split_and!; [done..|].
  assert (~ served op) by (unfold served; set_solver).
  exists resultReasonUnsupported. by split_and!.
Qed.

(** ** Whole responses *)

Lemma handle_items_ok cert items : forall env s,
  Forall (fun bi => in_int32 (bi_Operation bi)) items ->
  let (resps, s') := handle_items Quote ToLowerUnicode env cert items s in
  steps Quote s s' /\
  exists ts, Forall2 enc ts (map encodeResponseBatchItem resps) /\
    Forall (fun t => Tag t = TagBatchItem /\ height t <= 6) ts /\
    Forall2 (item_answer cert) (map bi_Operation items) ts.
Proof.
  induction items as [|bi items IH]; intros env s Hops; simpl.
  { split; [apply rtc_refl|]. exists []. by split_and!. }
  apply Forall_cons in Hops as [Hop Hops].
  pose proof (handle_item_ok (env 0%nat) cert bi s Hop) as (Hs & t & Ht & Htag & Hh & Ha).
  destruct (handle_item _ _ _ _ bi s) as [resp s1]. simpl in *.
  specialize (IH (fun k => env (S k)) s1 Hops).
  destruct (handle_items _ _ _ _ items s1) as [resps s2]. destruct IH as (Hs' & ts & Hts & Hall & Hans).
  split; [by etrans|]. exists (t :: ts). split_and!; [by constructor..].
Qed.

Lemma decode_items_range l items :
  decode_items l = Ok items -> Forall (fun bi => in_int32 (bi_Operation bi)) items.
Proof.
  revert items. induction l as [|t l IH]; intros items; simpl; [by intros [= <-]|].
  destruct (negb _); [done|]. destruct (enumChild t TagOperation) as [op|] eqn:Hop; simpl; [|done].
  destruct (decode_items l) as [rest|]; simpl; [|done]. intros [= <-].
  constructor; [by eapply enumChild_range|by apply IH].
Qed.

Lemma DecodeRequestMessage_ok frame msg :
  DecodeRequestMessage frame = Ok msg ->
  Forall (fun bi => in_int32 (bi_Operation bi)) (BatchItems msg) /\
  BatchCount msg = len (BatchItems msg).
Proof.
  unfold DecodeRequestMessage. destruct (ParseTTLV frame) as [root|]; simpl; [|done].
  destruct (negb _ || negb _); [done|].
  destruct (structure_child root _) as [hdr|]; [|done].
  destruct (structure_child hdr _) as [ver|]; [|done].
  destruct (integerChild ver _); simpl; [|done]. destruct (integerChild ver _); simpl; [|done].
  destruct (integerChild hdr _) as [n|]; simpl; [|done].
  destruct (decode_items _) as [items|] eqn:Hd; simpl; [|done].
  destruct (Z.eqb_spec n (len (map bi_Operation items))) as [->|]; simpl; [|done].
  intros [= <-]. simpl. split; [by eapply decode_items_range|]. unfold len. by rewrite length_map.
Qed.

Lemma ChildrenByTag_batch tag' n len' v hdr ts :
  Tag hdr <> TagBatchItem -> Forall (fun t => Tag t = TagBatchItem /\ height t <= 6) ts ->
  ChildrenByTag (mkTTLV tag' n len' v (hdr :: ts)) TagBatchItem = ts.
Proof.
  intros Hne Hall. unfold ChildrenByTag. cbn [Children List.filter].
  rewrite (proj2 (Z.eqb_neq _ _)) by done.
  induction Hall as [|t ts [Ht _] _ IH]; [done|]. simpl. by rewrite Ht, Z.eqb_refl, IH.
Qed.

Lemma nodes_list_length ts : len ts <= nodes_list ts.
Proof.
  induction ts as [|t ts IH]; [done|]. rewrite len_cons, nodes_list_cons. pose proof (nodes_pos t). lia.
Qed.

(** The shape of every response: a message with a header that counts its
    items. *)
Definition response_shape (resp : bytes) (ts : list TTLV) : Prop :=
  exists r hdr,
    ParseTTLVWithLimits resp (mkTTLVLimits (len resp) (len resp) 7) = Ok r /\
    Tag r = TagResponseMessage /\ FirstChild r TagResponseHeader = Some hdr /\
    integerChild hdr TagBatchCount = Ok (len ts) /\ ChildrenByTag r TagBatchItem = ts.

Lemma Frame_parses t f :
  Frame t f -> len f < 2 ^ 32 -> height t <= 7 ->
  ParseTTLVWithLimits f (mkTTLVLimits (len f) (len f) 7) = Ok t.
Proof.
  intros HF Hlen Hh. pose proof (Frame_nodes _ _ HF). pose proof (nodes_pos t).
  assert (Hn : normalizeTTLVLimits (mkTTLVLimits (len f) (len f) 7) = mkTTLVLimits (len f) (len f) 7).
  { unfold normalizeTTLVLimits. cbn [MaxFrameSize MaxFields MaxDepth].
    by rewrite (proj2 (Z.leb_gt (len f) 0)) by lia. }
  apply Parse_iff; rewrite Hn; simpl; [done|]. split_and!; [done|lia|lia|done].
Qed.

Lemma encodeResponse_shape now major minor items ts :
  Forall2 enc ts (map encodeResponseBatchItem items) ->
  Forall (fun t => Tag t = TagBatchItem /\ height t <= 6) ts ->
  len (encodeResponse now major minor items) < 2 ^ 32 ->
  response_shape (encodeResponse now major minor items) ts.
Proof.
  intros Hts Hall Hlen.
  assert (Hn : len items = len ts).
  { unfold len. by rewrite (Forall2_length _ _ _ Hts), length_map. }
  unfold response_shape, encodeResponse in *.
  set (M := if major <=? 0 then 1 else major) in *. set (m := if minor <? 0 then 2 else minor) in *.
  match goal with |- context [encodeStructure TagResponseMessage ?bs] => set (B := bs) in * end.
  assert (HB : exists hdr, Forall2 enc (hdr :: ts) B /\ Tag hdr = TagResponseHeader /\
    height hdr <= 3 /\ FirstChild hdr TagBatchCount = Some (tInt TagBatchCount (int32 (len items)))).
  { eexists. split; [apply Forall2_cons_2; [encoded|done]|]. split; [done|]. split; [|done].
    cbn [height foldr tStruct tInt tDate]. lia. }
  destruct HB as (hdr & HB & Htag & Hh & Hbc). clearbody B.
  assert (HF : Frame (tStruct TagResponseMessage (hdr :: ts) B) (encodeStructure TagResponseMessage B))
    by (by apply enc_struct).
  exists (tStruct TagResponseMessage (hdr :: ts) B), hdr. split_and!.
  - apply Frame_parses; [done|done|]. apply (height_struct _ _ _ 6); [done|].
    constructor; [lia|]. eapply Forall_impl; [exact Hall|]. simpl. by intros t [_ ?].
  - done.
  - unfold FirstChild. cbn [tStruct Children List.find]. by rewrite Htag.
  - unfold integerChild. rewrite Hbc. cbn [Type_ Value tInt].
    change (negb (TTLVInteger =? TTLVInteger) || _) with false. cbn iota.
    pose proof (Frame_nodes _ _ HF) as Hnodes. unfold tStruct in Hnodes.
    rewrite nodes_eq, nodes_list_cons in Hnodes. pose proof (nodes_list_length ts).
    pose proof (nodes_pos hdr). pose proof (len_nonneg ts).
    assert (Hi : in_int32 (len ts)) by (unfold in_int32; lia).
    rewrite Hn. f_equal. rewrite value_of_enum; unfold int32, in_int32 in *;
      rewrite Z.mod_small by lia; destruct (Z.ltb_spec (len ts) (2 ^ 31)); lia.
  - apply ChildrenByTag_batch; [by rewrite Htag|done].
Qed.

(** A response that rejects a whole message. *)
Definition rejected (text : string) (ts : list TTLV) : Prop :=
  exists t, ts = [t] /\
    enumChild t TagResultStatus = Ok resultStatusOperationFailed /\
    enumChild t TagResultReason = Ok resultReasonInvalidMessage /\
    FirstChild t TagResultMessage = Some (tText TagResultMessage text).

(** What a response says about the frame it answers. *)
Definition answers (cert frame resp : bytes) : Prop :=
  len resp < 2 ^ 32 ->
  exists ts, response_shape resp ts /\
    match DecodeRequestMessage frame with
    | Err e => rejected (TTLVError_Error e) ts
    | Ok msg =>
        match BatchItems msg with
        | [] => rejected "empty KMIP batch" ts
        | _ :: _ => Forall2 (item_answer cert) (Operations msg) ts
        end
    end.

Lemma rejected_shape now major minor text :
  len (encodeResponse now major minor [failureItem 0 resultReasonInvalidMessage text]) < 2 ^ 32 ->
  exists ts,
    response_shape (encodeResponse now major minor [failureItem 0 resultReasonInvalidMessage text]) ts /\
    rejected text ts.
Proof.
  intros Hlen. destruct (failure_encoded 0 resultReasonInvalidMessage text)
    as (t & Ht & Htag & Hh & _ & Hs & Hr & Hm & _); [done|done|].
  exists [t]. split; [|by exists t].
  apply encodeResponse_shape; [by constructor|by repeat constructor|done].
Qed.

Lemma HandleFrame_ok env now cert frame s :
  let (resp, s') := HandleFrame Quote ToLowerUnicode env now cert frame s in
  steps Quote s s' /\ answers cert frame resp.
Proof.
  unfold HandleFrame, answers.
  destruct (DecodeRequestMessage frame) as [msg|e] eqn:Hd;
    [|split; [apply rtc_refl|apply rejected_shape]].
  assert (Hops : Operations msg = map bi_Operation (BatchItems msg)).
  { revert Hd. unfold DecodeRequestMessage. destruct (ParseTTLV frame); simpl; [|done].
    repeat (case_match; try done). repeat (destruct (integerChild _ _); simpl; [|done]).
    destruct (decode_items _); simpl; [|done]. case_match; [done|]. by intros [= <-]. }
  apply DecodeRequestMessage_ok in Hd as [Hrange Hcount].
  rewrite Hcount, orb_diag. destruct (Z.eqb_spec (len (BatchItems msg)) 0) as [H0|H0].
  { assert (BatchItems msg = []) as -> by (apply nil_length_inv; unfold len in H0; lia).
    split; [apply rtc_refl|apply rejected_shape]. }
  pose proof (handle_items_ok cert (BatchItems msg) env s Hrange) as Hok.
  destruct (handle_items _ _ _ _ _ _) as [resps s']. destruct Hok as (Hs & ts & Hts & Hall & Hans).
  split; [done|]. intros Hlen. exists ts. split; [by apply encodeResponse_shape|].
  rewrite Hops. by destruct (BatchItems msg).
Qed.

(** On a connection that carries the frames of any sequence of KMIP items of
    at most a mebibyte each, the listener cuts the stream exactly into these
    frames and writes one response per frame, in order.  Each response (whose
    length fits the 32-bit length field) parses under limits of its own size, is a
    ResponseMessage whose header counts its items, and answers the request: a
    frame that does not decode is rejected as one failed item with the reason
    InvalidMessage and the text of the decoding error, an empty batch likewise,
    and otherwise there is one answer per batch item with the operation of the
    request.  An answer is a success only for a served operation and an
    authenticated client and then has a payload; a failure has none, its reason is
    Unsupported exactly for the operations that are not served, and an
    unauthenticated client is told AuthFailed unless its payload was already
    malformed.  All the while the objects change only by operations of the
    server. *)
Theorem handleConn_answers env now cert frames s :
  Forall (fun f => exists t, Frame t f /\ len f <= 2 ^ 20) frames ->
  let (resps, s') :=
    handleConn Quote ToLowerUnicode (length frames) env now cert (mjoin frames) s in
  steps Quote s s' /\ Forall2 (answers cert) frames resps.
Proof.
  intros HF. revert env now s. induction HF as [|f frames (t & Hf & Hlen) _ IH]; intros env now s.
  { split; [apply rtc_refl|done]. }
  cbn [length handleConn mjoin list_join].
  rewrite (ReadFrame_Frame t f _ (Z.shiftl 1 20)) by done.
  pose proof (HandleFrame_ok (env 0%nat) (now 0%nat) cert f s) as Hok.
  destruct (HandleFrame _ _ _ _ cert f s) as [resp s1]. destruct Hok as [Hs Ha].
  specialize (IH (fun j => env (S j)) (fun j => now (S j)) s1).
  destruct (handleConn _ _ _ _ _ cert _ s1) as [resps s2]. destruct IH as [Hs' Hr].
  split; [by etrans|by constructor].
Qed.

End Wire.

(** A request with one item. *)
Definition sample_request (op : Z) (payload : list bytes) : bytes :=
  encodeStructure TagRequestMessage
    [encodeStructure TagRequestHeader
       [encodeStructure TagProtocolVersion
          [encodeInteger TagProtocolVersionMajor 1; encodeInteger TagProtocolVersionMinor 4];
        encodeInteger TagBatchCount 1];
     encodeStructure TagBatchItem
       [encodeEnumeration TagOperation op; encodeStructure TagRequestPayload payload]].

Definition sample_auth : Authenticator := VerifiedClientCertAuthenticator (fun _ => "00"%string).

Definition sample_env (_ _ : nat) : ItemEnv :=
  mkItemEnv (Ok (list_ascii_of_string "0123456789abcdef0123456789abcdef")) map_to_list.

Definition sample_frames : list bytes :=
  [sample_request OperationCreate [encodeEnumeration TagObjectType objectTypeSymmetricKey];
   sample_request OperationGet [encodeText TagUniqueIdentifier " kmip-1 "]].

(** A client creates a key and gets it, over one connection. *)
Lemma handleConn_answers_witness :
  let (resps, s') :=
    @handleConn sample_auth id id 2 sample_env (fun _ => 1000) ["c"%char] (mjoin sample_frames) (New "t") in
  steps (auth := sample_auth) id (New "t") s' /\
  Forall2 (answers (auth := sample_auth) ["c"%char]) sample_frames resps.
Proof.
  apply (handleConn_answers (auth := sample_auth) id id sample_env (fun _ => 1000) ["c"%char] sample_frames (New "t")).
  repeat constructor.
  all: eexists; split; [apply Parse_iff with (limits := DefaultTTLVLimits); [vm_compute; reflexivity|];
    vm_compute; reflexivity|vm_compute; discriminate].
Defined.

End KmipWire.
