(* ===== verification/Base64.v ===== *)
(** * Base64

    [encoding/base64] as the sources use it: [RawURLEncoding] for the members of a
    JWS, a JWK, a CSR and an ARI certificate identifier, and [StdEncoding] for the
    [[]byte] fields of an event.  Decoding is the decoder of the standard library:
    it drops carriage returns and line feeds wherever they stand, accepts set
    trailing bits (the encodings are not [Strict]) and, with padding, wants the
    last group padded and nothing after it. *)

From S2P Require Import Prelude.
Open Scope string_scope.
Open Scope list_scope.
Open Scope Z_scope.

Module Base64.

#[local] Ltac Zify.zify_post_hook ::= Z.div_mod_to_equations.

(** A variant: its last two symbols and whether it pads. *)
Record Encoding := mkEncoding { c62 : ascii; c63 : ascii; padded : bool }.

Definition StdEncoding : Encoding := mkEncoding "+" "/" true.
Definition RawURLEncoding : Encoding := mkEncoding "-" "_" false.

(** Bytes as numbers. *)
Definition bz (c : ascii) : Z := Z.of_N (N_of_ascii c).
Definition zb (z : Z) : ascii := ascii_of_N (Z.to_N z).

Definition symbol (e : Encoding) (v : Z) : ascii :=
  if v <? 26 then zb (65 + v)
  else if v <? 52 then zb (71 + v)
  else if v <? 62 then zb (v - 4)
  else if v =? 62 then c62 e else c63 e.

Definition value (e : Encoding) (c : ascii) : option Z :=
  let n := bz c in
  if (65 <=? n) && (n <=? 90) then Some (n - 65)
  else if (97 <=? n) && (n <=? 122) then Some (n - 71)
  else if (48 <=? n) && (n <=? 57) then Some (n + 4)
  else if Ascii.eqb c (c62 e) then Some 62
  else if Ascii.eqb c (c63 e) then Some 63
  else None.

Definition pad : ascii := "=".

Fixpoint encode (e : Encoding) (l : list ascii) : list ascii :=
  match l with
  | [] => []
  | [a] =>
      let v := bz a * 16 in
      [symbol e (v / 64); symbol e (v mod 64)] ++ (if padded e then [pad; pad] else [])
  | [a; b] =>
      let v := bz a * 1024 + bz b * 4 in
      [symbol e (v / 4096); symbol e (v / 64 mod 64); symbol e (v mod 64)] ++ (if padded e then [pad] else [])
  | a :: b :: c :: l' =>
      let v := bz a * 65536 + bz b * 256 + bz c in
      symbol e (v / 262144) :: symbol e (v / 4096 mod 64) :: symbol e (v / 64 mod 64) :: symbol e (v mod 64)
        :: encode e l'
  end.

(** A last group of two and of three symbols; the trailing bits are not read. *)
Definition two (e : Encoding) (c0 c1 : ascii) : option (list ascii) :=
  a ← value e c0; b ← value e c1; Some [zb ((a * 64 + b) / 16)].

Definition three (e : Encoding) (c0 c1 c2 : ascii) : option (list ascii) :=
  a ← value e c0; b ← value e c1; c ← value e c2;
  let v := (a * 4096 + b * 64 + c) / 4 in
  Some [zb (v / 256); zb (v mod 256)].

Fixpoint decode_groups (e : Encoding) (l : list ascii) : option (list ascii) :=
  match l with
  | [] => Some []
  | [_] => None
  | [c0; c1] => if padded e then None else two e c0 c1
  | [c0; c1; c2] => if padded e then None else three e c0 c1 c2
  | c0 :: c1 :: c2 :: c3 :: l' =>
      if padded e && Ascii.eqb c3 pad then
        match l' with
        | [] => if Ascii.eqb c2 pad then two e c0 c1 else three e c0 c1 c2
        | _ :: _ => None
        end
      else
        a ← value e c0; b ← value e c1; c ← value e c2; d ← value e c3;
        let v := a * 262144 + b * 4096 + c * 64 + d in
        rest ← decode_groups e l';
        Some (zb (v / 65536) :: zb (v / 256 mod 256) :: zb (v mod 256) :: rest)
  end.

Definition newline (c : ascii) : bool := (bz c =? 10) || (bz c =? 13).

Definition EncodeToString (e : Encoding) (b : string) : string :=
  string_of_list_ascii (encode e (list_ascii_of_string b)).

Definition DecodeString (e : Encoding) (s : string) : option string :=
  string_of_list_ascii <$> decode_groups e (List.filter (fun c => negb (newline c)) (list_ascii_of_string s)).

(** ** The round trip *)

Lemma bz_range c : 0 <= bz c < 256.
Proof. unfold bz. pose proof (N_ascii_bounded c). lia. Qed.

Lemma zb_bz c : zb (bz c) = c.
Proof. unfold zb, bz. by rewrite N2Z.id, ascii_N_embedding. Qed.

Lemma bz_zb v : 0 <= v < 256 -> bz (zb v) = v.
Proof. intros H. unfold zb, bz. rewrite N_ascii_embedding by lia. lia. Qed.

(** The last two symbols are no other symbol, no padding and no newline. *)
Definition apart (e : Encoding) : Prop :=
  forall v, 0 <= v < 64 -> value e (symbol e v) = Some v /\ newline (symbol e v) = false /\ symbol e v <> pad.

Lemma apart_check e :
  forallb (fun n => let v := Z.of_nat n in
    bool_decide (value e (symbol e v) = Some v) && negb (newline (symbol e v)) && negb (Ascii.eqb (symbol e v) pad)) (seq 0 64) = true ->
  apart e.
Proof.
  intros H v Hv. rewrite forallb_forall in H.
  specialize (H (Z.to_nat v)). rewrite in_seq, Z2Nat.id in H by lia.
  specialize (H ltac:(lia)). rewrite !andb_true_iff, bool_decide_eq_true, !negb_true_iff in H.
  destruct H as [[H1 H2] H3]. by apply Ascii.eqb_neq in H3.
Qed.

Lemma StdEncoding_apart : apart StdEncoding.
Proof. by apply apart_check. Qed.

Lemma RawURLEncoding_apart : apart RawURLEncoding.
Proof. by apply apart_check. Qed.

#[export] Hint Resolve StdEncoding_apart RawURLEncoding_apart : trst.

(** Induction by groups of three. *)
Lemma three_ind {A} (P : list A -> Prop) :
  P [] -> (forall a, P [a]) -> (forall a b, P [a; b]) ->
  (forall a b c l, P l -> P (a :: b :: c :: l)) -> forall l, P l.
Proof.
  intros H0 H1 H2 H3. fix IH 1. intros [|a [|b [|c l]]]; [done|done|done|]. by apply H3.
Qed.

Section RoundTrip.
Variable e : Encoding.
Hypothesis He : apart e.

Lemma value_symbol v : 0 <= v < 64 -> value e (symbol e v) = Some v.
Proof. intros Hv. by apply He. Qed.

Lemma symbol_pad v : 0 <= v < 64 -> Ascii.eqb (symbol e v) pad = false.
Proof. intros Hv. apply Ascii.eqb_neq. by apply He. Qed.

(** What every symbol and the padding have, every encoding has. *)
Lemma encode_forall (P : ascii -> Prop) l :
  (forall v, 0 <= v < 64 -> P (symbol e v)) -> P pad -> Forall P (encode e l).
Proof.
  intros Hs Hp.
  induction l as [|a|a b|a b c l IH] using three_ind; cbn [encode]; [done| | |].
  - pose proof (bz_range a). constructor; [apply Hs; lia|]. constructor; [apply Hs; lia|]. by destruct (padded e); repeat constructor.
  - pose proof (bz_range a). pose proof (bz_range b).
    do 3 (constructor; [apply Hs; lia|]). by destruct (padded e); repeat constructor.
  - pose proof (bz_range a). pose proof (bz_range b). pose proof (bz_range c).
    do 4 (constructor; [apply Hs; lia|]). done.
Qed.

Lemma encode_newline l : Forall (fun c => newline c = false) (encode e l).
Proof. apply encode_forall; [|done]. intros v Hv. by apply He. Qed.

(** The arithmetic of a group. *)
Lemma group3 a b c : 0 <= a < 256 -> 0 <= b < 256 -> 0 <= c < 256 ->
  let v := a * 65536 + b * 256 + c in
  let w := v / 262144 * 262144 + v / 4096 mod 64 * 4096 + v / 64 mod 64 * 64 + v mod 64 in
  w / 65536 = a /\ w / 256 mod 256 = b /\ w mod 256 = c.
Proof.
  intros Ha Hb Hc v w. assert (w = v) as -> by (unfold w; lia). unfold v. lia.
Qed.

Lemma group2 a b : 0 <= a < 256 -> 0 <= b < 256 ->
  let v := a * 1024 + b * 4 in
  let w := (v / 4096 * 4096 + v / 64 mod 64 * 64 + v mod 64) / 4 in
  w / 256 = a /\ w mod 256 = b.
Proof.
  intros Ha Hb v w. assert (w = a * 256 + b) as -> by (unfold w, v; lia). lia.
Qed.

Lemma decode_encode_groups l : decode_groups e (encode e l) = Some l.
Proof.
  induction l as [|a|a b|a b c l IH] using three_ind; [done| | |].
  - pose proof (bz_range a). assert (H1 : (bz a * 16 / 64 * 64 + (bz a * 16) mod 64) / 16 = bz a) by lia.
    cbn [encode]. destruct (padded e) eqn:Hp; cbn [app decode_groups]; rewrite Hp; cbn [andb];
      rewrite ?Ascii.eqb_refl; unfold two; rewrite !value_symbol by lia; cbn [mbind option_bind];
      by rewrite H1, zb_bz.
  - pose proof (bz_range a) as Ha. pose proof (bz_range b) as Hb. destruct (group2 _ _ Ha Hb) as [H1 H2].
    cbn [encode]. destruct (padded e) eqn:Hp; cbn [app decode_groups]; rewrite Hp; cbn [andb];
      rewrite ?Ascii.eqb_refl, ?symbol_pad by lia; unfold three; rewrite !value_symbol by lia; cbn [mbind option_bind];
      by rewrite H1, H2, !zb_bz.
  - pose proof (bz_range a) as Ha. pose proof (bz_range b) as Hb. pose proof (bz_range c) as Hc.
    destruct (group3 _ _ _ Ha Hb Hc) as (H1 & H2 & H3).
    cbn [encode decode_groups]. rewrite symbol_pad, andb_false_r by lia.
    rewrite !value_symbol by lia. cbn [mbind option_bind]. rewrite IH. cbn [mbind option_bind].
    by rewrite H1, H2, H3, !zb_bz.
Qed.

(** Decoding what was encoded gives the bytes back. *)
Lemma DecodeString_EncodeToString b : DecodeString e (EncodeToString e b) = Some b.
Proof.
  unfold DecodeString, EncodeToString. rewrite list_ascii_of_string_of_list_ascii.
  assert (Hf : List.filter (fun c => negb (newline c)) (encode e (list_ascii_of_string b)) = encode e (list_ascii_of_string b)).
  { generalize (encode_newline (list_ascii_of_string b)).
    induction 1 as [|c l Hc _ IH]; cbn; [done|]. rewrite Hc. cbn. by rewrite IH. }
  rewrite Hf, decode_encode_groups. cbn. by rewrite string_of_list_ascii_of_string.
Qed.

End RoundTrip.

End Base64.
