(* ===== verification/AcmeJose.v ===== *)
(** * The JOSE layer of the ACME server

    Models [src/internal/crypto/jose/acme.go] with [rsaPublicFromJWK] and
    [verifyRS256] of [src/internal/crypto/jose/jose.go]: parsing a flattened JWS,
    building an account key from a JWK, the signature checks that pin the algorithm
    to the kind of the key, external account bindings, and the RFC 7638 thumbprint.

    The primitives of [crypto/*] are the class [JoseCrypto]; [document] is the
    reading of bytes as a JSON text, the abstraction behind the type [data]. *)

From S2P Require Import Prelude Json Base64.
Open Scope string_scope.
Open Scope list_scope.
Open Scope Z_scope.

Module AcmeJose.
Import Base64.

Inductive Curve := P256 | P384 | P521.

#[export] Instance Curve_eq_dec : EqDecision Curve.
Proof. solve_decision. Defined.

Class JoseCrypto := {
  (** [json.Unmarshal] reads this document of a text *)
  document : string -> data;
  (** the verb [%q] *)
  Quote : string -> string;
  sha256 : string -> string;
  sha384 : string -> string;
  sha512 : string -> string;
  hmacSHA256 : string -> string -> string;
  VerifyPKCS1v15 : Z -> Z -> string -> string -> bool;
  IsOnCurve : Curve -> Z -> Z -> bool;
  ecdsaVerify : Curve -> Z -> Z -> string -> Z -> Z -> bool;
  ed25519Verify : string -> string -> string -> bool
}.

(** What is relied on: an empty text is no document, a digest has bytes. *)
Class JoseLaws (J : JoseCrypto) := {
  document_empty : document "" = DRaw "";
  sha256_nonempty : forall s, sha256 s <> ""
}.

Record ACMEProtected := mkProtected {
  p_Alg : string;
  p_Kid : string;
  p_JWK : option json;
  p_Nonce : string;
  p_URL : string
}.

Record ACMEMessage := mkMessage {
  Protected : ACMEProtected;
  Payload : data;
  protectedB64 : string;
  payloadB64 : string;
  signatureB64 : string
}.

Inductive JoseErr :=
| ParseJWS
| ProtectedHeader
| PayloadEncoding
| ParseJWK
| UnsupportedKty (kty : string)
| MissingMember
| MemberEncoding
| ModulusZero
| ModulusBits (bits : Z)
| ExponentRange
| ExponentInvalid (e : Z)
| UnsupportedCurve (crv : string)
| NotOnCurve
| Ed25519Size (n : Z)
| SignatureEncoding
| AlgMismatch (alg : string)
| CurveMismatch (alg : string)
| SignatureLength (n : Z)
| SignatureInvalid
| EABNoKey
| EABKid
| EABURL
| EABHeader
| EABPayloadKey (e : JoseErr)
| EABAccountKey.

(** ** Keys *)

Inductive KeyMaterial :=
| keyRSA (n e : Z)
| keyECDSA (c : Curve) (x y : Z)
| keyEd25519 (pub : string).

Record ACMEKey := mkKey { kind : KeyMaterial; thumbInput : string }.

Definition minRSABits : Z := 2048.
Definition maxRSABits : Z := 8192.
Definition maxRSAExponent : Z := Z.shiftl 1 31.

(** [big.Int.SetBytes], [BitLen]. *)
Definition SetBytes (b : string) : Z :=
  fold_left (fun acc c => acc * 256 + bz c) (list_ascii_of_string b) 0.

Definition BitLen (n : Z) : Z := if n <=? 0 then 0 else Z.log2 n + 1.

Definition rsaPublicFromJWK (nb eb : string) : result JoseErr (Z * Z) :=
  let n := SetBytes nb in
  if n <=? 0 then Err ModulusZero else
  let bits := BitLen n in
  if (bits <? minRSABits) || (maxRSABits <? bits) then Err (ModulusBits bits) else
  let e := SetBytes eb in
  if (e <=? 0) || (maxRSAExponent <? e) then Err ExponentRange else
  if (e <? 3) || (Z.rem e 2 =? 0) then Err (ExponentInvalid e) else
  Ok (n, e).

Definition dq : string := String (ascii_of_nat 34) "".

(** A member of the canonical JWK of RFC 7638. *)
Definition lit (s : string) : string := dq +:+ s +:+ dq.

Definition b64decode (s : string) : result JoseErr string :=
  match DecodeString RawURLEncoding s with
  | Some b => Ok b
  | None => Err MemberEncoding
  end.

Definition ecCurveByName (crv : string) : option Curve :=
  if String.eqb crv "P-256" then Some P256
  else if String.eqb crv "P-384" then Some P384
  else if String.eqb crv "P-521" then Some P521
  else None.

Definition jwk_fields : list field := [
  mkField "kty" KStr false; mkField "n" KStr false; mkField "e" KStr false;
  mkField "crv" KStr false; mkField "x" KStr false; mkField "y" KStr false].

Definition len (s : string) : Z := Z.of_nat (String.length s).

Section Jose.
Context {J : JoseCrypto}.

Definition rsaACMEKey (n e : string) : result JoseErr ACMEKey :=
  if String.eqb n "" || String.eqb e "" then Err MissingMember else
  let? nb := b64decode n in
  let? eb := b64decode e in
  let? pub := rsaPublicFromJWK nb eb in
  Ok (mkKey (keyRSA pub.1 pub.2)
        ("{" +:+ lit "e" +:+ ":" +:+ Quote e +:+ "," +:+ lit "kty" +:+ ":" +:+ lit "RSA" +:+ ","
           +:+ lit "n" +:+ ":" +:+ Quote n +:+ "}")).

Definition ecACMEKey (crv x y : string) : result JoseErr ACMEKey :=
  match ecCurveByName crv with
  | None => Err (UnsupportedCurve crv)
  | Some curve =>
      if String.eqb x "" || String.eqb y "" then Err MissingMember else
      let? xb := b64decode x in
      let? yb := b64decode y in
      let X := SetBytes xb in
      let Y := SetBytes yb in
      if negb (IsOnCurve curve X Y) then Err NotOnCurve else
      Ok (mkKey (keyECDSA curve X Y)
            ("{" +:+ lit "crv" +:+ ":" +:+ Quote crv +:+ "," +:+ lit "kty" +:+ ":" +:+ lit "EC" +:+ ","
               +:+ lit "x" +:+ ":" +:+ Quote x +:+ "," +:+ lit "y" +:+ ":" +:+ Quote y +:+ "}"))
  end.

Definition okpACMEKey (crv x : string) : result JoseErr ACMEKey :=
  if negb (String.eqb crv "Ed25519") then Err (UnsupportedCurve crv) else
  if String.eqb x "" then Err MissingMember else
  let? xb := b64decode x in
  if negb (len xb =? 32) then Err (Ed25519Size (len xb)) else
  Ok (mkKey (keyEd25519 xb)
        ("{" +:+ lit "crv" +:+ ":" +:+ Quote crv +:+ "," +:+ lit "kty" +:+ ":" +:+ lit "OKP" +:+ ","
           +:+ lit "x" +:+ ":" +:+ Quote x +:+ "}")).

(** The key of a parsed JWK; an empty raw message is no JSON text. *)
Definition ACMEKeyFromDoc (d : data) : result JoseErr ACMEKey :=
  match decode_struct jwk_fields d with
  | None => Err ParseJWK
  | Some vs =>
      let kty := str_at vs 0 in
      if String.eqb kty "RSA" then rsaACMEKey (str_at vs 1) (str_at vs 2)
      else if String.eqb kty "EC" then ecACMEKey (str_at vs 3) (str_at vs 4) (str_at vs 5)
      else if String.eqb kty "OKP" then okpACMEKey (str_at vs 3) (str_at vs 4)
      else Err (UnsupportedKty kty)
  end.

Definition ACMEKeyFromJWK (jwk : option json) : result JoseErr ACMEKey :=
  ACMEKeyFromDoc (match jwk with Some j => DJson j | None => DRaw "" end).

Definition Thumbprint (k : ACMEKey) : string :=
  EncodeToString RawURLEncoding (sha256 (thumbInput k)).

(** ** Messages *)

Definition jws_fields : list field := [
  mkField "protected" KStr false; mkField "payload" KStr false; mkField "signature" KStr false].

Definition protected_fields : list field := [
  mkField "alg" KStr false; mkField "kid" KStr true; mkField "jwk" KRaw true;
  mkField "nonce" KStr true; mkField "url" KStr false].

Definition raw_at (vs : svals) (i : nat) : option json :=
  match vs !! i with Some (VRaw j) => j | _ => None end.

Definition ParseACMEJWS (body : data) : result JoseErr ACMEMessage :=
  match decode_struct jws_fields body with
  | None => Err ParseJWS
  | Some raw =>
      match DecodeString RawURLEncoding (str_at raw 0) with
      | None => Err ProtectedHeader
      | Some phJSON =>
          match decode_struct protected_fields (document phJSON) with
          | None => Err ProtectedHeader
          | Some ph =>
              let msg payload :=
                mkMessage (mkProtected (str_at ph 0) (str_at ph 1) (raw_at ph 2) (str_at ph 3) (str_at ph 4))
                  payload (str_at raw 0) (str_at raw 1) (str_at raw 2) in
              if String.eqb (str_at raw 1) "" then Ok (msg (DRaw "")) else
              match DecodeString RawURLEncoding (str_at raw 1) with
              | None => Err PayloadEncoding
              | Some p => Ok (msg (document p))
              end
          end
      end
  end.

Definition signingInput (m : ACMEMessage) : string := protectedB64 m +:+ "." +:+ payloadB64 m.

Definition BitSize (c : Curve) : Z := match c with P256 => 256 | P384 => 384 | P521 => 521 end.

Definition verifyACMEECDSA (c : Curve) (X Y : Z) (alg input sig : string) : result JoseErr unit :=
  let want :=
    if String.eqb alg "ES256" then Some (sha256 input, P256)
    else if String.eqb alg "ES384" then Some (sha384 input, P384)
    else if String.eqb alg "ES512" then Some (sha512 input, P521)
    else None in
  match want with
  | None => Err (AlgMismatch alg)
  | Some (digest, wantCurve) =>
      if negb (bool_decide (c = wantCurve)) then Err (CurveMismatch alg) else
      let keyBytes := (BitSize c + 7) / 8 in
      if negb (len sig =? 2 * keyBytes) then Err (SignatureLength (len sig)) else
      let r := SetBytes (String.substring 0 (Z.to_nat keyBytes) sig) in
      let s := SetBytes (String.substring (Z.to_nat keyBytes) (Z.to_nat keyBytes) sig) in
      if ecdsaVerify c X Y digest r s then Ok tt else Err SignatureInvalid
  end.

Definition verifyRS256 (n e : Z) (input sigB64 : string) : result JoseErr unit :=
  match DecodeString RawURLEncoding sigB64 with
  | None => Err SignatureEncoding
  | Some raw => if VerifyPKCS1v15 n e (sha256 input) raw then Ok tt else Err SignatureInvalid
  end.

(** The key pointer is never nil where this is called. *)
Definition Verify (m : ACMEMessage) (key : ACMEKey) : result JoseErr unit :=
  match DecodeString RawURLEncoding (signatureB64 m) with
  | None => Err SignatureEncoding
  | Some sig =>
      let alg := p_Alg (Protected m) in
      match kind key with
      | keyRSA n e =>
          if negb (String.eqb alg "RS256") then Err (AlgMismatch alg)
          else verifyRS256 n e (signingInput m) (signatureB64 m)
      | keyECDSA c x y => verifyACMEECDSA c x y alg (signingInput m) sig
      | keyEd25519 pub =>
          if negb (String.eqb alg "EdDSA") then Err (AlgMismatch alg)
          else if ed25519Verify pub (signingInput m) sig then Ok tt else Err SignatureInvalid
      end
  end.

(** The bound key is the payload read as a JWK. *)
Definition VerifyExternalAccountBinding (m : ACMEMessage) (hmacKey expectedKid expectedURL accountThumbprint : string)
  : result JoseErr unit :=
  let p := Protected m in
  if String.eqb hmacKey "" then Err EABNoKey else
  if negb (String.eqb (p_Alg p) "HS256") then Err (AlgMismatch (p_Alg p)) else
  if negb (String.eqb (p_Kid p) expectedKid) then Err EABKid else
  if negb (String.eqb (p_URL p) expectedURL) then Err EABURL else
  if negb (String.eqb (p_Nonce p) "") || bool_decide (is_Some (p_JWK p)) then Err EABHeader else
  match ACMEKeyFromDoc (Payload m) with
  | Err e => Err (EABPayloadKey e)
  | Ok boundKey =>
      if negb (String.eqb (Thumbprint boundKey) accountThumbprint) then Err EABAccountKey else
      match DecodeString RawURLEncoding (signatureB64 m) with
      | None => Err SignatureEncoding
      | Some got => if String.eqb (hmacSHA256 hmacKey (signingInput m)) got then Ok tt else Err SignatureInvalid
      end
  end.

(** ** Properties *)

(** No key comes out of an empty raw message. *)
Lemma ACMEKeyFromJWK_Some jwk k : ACMEKeyFromJWK jwk = Ok k -> is_Some jwk.
Proof. destruct jwk; [done|]. by unfold ACMEKeyFromJWK, ACMEKeyFromDoc. Qed.

Lemma Thumbprint_nonempty `{!JoseLaws J} k : Thumbprint k <> "".
Proof.
  unfold Thumbprint. intros H. apply (f_equal (DecodeString RawURLEncoding)) in H.
  rewrite DecodeString_EncodeToString in H by eauto with trst. cbn in H. simplify_eq. by eapply sha256_nonempty.
Qed.

(** The algorithms a kind of key admits. *)
Definition admits (k : KeyMaterial) (alg : string) : Prop :=
  match k with
  | keyRSA _ _ => alg = "RS256"
  | keyECDSA P256 _ _ => alg = "ES256"
  | keyECDSA P384 _ _ => alg = "ES384"
  | keyECDSA P521 _ _ => alg = "ES512"
  | keyEd25519 _ => alg = "EdDSA"
  end.

Lemma Verify_alg m k : Verify m k = Ok tt -> admits (kind k) (p_Alg (Protected m)).
Proof.
  unfold Verify. intros H. case_in H; [|done]. destruct (kind k) as [n e|c x y|pub]; cbn.
  - destruct (String.eqb_spec (p_Alg (Protected m)) "RS256"); [done|by cbn in H].
  - unfold verifyACMEECDSA in H.
    destruct (String.eqb_spec (p_Alg (Protected m)) "ES256") as [->|]; [case_bool_decide; by destruct c|].
    destruct (String.eqb_spec (p_Alg (Protected m)) "ES384") as [->|]; [case_bool_decide; by destruct c|].
    destruct (String.eqb_spec (p_Alg (Protected m)) "ES512") as [->|]; [case_bool_decide; by destruct c|done].
  - destruct (String.eqb_spec (p_Alg (Protected m)) "EdDSA"); [done|by cbn in H].
Qed.

(** Key material within the bounds the parser enforces. *)
Definition material_ok (k : KeyMaterial) : Prop :=
  match k with
  | keyRSA n e => 2 ^ 2047 <= n < 2 ^ 8192 /\ 3 <= e <= 2 ^ 31 /\ Z.odd e = true
  | keyECDSA c x y => IsOnCurve c x y = true
  | keyEd25519 pub => String.length pub = 32%nat
  end.

Lemma rsaPublicFromJWK_ok nb eb n e :
  rsaPublicFromJWK nb eb = Ok (n, e) -> material_ok (keyRSA n e).
Proof.
  unfold rsaPublicFromJWK, BitLen, minRSABits, maxRSABits, maxRSAExponent.
  generalize (SetBytes nb) (SetBytes eb). intros n' e' H.
  destruct (Z.leb_spec n' 0); [done|].
  destruct (Z.log2 n' + 1 <? 2048) eqn:H1; [done|]. destruct (8192 <? Z.log2 n' + 1) eqn:H2; [done|]. cbn [orb] in H.
  change (Z.shiftl 1 31) with (2 ^ 31) in H.
  destruct (Z.leb_spec e' 0); [done|]. destruct (Z.ltb_spec (2 ^ 31) e'); [done|]. cbn [orb] in H.
  destruct (Z.ltb_spec e' 3); [done|]. destruct (Z.eqb_spec (Z.rem e' 2) 0); [done|]. cbn [orb] in H.
  injection H as <- <-. apply Z.ltb_ge in H1, H2.
  assert (Hl : 2 ^ Z.log2 n' <= n' < 2 ^ Z.succ (Z.log2 n')) by (by apply Z.log2_spec).
  assert (2 ^ 2047 <= 2 ^ Z.log2 n') by (apply Z.pow_le_mono_r; lia).
  assert (2 ^ Z.succ (Z.log2 n') <= 2 ^ 8192) by (apply Z.pow_le_mono_r; lia).
  unfold material_ok. split_and!; try lia.
  rewrite Zodd_mod. apply Z.eqb_eq. rewrite Z.rem_mod_nonneg in n0 by lia.
  pose proof (Z.mod_pos_bound e' 2). lia.
Qed.

(** The one key a JWK denotes is within bounds. *)
Lemma ACMEKeyFromDoc_ok d k : ACMEKeyFromDoc d = Ok k -> material_ok (kind k).
Proof.
  unfold ACMEKeyFromDoc. intros H. case_in H; [|done].
  case_in H; [|case_in H; [|case_in H; [|done]]].
  - unfold rsaACMEKey, b64decode in H. repeat (case_in H; try done); cbn in H; try done.
    destruct (rsaPublicFromJWK _ _) as [[n e]|] eqn:E; [|done]. cbn in H. injection H as <-.
    by eapply rsaPublicFromJWK_ok.
  - unfold ecACMEKey, b64decode in H. case_in H; [|done]. case_in H; [done|].
    case_in H; [|done]. cbn in H. case_in H; [|done]. cbn in H. case_in H; [done|].
    injection H as <-. cbn. destruct (IsOnCurve _ _ _); done.
  - unfold okpACMEKey, b64decode in H. case_in H; [done|]. case_in H; [done|]. case_in H; [|done].
    cbn in H. case_in H; [done|]. injection H as <-. cbn.
    match goal with Hl : negb (len _ =? 32) = false |- _ => apply negb_false_iff, Z.eqb_eq in Hl; unfold len in Hl; lia end.
Qed.

Lemma VerifyEAB_ok m hmacKey kid url thumb :
  VerifyExternalAccountBinding m hmacKey kid url thumb = Ok tt <->
  hmacKey <> "" /\ p_Alg (Protected m) = "HS256" /\ p_Kid (Protected m) = kid /\ p_URL (Protected m) = url /\
  p_Nonce (Protected m) = "" /\ p_JWK (Protected m) = None /\
  (exists k, ACMEKeyFromDoc (Payload m) = Ok k /\ Thumbprint k = thumb) /\
  DecodeString RawURLEncoding (signatureB64 m) = Some (hmacSHA256 hmacKey (signingInput m)).
Proof.
  unfold VerifyExternalAccountBinding.
  destruct (String.eqb_spec hmacKey ""); [by split; [|tauto]|].
  destruct (String.eqb_spec (p_Alg (Protected m)) "HS256"); [|by split; [|tauto]]. cbn [negb].
  destruct (String.eqb_spec (p_Kid (Protected m)) kid); [|by split; [|tauto]]. cbn [negb].
  destruct (String.eqb_spec (p_URL (Protected m)) url); [|by split; [|tauto]]. cbn [negb].
  destruct (String.eqb_spec (p_Nonce (Protected m)) ""); [|by split; [|tauto]]. cbn [negb orb].
  destruct (p_JWK (Protected m)) as [j|] eqn:Hj.
  { rewrite bool_decide_eq_true_2 by done. split; [done|]. by intros (_ & _ & _ & _ & _ & ? & _). }
  rewrite bool_decide_eq_false_2 by (by intros [? ?]).
  destruct (ACMEKeyFromDoc (Payload m)) as [k|e4] eqn:Hk.
  2:{ split; [done|]. by intros (_ & _ & _ & _ & _ & _ & (k' & ? & _) & _). }
  destruct (String.eqb_spec (Thumbprint k) thumb) as [Ht|Ht].
  2:{ split; [done|]. intros (_ & _ & _ & _ & _ & _ & (k' & [= <-] & ?) & _). done. }
  cbn [negb]. destruct (DecodeString _ (signatureB64 m)) as [got|].
  2:{ split; [done|]. by intros (_ & _ & _ & _ & _ & _ & _ & ?). }
  destruct (String.eqb_spec (hmacSHA256 hmacKey (signingInput m)) got) as [<-|Hg].
  - split; [|done]. intros _. split_and!; eauto.
  - split; [done|]. intros (_ & _ & _ & _ & _ & _ & _ & [= Hc]). by destruct Hg.
Qed.

End Jose.

End AcmeJose.
