(* ===== verification/AcmeState.v ===== *)
(** * ACME state and its events

    Models [src/internal/protocols/acme/state.go] and the data types of [acme.go]
    of the same package: accounts, orders, authorizations and challenges, the
    payloads of the events that record them, and the replay that rebuilds the
    serving view from the event log.

    The maps of the source hold pointers.  An account object is identified here by
    its URL and a challenge object by its id, which no operation changes: [byKey]
    maps a thumbprint to the URL of the account, an authorization lists the ids of
    its challenges.  That ids are never given out twice is part of the invariant
    proved in [AcmeSpec]. *)

From S2P Require Import Prelude Json Tenancy Events Base64 AcmeJose.
Open Scope string_scope.
Open Scope list_scope.
Open Scope Z_scope.

Module AcmeState.
Import SE Tenancy Events Base64 AcmeJose.

(** The text of a time in JSON (RFC 3339); a year outside 0..9999 has none.  The
    zero [time.Time] is 0. *)
Class TimeText := {
  FormatTime : Z -> option string;
  ParseTime : string -> option Z
}.

Class TimeTextLaws (T : TimeText) := {
  Parse_Format : forall t s, FormatTime t = Some s -> ParseTime s = Some t
}.

(** ** Data *)

Record account := mkAccount {
  a_id : string;
  a_url : string;
  a_key : ACMEKey;
  a_jwk : option json;
  a_contact : list string;
  a_status : string
}.

Record challenge := mkChallenge {
  c_id : string;
  c_typ : string;
  c_token : string;
  c_status : string;
  c_authzID : string
}.

Record authorization := mkAuthz {
  z_id : string;
  z_orderID : string;
  z_domain : string;
  z_status : string;
  z_challenges : list string;
  z_createdAt : Z
}.

Record order := mkOrder {
  o_id : string;
  o_accountURL : string;
  o_domains : list string;
  o_authzIDs : list string;
  o_status : string;
  o_authMode : string;
  o_certID : string;
  o_replaces : string;
  o_createdAt : Z
}.

Record ariWindow := mkWindow { w_notBefore : Z; w_notAfter : Z }.

Record issuedCert := mkIssued {
  i_accountURL : string;
  i_keyThumb : string;
  i_serial : string;
  i_certID : string
}.

Record revocation := mkRevocation { v_serial : string; v_reason : Z; v_at : Z }.

Definition statusPending : string := "pending".
Definition statusReady : string := "ready".
Definition statusValid : string := "valid".

Definition set_ch_status (st : string) (c : challenge) : challenge :=
  mkChallenge (c_id c) (c_typ c) (c_token c) st (c_authzID c).

Definition set_az_status (st : string) (z : authorization) : authorization :=
  mkAuthz (z_id z) (z_orderID z) (z_domain z) st (z_challenges z) (z_createdAt z).

Definition set_o_status (st : string) (o : order) : order :=
  mkOrder (o_id o) (o_accountURL o) (o_domains o) (o_authzIDs o) st (o_authMode o) (o_certID o) (o_replaces o) (o_createdAt o).

Definition set_o_cert (cert st : string) (o : order) : order :=
  mkOrder (o_id o) (o_accountURL o) (o_domains o) (o_authzIDs o) st (o_authMode o) cert (o_replaces o) (o_createdAt o).

(** The maps of the server that the log rebuilds. *)
Record View := mkView {
  accounts : gmap string account;
  byKey : gmap string string;
  orders : gmap string order;
  authzs : gmap string authorization;
  challenges : gmap string challenge;
  certs : gmap string string;
  issued : gmap string issuedCert;
  revoked : gmap string revocation;
  ariWindows : gmap string ariWindow;
  earlyRenew : gset string;
  seq : Z
}.

Definition emptyView : View := mkView ∅ ∅ ∅ ∅ ∅ ∅ ∅ ∅ ∅ ∅ 0.

Definition with_accounts (a : gmap string account) (k : gmap string string) (v : View) : View :=
  mkView a k (orders v) (authzs v) (challenges v) (certs v) (issued v) (revoked v) (ariWindows v) (earlyRenew v) (seq v).
Definition with_orders (o : gmap string order) (v : View) : View :=
  mkView (accounts v) (byKey v) o (authzs v) (challenges v) (certs v) (issued v) (revoked v) (ariWindows v) (earlyRenew v) (seq v).
Definition with_authzs (z : gmap string authorization) (v : View) : View :=
  mkView (accounts v) (byKey v) (orders v) z (challenges v) (certs v) (issued v) (revoked v) (ariWindows v) (earlyRenew v) (seq v).
Definition with_challenges (c : gmap string challenge) (v : View) : View :=
  mkView (accounts v) (byKey v) (orders v) (authzs v) c (certs v) (issued v) (revoked v) (ariWindows v) (earlyRenew v) (seq v).
Definition with_certs (c : gmap string string) (i : gmap string issuedCert) (w : gmap string ariWindow) (v : View) : View :=
  mkView (accounts v) (byKey v) (orders v) (authzs v) (challenges v) c i (revoked v) w (earlyRenew v) (seq v).
Definition with_revoked (r : gmap string revocation) (v : View) : View :=
  mkView (accounts v) (byKey v) (orders v) (authzs v) (challenges v) (certs v) (issued v) r (ariWindows v) (earlyRenew v) (seq v).
Definition with_early (e : gset string) (v : View) : View :=
  mkView (accounts v) (byKey v) (orders v) (authzs v) (challenges v) (certs v) (issued v) (revoked v) (ariWindows v) e (seq v).
Definition with_seq (n : Z) (v : View) : View :=
  mkView (accounts v) (byKey v) (orders v) (authzs v) (challenges v) (certs v) (issued v) (revoked v) (ariWindows v) (earlyRenew v) n.

(** ** Event payloads *)

Definition acmeEventPrefix : string := "acme.".
Definition acmeEventAccountUpserted : string := "acme.account.upserted".
Definition acmeEventOrderCreated : string := "acme.order.created".
Definition acmeEventChallengeValidated : string := "acme.challenge.validated".
Definition acmeEventCertificateIssued : string := "acme.certificate.issued".
Definition acmeEventCertificateRevoked : string := "acme.certificate.revoked".
Definition acmeEventEarlyRenewalMarked : string := "acme.ari.early_renewal_marked".

Record acmeAccountEvent := mkAccountEv {
  ae_Seq : Z; ae_ID : string; ae_URL : string; ae_JWK : option json; ae_Contact : list string; ae_Status : string
}.

Record acmeOrderState := mkOrderSt {
  os_ID : string; os_AccountURL : string; os_Domains : list string; os_AuthzIDs : list string; os_Status : string;
  os_AuthMode : string; os_CertID : string; os_Replaces : string; os_CreatedAt : Z
}.

Record acmeChallengeState := mkChallengeSt {
  cs_ID : string; cs_Type : string; cs_Token : string; cs_Status : string; cs_AuthzID : string
}.

Record acmeAuthorizationState := mkAuthzSt {
  zs_ID : string; zs_OrderID : string; zs_Domain : string; zs_Status : string; zs_CreatedAt : Z;
  zs_Challenges : list acmeChallengeState
}.

Record acmeOrderCreatedEvent := mkOrderEv {
  oe_Seq : Z; oe_Order : acmeOrderState; oe_Authorizations : list acmeAuthorizationState
}.

Record acmeChallengeValidatedEvent := mkChallengeEv {
  ce_ChallengeID : string; ce_AuthzID : string; ce_OrderID : string; ce_ChallengeStatus : string;
  ce_AuthzStatus : string; ce_OrderStatus : string
}.

Record acmeCertificateIssuedEvent := mkCertEv {
  ie_Seq : Z; ie_OrderID : string; ie_CertID : string; ie_CertificatePEM : string; ie_ARICertID : string;
  ie_NotBefore : Z; ie_NotAfter : Z; ie_Fingerprint : string; ie_Issued : issuedCert
}.

Record acmeCertificateRevokedEvent := mkRevokedEv {
  re_Fingerprint : string; re_Serial : string; re_Reason : Z; re_At : Z
}.

Definition account_fields : list field := [
  mkField "seq" KInt true; mkField "id" KStr false; mkField "url" KStr false; mkField "jwk" KRaw false;
  mkField "contact" KStrs true; mkField "status" KStr false].

Definition order_fields : list field := [
  mkField "id" KStr false; mkField "account_url" KStr false; mkField "domains" KStrs false;
  mkField "authz_ids" KStrs false; mkField "status" KStr false; mkField "auth_mode" KStr true;
  mkField "cert_id" KStr true; mkField "replaces" KStr true; mkField "created_at" KRaw false].

Definition authz_fields : list field := [
  mkField "id" KStr false; mkField "order_id" KStr false; mkField "domain" KStr false;
  mkField "status" KStr false; mkField "created_at" KRaw false; mkField "challenges" KList false].

Definition challenge_fields : list field := [
  mkField "id" KStr false; mkField "type" KStr false; mkField "token" KStr false;
  mkField "status" KStr false; mkField "authz_id" KStr false].

Definition order_event_fields : list field := [
  mkField "seq" KInt true; mkField "order" KRaw false; mkField "authorizations" KList false].

Definition challenge_event_fields : list field := [
  mkField "challenge_id" KStr false; mkField "authz_id" KStr false; mkField "order_id" KStr false;
  mkField "challenge_status" KStr false; mkField "authz_status" KStr false; mkField "order_status" KStr true].

Definition issued_fields : list field := [
  mkField "account_url" KStr false; mkField "key_thumb" KStr true; mkField "serial" KStr true;
  mkField "cert_id" KStr false].

Definition cert_event_fields : list field := [
  mkField "seq" KInt true; mkField "order_id" KStr false; mkField "cert_id" KStr false;
  mkField "certificate_pem" KRaw false; mkField "ari_cert_id" KStr true; mkField "not_before" KRaw false;
  mkField "not_after" KRaw false; mkField "fingerprint" KStr true; mkField "issued" KRaw false].

Definition revoked_event_fields : list field := [
  mkField "fingerprint" KStr false; mkField "serial" KStr true; mkField "reason" KInt false; mkField "at" KRaw false].

Definition early_fields : list field := [mkField "cert_id" KStr false].

Definition int_at (vs : svals) (i : nat) : Z :=
  match vs !! i with Some (VInt n) => n | _ => 0 end.

Definition strs_at (vs : svals) (i : nat) : list string :=
  match vs !! i with Some (VStrs l) => l | _ => [] end.

Section Codec.
Context {T : TimeText}.

(** A [time.Time], a [[]byte] and a struct held by a raw field: an absent or null
    one is the zero value. *)
Definition time_of (j : option json) : option Z :=
  match j with
  | None | Some JNull => Some 0
  | Some (JStr s) => ParseTime s
  | Some _ => None
  end.

Definition bytes_of (j : option json) : option string :=
  match j with
  | None | Some JNull => Some ""
  | Some (JStr s) => DecodeString StdEncoding s
  | Some _ => None
  end.

Definition raw_doc (j : option json) : data := DJson (default JNull j).

Definition encode_account (p : acmeAccountEvent) : data :=
  encode_struct account_fields
    [VInt (ae_Seq p); VStr (ae_ID p); VStr (ae_URL p); VRaw (ae_JWK p); VStrs (ae_Contact p); VStr (ae_Status p)].

Definition decode_account (d : data) : option acmeAccountEvent :=
  vs ← decode_struct account_fields d;
  Some (mkAccountEv (int_at vs 0) (str_at vs 1) (str_at vs 2) (raw_at vs 3) (strs_at vs 4) (str_at vs 5)).

Definition encode_order (o : acmeOrderState) : option json :=
  t ← FormatTime (os_CreatedAt o);
  Some (JObj (encode_object order_fields
    [VStr (os_ID o); VStr (os_AccountURL o); VStrs (os_Domains o); VStrs (os_AuthzIDs o); VStr (os_Status o);
     VStr (os_AuthMode o); VStr (os_CertID o); VStr (os_Replaces o); VRaw (Some (JStr t))])).

Definition decode_order (d : data) : option acmeOrderState :=
  vs ← decode_struct order_fields d;
  t ← time_of (raw_at vs 8);
  Some (mkOrderSt (str_at vs 0) (str_at vs 1) (strs_at vs 2) (strs_at vs 3) (str_at vs 4) (str_at vs 5)
          (str_at vs 6) (str_at vs 7) t).

Definition encode_challenge (c : acmeChallengeState) : json :=
  JObj (encode_object challenge_fields
    [VStr (cs_ID c); VStr (cs_Type c); VStr (cs_Token c); VStr (cs_Status c); VStr (cs_AuthzID c)]).

Definition decode_challenge (j : json) : option acmeChallengeState :=
  vs ← decode_struct challenge_fields (DJson j);
  Some (mkChallengeSt (str_at vs 0) (str_at vs 1) (str_at vs 2) (str_at vs 3) (str_at vs 4)).

Definition encode_authz (z : acmeAuthorizationState) : option json :=
  t ← FormatTime (zs_CreatedAt z);
  Some (JObj (encode_object authz_fields
    [VStr (zs_ID z); VStr (zs_OrderID z); VStr (zs_Domain z); VStr (zs_Status z); VRaw (Some (JStr t));
     VList (encode_challenge <$> zs_Challenges z)])).

Definition decode_authz (j : json) : option acmeAuthorizationState :=
  vs ← decode_struct authz_fields (DJson j);
  t ← time_of (raw_at vs 4);
  cs ← mapM decode_challenge (list_at vs 5);
  Some (mkAuthzSt (str_at vs 0) (str_at vs 1) (str_at vs 2) (str_at vs 3) t cs).

Definition encode_order_event (p : acmeOrderCreatedEvent) : option data :=
  o ← encode_order (oe_Order p);
  zs ← mapM encode_authz (oe_Authorizations p);
  Some (encode_struct order_event_fields [VInt (oe_Seq p); VRaw (Some o); VList zs]).

Definition decode_order_event (d : data) : option acmeOrderCreatedEvent :=
  vs ← decode_struct order_event_fields d;
  o ← decode_order (raw_doc (raw_at vs 1));
  zs ← mapM decode_authz (list_at vs 2);
  Some (mkOrderEv (int_at vs 0) o zs).

Definition encode_challenge_event (p : acmeChallengeValidatedEvent) : data :=
  encode_struct challenge_event_fields
    [VStr (ce_ChallengeID p); VStr (ce_AuthzID p); VStr (ce_OrderID p); VStr (ce_ChallengeStatus p);
     VStr (ce_AuthzStatus p); VStr (ce_OrderStatus p)].

Definition decode_challenge_event (d : data) : option acmeChallengeValidatedEvent :=
  vs ← decode_struct challenge_event_fields d;
  Some (mkChallengeEv (str_at vs 0) (str_at vs 1) (str_at vs 2) (str_at vs 3) (str_at vs 4) (str_at vs 5)).

Definition encode_issued (i : issuedCert) : json :=
  JObj (encode_object issued_fields
    [VStr (i_accountURL i); VStr (i_keyThumb i); VStr (i_serial i); VStr (i_certID i)]).

Definition decode_issued (d : data) : option issuedCert :=
  vs ← decode_struct issued_fields d;
  Some (mkIssued (str_at vs 0) (str_at vs 1) (str_at vs 2) (str_at vs 3)).

Definition encode_cert_event (p : acmeCertificateIssuedEvent) : option data :=
  nb ← FormatTime (ie_NotBefore p);
  na ← FormatTime (ie_NotAfter p);
  Some (encode_struct cert_event_fields
    [VInt (ie_Seq p); VStr (ie_OrderID p); VStr (ie_CertID p);
     VRaw (Some (JStr (EncodeToString StdEncoding (ie_CertificatePEM p)))); VStr (ie_ARICertID p);
     VRaw (Some (JStr nb)); VRaw (Some (JStr na)); VStr (ie_Fingerprint p); VRaw (Some (encode_issued (ie_Issued p)))]).

Definition decode_cert_event (d : data) : option acmeCertificateIssuedEvent :=
  vs ← decode_struct cert_event_fields d;
  pem ← bytes_of (raw_at vs 3);
  nb ← time_of (raw_at vs 5);
  na ← time_of (raw_at vs 6);
  i ← decode_issued (raw_doc (raw_at vs 8));
  Some (mkCertEv (int_at vs 0) (str_at vs 1) (str_at vs 2) pem (str_at vs 4) nb na (str_at vs 7) i).

Definition encode_revoked_event (p : acmeCertificateRevokedEvent) : option data :=
  t ← FormatTime (re_At p);
  Some (encode_struct revoked_event_fields
    [VStr (re_Fingerprint p); VStr (re_Serial p); VInt (re_Reason p); VRaw (Some (JStr t))]).

Definition decode_revoked_event (d : data) : option acmeCertificateRevokedEvent :=
  vs ← decode_struct revoked_event_fields d;
  t ← time_of (raw_at vs 3);
  Some (mkRevokedEv (str_at vs 0) (str_at vs 1) (int_at vs 2) t).

Definition encode_early (certID : string) : data := encode_struct early_fields [VStr certID].

Definition decode_early (d : data) : option string :=
  vs ← decode_struct early_fields d; Some (str_at vs 0).

(** *** What is written is read back *)

Ltac names := unfold names_apart; apply (bool_decide_unpack _); by vm_compute.

Ltac fits_all :=
  repeat (apply Forall2_cons; split; [cbn; first [exact I | assumption | right; first [assumption | by eexists]]|]);
  constructor.

Ltac codec := rewrite decode_encode; [cbn|names|fits_all].

Lemma account_roundtrip p :
  int64 (ae_Seq p) = true -> is_Some (ae_JWK p) -> decode_account (encode_account p) = Some p.
Proof.
  intros Hs Hj. unfold decode_account, encode_account.
  codec. by destruct p.
Qed.

Lemma early_roundtrip c : decode_early (encode_early c) = Some c.
Proof. unfold decode_early, encode_early. by codec. Qed.

Lemma challenge_event_roundtrip p : decode_challenge_event (encode_challenge_event p) = Some p.
Proof. unfold decode_challenge_event, encode_challenge_event. codec. by destruct p. Qed.

Lemma challenge_roundtrip c : decode_challenge (encode_challenge c) = Some c.
Proof.
  unfold decode_challenge, encode_challenge.
  change (DJson (JObj (encode_object ?f ?v))) with (encode_struct f v). codec. by destruct c.
Qed.

Lemma issued_roundtrip i : decode_issued (DJson (encode_issued i)) = Some i.
Proof.
  unfold decode_issued, encode_issued.
  change (DJson (JObj (encode_object ?f ?v))) with (encode_struct f v). codec. by destruct i.
Qed.

Context `{!TimeTextLaws T}.

Lemma order_roundtrip o j : encode_order o = Some j -> decode_order (DJson j) = Some o.
Proof.
  unfold decode_order, encode_order. intros H. destruct (FormatTime (os_CreatedAt o)) as [t|] eqn:Ht; [|done].
  cbn [mbind option_bind] in H. apply (inj Some) in H as <-.
  change (DJson (JObj (encode_object ?f ?v))) with (encode_struct f v).
  rewrite decode_encode; [|names|fits_all].
  cbn. rewrite (Parse_Format _ _ Ht). by destruct o.
Qed.

Lemma mapM_roundtrip {A B} (enc : A -> option B) (dec : B -> option A) l k :
  (forall a b, enc a = Some b -> dec b = Some a) -> mapM enc l = Some k -> mapM dec k = Some l.
Proof.
  intros H Hm. apply mapM_Some in Hm. apply mapM_Some_2.
  induction Hm as [|a b l k Hab _ IH]; constructor; eauto.
Qed.

Lemma authz_roundtrip z j : encode_authz z = Some j -> decode_authz j = Some z.
Proof.
  unfold decode_authz, encode_authz. intros H. destruct (FormatTime (zs_CreatedAt z)) as [t|] eqn:Ht; [|done].
  cbn [mbind option_bind] in H. apply (inj Some) in H as <-.
  change (DJson (JObj (encode_object ?f ?v))) with (encode_struct f v).
  rewrite decode_encode; [|names|fits_all].
  cbn. rewrite (Parse_Format _ _ Ht). cbn.
  rewrite (mapM_roundtrip (fun c => Some (encode_challenge c)) _ (zs_Challenges z)).
  - by destruct z.
  - intros a b [= <-]. apply challenge_roundtrip.
  - apply mapM_Some_2, Forall2_fmap_r, Forall_Forall2_diag, Forall_true. done.
Qed.

Lemma order_event_roundtrip p d :
  int64 (oe_Seq p) = true -> encode_order_event p = Some d -> decode_order_event d = Some p.
Proof.
  unfold decode_order_event, encode_order_event. intros Hs H.
  destruct (encode_order (oe_Order p)) as [o|] eqn:Ho; [|done]. cbn [mbind option_bind] in H.
  destruct (mapM encode_authz _) as [zs|] eqn:Hz; [|done]. cbn [mbind option_bind] in H. apply (inj Some) in H as <-.
  rewrite decode_encode; [|names|fits_all].
  cbn [mbind option_bind int_at raw_at list_at lookup list_lookup].
  unfold raw_doc. cbn [default from_option id].
  rewrite (order_roundtrip _ _ Ho). cbn.
  rewrite (mapM_roundtrip _ _ _ _ authz_roundtrip Hz). cbn. by destruct p.
Qed.

Lemma cert_event_roundtrip p d :
  int64 (ie_Seq p) = true -> encode_cert_event p = Some d -> decode_cert_event d = Some p.
Proof.
  unfold decode_cert_event, encode_cert_event. intros Hs H.
  destruct (FormatTime (ie_NotBefore p)) as [nb|] eqn:Hb; [|done]. cbn [mbind option_bind] in H.
  destruct (FormatTime (ie_NotAfter p)) as [na|] eqn:Ha; [|done]. cbn [mbind option_bind] in H. apply (inj Some) in H as <-.
  rewrite decode_encode; [|names|fits_all].
  cbn -[DecodeString EncodeToString encode_issued decode_issued].
  rewrite DecodeString_EncodeToString by eauto with trst. cbn -[encode_issued decode_issued].
  rewrite (Parse_Format _ _ Hb), (Parse_Format _ _ Ha). cbn -[encode_issued decode_issued].
  unfold raw_doc. cbn [default from_option id]. rewrite issued_roundtrip. cbn. by destruct p.
Qed.

Lemma revoked_event_roundtrip p d :
  int64 (re_Reason p) = true -> encode_revoked_event p = Some d -> decode_revoked_event d = Some p.
Proof.
  unfold decode_revoked_event, encode_revoked_event. intros Hs H.
  destruct (FormatTime (re_At p)) as [t|] eqn:Ht; [|done]. cbn [mbind option_bind] in H. apply (inj Some) in H as <-.
  rewrite decode_encode; [|names|fits_all].
  cbn. rewrite (Parse_Format _ _ Ht). by destruct p.
Qed.

End Codec.

(** ** Applying events *)

(** The texts of the errors are not modelled. *)
Inductive AErr :=
| StateTenantRequired
| StateLogRequired
| NoTenantConfigured
| EncodeEvent (typ : string)
| AppendEvent (typ : string) (e : evError)
| UnsupportedSchema (typ : string) (version : Z)
| DecodeEvent (typ : string)
| MalformedAccount
| AccountKeyReplay (e : JoseErr)
| MalformedOrder
| MalformedAuthorization
| MalformedChallenge
| ChallengeMissingState
| MalformedCertificate
| CertificateMissingOrder
| MalformedRevocation
| MalformedEarlyRenewal.

Definition ACMEAuthModePublicTrust : string := "public_trust".
Definition ACMEAuthModeTrustAuthenticated : string := "trust_authenticated".

(** [profile.NormalizeACMEAuthMode]. *)
Definition NormalizeACMEAuthMode (mode : string) : option string :=
  let m := GoStrings.TrimSpace mode in
  if String.eqb m "" then Some ACMEAuthModePublicTrust
  else if String.eqb m ACMEAuthModePublicTrust || String.eqb m ACMEAuthModeTrustAuthenticated then Some m
  else None.

Definition profileACMEAuthMode (raw : string) : string :=
  default ACMEAuthModePublicTrust (NormalizeACMEAuthMode raw).

(** [if s == "" { s = d }] *)
Definition or_default (s d : string) : string := if String.eqb s "" then d else s.

Definition rememberSeq (n : Z) (v : View) : View := if seq v <? n then with_seq n v else v.

(** A call changes the view and may fail after it has. *)
Definition AM (A : Type) : Type := SE.M View AErr A.

Section Apply.
Context {J : JoseCrypto} {T : TimeText}.

Definition applyAccountEventLocked (p : acmeAccountEvent) : AM unit := fun v =>
  if String.eqb (ae_URL p) "" || String.eqb (ae_ID p) "" || bool_decide (ae_JWK p = None) then (Err MalformedAccount, v) else
  match ACMEKeyFromJWK (ae_JWK p) with
  | Err e => (Err (AccountKeyReplay e), v)
  | Ok key =>
      let oldID := match accounts v !! ae_URL p with Some a => a_id a | None => "" end in
      let acct := mkAccount (ae_ID p) (ae_URL p) key (ae_JWK p) (ae_Contact p) (or_default (ae_Status p) statusValid) in
      let bk := if negb (String.eqb oldID "") && negb (String.eqb oldID (ae_ID p)) then delete oldID (byKey v) else byKey v in
      (Ok tt, rememberSeq (ae_Seq p) (with_accounts (<[ae_URL p := acct]> (accounts v)) (<[ae_ID p := ae_URL p]> bk) v))
  end.

Definition order_of (p : acmeOrderState) : order :=
  mkOrder (os_ID p) (os_AccountURL p) (os_Domains p) (os_AuthzIDs p) (or_default (os_Status p) statusPending)
    (profileACMEAuthMode (os_AuthMode p)) (os_CertID p) (os_Replaces p) (os_CreatedAt p).

Definition challenge_of (p : acmeChallengeState) : challenge :=
  mkChallenge (cs_ID p) (cs_Type p) (cs_Token p) (or_default (cs_Status p) statusPending) (cs_AuthzID p).

(** The inner loop: the challenges of an authorization. *)
Fixpoint apply_challenges (l : list acmeChallengeState) : AM unit :=
  match l with
  | [] => SE.ret tt
  | c :: l' => fun v =>
      if String.eqb (cs_ID c) "" || String.eqb (cs_AuthzID c) "" then (Err MalformedChallenge, v) else
      apply_challenges l' (with_challenges (<[cs_ID c := challenge_of c]> (challenges v)) v)
  end.

Definition authz_of (p : acmeAuthorizationState) : authorization :=
  mkAuthz (zs_ID p) (zs_OrderID p) (zs_Domain p) (or_default (zs_Status p) statusPending)
    (cs_ID <$> zs_Challenges p) (zs_CreatedAt p).

(** The outer loop. *)
Fixpoint apply_authzs (l : list acmeAuthorizationState) : AM unit :=
  match l with
  | [] => SE.ret tt
  | z :: l' => fun v =>
      if String.eqb (zs_ID z) "" || String.eqb (zs_OrderID z) "" then (Err MalformedAuthorization, v) else
      match apply_challenges (zs_Challenges z) v with
      | (Err e, v1) => (Err e, v1)
      | (Ok _, v1) => apply_authzs l' (with_authzs (<[zs_ID z := authz_of z]> (authzs v1)) v1)
      end
  end.

Definition applyOrderCreatedEventLocked (p : acmeOrderCreatedEvent) : AM unit := fun v =>
  let o := oe_Order p in
  if String.eqb (os_ID o) "" || String.eqb (os_AccountURL o) "" then (Err MalformedOrder, v) else
  match apply_authzs (oe_Authorizations p) (with_orders (<[os_ID o := order_of o]> (orders v)) v) with
  | (Err e, v1) => (Err e, v1)
  | (Ok _, v1) => (Ok tt, rememberSeq (oe_Seq p) v1)
  end.

Definition applyChallengeValidatedEventLocked (p : acmeChallengeValidatedEvent) : AM unit := fun v =>
  match challenges v !! ce_ChallengeID p, authzs v !! ce_AuthzID p with
  | Some ch, Some az =>
      let v1 := with_challenges (<[ce_ChallengeID p := set_ch_status (or_default (ce_ChallengeStatus p) statusValid) ch]> (challenges v)) v in
      let v2 := with_authzs (<[ce_AuthzID p := set_az_status (or_default (ce_AuthzStatus p) statusValid) az]> (authzs v)) v1 in
      (Ok tt,
       if negb (String.eqb (ce_OrderID p) "") && negb (String.eqb (ce_OrderStatus p) "") then
         match orders v !! ce_OrderID p with
         | Some o => with_orders (<[ce_OrderID p := set_o_status (ce_OrderStatus p) o]> (orders v)) v2
         | None => v2
         end
       else v2)
  | _, _ => (Err ChallengeMissingState, v)
  end.

Definition applyCertificateIssuedEventLocked (p : acmeCertificateIssuedEvent) : AM unit := fun v =>
  if String.eqb (ie_OrderID p) "" || String.eqb (ie_CertID p) "" then (Err MalformedCertificate, v) else
  match orders v !! ie_OrderID p with
  | None => (Err CertificateMissingOrder, v)
  | Some o =>
      let v1 := with_orders (<[ie_OrderID p := set_o_cert (ie_CertID p) statusValid o]> (orders v)) v in
      let ari := if String.eqb (ie_ARICertID p) "" then ariWindows v
                 else <[ie_ARICertID p := mkWindow (ie_NotBefore p) (ie_NotAfter p)]> (ariWindows v) in
      let iss := if String.eqb (ie_Fingerprint p) "" then issued v
                 else <[ie_Fingerprint p := ie_Issued p]> (issued v) in
      (Ok tt, rememberSeq (ie_Seq p) (with_certs (<[ie_CertID p := ie_CertificatePEM p]> (certs v)) iss ari v1))
  end.

Definition applyCertificateRevokedEventLocked (p : acmeCertificateRevokedEvent) : AM unit := fun v =>
  if String.eqb (re_Fingerprint p) "" then (Err MalformedRevocation, v) else
  (Ok tt, with_revoked (<[re_Fingerprint p := mkRevocation (re_Serial p) (re_Reason p) (re_At p)]> (revoked v)) v).

Definition applyEarlyRenewalEventLocked (certID : string) : AM unit := fun v =>
  if String.eqb certID "" then (Err MalformedEarlyRenewal, v) else
  (Ok tt, with_early ({[certID]} ∪ earlyRenew v) v).

(** Decode and apply, or fail. *)
Definition decoded {A} (typ : string) (d : option A) (k : A -> AM unit) : AM unit :=
  match d with
  | Some p => k p
  | None => SE.fail (DecodeEvent typ)
  end.

Definition applyStateEventLocked (ev : Event) : AM unit :=
  let typ := ev_Type ev in
  if negb (ev_SchemaVersion ev =? DefaultSchemaVersion) then SE.fail (UnsupportedSchema typ (ev_SchemaVersion ev))
  else if String.eqb typ acmeEventAccountUpserted then decoded typ (decode_account (ev_Data ev)) applyAccountEventLocked
  else if String.eqb typ acmeEventOrderCreated then decoded typ (decode_order_event (ev_Data ev)) applyOrderCreatedEventLocked
  else if String.eqb typ acmeEventChallengeValidated then
    decoded typ (decode_challenge_event (ev_Data ev)) applyChallengeValidatedEventLocked
  else if String.eqb typ acmeEventCertificateIssued then
    decoded typ (decode_cert_event (ev_Data ev)) applyCertificateIssuedEventLocked
  else if String.eqb typ acmeEventCertificateRevoked then
    decoded typ (decode_revoked_event (ev_Data ev)) applyCertificateRevokedEventLocked
  else if String.eqb typ acmeEventEarlyRenewalMarked then decoded typ (decode_early (ev_Data ev)) applyEarlyRenewalEventLocked
  else SE.ret tt.

(** The function [WithStateLog] hands to [Replay]. *)
Definition replay_fn (tenantID : string) (ev : Event) : AM unit :=
  if negb (String.eqb (ev_TenantID ev) tenantID) || negb (GoStrings.HasPrefix (ev_Type ev) acmeEventPrefix) then SE.ret tt
  else applyStateEventLocked ev.

Context {ES : EventStream} {R : Router}.

(** Attaching the log rebuilds the view; an error leaves no server. *)
Definition WithStateLog (tenantID : string) (log : option Stream) (v : View) : result AErr View :=
  if String.eqb tenantID "" then Err StateTenantRequired else
  match log with
  | None => Err StateLogRequired
  | Some st =>
      match Replay (replay_fn tenantID) 1 st v with
      | (Ok _, v') => Ok v'
      | (Err e, _) => Err e
      end
  end.

(** [stateTenantID] is the tenant of the attached log, if any; [data] is what
    [json.Marshal] gave. *)
Definition appendStateEventLocked (stateLog : option string) (now : Z) (nuid typ : string) (payload : option data)
    (st : Stream) : result AErr unit * Stream :=
  match stateLog with
  | None => (Ok tt, st)
  | Some tenantID =>
      if String.eqb tenantID "" then (Err NoTenantConfigured, st) else
      match payload with
      | None => (Err (EncodeEvent typ), st)
      | Some d =>
          match Append now nuid None (mkEvent "" typ tenantID 0 d 0 None 0) st with
          | (Ok _, st') => (Ok tt, st')
          | (Err e, st') => (Err (AppendEvent typ e), st')
          end
      end
  end.

End Apply.

(** ** Making payloads *)

Definition accountEventFrom (a : account) (n : Z) : acmeAccountEvent :=
  mkAccountEv n (a_id a) (a_url a) (a_jwk a) (a_contact a) (a_status a).

Definition challengeState (c : challenge) : acmeChallengeState :=
  mkChallengeSt (c_id c) (c_typ c) (c_token c) (c_status c) (c_authzID c).

(** An authorization that is being created comes with its challenge objects. *)
Definition authzState (z : authorization) (cs : list challenge) : acmeAuthorizationState :=
  mkAuthzSt (z_id z) (z_orderID z) (z_domain z) (z_status z) (z_createdAt z) (challengeState <$> cs).

Definition orderState (o : order) : acmeOrderState :=
  mkOrderSt (o_id o) (o_accountURL o) (o_domains o) (o_authzIDs o) (o_status o) (o_authMode o) (o_certID o)
    (o_replaces o) (o_createdAt o).

Definition orderCreatedEventFrom (o : order) (zs : list (authorization * list challenge)) (n : Z) : acmeOrderCreatedEvent :=
  mkOrderEv n (orderState o) ((fun p => authzState p.1 p.2) <$> zs).

(** [certinfo] and [encoding/pem]. *)
Record Info := mkInfo { in_SHA256Fingerprint : string; in_NotBefore : Z; in_NotAfter : Z; in_SerialNumber : string }.

Class CertInfo := {
  pem_Decode : string -> option string;
  ARICertID : string -> option string;
  PublicKeyJWKThumbprint : string -> option string;
  Inspect : string -> option Info
}.

Definition certFingerprint {C : CertInfo} (der : string) : string :=
  match Inspect der with
  | Some info => in_SHA256Fingerprint info
  | None => ""
  end.

Definition certificateIssuedEventFrom {C : CertInfo} (orderID certID accountURL certificatePEM serial : string) (n : Z)
  : acmeCertificateIssuedEvent :=
  match pem_Decode certificatePEM with
  | None => mkCertEv n orderID certID certificatePEM "" 0 0 "" (mkIssued accountURL "" serial certID)
  | Some der =>
      let info := Inspect der in
      mkCertEv n orderID certID certificatePEM (default "" (ARICertID der))
        (match info with Some i => in_NotBefore i | None => 0 end)
        (match info with Some i => in_NotAfter i | None => 0 end)
        (certFingerprint der)
        (mkIssued accountURL (default "" (PublicKeyJWKThumbprint der))
           (match info with Some i => or_default serial (in_SerialNumber i) | None => serial end) certID)
  end.

Definition challengeValidatedEventFrom (ch : challenge) (az : authorization) (o : option order) (orderStatus : string)
  : acmeChallengeValidatedEvent :=
  match o with
  | Some o => mkChallengeEv (c_id ch) (z_id az) (o_id o) statusValid statusValid orderStatus
  | None => mkChallengeEv (c_id ch) (z_id az) (z_orderID az) statusValid statusValid ""
  end.

End AcmeState.
