(* ===== verification/AcmeParse.v ===== *)
(** * ACME request payloads and renewal information

    Models [src/internal/protocols/acme/parse.go], the identifiers and windows of
    [src/internal/protocols/ari/ari.go] and the body limit of
    [src/internal/protocols/bodylimit/bodylimit.go]. *)

From S2P Require Import Prelude Json Tenancy Base64.
Open Scope string_scope.
Open Scope list_scope.
Open Scope Z_scope.

Module AcmeParse.
Import Tenancy Base64.

(** ** bodylimit *)

Inductive ReadErr := ErrTooLarge | ErrRead.

(** A body is its bytes and whether reading it fails before its end. *)
Definition ReadAll (body : string) (broken : bool) (limit : Z) : result ReadErr string :=
  if limit <? 0 then Err ErrTooLarge else
  let read := String.substring 0 (Z.to_nat (limit + 1)) body in
  if broken && (Z.of_nat (String.length body) <=? limit) then Err ErrRead else
  if limit <? Z.of_nat (String.length read) then Err ErrTooLarge else Ok read.

(** ** ari *)

Record Window := mkWin { Start : Z; End_ : Z }.

Definition Split (s : string) (sep : ascii) : list string :=
  string_of_list_ascii <$> split_on sep [] (list_ascii_of_string s).

Inductive CertIDErr := CertIDMalformed | CertIDAKI | CertIDSerial | CertIDEmpty.

Definition ParseCertID (certID : string) : result CertIDErr (string * string) :=
  match Split certID "." with
  | [p0; p1] =>
      if String.eqb p0 "" || String.eqb p1 "" then Err CertIDMalformed else
      match DecodeString RawURLEncoding p0 with
      | None => Err CertIDAKI
      | Some akid =>
          match DecodeString RawURLEncoding p1 with
          | None => Err CertIDSerial
          | Some serial =>
              if String.eqb akid "" || String.eqb serial "" then Err CertIDEmpty else Ok (akid, serial)
          end
      end
  | _ => Err CertIDMalformed
  end.

Definition ValidCertID (certID : string) : bool := is_ok (ParseCertID certID).

(** Durations are nanoseconds; [Sub] saturates. *)
Definition minute : Z := 60000000000.
Definition hour : Z := 60 * minute.

Definition Sub (t u : Z) : Z := Z.max (- 2 ^ 63) (Z.min (2 ^ 63 - 1) (t - u)).

Definition laterOf (a b : Z) : Z := if b <? a then a else b.

Definition SuggestWindow (notBefore notAfter now : Z) (early : bool) : Window :=
  if early then mkWin (now - minute) (laterOf (now + hour) notAfter) else
  let lifetime := Sub notAfter notBefore in
  if lifetime <=? 0 then mkWin notBefore notAfter else
  mkWin (notAfter + Z.quot (- lifetime) 3) (notAfter + Z.quot (- lifetime) 6).

Definition RenewNow (w : Window) (now : Z) : bool := negb (now <? Start w).

(** ** Payloads *)

Record Identifier := mkIdent { id_Type : string; id_Value : string }.
Record OrderRequest := mkOrderReq { or_Identifiers : list Identifier; or_Replaces : string }.

Inductive ParseErr :=
| BadJSON
| NoIdentifiers
| IdentifierType (i : nat) (typ : string)
| IdentifierEmpty (i : nat)
| ReplacesInvalid
| NotBase64
| EmptyDER
| NegativeReason (n : Z)
| NoAccountURL
| NoOldKey.

Definition order_req_fields : list field := [mkField "identifiers" KList false; mkField "replaces" KStr false].
Definition ident_fields : list field := [mkField "type" KStr false; mkField "value" KStr false].

Fixpoint check_identifiers (i : nat) (l : list svals) : result ParseErr (list Identifier) :=
  match l with
  | [] => Ok []
  | vs :: l' =>
      if negb (String.eqb (str_at vs 0) "dns") then Err (IdentifierType i (str_at vs 0)) else
      if String.eqb (str_at vs 1) "" then Err (IdentifierEmpty i) else
      let? rest := check_identifiers (S i) l' in
      Ok (mkIdent (str_at vs 0) (str_at vs 1) :: rest)
  end.

Definition ParseOrderRequest (payload : data) : result ParseErr OrderRequest :=
  match decode_struct order_req_fields payload with
  | None => Err BadJSON
  | Some raw =>
      match mapM (fun j => decode_json ident_fields j) (list_at raw 0) with
      | None => Err BadJSON
      | Some ids =>
          match ids with
          | [] => Err NoIdentifiers
          | _ =>
              let? out := check_identifiers 0 ids in
              if negb (String.eqb (str_at raw 1) "") && negb (ValidCertID (str_at raw 1)) then Err ReplacesInvalid
              else Ok (mkOrderReq out (str_at raw 1))
          end
      end
  end.

Definition Domains (o : OrderRequest) : list string := id_Value <$> or_Identifiers o.

Definition der_of (s : string) : result ParseErr string :=
  match DecodeString RawURLEncoding s with
  | None => Err NotBase64
  | Some der => if String.eqb der "" then Err EmptyDER else Ok der
  end.

Definition ParseFinalizeRequest (payload : data) : result ParseErr string :=
  match decode_struct [mkField "csr" KStr false] payload with
  | None => Err BadJSON
  | Some raw => der_of (str_at raw 0)
  end.

Record RevokeRequest := mkRevokeReq { rr_CertDER : string; rr_Reason : Z }.

Definition revoke_req_fields : list field := [mkField "certificate" KStr false; mkField "reason" KPtrInt false].

Definition ptr_int_at (vs : svals) (i : nat) : option Z :=
  match vs !! i with Some (VPtrInt n) => n | _ => None end.

Definition ParseRevokeRequest (payload : data) : result ParseErr RevokeRequest :=
  match decode_struct revoke_req_fields payload with
  | None => Err BadJSON
  | Some raw =>
      let? der := der_of (str_at raw 0) in
      match ptr_int_at raw 1 with
      | None => Ok (mkRevokeReq der 0)
      | Some n => if n <? 0 then Err (NegativeReason n) else Ok (mkRevokeReq der n)
      end
  end.

Record KeyChangeInner := mkKeyChange { kc_Account : string; kc_OldKey : option json }.

Definition key_change_fields : list field := [mkField "account" KStr false; mkField "oldKey" KRaw false].

Definition ParseKeyChangeInner (payload : data) : result ParseErr KeyChangeInner :=
  match decode_struct key_change_fields payload with
  | None => Err BadJSON
  | Some raw =>
      let old := match raw !! 1%nat with Some (VRaw j) => j | _ => None end in
      if String.eqb (str_at raw 0) "" then Err NoAccountURL else
      if bool_decide (old = None) then Err NoOldKey else
      Ok (mkKeyChange (str_at raw 0) old)
  end.

(** ** Facts *)

Lemma check_identifiers_ok i l ids :
  check_identifiers i l = Ok ids -> length ids = length l /\ Forall (fun d => id_Type d = "dns" /\ id_Value d <> "") ids.
Proof.
  revert i ids. induction l as [|vs l IH]; intros i ids; cbn [check_identifiers]; [by intros [= <-]|].
  destruct (String.eqb_spec (str_at vs 0) "dns") as [E|]; [|done]. cbn [negb].
  destruct (String.eqb_spec (str_at vs 1) ""); [done|].
  destruct (check_identifiers (S i) l) as [rest|] eqn:Er; [|done]. cbn [res_bind]. intros [= <-].
  destruct (IH _ _ Er) as [Hl Hf]. split; [cbn; lia|]. by constructor.
Qed.

(** An accepted order names at least one DNS identifier, none of them empty. *)
Lemma ParseOrderRequest_ok p req :
  ParseOrderRequest p = Ok req ->
  or_Identifiers req <> [] /\ Forall (fun d => id_Type d = "dns" /\ id_Value d <> "") (or_Identifiers req).
Proof.
  unfold ParseOrderRequest. intros H. case_in H; [|done]. case_in H; [|done]. case_in H; [done|].
  destruct (check_identifiers 0 _) as [out|] eqn:E; [|done]. cbn [res_bind] in H.
  destruct (check_identifiers_ok _ _ _ E) as [Hl Hf].
  case_in H; [done|]. injection H as <-. cbn. split; [|done]. by intros ->.
Qed.

Lemma decode_object_int64 fs o vs i n :
  decode_object fs o = Some vs -> vs !! i = Some (VPtrInt (Some n)) -> int64 n = true.
Proof.
  unfold decode_object. intros H Hi. apply mapM_Some in H.
  destruct (Forall2_lookup_r _ _ _ _ _ H Hi) as (f & _ & Hf). clear H Hi. revert Hf.
  assert (Hz : forall cur, (forall m, cur = VPtrInt (Some m) -> int64 m = true) ->
    field_value (f_kind f) (f_name f) cur o = Some (VPtrInt (Some n)) -> int64 n = true).
  { induction o as [|[k j] o IH]; cbn [field_value]; intros cur Hc H.
    - injection H as ->. by apply Hc.
    - case_in H; [|by eapply IH]. case_in H; [|done]. eapply IH; [|exact H].
      intros m ->. destruct (f_kind f), j; cbn in *; simplify_eq; try (by apply Hc);
        try (by repeat case_match; simplify_eq).
      by destruct (mapM as_string l). }
  apply Hz. by destruct (f_kind f).
Qed.

(** The reason code of an accepted revocation is a non-negative 64-bit integer. *)
Lemma ParseRevokeRequest_reason p req :
  ParseRevokeRequest p = Ok req -> 0 <= rr_Reason req /\ int64 (rr_Reason req) = true.
Proof.
  unfold ParseRevokeRequest. intros H. destruct (decode_struct _ p) as [raw|] eqn:Hd; [|done].
  destruct (der_of (str_at raw 0)) as [der|]; [|done]. cbn [res_bind] in H.
  destruct (ptr_int_at raw 1) as [n|] eqn:Hn; [|by injection H as <-].
  case_in H; [done|]. injection H as <-. cbn. split; [by apply Z.ltb_ge|].
  unfold ptr_int_at in Hn. destruct (raw !! 1%nat) as [v|] eqn:Hl; [|done]. destruct v; try done. subst.
  destruct p as [j|]; [|done]. destruct j; try done.
  - cbn in Hd. by simplify_eq.
  - by eapply decode_object_int64.
Qed.

(** The suggested window of a certificate lies within its validity, and starts
    before it ends. *)
Lemma SuggestWindow_within nb na now :
  nb < na -> let w := SuggestWindow nb na now false in nb <= Start w <= End_ w /\ End_ w <= na.
Proof.
  intros Hlt w. unfold w, SuggestWindow. set (l := Sub na nb).
  assert (Hl : 0 < l <= na - nb) by (unfold l, Sub; lia).
  destruct (Z.leb_spec l 0); [lia|]. cbn [Start End_].
  rewrite !Z.quot_opp_l by lia. rewrite !Z.quot_div_nonneg by lia.
  pose proof (Z.div_le_upper_bound l 3 l). pose proof (Z.div_le_upper_bound l 6 (l / 3)).
  pose proof (Z.div_pos l 3). pose proof (Z.div_pos l 6).
  assert (l / 6 <= l / 3) by (apply Z.div_le_compat_l; lia).
  assert (l / 3 <= l) by (apply Z.div_le_upper_bound; lia). lia.
Qed.

(** A certificate flagged for early renewal is due at once. *)
Lemma SuggestWindow_early nb na now : RenewNow (SuggestWindow nb na now true) now = true.
Proof. unfold RenewNow, SuggestWindow, minute. cbn [Start]. apply negb_true_iff, Z.ltb_ge. lia. Qed.

End AcmeParse.
