(* ===== verification/AcmeServer.v ===== *)
(** * The ACME server

    Models [src/internal/protocols/acme/acme.go]: the quotas, nonces and source
    budgets, the JWS wrapper and every handler behind it.

    A handler holds the mutex in one or two sections and calls the validator, the
    CA or the revocation hook between them.  A request in progress is a [flight],
    which says where it stands, and [advance] runs it to the end of its next
    section; the requests of a server interleave at these points.  The two unlocked
    reads of the source, of the status of the order in [finalize] and of the key of
    the account in [acceptChallenge], are taken in the section before and after
    them.  What the code outside answers (clock, random bytes, limiter, domain
    policy, DNS automation, validator, CA, hook) is the record [Env] of one call.

    A nil account pointer that is dereferenced panics; [net/http] recovers the
    panic, and a mutex that was held stays held. *)

From stdpp Require Import pretty.
From S2P Require Import Prelude Json Tenancy Events Base64 AcmeJose AcmeState AcmeParse.
Open Scope string_scope.
Open Scope list_scope.
Open Scope Z_scope.

Module AcmeServer.
Import SE Tenancy Events Base64 AcmeJose AcmeState AcmeParse.

(** ** Configuration *)

Record QuotaConfig := mkQuota {
  MaxNonces : Z;
  MaxAccounts : Z;
  MaxPendingOrders : Z;
  MaxPendingAuthorizations : Z;
  MaxPendingChallenges : Z;
  MaxPendingOrdersPerAccount : Z;
  MaxNewOrdersPerAccount : Z;
  MaxNewNoncesPerSource : Z;
  MaxNewAccountsPerSource : Z;
  MaxNewOrdersPerSource : Z;
  SourceWindow : Z;
  NonceTTL : Z;
  StateTTL : Z
}.

Definition DefaultQuotaConfig : QuotaConfig :=
  mkQuota 4096 2048 4096 8192 24576 128 100 120 20 60 (10 * minute) (10 * minute) (24 * hour).

Definition normalizeQuota (q : QuotaConfig) : QuotaConfig :=
  let d := DefaultQuotaConfig in
  let pick f := if f q <=? 0 then f d else f q in
  mkQuota (pick MaxNonces) (pick MaxAccounts) (pick MaxPendingOrders) (pick MaxPendingAuthorizations)
    (pick MaxPendingChallenges) (pick MaxPendingOrdersPerAccount) (pick MaxNewOrdersPerAccount)
    (pick MaxNewNoncesPerSource) (pick MaxNewAccountsPerSource) (pick MaxNewOrdersPerSource)
    (pick SourceWindow) (pick NonceTTL) (pick StateTTL).

(** [stateLog] is the tenant of the attached log.  A key of [eabKeys] whose locked
    buffer was destroyed has no bytes. *)
Record Config := mkConfig {
  quota : QuotaConfig;
  authMode : string;
  ExternalAccountRequired : bool;
  eabKeys : gmap string (option string);
  stateLog : option string;
  has_limiter : bool;
  has_dns01Automation : bool;
  has_dvPolicy : bool;
  has_revokeHook : bool
}.

Definition stateTenantID (cfg : Config) : string := default "" (stateLog cfg).

Inductive EABErr := EABKeyIDRequired | EABDuplicate (id : string) | EABShort (id : string) | EABLocked (id : string) | EABNoKeys.

(** The loop of [WithExternalAccountBindings]; [locked] is whether a key fits into
    locked memory. *)
Fixpoint eab_keys (locked : string -> bool) (keys : list (string * string)) (next : gmap string (option string))
  : result EABErr (gmap string (option string)) :=
  match keys with
  | [] => Ok next
  | (id, hmacKey) :: keys' =>
      let keyID := GoStrings.TrimSpace id in
      if String.eqb keyID "" then Err EABKeyIDRequired else
      if bool_decide (is_Some (next !! keyID)) then Err (EABDuplicate keyID) else
      if len hmacKey <? 16 then Err (EABShort keyID) else
      if negb (locked hmacKey) then Err (EABLocked keyID) else
      eab_keys locked keys' (<[keyID := Some hmacKey]> next)
  end.

Definition WithExternalAccountBindings (locked : string -> bool) (required : bool) (keys : list (string * string)) (cfg : Config)
  : result EABErr Config :=
  let? next := eab_keys locked keys ∅ in
  if required && bool_decide (next = ∅) then Err EABNoKeys else
  Ok (mkConfig (quota cfg) (authMode cfg) required next (stateLog cfg) (has_limiter cfg) (has_dns01Automation cfg)
        (has_dvPolicy cfg) (has_revokeHook cfg)).

(** ** The server *)

Record sourceBudget := mkBudget { b_resetAt : Z; b_newNonce : Z; b_newAccount : Z; b_newOrder : Z }.

(** [mu] is set when a panic has left the mutex held. *)
Record Server := mkServer {
  mu : bool;
  nonces : gmap string Z;
  sources : gmap string sourceBudget;
  view : View
}.

Definition New : Server := mkServer false ∅ ∅ emptyView.

Definition with_nonces (n : gmap string Z) (s : Server) : Server := mkServer (mu s) n (sources s) (view s).
Definition with_sources (b : gmap string sourceBudget) (s : Server) : Server := mkServer (mu s) (nonces s) b (view s).
Definition with_view (v : View) (s : Server) : Server := mkServer (mu s) (nonces s) (sources s) v.
Definition wedge (s : Server) : Server := mkServer true (nonces s) (sources s) (view s).

(** ** Requests *)

Inductive endpoint :=
| NewAccount | NewOrder | GetAuthz | AcceptChallenge | GetOrder | Finalize | GetCert | KeyChange | RevokeCert.

Record Request := mkRequest {
  r_TLS : bool;
  r_Host : string;
  r_RemoteAddr : string;
  r_endpoint : endpoint;
  r_PathID : string;
  r_Body : string;
  r_broken : bool
}.

Definition baseURL (r : Request) : string :=
  (if r_TLS r then "https" else "http") +:+ "://" +:+ r_Host r.

Definition sourceKey (r : Request) : string :=
  match GoStrings.SplitHost (list_ascii_of_string (r_RemoteAddr r)) with
  | Some ((_ :: _) as host) => string_of_list_ascii host
  | _ => if String.eqb (r_RemoteAddr r) "" then "unknown" else r_RemoteAddr r
  end.

Record IssueRequest := mkIssue { ir_CSR : string; ir_DNSNames : list string; ir_TTL : Z }.
Record Certificate := mkCert { CertificatePEM : string; Serial : string }.
Record RevocationRequest := mkRevReq { rv_Fingerprint : string; rv_Serial : string; rv_Reason : Z; rv_CertDER : string }.

(** What the code outside answers during one call. *)
Record Env := mkEnv {
  e_now : Z;
  e_nuid : string;
  e_nonce : string;
  e_token : string -> string;
  e_limiter : string -> Z -> result string (bool * Z);
  e_AllowedMethods : string -> result string (list string * bool);
  e_Present : string -> string -> string -> bool;
  e_Validate : string -> string -> string -> string -> bool;
  e_Issue : IssueRequest -> option Certificate;
  e_hook : RevocationRequest -> bool
}.

(** ** Replies *)

Inductive Reply :=
| Problem (status : Z) (typ : string) (retryAfter : option Z) (location : option string)
| JSON (status : Z) (location : option string) (doc : json)
| PEM (body : string)
| Empty (status : Z)
| Panic.

(** The [Replay-Nonce] header and the rest. *)
Definition Response : Type := option string * Reply.

Definition second : Z := 1000000000.

(** [math.Ceil(retryAfter.Seconds())]. *)
Definition retry_seconds (retryAfter : Z) : Z :=
  let retry := - ((- retryAfter) / second) in
  if retry <=? 0 then 60 else retry.

Definition problem (status : Z) (typ : string) : Reply := Problem status typ None None.
Definition rateLimitedAfter (retryAfter : Z) : Reply := Problem 429 "rateLimited" (Some (retry_seconds retryAfter)) None.
Definition rateLimited (cfg : Config) : Reply := rateLimitedAfter (SourceWindow (quota cfg)).

(** The members of a reply that is a Go map are not ordered. *)
Definition orderJSON (base : string) (o : order) (authzURLs : list string) : json :=
  JObj ([("status", JStr (o_status o));
         ("identifiers", JArr ((fun d => JObj [("type", JStr "dns"); ("value", JStr d)]) <$> o_domains o));
         ("authorizations", JArr (JStr <$> authzURLs));
         ("finalize", JStr (base +:+ "/acme/order/" +:+ o_id o +:+ "/finalize"))]
        ++ (if String.eqb (o_certID o) "" then [] else [("certificate", JStr (base +:+ "/acme/cert/" +:+ o_certID o))])).

Definition challengeJSON (base : string) (c : challenge) : json :=
  JObj [("type", JStr (c_typ c)); ("url", JStr (base +:+ "/acme/chal/" +:+ c_id c)); ("token", JStr (c_token c));
        ("status", JStr (c_status c))].

(** The objects of the listed challenges. *)
Definition authzJSON (base : string) (v : View) (z : authorization) : json :=
  JObj [("status", JStr (z_status z));
        ("identifier", JObj [("type", JStr "dns"); ("value", JStr (z_domain z))]);
        ("challenges", JArr (challengeJSON base <$> omap (fun id => challenges v !! id) (z_challenges z)))].

Definition orderAuthzURLs (base : string) (o : order) : list string :=
  (fun id => base +:+ "/acme/authz/" +:+ id) <$> o_authzIDs o.

(** ** Nonces, budgets, expiry *)

Definition ID (n : Z) : string := pretty n.

Definition nextID (v : View) : string * View := (ID (seq v + 1), with_seq (seq v + 1) v).

Definition mintNonce (cfg : Config) (env : Env) (s : Server) : option (string * Server) :=
  if MaxNonces (quota cfg) <=? Z.of_nat (size (nonces s)) then None
  else Some (e_nonce env, with_nonces (<[e_nonce env := e_now env]> (nonces s)) s).

Inductive budgetKind := BNonce | BAccount | BOrder.

Definition consumeSourceLocked (cfg : Config) (source : string) (kind : budgetKind) (now : Z) (s : Server) : bool * Server :=
  let q := quota cfg in
  let b := match sources s !! source with
           | Some b => if now <? b_resetAt b then b else mkBudget (now + SourceWindow q) 0 0 0
           | None => mkBudget (now + SourceWindow q) 0 0 0
           end in
  let put b := with_sources (<[source := b]> (sources s)) s in
  match kind with
  | BNonce =>
      if MaxNewNoncesPerSource q <=? b_newNonce b then (false, put b)
      else (true, put (mkBudget (b_resetAt b) (b_newNonce b + 1) (b_newAccount b) (b_newOrder b)))
  | BAccount =>
      if MaxNewAccountsPerSource q <=? b_newAccount b then (false, put b)
      else (true, put (mkBudget (b_resetAt b) (b_newNonce b) (b_newAccount b + 1) (b_newOrder b)))
  | BOrder =>
      if MaxNewOrdersPerSource q <=? b_newOrder b then (false, put b)
      else (true, put (mkBudget (b_resetAt b) (b_newNonce b) (b_newAccount b) (b_newOrder b + 1)))
  end.

(** Deletes the authorizations of an order with their challenges. *)
Definition delete_authz (v : View) (authzID : string) : View :=
  let v1 := match authzs v !! authzID with
            | Some az => with_challenges (fold_left (fun m id => delete id m) (z_challenges az) (challenges v)) v
            | None => v
            end in
  with_authzs (delete authzID (authzs v1)) v1.

Definition deleteOrderStateLocked (orderID : string) (v : View) : View :=
  match orders v !! orderID with
  | None => v
  | Some o =>
      let v1 := fold_left delete_authz (o_authzIDs o) v in
      with_orders (delete orderID (orders v1)) v1
  end.

Definition order_expired (cfg : Config) (now : Z) (o : order) : bool :=
  negb (String.eqb (o_status o) statusValid) && (StateTTL (quota cfg) <? Sub now (o_createdAt o)).

(** The orders that have expired, in some order of the map. *)
Definition expired_orders (cfg : Config) (now : Z) (v : View) : list string :=
  fst <$> List.filter (fun p => order_expired cfg now p.2) (map_to_list (orders v)).

Definition prune_view (cfg : Config) (now : Z) (v : View) : View :=
  fold_left (fun v id => deleteOrderStateLocked id v) (expired_orders cfg now v) v.

Definition nonce_live (cfg : Config) (now created : Z) : bool :=
  (created =? 0) || negb (NonceTTL (quota cfg) <? Sub now created).

Definition pruneExpiredLocked (cfg : Config) (now : Z) (s : Server) : Server :=
  mkServer (mu s)
    (filter (fun p => nonce_live cfg now p.2 = true) (nonces s))
    (filter (fun p => now < b_resetAt p.2) (sources s))
    (prune_view cfg now (view s)).

Definition pendingOrdersLocked (accountURL : string) (v : View) : Z :=
  Z.of_nat (size (filter (fun p => o_status p.2 <> statusValid /\ (accountURL = "" \/ o_accountURL p.2 = accountURL)) (orders v))).

Definition pendingAuthzsLocked (v : View) : Z :=
  Z.of_nat (size (filter (fun p => z_status p.2 <> statusValid) (authzs v))).

Definition authz_valid (v : View) (id : string) : bool :=
  match authzs v !! id with Some az => String.eqb (z_status az) statusValid | None => false end.

Definition pendingChallengesLocked (v : View) : Z :=
  Z.of_nat (size (filter (fun p => c_status p.2 <> statusValid /\ authz_valid v (c_authzID p.2) = false) (challenges v))).

Definition allAuthzValid (v : View) (o : order) : bool := forallb (authz_valid v) (o_authzIDs o).

(** ** Domain-validation methods *)

Definition ChallengeHTTP01 : string := "http-01".
Definition ChallengeDNS01 : string := "dns-01".
Definition ChallengeTLSALPN01 : string := "tls-alpn-01".

Definition knownMethod (m : string) : bool :=
  String.eqb m ChallengeHTTP01 || String.eqb m ChallengeDNS01 || String.eqb m ChallengeTLSALPN01.

Definition defaultChallengeTypes : list string := [ChallengeHTTP01; ChallengeDNS01; ChallengeTLSALPN01].

Inductive DVErr := DVLookup | DVUnknownMethod (m : string) | errDVMethodNotAllowed.

Fixpoint allowed_methods (methods : list string) : result DVErr (list string) :=
  match methods with
  | [] => Ok []
  | m :: l =>
      let method := GoStrings.TrimSpace m in
      if String.eqb method "" then allowed_methods l else
      if negb (knownMethod method) then Err (DVUnknownMethod method) else
      let? rest := allowed_methods l in Ok (method :: rest)
  end.

Definition challengeTypesForDomain (cfg : Config) (env : Env) (domain : string) : result DVErr (list string) :=
  if negb (has_dvPolicy cfg) then Ok defaultChallengeTypes else
  match e_AllowedMethods env domain with
  | Err _ => Err DVLookup
  | Ok (methods, constrained) =>
      if negb constrained then Ok defaultChallengeTypes else
      let? allowed := allowed_methods methods in
      match List.filter (fun m => existsb (String.eqb m) allowed) defaultChallengeTypes with
      | [] => Err errDVMethodNotAllowed
      | types => Ok types
      end
  end.

Definition challengeAllowed (cfg : Config) (env : Env) (domain challengeType : string) : result DVErr unit :=
  let? types := challengeTypesForDomain cfg env domain in
  if existsb (String.eqb challengeType) types then Ok tt else Err errDVMethodNotAllowed.

Definition writeDVPolicyProblem (e : DVErr) : Reply :=
  match e with
  | errDVMethodNotAllowed => problem 400 "unauthorized"
  | _ => problem 500 "serverInternal"
  end.

(** ** Effects

    The history of a server: the nonces it gave out and accepted, the validations
    that succeeded, the issuance and revocation requests it made. *)
Inductive Effect :=
| Minted (nonce : string)
| Accepted (nonce : string)
| Validated (chID typ domain token keyAuth : string)
| Presented (domain keyAuth : string)
| Retracted (domain keyAuth : string)
| Issuing (orderID : string) (req : IssueRequest) (acct : option string)
| Revoking (req : RevocationRequest).

(** Where a request stands. *)
Inductive flight :=
| FVerify (r : Request) (m : ACMEMessage) (acct : option string) (key : ACMEKey)
| FHandle (r : Request) (m : ACMEMessage) (acct : option string) (nonce : string)
| FValidate (r : Request) (acct : option string) (nonce : string) (ch : challenge) (domain : string)
| FAccept (r : Request) (nonce : string) (presented : option (string * string))
| FIssued (r : Request) (acct : option string) (nonce : string) (orderID : string) (cert : Certificate)
| FRevoke (nonce fp : string) (ic : issuedCert) (req : RevokeRequest) (revokedAt : Z).

Inductive outcome :=
| Next (f : flight)
| Done (resp : Response).

Definition maxJWSBody : Z := Z.shiftl 1 20.

Section Handlers.
Context {J : JoseCrypto} {T : TimeText} {C : CertInfo} {ES : EventStream} {R : Router}.
Variable cfg : Config.

(** The outcome of a section, the server and the log after it, and its effects. *)
Definition Out : Type := outcome * Server * Stream * list Effect.

Definition finish (nonce : option string) (r : Reply) (s : Server) (st : Stream) : Out := (Done (nonce, r), s, st, []).

Definition newNonce (env : Env) (r : Request) (s : Server) (st : Stream) : Out :=
  let now := e_now env in
  let s := pruneExpiredLocked cfg now s in
  let (ok, s) := consumeSourceLocked cfg (sourceKey r) BNonce now s in
  if negb ok then finish None (rateLimited cfg) s st else
  match mintNonce cfg env s with
  | None => finish None (rateLimited cfg) s st
  | Some (n, s) => (Done (Some n, Empty 204), s, st, [Minted n])
  end.

(** The first section of [jws]: parse, consume the nonce, find the key. *)
Definition jws_open (env : Env) (r : Request) (s : Server) (st : Stream) : Out :=
  match ReadAll (r_Body r) (r_broken r) maxJWSBody with
  | Err ErrTooLarge => finish None (problem 413 "malformed") s st
  | Err ErrRead => finish None (problem 400 "malformed") s st
  | Ok body =>
      match ParseACMEJWS (document body) with
      | Err _ => finish None (problem 400 "malformed") s st
      | Ok msg =>
          let s := pruneExpiredLocked cfg (e_now env) s in
          let p := Protected msg in
          match nonces s !! p_Nonce p with
          | None => finish None (problem 400 "badNonce") s st
          | Some _ =>
              let s := with_nonces (delete (p_Nonce p) (nonces s)) s in
              let used := [Accepted (p_Nonce p)] in
              if negb (String.eqb (p_Kid p) "") then
                match accounts (view s) !! p_Kid p with
                | None => (Done (None, problem 400 "accountDoesNotExist"), s, st, used)
                | Some acct => (Next (FVerify r msg (Some (a_url acct)) (a_key acct)), s, st, used)
                end
              else if bool_decide (is_Some (p_JWK p)) then
                match ACMEKeyFromJWK (p_JWK p) with
                | Err _ => (Done (None, problem 400 "badPublicKey"), s, st, used)
                | Ok key => (Next (FVerify r msg None key), s, st, used)
                end
              else (Done (None, problem 400 "malformed"), s, st, used)
          end
      end
  end.

(** The second section: check the signature, mint the nonce of the response. *)
Definition jws_mint (env : Env) (r : Request) (m : ACMEMessage) (acct : option string) (key : ACMEKey) (s : Server) (st : Stream) : Out :=
  match Verify m key with
  | Err _ => finish None (problem 401 "unauthorized") s st
  | Ok _ =>
      let s := pruneExpiredLocked cfg (e_now env) s in
      match mintNonce cfg env s with
      | None => finish None (rateLimited cfg) s st
      | Some (n, s) => (Next (FHandle r m acct n), s, st, [Minted n])
      end
  end.

Definition appendState (env : Env) (typ : string) (payload : option data) (st : Stream) : result AErr unit * Stream :=
  appendStateEventLocked (stateLog cfg) (e_now env) (e_nuid env) typ payload st.

(** *** newAccount *)

Record newAccountRequest := mkNewAccount {
  na_Contact : list string;
  na_OnlyReturnExisting : bool;
  na_ExternalAccountBinding : option json
}.

Definition new_account_fields : list field := [
  mkField "contact" KStrs false; mkField "termsOfServiceAgreed" KBool false;
  mkField "onlyReturnExisting" KBool false; mkField "externalAccountBinding" KRaw false].

Definition bool_at (vs : svals) (i : nat) : bool :=
  match vs !! i with Some (VBool b) => b | _ => false end.

(** An empty payload is a bare registration. *)
Definition parseNewAccount (payload : data) : option newAccountRequest :=
  if bool_decide (payload = DRaw "") then Some (mkNewAccount [] false None) else
  vs ← decode_struct new_account_fields payload;
  Some (mkNewAccount (strs_at vs 0) (bool_at vs 2) (raw_at vs 3)).

(** The checks of an external account binding; [None] is success. *)
Definition checkEAB (r : Request) (req : newAccountRequest) (thumb : string) : option Reply :=
  match na_ExternalAccountBinding req with
  | None => if ExternalAccountRequired cfg then Some (problem 400 "externalAccountRequired") else None
  | Some eabDoc =>
      match ParseACMEJWS (DJson eabDoc) with
      | Err _ => Some (problem 400 "malformed")
      | Ok eab =>
          let keyID := GoStrings.TrimSpace (p_Kid (Protected eab)) in
          match eabKeys cfg !! keyID with
          | None => Some (problem 401 "unauthorized")
          | Some None => Some (problem 500 "serverInternal")
          | Some (Some macKey) =>
              match VerifyExternalAccountBinding eab macKey keyID (baseURL r +:+ "/acme/new-account") thumb with
              | Err _ => Some (problem 401 "unauthorized")
              | Ok _ => None
              end
          end
      end
  end.

Definition accountReply (existed : bool) (url : string) (contact : list string) : Reply :=
  JSON (if existed then 200 else 201) (Some url)
    (JObj ([("status", JStr statusValid); ("orders", JStr (url +:+ "/orders"))]
           ++ match contact with [] => [] | _ => [("contact", JArr (JStr <$> contact))] end)).

Definition set_contact (contact : list string) (jwk : option json) (a : account) : account :=
  mkAccount (a_id a) (a_url a) (a_key a) jwk contact (a_status a).

(** A returning registration; the account is the one its key is bound to. *)
Definition updateAccount (env : Env) (req : newAccountRequest) (jwk : option json) (acct : account) (nonce : string)
    (s : Server) (st : Stream) : Out :=
  match na_Contact req with
  | [] => finish (Some nonce) (accountReply true (a_url acct) (a_contact acct)) s st
  | contact =>
      let updated := set_contact contact (match a_jwk acct with None => jwk | j => j end) acct in
      match appendState env acmeEventAccountUpserted (Some (encode_account (accountEventFrom updated 0))) st with
      | (Err _, st') => finish (Some nonce) (problem 500 "serverInternal") s st'
      | (Ok _, st') =>
          let v := view s in
          finish (Some nonce) (accountReply true (a_url acct) contact)
            (with_view (with_accounts (<[a_url acct := updated]> (accounts v)) (byKey v) v) s) st'
      end
  end.

Definition createAccount (env : Env) (r : Request) (req : newAccountRequest) (jwk : option json) (key : ACMEKey)
    (nonce : string) (s : Server) (st : Stream) : Out :=
  let thumb := Thumbprint key in
  let (ok, s) := consumeSourceLocked cfg (sourceKey r) BAccount (e_now env) s in
  if negb ok then finish (Some nonce) (rateLimited cfg) s st else
  if MaxAccounts (quota cfg) <=? Z.of_nat (size (accounts (view s))) then finish (Some nonce) (rateLimited cfg) s st else
  match checkEAB r req thumb with
  | Some reply => finish (Some nonce) reply s st
  | None =>
      let (id, v) := nextID (view s) in
      let acct := mkAccount thumb (baseURL r +:+ "/acme/acct/" +:+ id) key jwk (na_Contact req) statusValid in
      match appendState env acmeEventAccountUpserted (Some (encode_account (accountEventFrom acct (seq v)))) st with
      | (Err _, st') => finish (Some nonce) (problem 500 "serverInternal") (with_view v s) st'
      | (Ok _, st') =>
          finish (Some nonce) (accountReply false (a_url acct) (a_contact acct))
            (with_view (with_accounts (<[a_url acct := acct]> (accounts v)) (<[thumb := a_url acct]> (byKey v)) v) s) st'
      end
  end.

Definition account_by_key (thumb : string) (v : View) : option account :=
  url ← byKey v !! thumb; accounts v !! url.

Definition newAccount (env : Env) (r : Request) (m : ACMEMessage) (nonce : string) (s : Server) (st : Stream) : Out :=
  let jwk := p_JWK (Protected m) in
  match ACMEKeyFromJWK jwk with
  | Err _ => finish (Some nonce) (problem 400 "badPublicKey") s st
  | Ok key =>
      match parseNewAccount (Payload m) with
      | None => finish (Some nonce) (problem 400 "malformed") s st
      | Some req =>
          let s := pruneExpiredLocked cfg (e_now env) s in
          match account_by_key (Thumbprint key) (view s) with
          | Some acct => updateAccount env req jwk acct nonce s st
          | None =>
              if na_OnlyReturnExisting req then finish (Some nonce) (problem 400 "accountDoesNotExist") s st
              else createAccount env r req jwk key nonce s st
          end
      end
  end.

(** *** newOrder *)

(** The challenge types of every identifier. *)
Fixpoint challengeTypes (env : Env) (ids : list Identifier) : result DVErr (list (string * list string)) :=
  match ids with
  | [] => Ok []
  | id :: l =>
      let? types := challengeTypesForDomain cfg env (id_Value id) in
      let? rest := challengeTypes env l in
      Ok ((id_Value id, types) :: rest)
  end.

(** Challenges and authorizations are numbered as they are made; the second
    component is the sequence after them. *)
Fixpoint make_challenges (env : Env) (status azID : string) (types : list string) (n : Z) : list challenge * Z :=
  match types with
  | [] => ([], n)
  | ct :: l =>
      let id := ID (n + 1) in
      let (rest, n') := make_challenges env status azID l (n + 1) in
      (mkChallenge id ct (e_token env id) status azID :: rest, n')
  end.

Fixpoint make_authzs (env : Env) (authzStatus challengeStatus orderID : string) (ids : list (string * list string)) (n : Z)
  : list (authorization * list challenge) * Z :=
  match ids with
  | [] => ([], n)
  | (domain, types) :: l =>
      let azID := ID (n + 1) in
      let (cs, n1) := make_challenges env challengeStatus azID types (n + 1) in
      let (rest, n2) := make_authzs env authzStatus challengeStatus orderID l n1 in
      ((mkAuthz azID orderID domain authzStatus (c_id <$> cs) (e_now env), cs) :: rest, n2)
  end.

Definition put_authz (v : View) (p : authorization * list challenge) : View :=
  with_challenges (fold_left (fun m c => <[c_id c := c]> m) p.2 (challenges v))
    (with_authzs (<[z_id p.1 := p.1]> (authzs v)) v).

Definition put_order (o : order) (zs : list (authorization * list challenge)) (v : View) : View :=
  let v1 := fold_left put_authz zs v in with_orders (<[o_id o := o]> (orders v1)) v1.

Definition trusted (mode : string) : bool := String.eqb mode ACMEAuthModeTrustAuthenticated.

(** The locked section. *)
Definition createOrder (env : Env) (r : Request) (req : OrderRequest) (mode : string) (types : list (string * list string))
    (url nonce : string) (s : Server) (st : Stream) : Out :=
  let base := baseURL r in
  let now := e_now env in
  let q := quota cfg in
  let s := pruneExpiredLocked cfg now s in
  let (ok, s) := consumeSourceLocked cfg (sourceKey r) BOrder now s in
  let limited := finish (Some nonce) (rateLimited cfg) s st in
  if negb ok then limited else
  let v := view s in
  let challengeDelta := if trusted mode then 0 else Z.of_nat (length (mjoin (snd <$> types))) in
  let authzDelta := if trusted mode then 0 else Z.of_nat (length (or_Identifiers req)) in
  if MaxPendingOrders q <=? pendingOrdersLocked "" v then limited else
  if MaxPendingOrdersPerAccount q <=? pendingOrdersLocked url v then limited else
  if MaxPendingAuthorizations q <? pendingAuthzsLocked v + authzDelta then limited else
  if MaxPendingChallenges q <? pendingChallengesLocked v + challengeDelta then limited else
  let status := if trusted mode then statusValid else statusPending in
  let (id, v1) := nextID v in
  let (zs, n) := make_authzs env status status id types (seq v1) in
  let o := mkOrder id url (Domains req) ((fun p => z_id p.1) <$> zs) (if trusted mode then statusReady else statusPending)
             mode "" (or_Replaces req) now in
  let v2 := with_seq n v1 in
  match appendState env acmeEventOrderCreated (encode_order_event (orderCreatedEventFrom o zs n)) st with
  | (Err _, st') => finish (Some nonce) (problem 500 "serverInternal") (with_view v2 s) st'
  | (Ok _, st') =>
      finish (Some nonce) (JSON 201 (Some (base +:+ "/acme/order/" +:+ id)) (orderJSON base o (orderAuthzURLs base o)))
        (with_view (put_order o zs v2) s) st'
  end.

Definition newOrder (env : Env) (r : Request) (m : ACMEMessage) (acct : option string) (nonce : string) (s : Server) (st : Stream) : Out :=
  match acct with
  | None => finish (Some nonce) (problem 401 "unauthorized") s st
  | Some url =>
      match ParseOrderRequest (Payload m) with
      | Err _ => finish (Some nonce) (problem 400 "malformed") s st
      | Ok req =>
          let limit := MaxNewOrdersPerAccount (quota cfg) in
          let verdict := if (0 <? limit) && has_limiter cfg then e_limiter env url limit else Ok (true, 0) in
          match verdict with
          | Err _ => finish (Some nonce) (problem 500 "serverInternal") s st
          | Ok (false, retryAfter) => finish (Some nonce) (rateLimitedAfter retryAfter) s st
          | Ok (true, _) =>
              let mode := or_default (authMode cfg) ACMEAuthModePublicTrust in
              if trusted mode then
                createOrder env r req mode ((fun id => (id_Value id, [ChallengeHTTP01])) <$> or_Identifiers req) url nonce s st
              else
                match challengeTypes env (or_Identifiers req) with
                | Err e => finish (Some nonce) (writeDVPolicyProblem e) s st
                | Ok types => createOrder env r req mode types url nonce s st
                end
          end
      end
  end.

(** *** Reading *)

Definition getAuthz (r : Request) (nonce : string) (s : Server) (st : Stream) : Out :=
  match authzs (view s) !! r_PathID r with
  | None => finish (Some nonce) (problem 404 "malformed") s st
  | Some az => finish (Some nonce) (JSON 200 None (authzJSON (baseURL r) (view s) az)) s st
  end.

Definition getOrder (r : Request) (nonce : string) (s : Server) (st : Stream) : Out :=
  match orders (view s) !! r_PathID r with
  | None => finish (Some nonce) (problem 404 "malformed") s st
  | Some o => finish (Some nonce) (JSON 200 None (orderJSON (baseURL r) o (orderAuthzURLs (baseURL r) o))) s st
  end.

Definition getCert (r : Request) (nonce : string) (s : Server) (st : Stream) : Out :=
  match certs (view s) !! r_PathID r with
  | None | Some "" => finish (Some nonce) (problem 404 "malformed") s st
  | Some pem => finish (Some nonce) (PEM pem) s st
  end.

(** *** acceptChallenge *)

Definition find_challenge (r : Request) (v : View) : option (challenge * authorization) :=
  ch ← challenges v !! r_PathID r; az ← authzs v !! c_authzID ch; Some (ch, az).

Definition accept_open (r : Request) (acct : option string) (nonce : string) (s : Server) (st : Stream) : Out :=
  match find_challenge r (view s) with
  | None => finish (Some nonce) (problem 404 "malformed") s st
  | Some (ch, az) => (Next (FValidate r acct nonce ch (z_domain az)), s, st, [])
  end.

(** Outside the mutex: the policy, the DNS automation and the validator.  A record
    that was presented is retracted when the validation fails. *)
Definition accept_validate (env : Env) (r : Request) (acct : option string) (nonce : string) (ch : challenge) (domain : string)
    (s : Server) (st : Stream) : Out :=
  match challengeAllowed cfg env domain (c_typ ch) with
  | Err e => finish (Some nonce) (writeDVPolicyProblem e) s st
  | Ok _ =>
      match (url ← acct; accounts (view s) !! url) with
      | None => finish (Some nonce) Panic s st
      | Some a =>
          let keyAuth := c_token ch +:+ "." +:+ Thumbprint (a_key a) in
          let refused := (Done (Some nonce, problem 400 "unauthorized"), s, st) in
          let passed := e_Validate env (c_typ ch) domain (c_token ch) keyAuth in
          let seen := [Validated (c_id ch) (c_typ ch) domain (c_token ch) keyAuth] in
          if String.eqb (c_typ ch) ChallengeDNS01 && has_dns01Automation cfg then
            if negb (e_Present env domain (c_token ch) keyAuth) then (refused, [])
            else if negb passed then (refused, [Presented domain keyAuth; Retracted domain keyAuth])
            else (Next (FAccept r nonce (Some (domain, keyAuth))), s, st, Presented domain keyAuth :: seen)
          else if negb passed then (refused, [])
          else (Next (FAccept r nonce None), s, st, seen)
      end
  end.

(** Whether the other authorizations of the order are valid. *)
Definition others_valid (v : View) (az : authorization) (o : order) : bool :=
  forallb (fun id => String.eqb id (z_id az) || authz_valid v id) (o_authzIDs o).

(** A presented record is retracted at the end of a handler that has succeeded. *)
Definition accept_commit (env : Env) (r : Request) (nonce : string) (presented : option (string * string)) (s : Server) (st : Stream) : Out :=
  let v := view s in
  match find_challenge r v with
  | None => finish (Some nonce) (problem 404 "malformed") s st
  | Some (ch, az) =>
      let o := orders v !! z_orderID az in
      let orderStatus := match o with
                         | Some o => if others_valid v az o then statusReady else o_status o
                         | None => ""
                         end in
      match appendState env acmeEventChallengeValidated
              (Some (encode_challenge_event (challengeValidatedEventFrom ch az o orderStatus))) st with
      | (Err _, st') => finish (Some nonce) (problem 500 "serverInternal") s st'
      | (Ok _, st') =>
          let ch' := set_ch_status statusValid ch in
          let v1 := with_challenges (<[r_PathID r := ch']> (challenges v)) v in
          let v2 := with_authzs (<[c_authzID ch := set_az_status statusValid az]> (authzs v1)) v1 in
          let v3 := match orders v2 !! z_orderID az with
                    | Some o => if allAuthzValid v2 o
                                then with_orders (<[z_orderID az := set_o_status statusReady o]> (orders v2)) v2 else v2
                    | None => v2
                    end in
          (Done (Some nonce, JSON 200 None (challengeJSON (baseURL r) ch')), with_view v3 s, st',
           match presented with Some (domain, keyAuth) => [Retracted domain keyAuth] | None => [] end)
      end
  end.

(** *** finalize *)

Definition leafTTL : Z := 90 * 24 * hour.

(** Up to the call of the CA. *)
Definition finalize_open (env : Env) (r : Request) (m : ACMEMessage) (acct : option string) (nonce : string) (s : Server) (st : Stream) : Out :=
  let base := baseURL r in
  match orders (view s) !! r_PathID r with
  | None => finish (Some nonce) (problem 404 "malformed") s st
  | Some o =>
      if String.eqb (o_status o) statusValid && negb (String.eqb (o_certID o) "") then
        finish (Some nonce) (JSON 200 None (orderJSON base o (orderAuthzURLs base o))) s st
      else if negb (String.eqb (o_status o) statusReady) then finish (Some nonce) (problem 403 "orderNotReady") s st
      else match ParseFinalizeRequest (Payload m) with
           | Err _ => finish (Some nonce) (problem 400 "badCSR") s st
           | Ok csr =>
               let req := mkIssue csr (o_domains o) leafTTL in
               match e_Issue env req with
               | None => (Done (Some nonce, problem 500 "serverInternal"), s, st, [Issuing (o_id o) req acct])
               | Some cert => (Next (FIssued r acct nonce (o_id o) cert), s, st, [Issuing (o_id o) req acct])
               end
           end
  end.

(** The section that records the certificate.  A nil account panics with the mutex
    held. *)
Definition finalize_commit (env : Env) (r : Request) (acct : option string) (nonce orderID : string) (cert : Certificate)
    (s : Server) (st : Stream) : Out :=
  let base := baseURL r in
  let (certID, v) := nextID (view s) in
  match acct with
  | None => finish (Some nonce) Panic (wedge (with_view v s)) st
  | Some url =>
      let payload := certificateIssuedEventFrom orderID certID url (CertificatePEM cert) (Serial cert) (seq v) in
      match appendState env acmeEventCertificateIssued (encode_cert_event payload) st with
      | (Err _, st') => finish (Some nonce) (problem 500 "serverInternal") (with_view v s) st'
      | (Ok _, st') =>
          match applyCertificateIssuedEventLocked payload v with
          | (Err _, v') => finish (Some nonce) (problem 500 "serverInternal") (with_view v' s) st'
          | (Ok _, v') =>
              finish (Some nonce)
                (match orders v' !! orderID with
                 | Some o => JSON 200 (Some (base +:+ "/acme/order/" +:+ o_id o)) (orderJSON base o (orderAuthzURLs base o))
                 | None => Panic
                 end) (with_view v' s) st'
          end
      end
  end.

(** *** keyChange *)

Definition rotate (env : Env) (newKey : ACMEKey) (jwk : option json) (a : account) (nonce : string) (s : Server) (st : Stream) : Out :=
  let v := view s in
  let newThumb := Thumbprint newKey in
  let updated := mkAccount newThumb (a_url a) newKey jwk (a_contact a) (a_status a) in
  match appendState env acmeEventAccountUpserted (Some (encode_account (accountEventFrom updated 0))) st with
  | (Err _, st') => finish (Some nonce) (problem 500 "serverInternal") s st'
  | (Ok _, st') =>
      finish (Some nonce)
        (JSON 200 (Some (a_url a)) (JObj [("status", JStr statusValid); ("orders", JStr (a_url a +:+ "/orders"))]))
        (with_view (with_accounts (<[a_url a := updated]> (accounts v))
                      (<[newThumb := a_url a]> (delete (Thumbprint (a_key a)) (byKey v))) v) s) st'
  end.

Definition keyChange (env : Env) (r : Request) (m : ACMEMessage) (acct : option string) (nonce : string) (s : Server) (st : Stream) : Out :=
  let fail status typ := finish (Some nonce) (problem status typ) s st in
  match acct with
  | None => fail 401 "unauthorized"
  | Some url =>
      match ParseACMEJWS (Payload m) with
      | Err _ => fail 400 "malformed"
      | Ok inner =>
          match ACMEKeyFromJWK (p_JWK (Protected inner)) with
          | Err _ => fail 400 "badPublicKey"
          | Ok newKey =>
              match Verify inner newKey with
              | Err _ => fail 400 "malformed"
              | Ok _ =>
                  match ParseKeyChangeInner (Payload inner) with
                  | Err _ => fail 400 "malformed"
                  | Ok body =>
                      match ACMEKeyFromJWK (kc_OldKey body) with
                      | Err _ => fail 400 "malformed"
                      | Ok oldKey =>
                          if negb (String.eqb (kc_Account body) url) then fail 403 "unauthorized" else
                          let v := view s in
                          let newThumb := Thumbprint newKey in
                          match accounts v !! url with
                          | None => finish (Some nonce) Panic s st
                          | Some a =>
                              if negb (String.eqb (Thumbprint oldKey) (Thumbprint (a_key a))) then fail 403 "unauthorized" else
                              match account_by_key newThumb v with
                              | Some other =>
                                  if negb (String.eqb (a_url other) url)
                                  then finish (Some nonce) (Problem 409 "accountDoesNotExist" None (Some (a_url other))) s st
                                  else rotate env newKey (p_JWK (Protected inner)) a nonce s st
                              | None => rotate env newKey (p_JWK (Protected inner)) a nonce s st
                              end
                          end
                      end
                  end
              end
          end
      end
  end.

(** *** revokeCert *)

(** The account that ordered the certificate, or the holder of its key. *)
Definition revoke_authorized (m : ACMEMessage) (acct : option string) (ic : issuedCert) : bool :=
  match acct with
  | Some url => String.eqb (i_accountURL ic) url
  | None =>
      match ACMEKeyFromJWK (p_JWK (Protected m)) with
      | Ok reqKey => negb (String.eqb (i_keyThumb ic) "") && String.eqb (Thumbprint reqKey) (i_keyThumb ic)
      | Err _ => false
      end
  end.

(** The check, and the call of the hook. *)
Definition revoke_open (env : Env) (m : ACMEMessage) (acct : option string) (nonce : string) (s : Server) (st : Stream) : Out :=
  let fail status typ := finish (Some nonce) (problem status typ) s st in
  match ParseRevokeRequest (Payload m) with
  | Err _ => fail 400 "malformed"
  | Ok req =>
      let fp := certFingerprint (rr_CertDER req) in
      if String.eqb fp "" then fail 400 "malformed" else
      match issued (view s) !! fp with
      | None => fail 404 "malformed"
      | Some ic =>
          if bool_decide (is_Some (revoked (view s) !! fp)) then fail 400 "alreadyRevoked" else
          if negb (revoke_authorized m acct ic) then fail 403 "unauthorized" else
          let revReq := mkRevReq fp (i_serial ic) (rr_Reason req) (rr_CertDER req) in
          if has_revokeHook cfg && negb (e_hook env revReq)
          then (Done (Some nonce, problem 500 "serverInternal"), s, st, [Revoking revReq])
          else (Next (FRevoke nonce fp ic req (e_now env)), s, st, [Revoking revReq])
      end
  end.

Definition revoke_commit (env : Env) (nonce fp : string) (ic : issuedCert) (req : RevokeRequest) (revokedAt : Z) (s : Server) (st : Stream) : Out :=
  let v := view s in
  if bool_decide (is_Some (revoked v !! fp)) then finish (Some nonce) (Empty 200) s st else
  match appendState env acmeEventCertificateRevoked
          (encode_revoked_event (mkRevokedEv fp (i_serial ic) (rr_Reason req) revokedAt)) st with
  | (Err _, st') => finish (Some nonce) (problem 500 "serverInternal") s st'
  | (Ok _, st') =>
      finish (Some nonce) (Empty 200)
        (with_view (with_revoked (<[fp := mkRevocation (i_serial ic) (rr_Reason req) revokedAt]> (revoked v)) v) s) st'
  end.

Definition IsRevoked (fp : string) (s : Server) : string * bool :=
  match revoked (view s) !! fp with
  | Some rec => (v_serial rec, true)
  | None => ("", false)
  end.

(** *** Renewal information *)

Definition renewalInfo (env : Env) (certid : string) (s : Server) : result Reply Window :=
  if negb (ValidCertID certid) then Err (problem 400 "malformed") else
  match ariWindows (view s) !! certid with
  | None => Err (problem 404 "malformed")
  | Some win => Ok (SuggestWindow (w_notBefore win) (w_notAfter win) (e_now env) (bool_decide (certid ∈ earlyRenew (view s))))
  end.

Definition MarkEarlyRenewalContext (env : Env) (certID : string) (s : Server) (st : Stream) : result AErr unit * Server * Stream :=
  let v := view s in
  if bool_decide (certID ∈ earlyRenew v) then (Ok tt, s, st) else
  match appendState env acmeEventEarlyRenewalMarked (Some (encode_early certID)) st with
  | (Err e, st') => (Err e, s, st')
  | (Ok _, st') => (Ok tt, with_view (with_early ({[certID]} ∪ earlyRenew v) v) s, st')
  end.

(** *** Dispatch *)

Definition handle (env : Env) (r : Request) (m : ACMEMessage) (acct : option string) (nonce : string) (s : Server) (st : Stream) : Out :=
  match r_endpoint r with
  | NewAccount => newAccount env r m nonce s st
  | NewOrder => newOrder env r m acct nonce s st
  | GetAuthz => getAuthz r nonce s st
  | AcceptChallenge => accept_open r acct nonce s st
  | GetOrder => getOrder r nonce s st
  | Finalize => finalize_open env r m acct nonce s st
  | GetCert => getCert r nonce s st
  | KeyChange => keyChange env r m acct nonce s st
  | RevokeCert => revoke_open env m acct nonce s st
  end.

(** One section of a request in progress. *)
Definition advance (env : Env) (f : flight) (s : Server) (st : Stream) : Out :=
  match f with
  | FVerify r m acct key => jws_mint env r m acct key s st
  | FHandle r m acct nonce => handle env r m acct nonce s st
  | FValidate r acct nonce ch domain => accept_validate env r acct nonce ch domain s st
  | FAccept r nonce presented => accept_commit env r nonce presented s st
  | FIssued r acct nonce orderID cert => finalize_commit env r acct nonce orderID cert s st
  | FRevoke nonce fp ic req at_ => revoke_commit env nonce fp ic req at_ s st
  end.

(** A request that runs alone: no other request between its sections; a request has
    at most four of them. *)
Fixpoint serve_loop (fuel : nat) (env : Env) (f : flight) (s : Server) (st : Stream) : Response * Server * Stream * list Effect :=
  match advance env f s st with
  | (Done resp, s', st', eff) => (resp, s', st', eff)
  | (Next f', s', st', eff) =>
      match fuel with
      | O => ((None, Panic), s', st', eff)
      | S n => let '(resp, s2, st2, eff2) := serve_loop n env f' s' st' in (resp, s2, st2, eff ++ eff2)
      end
  end.

Definition serve (env : Env) (r : Request) (s : Server) (st : Stream) : Response * Server * Stream * list Effect :=
  match jws_open env r s st with
  | (Done resp, s', st', eff) => (resp, s', st', eff)
  | (Next f, s', st', eff) =>
      let '(resp, s2, st2, eff2) := serve_loop 3 env f s' st' in (resp, s2, st2, eff ++ eff2)
  end.

End Handlers.

End AcmeServer.
