(* ===== verification/AcmeSpec.v ===== *)
(** * The serving view and the log

    What the maps of the ACME server keep true, and how they relate to the event
    log.  [below v r] says that the serving view [v] agrees with the view [r] that
    a restart would rebuild: the same accounts, revocations and renewal marks, and
    no order, authorization, challenge or certificate that the log does not have
    (expired orders are dropped from memory only).  Every update the handlers make
    is one of a few functions on views; each keeps a replayed view well formed
    ([wf]) and the serving view below it. *)

From stdpp Require Import pretty.
From S2P Require Import Prelude Json Tenancy Events Base64 AcmeJose AcmeState AcmeParse AcmeServer.
Open Scope string_scope.
Open Scope list_scope.
Open Scope Z_scope.

Module AcmeSpec.
Import SE Tenancy Events Base64 AcmeJose AcmeState AcmeParse AcmeServer.

(** ** Identifiers *)

Lemma list_ascii_inj (a b : string) : list_ascii_of_string a = list_ascii_of_string b -> a = b.
Proof. intros H. by rewrite <- (string_of_list_ascii_of_string a), H, string_of_list_ascii_of_string. Qed.

Definition slash : ascii := "/".

(** What follows the last slash of a string is determined by it. *)
Lemma last_segment (p q d e : list ascii) :
  slash ∉ d -> slash ∉ e -> p ++ slash :: d = q ++ slash :: e -> d = e.
Proof.
  intros Hd He. revert q. induction p as [|c p IH]; intros [|c' q] H; cbn in H; simplify_eq; [done| | |by eapply IH].
  - destruct Hd. apply elem_of_app. right. by left.
  - destruct He. apply elem_of_app. right. by left.
Qed.

Lemma pretty_N_go_noslash x s :
  slash ∉ list_ascii_of_string s -> slash ∉ list_ascii_of_string (pretty_N_go x s).
Proof.
  revert s. induction (N.lt_wf_0 x) as [x _ IH]; intros s Hs.
  assert (x = 0 \/ 0 < x)%N as [->|Hx] by lia; [by rewrite pretty_N_go_0|].
  rewrite pretty_N_go_step by done. apply IH; [by apply N.div_lt|].
  cbn. rewrite not_elem_of_cons. split; [|done]. unfold pretty_N_char, slash. by repeat case_match.
Qed.

Lemma ID_noslash n : 0 <= n -> slash ∉ list_ascii_of_string (ID n).
Proof.
  intros Hn. destruct n as [|p|p]; [|unfold ID, pretty, pretty_Z, pretty, pretty_positive, pretty, pretty_N|lia].
  - intros H. apply (bool_decide_pack _) in H. by vm_compute in H.
  - destruct (decide _); [done|]. apply pretty_N_go_noslash. apply not_elem_of_nil.
Qed.

Lemma ID_inj n m : ID n = ID m -> n = m.
Proof. apply (inj pretty). Qed.

Lemma ID_nonempty n : ID n <> "".
Proof.
  assert (Hg : forall x s, s <> "" -> pretty_N_go x s <> "").
  { intros x. induction (N.lt_wf_0 x) as [x _ IH]; intros s Hs.
    assert (x = 0 \/ 0 < x)%N as [->|Hx] by lia; [by rewrite pretty_N_go_0|].
    rewrite pretty_N_go_step by done. apply IH; [by apply N.div_lt|done]. }
  unfold ID, pretty, pretty_Z, pretty, pretty_positive, pretty, pretty_N.
  destruct n as [|p|p]; [done| |done]. destruct (decide _); [done|].
  rewrite pretty_N_go_step by lia. by apply Hg.
Qed.

(** The URL of an account. *)
Definition acct_url (base : string) (n : Z) : string := base +:+ "/acme/acct/" +:+ ID n.

Lemma acct_url_inj b1 b2 n m : 0 <= n -> 0 <= m -> acct_url b1 n = acct_url b2 m -> n = m.
Proof.
  intros Hn Hm H. apply (f_equal list_ascii_of_string) in H. unfold acct_url in H.
  rewrite !GoStrings.list_ascii_app in H. change (list_ascii_of_string "/acme/acct/") with (list_ascii_of_string "/acme/acct" ++ [slash]) in H.
  rewrite <- !(assoc_L app) in H. cbn [app] in H. rewrite !(assoc_L app) in H.
  apply last_segment in H; [|by apply ID_noslash|by apply ID_noslash].
  by apply ID_inj, list_ascii_inj.
Qed.

Lemma acct_url_nonempty b n : acct_url b n <> "".
Proof. unfold acct_url. by destruct b. Qed.

(** ** Well-formed views *)

Definition numbered (v : View) (id : string) : Prop := exists n, id = ID n /\ 0 < n <= seq v.

Definition all_valid (v : View) (o : order) : Prop :=
  forall id, id ∈ o_authzIDs o -> exists az, authzs v !! id = Some az /\ z_status az = statusValid.

Section Wf.
Context {J : JoseCrypto}.

Record account_wf (v : View) (url : string) (a : account) : Prop := {
  aw_url : a_url a = url;
  aw_number : exists base n, url = acct_url base n /\ 0 < n <= seq v;
  aw_index : byKey v !! a_id a = Some url;
  aw_thumb : a_id a = Thumbprint (a_key a);
  aw_jwk : ACMEKeyFromJWK (a_jwk a) = Ok (a_key a);
  aw_status : a_status a = statusValid
}.

Record order_wf (v : View) (id : string) (o : order) : Prop := {
  ow_id : o_id o = id;
  ow_number : numbered v id;
  ow_account : o_accountURL o <> "";
  ow_authzs : Forall2 (fun azID d => exists az, authzs v !! azID = Some az /\ z_domain az = d /\ z_orderID az = id)
                (o_authzIDs o) (o_domains o);
  ow_status : o_status o = statusPending \/ o_status o = statusReady \/ o_status o = statusValid;
  ow_valid : o_status o <> statusPending -> all_valid v o
}.

Record authz_wf (v : View) (id : string) (az : authorization) : Prop := {
  zw_id : z_id az = id;
  zw_number : numbered v id;
  zw_order : exists o, orders v !! z_orderID az = Some o /\ id ∈ o_authzIDs o
}.

Record challenge_wf (v : View) (id : string) (c : challenge) : Prop := {
  cw_id : c_id c = id;
  cw_number : numbered v id;
  cw_authz : exists az, authzs v !! c_authzID c = Some az /\ id ∈ z_challenges az
}.

(** The invariant of a view: maps are keyed by the ids of their objects, every id
    was given out, references lead to objects, the thumbprint index is exactly the
    thumbprints of the accounts, and an order that is not pending has all its
    authorizations valid. *)
Record wf (v : View) : Prop := {
  wf_accounts : forall url a, accounts v !! url = Some a -> account_wf v url a;
  wf_byKey : forall t url, byKey v !! t = Some url -> exists a, accounts v !! url = Some a /\ a_id a = t;
  wf_orders : forall id o, orders v !! id = Some o -> order_wf v id o;
  wf_authzs : forall id az, authzs v !! id = Some az -> authz_wf v id az;
  wf_challenges : forall id c, challenges v !! id = Some c -> challenge_wf v id c;
  wf_certs : forall id, is_Some (certs v !! id) -> numbered v id;
  wf_seq : 0 <= seq v
}.

(** References that the serving view keeps while it drops expired orders. *)
Record closed (v : View) : Prop := {
  cl_order : forall id o a, orders v !! id = Some o -> a ∈ o_authzIDs o -> is_Some (authzs v !! a);
  cl_authz : forall id az, authzs v !! id = Some az -> is_Some (orders v !! z_orderID az);
  cl_challenge : forall id c, challenges v !! id = Some c -> is_Some (authzs v !! c_authzID c)
}.

Record below (v r : View) : Prop := {
  be_accounts : accounts v = accounts r;
  be_byKey : byKey v = byKey r;
  be_revoked : revoked v = revoked r;
  be_early : earlyRenew v = earlyRenew r;
  be_orders : orders v ⊆ orders r;
  be_authzs : authzs v ⊆ authzs r;
  be_challenges : challenges v ⊆ challenges r;
  be_certs : certs v ⊆ certs r;
  be_issued : dom (issued v) ⊆ dom (issued r);
  be_ari : dom (ariWindows v) ⊆ dom (ariWindows r);
  be_seq : seq r <= seq v;
  be_closed : closed v
}.

(** What later updates of the log keep of a replayed view. *)
Record evolves (r r' : View) : Prop := {
  ev_accounts : forall url, is_Some (accounts r !! url) -> is_Some (accounts r' !! url);
  ev_orders : forall id o, orders r !! id = Some o ->
    exists o', orders r' !! id = Some o' /\ o_authzIDs o' = o_authzIDs o /\ o_domains o' = o_domains o;
  ev_authzs : forall id az, authzs r !! id = Some az ->
    exists az', authzs r' !! id = Some az' /\ z_domain az' = z_domain az /\ z_orderID az' = z_orderID az /\
      (z_status az = statusValid -> z_status az' = statusValid);
  ev_challenges : forall id c, challenges r !! id = Some c ->
    exists c', challenges r' !! id = Some c' /\ c_authzID c' = c_authzID c /\ c_token c' = c_token c /\ c_typ c' = c_typ c
}.

#[export] Instance evolves_preorder : PreOrder evolves.
Proof.
  split.
  - intros r. split; eauto 10.
  - intros r1 r2 r3 H12 H23. split.
    + intros url H. by apply H23, H12.
    + intros id o H. destruct (ev_orders _ _ H12 _ _ H) as (o2 & H2 & Ha & Hd).
      destruct (ev_orders _ _ H23 _ _ H2) as (o3 & H3 & Ha' & Hd'). exists o3. split; [done|]. split; congruence.
    + intros id z H. destruct (ev_authzs _ _ H12 _ _ H) as (z2 & H2 & Hd & Ho & Hs).
      destruct (ev_authzs _ _ H23 _ _ H2) as (z3 & H3 & Hd' & Ho' & Hs'). exists z3. split_and!; [done|congruence|congruence|auto].
    + intros id c H. destruct (ev_challenges _ _ H12 _ _ H) as (c2 & Hc2 & ? & ? & ?).
      destruct (ev_challenges _ _ H23 _ _ Hc2) as (c3 & Hc3 & ? & ? & ?). exists c3. split_and!; [done|congruence..].
Qed.

Lemma all_valid_evolves r r' o o' :
  evolves r r' -> o_authzIDs o' = o_authzIDs o -> all_valid r o -> all_valid r' o'.
Proof.
  intros He Ho H id Hid. rewrite Ho in Hid. destruct (H id Hid) as (az & Haz & Hs).
  destruct (ev_authzs _ _ He _ _ Haz) as (az' & ? & _ & _ & ?). eauto.
Qed.

Lemma numbered_mono v v' id : seq v <= seq v' -> numbered v id -> numbered v' id.
Proof. intros H (n & -> & Hn). exists n. split; [done|lia]. Qed.

(** An id that was not given out is the id of no object. *)
Lemma numbered_fresh v n : seq v < n -> ~ numbered v (ID n).
Proof. intros H (m & Heq & Hm). apply ID_inj in Heq. lia. Qed.

(** What is below a well-formed view is well formed. *)
Lemma below_wf v r : below v r -> wf r -> wf v.
Proof.
  intros Hb Hw. pose proof (be_seq _ _ Hb) as Hs. pose proof (be_closed _ _ Hb) as Hc.
  assert (Haz : forall id az, is_Some (authzs v !! id) -> authzs r !! id = Some az -> authzs v !! id = Some az).
  { intros id az [z Hz] Hr. pose proof (lookup_weaken _ _ _ _ Hz (be_authzs _ _ Hb)). congruence. }
  split.
  - intros url a Ha. rewrite (be_accounts _ _ Hb) in Ha. destruct (wf_accounts _ Hw _ _ Ha) as [? (b & n & ? & ?) ? ? ? ?].
    split; try done; [exists b, n; split; [done|lia]|by rewrite (be_byKey _ _ Hb)].
  - intros t url. rewrite (be_byKey _ _ Hb), (be_accounts _ _ Hb). apply Hw.
  - intros id o Ho. destruct (wf_orders _ Hw _ _ (lookup_weaken _ _ _ _ Ho (be_orders _ _ Hb))) as [? ? ? Hf ? Hv].
    split; try done; [by eapply numbered_mono| |].
    + apply Forall2_same_length_lookup_2; [by eapply Forall2_length|]. intros i azID d H1 H2.
      destruct (Forall2_lookup_lr _ _ _ _ _ _ Hf H1 H2) as (az & Hz & ? & ?). exists az. split_and!; [|done|done].
      apply Haz; [|done]. by eapply cl_order; [exact Hc|exact Ho|eapply list_elem_of_lookup_2].
    + intros Hp a Ha. destruct (Hv Hp a Ha) as (az & Hz & Hsv). exists az. split; [|done]. apply Haz; [|done]. by eapply cl_order.
  - intros id az Hz. destruct (wf_authzs _ Hw _ _ (lookup_weaken _ _ _ _ Hz (be_authzs _ _ Hb))) as [? ? (o & Ho & Hin)].
    split; [done|by eapply numbered_mono|]. destruct (cl_authz _ Hc _ _ Hz) as [o' Ho']. exists o'. split; [done|].
    pose proof (lookup_weaken _ _ _ _ Ho' (be_orders _ _ Hb)). congruence.
  - intros id c Hcc. destruct (wf_challenges _ Hw _ _ (lookup_weaken _ _ _ _ Hcc (be_challenges _ _ Hb))) as [? ? (az & Hz & Hin)].
    split; [done|by eapply numbered_mono|]. exists az. split; [|done]. apply Haz; [|done]. by eapply cl_challenge.
  - intros id [x Hx]. eapply numbered_mono; [exact Hs|]. apply (wf_certs _ Hw). exists x. by eapply lookup_weaken; [|apply Hb].
  - pose proof (wf_seq _ Hw). lia.
Qed.

Lemma wf_empty : wf emptyView.
Proof.
  split; cbn; try (intros ? ? H; by apply lookup_empty_Some in H); [|lia].
  intros id [x H]. by apply lookup_empty_Some in H.
Qed.

Lemma below_refl v : wf v -> below v v.
Proof.
  intros Hw. split; try done. split.
  - intros id o a Ho Ha. pose proof (ow_authzs _ _ _ (wf_orders _ Hw _ _ Ho)) as Hf.
    apply list_elem_of_lookup in Ha as [i Hi].
    destruct (Forall2_lookup_l _ _ _ _ _ Hf Hi) as (d & _ & az & -> & _). done.
  - intros id az Hz. destruct (zw_order _ _ _ (wf_authzs _ Hw _ _ Hz)) as (o & -> & _). done.
  - intros id c Hc. destruct (cw_authz _ _ _ (wf_challenges _ Hw _ _ Hc)) as (az & -> & _). done.
Qed.

(** ** Frames *)

Lemma rememberSeq_eq n v : rememberSeq n v = with_seq (Z.max (seq v) n) v.
Proof.
  unfold rememberSeq. destruct (Z.ltb_spec (seq v) n); [by rewrite Z.max_r by lia|].
  rewrite Z.max_l by lia. by destruct v.
Qed.

(** The clauses about orders only read these maps. *)
Lemma wf_frame r v :
  wf r -> orders v = orders r -> authzs v = authzs r -> challenges v = challenges r -> certs v = certs r ->
  seq r <= seq v ->
  (forall url a, accounts v !! url = Some a -> account_wf v url a) ->
  (forall t url, byKey v !! t = Some url -> exists a, accounts v !! url = Some a /\ a_id a = t) -> wf v.
Proof.
  intros Hw Ho Hz Hc Ht Hs Ha Hb. split; [done|done| | | | |pose proof (wf_seq _ Hw); lia].
  - intros id o H. rewrite Ho in H. destruct (wf_orders _ Hw _ _ H) as [? ? ? H4 ? H6].
    split; try done; [by eapply numbered_mono| |].
    + by rewrite Hz.
    + intros Hp x Hx. rewrite Hz. by apply H6.
  - intros id z H. rewrite Hz in H. destruct (wf_authzs _ Hw _ _ H) as [? ? H3].
    split; [done|by eapply numbered_mono|by rewrite Ho].
  - intros id c H. rewrite Hc in H. destruct (wf_challenges _ Hw _ _ H) as [? ? H3].
    split; [done|by eapply numbered_mono|by rewrite Hz].
  - intros id H. rewrite Ht in H. eapply numbered_mono; [done|by apply Hw].
Qed.

Lemma account_wf_frame r v url a :
  account_wf r url a -> byKey v !! a_id a = byKey r !! a_id a -> seq r <= seq v -> account_wf v url a.
Proof.
  intros [? (b & n & ? & ?) H3 ? ? ?] Hb Hs. split; try done; [|by rewrite Hb].
  exists b, n. split; [done|lia].
Qed.

Lemma view_wf_same r v :
  wf r -> accounts v = accounts r -> byKey v = byKey r -> orders v = orders r -> authzs v = authzs r ->
  challenges v = challenges r -> certs v = certs r -> seq r <= seq v -> wf v.
Proof.
  intros Hw Ha Hb Ho Hz Hc Ht Hs. eapply wf_frame; try done.
  - intros url a H. rewrite Ha in H. eapply account_wf_frame; [by apply Hw|by rewrite Hb|done].
  - intros t url H. rewrite Hb in H. rewrite Ha. by apply Hw.
Qed.

Lemma evolves_same r v :
  accounts v = accounts r -> orders v = orders r -> authzs v = authzs r -> challenges v = challenges r -> evolves r v.
Proof. intros Ha Ho Hz Hc. split; rewrite ?Ha, ?Ho, ?Hz, ?Hc; eauto 10. Qed.

Lemma wf_with_seq r n : wf r -> seq r <= n -> wf (with_seq n r).
Proof. intros Hw Hn. by eapply view_wf_same. Qed.

Lemma closed_same v v' :
  closed v -> orders v' = orders v -> authzs v' = authzs v -> challenges v' = challenges v -> closed v'.
Proof. intros [H1 H2 H3] Ho Hz Hc. split; rewrite ?Ho, ?Hz, ?Hc; done. Qed.

Lemma below_seq v r n m : below v r -> m <= n -> below (with_seq n v) (with_seq m r).
Proof. intros [] H. split; try done. by eapply closed_same. Qed.

Lemma below_seq_l v r n : below v r -> seq v <= n -> below (with_seq n v) r.
Proof. intros [] H. split; try done; [cbn; lia|by eapply closed_same]. Qed.

(** A view below a well-formed one. *)
Section Below.
Context (v r : View) (Hb : below v r) (Hw : wf r).

Lemma below_order id o : orders v !! id = Some o -> orders r !! id = Some o.
Proof. intros H. by eapply lookup_weaken, be_orders. Qed.

Lemma below_authz id az : authzs v !! id = Some az -> authzs r !! id = Some az.
Proof. intros H. by eapply lookup_weaken, be_authzs. Qed.

Lemma below_challenge id c : challenges v !! id = Some c -> challenges r !! id = Some c.
Proof. intros H. by eapply lookup_weaken, be_challenges. Qed.

End Below.

(** ** Accounts *)

Definition put_account (a : account) (bk : gmap string string) (v : View) : View :=
  with_accounts (<[a_url a := a]> (accounts v)) bk v.

Lemma below_put_account v r a bk : below v r -> below (put_account a bk v) (put_account a bk r).
Proof. intros []. split; try done; [cbn; by f_equal|by eapply closed_same]. Qed.

Lemma evolves_put_account r a bk : evolves r (put_account a bk r).
Proof.
  split; cbn; eauto 10. intros url H. destruct (decide (a_url a = url)) as [->|Hne].
  - by rewrite lookup_insert_eq.
  - by rewrite lookup_insert_ne.
Qed.

(** A new account. *)
Lemma wf_new_account r a base n :
  wf r -> seq r < n -> a_url a = acct_url base n -> byKey r !! a_id a = None ->
  a_id a = Thumbprint (a_key a) -> ACMEKeyFromJWK (a_jwk a) = Ok (a_key a) -> a_status a = statusValid ->
  wf (with_seq n (put_account a (<[a_id a := a_url a]> (byKey r)) r)) /\ accounts r !! a_url a = None.
Proof.
  intros Hw Hn Hu Hk Ht Hj Hs. pose proof (wf_seq _ Hw).
  assert (Hfresh : accounts r !! a_url a = None).
  { destruct (accounts r !! a_url a) as [a'|] eqn:E; [|done]. exfalso.
    destruct (aw_number _ _ _ (wf_accounts _ Hw _ _ E)) as (b' & m & Heq & Hm).
    rewrite Hu in Heq. apply acct_url_inj in Heq; lia. }
  split; [|done]. eapply wf_frame; [exact Hw|done..|cbn; lia| |].
  - intros url a'. cbn. destruct (decide (a_url a = url)) as [<-|Hne].
    + rewrite lookup_insert_eq. intros [= <-]. split; try done; [|cbn; by rewrite lookup_insert_eq].
      exists base, n. split; [done|cbn; lia].
    + rewrite lookup_insert_ne by done. intros Ha'. eapply account_wf_frame; [by apply Hw| |cbn; lia].
      cbn. rewrite lookup_insert_ne; [done|]. intros Heq.
      pose proof (aw_index _ _ _ (wf_accounts _ Hw _ _ Ha')). congruence.
  - intros t url. cbn. destruct (decide (a_id a = t)) as [<-|Hne].
    + rewrite lookup_insert_eq. intros [= <-]. exists a. by rewrite lookup_insert_eq.
    + rewrite lookup_insert_ne by done. intros Hb. destruct (wf_byKey _ Hw _ _ Hb) as (a' & Ha' & Hid).
      exists a'. rewrite lookup_insert_ne; [done|]. intros <-. congruence.
Qed.

(** An account that changes its key or its contacts. *)
Lemma wf_update_account r a0 a :
  wf r -> accounts r !! a_url a = Some a0 ->
  (a_id a = a_id a0 \/ byKey r !! a_id a = None) ->
  a_id a = Thumbprint (a_key a) -> ACMEKeyFromJWK (a_jwk a) = Ok (a_key a) -> a_status a = statusValid ->
  wf (put_account a (<[a_id a := a_url a]> (delete (a_id a0) (byKey r))) r).
Proof.
  intros Hw Ha0 Hk Ht Hj Hs. pose proof (wf_accounts _ Hw _ _ Ha0) as H0.
  eapply wf_frame; [exact Hw|done..| |].
  - intros url a'. cbn. destruct (decide (a_url a = url)) as [<-|Hne].
    + rewrite lookup_insert_eq. intros [= <-]. split; try done; [apply H0|cbn; by rewrite lookup_insert_eq].
    + rewrite lookup_insert_ne by done. intros Ha'. eapply account_wf_frame; [by apply Hw| |done].
      pose proof (aw_index _ _ _ (wf_accounts _ Hw _ _ Ha')) as Hi. pose proof (aw_index _ _ _ H0) as Hi0.
      cbn. rewrite lookup_insert_ne, lookup_delete_ne; [done| |].
      * intros Heq. rewrite Heq in Hi0. congruence.
      * intros Heq. destruct Hk as [Hk|Hk]; congruence.
  - intros t url. cbn. destruct (decide (a_id a = t)) as [<-|Hne].
    + rewrite lookup_insert_eq. intros [= <-]. exists a. by rewrite lookup_insert_eq.
    + rewrite lookup_insert_ne by done. intros [Hd Hb]%lookup_delete_Some.
      destruct (wf_byKey _ Hw _ _ Hb) as (a' & Ha' & Hid).
      exists a'. rewrite lookup_insert_ne; [done|]. intros <-. congruence.
Qed.

(** ** Orders *)

(** Inserting a list of objects by their keys. *)
Lemma fold_insert_lookup {A} (key : A -> string) (l : list A) (m : gmap string A) k x :
  NoDup (key <$> l) ->
  fold_left (fun m a => <[key a := a]> m) l m !! k = Some x <->
  (x ∈ l /\ key x = k) \/ ((k ∉ (key <$> l)) /\ m !! k = Some x).
Proof.
  revert m. induction l as [|a l IH]; intros m; cbn [fold_left].
  - intros _. rewrite elem_of_nil. cbn. pose proof (not_elem_of_nil k). tauto.
  - rewrite fmap_cons. intros [Hn Hd]%NoDup_cons. rewrite IH by done.
    rewrite elem_of_cons, not_elem_of_cons. split.
    + intros [[Hx Hk]|[Hk Hl]]; [by left; split; [right|]|].
      destruct (decide (key a = k)) as [<-|Hne].
      * rewrite lookup_insert_eq in Hl. simplify_eq. left. by split; [left|].
      * rewrite lookup_insert_ne in Hl by done. right. by split_and!.
    + intros [[[->|Hx] <-]|[[Hne Hk] Hl]].
      * right. by rewrite lookup_insert_eq.
      * by left.
      * right. by rewrite lookup_insert_ne by done.
Qed.

Lemma fold_insert_mono {A} (key : A -> string) (l : list A) (m1 m2 : gmap string A) :
  m1 ⊆ m2 -> fold_left (fun m a => <[key a := a]> m) l m1 ⊆ fold_left (fun m a => <[key a := a]> m) l m2.
Proof. revert m1 m2. induction l as [|a l IH]; intros m1 m2 H; [done|]. cbn. by apply IH, insert_mono. Qed.

Definition zkey (p : authorization * list challenge) : string := z_id p.1.
Definition all_challenges (zs : list (authorization * list challenge)) : list challenge := mjoin (snd <$> zs).

Lemma put_authzs_fields zs v :
  let v' := fold_left put_authz zs v in
  authzs v' = fold_left (fun m z => <[z_id z := z]> m) (fst <$> zs) (authzs v) /\
  challenges v' = fold_left (fun m c => <[c_id c := c]> m) (all_challenges zs) (challenges v) /\
  v' = mkView (accounts v) (byKey v) (orders v) (authzs v') (challenges v') (certs v) (issued v) (revoked v) (ariWindows v) (earlyRenew v) (seq v).
Proof.
  revert v. induction zs as [|p zs IH]; intros v; cbn; [by destruct v|].
  destruct (IH (put_authz v p)) as (H1 & H2 & H3). split_and!.
  - by rewrite H1.
  - rewrite H2. unfold all_challenges. cbn [fmap list_fmap mjoin list_join]. by rewrite fold_left_app.
  - exact H3.
Qed.

(** The authorizations and challenges of a new order carry the numbers after [n],
    each its own. *)
Record batch (n n' : Z) (orderID : string) (zs : list (authorization * list challenge)) : Prop := {
  ba_le : n <= n';
  ba_authz : forall p, p ∈ zs -> (exists k, z_id p.1 = ID k /\ n < k <= n') /\ z_orderID p.1 = orderID /\ z_challenges p.1 = (c_id <$> p.2);
  ba_challenge : forall p c, p ∈ zs -> c ∈ p.2 -> (exists k, c_id c = ID k /\ n < k <= n') /\ c_authzID c = z_id p.1;
  ba_nodup : NoDup (z_id <$> (fst <$> zs));
  ba_nodup_c : NoDup (c_id <$> all_challenges zs)
}.

Lemma elem_all_challenges c zs : c ∈ all_challenges zs <-> exists p, p ∈ zs /\ c ∈ p.2.
Proof.
  unfold all_challenges. rewrite list_elem_of_join. split.
  - intros (l & Hc & Hl). apply list_elem_of_fmap in Hl as (p & -> & Hp). eauto.
  - intros (p & Hp & Hc). exists p.2. split; [done|]. by apply list_elem_of_fmap_2.
Qed.

Lemma make_challenges_batch env st azID types n cs n' :
  make_challenges env st azID types n = (cs, n') ->
  n <= n' /\ (forall c, c ∈ cs -> (exists k, c_id c = ID k /\ n < k <= n') /\ c_authzID c = azID /\ c_status c = st) /\
  NoDup (c_id <$> cs).
Proof.
  revert n cs. induction types as [|t types IH]; intros n cs; cbn [make_challenges].
  - intros [= <- <-]. split_and!; [lia| |constructor]. intros c Hc. by apply elem_of_nil in Hc.
  - destruct (make_challenges env st azID types (n + 1)) as [rest m] eqn:E. intros [= <- <-].
    destruct (IH _ _ E) as (Hle & Hc & Hd). split_and!; [lia| |].
    + intros c [->|Hin]%elem_of_cons.
      * cbn. split; [|done]. exists (n + 1). split; [done|lia].
      * destruct (Hc c Hin) as [(k & Hk & Hr) H2]. split; [|done]. exists k. split; [done|lia].
    + rewrite fmap_cons. apply NoDup_cons. split; [|done]. cbn. intros (c & Heq & Hin)%list_elem_of_fmap.
      destruct (Hc c Hin) as [(k & Hk & Hr) _]. rewrite Hk in Heq. apply ID_inj in Heq. lia.
Qed.

Lemma make_authzs_batch env st cst orderID ids n zs n' :
  make_authzs env st cst orderID ids n = (zs, n') ->
  batch n n' orderID zs /\
  (forall p, p ∈ zs -> z_status p.1 = st /\ forall c, c ∈ p.2 -> c_status c = cst) /\
  (z_domain <$> (fst <$> zs)) = fst <$> ids.
Proof.
  revert n zs. induction ids as [|[d types] ids IH]; intros n zs; cbn [make_authzs].
  { intros [= <- <-]. split_and!; [|intros p Hp; by apply elem_of_nil in Hp|done].
    split; [lia|intros p Hp; by apply elem_of_nil in Hp|intros p c Hp; by apply elem_of_nil in Hp|constructor|constructor]. }
  destruct (make_challenges env cst (ID (n + 1)) types (n + 1)) as [cs n1] eqn:Ec.
  destruct (make_authzs env st cst orderID ids n1) as [rest n2] eqn:Er. intros [= <- <-].
  destruct (make_challenges_batch _ _ _ _ _ _ _ Ec) as (Hle & Hc & Hd).
  destruct (IH _ _ Er) as ([Hle2 Hz2 Hc2 Hd2 Hd2'] & Hs2 & Hdom). split_and!.
  - split; [lia| | | |].
    + intros p [->|Hp]%elem_of_cons; cbn.
      * split_and!; [|done|done]. exists (n + 1). split; [done|lia].
      * destruct (Hz2 p Hp) as [(k & Hk & Hr) H2]. split; [|done]. exists k. split; [done|lia].
    + intros p c [->|Hp]%elem_of_cons; cbn; intros Hin.
      * destruct (Hc c Hin) as ((k & Hk & Hr) & ? & _). split; [|done]. exists k. split; [done|lia].
      * destruct (Hc2 p c Hp Hin) as [(k & Hk & Hr) H2]. split; [|done]. exists k. split; [done|lia].
    + rewrite !fmap_cons. apply NoDup_cons. split; [|done]. cbn.
      intros (z & Heq & (p & -> & Hp)%list_elem_of_fmap)%list_elem_of_fmap.
      destruct (Hz2 p Hp) as [(k & Hk & Hr) _]. rewrite Hk in Heq. apply ID_inj in Heq. lia.
    + unfold all_challenges. cbn [fmap list_fmap mjoin list_join snd]. rewrite fmap_app. apply NoDup_app. split_and!; [done| |done].
      intros x (c & -> & Hin)%list_elem_of_fmap (c' & Heq & Hin')%list_elem_of_fmap.
      apply elem_all_challenges in Hin' as (p & Hp & Hin').
      destruct (Hc c Hin) as ((k & Hk & Hr) & _). destruct (Hc2 p c' Hp Hin') as [(k' & Hk' & Hr') _].
      rewrite Hk, Hk' in Heq. apply ID_inj in Heq. lia.
  - intros p [->|Hp]%elem_of_cons; cbn; [|by apply Hs2]. split; [done|]. intros c Hin. by apply Hc.
  - rewrite !fmap_cons. cbn. by rewrite Hdom.
Qed.

#[local] Arguments put_order : simpl never.

(** Adding an order to a view whose ids all lie below its number. *)
Section PutOrder.
Context (o : order) (zs : list (authorization * list challenge)) (n n' : Z).
Hypothesis Hid : o_id o = ID n.
Hypothesis Hbatch : batch n n' (o_id o) zs.
Hypothesis Hrefs : o_authzIDs o = (z_id <$> (fst <$> zs)).

Lemma put_order_fields v :
  let v' := put_order o zs v in
  authzs v' = fold_left (fun m z => <[z_id z := z]> m) (fst <$> zs) (authzs v) /\
  challenges v' = fold_left (fun m c => <[c_id c := c]> m) (all_challenges zs) (challenges v) /\
  v' = mkView (accounts v) (byKey v) (<[o_id o := o]> (orders v)) (authzs v') (challenges v') (certs v) (issued v) (revoked v) (ariWindows v) (earlyRenew v) (seq v).
Proof.
  destruct (put_authzs_fields zs v) as (H1 & H2 & H3). unfold put_order. split_and!; [exact H1|exact H2|].
  rewrite H3. done.
Qed.

Lemma put_order_authz v k z :
  authzs (put_order o zs v) !! k = Some z <->
  (exists p, p ∈ zs /\ z = p.1 /\ z_id z = k) \/ ((k ∉ o_authzIDs o) /\ authzs v !! k = Some z).
Proof.
  destruct (put_order_fields v) as (-> & _ & _). rewrite fold_insert_lookup by apply Hbatch. rewrite Hrefs.
  rewrite list_elem_of_fmap. split; (intros [H|H]; [left|by right]).
  - destruct H as [(p & -> & Hp) Hk]. eauto.
  - destruct H as (p & Hp & -> & Hk). eauto.
Qed.

Lemma put_order_challenge v k c :
  challenges (put_order o zs v) !! k = Some c <->
  (exists p, p ∈ zs /\ c ∈ p.2 /\ c_id c = k) \/ ((k ∉ (c_id <$> all_challenges zs)) /\ challenges v !! k = Some c).
Proof.
  destruct (put_order_fields v) as (_ & -> & _). rewrite fold_insert_lookup by apply Hbatch.
  rewrite elem_all_challenges. naive_solver.
Qed.

Lemma put_order_orders v : orders (put_order o zs v) = <[o_id o := o]> (orders v).
Proof. by destruct (put_order_fields v) as (_ & _ & ->). Qed.

Lemma batch_authz_range id : id ∈ o_authzIDs o -> exists k, id = ID k /\ n < k <= n'.
Proof.
  rewrite Hrefs. intros (z & -> & (p & -> & Hp)%list_elem_of_fmap)%list_elem_of_fmap. by apply Hbatch.
Qed.

Lemma batch_challenge_range id : id ∈ (c_id <$> all_challenges zs) -> exists k, id = ID k /\ n < k <= n'.
Proof.
  intros (c & -> & (p & Hp & Hc)%elem_all_challenges)%list_elem_of_fmap. by eapply Hbatch.
Qed.

Section Onto.
Context (v : View) (Hfresh : seq v < n).

Lemma old_authz_stays id : numbered v id -> id ∉ o_authzIDs o.
Proof. intros Hn Hin. destruct (batch_authz_range _ Hin) as (k & -> & Hk). by eapply (numbered_fresh v k); [lia|]. Qed.

Lemma old_challenge_stays id : numbered v id -> id ∉ (c_id <$> all_challenges zs).
Proof. intros Hn Hin. destruct (batch_challenge_range _ Hin) as (k & -> & Hk). by eapply (numbered_fresh v k); [lia|]. Qed.

Lemma evolves_put_order : wf v -> evolves v (put_order o zs v).
Proof.
  intros Hw. split.
  - by destruct (put_order_fields v) as (_ & _ & ->).
  - intros id o' H. exists o'. split; [|done]. rewrite put_order_orders, lookup_insert_ne; [done|].
    intros Heq. eapply (numbered_fresh v n); [done|]. rewrite <- Hid, Heq. by eapply wf_orders.
  - intros id z H. exists z. split; [|done]. apply put_order_authz. right. split; [|done].
    by eapply old_authz_stays, wf_authzs.
  - intros id c H. exists c. split; [|done]. apply put_order_challenge. right. split; [|done].
    by eapply old_challenge_stays, wf_challenges.
Qed.

Hypothesis Hdomains : o_domains o = (z_domain <$> (fst <$> zs)).
Hypothesis Hacct : o_accountURL o <> "".
Hypothesis Hstatus : o_status o = statusPending \/
  o_status o = statusReady /\ forall p, p ∈ zs -> z_status p.1 = statusValid.

Lemma new_authz p : p ∈ zs -> authzs (put_order o zs v) !! z_id p.1 = Some p.1.
Proof. intros Hp. apply put_order_authz. left. eauto. Qed.

Lemma wf_put_order : wf v -> wf (with_seq n' (put_order o zs v)).
Proof.
  intros Hw. set (v' := with_seq n' (put_order o zs v)). pose proof (ba_le _ _ _ _ Hbatch) as Hle.
  assert (Hseq : seq v <= seq v') by (cbn; lia). pose proof (wf_seq _ Hw) as Hs0.
  assert (He : evolves v v') by (etrans; [by apply evolves_put_order|by apply evolves_same]).
  assert (Ha : accounts v' = accounts v) by (unfold v'; by destruct (put_order_fields v) as (_ & _ & ->)).
  assert (Hb : byKey v' = byKey v) by (unfold v'; by destruct (put_order_fields v) as (_ & _ & ->)).
  assert (Hc : certs v' = certs v) by (unfold v'; by destruct (put_order_fields v) as (_ & _ & ->)).
  assert (Hnum : forall k, n <= k <= n' -> numbered v' (ID k)) by (intros k Hk; exists k; split; [done|cbn; lia]).
  split.
  - intros url a H. rewrite Ha in H. eapply account_wf_frame; [by apply Hw|by rewrite Hb|done].
  - intros t url H. rewrite Hb in H. rewrite Ha. by apply Hw.
  - intros id o'. unfold v'. cbn. rewrite put_order_orders. destruct (decide (o_id o = id)) as [<-|Hne].
    + rewrite lookup_insert_eq. intros [= <-]. split; try done.
      * rewrite Hid. apply Hnum. lia.
      * rewrite Hrefs, Hdomains. apply Forall2_fmap, Forall2_fmap, Forall_Forall2_diag, Forall_forall.
        intros p Hp. exists p.1. cbn. split_and!; [by apply new_authz|done|]. by apply Hbatch.
      * tauto.
      * intros Hp id Hin. destruct Hstatus as [?|[_ Hv]]; [done|]. rewrite Hrefs in Hin.
        apply list_elem_of_fmap in Hin as (z & -> & (p & -> & Hz)%list_elem_of_fmap).
        exists p.1. cbn. split; [by apply new_authz|by apply Hv].
    + rewrite lookup_insert_ne by done. intros Ho. destruct (wf_orders _ Hw _ _ Ho) as [? ? ? H4 ? H6].
      split; try done; [by eapply numbered_mono| |].
      * eapply Forall2_impl; [exact H4|]. cbn. intros a d (z & Hz & H1 & H2).
        exists z. split; [|done]. apply put_order_authz. right. split; [|done]. by eapply old_authz_stays, wf_authzs.
      * intros Hp. by eapply all_valid_evolves; [exact He|done|apply H6].
  - intros id z Hz. unfold v' in Hz. cbn in Hz. apply put_order_authz in Hz as [(p & Hp & -> & <-)|[Hn Hz]].
    + destruct (ba_authz _ _ _ _ Hbatch _ Hp) as ((k & Hk & Hr) & Ho & _). split; [done| |].
      * rewrite Hk. apply Hnum. lia.
      * exists o. unfold v'. cbn. rewrite put_order_orders, Ho, lookup_insert_eq. split; [done|].
        rewrite Hrefs. apply list_elem_of_fmap_2, list_elem_of_fmap_2. done.
    + destruct (wf_authzs _ Hw _ _ Hz) as [? ? (o' & Ho' & Hin)]. split; [done|by eapply numbered_mono|].
      exists o'. split; [|done]. unfold v'. cbn. rewrite put_order_orders, lookup_insert_ne; [done|].
      intros Heq. eapply (numbered_fresh v n); [done|]. rewrite <- Hid, Heq. by eapply wf_orders.
  - intros id c Hc'. unfold v' in Hc'. cbn in Hc'. apply put_order_challenge in Hc' as [(p & Hp & Hin & <-)|[Hn Hc']].
    + destruct (ba_challenge _ _ _ _ Hbatch _ _ Hp Hin) as ((k & Hk & Hr) & Ho). split; [done| |].
      * rewrite Hk. apply Hnum. lia.
      * exists p.1. cbn. rewrite Ho. split; [by apply new_authz|].
        destruct (ba_authz _ _ _ _ Hbatch _ Hp) as (_ & _ & ->). by apply list_elem_of_fmap_2.
    + destruct (wf_challenges _ Hw _ _ Hc') as [? ? (z & Hz & Hin)]. split; [done|by eapply numbered_mono|].
      exists z. split; [|done]. cbn. apply put_order_authz. right. split; [|done]. by eapply old_authz_stays, wf_authzs.
  - intros id H. rewrite Hc in H. eapply numbered_mono; [done|by apply Hw].
  - cbn. lia.
Qed.

End Onto.

Lemma below_put_order v r :
  below v r -> wf r -> seq v < n -> below (with_seq n' (put_order o zs v)) (with_seq n' (put_order o zs r)).
Proof.
  intros Hb Hw Hn. pose proof (be_seq _ _ Hb) as Hs.
  assert (Hfr : seq r < n) by lia.
  destruct (put_order_fields v) as (Hz & Hc & Hv). destruct (put_order_fields r) as (Hz' & Hc' & Hr).
  pose proof (put_order_authz v) as Lz. pose proof (put_order_challenge v) as Lc.
  split; cbn; try (rewrite Hv, Hr; cbn; apply Hb).
  - rewrite !put_order_orders. by apply insert_mono, Hb.
  - rewrite Hz, Hz'. by apply fold_insert_mono, Hb.
  - rewrite Hc, Hc'. by apply fold_insert_mono, Hb.
  - done.
  - assert (Hold : forall id, is_Some (authzs v !! id) -> is_Some (authzs (put_order o zs v) !! id)).
    { intros id [z Hz0]. exists z. apply Lz. right. split; [|done].
      eapply old_authz_stays; [exact Hfr|]. eapply wf_authzs; [done|]. by eapply below_authz. }
    split; cbn.
    + intros id o' a. rewrite put_order_orders. destruct (decide (o_id o = id)) as [<-|Hne].
      * rewrite lookup_insert_eq. intros [= <-]. rewrite Hrefs.
        intros (z & -> & (p & -> & Hp)%list_elem_of_fmap)%list_elem_of_fmap. exists p.1. by apply new_authz.
      * rewrite lookup_insert_ne by done. intros Ho Ha. apply Hold. by eapply cl_order; [apply Hb|..].
    + intros id z H. rewrite put_order_orders. apply Lz in H as [(p & Hp & -> & _)|[_ H]].
      * destruct (ba_authz _ _ _ _ Hbatch _ Hp) as (_ & -> & _). by rewrite lookup_insert_eq.
      * destruct (decide (o_id o = z_orderID z)) as [->|]; [by rewrite lookup_insert_eq|].
        rewrite lookup_insert_ne by done. by eapply cl_authz; [apply Hb|].
    + intros id c H. apply Lc in H as [(p & Hp & Hin & _)|[_ H]].
      * destruct (ba_challenge _ _ _ _ Hbatch _ _ Hp Hin) as (_ & ->). exists p.1. by apply new_authz.
      * apply Hold. by eapply cl_challenge; [apply Hb|].
Qed.

End PutOrder.

(** ** Validated challenges *)

Lemma alter_mono_sub {A} (f : A -> A) k (m1 m2 : gmap string A) : m1 ⊆ m2 -> alter f k m1 ⊆ alter f k m2.
Proof.
  intros H. apply map_subseteq_spec. intros i x. rewrite !lookup_alter_Some.
  intros [(-> & y & Hy & ->)|[Hne Hx]]; [left; split; [done|]|right; split; [done|]]; eauto using lookup_weaken.
Qed.

Lemma insert_alter {A} (f : A -> A) k (m : gmap string A) x : m !! k = Some x -> <[k := f x]> m = alter f k m.
Proof.
  intros H. apply map_eq. intros i. destruct (decide (k = i)) as [<-|Hne].
  - by rewrite lookup_insert_eq, lookup_alter_eq, H.
  - by rewrite lookup_insert_ne, lookup_alter_ne.
Qed.

Definition put_valid (chID azID oID st : string) (v : View) : View :=
  mkView (accounts v) (byKey v) (alter (set_o_status st) oID (orders v)) (alter (set_az_status statusValid) azID (authzs v))
    (alter (set_ch_status statusValid) chID (challenges v)) (certs v) (issued v) (revoked v) (ariWindows v) (earlyRenew v) (seq v).

Lemma closed_put_valid chID azID oID st v : closed v -> closed (put_valid chID azID oID st v).
Proof.
  intros [H1 H2 H3]. split; cbn.
  - intros id o a H Ha. rewrite lookup_alter_is_Some. apply lookup_alter_Some in H as [(-> & o' & H & ->)|[_ H]]; exact (H1 _ _ _ H Ha).
  - intros id z H. rewrite lookup_alter_is_Some. apply lookup_alter_Some in H as [(-> & z' & H & ->)|[_ H]]; exact (H2 _ _ H).
  - intros id c H. rewrite lookup_alter_is_Some. apply lookup_alter_Some in H as [(-> & c' & H & ->)|[_ H]]; exact (H3 _ _ H).
Qed.

Lemma below_put_valid chID azID oID st v r :
  below v r -> below (put_valid chID azID oID st v) (put_valid chID azID oID st r).
Proof. intros []. split; try done; [by apply alter_mono_sub..|by apply closed_put_valid]. Qed.

Lemma evolves_put_valid chID azID oID st r : evolves r (put_valid chID azID oID st r).
Proof.
  split; cbn; [done| | |].
  - intros id o H. destruct (decide (oID = id)) as [->|Hne].
    + exists (set_o_status st o). rewrite lookup_alter_eq, H. done.
    + exists o. by rewrite lookup_alter_ne.
  - intros id z H. destruct (decide (azID = id)) as [->|Hne].
    + exists (set_az_status statusValid z). rewrite lookup_alter_eq, H. done.
    + exists z. by rewrite lookup_alter_ne.
  - intros id c H. destruct (decide (chID = id)) as [->|Hne].
    + exists (set_ch_status statusValid c). rewrite lookup_alter_eq, H. done.
    + exists c. by rewrite lookup_alter_ne.
Qed.

(** The status the order gets: ready when its other authorizations are valid, what
    it was otherwise. *)
Definition status_after (r : View) (azID st : string) (o : order) : Prop :=
  st = o_status o \/
  st = statusReady /\ forall id, id ∈ o_authzIDs o -> id <> azID -> exists z, authzs r !! id = Some z /\ z_status z = statusValid.

Lemma wf_put_valid chID azID oID st r az o :
  wf r -> authzs r !! azID = Some az -> z_orderID az = oID -> orders r !! oID = Some o -> status_after r azID st o ->
  wf (put_valid chID azID oID st r).
Proof.
  intros Hw Haz Hoz Ho Hst. set (r' := put_valid chID azID oID st r).
  pose proof (evolves_put_valid chID azID oID st r) as He. fold r' in He.
  assert (Hrefs : forall l d id, Forall2 (fun azID d => exists z, authzs r !! azID = Some z /\ z_domain z = d /\ z_orderID z = id) l d ->
    Forall2 (fun azID d => exists z, authzs r' !! azID = Some z /\ z_domain z = d /\ z_orderID z = id) l d).
  { intros l d id HF. eapply Forall2_impl; [exact HF|]. cbn. intros a b (z & Hz & Hd & Hoid).
    destruct (ev_authzs _ _ He _ _ Hz) as (z' & Hz' & Hd' & Ho' & _). exists z'. split_and!; [done|congruence|congruence]. }
  split; try apply Hw.
  - intros url a H. eapply account_wf_frame; [by apply Hw|done|done].
  - intros id o' H. cbn in H. apply lookup_alter_Some in H as [(-> & o0 & H & ->)|[Hne H]].
    + rewrite Ho in H. simplify_eq. destruct (wf_orders _ Hw _ _ Ho) as [? ? ? H4 H5 H6]. split; try done; [by apply Hrefs| |].
      * cbn. destruct Hst as [->|[-> _]]; tauto.
      * cbn. intros Hp. destruct Hst as [->|[-> Hoth]]; [by eapply all_valid_evolves; [exact He|done|apply H6]|].
        intros id Hid. destruct (decide (id = azID)) as [->|Hne].
        -- exists (set_az_status statusValid az). cbn. by rewrite lookup_alter_eq, Haz.
        -- destruct (Hoth id Hid Hne) as (z & Hz & Hv). exists z. cbn. by rewrite lookup_alter_ne.
    + destruct (wf_orders _ Hw _ _ H) as [? ? ? H4 H5 H6]. split; try done; [by apply Hrefs|].
      intros Hp. by eapply all_valid_evolves; [exact He|done|apply H6].
  - intros id z H. cbn in H.
    assert (exists z0, authzs r !! id = Some z0 /\ z_id z = z_id z0 /\ z_orderID z = z_orderID z0) as (z0 & Hz0 & Hi & Hoz0).
    { apply lookup_alter_Some in H as [(-> & z0 & H & ->)|[_ H]]; by eexists. }
    destruct (wf_authzs _ Hw _ _ Hz0) as [H1 H2 (o0 & Ho0 & Hin)]. split; [congruence|done|].
    destruct (ev_orders _ _ He _ _ Ho0) as (o1 & Ho1 & Ha & _). exists o1. rewrite Hoz0, Ha. done.
  - intros id c H. cbn in H.
    assert (exists c0, challenges r !! id = Some c0 /\ c_id c = c_id c0 /\ c_authzID c = c_authzID c0) as (c0 & Hc0 & Hi & Hz0).
    { apply lookup_alter_Some in H as [(-> & c0 & H & ->)|[_ H]]; by eexists. }
    destruct (wf_challenges _ Hw _ _ Hc0) as [H1 H2 (z0 & Hz & Hin)]. split; [congruence|done|].
    rewrite Hz0. cbn. destruct (decide (azID = c_authzID c0)) as [->|Hne].
    + exists (set_az_status statusValid z0). by rewrite lookup_alter_eq, Hz.
    + exists z0. by rewrite lookup_alter_ne.
Qed.

(** ** Certificates *)

Definition put_cert (p : acmeCertificateIssuedEvent) (v : View) : View :=
  mkView (accounts v) (byKey v) (alter (set_o_cert (ie_CertID p) statusValid) (ie_OrderID p) (orders v)) (authzs v) (challenges v)
    (<[ie_CertID p := ie_CertificatePEM p]> (certs v))
    (if String.eqb (ie_Fingerprint p) "" then issued v else <[ie_Fingerprint p := ie_Issued p]> (issued v))
    (revoked v)
    (if String.eqb (ie_ARICertID p) "" then ariWindows v
     else <[ie_ARICertID p := mkWindow (ie_NotBefore p) (ie_NotAfter p)]> (ariWindows v))
    (earlyRenew v) (Z.max (seq v) (ie_Seq p)).

Lemma apply_cert p v o :
  ie_OrderID p <> "" -> ie_CertID p <> "" -> orders v !! ie_OrderID p = Some o ->
  applyCertificateIssuedEventLocked p v = (Ok tt, put_cert p v).
Proof.
  intros H1 H2 Ho. unfold applyCertificateIssuedEventLocked.
  rewrite (proj2 (String.eqb_neq _ _) H1), (proj2 (String.eqb_neq _ _) H2). cbn [orb]. rewrite Ho, rememberSeq_eq.
  unfold put_cert. by rewrite <- (insert_alter (set_o_cert (ie_CertID p) statusValid) _ _ _ Ho).
Qed.

Lemma evolves_put_cert p r : evolves r (put_cert p r).
Proof.
  split; cbn; [done| |eauto 10..]. intros id o H. destruct (decide (ie_OrderID p = id)) as [->|Hne].
  - exists (set_o_cert (ie_CertID p) statusValid o). by rewrite lookup_alter_eq, H.
  - exists o. by rewrite lookup_alter_ne.
Qed.

Lemma wf_put_cert p r o n :
  wf r -> seq r < n -> ie_CertID p = ID n -> ie_Seq p = n -> orders r !! ie_OrderID p = Some o -> all_valid r o ->
  wf (put_cert p r).
Proof.
  intros Hw Hn Hid Hs Ho Hv. pose proof (wf_seq _ Hw).
  assert (Hle : seq r <= seq (put_cert p r)) by (cbn; lia).
  split.
  - intros url a H1. eapply account_wf_frame; [by apply Hw|done|done].
  - apply Hw.
  - intros id o' H1. cbn in H1. apply lookup_alter_Some in H1 as [(<- & o0 & H1 & ->)|[Hne H1]].
    + destruct (wf_orders _ Hw _ _ H1) as [? ? ? H4 H5 H6]. rewrite Ho in H1. simplify_eq.
      split; try done; [by eapply numbered_mono|cbn; tauto].
    + destruct (wf_orders _ Hw _ _ H1) as [? ? ? H4 H5 H6]. split; try done. by eapply numbered_mono.
  - intros id z H1. destruct (wf_authzs _ Hw _ _ H1) as [? ? (o0 & Ho0 & Hin)]. split; [done|by eapply numbered_mono|].
    cbn. destruct (ev_orders _ _ (evolves_put_cert p r) _ _ Ho0) as (o1 & Ho1 & Ha & _). exists o1. by rewrite Ha.
  - intros id c H1. destruct (wf_challenges _ Hw _ _ H1) as [? ? ?]. split; [done|by eapply numbered_mono|done].
  - intros id. cbn. destruct (decide (ie_CertID p = id)) as [<-|Hne].
    + intros _. exists n. split; [done|cbn; lia].
    + rewrite lookup_insert_ne by done. intros H1. eapply numbered_mono; [exact Hle|by apply Hw].
  - cbn. lia.
Qed.

Lemma dom_if_insert {A} (b : bool) (k : string) (x : A) (m1 m2 : gmap string A) :
  dom m1 ⊆ dom m2 -> dom (if b then m1 else <[k := x]> m1) ⊆ dom (if b then m2 else <[k := x]> m2).
Proof. destruct b; [done|]. set_solver. Qed.

Lemma below_put_cert p v r : below v r -> below (put_cert p v) (put_cert p r).
Proof.
  intros []. split; try done; cbn; [by apply alter_mono_sub|by apply insert_mono|by apply dom_if_insert..|lia|].
  destruct be_closed0 as [H1 H2 H3]. split; cbn; [| |done].
  - intros id o a [(<- & o' & H & ->)|[_ H]]%lookup_alter_Some Ha; exact (H1 _ _ _ H Ha).
  - intros id z H. rewrite lookup_alter_is_Some. exact (H2 _ _ H).
Qed.

(** The order was dropped from memory before its certificate was recorded: the log
    has the certificate, the serving view does not. *)
Lemma below_put_cert_gone p v r n :
  below v r -> ie_Seq p = n -> seq v < n -> orders v !! ie_OrderID p = None -> certs v !! ie_CertID p = None ->
  below (with_seq n v) (put_cert p r).
Proof.
  intros [] Hn Hs Ho Hc. split; try done; cbn.
  - apply map_subseteq_spec. intros i x Hx. rewrite lookup_alter_ne by congruence. by eapply lookup_weaken.
  - by apply insert_subseteq_r.
  - case_match; [done|]. set_solver.
  - case_match; [done|]. set_solver.
  - lia.
  - by eapply closed_same.
Qed.

(** ** Expired orders *)

Lemma fold_delete_lookup {A} (l : list string) (m : gmap string A) k :
  fold_left (fun m id => delete id m) l m !! k = if bool_decide (k ∈ l) then None else m !! k.
Proof.
  revert m. induction l as [|a l IH]; intros m; cbn [fold_left].
  - by rewrite bool_decide_eq_false_2 by apply not_elem_of_nil.
  - rewrite IH. destruct (decide (k ∈ l)) as [H|H].
    + rewrite !bool_decide_eq_true_2; [done|by right|done].
    + rewrite (bool_decide_eq_false_2 _ H). destruct (decide (k = a)) as [->|Hne].
      * rewrite bool_decide_eq_true_2 by by left. by rewrite lookup_delete_eq.
      * rewrite bool_decide_eq_false_2 by (rewrite not_elem_of_cons; tauto). by rewrite lookup_delete_ne.
Qed.

(** Whether the challenge is listed by one of these authorizations. *)
Definition listed (v : View) (l : list string) (cid : string) : Prop :=
  exists a az, a ∈ l /\ authzs v !! a = Some az /\ cid ∈ z_challenges az.

Lemma delete_authzs_spec l v :
  let v' := fold_left delete_authz l v in
  (forall k z, authzs v' !! k = Some z <-> (k ∉ l) /\ authzs v !! k = Some z) /\
  (forall k c, challenges v' !! k = Some c <-> challenges v !! k = Some c /\ ~ listed v l k) /\
  v' = mkView (accounts v) (byKey v) (orders v) (authzs v') (challenges v') (certs v) (issued v) (revoked v) (ariWindows v) (earlyRenew v) (seq v).
Proof.
  revert v. induction l as [|a l IH]; intros v; cbn [fold_left].
  { split_and!; [|intros k c; split; [intros H; split; [done|by intros (? & ? & H0%elem_of_nil & _)]|by intros [? _]]|by destruct v].
    intros k z. pose proof (not_elem_of_nil k). tauto. }
  destruct (IH (delete_authz v a)) as (H1 & H2 & H3). clear IH.
  assert (Hz : authzs (delete_authz v a) = delete a (authzs v)) by (unfold delete_authz; by destruct (authzs v !! a)).
  assert (Hl : forall k, listed v (a :: l) k <-> listed (delete_authz v a) l k \/ exists az, authzs v !! a = Some az /\ k ∈ z_challenges az).
  { intros k. unfold listed. rewrite Hz. split.
    - intros (b & z & Hb & Hbz & Hk). destruct (decide (b = a)) as [->|Hne]; [right; eauto|].
      left. exists b, z. rewrite lookup_delete_ne by done. apply elem_of_cons in Hb as [?|]; [done|]. done.
    - intros [(b & z & Hb & Hbz & Hk)|(z & Hbz & Hk)].
      + apply lookup_delete_Some in Hbz as [_ Hbz]. exists b, z. split_and!; [by right|done|done].
      + exists a, z. split_and!; [by left|done|done]. }
  split_and!.
  - intros k z. rewrite H1, Hz, lookup_delete_Some, not_elem_of_cons. naive_solver.
  - intros k c. rewrite H2, Hl. unfold delete_authz. destruct (authzs v !! a) as [az|] eqn:Ea; cbn.
    + rewrite fold_delete_lookup. case_bool_decide as Hk; naive_solver.
    + naive_solver.
  - rewrite H3. unfold delete_authz. by destruct (authzs v !! a).
Qed.

Lemma below_delete_order id v r : below v r -> wf r -> below (deleteOrderStateLocked id v) r.
Proof.
  intros Hb Hw. unfold deleteOrderStateLocked. destruct (orders v !! id) as [o|] eqn:Ho; [|done].
  destruct (delete_authzs_spec (o_authzIDs o) v) as (Hz & Hc & Hv). set (v1 := fold_left delete_authz (o_authzIDs o) v) in *.
  pose proof (below_order _ _ Hb _ _ Ho) as Hor. pose proof (wf_orders _ Hw _ _ Hor) as How.
  (* the authorizations of the order are those that refer to it *)
  assert (Href : forall a z, authzs v !! a = Some z -> a ∈ o_authzIDs o <-> z_orderID z = id).
  { intros a z Haz. pose proof (below_authz _ _ Hb _ _ Haz) as Har. split.
    - intros Hin. apply list_elem_of_lookup in Hin as [i Hi].
      destruct (Forall2_lookup_l _ _ _ _ _ (ow_authzs _ _ _ How) Hi) as (d & _ & z' & Hz' & _ & ?). congruence.
    - intros <-. destruct (zw_order _ _ _ (wf_authzs _ Hw _ _ Har)) as (o' & Ho' & Hin). congruence. }
  split; try (rewrite Hv; cbn; apply Hb); cbn.
  - rewrite Hv. cbn. etrans; [apply delete_subseteq|apply Hb].
  - apply map_subseteq_spec. intros k z [_ H]%Hz. by eapply below_authz.
  - apply map_subseteq_spec. intros k c [H _]%Hc. by eapply below_challenge.
  - split; cbn.
    + intros k o' a. rewrite Hv. cbn. intros [Hne Hk]%lookup_delete_Some Ha.
      destruct (cl_order _ (be_closed _ _ Hb) _ _ _ Hk Ha) as [z Haz]. exists z. apply Hz. split; [|done].
      rewrite (Href _ _ Haz). intros Heq. pose proof (below_order _ _ Hb _ _ Hk) as Hkr.
      apply list_elem_of_lookup in Ha as [i Hi].
      destruct (Forall2_lookup_l _ _ _ _ _ (ow_authzs _ _ _ (wf_orders _ Hw _ _ Hkr)) Hi) as (d & _ & z' & Hz' & _ & ?).
      pose proof (below_authz _ _ Hb _ _ Haz). congruence.
    + intros k z [Hn H]%Hz. rewrite Hv. cbn. destruct (cl_authz _ (be_closed _ _ Hb) _ _ H) as [o' Ho'].
      exists o'. apply lookup_delete_Some. split; [|done]. intros Heq. apply Hn. by rewrite (Href _ _ H).
    + intros k c [H Hn]%Hc. destruct (cl_challenge _ (be_closed _ _ Hb) _ _ H) as [z Haz]. exists z. apply Hz.
      split; [|done]. intros Hin. apply Hn. exists (c_authzID c), z. split_and!; [done|done|].
      pose proof (below_challenge _ _ Hb _ _ H) as Hcr. pose proof (below_authz _ _ Hb _ _ Haz).
      destruct (cw_authz _ _ _ (wf_challenges _ Hw _ _ Hcr)) as (z' & ? & ?). congruence.
Qed.

Lemma below_prune_view cfg now v r : below v r -> wf r -> below (prune_view cfg now v) r.
Proof.
  intros Hb Hw. unfold prune_view. generalize (expired_orders cfg now v). intros l. revert v Hb.
  induction l as [|id l IH]; intros v Hb; cbn; [done|]. by apply IH, below_delete_order.
Qed.

Lemma prune_view_accounts cfg now v : accounts (prune_view cfg now v) = accounts v.
Proof.
  unfold prune_view. generalize (expired_orders cfg now v). intros l. revert v.
  induction l as [|id l IH]; intros v; cbn; [done|]. rewrite IH. unfold deleteOrderStateLocked.
  destruct (orders v !! id) as [o|]; [|done]. destruct (delete_authzs_spec (o_authzIDs o) v) as (_ & _ & ->). done.
Qed.

Lemma prune_view_seq cfg now v : seq (prune_view cfg now v) = seq v.
Proof.
  unfold prune_view. generalize (expired_orders cfg now v). intros l. revert v.
  induction l as [|id l IH]; intros v; cbn; [done|]. rewrite IH. unfold deleteOrderStateLocked.
  destruct (orders v !! id) as [o|]; [|done]. destruct (delete_authzs_spec (o_authzIDs o) v) as (_ & _ & ->). done.
Qed.

End Wf.

End AcmeSpec.
