(* ===== verification/AcmeRun.v ===== *)
(** * Runs of the ACME server

    Requests interleave at the sections of their handlers, the server restarts from
    its log, and other components append to the same log.  [sound] is the invariant
    of every run: the log replays, the replayed view is well formed, the serving
    view is below it, and every authorization that is valid was validated. *)

From S2P Require Import Prelude Json Tenancy Events Base64 AcmeJose AcmeState AcmeParse AcmeServer AcmeSpec.
Open Scope string_scope.
Open Scope list_scope.
Open Scope Z_scope.

Module AcmeRun.
Import SE Tenancy Events Base64 AcmeJose AcmeState AcmeParse AcmeServer AcmeSpec.

#[local] Arguments put_order : simpl never.
#[local] Arguments GoStrings.HasPrefix : simpl never.

Lemma forallb_ext_in' {A} (f g : A -> bool) l : (forall x, x ∈ l -> f x = g x) -> forallb f l = forallb g l.
Proof.
  induction l as [|a l IH]; intros H; [done|]. cbn. rewrite (H a), IH; [done| |by left]. intros x Hx. apply H. by right.
Qed.

Section Run.
Context {J : JoseCrypto} `{!JoseLaws J} {T : TimeText} `{!TimeTextLaws T} {C : CertInfo}.
Context {ES : EventStream} `{!EventStreamLaws ES} {R : Router}.

(** ** Replay *)

Definition replayed (tenantID : string) (st : Stream) (r : View) : Prop :=
  each (replay_fn tenantID) (events_from 1 st) emptyView = (Ok tt, r).

Lemma WithStateLog_replayed tenantID st r :
  tenantID <> "" -> WithStateLog tenantID (Some st) emptyView = Ok r <-> replayed tenantID st r.
Proof.
  intros Ht. unfold WithStateLog, replayed. rewrite (proj2 (String.eqb_neq _ _) Ht), Replay_each by lia.
  destruct (each _ _ _) as [[[]|e] v]; split; congruence.
Qed.

(** An event whose application is known extends the replay. *)
Lemma replayed_snoc tenantID st st' ev r r' :
  replayed tenantID st r -> events_from 1 st' = events_from 1 st ++ [ev] ->
  replay_fn tenantID ev r = (Ok tt, r') -> replayed tenantID st' r'.
Proof. unfold replayed. intros Hr -> Hf. rewrite each_app, Hr. cbn. by rewrite Hf. Qed.

Definition applies (typ : string) (d : data) (r r' : View) : Prop :=
  forall ev, ev_Type ev = typ -> ev_Data ev = d -> ev_SchemaVersion ev = DefaultSchemaVersion ->
    applyStateEventLocked ev r = (Ok tt, r').

Ltac of_type := intros ev Ht Hd Hv; unfold applyStateEventLocked; rewrite Ht, Hd, Hv; cbn -[decode_account decode_order_event
  decode_challenge_event decode_cert_event decode_revoked_event decode_early]; unfold decoded.

Lemma applies_account p r r' :
  int64 (ae_Seq p) = true -> is_Some (ae_JWK p) -> applyAccountEventLocked p r = (Ok tt, r') ->
  applies acmeEventAccountUpserted (encode_account p) r r'.
Proof. intros Hs Hj H. of_type. by rewrite account_roundtrip. Qed.

Lemma applies_order p d r r' :
  int64 (oe_Seq p) = true -> encode_order_event p = Some d -> applyOrderCreatedEventLocked p r = (Ok tt, r') ->
  applies acmeEventOrderCreated d r r'.
Proof. intros Hs Hd0 H. of_type. by rewrite (order_event_roundtrip _ _ Hs Hd0). Qed.

Lemma applies_challenge p r r' :
  applyChallengeValidatedEventLocked p r = (Ok tt, r') -> applies acmeEventChallengeValidated (encode_challenge_event p) r r'.
Proof. intros H. of_type. by rewrite challenge_event_roundtrip. Qed.

Lemma applies_cert p d r r' :
  int64 (ie_Seq p) = true -> encode_cert_event p = Some d -> applyCertificateIssuedEventLocked p r = (Ok tt, r') ->
  applies acmeEventCertificateIssued d r r'.
Proof. intros Hs Hd0 H. of_type. by rewrite (cert_event_roundtrip _ _ Hs Hd0). Qed.

Lemma applies_revoked p d r r' :
  int64 (re_Reason p) = true -> encode_revoked_event p = Some d -> applyCertificateRevokedEventLocked p r = (Ok tt, r') ->
  applies acmeEventCertificateRevoked d r r'.
Proof. intros Hs Hd0 H. of_type. by rewrite (revoked_event_roundtrip _ _ Hs Hd0). Qed.

Lemma applies_early c r r' :
  applyEarlyRenewalEventLocked c r = (Ok tt, r') -> applies acmeEventEarlyRenewalMarked (encode_early c) r r'.
Proof. intros H. of_type. by rewrite early_roundtrip. Qed.

Variable cfg : Config.
Variable tenant : string.
Hypothesis Hlog : stateLog cfg = Some tenant.
Hypothesis Htenant : tenant <> "".

Lemma appendState_ok env typ payload st u st' :
  appendState cfg env typ payload st = (Ok u, st') -> Fresh st (e_nuid env) -> GoStrings.HasPrefix typ acmeEventPrefix = true ->
  exists d, payload = Some d /\ forall r r', replayed tenant st r -> applies typ d r r' -> replayed tenant st' r'.
Proof.
  unfold appendState, appendStateEventLocked. rewrite Hlog. rewrite (proj2 (String.eqb_neq _ _) Htenant).
  destruct payload as [d|]; [|done]. destruct (Append _ _ _ _ st) as [[ev|e] st1] eqn:Ha; [|done]. intros [= _ ->] Hf Hp.
  exists d. split; [done|]. intros r r' Hr Happ.
  destruct (append_ok _ _ _ _ _ _ _ _ Ha Hf) as (H1 & H2 & H3 & _ & _ & _ & H4 & _ & _ & H5).
  eapply replayed_snoc; [exact Hr|apply H5; pose proof (LastSeq_nonneg st); lia|].
  unfold replay_fn. rewrite H1, H2. cbn [ev_Type ev_TenantID]. rewrite String.eqb_refl, Hp. cbn [negb orb].
  by apply Happ.
Qed.

Lemma appendState_err env typ payload st e st' : appendState cfg env typ payload st = (Err e, st') -> st' = st.
Proof.
  unfold appendState, appendStateEventLocked. rewrite Hlog. case_match; [by intros [= _ ->]|].
  destruct payload as [d|]; [|by intros [= _ ->]]. destruct (Append _ _ _ _ st) as [[ev|e'] st1] eqn:Ha; [done|].
  intros [= _ ->]. by eapply append_err.
Qed.

(** ** The invariant *)

Definition mode : string := or_default (authMode cfg) ACMEAuthModePublicTrust.

Hypothesis Hmode : mode = ACMEAuthModePublicTrust \/ mode = ACMEAuthModeTrustAuthenticated.

Definition validated (h : list Effect) (domain : string) : Prop :=
  exists ch typ token keyAuth, Validated ch typ domain token keyAuth ∈ h.

(** In a mount of public trust a valid authorization was validated. *)
Definition backed (r : View) (h : list Effect) : Prop :=
  trusted mode = false ->
  forall id az, authzs r !! id = Some az -> z_status az = statusValid -> validated h (z_domain az).

Definition good (s : Server) (st : Stream) (h : list Effect) (r : View) : Prop :=
  replayed tenant st r /\ wf r /\ below (view s) r /\ backed r h.

Definition acct_ok (r : View) (acct : option string) : Prop :=
  match acct with Some url => is_Some (accounts r !! url) | None => True end.

Definition names_challenge (r : View) (chID domain : string) : Prop :=
  exists c az, challenges r !! chID = Some c /\ authzs r !! c_authzID c = Some az /\ z_domain az = domain.

Definition flight_ok (r : View) (h : list Effect) (f : flight) : Prop :=
  match f with
  | FVerify _ _ acct _ | FHandle _ _ acct _ => acct_ok r acct
  | FValidate rq acct _ ch d => acct_ok r acct /\ names_challenge r (r_PathID rq) d
  | FAccept rq _ _ => exists d, names_challenge r (r_PathID rq) d /\ validated h d
  | FIssued _ acct _ oid _ => acct_ok r acct /\ exists o, orders r !! oid = Some o /\ all_valid r o
  | FRevoke _ fp _ req _ => fp <> "" /\ int64 (rr_Reason req) = true
  end.

Lemma validated_mono h h' d : h ⊆ h' -> validated h d -> validated h' d.
Proof. intros Hs (c & t & k & a & H). exists c, t, k, a. by apply Hs. Qed.

Lemma acct_ok_evolves r r' a : evolves r r' -> acct_ok r a -> acct_ok r' a.
Proof. intros He. destruct a; [by apply He|done]. Qed.

Lemma names_challenge_evolves r r' c d : evolves r r' -> names_challenge r c d -> names_challenge r' c d.
Proof.
  intros He (ch & az & Hc & Hz & Hd). destruct (ev_challenges _ _ He _ _ Hc) as (ch' & Hc' & Ha & _).
  destruct (ev_authzs _ _ He _ _ Hz) as (az' & Hz' & Hd' & _). exists ch', az'. rewrite Ha. split_and!; [done|done|congruence].
Qed.

Lemma flight_ok_mono r r' h h' f : evolves r r' -> h ⊆ h' -> flight_ok r h f -> flight_ok r' h' f.
Proof.
  intros He Hh. destruct f; cbn; try by apply acct_ok_evolves.
  - intros [Ha Hn]. split; [by eapply acct_ok_evolves|by eapply names_challenge_evolves].
  - intros (d & Hn & Hv). exists d. split; [by eapply names_challenge_evolves|by eapply validated_mono].
  - intros [Ha (o & Ho & Hv)]. split; [by eapply acct_ok_evolves|].
    destruct (ev_orders _ _ He _ _ Ho) as (o' & Ho' & Heq & _). exists o'. split; [done|]. by eapply all_valid_evolves.
  - done.
Qed.

(** A request for a certificate names validated domains only. *)
Definition issue_ok (h eff : list Effect) : Prop :=
  trusted mode = false -> forall oid req acct, Issuing oid req acct ∈ eff -> Forall (validated h) (ir_DNSNames req).

(** What a section establishes, whatever its outcome. *)
Definition post (h : list Effect) (r : View) (out : Out) : Prop :=
  let '(o, s', st', eff) := out in
  exists r', good s' st' (h ++ eff) r' /\ evolves r r' /\ issue_ok h eff /\
    match o with Next f => flight_ok r' (h ++ eff) f | Done _ => True end.

Lemma backed_mono r h h' : h ⊆ h' -> backed r h -> backed r h'.
Proof. intros Hh Hb Hm id az H1 H2. by eapply validated_mono, Hb. Qed.

Lemma good_mono s st h h' r : h ⊆ h' -> good s st h r -> good s st h' r.
Proof. intros Hh (H1 & H2 & H3 & H4). split_and!; try done. by eapply backed_mono. Qed.

Lemma no_issue h eff : (forall oid req acct, Issuing oid req acct ∉ eff) -> issue_ok h eff.
Proof. intros H _ oid req acct Hin. by destruct (H oid req acct). Qed.

Ltac no_issue := apply no_issue; intros; rewrite ?not_elem_of_cons; split_and?; try done; apply not_elem_of_nil.

(** A section that changes neither the log nor the replayed view. *)
Lemma post_same h r o s' st eff :
  good s' st h r -> (forall oid req acct, Issuing oid req acct ∉ eff) ->
  match o with Next f => flight_ok r (h ++ eff) f | Done _ => True end -> post h r (o, s', st, eff).
Proof.
  intros Hg Hi Hf. exists r. split_and!; [|done|by apply no_issue|done]. eapply good_mono; [|exact Hg]. set_solver.
Qed.

Lemma post_finish h r nonce rep s st : good s st h r -> post h r (finish nonce rep s st).
Proof. intros Hg. apply post_same; [done|intros; apply not_elem_of_nil|done]. Qed.

(** The view alone matters. *)
Lemma good_view s s' st h r : good s st h r -> below (view s') r -> good s' st h r.
Proof. intros (H1 & H2 & H3 & H4) Hb. by split_and!. Qed.

Lemma good_prune env s st h r : good s st h r -> good (pruneExpiredLocked cfg (e_now env) s) st h r.
Proof. intros Hg. eapply good_view; [exact Hg|]. destruct Hg as (_ & Hw & Hb & _). by apply below_prune_view. Qed.

Lemma consume_view src k now s : view (consumeSourceLocked cfg src k now s).2 = view s.
Proof. unfold consumeSourceLocked. destruct k; by case_match. Qed.

Lemma mint_view env s n s' : mintNonce cfg env s = Some (n, s') -> view s' = view s.
Proof. unfold mintNonce. case_match; [done|]. by intros [= _ <-]. Qed.

Lemma good_seq s st h r n : good s st h r -> seq (view s) <= n -> good (with_view (with_seq n (view s)) s) st h r.
Proof. intros Hg Hn. eapply good_view; [exact Hg|]. apply below_seq_l; [apply Hg|done]. Qed.

(** A section that appended an event. *)
Lemma post_append env typ payload st st' u h r r' nonce rep s' eff :
  appendState cfg env typ payload st = (Ok u, st') -> Fresh st (e_nuid env) ->
  GoStrings.HasPrefix typ acmeEventPrefix = true ->
  replayed tenant st r -> (forall d, payload = Some d -> applies typ d r r') ->
  wf r' -> below (view s') r' -> backed r' h -> evolves r r' ->
  (forall oid req acct, Issuing oid req acct ∉ eff) ->
  post h r (Done (nonce, rep), s', st', eff).
Proof.
  intros Ha Hf Hp Hr Happ Hw Hb Hbk He Hi.
  destruct (appendState_ok _ _ _ _ _ _ Ha Hf Hp) as (d & -> & Hs).
  exists r'. split_and!; [|done|by apply no_issue|done].
  split_and!; [eapply Hs; [exact Hr|by apply Happ]|done|done|]. eapply backed_mono; [|exact Hbk]. set_solver.
Qed.

(** The range of a sequence number that JSON carries. *)
Lemma int64_seq n : 0 <= n -> n < 2 ^ 63 -> int64 n = true.
Proof. intros H1 H2. unfold int64. apply andb_true_iff. split; [apply Z.leb_le|apply Z.ltb_lt]; lia. Qed.

Lemma backed_evolves_authzs r r' h : authzs r' = authzs r -> backed r h -> backed r' h.
Proof. intros Heq Hb Hm id az H. rewrite Heq in H. exact (Hb Hm id az H). Qed.

(** ** Sections *)

Lemma newNonce_post env r s st h v : good s st h v -> post h v (newNonce cfg env r s st).
Proof.
  intros Hg. unfold newNonce. apply (good_prune env) in Hg.
  destruct (consumeSourceLocked _ _ _ _ _) as [ok s1] eqn:Ec.
  pose proof (consume_view (sourceKey r) BNonce (e_now env) (pruneExpiredLocked cfg (e_now env) s)) as Hv. rewrite Ec in Hv. cbn in Hv.
  assert (Hg1 : good s1 st h v) by (eapply good_view; [exact Hg|rewrite Hv; apply Hg]).
  destruct ok; cbn [negb]; [|by apply post_finish].
  destruct (mintNonce cfg env s1) as [[n s2]|] eqn:Em; [|by apply post_finish].
  apply post_same; [|intros; rewrite not_elem_of_cons; split; [done|apply not_elem_of_nil]|done].
  eapply good_view; [exact Hg1|]. rewrite (mint_view _ _ _ _ Em). apply Hg1.
Qed.

Lemma jws_open_post env r s st h v : good s st h v -> post h v (jws_open cfg env r s st).
Proof.
  intros Hg. unfold jws_open. case_match; [|case_match; by apply post_finish].
  destruct (ParseACMEJWS _) as [msg|]; [|by apply post_finish].
  apply (good_prune env) in Hg. set (s1 := pruneExpiredLocked cfg (e_now env) s) in *.
  destruct (nonces s1 !! _) as [t|]; [|by apply post_finish].
  set (s2 := with_nonces _ s1). assert (Hg2 : good s2 st h v) by exact Hg.
  assert (Hi : forall n oid req acct, Issuing oid req acct ∉ [Accepted n])
    by (intros; rewrite not_elem_of_cons; split; [done|apply not_elem_of_nil]).
  destruct (negb (String.eqb (p_Kid (Protected msg)) "")).
  - destruct (accounts (view s2) !! _) as [acc|] eqn:Ea; [|by apply post_same].
    apply post_same; [done|done|]. cbn. destruct Hg2 as (_ & Hw & Hb & _).
    rewrite (be_accounts _ _ Hb) in Ea. rewrite (aw_url _ _ _ (wf_accounts _ Hw _ _ Ea)). by rewrite Ea.
  - case_bool_decide; [|by apply post_same]. destruct (ACMEKeyFromJWK _); by apply post_same.
Qed.

Lemma jws_mint_post env r m acct key s st h v :
  good s st h v -> acct_ok v acct -> post h v (jws_mint cfg env r m acct key s st).
Proof.
  intros Hg Ha. unfold jws_mint. destruct (Verify m key); [|by apply post_finish].
  apply (good_prune env) in Hg. set (s1 := pruneExpiredLocked cfg (e_now env) s) in *.
  destruct (mintNonce cfg env s1) as [[n s2]|] eqn:Em; [|by apply post_finish].
  apply post_same; [|intros; rewrite not_elem_of_cons; split; [done|apply not_elem_of_nil]|done].
  eapply good_view; [exact Hg|]. rewrite (mint_view _ _ _ _ Em). apply Hg.
Qed.

(** *** Accounts *)

(** Replaying the event of an account that exists, and of a new one. *)
Lemma apply_account_update a a0 r :
  wf r -> accounts r !! a_url a = Some a0 -> a_id a <> "" -> is_Some (a_jwk a) ->
  ACMEKeyFromJWK (a_jwk a) = Ok (a_key a) -> a_status a = statusValid ->
  applyAccountEventLocked (accountEventFrom a 0) r =
  (Ok tt, put_account a (<[a_id a := a_url a]> (delete (a_id a0) (byKey r))) r).
Proof.
  intros Hw Ha0 Hid Hj Hk Hs. unfold applyAccountEventLocked, accountEventFrom. cbn -[put_account].
  pose proof (wf_accounts _ Hw _ _ Ha0) as [Hu (b & n & Hn & _) _ Ht _ _].
  assert (a_url a <> "") as Hu0 by (rewrite Hn; apply acct_url_nonempty).
  rewrite (proj2 (String.eqb_neq _ _) Hid), (proj2 (String.eqb_neq _ _) Hu0). cbn [orb].
  rewrite bool_decide_eq_false_2 by (destruct Hj as [? ->]; done). rewrite Hk, Ha0. cbn [negb].
  assert (Hid0 : a_id a0 <> "") by (rewrite Ht; by apply Thumbprint_nonempty).
  rewrite (proj2 (String.eqb_neq _ _) Hid0). cbn [negb andb].
  rewrite rememberSeq_eq. cbn [seq with_accounts]. rewrite Z.max_l by apply (wf_seq _ Hw).
  do 2 f_equal. unfold put_account.
  assert (mkAccount (a_id a) (a_url a) (a_key a) (a_jwk a) (a_contact a) (or_default (a_status a) statusValid) = a) as ->
    by (rewrite Hs; by destruct a; cbn in *; subst).
  destruct (String.eqb_spec (a_id a0) (a_id a)) as [Heq|Hne]; cbn [negb]; [|by destruct r].
  rewrite Heq, insert_delete_eq. by destruct r.
Qed.

Lemma apply_account_new a n r :
  accounts r !! a_url a = None -> seq r <= n -> a_url a <> "" -> a_id a <> "" -> is_Some (a_jwk a) ->
  ACMEKeyFromJWK (a_jwk a) = Ok (a_key a) -> a_status a = statusValid ->
  applyAccountEventLocked (accountEventFrom a n) r =
  (Ok tt, with_seq n (put_account a (<[a_id a := a_url a]> (byKey r)) r)).
Proof.
  intros Ha0 Hn Hu Hid Hj Hk Hs. unfold applyAccountEventLocked, accountEventFrom. cbn -[put_account].
  rewrite (proj2 (String.eqb_neq _ _) Hid), (proj2 (String.eqb_neq _ _) Hu). cbn [orb].
  rewrite bool_decide_eq_false_2 by (destruct Hj as [? ->]; done). rewrite Hk, Ha0. cbn [negb String.eqb andb].
  rewrite rememberSeq_eq. cbn [seq with_accounts]. rewrite Z.max_r by done.
  do 2 f_equal. unfold put_account.
  assert (mkAccount (a_id a) (a_url a) (a_key a) (a_jwk a) (a_contact a) (or_default (a_status a) statusValid) = a) as ->
    by (rewrite Hs; by destruct a; cbn in *; subst). done.
Qed.

(** The counter of ids has not reached the end of its type. *)
Definition bounded (out : Out) : Prop := let '(_, s', _, _) := out in seq (view s') < 2 ^ 63.

Lemma updateAccount_post env req jwk acct nonce s st h r :
  good s st h r -> Fresh st (e_nuid env) -> accounts r !! a_url acct = Some acct ->
  post h r (updateAccount cfg env req jwk acct nonce s st).
Proof.
  intros Hg Hf Ha. unfold updateAccount. destruct (na_Contact req) as [|c0 contact]; [by apply post_finish|].
  set (updated := set_contact _ _ acct). destruct (appendState _ _ _ _ _) as [[u|e] st'] eqn:E.
  2:{ rewrite (appendState_err _ _ _ _ _ _ E). by apply post_finish. }
  pose proof Hg as (Hr & Hw & Hb & Hbk). pose proof (wf_accounts _ Hw _ _ Ha) as Hawf.
  assert (Hj : is_Some (a_jwk acct)) by (eapply ACMEKeyFromJWK_Some, aw_jwk; exact Hawf).
  assert (a_jwk updated = a_jwk acct) as Hj' by (cbn; by destruct Hj as [? ->]).
  assert (Hid : a_id acct <> "") by (rewrite (aw_thumb _ _ _ Hawf); by apply Thumbprint_nonempty).
  set (bk := <[a_id acct := a_url acct]> (delete (a_id acct) (byKey r))).
  assert (Hbk' : bk = byKey r) by (unfold bk; rewrite insert_delete_eq; apply insert_id, (aw_index _ _ _ Hawf)).
  eapply (post_append _ _ _ _ _ _ _ _ (put_account updated bk r)); [exact E|done|done|exact Hr| | | | | |intros; apply not_elem_of_nil].
  - intros d [= <-]. rewrite <- Hj' in Hj. eapply applies_account; [done|exact Hj|].
    rewrite (apply_account_update updated acct); try done.
    + rewrite Hj'. apply Hawf.
    + apply Hawf.
  - apply (wf_update_account r acct updated); try done.
    + by left.
    + apply Hawf.
    + rewrite Hj'. apply Hawf.
    + apply Hawf.
  - cbn. rewrite (be_byKey _ _ Hb), <- Hbk'. by apply (below_put_account (view s) r updated bk).
  - by eapply backed_evolves_authzs.
  - apply evolves_put_account.
Qed.

Lemma createAccount_post env rq req jwk key nonce s st h r :
  good s st h r -> Fresh st (e_nuid env) -> ACMEKeyFromJWK jwk = Ok key -> byKey r !! Thumbprint key = None ->
  bounded (createAccount cfg env rq req jwk key nonce s st) ->
  post h r (createAccount cfg env rq req jwk key nonce s st).
Proof.
  intros Hg Hf Hk Hn Hseq. unfold bounded, createAccount in *.
  destruct (consumeSourceLocked _ _ _ _ _) as [ok s1] eqn:Ec.
  pose proof (consume_view (sourceKey rq) BAccount (e_now env) s) as Hv. rewrite Ec in Hv. cbn in Hv.
  assert (Hg1 : good s1 st h r) by (eapply good_view; [exact Hg|rewrite Hv; apply Hg]). clear Hg Ec Hv s.
  destruct ok; cbn [negb] in *; [|by apply post_finish].
  destruct (MaxAccounts (quota cfg) <=? _); [by apply post_finish|]. destruct (checkEAB cfg rq req (Thumbprint key)); [by apply post_finish|].
  unfold nextID in *. set (n := seq (view s1) + 1) in *. set (a := mkAccount _ _ _ _ _ _) in *.
  cbn [seq with_seq] in *. pose proof Hg1 as (Hr & Hw & Hb & Hbk). pose proof (be_seq _ _ Hb) as Hs. pose proof (wf_seq _ Hw) as H0.
  destruct (appendState _ _ _ _ _) as [[u|e] st'] eqn:E.
  2:{ rewrite (appendState_err _ _ _ _ _ _ E). apply post_finish. apply (good_seq s1); [done|lia]. }
  assert (Hu : a_url a = acct_url (baseURL rq) n) by done.
  destruct (wf_new_account r a (baseURL rq) n) as [Hw' Hfr]; try done; [lia|].
  assert (Hnb : n < 2 ^ 63) by exact Hseq.
  eapply (post_append _ _ _ _ _ _ _ _ (with_seq n (put_account a (<[a_id a := a_url a]> (byKey r)) r)));
    [exact E|done|done|exact Hr| |exact Hw'| |by eapply backed_evolves_authzs| |intros; apply not_elem_of_nil].
  - intros d [= <-]. eapply applies_account; [cbn; apply int64_seq; lia|by eapply ACMEKeyFromJWK_Some|].
    apply apply_account_new; try done; [lia|rewrite Hu; apply acct_url_nonempty|by apply Thumbprint_nonempty|by eapply ACMEKeyFromJWK_Some].
  - cbn. rewrite (be_byKey _ _ Hb).
    apply (below_seq _ _ n n), (below_put_account _ _ a (<[a_id a := a_url a]> (byKey r))) in Hb; [|lia]. exact Hb.
  - etrans; [apply evolves_put_account|by apply evolves_same].
Qed.

Lemma account_by_key_None thumb v r :
  below v r -> wf r -> account_by_key thumb v = None -> byKey r !! thumb = None.
Proof.
  intros Hb Hw. unfold account_by_key. rewrite (be_byKey _ _ Hb), (be_accounts _ _ Hb).
  destruct (byKey r !! thumb) as [url|] eqn:E; [|done]. cbn.
  destruct (wf_byKey _ Hw _ _ E) as (acc & -> & _). done.
Qed.

Lemma account_by_key_Some thumb v r acc :
  below v r -> wf r -> account_by_key thumb v = Some acc ->
  byKey r !! thumb = Some (a_url acc) /\ accounts r !! a_url acc = Some acc.
Proof.
  intros Hb Hw. unfold account_by_key. rewrite (be_byKey _ _ Hb), (be_accounts _ _ Hb).
  destruct (byKey r !! thumb) as [url|] eqn:E; [|done]. cbn. intros Ha.
  by rewrite (aw_url _ _ _ (wf_accounts _ Hw _ _ Ha)).
Qed.

Lemma newAccount_post env rq m nonce s st h r :
  good s st h r -> Fresh st (e_nuid env) -> bounded (newAccount cfg env rq m nonce s st) ->
  post h r (newAccount cfg env rq m nonce s st).
Proof.
  intros Hg Hf. unfold newAccount. destruct (ACMEKeyFromJWK _) as [key|] eqn:Hk; [|intros _; by apply post_finish].
  destruct (parseNewAccount _) as [req|]; [|intros _; by apply post_finish].
  apply (good_prune env) in Hg. set (s1 := pruneExpiredLocked cfg (e_now env) s) in *.
  destruct (account_by_key _ _) as [acc|] eqn:Ea.
  - intros _. apply updateAccount_post; try done. by eapply account_by_key_Some; [apply Hg|apply Hg|].
  - destruct (na_OnlyReturnExisting req); [intros _; by apply post_finish|].
    apply createAccount_post; try done. by eapply account_by_key_None; [apply Hg|apply Hg|].
Qed.

Lemma rotate_post env newKey jwk a nonce s st h r :
  good s st h r -> Fresh st (e_nuid env) -> accounts r !! a_url a = Some a -> ACMEKeyFromJWK jwk = Ok newKey ->
  (forall url, byKey r !! Thumbprint newKey = Some url -> url = a_url a) ->
  post h r (rotate cfg env newKey jwk a nonce s st).
Proof.
  intros Hg Hf Ha Hk Hother. unfold rotate. set (updated := mkAccount _ _ _ _ _ _).
  destruct (appendState _ _ _ _ _) as [[u|e] st'] eqn:E.
  2:{ rewrite (appendState_err _ _ _ _ _ _ E). by apply post_finish. }
  pose proof Hg as (Hr & Hw & Hb & Hbk). pose proof (wf_accounts _ Hw _ _ Ha) as Hawf.
  eapply (post_append _ _ _ _ _ _ _ _ (put_account updated (<[a_id updated := a_url updated]> (delete (a_id a) (byKey r))) r));
    [exact E|done|done|exact Hr| | | |by eapply backed_evolves_authzs|apply evolves_put_account|intros; apply not_elem_of_nil].
  - intros d [= <-]. eapply applies_account; [done|by eapply ACMEKeyFromJWK_Some|].
    apply apply_account_update; try done; [by apply Thumbprint_nonempty|by eapply ACMEKeyFromJWK_Some|apply Hawf].
  - apply (wf_update_account r a updated); try done; [|apply Hawf].
    destruct (byKey r !! a_id updated) as [url|] eqn:Eu; [|by right]. left.
    destruct (wf_byKey _ Hw _ _ Eu) as (a' & Ha' & Hid). rewrite (Hother _ Eu) in Ha'. congruence.
  - cbn. rewrite (be_byKey _ _ Hb), <- (aw_thumb _ _ _ Hawf). by apply (below_put_account (view s) r updated).
Qed.

Lemma keyChange_post env rq m acct nonce s st h r :
  good s st h r -> Fresh st (e_nuid env) -> post h r (keyChange cfg env rq m acct nonce s st).
Proof.
  intros Hg Hf. pose proof Hg as (Hr & Hw & Hb & Hbk). unfold keyChange.
  destruct acct as [url|]; [|by apply post_finish]. destruct (ParseACMEJWS _) as [inner|]; [|by apply post_finish].
  destruct (ACMEKeyFromJWK (p_JWK (Protected inner))) as [newKey|] eqn:Hk; [|by apply post_finish].
  destruct (Verify inner newKey); [|by apply post_finish].
  destruct (ParseKeyChangeInner _) as [body|]; [|by apply post_finish].
  destruct (ACMEKeyFromJWK (kc_OldKey body)) as [oldKey|]; [|by apply post_finish].
  case_match; [by apply post_finish|]. destruct (accounts (view s) !! url) as [acc|] eqn:Ea; [|by apply post_finish].
  rewrite (be_accounts _ _ Hb) in Ea. pose proof (aw_url _ _ _ (wf_accounts _ Hw _ _ Ea)) as Hu. subst url.
  case_match; [by apply post_finish|]. destruct (account_by_key _ _) as [other|] eqn:Eo.
  - destruct (account_by_key_Some _ _ _ _ Hb Hw Eo) as [Ht _].
    destruct (String.eqb_spec (a_url other) (a_url acc)) as [Heq|]; cbn [negb]; [|by apply post_finish].
    apply rotate_post; try done. intros url Hurl. congruence.
  - pose proof (account_by_key_None _ _ _ Hb Hw Eo). apply rotate_post; try done. intros url Hurl. congruence.
Qed.

(** *** Orders *)

Lemma or_default_id s d : s <> "" -> or_default s d = s.
Proof. intros H. unfold or_default. by rewrite (proj2 (String.eqb_neq _ _) H). Qed.

Lemma apply_challenges_eq cs v :
  (forall c, c ∈ cs -> c_id c <> "" /\ c_authzID c <> "" /\ c_status c <> "") ->
  apply_challenges (challengeState <$> cs) v =
  (Ok tt, with_challenges (fold_left (fun m c => <[c_id c := c]> m) cs (challenges v)) v).
Proof.
  revert v. induction cs as [|c cs IH]; intros v H; cbn -[with_challenges]; [by destruct v|].
  destruct (H c) as (H1 & H2 & H3); [by left|].
  rewrite (proj2 (String.eqb_neq _ _) H1), (proj2 (String.eqb_neq _ _) H2). cbn [orb].
  rewrite IH by (intros; apply H; by right).
  assert (challenge_of (challengeState c) = c) as ->; [|done].
  unfold challenge_of, challengeState. cbn. rewrite or_default_id by done. by destruct c.
Qed.

Lemma apply_authzs_eq zs v :
  (forall p, p ∈ zs -> z_id p.1 <> "" /\ z_orderID p.1 <> "" /\ z_status p.1 <> "" /\ z_challenges p.1 = (c_id <$> p.2) /\
     forall c, c ∈ p.2 -> c_id c <> "" /\ c_authzID c <> "" /\ c_status c <> "") ->
  apply_authzs ((fun p => authzState p.1 p.2) <$> zs) v = (Ok tt, fold_left put_authz zs v).
Proof.
  revert v. induction zs as [|[z cs] zs IH]; intros v H; [done|].
  destruct (H (z, cs)) as (H1 & H2 & H3 & H4 & H5); [by left|]. cbn [fst snd] in *.
  cbn [fmap list_fmap apply_authzs fold_left fst snd zs_ID zs_OrderID authzState zs_Challenges].
  rewrite (proj2 (String.eqb_neq _ _) H1), (proj2 (String.eqb_neq _ _) H2). cbn [orb].
  rewrite apply_challenges_eq by done. rewrite IH by (intros; apply H; by right).
  assert (authz_of (authzState z cs) = z) as ->; [|done].
  unfold authz_of, authzState. cbn. rewrite or_default_id by done.
  assert (cs_ID <$> (challengeState <$> cs) = z_challenges z) as ->
    by (rewrite H4, <- list_fmap_compose; by apply list_fmap_ext).
  by destruct z.
Qed.

Lemma apply_order_eq o zs n v :
  o_id o <> "" -> o_accountURL o <> "" -> o_status o <> "" -> profileACMEAuthMode (o_authMode o) = o_authMode o ->
  (forall p, p ∈ zs -> z_id p.1 <> "" /\ z_orderID p.1 <> "" /\ z_status p.1 <> "" /\ z_challenges p.1 = (c_id <$> p.2) /\
     forall c, c ∈ p.2 -> c_id c <> "" /\ c_authzID c <> "" /\ c_status c <> "") ->
  seq v <= n ->
  applyOrderCreatedEventLocked (orderCreatedEventFrom o zs n) v = (Ok tt, with_seq n (put_order o zs v)).
Proof.
  intros H1 H2 H3 H4 H5 Hn. unfold applyOrderCreatedEventLocked, orderCreatedEventFrom. cbn [oe_Order oe_Authorizations oe_Seq].
  unfold orderState at 1 2. cbn [os_ID os_AccountURL].
  rewrite (proj2 (String.eqb_neq _ _) H1), (proj2 (String.eqb_neq _ _) H2). cbn [orb].
  assert (order_of (orderState o) = o) as ->.
  { unfold order_of, orderState. cbn -[profileACMEAuthMode]. rewrite H4, or_default_id by done. by destruct o. }
  rewrite apply_authzs_eq by done. rewrite rememberSeq_eq.
  destruct (put_authzs_fields zs (with_orders (<[os_ID (orderState o) := o]> (orders v)) v)) as (Hz & Hc & Hv).
  destruct (put_order_fields o zs v) as (Hz' & Hc' & Hv').
  set (v1 := fold_left put_authz zs _) in *.
  assert (v1 = put_order o zs v) as -> by (by rewrite Hv, Hv', Hz, Hc, Hz', Hc').
  assert (seq (put_order o zs v) = seq v) as -> by (by rewrite Hv'). by rewrite Z.max_r.
Qed.

Lemma put_order_with_seq o zs n v : put_order o zs (with_seq n v) = with_seq n (put_order o zs v).
Proof.
  destruct (put_order_fields o zs v) as (Hz & Hc & Hv). destruct (put_order_fields o zs (with_seq n v)) as (Hz' & Hc' & Hv').
  rewrite Hv, Hv', Hz, Hc, Hz', Hc'. done.
Qed.

Lemma mode_normal : profileACMEAuthMode mode = mode.
Proof. destruct Hmode as [-> | ->]; by vm_compute. Qed.

Lemma createOrder_post env rq req types url nonce s st h r :
  good s st h r -> Fresh st (e_nuid env) -> is_Some (accounts r !! url) -> (fst <$> types) = Domains req ->
  bounded (createOrder cfg env rq req mode types url nonce s st) ->
  post h r (createOrder cfg env rq req mode types url nonce s st).
Proof.
  intros Hg Hf Hacct Htypes Hseq. unfold bounded, createOrder in *.
  apply (good_prune env) in Hg. set (s1 := pruneExpiredLocked cfg (e_now env) s) in *.
  destruct (consumeSourceLocked _ _ _ _ _) as [ok s2] eqn:Ec.
  pose proof (consume_view (sourceKey rq) BOrder (e_now env) s1) as Hv. rewrite Ec in Hv. cbn in Hv.
  assert (Hg2 : good s2 st h r) by (eapply good_view; [exact Hg|rewrite Hv; apply Hg]).
  assert (Hfin : post h r (finish (Some nonce) (rateLimited cfg) s2 st)) by by apply post_finish. clear Hg Ec Hv.
  destruct ok; cbn [negb] in *; [|done].
  destruct (MaxPendingOrders (quota cfg) <=? _); [done|]. destruct (MaxPendingOrdersPerAccount (quota cfg) <=? _); [done|].
  destruct (MaxPendingAuthorizations (quota cfg) <? _); [done|]. destruct (MaxPendingChallenges (quota cfg) <? _); [done|].
  unfold nextID in *. cbn [seq with_seq] in *. set (n0 := seq (view s2) + 1) in *.
  destruct (make_authzs _ _ _ _ _ _) as [zs n] eqn:Em. set (o := mkOrder _ _ _ _ _ _ _ _ _) in *.
  destruct (make_authzs_batch _ _ _ _ _ _ _ _ Em) as (Hbatch & Hst & Hdom). clear Em.
  pose proof Hg2 as (Hr & Hw & Hb & Hbk). pose proof (be_seq _ _ Hb) as Hs. pose proof (wf_seq _ Hw) as H0.
  pose proof (ba_le _ _ _ _ Hbatch) as Hle.
  destruct (appendState _ _ _ _ _) as [[u|e] st'] eqn:E.
  2:{ rewrite (appendState_err _ _ _ _ _ _ E). apply post_finish. apply (good_seq s2); [done|lia]. }
  assert (Hrefs : o_authzIDs o = (z_id <$> (fst <$> zs))) by (cbn; by rewrite <- list_fmap_compose).
  assert (Hurl : url <> "").
  { destruct Hacct as [acc Ha]. destruct (aw_number _ _ _ (wf_accounts _ Hw _ _ Ha)) as (b & k & -> & _). apply acct_url_nonempty. }
  assert (Hn : n < 2 ^ 63).
  { cbn in Hseq. by destruct (put_order_fields o zs (with_seq n (with_seq n0 (view s2)))) as (_ & _ & Hv); rewrite Hv in Hseq. }
  assert (Hstat : o_status o = statusPending \/ o_status o = statusReady /\ forall p, p ∈ zs -> z_status p.1 = statusValid).
  { cbn. destruct (trusted mode); [right|by left]. split; [done|]. intros p Hp. by apply Hst. }
  assert (Hpub : trusted mode = false -> forall p, p ∈ zs -> z_status p.1 = statusPending).
  { intros Hm p Hp. rewrite Hm in Hst. by apply Hst. }
  assert (Hw' : wf (with_seq n (put_order o zs r))).
  { eapply (wf_put_order o zs n0 n); try done; [lia|]. cbn. by rewrite Hdom, Htypes. }
  eapply (post_append _ _ _ _ _ _ _ _ (with_seq n (put_order o zs r)));
    [exact E|done|done|exact Hr| |exact Hw'| | | |intros; apply not_elem_of_nil].
  - intros d Hd. eapply applies_order; [|exact Hd|].
    + cbn. apply int64_seq; lia.
    + apply apply_order_eq; [by apply ID_nonempty|done|cbn; by destruct (trusted mode)|apply mode_normal| |lia].
      intros p Hp. destruct (ba_authz _ _ _ _ Hbatch _ Hp) as ((k & Hk & _) & Ho & Hc). destruct (Hst p Hp) as [Hz Hcs].
      split_and!; [rewrite Hk; apply ID_nonempty|rewrite Ho; apply ID_nonempty|rewrite Hz; by destruct (trusted mode)|done|].
      intros c Hin. destruct (ba_challenge _ _ _ _ Hbatch _ _ Hp Hin) as ((j & Hj & _) & Hz').
      split_and!; [rewrite Hj; apply ID_nonempty|rewrite Hz', Hk; apply ID_nonempty|rewrite (Hcs c Hin); by destruct (trusted mode)].
  - cbn. rewrite !put_order_with_seq.
    change (with_seq n (with_seq n0 (put_order o zs (view s2)))) with (with_seq n (put_order o zs (view s2))).
    eapply (below_put_order o zs n0 n); try done. lia.
  - intros Hm id az Haz Hv. cbn in Haz. apply (put_order_authz o zs n0 n) in Haz; [|done|done].
    destruct Haz as [(p & Hp & -> & _)|[_ Haz]]; [|by eapply Hbk].
    rewrite (Hpub Hm p Hp) in Hv. done.
  - transitivity (put_order o zs r); [|by apply evolves_same]. eapply (evolves_put_order o zs n0 n); try done. lia.
Qed.

Lemma challengeTypes_domains env ids types :
  challengeTypes cfg env ids = Ok types -> (fst <$> types) = (id_Value <$> ids).
Proof.
  revert types. induction ids as [|i ids IH]; intros types; cbn [challengeTypes]; [by intros [= <-]|].
  destruct (challengeTypesForDomain _ _ _) as [ts|]; [|done]. cbn [res_bind].
  destruct (challengeTypes cfg env ids) as [rest|]; [|done]. cbn [res_bind]. intros [= <-].
  rewrite !fmap_cons. cbn. by rewrite (IH _ eq_refl).
Qed.

Lemma newOrder_post env rq m acct nonce s st h r :
  good s st h r -> Fresh st (e_nuid env) -> acct_ok r acct -> bounded (newOrder cfg env rq m acct nonce s st) ->
  post h r (newOrder cfg env rq m acct nonce s st).
Proof.
  intros Hg Hf Ha. unfold newOrder. destruct acct as [url|]; [|intros _; by apply post_finish].
  destruct (ParseOrderRequest _) as [req|]; [|intros _; by apply post_finish].
  destruct (if _ : bool then _ else _) as [[[] retry]|]; [|intros _; by apply post_finish..].
  fold mode. destruct (trusted mode).
  - apply createOrder_post; try done. rewrite <- list_fmap_compose. by apply list_fmap_ext.
  - destruct (challengeTypes _ _ _) as [types|] eqn:E; [|intros _; by apply post_finish].
    apply createOrder_post; try done. by eapply challengeTypes_domains.
Qed.

(** *** Challenges *)

Lemma find_challenge_ok rq s st h r ch az :
  good s st h r -> find_challenge rq (view s) = Some (ch, az) ->
  challenges (view s) !! r_PathID rq = Some ch /\ authzs (view s) !! c_authzID ch = Some az /\
  challenges r !! r_PathID rq = Some ch /\ authzs r !! c_authzID ch = Some az /\
  c_id ch = r_PathID rq /\ z_id az = c_authzID ch /\
  exists o, orders (view s) !! z_orderID az = Some o /\ orders r !! z_orderID az = Some o /\ o_id o = z_orderID az.
Proof.
  intros (_ & Hw & Hb & _). unfold find_challenge.
  destruct (challenges (view s) !! r_PathID rq) as [c|] eqn:Ec; [|done]. cbn.
  destruct (authzs (view s) !! c_authzID c) as [z|] eqn:Ez; [|done]. cbn. intros [= <- <-].
  pose proof (below_challenge _ _ Hb _ _ Ec) as Hc. pose proof (below_authz _ _ Hb _ _ Ez) as Hz.
  destruct (cl_authz _ (be_closed _ _ Hb) _ _ Ez) as [o Ho]. pose proof (below_order _ _ Hb _ _ Ho) as Hor.
  split_and!; try done; [by eapply cw_id, wf_challenges|by eapply zw_id, wf_authzs|].
  exists o. split_and!; try done. by eapply ow_id, wf_orders.
Qed.

Lemma accept_open_post rq acct nonce s st h r :
  good s st h r -> acct_ok r acct -> post h r (accept_open rq acct nonce s st).
Proof.
  intros Hg Ha. unfold accept_open. destruct (find_challenge _ _) as [[ch az]|] eqn:E; [|by apply post_finish].
  destruct (find_challenge_ok _ _ _ _ _ _ _ Hg E) as (_ & _ & Hc & Hz & _).
  apply post_same; [done|intros; apply not_elem_of_nil|]. split; [done|]. by exists ch, az.
Qed.

Lemma accept_validate_post env rq acct nonce ch domain s st h r :
  good s st h r -> names_challenge r (r_PathID rq) domain ->
  post h r (accept_validate cfg env rq acct nonce ch domain s st).
Proof.
  intros Hg Hn. unfold accept_validate. destruct (challengeAllowed _ _ _ _); [|by apply post_finish].
  destruct (acct ≫= _) as [acc|]; [|by apply post_finish].
  set (ka := _ +:+ "." +:+ _). set (v := Validated _ _ _ _ _).
  assert (Hv : forall l, v ∈ l -> validated (h ++ l) domain) by (intros l Hl; eexists _, _, _, _; apply elem_of_app; by right).
  destruct (String.eqb _ _ && _).
  - destruct (negb (e_Present _ _ _ _)); [apply post_same; [done|intros; apply not_elem_of_nil|done]|].
    destruct (negb (e_Validate _ _ _ _ _)); apply post_same; try done.
    + intros. rewrite !not_elem_of_cons. split_and!; try done. apply not_elem_of_nil.
    + intros. rewrite !not_elem_of_cons. split_and!; try done. apply not_elem_of_nil.
    + exists domain. split; [done|]. apply Hv. right. by left.
  - destruct (negb (e_Validate _ _ _ _ _)); apply post_same; try done.
    + intros. apply not_elem_of_nil.
    + intros. rewrite !not_elem_of_cons. split_and!; try done. apply not_elem_of_nil.
    + exists domain. split; [done|]. apply Hv. by left.
Qed.

(** The status the event carries is the one the handler computes afterwards. *)
Lemma others_valid_after v ch az o :
  authzs v !! c_authzID ch = Some az -> z_id az = c_authzID ch ->
  forall v', authzs v' = <[c_authzID ch := set_az_status statusValid az]> (authzs v) ->
  allAuthzValid v' o = others_valid v az o.
Proof.
  intros Hz Hid v' Hv. unfold allAuthzValid, others_valid. apply forallb_ext_in'. intros id _. unfold authz_valid. rewrite Hv.
  destruct (String.eqb_spec id (z_id az)) as [->|Hne].
  - rewrite Hid, lookup_insert_eq. done.
  - rewrite lookup_insert_ne by congruence. done.
Qed.

Lemma apply_valid_eq ch az o st r :
  challenges r !! c_id ch = Some ch -> authzs r !! z_id az = Some az -> orders r !! o_id o = Some o ->
  o_id o <> "" -> st <> "" ->
  applyChallengeValidatedEventLocked (challengeValidatedEventFrom ch az (Some o) st) r =
  (Ok tt, put_valid (c_id ch) (z_id az) (o_id o) st r).
Proof.
  intros Hc Hz Ho H1 H2. unfold applyChallengeValidatedEventLocked, challengeValidatedEventFrom. cbn -[put_valid].
  rewrite Hc, Hz, Ho. rewrite (proj2 (String.eqb_neq _ _) H1), (proj2 (String.eqb_neq _ _) H2). cbn [negb andb].
  unfold put_valid.
  rewrite <- (insert_alter (set_o_status st) _ _ _ Ho), <- (insert_alter (set_az_status statusValid) _ _ _ Hz),
    <- (insert_alter (set_ch_status statusValid) _ _ _ Hc). done.
Qed.

Lemma accept_commit_post env rq nonce presented s st h r :
  good s st h r -> Fresh st (e_nuid env) -> flight_ok r h (FAccept rq nonce presented) ->
  post h r (accept_commit cfg env rq nonce presented s st).
Proof.
  intros Hg Hf (d & (c0 & az0 & Hc0 & Hz0 & Hd0) & Hval). unfold accept_commit.
  destruct (find_challenge _ _) as [[ch az]|] eqn:E; [|by apply post_finish].
  destruct (find_challenge_ok _ _ _ _ _ _ _ Hg E) as (Hcv & Hzv & Hc & Hz & Hcid & Hzid & o & Hov & Ho & Hoid).
  assert (az0 = az) as -> by congruence. clear c0 Hc0 Hz0 E.
  rewrite Hov. set (st' := if others_valid _ _ _ then _ else _).
  destruct (appendState _ _ _ _ _) as [[u|e] log'] eqn:Ea.
  2:{ rewrite (appendState_err _ _ _ _ _ _ Ea). by apply post_finish. }
  pose proof Hg as (Hr & Hw & Hb & Hbk). pose proof (wf_orders _ Hw _ _ Ho) as How.
  assert (Hoth : forall v, authzs v = authzs (view s) -> others_valid v az o = others_valid (view s) az o).
  { intros v Hv. unfold others_valid, authz_valid. by rewrite Hv. }
  assert (Hst : status_after r (z_id az) st' o).
  { unfold st'. destruct (others_valid (view s) az o) eqn:Eo; [right|by left]. split; [done|].
    unfold others_valid in Eo. rewrite forallb_forall in Eo. intros id Hid Hne. specialize (Eo id).
    rewrite <- list_elem_of_In in Eo. specialize (Eo Hid). apply orb_true_iff in Eo as [Eo|Eo]; [by apply String.eqb_eq in Eo|].
    unfold authz_valid in Eo. destruct (authzs (view s) !! id) as [z|] eqn:Ez; [|done].
    exists z. split; [by eapply below_authz|by apply String.eqb_eq]. }
  assert (Hne : st' <> "").
  { unfold st'. destruct (others_valid _ _ _); [done|]. destruct (ow_status _ _ _ How) as [->|[->| ->]]; done. }
  assert (Hone : o_id o <> "") by (rewrite Hoid; destruct (ow_number _ _ _ How) as (k & -> & _); apply ID_nonempty).
  set (r' := put_valid (c_id ch) (z_id az) (o_id o) st' r).
  eapply (post_append _ _ _ _ _ _ _ _ r'); [exact Ea|done|done|exact Hr| | | | |apply evolves_put_valid|].
  - intros d' [= <-]. apply applies_challenge. apply apply_valid_eq; [by rewrite Hcid|by rewrite Hzid|by rewrite Hoid|done|done].
  - eapply (wf_put_valid _ _ _ _ _ az o); [done|by rewrite Hzid|by rewrite Hoid|by rewrite Hoid|done].
  - cbn [view with_view]. set (v2 := with_authzs _ _). assert (Ho2 : orders v2 !! z_orderID az = Some o) by exact Hov. rewrite Ho2.
    rewrite (others_valid_after (view s) ch az o Hzv Hzid v2) by done.
    assert (Heq : (if others_valid (view s) az o then with_orders (<[z_orderID az := set_o_status statusReady o]> (orders v2)) v2 else v2)
      = put_valid (c_id ch) (z_id az) (o_id o) st' (view s)).
    { unfold put_valid. rewrite Hcid, Hzid, Hoid.
      rewrite <- (insert_alter (set_o_status st') _ _ _ Hov), <- (insert_alter (set_az_status statusValid) _ _ _ Hzv),
        <- (insert_alter (set_ch_status statusValid) _ _ _ Hcv).
      unfold st'. destruct (others_valid (view s) az o); [done|].
      assert (set_o_status (o_status o) o = o) as -> by by destruct o. rewrite insert_id by done. by destruct s as [? ? ? []]. }
    rewrite Heq. by apply below_put_valid.
  - intros Hm id z Hz' Hv. cbn in Hz'. apply lookup_alter_Some in Hz' as [(<- & z0 & Hz' & ->)|[Hne' Hz']].
    + cbn. rewrite Hzid, Hz in Hz'. simplify_eq. done.
    + by eapply Hbk.
  - intros. destruct presented as [[]|]; rewrite ?not_elem_of_cons; [split; [done|]|]; apply not_elem_of_nil.
Qed.

(** *** Certificates *)

Lemma finalize_open_post env rq m acct nonce s st h r :
  good s st h r -> acct_ok r acct -> post h r (finalize_open env rq m acct nonce s st).
Proof.
  intros Hg Ha. unfold finalize_open. destruct (orders (view s) !! r_PathID rq) as [o|] eqn:Eo; [|by apply post_finish].
  destruct (String.eqb (o_status o) statusValid && _); [by apply post_finish|].
  destruct (String.eqb_spec (o_status o) statusReady) as [Hready|]; cbn [negb]; [|by apply post_finish].
  destruct (ParseFinalizeRequest _) as [csr|]; [|by apply post_finish].
  pose proof Hg as (Hr & Hw & Hb & Hbk). pose proof (below_order _ _ Hb _ _ Eo) as Hor.
  pose proof (wf_orders _ Hw _ _ Hor) as How.
  assert (Hv : all_valid r o) by (apply How; by rewrite Hready).
  set (req := mkIssue csr (o_domains o) leafTTL).
  assert (Hi : issue_ok h [Issuing (o_id o) req acct]).
  { intros Hm oid req' acct' [[= -> -> ->]|Hin]%elem_of_cons; [|by apply elem_of_nil in Hin].
    cbn. apply Forall_forall. intros d Hd. apply list_elem_of_lookup in Hd as [i Hi].
    destruct (Forall2_lookup_r _ _ _ _ _ (ow_authzs _ _ _ How) Hi) as (a & Hla & az & Haz & Hd & _). subst d.
    destruct (Hv a) as (az' & Haz' & Hs); [by eapply list_elem_of_lookup_2|].
    assert (az' = az) as -> by congruence. by eapply Hbk. }
  assert (Hgood : forall eff, good s st (h ++ eff) r) by (intros eff; eapply good_mono; [|exact Hg]; set_solver).
  destruct (e_Issue env req) as [cert|]; exists r; (split; [apply Hgood|]); (split; [done|]); (split; [exact Hi|first [done|split; [done|]]]).
  exists o. split; [|done]. by rewrite (ow_id _ _ _ How).
Qed.

Lemma finalize_commit_post env rq acct nonce oid cert s st h r :
  good s st h r -> Fresh st (e_nuid env) -> flight_ok r h (FIssued rq acct nonce oid cert) ->
  bounded (finalize_commit cfg env rq acct nonce oid cert s st) ->
  post h r (finalize_commit cfg env rq acct nonce oid cert s st).
Proof.
  intros Hg Hf [Hacct (o & Ho & Hv)] Hseq. unfold bounded, finalize_commit, nextID in *.
  pose proof Hg as (Hr & Hw & Hb & Hbk). pose proof (be_seq _ _ Hb) as Hs. pose proof (wf_seq _ Hw) as H0.
  set (n := seq (view s) + 1) in *. cbn [seq with_seq] in *.
  assert (Hg' : good (with_view (with_seq n (view s)) s) st h r) by (apply (good_seq s); [done|lia]).
  destruct acct as [url|]; [|by apply post_finish].
  set (p := certificateIssuedEventFrom _ _ _ _ _ _) in *.
  assert (Hp : ie_OrderID p = oid /\ ie_CertID p = ID n /\ ie_Seq p = n)
    by (unfold p, certificateIssuedEventFrom; by destruct (pem_Decode _)).
  destruct Hp as (Hp1 & Hp2 & Hp3).
  destruct (appendState _ _ _ _ _) as [[u|e] st'] eqn:E.
  2:{ rewrite (appendState_err _ _ _ _ _ _ E). by apply post_finish. }
  pose proof (wf_orders _ Hw _ _ Ho) as How.
  assert (Hone : oid <> "") by (destruct (ow_number _ _ _ How) as (k & -> & _); apply ID_nonempty).
  assert (Hnb : n < 2 ^ 63).
  { destruct (orders (view s) !! oid) as [o1|] eqn:Eo.
    - rewrite (apply_cert p _ o1) in Hseq; [|by rewrite Hp1|rewrite Hp2; apply ID_nonempty|by rewrite Hp1].
      cbn in Hseq. rewrite Hp3 in Hseq. lia.
    - unfold applyCertificateIssuedEventLocked in Hseq. rewrite Hp1, Hp2 in Hseq.
      rewrite (proj2 (String.eqb_neq _ _) Hone), (proj2 (String.eqb_neq _ _) (ID_nonempty n)) in Hseq. cbn [orb] in Hseq.
      cbn [orders with_seq] in Hseq. rewrite Eo in Hseq. exact Hseq. }
  assert (Happ : forall d, encode_cert_event p = Some d -> applies acmeEventCertificateIssued d r (put_cert p r)).
  { intros d Hd. eapply applies_cert; [rewrite Hp3; apply int64_seq; lia|exact Hd|].
    eapply apply_cert; [by rewrite Hp1|rewrite Hp2; apply ID_nonempty|by rewrite Hp1]. }
  assert (Hwf : wf (put_cert p r)) by (eapply (wf_put_cert p r o n); try done; [lia|by rewrite Hp1]).
  destruct (orders (view s) !! oid) as [o1|] eqn:Eo.
  - rewrite (apply_cert p _ o1); [|by rewrite Hp1|rewrite Hp2; apply ID_nonempty|by rewrite Hp1].
    eapply (post_append _ _ _ _ _ _ _ _ (put_cert p r)); [exact E|done|done|exact Hr|exact Happ|exact Hwf| | |apply evolves_put_cert|intros; apply not_elem_of_nil].
    + apply below_put_cert. apply Hg'.
    + by eapply backed_evolves_authzs.
  - unfold applyCertificateIssuedEventLocked. rewrite Hp1, Hp2.
    rewrite (proj2 (String.eqb_neq _ _) Hone), (proj2 (String.eqb_neq _ _) (ID_nonempty n)). cbn [orb].
    cbn [orders with_seq]. rewrite Eo.
    eapply (post_append _ _ _ _ _ _ _ _ (put_cert p r)); [exact E|done|done|exact Hr|exact Happ|exact Hwf| | |apply evolves_put_cert|intros; apply not_elem_of_nil].
    + eapply (below_put_cert_gone p (view s) r n); [done|done|lia|by rewrite Hp1|].
      rewrite Hp2. destruct (certs (view s) !! ID n) as [pem|] eqn:Ec; [|done]. exfalso.
      eapply (numbered_fresh r n); [lia|]. eapply wf_certs; [done|]. exists pem. by eapply lookup_weaken, be_certs.
    + by eapply backed_evolves_authzs.
Qed.

(** *** Revocation and renewal marks *)

Lemma revoke_open_post env m acct nonce s st h r :
  good s st h r -> post h r (revoke_open cfg env m acct nonce s st).
Proof.
  intros Hg. unfold revoke_open. destruct (ParseRevokeRequest _) as [req|] eqn:Ep; [|by apply post_finish].
  destruct (String.eqb_spec (certFingerprint (rr_CertDER req)) "") as [|Hfp]; [by apply post_finish|].
  destruct (issued (view s) !! _) as [ic|]; [|by apply post_finish]. case_bool_decide; [by apply post_finish|].
  destruct (negb (revoke_authorized m acct ic)); [by apply post_finish|].
  assert (Hi : forall rq oid req acct, Issuing oid req acct ∉ [Revoking rq])
    by (intros; rewrite not_elem_of_cons; split; [done|apply not_elem_of_nil]).
  destruct (has_revokeHook cfg && _); apply post_same; try done.
  split; [done|]. by eapply ParseRevokeRequest_reason.
Qed.

Definition put_revoked (fp : string) (rec : revocation) (v : View) : View := with_revoked (<[fp := rec]> (revoked v)) v.

Lemma below_put_revoked fp rec v r : below v r -> below (put_revoked fp rec v) (put_revoked fp rec r).
Proof. intros []. split; try done; [cbn; by f_equal|by eapply closed_same]. Qed.

Lemma revoke_commit_post env nonce fp ic req at_ s st h r :
  good s st h r -> Fresh st (e_nuid env) -> flight_ok r h (FRevoke nonce fp ic req at_) ->
  post h r (revoke_commit cfg env nonce fp ic req at_ s st).
Proof.
  intros Hg Hf [Hfp Hi]. unfold revoke_commit. case_bool_decide; [by apply post_finish|].
  destruct (appendState _ _ _ _ _) as [[u|e] st'] eqn:E.
  2:{ rewrite (appendState_err _ _ _ _ _ _ E). by apply post_finish. }
  pose proof Hg as (Hr & Hw & Hb & Hbk). set (rec := mkRevocation _ _ _).
  eapply (post_append _ _ _ _ _ _ _ _ (put_revoked fp rec r));
    [exact E|done|done|exact Hr| |by eapply view_wf_same|by apply below_put_revoked|by eapply backed_evolves_authzs|by apply evolves_same|intros; apply not_elem_of_nil].
  intros d Hd. eapply applies_revoked; [|exact Hd|]; [done|].
  unfold applyCertificateRevokedEventLocked. cbn. by rewrite (proj2 (String.eqb_neq _ _) Hfp).
Qed.

Definition put_early (c : string) (v : View) : View := with_early ({[c]} ∪ earlyRenew v) v.

Lemma MarkEarlyRenewal_post env c s st h r :
  good s st h r -> Fresh st (e_nuid env) -> c <> "" ->
  let '(_, s', st') := MarkEarlyRenewalContext cfg env c s st in
  exists r', good s' st' h r' /\ evolves r r'.
Proof.
  intros Hg Hf Hc. unfold MarkEarlyRenewalContext. case_bool_decide; [by exists r|].
  destruct (appendState _ _ _ _ _) as [[u|e] st'] eqn:E.
  2:{ rewrite (appendState_err _ _ _ _ _ _ E). by exists r. }
  pose proof Hg as (Hr & Hw & Hb & Hbk).
  destruct (appendState_ok _ _ _ _ _ _ E Hf eq_refl) as (d & [= <-] & Hs).
  exists (put_early c r). split; [|by apply evolves_same]. split_and!.
  - eapply Hs; [exact Hr|]. apply applies_early. unfold applyEarlyRenewalEventLocked.
    by rewrite (proj2 (String.eqb_neq _ _) Hc).
  - by eapply view_wf_same.
  - destruct Hb. split; try done; [cbn; by f_equal|by eapply closed_same].
  - by eapply backed_evolves_authzs.
Qed.

(** *** Every section *)

Lemma advance_post env f s st h r :
  good s st h r -> Fresh st (e_nuid env) -> flight_ok r h f -> bounded (advance cfg env f s st) ->
  post h r (advance cfg env f s st).
Proof.
  intros Hg Hf Hok Hseq. destruct f as [rq m acct key|rq m acct nonce|rq acct nonce ch d|rq nonce p|rq acct nonce oid cert|nonce fp ic req a];
    cbn [advance] in *.
  - by apply jws_mint_post.
  - unfold handle in *. destruct (r_endpoint rq).
    + by apply newAccount_post.
    + by apply newOrder_post.
    + unfold getAuthz. case_match; by apply post_finish.
    + by apply accept_open_post.
    + unfold getOrder. case_match; by apply post_finish.
    + by apply finalize_open_post.
    + unfold getCert. repeat case_match; by apply post_finish.
    + by apply keyChange_post.
    + by apply revoke_open_post.
  - apply accept_validate_post; [done|apply Hok].
  - by apply accept_commit_post.
  - by apply finalize_commit_post.
  - by apply revoke_commit_post.
Qed.

(** ** Runs *)

Record sys := mkSys { srv : Server; log : Stream; flights : list flight; hist : list Effect }.

Definition requeue (o : outcome) (fs : list flight) : list flight :=
  match o with Next f => f :: fs | Done _ => fs end.

(** The system after a section that leaves the requests [fs] in progress. *)
Definition after (y : sys) (fs : list flight) (out : Out) : sys :=
  let '(o, s', st', eff) := out in mkSys s' st' (requeue o fs) (hist y ++ eff).

(** An event of another component, or of another tenant. *)
Definition foreign (e : Event) : Prop :=
  ev_TenantID e <> tenant \/ GoStrings.HasPrefix (ev_Type e) acmeEventPrefix = false.

(** What the collaborators may answer. *)
Variable world : Env -> Prop.

(** A server whose mutex is held runs no section.  Ids of messages are fresh. *)
Inductive step (y : sys) : sys -> Prop :=
| step_newNonce env rq :
    world env -> mu (srv y) = false ->
    step y (after y (flights y) (newNonce cfg env rq (srv y) (log y)))
| step_open env rq :
    world env -> mu (srv y) = false ->
    step y (after y (flights y) (jws_open cfg env rq (srv y) (log y)))
| step_advance env f fs :
    world env -> mu (srv y) = false -> flights y ≡ₚ f :: fs -> Fresh (log y) (e_nuid env) ->
    bounded (advance cfg env f (srv y) (log y)) ->
    step y (after y fs (advance cfg env f (srv y) (log y)))
| step_early env c res s' st' :
    world env -> mu (srv y) = false -> Fresh (log y) (e_nuid env) -> c <> "" ->
    MarkEarlyRenewalContext cfg env c (srv y) (log y) = (res, s', st') ->
    step y (mkSys s' st' (flights y) (hist y))
| step_foreign now nuid actor e ev st' :
    foreign e -> Append now nuid actor e (log y) = (Ok ev, st') ->
    Fresh (log y) (if String.eqb (ev_ID e) "" then nuid else ev_ID e) ->
    step y (mkSys (srv y) st' (flights y) (hist y))
| step_restart v :
    WithStateLog tenant (Some (log y)) emptyView = Ok v ->
    step y (mkSys (mkServer false ∅ ∅ v) (log y) [] (hist y)).

(** Every certificate requested so far was for domains validated before. *)
Definition issued_ok (h : list Effect) : Prop :=
  trusted mode = false ->
  forall h1 oid req acct h2, h = h1 ++ Issuing oid req acct :: h2 -> Forall (validated h1) (ir_DNSNames req).

Definition sound (y : sys) : Prop :=
  exists r, good (srv y) (log y) (hist y) r /\ Forall (flight_ok r (hist y)) (flights y) /\ issued_ok (hist y).

Lemma issued_ok_app h eff : issued_ok h -> issue_ok h eff -> issued_ok (h ++ eff).
Proof.
  intros Hh He Hm h1 oid req acct h2 Heq.
  destruct (decide (length h1 < length h)%nat) as [Hlt|Hge].
  - apply (Hh Hm h1 oid req acct (drop (S (length h1)) h)).
    assert (h = take (length h) (h1 ++ Issuing oid req acct :: h2)) as Ht by (by rewrite <- Heq, take_app_length).
    rewrite Ht at 1. rewrite take_app_ge by lia. f_equal.
    destruct (length h - length h1)%nat as [|k] eqn:Ek; [lia|]. cbn. f_equal.
    rewrite Ht at 1. rewrite skipn_firstn_comm, drop_app_ge by lia.
    replace (S (length h1) - length h1)%nat with 1%nat by lia. cbn. by replace (length h - S (length h1))%nat with k by lia.
  - assert (Hin : Issuing oid req acct ∈ eff).
    { assert (eff = drop (length h) (h1 ++ Issuing oid req acct :: h2)) as -> by (by rewrite <- Heq, drop_app_length).
      rewrite drop_app_le by lia. apply elem_of_app. right. by left. }
    eapply Forall_impl; [by eapply He|]. intros d Hd. eapply validated_mono; [|exact Hd].
    assert (h = take (length h) (h1 ++ Issuing oid req acct :: h2)) as -> by (by rewrite <- Heq, take_app_length).
    rewrite take_app_le by lia. intros x Hx. by eapply elem_of_take in Hx as (i & Hi & _); eapply list_elem_of_lookup_2.
Qed.

Lemma post_sound y r fs out :
  good (srv y) (log y) (hist y) r -> Forall (flight_ok r (hist y)) fs -> issued_ok (hist y) ->
  post (hist y) r out -> sound (after y fs out).
Proof.
  destruct out as [[[o s'] st'] eff]. intros Hg Hfl Hi (r' & Hg' & He & Hie & Ho). exists r'. cbn. split_and!; [done| |by apply issued_ok_app].
  assert (Hfs : Forall (flight_ok r' (hist y ++ eff)) fs).
  { eapply Forall_impl; [exact Hfl|]. intros f. apply flight_ok_mono; [done|set_solver]. }
  destruct o; cbn; [by constructor|done].
Qed.

Lemma step_sound y y' : sound y -> step y y' -> sound y'.
Proof.
  intros (r & Hg & Hfl & Hi) Hst.
  destruct Hst as [env rq Hwd Hmu|env rq Hwd Hmu|env f fs Hwd Hmu Hp Hfr Hb|env c res s' st' Hwd Hmu Hfr Hc He|now nuid actor e ev st' Hfor Happ Hfr|v Hv].
  - eapply post_sound; try done. by apply newNonce_post.
  - eapply post_sound; try done. by apply jws_open_post.
  - rewrite Hp in Hfl. apply Forall_cons in Hfl as [Hf Hfs]. eapply post_sound; try done. by apply advance_post.
  - pose proof (MarkEarlyRenewal_post env c _ _ _ _ Hg Hfr Hc) as Hpost. rewrite He in Hpost.
    destruct Hpost as (r' & Hg' & Hev). exists r'. split_and!; [done| |done].
    eapply Forall_impl; [exact Hfl|]. intros f. by apply flight_ok_mono.
  - exists r. split_and!; [|done|done]. destruct Hg as (Hr & Hw & Hbl & Hbk). split_and!; try done. cbn.
    destruct (append_ok _ _ _ _ _ _ _ _ Happ Hfr) as (H1 & H2 & _ & _ & _ & _ & _ & _ & _ & H5).
    eapply replayed_snoc; [exact Hr|apply H5; pose proof (LastSeq_nonneg (log y)); lia|].
    unfold replay_fn. rewrite H1, H2. destruct Hfor as [Hne|Hpre].
    + by rewrite (proj2 (String.eqb_neq _ _) Hne).
    + rewrite Hpre. cbn [negb]. by rewrite orb_true_r.
  - exists r. destruct Hg as (Hr & Hw & Hbl & Hbk). apply WithStateLog_replayed in Hv; [|done].
    assert (v = r) as -> by (unfold replayed in *; congruence).
    split_and!; [|constructor|done]. split_and!; try done. by apply below_refl.
Qed.

(** A log with no ACME event of the tenant, and a new server on it. *)
Definition initial (y : sys) : Prop :=
  srv y = New /\ flights y = [] /\ hist y = [] /\ Forall (fun e => foreign e) (events_from 1 (log y)).

Lemma initial_sound y : initial y -> sound y.
Proof.
  intros (Hs & Hf & Hh & Hl). exists emptyView. rewrite Hs, Hf, Hh. split_and!; [|constructor|].
  - split_and!; [|apply wf_empty|apply below_refl, wf_empty|].
    + unfold replayed. induction Hl as [|e l He _ IH]; [done|]. cbn. unfold replay_fn at 1.
      destruct He as [Hne|Hpre]; [rewrite (proj2 (String.eqb_neq _ _) Hne)|rewrite Hpre, orb_true_r]; exact IH.
    + intros _ id az H. cbn in H. by apply lookup_empty_Some in H.
  - intros _ h1 oid req acct h2 H. by destruct h1.
Qed.

Lemma run_sound y y' : initial y -> rtc step y y' -> sound y'.
Proof. intros Hi Hr. apply initial_sound in Hi. induction Hr; [done|]. eauto using step_sound. Qed.

End Run.

End AcmeRun.
