(* ===== verification/AcmeProps.v ===== *)
(** * Properties of the ACME server

    Theorems over the runs of [AcmeRun]: the event log rebuilds the serving view,
    certificates are requested for validated domains only, nonces are accepted
    once, handlers run on verified messages; and the behaviours of the source that
    break what it means to do. *)

From S2P Require Import Prelude Json Tenancy Events Base64 AcmeJose AcmeState AcmeParse AcmeServer AcmeSpec AcmeRun.
Open Scope string_scope.
Open Scope list_scope.
Open Scope Z_scope.

Module AcmeProps.
Import SE Tenancy Events Base64 AcmeJose AcmeState AcmeParse AcmeServer AcmeSpec AcmeRun.

#[local] Arguments put_order : simpl never.

Definition minted (h : list Effect) : list string :=
  omap (fun e => match e with Minted n => Some n | _ => None end) h.

Definition accepted (h : list Effect) : list string :=
  omap (fun e => match e with Accepted n => Some n | _ => None end) h.

Section Props.
Context {J : JoseCrypto} {T : TimeText} {C : CertInfo} {ES : EventStream} {R : Router}.
Variable cfg : Config.

(** ** Nonces *)

(** What a section does to the nonces: those that remain were there or were minted
    by it, those it accepts were there and are gone, and the cap is kept. *)
Definition nonce_ok (s : Server) (out : Out) : Prop :=
  let '(_, s', _, eff) := out in
  (forall n, is_Some (nonces s' !! n) -> is_Some (nonces s !! n) \/ n ∈ minted eff) /\
  (forall n, n ∈ accepted eff -> is_Some (nonces s !! n) /\ nonces s' !! n = None) /\
  NoDup (accepted eff) /\ (accepted eff = [] \/ minted eff = []) /\
  Z.of_nat (size (nonces s')) <= Z.max (Z.of_nat (size (nonces s))) (MaxNonces (quota cfg)).

(** Fewer nonces, none minted, none accepted. *)
Definition nonce_quiet (s : Server) (out : Out) : Prop :=
  let '(_, s', _, eff) := out in nonces s' ⊆ nonces s /\ minted eff = [] /\ accepted eff = [].

Lemma nonce_quiet_ok s out : nonce_quiet s out -> nonce_ok s out.
Proof.
  destruct out as [[[o s'] st'] eff]. intros (Hs & Hm & Ha). cbn. rewrite Hm, Ha. split_and!.
  - intros n [t Ht]. left. exists t. by eapply lookup_weaken.
  - intros n Hn. by apply elem_of_nil in Hn.
  - constructor.
  - by left.
  - pose proof (map_subseteq_size _ _ Hs). lia.
Qed.

Lemma prune_nonces now s : nonces (pruneExpiredLocked cfg now s) ⊆ nonces s.
Proof. apply map_filter_subseteq. Qed.

Lemma consume_nonces src k now s : nonces (consumeSourceLocked cfg src k now s).2 = nonces s.
Proof. unfold consumeSourceLocked. destruct k; by case_match. Qed.

Lemma quiet_finish s s' st nonce rep : nonces s' ⊆ nonces s -> nonce_quiet s (finish nonce rep s' st).
Proof. by intros H. Qed.

Ltac quiet := repeat case_match; try (by apply quiet_finish); try done.

Lemma updateAccount_quiet env req jwk acct nonce s0 s st :
  nonces s ⊆ nonces s0 -> nonce_quiet s0 (updateAccount cfg env req jwk acct nonce s st).
Proof. intros H. unfold updateAccount. quiet. Qed.

Lemma createAccount_quiet env rq req jwk key nonce s0 s st :
  nonces s ⊆ nonces s0 -> nonce_quiet s0 (createAccount cfg env rq req jwk key nonce s st).
Proof.
  intros H. unfold createAccount. destruct (consumeSourceLocked _ _ _ _ s) as [ok s1] eqn:E.
  pose proof (consume_nonces (sourceKey rq) BAccount (e_now env) s) as Hn. rewrite E in Hn. cbn [snd] in Hn. rewrite <- Hn in H.
  cbn [nextID]. quiet.
Qed.

Lemma newAccount_quiet env rq m nonce s st : nonce_quiet s (newAccount cfg env rq m nonce s st).
Proof.
  unfold newAccount. destruct (ACMEKeyFromJWK _); [|by apply quiet_finish]. destruct (parseNewAccount _); [|by apply quiet_finish].
  pose proof (prune_nonces (e_now env) s). destruct (account_by_key _ _); [by apply updateAccount_quiet|].
  destruct (na_OnlyReturnExisting _); [by apply quiet_finish|by apply createAccount_quiet].
Qed.

Lemma createOrder_quiet env rq req md types url nonce s st :
  nonce_quiet s (createOrder cfg env rq req md types url nonce s st).
Proof.
  unfold createOrder. pose proof (prune_nonces (e_now env) s) as H. set (s1 := pruneExpiredLocked _ _ s) in *.
  destruct (consumeSourceLocked _ _ _ _ s1) as [ok s2] eqn:E.
  pose proof (consume_nonces (sourceKey rq) BOrder (e_now env) s1) as Hn. rewrite E in Hn. cbn [snd] in Hn. rewrite <- Hn in H.
  cbn [nextID]. quiet.
Qed.

Lemma newOrder_quiet env rq m acct nonce s st : nonce_quiet s (newOrder cfg env rq m acct nonce s st).
Proof.
  unfold newOrder. destruct acct; [|by apply quiet_finish]. destruct (ParseOrderRequest _); [|by apply quiet_finish].
  destruct (if _ : bool then _ else _) as [[[] ?]|]; try by apply quiet_finish.
  destruct (trusted _); [apply createOrder_quiet|].
  destruct (challengeTypes _ _ _); [apply createOrder_quiet|by apply quiet_finish].
Qed.

Lemma keyChange_quiet env rq m acct nonce s st : nonce_quiet s (keyChange cfg env rq m acct nonce s st).
Proof.
  assert (Hr : forall k j a, nonce_quiet s (rotate cfg env k j a nonce s st)) by (intros; unfold rotate; quiet).
  unfold keyChange. repeat case_match; first [by apply quiet_finish|apply Hr].
Qed.

Lemma advance_quiet env f s st :
  (forall rq m acct key, f <> FVerify rq m acct key) -> nonce_quiet s (advance cfg env f s st).
Proof.
  intros Hf. destruct f as [rq m acct key|rq m acct nonce|rq acct nonce ch d|rq nonce p|rq acct nonce oid cert|nonce fp ic req a];
    cbn [advance]; [by destruct (Hf rq m acct key)|..].
  - unfold handle. destruct (r_endpoint rq).
    + apply newAccount_quiet.
    + apply newOrder_quiet.
    + unfold getAuthz. quiet.
    + unfold accept_open. quiet.
    + unfold getOrder. quiet.
    + unfold finalize_open. quiet.
    + unfold getCert. quiet.
    + apply keyChange_quiet.
    + unfold revoke_open. quiet.
  - unfold accept_validate. quiet.
  - unfold accept_commit. destruct (find_challenge _ _) as [[]|]; [|by apply quiet_finish].
    destruct (appendState _ _ _ _ _) as [[] ]; [|by apply quiet_finish].
    destruct p as [[]|]; by cbn.
  - unfold finalize_commit. cbn [nextID]. destruct acct; [|by apply quiet_finish].
    destruct (appendState _ _ _ _ _) as [[] ]; [|by apply quiet_finish].
    destruct (applyCertificateIssuedEventLocked _ _) as [[] ?]; by apply quiet_finish.
  - unfold revoke_commit. quiet.
Qed.

Lemma mint_ok env s0 s n s' :
  nonces s ⊆ nonces s0 -> mintNonce cfg env s = Some (n, s') ->
  (forall k, is_Some (nonces s' !! k) -> is_Some (nonces s0 !! k) \/ k = n) /\
  Z.of_nat (size (nonces s')) <= Z.max (Z.of_nat (size (nonces s0))) (MaxNonces (quota cfg)).
Proof.
  intros Hs. unfold mintNonce. destruct (Z.leb_spec (MaxNonces (quota cfg)) (Z.of_nat (size (nonces s)))); [done|].
  intros [= <- <-]. cbn. split.
  - intros k. destruct (decide (e_nonce env = k)) as [->|Hne]; [by right|].
    rewrite lookup_insert_ne by done. intros [t Ht]. left. exists t. by eapply lookup_weaken.
  - assert (size (<[e_nonce env:=e_now env]> (nonces s)) <= S (size (nonces s)))%nat.
    { rewrite map_size_insert. case_match; cbn; lia. }
    lia.
Qed.

Lemma minted_ok env s0 s n s' o st :
  nonces s ⊆ nonces s0 -> mintNonce cfg env s = Some (n, s') -> nonce_ok s0 (o, s', st, [Minted n]).
Proof.
  intros Hs Hm. destruct (mint_ok _ _ _ _ _ Hs Hm) as [H1 H2]. cbn. split_and!.
  - intros k Hk. destruct (H1 k Hk) as [?| ->]; [by left|right; by left].
  - intros k Hk. by apply elem_of_nil in Hk.
  - constructor.
  - by left.
  - lia.
Qed.

Lemma newNonce_ok env rq s st : nonce_ok s (newNonce cfg env rq s st).
Proof.
  unfold newNonce. pose proof (prune_nonces (e_now env) s) as H. set (s1 := pruneExpiredLocked _ _ s) in *.
  destruct (consumeSourceLocked _ _ _ _ s1) as [ok s2] eqn:E.
  pose proof (consume_nonces (sourceKey rq) BNonce (e_now env) s1) as Hn. rewrite E in Hn. cbn [snd] in Hn. rewrite <- Hn in H.
  destruct ok; cbn [negb]; [|by apply nonce_quiet_ok, quiet_finish].
  destruct (mintNonce cfg env s2) as [[n s3]|] eqn:Em; [by eapply minted_ok|by apply nonce_quiet_ok, quiet_finish].
Qed.

Lemma jws_mint_ok env rq m acct key s st : nonce_ok s (jws_mint cfg env rq m acct key s st).
Proof.
  unfold jws_mint. destruct (Verify m key); [|by apply nonce_quiet_ok, quiet_finish].
  pose proof (prune_nonces (e_now env) s) as H. set (s1 := pruneExpiredLocked _ _ s) in *.
  destruct (mintNonce cfg env s1) as [[n s3]|] eqn:Em; [by eapply minted_ok|by apply nonce_quiet_ok, quiet_finish].
Qed.

Lemma jws_open_ok env rq s st : nonce_ok s (jws_open cfg env rq s st).
Proof.
  unfold jws_open. destruct (ReadAll _ _ _) as [body|[]]; try by apply nonce_quiet_ok, quiet_finish.
  destruct (ParseACMEJWS _) as [msg|]; [|by apply nonce_quiet_ok, quiet_finish].
  pose proof (prune_nonces (e_now env) s) as H. set (s1 := pruneExpiredLocked _ _ s) in *.
  destruct (nonces s1 !! _) as [t|] eqn:Et; [|by apply nonce_quiet_ok, quiet_finish].
  clearbody s1. set (n := p_Nonce (Protected msg)) in *. set (s2 := with_nonces _ s1).
  assert (Hok : forall o, nonce_ok s (o, s2, st, [Accepted n])).
  { intros o. cbn. split_and!.
    - intros k [x [Hne Hx]%lookup_delete_Some]. left. exists x. by eapply lookup_weaken.
    - intros k [->|Hk]%elem_of_cons; [|by apply elem_of_nil in Hk].
      split; [exists t; by eapply lookup_weaken|apply lookup_delete_eq].
    - apply NoDup_singleton.
    - by right.
    - pose proof (map_subseteq_size _ _ H). pose proof (map_subseteq_size _ _ (delete_subseteq (nonces s1) n)). lia. }
  repeat case_match; apply Hok.
Qed.

Lemma advance_ok env f s st : nonce_ok s (advance cfg env f s st).
Proof.
  destruct f; try (apply nonce_quiet_ok, advance_quiet; congruence). apply jws_mint_ok.
Qed.

(** ** Messages *)

(** The section that opened a request found its nonce outstanding, and took the key of
    the account that its kid names, or the key it embeds. *)
Definition opens (s : Server) (m : ACMEMessage) (acct : option string) (key : ACMEKey) : Prop :=
  is_Some (nonces s !! p_Nonce (Protected m)) /\
  match acct with
  | Some url => p_Kid (Protected m) <> "" /\
      exists a, accounts (view s) !! p_Kid (Protected m) = Some a /\ a_url a = url /\ a_key a = key
  | None => p_Kid (Protected m) = "" /\ ACMEKeyFromJWK (p_JWK (Protected m)) = Ok key
  end.

(** A request on its way to its handler was opened as [P] says, and in its handler its
    signature has verified under the key found then. *)
Definition authentic (P : ACMEMessage -> option string -> ACMEKey -> Prop) (f : flight) : Prop :=
  match f with
  | FVerify _ m acct key => P m acct key
  | FHandle _ m acct _ => exists key, P m acct key /\ Verify m key = Ok tt
  | _ => True
  end.

Definition next_authentic (P : ACMEMessage -> option string -> ACMEKey -> Prop) (out : Out) : Prop :=
  let '(o, _, _, _) := out in match o with Next f => authentic P f | Done _ => True end.

Lemma prune_accounts now s : accounts (view (pruneExpiredLocked cfg now s)) = accounts (view s).
Proof. apply prune_view_accounts. Qed.

Lemma jws_open_authentic env rq s st :
  next_authentic (fun m acct key => opens s m acct key /\ (jws_open cfg env rq s st).2 = [Accepted (p_Nonce (Protected m))])
    (jws_open cfg env rq s st).
Proof.
  unfold jws_open. destruct (ReadAll _ _ _) as [body|[]]; try done. destruct (ParseACMEJWS _) as [msg|]; [|done].
  pose proof (prune_nonces (e_now env) s) as Hn. cbn [accounts view with_nonces]. rewrite prune_accounts.
  destruct (nonces (pruneExpiredLocked cfg (e_now env) s) !! _) as [t|] eqn:En; [|done].
  assert (Hns : is_Some (nonces s !! p_Nonce (Protected msg))) by (exists t; by eapply lookup_weaken).
  destruct (String.eqb_spec (p_Kid (Protected msg)) "") as [Hk|Hk]; cbn [negb].
  - case_bool_decide; [|done]. destruct (ACMEKeyFromJWK _) eqn:Ek; done.
  - destruct (accounts (view s) !! _) as [a|] eqn:Ea; [|done]. cbn. split_and!; [split; [done|]|done]. eauto.
Qed.

Lemma advance_authentic P env f s st : authentic P f -> next_authentic P (advance cfg env f s st).
Proof.
  destruct f as [rq m acct key|rq m acct nonce|rq acct nonce ch d|rq nonce p|rq acct nonce oid cert|nonce fp ic req a]; cbn [advance]; intros Hf.
  - unfold jws_mint. destruct (Verify m key) as [[]|] eqn:Ev; [|done]. destruct (mintNonce _ _ _) as [[]|]; [|done].
    cbn. eauto.
  - clear Hf. unfold handle. destruct (r_endpoint rq).
    + unfold newAccount, updateAccount, createAccount. repeat case_match; done.
    + unfold newOrder, createOrder. repeat case_match; done.
    + unfold getAuthz. by case_match.
    + unfold accept_open. by repeat case_match.
    + unfold getOrder. by case_match.
    + unfold finalize_open. by repeat case_match.
    + unfold getCert. by repeat case_match.
    + unfold keyChange, rotate. repeat case_match; done.
    + unfold revoke_open. by repeat case_match.
  - unfold accept_validate. by repeat case_match.
  - unfold accept_commit. by repeat case_match.
  - unfold finalize_commit. by repeat case_match.
  - unfold revoke_commit. by repeat case_match.
Qed.

(** ** Refusals and wedging *)

(** Finalizing does not look at the account: the CA is asked for the names of the
    order, with the key of the request's CSR, whoever sends it. *)
Lemma finalize_open_ready env rq m acct nonce s st o csr :
  orders (view s) !! r_PathID rq = Some o -> o_status o = statusReady -> ParseFinalizeRequest (Payload m) = Ok csr ->
  let req := mkIssue csr (o_domains o) leafTTL in
  finalize_open env rq m acct nonce s st =
  (match e_Issue env req with
   | None => Done (Some nonce, problem 500 "serverInternal")
   | Some cert => Next (FIssued rq acct nonce (o_id o) cert)
   end, s, st, [Issuing (o_id o) req acct]).
Proof.
  intros Ho Hs Hp req. unfold finalize_open. rewrite Ho, Hs, Hp. cbn [String.eqb negb andb]. fold req.
  by destruct (e_Issue env req).
Qed.

(** Recording a certificate for no account panics with the mutex held. *)
Lemma finalize_commit_None env rq nonce oid cert s st :
  finalize_commit cfg env rq None nonce oid cert s st =
  (Done (Some nonce, Panic), wedge (with_view (with_seq (seq (view s) + 1) (view s)) s), st, []).
Proof. done. Qed.

(** Accepting a challenge of a finalized order puts the order back to ready. *)
Lemma accept_commit_reopens env rq nonce presented s st ch az o u st' :
  find_challenge rq (view s) = Some (ch, az) -> z_id az = c_authzID ch ->
  orders (view s) !! z_orderID az = Some o -> others_valid (view s) az o = true ->
  appendState cfg env acmeEventChallengeValidated
    (Some (encode_challenge_event (challengeValidatedEventFrom ch az (Some o) statusReady))) st = (Ok u, st') ->
  exists s' eff rep, accept_commit cfg env rq nonce presented s st = (Done (Some nonce, rep), s', st', eff) /\
    orders (view s') !! z_orderID az = Some (set_o_status statusReady o).
Proof.
  intros Hf Hid Ho Hv Ha. unfold accept_commit. rewrite Hf, Ho, Hv, Ha.
  assert (Haz : authzs (view s) !! c_authzID ch = Some az).
  { unfold find_challenge in Hf. destruct (challenges _ !! _) as [c|]; [|done]. cbn in Hf.
    destruct (authzs _ !! _) as [z|] eqn:E; [|done]. cbn in Hf. by simplify_eq. }
  eexists _, _, _. split; [reflexivity|]. cbn [view with_view]. set (v2 := with_authzs _ _).
  assert (Ho2 : orders v2 !! z_orderID az = Some o) by exact Ho. rewrite Ho2.
  rewrite (others_valid_after (view s) ch az o Haz Hid v2) by done. rewrite Hv. cbn. by rewrite lookup_insert_eq.
Qed.

(** ** Solitary requests *)

(** The sections a request still has to run. *)
Definition rank (f : flight) : nat :=
  match f with
  | FVerify _ _ _ _ => 3
  | FHandle _ _ _ _ => 2
  | FValidate _ _ _ _ _ => 1
  | FAccept _ _ _ | FIssued _ _ _ _ _ | FRevoke _ _ _ _ _ => 0
  end.

Lemma advance_rank env f s st f' s' st' eff :
  advance cfg env f s st = (Next f', s', st', eff) -> (rank f' < rank f)%nat.
Proof.
  destruct f as [rq m acct key|rq m acct nonce|rq acct nonce ch d|rq nonce p|rq acct nonce oid cert|nonce fp ic req a]; cbn [advance]; intros H.
  - unfold jws_mint in H. repeat case_match; simplify_eq; cbn; lia.
  - unfold handle, newAccount, updateAccount, createAccount, newOrder, createOrder, getAuthz, accept_open, getOrder, finalize_open, getCert,
      keyChange, rotate, revoke_open, finish in H.
    repeat case_match; simplify_eq; cbn; lia.
  - unfold accept_validate, finish in H. repeat case_match; simplify_eq; cbn; lia.
  - unfold accept_commit, finish in H. repeat case_match; simplify_eq.
  - unfold finalize_commit, finish in H. repeat case_match; simplify_eq.
  - unfold revoke_commit, finish in H. repeat case_match; simplify_eq.
Qed.

Lemma serve_loop_fuel n k env f s st :
  (rank f <= n)%nat -> (n <= k)%nat -> serve_loop cfg n env f s st = serve_loop cfg k env f s st.
Proof.
  revert k f s st. induction n as [|n IH]; intros k f s st Hr Hk.
  - destruct k; [done|]. cbn. destruct (advance cfg env f s st) as [[[[f'|resp] s'] st'] eff] eqn:E; [|done].
    apply advance_rank in E. lia.
  - destruct k as [|k]; [lia|]. cbn. destruct (advance cfg env f s st) as [[[[f'|resp] s'] st'] eff] eqn:E; [|done].
    apply advance_rank in E. by rewrite (IH k) by lia.
Qed.

Lemma jws_open_rank env rq s st f s' st' eff : jws_open cfg env rq s st = (Next f, s', st', eff) -> (rank f <= 3)%nat.
Proof. unfold jws_open, finish. intros H. repeat case_match; simplify_eq; cbn; lia. Qed.

End Props.

Section Runs.
Context {J : JoseCrypto} `{!JoseLaws J} {T : TimeText} `{!TimeTextLaws T} {C : CertInfo}.
Context {ES : EventStream} `{!EventStreamLaws ES} {R : Router}.
Variable cfg : Config.
Variable tenant : string.
Variable world : Env -> Prop.

(** ** Invariants of runs *)

Definition nonces_inv (y : sys) : Prop :=
  (forall n, is_Some (nonces (srv y) !! n) -> n ∈ minted (hist y)) /\
  (forall n, n ∈ accepted (hist y) -> n ∈ minted (hist y)) /\
  (NoDup (minted (hist y)) -> NoDup (accepted (hist y)) /\ forall n, n ∈ accepted (hist y) -> nonces (srv y) !! n = None) /\
  Z.of_nat (size (nonces (srv y))) <= Z.max 0 (MaxNonces (quota cfg)).

Lemma minted_app h k : minted (h ++ k) = minted h ++ minted k.
Proof. apply omap_app. Qed.

Lemma accepted_app h k : accepted (h ++ k) = accepted h ++ accepted k.
Proof. apply omap_app. Qed.

Lemma after_nonces y fs out : nonces_inv y -> nonce_ok cfg (srv y) out -> nonces_inv (after y fs out).
Proof.
  destruct out as [[[o s'] st'] eff]. intros (H1 & H2 & H3 & H4) (N1 & N2 & N3 & N4 & N5). unfold nonces_inv, after. cbn [hist srv].
  rewrite minted_app, accepted_app. split_and!.
  - intros n Hn. apply elem_of_app. destruct (N1 n Hn); [left; auto|by right].
  - intros n [Hn|Hn]%elem_of_app; apply elem_of_app; left; [auto|]. apply H1. by apply N2.
  - intros Hd. apply NoDup_app in Hd as (Hd1 & Hd2 & Hd3). destruct (H3 Hd1) as [Ha Hg]. split.
    + apply NoDup_app. split_and!; [done| |done]. intros n Hn Hn'. destruct (N2 n Hn') as [[t Ht] _]. rewrite (Hg n Hn) in Ht. done.
    + intros n [Hn|Hn]%elem_of_app; [|by apply N2]. destruct (nonces s' !! n) eqn:E; [|done]. exfalso.
      destruct (N1 n) as [[t Ht]|Hm]; [by rewrite E|by rewrite (Hg n Hn) in Ht|]. eapply Hd2; [|exact Hm]. auto.
  - lia.
Qed.

Lemma step_nonces y y' : nonces_inv y -> step cfg tenant world y y' -> nonces_inv y'.
Proof.
  intros Hi Hst.
  destruct Hst as [env rq Hwd Hmu|env rq Hwd Hmu|env f fs Hwd Hmu Hp Hfr Hb|env c res s' st' Hwd Hmu Hfr Hc He|now nuid actor e ev st' Hfor Happ Hfr|v Hv].
  - apply after_nonces; [done|apply newNonce_ok].
  - apply after_nonces; [done|apply jws_open_ok].
  - apply after_nonces; [done|apply advance_ok].
  - assert (Hn : nonces s' = nonces (srv y)).
    { unfold MarkEarlyRenewalContext in He. repeat case_match; by simplify_eq. }
    destruct Hi as (H1 & H2 & H3 & H4). unfold nonces_inv. cbn. by rewrite Hn.
  - exact Hi.
  - destruct Hi as (H1 & H2 & H3 & H4). unfold nonces_inv. cbn. split_and!; [|done| |rewrite map_size_empty; lia].
    + intros n [t Ht]. by apply lookup_empty_Some in Ht.
    + intros Hd. split; [by apply H3|]. intros n _. apply lookup_empty.
Qed.

Lemma initial_nonces y : initial tenant y -> nonces_inv y.
Proof.
  intros (Hs & _ & Hh & _). unfold nonces_inv. rewrite Hs, Hh. cbn. split_and!.
  - intros n [t Ht]. by apply lookup_empty_Some in Ht.
  - intros n Hn. by apply elem_of_nil in Hn.
  - intros _. split; [constructor|]. intros n Hn. by apply elem_of_nil in Hn.
  - rewrite map_size_empty. lia.
Qed.

Lemma run_nonces y y' : initial tenant y -> rtc (step cfg tenant world) y y' -> nonces_inv y'.
Proof. intros Hi Hr. apply initial_nonces in Hi. induction Hr; [done|]. eauto using step_nonces. Qed.

Lemma after_authentic P y fs out :
  Forall (authentic P) fs -> next_authentic P out -> Forall (authentic P) (flights (after y fs out)).
Proof. destruct out as [[[[f|resp] s'] st'] eff]; cbn; intros Hf Ho; [by constructor|done]. Qed.

Lemma authentic_mono (P Q : ACMEMessage -> option string -> ACMEKey -> Prop) f :
  (forall m acct key, P m acct key -> Q m acct key) -> authentic P f -> authentic Q f.
Proof. intros HPQ. destruct f; cbn; [apply HPQ|intros (key & Hp & Hv); eauto|done..]. Qed.

(** A step of the run opened the message, and consumed its nonce. *)
Definition opened_in (y y' : sys) (m : ACMEMessage) (acct : option string) (key : ACMEKey) : Prop :=
  exists yo y1, rtc (step cfg tenant world) y yo /\ step cfg tenant world yo y1 /\ rtc (step cfg tenant world) y1 y' /\
    opens (srv yo) m acct key /\ hist y1 = hist yo ++ [Accepted (p_Nonce (Protected m))].

Lemma opened_mono y y' y'' m acct key : opened_in y y' m acct key -> step cfg tenant world y' y'' -> opened_in y y'' m acct key.
Proof. intros (yo & y1 & H1 & H2 & H3 & H4) Hs. exists yo, y1. split_and!; [done|done|by eapply rtc_r|apply H4..]. Qed.

Lemma step_authentic y y1 y2 : rtc (step cfg tenant world) y y1 -> step cfg tenant world y1 y2 ->
  Forall (authentic (opened_in y y1)) (flights y1) -> Forall (authentic (opened_in y y2)) (flights y2).
Proof.
  intros Hr Hst Hi.
  assert (Hup : forall fs, Forall (authentic (opened_in y y1)) fs -> Forall (authentic (opened_in y y2)) fs).
  { intros fs Hfs. eapply Forall_impl; [exact Hfs|]. intros f. apply authentic_mono. intros m acct key Ho. by eapply opened_mono. }
  pose proof Hst as Hst'.
  destruct Hst as [env rq Hwd Hmu|env rq Hwd Hmu|env f fs Hwd Hmu Hp Hfr Hb|env c res s' st' Hwd Hmu Hfr Hc He|now nuid actor e ev st' Hfor Happ Hfr|v Hv];
    [| | |by apply Hup|by apply Hup|constructor].
  - apply after_authentic; [by apply Hup|]. unfold newNonce. by repeat case_match.
  - apply after_authentic; [by apply Hup|]. pose proof (jws_open_authentic cfg env rq (srv y1) (log y1)) as Ho.
    destruct (jws_open cfg env rq (srv y1) (log y1)) as [[[[f|resp] s'] st'] eff] eqn:E; [|done]. cbn in Ho |- *.
    eapply authentic_mono; [|exact Ho]. intros m acct key [Hop Hh]. exists y1. eexists. split_and!; [done|exact Hst'|done|done|].
    cbn. by rewrite Hh.
  - rewrite Hp in Hi. apply Forall_cons in Hi as [Hf Hfs]. apply after_authentic; [by apply Hup|]. apply advance_authentic.
    eapply authentic_mono; [|exact Hf]. intros m acct key Ho. by eapply opened_mono.
Qed.

Lemma run_authentic y y' : initial tenant y -> rtc (step cfg tenant world) y y' -> Forall (authentic (opened_in y y')) (flights y').
Proof.
  intros (_ & Hf & _). revert y'. apply (rtc_ind_r (fun y' => Forall (authentic (opened_in y y')) (flights y'))).
  - rewrite Hf. constructor.
  - intros y1 y2 Hr Hst IH. by eapply step_authentic.
Qed.

(** ** Theorems *)

(** C16: The log is the truth.  From a new server on a log without ACME events of
    the tenant, whatever requests interleave, whatever restarts happen and whatever
    other components append: attaching the log again succeeds, the view it rebuilds
    is well formed, and it contains the serving view: the same accounts, key index,
    revocations and renewal marks, every order, authorization, challenge and
    certificate that is being served, with the same content, and no id below the
    counter that could be given out again. *)
Theorem acme_replay_refines (y y' : sys) :
  stateLog cfg = Some tenant -> tenant <> "" ->
  mode cfg = ACMEAuthModePublicTrust \/ mode cfg = ACMEAuthModeTrustAuthenticated ->
  initial tenant y -> rtc (step cfg tenant world) y y' ->
  exists v, WithStateLog tenant (Some (log y')) emptyView = Ok v /\ below (view (srv y')) v /\ wf v.
Proof.
  intros Hl Ht Hm Hi Hr. destruct (run_sound cfg tenant Hl Ht Hm world y y' Hi Hr) as (r & (H1 & H2 & H3 & _) & _).
  exists r. split; [by apply WithStateLog_replayed|done].
Qed.

(** No certificate without validation.  On a public-trust mount, every request
    the server makes to the CA names only domains for which a challenge validation
    succeeded earlier in the run, across interleavings and restarts. *)
Theorem acme_issuance_validated (y y' : sys) h1 oid req acct h2 :
  stateLog cfg = Some tenant -> tenant <> "" -> mode cfg = ACMEAuthModePublicTrust ->
  initial tenant y -> rtc (step cfg tenant world) y y' ->
  hist y' = h1 ++ Issuing oid req acct :: h2 ->
  Forall (fun d => exists ch typ token keyAuth, Validated ch typ d token keyAuth ∈ h1) (ir_DNSNames req).
Proof.
  intros Hl Ht Hm Hi Hr Hh. destruct (run_sound cfg tenant Hl Ht (or_introl Hm) world y y' Hi Hr) as (r & _ & _ & Hok).
  eapply Hok; [by rewrite Hm|exact Hh].
Qed.

(** C18: A nonce is accepted once.  If the random nonces a server minted in a run
    are distinct, then no two requests of the run were accepted with the same
    nonce. *)
Theorem acme_nonce_once (y y' : sys) :
  initial tenant y -> rtc (step cfg tenant world) y y' ->
  NoDup (minted (hist y')) -> NoDup (accepted (hist y')).
Proof. intros Hi Hr Hd. by apply (run_nonces y y' Hi Hr). Qed.

(** The outstanding nonces never exceed the quota. *)
Theorem acme_nonces_bounded (y y' : sys) :
  initial tenant y -> rtc (step cfg tenant world) y y' ->
  Z.of_nat (size (nonces (srv y'))) <= Z.max 0 (MaxNonces (quota cfg)).
Proof. intros Hi Hr. by apply (run_nonces y y' Hi Hr). Qed.

(** C20: The serving view is well typed in every reachable state.  Accounts sit under
    their URLs, are valid, and their JWKs denote their keys; the thumbprint index holds
    exactly the thumbprints of the accounts (so two accounts never share a key); orders,
    authorizations and challenges sit under their own ids, every id, of certificates too,
    is one that the counter has given out and not above it; an order is pending, ready or
    valid, has one authorization of its own per domain, and is not pending only when they
    are all valid; and the references between orders, authorizations and challenges never
    dangle, although expired orders are dropped and requests interleave. *)
Theorem acme_view_typed (y y' : sys) :
  stateLog cfg = Some tenant -> tenant <> "" ->
  mode cfg = ACMEAuthModePublicTrust \/ mode cfg = ACMEAuthModeTrustAuthenticated ->
  initial tenant y -> rtc (step cfg tenant world) y y' ->
  let v := view (srv y') in
  (forall url a, accounts v !! url = Some a ->
     a_url a = url /\ byKey v !! Thumbprint (a_key a) = Some url /\ ACMEKeyFromJWK (a_jwk a) = Ok (a_key a) /\
     a_status a = statusValid /\ exists base n, url = acct_url base n /\ 0 < n <= seq v) /\
  (forall t url, byKey v !! t = Some url -> exists a, accounts v !! url = Some a /\ Thumbprint (a_key a) = t) /\
  (forall id o, orders v !! id = Some o ->
     o_id o = id /\ numbered v id /\ (o_status o = statusPending \/ o_status o = statusReady \/ o_status o = statusValid) /\
     Forall2 (fun azID d => exists az, authzs v !! azID = Some az /\ z_domain az = d /\ z_orderID az = id) (o_authzIDs o) (o_domains o) /\
     (o_status o <> statusPending -> all_valid v o)) /\
  (forall id az, authzs v !! id = Some az ->
     z_id az = id /\ numbered v id /\ exists o, orders v !! z_orderID az = Some o /\ id ∈ o_authzIDs o) /\
  (forall id c, challenges v !! id = Some c ->
     c_id c = id /\ numbered v id /\ exists az, authzs v !! c_authzID c = Some az /\ id ∈ z_challenges az) /\
  (forall id, is_Some (certs v !! id) -> numbered v id) /\
  closed v.
Proof.
  intros Hl Ht Hm Hi Hr v. destruct (run_sound cfg tenant Hl Ht Hm world y y' Hi Hr) as (r & (_ & Hw & Hb & _) & _).
  pose proof (below_wf _ _ Hb Hw) as Hv. fold v in Hv. split_and!; [..|apply Hb].
  - intros url a Ha. destruct (wf_accounts _ Hv _ _ Ha) as [? ? Hi' Ht' ? ?]. rewrite <- Ht'. by split_and!.
  - intros t url Hk. destruct (wf_byKey _ Hv _ _ Hk) as (a & Ha & Hid). exists a. split; [done|].
    rewrite <- Hid. symmetry. by eapply aw_thumb, wf_accounts.
  - intros id o Ho. by destruct (wf_orders _ Hv _ _ Ho).
  - intros id az Hz. by destruct (wf_authzs _ Hv _ _ Hz).
  - intros id c Hc. by destruct (wf_challenges _ Hv _ _ Hc).
  - apply Hv.
Qed.

(** C19: Handlers run on authenticated messages.  Every request that reaches its
    handler, at any point of any run, was opened by a step of the run that found its nonce
    outstanding and consumed it; and its signature verified under the key that the
    account its kid names had at that step, the handler then acting for that account, or,
    for a request without kid, under the key embedded in its own header.  The key admits
    the algorithm of the message. *)
Theorem acme_handlers_authenticated (y y' : sys) rq m acct nonce :
  initial tenant y -> rtc (step cfg tenant world) y y' -> FHandle rq m acct nonce ∈ flights y' ->
  exists key yo y1, rtc (step cfg tenant world) y yo /\ step cfg tenant world yo y1 /\ rtc (step cfg tenant world) y1 y' /\
    is_Some (nonces (srv yo) !! p_Nonce (Protected m)) /\ hist y1 = hist yo ++ [Accepted (p_Nonce (Protected m))] /\
    Verify m key = Ok tt /\ admits (kind key) (p_Alg (Protected m)) /\
    match acct with
    | Some url => p_Kid (Protected m) <> "" /\
        exists a, accounts (view (srv yo)) !! p_Kid (Protected m) = Some a /\ a_url a = url /\ a_key a = key
    | None => p_Kid (Protected m) = "" /\ ACMEKeyFromJWK (p_JWK (Protected m)) = Ok key
    end.
Proof.
  intros Hi Hr Hin. pose proof (run_authentic y y' Hi Hr) as Hf. rewrite Forall_forall in Hf.
  destruct (Hf _ Hin) as (key & (yo & y1 & H1 & H2 & H3 & [Hn Ha] & Hh) & Hv). exists key, yo, y1.
  split_and!; try done. by apply Verify_alg.
Qed.

(** Finalizing ignores the account.  A request of any account for a ready order
    of another account makes the server ask the CA for a certificate with the names
    of that order and the key of the requester's CSR; nothing compares the account
    of the request with the account of the order. *)
Theorem finalize_any_account env rq m url nonce s st o csr cert :
  orders (view s) !! r_PathID rq = Some o -> o_status o = statusReady -> o_accountURL o <> url ->
  ParseFinalizeRequest (Payload m) = Ok csr -> e_Issue env (mkIssue csr (o_domains o) leafTTL) = Some cert ->
  finalize_open env rq m (Some url) nonce s st =
  (Next (FIssued rq (Some url) nonce (o_id o) cert), s, st,
   [Issuing (o_id o) (mkIssue csr (o_domains o) leafTTL) (Some url)]).
Proof.
  intros Ho Hs _ Hp Hc. rewrite (finalize_open_ready env rq m (Some url) nonce s st o csr Ho Hs Hp). by rewrite Hc.
Qed.

(** A finalize request signed with an embedded key instead of an account stops
    the server.  When the CA has issued for such a request, the next section
    dereferences the nil account with the mutex held: nothing is logged, the
    certificate is lost, and from then on no section of any request runs; only
    other components' appends and a restart of the process are possible. *)
Theorem finalize_without_account_wedges (y : sys) env rq nonce oid cert fs :
  world env -> mu (srv y) = false -> flights y ≡ₚ FIssued rq None nonce oid cert :: fs -> Fresh (log y) (e_nuid env) ->
  seq (view (srv y)) + 1 < 2 ^ 63 ->
  exists y1, step cfg tenant world y y1 /\ log y1 = log y /\ mu (srv y1) = true /\ certs (view (srv y1)) = certs (view (srv y)) /\
    forall y2, step cfg tenant world y1 y2 -> (srv y2 = srv y1 /\ flights y2 = flights y1) \/ (flights y2 = [] /\ log y2 = log y1).
Proof.
  intros Hw Hmu Hf Hfr Hs. eexists. split; [by eapply (step_advance cfg tenant world y env _ fs Hw Hmu Hf Hfr)|]. cbn. split_and!; try done.
  intros y2 Hst. inversion Hst; subst; try done; cbn; [by left|by right].
Qed.

(** A finalized order can be finalized again.  Accepting a challenge of an order
    that already has its certificate puts the order back to ready, and the next
    finalize request makes the server ask the CA for a second certificate. *)
Theorem reopened_order_issues_again env env' rq rq' m acct nonce nonce' s st ch az o csr u st' :
  find_challenge rq (view s) = Some (ch, az) -> z_id az = c_authzID ch ->
  orders (view s) !! z_orderID az = Some o -> o_status o = statusValid -> o_certID o <> "" ->
  others_valid (view s) az o = true ->
  appendState cfg env acmeEventChallengeValidated
    (Some (encode_challenge_event (challengeValidatedEventFrom ch az (Some o) statusReady))) st = (Ok u, st') ->
  r_PathID rq' = z_orderID az -> ParseFinalizeRequest (Payload m) = Ok csr ->
  exists s' eff resp out s'' st'',
    accept_commit cfg env rq nonce None s st = (Done resp, s', st', eff) /\
    finalize_open env' rq' m acct nonce' s' st' =
      (out, s'', st'', [Issuing (o_id o) (mkIssue csr (o_domains o) leafTTL) acct]).
Proof.
  intros Hf Hid Ho _ _ Hv Ha Hp Hc.
  destruct (accept_commit_reopens cfg env rq nonce None s st ch az o u st' Hf Hid Ho Hv Ha) as (s' & eff & rep & He & Ho').
  rewrite <- Hp in Ho'. pose proof (finalize_open_ready env' rq' m acct nonce' s' st' _ csr Ho' eq_refl Hc) as Hfin.
  eexists s', eff, _, _, _, _. split; [exact He|exact Hfin].
Qed.

(** Marking an empty certificate identifier for early renewal succeeds, and
    writes an event that no replay accepts: every later start of the server on the
    log fails. *)
Theorem early_renewal_poisons_replay env s st r s' st' :
  stateLog cfg = Some tenant -> tenant <> "" -> Fresh st (e_nuid env) ->
  WithStateLog tenant (Some st) emptyView = Ok r ->
  "" ∉ earlyRenew (view s) -> MarkEarlyRenewalContext cfg env "" s st = (Ok tt, s', st') ->
  WithStateLog tenant (Some st') emptyView = Err MalformedEarlyRenewal.
Proof.
  intros Hl Ht Hf Hr Hn H. apply WithStateLog_replayed in Hr; [|done]. unfold MarkEarlyRenewalContext in H.
  rewrite bool_decide_eq_false_2 in H by done. unfold appendState, appendStateEventLocked in H. rewrite Hl in H.
  rewrite (proj2 (String.eqb_neq _ _) Ht) in H. destruct (Append _ _ _ _ st) as [[ev|e] st1] eqn:Ha; [|done].
  injection H as <- <-. destruct (append_ok _ _ _ _ _ _ _ _ Ha Hf) as (H1 & H2 & H3 & _ & _ & _ & H4 & _ & _ & H5).
  unfold WithStateLog. rewrite (proj2 (String.eqb_neq _ _) Ht), Replay_each by lia.
  rewrite H5 by (pose proof (LastSeq_nonneg st); lia). rewrite each_app. unfold replayed in Hr. rewrite Hr. cbn [each].
  unfold replay_fn. rewrite H1, H2. cbn [ev_Type ev_TenantID]. rewrite String.eqb_refl. cbn [negb orb].
  change (GoStrings.HasPrefix acmeEventEarlyRenewalMarked acmeEventPrefix) with true. cbn [negb].
  unfold applyStateEventLocked. rewrite H1, H3, H4. cbn [ev_Type ev_Data ev_SchemaVersion]. cbn -[decode_early encode_early].
  by rewrite early_roundtrip.
Qed.

End Runs.

End AcmeProps.
