(* ===== verification/AcmeDemo.v ===== *)
(** * A run of the ACME server

    A concrete mount: a table of documents, keys and clocks that are constants, the
    list stream of [Events].  One client fetches a nonce, registers, orders a
    certificate, answers a challenge and finalizes.  The run shows that the
    hypotheses of the theorems of [AcmeProps] hold together. *)

From S2P Require Import Prelude Json Tenancy Events Base64 AcmeJose AcmeState AcmeParse AcmeServer AcmeSpec AcmeRun AcmeProps.
Open Scope string_scope.
Open Scope list_scope.
Open Scope Z_scope.

Module AcmeDemo.
Import SE Tenancy Events Base64 AcmeJose AcmeState AcmeParse AcmeServer AcmeSpec AcmeRun AcmeProps.

#[local] Existing Instance PooledRouter.

(** ** Runs that are computed *)

Inductive action :=
| DoNonce (env : Env) (rq : Request)
| DoOpen (env : Env) (rq : Request)
| DoAdvance (env : Env).

Definition fresh_in (st : Stream (EventStream := ListStream_stream)) (id : string) : bool :=
  negb (existsb (String.eqb id) (ListStream.ids (proj1_sig st))).

Lemma fresh_in_Fresh st id : fresh_in st id = true -> Fresh st id.
Proof.
  unfold fresh_in. rewrite negb_true_iff. intros H Hin.
  apply not_true_iff_false in H. apply H, existsb_exists. exists id. split; [by apply list_elem_of_In|apply String.eqb_refl].
Qed.

Section Drive.
Context {J : JoseCrypto} {T : TimeText} {C : CertInfo}.
Variable cfg : Config.
Variable tenant : string.

(** The oldest request in progress advances. *)
Definition act (a : action) (y : sys) : option sys :=
  if mu (srv y) then None else
  match a with
  | DoNonce env rq => Some (after y (flights y) (newNonce cfg env rq (srv y) (log y)))
  | DoOpen env rq => Some (after y (flights y) (jws_open cfg env rq (srv y) (log y)))
  | DoAdvance env =>
      match flights y with
      | [] => None
      | f :: fs =>
          let out := advance cfg env f (srv y) (log y) in
          let '(_, s', _, _) := out in
          if fresh_in (log y) (e_nuid env) && (seq (view s') <? 2 ^ 63) then Some (after y fs out) else None
      end
  end.

Fixpoint drive (l : list action) (y : sys) : option sys :=
  match l with
  | [] => Some y
  | a :: l' => match act a y with Some y' => drive l' y' | None => None end
  end.

(** What the collaborators answer during an action. *)
Definition env_of (a : action) : Env :=
  match a with DoNonce env _ | DoOpen env _ | DoAdvance env => env end.

Variable world : Env -> Prop.

Lemma act_step a y y' : world (env_of a) -> act a y = Some y' -> step cfg tenant world y y'.
Proof.
  intros Hw. unfold act. destruct (mu (srv y)) eqn:Hmu; [done|]. destruct a as [env rq|env rq|env].
  - intros [= <-]. by apply step_newNonce.
  - intros [= <-]. by apply step_open.
  - destruct (flights y) as [|f fs] eqn:Ef; [done|].
    destruct (advance cfg env f (srv y) (log y)) as [[[o s'] st'] eff] eqn:E.
    destruct (fresh_in _ _) eqn:Hf; [|done]. destruct (Z.ltb_spec (seq (view s')) (2 ^ 63)); [|done]. cbn [andb].
    intros Hy%(inj Some). rewrite <- Hy, <- E. apply step_advance; [done|done|by rewrite Ef|by apply fresh_in_Fresh|]. unfold bounded. by rewrite E.
Qed.

Lemma drive_rtc l y y' : Forall (fun a => world (env_of a)) l -> drive l y = Some y' -> rtc (step cfg tenant world) y y'.
Proof.
  intros Hw. revert y. induction Hw as [|a l Ha _ IH]; intros y; cbn; [intros [= <-]; constructor|].
  destruct (act a y) as [y1|] eqn:E; [|done]. intros H. eapply rtc_l; [by eapply act_step|by apply IH].
Qed.

End Drive.

(** ** The mount *)

Definition b64 (s : string) : string := EncodeToString RawURLEncoding s.

(** The 32 zero bytes of an Ed25519 key. *)
Definition demo_x : string := "AAAAAAAAAAAAAAAAAAAAAAAAAAAAAAAAAAAAAAAAAAA".
Definition demo_jwk : json := JObj [("kty", JStr "OKP"); ("crv", JStr "Ed25519"); ("x", JStr demo_x)].
Definition demo_url : string := "http://ca/acme/acct/1".

Definition jws_doc (header payload : string) : data :=
  DJson (JObj [("protected", JStr (b64 header)); ("payload", JStr (b64 payload)); ("signature", JStr (b64 "sig"))]).

Definition kid_header (nonce : string) : data :=
  DJson (JObj [("alg", JStr "EdDSA"); ("kid", JStr demo_url); ("nonce", JStr nonce); ("url", JStr "")]).

Definition jwk_header (nonce : string) : data :=
  DJson (JObj [("alg", JStr "EdDSA"); ("jwk", demo_jwk); ("nonce", JStr nonce); ("url", JStr "")]).

(** The texts of the run. *)
Definition demo_document (s : string) : data :=
  if String.eqb s "register" then jws_doc "h1" "{}"
  else if String.eqb s "order" then jws_doc "h2" "names"
  else if String.eqb s "answer" then jws_doc "h3" "{}"
  else if String.eqb s "finalize" then jws_doc "h4" "csr"
  else if String.eqb s "finalize with jwk" then jws_doc "h5" "csr"
  else if String.eqb s "h1" then jwk_header "N1"
  else if String.eqb s "h2" then kid_header "N2"
  else if String.eqb s "h3" then kid_header "N3"
  else if String.eqb s "h4" then kid_header "N4"
  else if String.eqb s "h5" then jwk_header "N4"
  else if String.eqb s "{}" then DJson (JObj [])
  else if String.eqb s "names" then
    DJson (JObj [("identifiers", JArr [JObj [("type", JStr "dns"); ("value", JStr "a.example")]])])
  else if String.eqb s "csr" then DJson (JObj [("csr", JStr (b64 "der"))])
  else DRaw s.

#[local] Instance demo_jose : JoseCrypto := {|
  document := demo_document;
  Quote := lit;
  sha256 := fun s => "#" +:+ s;
  sha384 := fun s => s;
  sha512 := fun s => s;
  hmacSHA256 := fun k s => k +:+ s;
  VerifyPKCS1v15 := fun _ _ _ _ => false;
  IsOnCurve := fun _ _ _ => false;
  ecdsaVerify := fun _ _ _ _ _ _ => false;
  ed25519Verify := fun _ _ sig => String.eqb sig "sig"
|}.

#[local] Instance demo_jose_laws : JoseLaws demo_jose.
Proof. split; [done|by intros []]. Qed.

(** The zero time and the one clock reading of the run. *)
#[local] Instance demo_time : TimeText := {|
  FormatTime := fun t => if t =? 0 then Some "zero" else if t =? 1000 then Some "now" else None;
  ParseTime := fun s => if String.eqb s "zero" then Some 0 else if String.eqb s "now" then Some 1000 else None
|}.

#[local] Instance demo_time_laws : TimeTextLaws demo_time.
Proof.
  split. cbn. intros t s. destruct (Z.eqb_spec t 0) as [->|]; [by intros [= <-]|].
  destruct (Z.eqb_spec t 1000) as [->|]; [by intros [= <-]|done].
Qed.

#[local] Instance demo_certinfo : CertInfo := {|
  pem_Decode := fun pem => Some pem;
  ARICertID := fun _ => None;
  PublicKeyJWKThumbprint := fun _ => None;
  Inspect := fun der => Some (mkInfo ("fp:" +:+ der) 0 0 "01")
|}.

Definition demo_cfg : Config :=
  mkConfig DefaultQuotaConfig ACMEAuthModePublicTrust false ∅ (Some "tenant-a") false false false false.

Definition demo_env (nuid nonce : string) : Env :=
  mkEnv 1000 nuid nonce (fun id => "token-" +:+ id) (fun _ _ => Ok (true, 0)) (fun _ => Err "") (fun _ _ _ => true)
    (fun _ _ _ _ => true) (fun _ => Some (mkCert "PEM" "01")) (fun _ => true).

Definition demo_request (e : endpoint) (path body : string) : Request := mkRequest false "ca" "192.0.2.1:5000" e path body false.

Definition demo_start : sys := mkSys New ListStream.empty [] [].

(** A nonce, a registration and an order; the challenge is answered, and the CA has
    been asked. *)
Definition to_order : list action := [
  DoNonce (demo_env "u0" "N1") (demo_request GetCert "" "");
  DoOpen (demo_env "u1" "x") (demo_request NewAccount "" "register"); DoAdvance (demo_env "u1" "N2"); DoAdvance (demo_env "u1" "x");
  DoOpen (demo_env "u2" "x") (demo_request NewOrder "" "order"); DoAdvance (demo_env "u2" "N3"); DoAdvance (demo_env "u2" "x")].

Definition to_ready : list action := to_order ++ [
  DoOpen (demo_env "u3" "x") (demo_request AcceptChallenge "4" "answer"); DoAdvance (demo_env "u3" "N4");
  DoAdvance (demo_env "u3" "x"); DoAdvance (demo_env "u3" "x"); DoAdvance (demo_env "u3" "x")].

Definition to_issued : list action := to_ready ++ [
  DoOpen (demo_env "u4" "x") (demo_request Finalize "2" "finalize"); DoAdvance (demo_env "u4" "N5"); DoAdvance (demo_env "u4" "x")].

Definition to_valid : list action := to_issued ++ [DoAdvance (demo_env "u4" "x")].

Lemma demo_initial : initial "tenant-a" demo_start.
Proof. by split_and!. Qed.

(** What is observed of the system after some actions. *)
Lemma demo_sees {A} (f : sys -> A) acts y a :
  drive demo_cfg acts demo_start = Some y -> f <$> drive demo_cfg acts demo_start = Some a -> f y = a.
Proof. intros -> H. by injection H. Qed.

(** Collaborators that may answer anything. *)
Definition any_world (_ : Env) : Prop := True.

Lemma demo_reaches acts y : drive demo_cfg acts demo_start = Some y -> rtc (step demo_cfg "tenant-a" any_world) demo_start y.
Proof. apply drive_rtc. by apply Forall_true. Qed.

Definition demo_keyAuth : string :=
  "token-4" +:+ "." +:+ Thumbprint (mkKey (keyEd25519 "")
    ("{" +:+ lit "crv" +:+ ":" +:+ lit "Ed25519" +:+ "," +:+ lit "kty" +:+ ":" +:+ lit "OKP" +:+ "," +:+ lit "x" +:+ ":" +:+ lit demo_x +:+ "}")).

Definition demo_before : list Effect := [
  Minted "N1"; Accepted "N1"; Minted "N2"; Accepted "N2"; Minted "N3"; Accepted "N3"; Minted "N4";
  Validated "4" "http-01" "a.example" "token-4" demo_keyAuth; Accepted "N4"; Minted "N5"].

Definition demo_issue : IssueRequest := mkIssue "der" ["a.example"] leafTTL.

Lemma demo_valid_hist :
  hist <$> drive demo_cfg to_valid demo_start = Some (demo_before ++ [Issuing "2" demo_issue (Some demo_url)]).
Proof. by vm_compute. Qed.

Lemma demo_valid_runs : is_Some (drive demo_cfg to_valid demo_start).
Proof. destruct (drive _ _ _) eqn:E; [done|]. pose proof demo_valid_hist as H. by rewrite E in H. Qed.

Lemma demo_ready_runs : is_Some (drive demo_cfg to_ready demo_start).
Proof. apply (bool_decide_unpack _). by vm_compute. Qed.

Lemma demo_mode : mode demo_cfg = ACMEAuthModePublicTrust.
Proof. done. Qed.

Lemma acme_replay_refines_witness :
  exists y v, drive demo_cfg to_valid demo_start = Some y /\
    WithStateLog "tenant-a" (Some (log y)) emptyView = Ok v /\ below (view (srv y)) v /\ wf v.
Proof.
  destruct demo_valid_runs as [y Hy]. exists y.
  destruct (acme_replay_refines demo_cfg "tenant-a" any_world demo_start y eq_refl ltac:(done) (or_introl demo_mode) demo_initial
    (demo_reaches _ _ Hy)) as (v & H1 & H2 & H3).
  exists v. split; [exact Hy|]. split; [exact H1|]. split; [exact H2|exact H3].
Defined.

Lemma acme_issuance_validated_witness :
  Forall (fun d => exists ch typ token keyAuth, Validated ch typ d token keyAuth ∈ demo_before) (ir_DNSNames demo_issue).
Proof.
  destruct demo_valid_runs as [y Hy].
  exact (acme_issuance_validated demo_cfg "tenant-a" any_world demo_start y demo_before "2" demo_issue (Some demo_url) []
    eq_refl ltac:(done) demo_mode demo_initial (demo_reaches _ _ Hy) (demo_sees hist _ _ _ Hy demo_valid_hist)).
Defined.

Lemma demo_minted : NoDup (minted (demo_before ++ [Issuing "2" demo_issue (Some demo_url)])).
Proof. apply (bool_decide_unpack _). by vm_compute. Qed.

Lemma acme_nonce_once_witness :
  exists y, drive demo_cfg to_valid demo_start = Some y /\ NoDup (accepted (hist y)) /\ accepted (hist y) = ["N1"; "N2"; "N3"; "N4"].
Proof.
  destruct demo_valid_runs as [y Hy]. pose proof (demo_sees hist _ _ _ Hy demo_valid_hist) as Hh.
  exists y. split; [exact Hy|]. split; [|by rewrite Hh].
  apply (acme_nonce_once demo_cfg "tenant-a" any_world demo_start y demo_initial (demo_reaches _ _ Hy)).
  rewrite Hh. exact demo_minted.
Defined.

Lemma acme_nonces_bounded_witness :
  exists y, drive demo_cfg to_valid demo_start = Some y /\ Z.of_nat (size (nonces (srv y))) <= 4096.
Proof.
  destruct demo_valid_runs as [y Hy]. exists y. split; [exact Hy|].
  exact (acme_nonces_bounded demo_cfg "tenant-a" any_world demo_start y demo_initial (demo_reaches _ _ Hy)).
Defined.

Lemma demo_account :
  (fun y => a_url <$> accounts (view (srv y)) !! demo_url) <$> drive demo_cfg to_valid demo_start = Some (Some demo_url).
Proof. by vm_compute. Qed.

Lemma acme_view_typed_witness :
  exists y a, drive demo_cfg to_valid demo_start = Some y /\ accounts (view (srv y)) !! demo_url = Some a /\
    byKey (view (srv y)) !! Thumbprint (a_key a) = Some demo_url.
Proof.
  destruct demo_valid_runs as [y Hy]. pose proof (demo_sees _ _ _ _ Hy demo_account) as Ha. cbv beta in Ha.
  destruct (accounts (view (srv y)) !! demo_url) as [a|] eqn:E; [|cbn in Ha; discriminate Ha]. exists y, a.
  split; [exact Hy|]. split; [exact E|].
  apply (acme_view_typed demo_cfg "tenant-a" any_world demo_start y eq_refl ltac:(done) (or_introl demo_mode) demo_initial (demo_reaches _ _ Hy)).
  exact E.
Defined.

(** The order is in its handler. *)
Definition to_handler : list action := firstn 6 to_order.

Definition demo_order_message : ACMEMessage :=
  mkMessage (mkProtected "EdDSA" demo_url None "N2" "") (demo_document "names") (b64 "h2") (b64 "names") (b64 "sig").

Lemma demo_handler :
  flights <$> drive demo_cfg to_handler demo_start =
  Some [FHandle (demo_request NewOrder "" "order") demo_order_message (Some demo_url) "N3"].
Proof. by vm_compute. Qed.

Lemma demo_handler_runs : is_Some (drive demo_cfg to_handler demo_start).
Proof. destruct (drive _ _ _) eqn:E; [done|]. pose proof demo_handler as H. by rewrite E in H. Qed.

Lemma acme_handlers_authenticated_witness :
  exists key yo a, rtc (step demo_cfg "tenant-a" any_world) demo_start yo /\ is_Some (nonces (srv yo) !! "N2") /\
    accounts (view (srv yo)) !! demo_url = Some a /\ a_key a = key /\ Verify demo_order_message key = Ok tt.
Proof.
  destruct demo_handler_runs as [y Hy]. pose proof (demo_sees flights _ _ _ Hy demo_handler) as Hf.
  destruct (acme_handlers_authenticated demo_cfg "tenant-a" any_world demo_start y _ demo_order_message (Some demo_url) "N3" demo_initial (demo_reaches _ _ Hy)
    ltac:(rewrite Hf; left)) as (key & yo & y1 & Hr & _ & _ & Hn & _ & Hv & _ & _ & a & Ha & _ & Hk).
  exists key, yo, a. split; [exact Hr|]. split; [exact Hn|]. split; [exact Ha|]. split; [exact Hk|exact Hv].
Defined.

Definition demo_order : order :=
  mkOrder "2" demo_url ["a.example"] ["3"] statusReady ACMEAuthModePublicTrust "" "" 1000.

Lemma demo_ready_order :
  (fun y => orders (view (srv y)) !! "2") <$> drive demo_cfg to_ready demo_start = Some (Some demo_order).
Proof. by vm_compute. Qed.

Definition demo_csr : ACMEMessage :=
  mkMessage (mkProtected "EdDSA" demo_url None "N4" "") (demo_document "csr") "" "" "".

Lemma finalize_any_account_witness :
  exists y, drive demo_cfg to_ready demo_start = Some y /\
    finalize_open (demo_env "u9" "x") (demo_request Finalize "2" "") demo_csr (Some "http://ca/acme/acct/99") "n" (srv y) (log y) =
    (Next (FIssued (demo_request Finalize "2" "") (Some "http://ca/acme/acct/99") "n" "2" (mkCert "PEM" "01")), srv y, log y,
     [Issuing "2" demo_issue (Some "http://ca/acme/acct/99")]).
Proof.
  destruct demo_ready_runs as [y Hy]. pose proof (demo_sees _ _ _ _ Hy demo_ready_order) as Ho. cbv beta in Ho. exists y. split; [exact Hy|].
  exact (finalize_any_account (demo_env "u9" "x") (demo_request Finalize "2" "") demo_csr "http://ca/acme/acct/99" "n"
    (srv y) (log y) demo_order "der" (mkCert "PEM" "01") Ho eq_refl ltac:(done) eq_refl eq_refl).
Defined.

Definition to_wedge : list action := to_ready ++ [
  DoOpen (demo_env "u5" "x") (demo_request Finalize "2" "finalize with jwk"); DoAdvance (demo_env "u5" "N5"); DoAdvance (demo_env "u5" "x")].

Lemma demo_wedge :
  (fun y => (flights y, mu (srv y), seq (view (srv y)) + 1 <? 2 ^ 63, fresh_in (log y) "u6")) <$> drive demo_cfg to_wedge demo_start =
  Some ([FIssued (demo_request Finalize "2" "finalize with jwk") None "N5" "2" (mkCert "PEM" "01")], false, true, true).
Proof. by vm_compute. Qed.

Lemma demo_wedge_runs : is_Some (drive demo_cfg to_wedge demo_start).
Proof. destruct (drive _ _ _) eqn:E; [done|]. pose proof demo_wedge as H. by rewrite E in H. Qed.

Lemma finalize_without_account_wedges_witness :
  exists y y1, drive demo_cfg to_wedge demo_start = Some y /\ step demo_cfg "tenant-a" any_world y y1 /\ mu (srv y1) = true /\ log y1 = log y.
Proof.
  destruct demo_wedge_runs as [y Hy]. pose proof (demo_sees _ _ _ _ Hy demo_wedge) as H.
  injection H as Hf Hmu Hs Hfr. apply Z.ltb_lt in Hs.
  destruct (finalize_without_account_wedges demo_cfg "tenant-a" any_world y (demo_env "u6" "x") _ _ _ _ [] I Hmu
    ltac:(by rewrite Hf) (fresh_in_Fresh _ _ Hfr) Hs) as (y1 & H1 & H2 & H3 & _).
  exists y, y1. split; [exact Hy|]. split; [exact H1|]. split; [exact H3|exact H2].
Defined.

Definition demo_ch : challenge := mkChallenge "4" ChallengeHTTP01 "token-4" statusValid "3".
Definition demo_az : authorization := mkAuthz "3" "2" "a.example" statusValid ["4"; "5"; "6"] 1000.
Definition demo_done : order := mkOrder "2" demo_url ["a.example"] ["3"] statusValid ACMEAuthModePublicTrust "7" "" 1000.
Definition demo_answer : Request := demo_request AcceptChallenge "4" "".

(** The event of a challenge that is answered again. *)
Definition demo_again : option data :=
  Some (encode_challenge_event (challengeValidatedEventFrom demo_ch demo_az (Some demo_done) statusReady)).

Lemma demo_reopen :
  (fun y => (find_challenge demo_answer (view (srv y)), orders (view (srv y)) !! "2", others_valid (view (srv y)) demo_az demo_done,
             fst (appendState demo_cfg (demo_env "u7" "x") acmeEventChallengeValidated demo_again (log y))))
    <$> drive demo_cfg to_valid demo_start = Some (Some (demo_ch, demo_az), Some demo_done, true, Ok tt).
Proof. by vm_compute. Qed.

Lemma reopened_order_issues_again_witness :
  exists y s' st' eff resp out s'' st'', drive demo_cfg to_valid demo_start = Some y /\
    accept_commit demo_cfg (demo_env "u7" "x") demo_answer "n" None (srv y) (log y) = (Done resp, s', st', eff) /\
    finalize_open (demo_env "u8" "x") (demo_request Finalize "2" "") demo_csr (Some demo_url) "m" s' st' =
      (out, s'', st'', [Issuing "2" demo_issue (Some demo_url)]).
Proof.
  destruct demo_valid_runs as [y Hy]. pose proof (demo_sees _ _ _ _ Hy demo_reopen) as H. cbv beta in H.
  apply pair_equal_spec in H as [H Ha]. apply pair_equal_spec in H as [H Hv]. apply pair_equal_spec in H as [Hf Ho].
  destruct (appendState demo_cfg (demo_env "u7" "x") acmeEventChallengeValidated demo_again (log y)) as [res st'] eqn:E.
  cbn [fst] in Ha. subst res.
  destruct (reopened_order_issues_again demo_cfg (demo_env "u7" "x") (demo_env "u8" "x") demo_answer (demo_request Finalize "2" "")
    demo_csr (Some demo_url) "n" "m" (srv y) (log y) demo_ch demo_az demo_done "der" tt st' Hf eq_refl Ho eq_refl ltac:(done) Hv E
    eq_refl eq_refl) as (s' & eff & resp & out & s'' & st'' & H1 & H2).
  exists y, s', st', eff, resp, out, s'', st''. split; [exact Hy|]. split; [exact H1|exact H2].
Defined.

Lemma demo_mark :
  fst (fst (MarkEarlyRenewalContext demo_cfg (demo_env "u1" "x") "" New ListStream.empty)) = Ok tt.
Proof. by vm_compute. Qed.

Lemma early_renewal_poisons_replay_witness :
  exists s' st', MarkEarlyRenewalContext demo_cfg (demo_env "u1" "x") "" New ListStream.empty = (Ok tt, s', st') /\
    WithStateLog "tenant-a" (Some st') emptyView = Err MalformedEarlyRenewal.
Proof.
  pose proof demo_mark as H.
  destruct (MarkEarlyRenewalContext (ES := ListStream_stream) demo_cfg (demo_env "u1" "x") "" New ListStream.empty) as [[res s'] st'] eqn:E.
  cbn [fst] in H. subst res. exists s', st'. split; [reflexivity|].
  refine (early_renewal_poisons_replay (ES := ListStream_stream) demo_cfg "tenant-a" (demo_env "u1" "x") New ListStream.empty emptyView s' st'
    eq_refl ltac:(done) _ eq_refl ltac:(apply not_elem_of_empty) E).
  by apply fresh_in_Fresh.
Defined.

End AcmeDemo.
