(* ===== verification/NetSec.v ===== *)
(** * Which addresses an outbound request may reach

    [src/internal/netsec/ssrf.go]: the classification of resolved addresses, the
    allowances of a client and the dial guard, with the methods of [net.IP] and
    [netip.Prefix] that it uses.  The theorems compare the classification with the
    address ranges the documentation lists. *)

From S2P Require Import Prelude.
Open Scope string_scope.
Open Scope list_scope.
Open Scope Z_scope.

Module NetSec.

(** ** net.IP: nil, or bytes *)

Definition IP : Type := option (list Z).

Definition at_ (ip : list Z) (i : nat) : Z := nth i ip 0.

Definition To4 (ip : list Z) : option (list Z) :=
  if (length ip =? 4)%nat then Some ip
  else if (length ip =? 16)%nat && bool_decide (take 10 ip = replicate 10 0) && (at_ ip 10 =? 255) && (at_ ip 11 =? 255)
  then Some (drop 12 ip)
  else None.

Definition mapped (v4 : list Z) : list Z := replicate 10 0 ++ [255; 255] ++ v4.

Definition Equal (ip x : list Z) : bool :=
  if (length ip =? length x)%nat then bool_decide (ip = x)
  else if (length ip =? 4)%nat && (length x =? 16)%nat then bool_decide (mapped ip = x)
  else if (length ip =? 16)%nat && (length x =? 4)%nat then bool_decide (ip = mapped x)
  else false.

Definition IPv4zero : list Z := mapped [0; 0; 0; 0].
Definition IPv6unspecified : list Z := replicate 16 0.
Definition IPv6loopback : list Z := replicate 15 0 ++ [1].

Definition IsUnspecified (ip : list Z) : bool := Equal ip IPv4zero || Equal ip IPv6unspecified.

Definition IsLoopback (ip : list Z) : bool :=
  match To4 ip with Some v4 => at_ v4 0 =? 127 | None => Equal ip IPv6loopback end.

Definition IsPrivate (ip : list Z) : bool :=
  match To4 ip with
  | Some v4 => (at_ v4 0 =? 10) || ((at_ v4 0 =? 172) && (Z.land (at_ v4 1) 240 =? 16)) || ((at_ v4 0 =? 192) && (at_ v4 1 =? 168))
  | None => (length ip =? 16)%nat && (Z.land (at_ ip 0) 254 =? 252)
  end.

Definition IsMulticast (ip : list Z) : bool :=
  match To4 ip with
  | Some v4 => Z.land (at_ v4 0) 240 =? 224
  | None => (length ip =? 16)%nat && (at_ ip 0 =? 255)
  end.

Definition IsInterfaceLocalMulticast (ip : list Z) : bool :=
  (length ip =? 16)%nat && (at_ ip 0 =? 255) && (Z.land (at_ ip 1) 15 =? 1).

Definition IsLinkLocalMulticast (ip : list Z) : bool :=
  match To4 ip with
  | Some v4 => (at_ v4 0 =? 224) && (at_ v4 1 =? 0) && (at_ v4 2 =? 0)
  | None => (length ip =? 16)%nat && (at_ ip 0 =? 255) && (Z.land (at_ ip 1) 15 =? 2)
  end.

Definition IsLinkLocalUnicast (ip : list Z) : bool :=
  match To4 ip with
  | Some v4 => (at_ v4 0 =? 169) && (at_ v4 1 =? 254)
  | None => (length ip =? 16)%nat && (at_ ip 0 =? 254) && (Z.land (at_ ip 1) 192 =? 128)
  end.

(** ** netip *)

(** A prefix: the bytes of its address, 4 or 16, and the number of its bits. *)
Record Prefix := mkPrefix { pf_addr : list Z; pf_bits : Z }.

Definition number (ip : list Z) : Z := fold_left (fun n b => 256 * n + b) ip 0.

Definition width (ip : list Z) : Z := 8 * Z.of_nat (length ip).

Definition AddrFromSlice (ip : list Z) : option (list Z) :=
  if (length ip =? 4)%nat || (length ip =? 16)%nat then Some ip else None.

Definition Unmap (a : list Z) : list Z := if (length a =? 16)%nat then default a (To4 a) else a.

Definition Contains (p : Prefix) (a : list Z) : bool :=
  (0 <=? pf_bits p) && (pf_bits p <=? width (pf_addr p)) && (length (pf_addr p) =? length a)%nat &&
  (Z.shiftr (number a) (width a - pf_bits p) =? Z.shiftr (number (pf_addr p)) (width a - pf_bits p)).

(** ** The guard *)

Record BlockedIPOptions := mkBlockedOpts { AllowRFC1918 : bool }.
Record SafeClientOptions := mkSafeOpts { AllowPrivateCIDRs : list Prefix }.

(** [fd00:ec2::254] *)
Definition metadataV6 : list Z := [253; 0; 14; 194; 0; 0; 0; 0; 0; 0; 0; 0; 0; 0; 2; 84].

Definition isRFC1918 (ip : list Z) : bool :=
  match To4 ip with
  | None => false
  | Some v4 => (at_ v4 0 =? 10) || ((at_ v4 0 =? 172) && (Z.land (at_ v4 1) 240 =? 16)) || ((at_ v4 0 =? 192) && (at_ v4 1 =? 168))
  end.

Definition isCGNAT (ip : list Z) : bool :=
  match To4 ip with Some v4 => (at_ v4 0 =? 100) && (Z.land (at_ v4 1) 192 =? 64) | None => false end.

Definition BlockedIPWithOptions (ip : IP) (opts : BlockedIPOptions) : bool :=
  match ip with
  | None => true
  | Some ip =>
      let ip := default ip (To4 ip) in
      if IsLoopback ip || IsLinkLocalUnicast ip || IsLinkLocalMulticast ip
         || IsUnspecified ip || IsMulticast ip || IsInterfaceLocalMulticast ip then true
      else if IsPrivate ip && (negb (AllowRFC1918 opts) || negb (isRFC1918 ip)) then true
      else if isCGNAT ip then true
      else Equal ip metadataV6
  end.

Definition BlockedIP (ip : IP) : bool := BlockedIPWithOptions ip (mkBlockedOpts false).

Definition hardBlockedIP (ip : IP) : bool :=
  match ip with
  | None => true
  | Some ip =>
      let ip := default ip (To4 ip) in
      if IsLinkLocalUnicast ip || IsLinkLocalMulticast ip
         || IsUnspecified ip || IsMulticast ip || IsInterfaceLocalMulticast ip then true
      else if isCGNAT ip then true
      else Equal ip metadataV6
  end.

Definition allowedPrivateIP (ip : IP) (opts : SafeClientOptions) : bool :=
  match ip with
  | None => false
  | Some a =>
      if bool_decide (AllowPrivateCIDRs opts = []) then false else
      if hardBlockedIP ip then false else
      match AddrFromSlice a with
      | None => false
      | Some addr => existsb (fun prefix => Contains prefix (Unmap addr)) (AllowPrivateCIDRs opts)
      end
  end.

Definition blockedIPForClient (ip : IP) (opts : SafeClientOptions) : bool :=
  if negb (BlockedIP ip) then false else negb (allowedPrivateIP ip opts).

Section Guard.

(** [net.ParseIP] and the parts of [url.Parse] that are looked at. *)
Variable ParseIP : string -> IP.
Variable url_Parse : string -> option (string * string).

(** [None]: the connection may be made. *)
Inductive GuardErr := ErrSSRFBlocked | ErrTooManyRedirects.

Definition safeDialControl (opts : SafeClientOptions) (address : string) : option GuardErr :=
  match GoStrings.SplitHost (list_ascii_of_string address) with
  | None => Some ErrSSRFBlocked
  | Some host => if blockedIPForClient (ParseIP (string_of_list_ascii host)) opts then Some ErrSSRFBlocked else None
  end.

(** A URL is its scheme and its host name. *)
Definition ValidatePublicHTTPSURLWithOptions (fold : string -> string -> bool) (raw : string) (opts : SafeClientOptions) : option GuardErr :=
  match url_Parse raw with
  | None => Some ErrSSRFBlocked
  | Some (scheme, host) =>
      if negb (GoStrings.EqualFold fold scheme "https") then Some ErrSSRFBlocked else
      if String.eqb host "" then Some ErrSSRFBlocked else
      if bool_decide (is_Some (ParseIP host)) && blockedIPForClient (ParseIP host) opts then Some ErrSSRFBlocked else None
  end.

(** The redirect policy of the client, after [via] requests. *)
Definition CheckRedirect (opts : SafeClientOptions) (scheme host : string) (via : Z) : option GuardErr :=
  if 5 <=? via then Some ErrTooManyRedirects else
  if negb (String.eqb scheme "http") && negb (String.eqb scheme "https") then Some ErrSSRFBlocked else
  if bool_decide (is_Some (ParseIP host)) && blockedIPForClient (ParseIP host) opts then Some ErrSSRFBlocked else None.

End Guard.

(** ** The documented ranges *)

(** An address in canonical form: four bytes, or sixteen that are no mapped IPv4
    address. *)
Inductive address := V4 (n : Z) | V6 (n : Z).

Definition canonical (ip : list Z) : option address :=
  match To4 ip with
  | Some v4 => Some (V4 (number v4))
  | None => if (length ip =? 16)%nat then Some (V6 (number ip)) else None
  end.

(** Ranges of numbers, from the first address to the one after the last. *)
Definition range : Type := Z * Z.
Definition v4 (a b c d : Z) : Z := number [a; b; c; d].
Definition cidr4 (base bits : Z) : range := (base, base + 2 ^ (32 - bits)).
Definition cidr6 (base bits : Z) : range := (base, base + 2 ^ (128 - bits)).
Definition inside (n : Z) (r : range) : Prop := fst r <= n < snd r.

Definition rfc1918 : list range := [cidr4 (v4 10 0 0 0) 8; cidr4 (v4 172 16 0 0) 12; cidr4 (v4 192 168 0 0) 16].

(** Link-local, unspecified, multicast, carrier-grade NAT. *)
Definition hard4 : list range :=
  [cidr4 (v4 169 254 0 0) 16; cidr4 (v4 0 0 0 0) 32; cidr4 (v4 224 0 0 0) 4; cidr4 (v4 100 64 0 0) 10].
Definition loopback4 : range := cidr4 (v4 127 0 0 0) 8.

(** [fe80::/10], the unspecified address, [ff00::/8], the metadata alias. *)
Definition hard6 : list range :=
  [cidr6 (0xfe80 * 2 ^ 112) 10; cidr6 0 128; cidr6 (0xff * 2 ^ 120) 8; cidr6 (number metadataV6) 128].
Definition loopback6 : range := cidr6 1 128.
Definition unique_local : range := cidr6 (0xfc * 2 ^ 120) 7.

Definition listed (ranges4 ranges6 : list range) (a : address) : Prop :=
  match a with
  | V4 n => Exists (inside n) ranges4
  | V6 n => Exists (inside n) ranges6
  end.

Definition non_public (allow1918 : bool) : address -> Prop :=
  listed (loopback4 :: (if allow1918 then [] else rfc1918) ++ hard4) (loopback6 :: unique_local :: hard6).

Definition always_blocked : address -> Prop := listed hard4 hard6.

(** The address has the family of the prefix and its leading bits. *)
Definition in_prefix (p : Prefix) (a : address) : Prop :=
  match a with
  | V4 n => length (pf_addr p) = 4%nat /\ 0 <= pf_bits p <= 32 /\ n / 2 ^ (32 - pf_bits p) = number (pf_addr p) / 2 ^ (32 - pf_bits p)
  | V6 n => length (pf_addr p) = 16%nat /\ 0 <= pf_bits p <= 128 /\ n / 2 ^ (128 - pf_bits p) = number (pf_addr p) / 2 ^ (128 - pf_bits p)
  end.

(** What a client with some allowances may connect to: public addresses, and those
    of an allowed prefix unless they are always blocked. *)
Definition reachable (opts : SafeClientOptions) (a : address) : Prop :=
  non_public false a -> ~ always_blocked a /\ Exists (fun p => in_prefix p a) (AllowPrivateCIDRs opts).

(** A well-formed address. *)
Definition bytes_ok (ip : list Z) : Prop :=
  Forall (fun b => 0 <= b < 256) ip /\ (length ip = 4 \/ length ip = 16)%nat.

(** ** Facts about bytes *)

Lemma byte_forall (P : Z -> bool) : forallb P (seqZ 0 256) = true -> forall b, 0 <= b < 256 -> P b = true.
Proof. intros H b Hb. rewrite forallb_forall in H. apply H, list_elem_of_In, elem_of_seqZ. lia. Qed.

Lemma land_240_16 b : 0 <= b < 256 -> (Z.land b 240 =? 16) = (16 <=? b) && (b <? 32).
Proof. intros Hb. apply eqb_prop, (byte_forall (fun b => eqb (Z.land b 240 =? 16) ((16 <=? b) && (b <? 32)))); [by vm_compute|done]. Qed.

Lemma land_240_224 b : 0 <= b < 256 -> (Z.land b 240 =? 224) = (224 <=? b) && (b <? 240).
Proof. intros Hb. apply eqb_prop, (byte_forall (fun b => eqb (Z.land b 240 =? 224) ((224 <=? b) && (b <? 240)))); [by vm_compute|done]. Qed.

Lemma land_192_64 b : 0 <= b < 256 -> (Z.land b 192 =? 64) = (64 <=? b) && (b <? 128).
Proof. intros Hb. apply eqb_prop, (byte_forall (fun b => eqb (Z.land b 192 =? 64) ((64 <=? b) && (b <? 128)))); [by vm_compute|done]. Qed.

Lemma land_192_128 b : 0 <= b < 256 -> (Z.land b 192 =? 128) = (128 <=? b) && (b <? 192).
Proof. intros Hb. apply eqb_prop, (byte_forall (fun b => eqb (Z.land b 192 =? 128) ((128 <=? b) && (b <? 192)))); [by vm_compute|done]. Qed.

Lemma land_254_252 b : 0 <= b < 256 -> (Z.land b 254 =? 252) = (252 <=? b) && (b <? 254).
Proof. intros Hb. apply eqb_prop, (byte_forall (fun b => eqb (Z.land b 254 =? 252) ((252 <=? b) && (b <? 254)))); [by vm_compute|done]. Qed.

Lemma number_from n l : fold_left (fun n b => 256 * n + b) l n = n * 256 ^ Z.of_nat (length l) + number l.
Proof.
  unfold number. revert n. induction l as [|b l IH]; intros n; cbn [fold_left length]; [lia|].
  rewrite IH, (IH (256 * 0 + b)), Nat2Z.inj_succ, Z.pow_succ_r by lia. ring.
Qed.

Lemma number_cons b l : number (b :: l) = b * 256 ^ Z.of_nat (length l) + number l.
Proof. unfold number at 1. cbn [fold_left]. rewrite number_from. f_equal. Qed.

Lemma number_bound l : Forall (fun b => 0 <= b < 256) l -> 0 <= number l < 256 ^ Z.of_nat (length l).
Proof.
  induction 1 as [|b l Hb _ IH]; [by cbn|]. rewrite number_cons. cbn [length].
  rewrite Nat2Z.inj_succ, Z.pow_succ_r by lia. nia.
Qed.

Lemma number_inj l l' : length l = length l' ->
  Forall (fun b => 0 <= b < 256) l -> Forall (fun b => 0 <= b < 256) l' -> number l = number l' -> l = l'.
Proof.
  revert l'. induction l as [|b l IH]; intros [|b' l'] Hl Hb Hb' Hn; try done.
  apply Forall_cons in Hb as [Hb Hl1], Hb' as [Hb' Hl2]. injection Hl as Hl.
  rewrite !number_cons, Hl in Hn. pose proof (number_bound l Hl1) as B1. pose proof (number_bound l' Hl2) as B2.
  rewrite Hl in B1. assert (b = b') as -> by nia. f_equal. apply IH; [done..|lia].
Qed.

Lemma equal_number l l' : length l = length l' ->
  Forall (fun b => 0 <= b < 256) l -> Forall (fun b => 0 <= b < 256) l' -> bool_decide (l = l') = (number l =? number l').
Proof.
  intros Hl H1 H2. destruct (Z.eqb_spec (number l) (number l')) as [Hn|Hn].
  - apply bool_decide_eq_true. by apply number_inj.
  - apply bool_decide_eq_false. congruence.
Qed.

Lemma To4_four a b c d : To4 [a; b; c; d] = Some [a; b; c; d].
Proof. done. Qed.

(** The two forms of an address. *)
Lemma canonical_cases ip : bytes_ok ip ->
  (exists a b c d, To4 ip = Some [a; b; c; d] /\ 0 <= a < 256 /\ 0 <= b < 256 /\ 0 <= c < 256 /\ 0 <= d < 256) \/
  (To4 ip = None /\ exists a b l, ip = a :: b :: l /\ length l = 14%nat /\ 0 <= a < 256 /\ 0 <= b < 256 /\
     Forall (fun b => 0 <= b < 256) l).
Proof.
  intros [Hf Hl]. destruct (To4 ip) as [v|] eqn:E.
  - left. assert (Hv : length v = 4%nat /\ Forall (fun b => 0 <= b < 256) v).
    { unfold To4 in E. destruct (length ip =? 4)%nat eqn:E4; [injection E as <-; split; [by apply Nat.eqb_eq|done]|].
      destruct (_ && _); [|done]. injection E as <-. rewrite length_drop. apply Nat.eqb_neq in E4. split; [lia|by apply Forall_drop]. }
    destruct Hv as [Hv1 Hv2]. destruct v as [|a [|b [|c [|d [|]]]]]; try done. exists a, b, c, d.
    rewrite !Forall_cons in Hv2. tauto.
  - right. split; [done|]. destruct Hl as [Hl|Hl]; [unfold To4 in E; by rewrite Hl in E|].
    destruct ip as [|a [|b l]]; try done. exists a, b, l. rewrite !Forall_cons in Hf. injection Hl as Hl. tauto.
Qed.

Lemma inside_cidr4 n base bits : inside n (cidr4 base bits) <-> base <= n < base + 2 ^ (32 - bits).
Proof. done. Qed.

Ltac bool_prop := rewrite ?orb_true_iff, ?andb_true_iff, ?negb_true_iff, ?Z.eqb_eq, ?Z.leb_le, ?Z.ltb_lt.

(** The checks that both classifications share, on four bytes. *)
Lemma hard_v4 a b c d :
  0 <= a < 256 -> 0 <= b < 256 -> 0 <= c < 256 -> 0 <= d < 256 ->
  (let ip := [a; b; c; d] in
   IsLinkLocalUnicast ip || IsLinkLocalMulticast ip || IsUnspecified ip || IsMulticast ip || IsInterfaceLocalMulticast ip
   || isCGNAT ip || Equal ip metadataV6 = true) <-> always_blocked (V4 (v4 a b c d)).
Proof.
  intros Ha Hb Hc Hd. cbn zeta.
  assert (Hu : IsUnspecified [a; b; c; d] = (v4 a b c d =? 0)).
  { unfold IsUnspecified, Equal. cbn [length Nat.eqb andb IPv4zero IPv6unspecified mapped app replicate].
    rewrite (bool_decide_eq_false_2 (_ = [0; 0; 0; 0; 0; 0; 0; 0; 0; 0; 0; 0; 0; 0; 0; 0])) by done. rewrite orb_false_r.
    destruct (Z.eqb_spec (v4 a b c d) 0) as [E|E]; unfold v4, number in E; cbn [fold_left] in E.
    - apply bool_decide_eq_true. by repeat f_equal; lia.
    - apply bool_decide_eq_false. intros [= -> -> -> ->]. lia. }
  rewrite Hu. unfold IsLinkLocalUnicast, IsLinkLocalMulticast, IsMulticast, IsInterfaceLocalMulticast, isCGNAT. rewrite To4_four.
  replace (Equal [a; b; c; d] metadataV6) with false by (symmetry; apply bool_decide_eq_false; done).
  unfold at_. cbn [nth length Nat.eqb andb]. rewrite land_240_224, land_192_64 by done.
  unfold always_blocked, listed, hard4. rewrite !Exists_cons, Exists_nil, !inside_cidr4.
  unfold v4, number. cbn [fold_left]. bool_prop. lia.
Qed.

(** A sixteen-byte address that is no mapped IPv4 address. *)
Section Sixteen.
Variables (a b : Z) (l : list Z).
Hypotheses (Ha : 0 <= a < 256) (Hb : 0 <= b < 256) (Hl : Forall (fun b => 0 <= b < 256) l) (Hlen : length l = 14%nat).
Let ip := a :: b :: l.
Hypothesis Hno : To4 ip = None.

Lemma v6_number : number ip = (256 * a + b) * 2 ^ 112 + number l.
Proof. unfold ip. rewrite !number_cons. cbn [length]. rewrite Hlen. cbn -[Z.mul Z.pow]. lia. Qed.

Lemma v6_rest : 0 <= number l < 2 ^ 112.
Proof. pose proof (number_bound l Hl) as H. by rewrite Hlen in H. Qed.

Lemma v6_length : length ip = 16%nat.
Proof. unfold ip. cbn. by rewrite Hlen. Qed.

Lemma v6_equal x : length x = 16%nat -> Forall (fun b => 0 <= b < 256) x -> Equal ip x = (number ip =? number x).
Proof.
  intros Hx Hf. unfold Equal. rewrite v6_length, Hx. cbn [Nat.eqb]. apply equal_number; [by rewrite v6_length|unfold ip; by rewrite !Forall_cons|done].
Qed.

Lemma v6_unspecified : IsUnspecified ip = (number ip =? 0).
Proof.
  unfold IsUnspecified. rewrite (v6_equal IPv6unspecified) by (try done; by apply (bool_decide_unpack _)).
  replace (Equal ip IPv4zero) with false; [done|]. symmetry. unfold Equal. rewrite v6_length. cbn [length Nat.eqb IPv4zero mapped app replicate].
  apply bool_decide_eq_false. intros H. rewrite H in Hno. done.
Qed.

Lemma hard_v6 :
  IsLinkLocalUnicast ip || IsLinkLocalMulticast ip || IsUnspecified ip || IsMulticast ip || IsInterfaceLocalMulticast ip
   || isCGNAT ip || Equal ip metadataV6 = true <-> always_blocked (V6 (number ip)).
Proof.
  rewrite v6_unspecified, (v6_equal metadataV6) by (try done; by apply (bool_decide_unpack _)).
  unfold IsLinkLocalUnicast, IsLinkLocalMulticast, IsMulticast, IsInterfaceLocalMulticast, isCGNAT. rewrite Hno, v6_length.
  unfold at_. change (nth 0 ip 0) with a. change (nth 1 ip 0) with b. cbn [Nat.eqb andb]. rewrite land_192_128 by done.
  pose proof v6_number as En. pose proof v6_rest as Er. generalize dependent (number ip). intros n ->. revert Er. generalize (number l). intros r Hr.
  unfold always_blocked, listed, hard6. rewrite !Exists_cons, Exists_nil. unfold inside, cidr6. cbn [fst snd].
  change (number metadataV6) with 336294982257581694735330614659971547732.
  rewrite (andb_comm _ (Z.land b 15 =? 2)), (andb_comm _ (Z.land b 15 =? 1)). bool_prop.
  assert (Hff : a = 255 <-> 255 * 2 ^ 120 <= (256 * a + b) * 2 ^ 112 + r < 255 * 2 ^ 120 + 2 ^ (128 - 8)) by lia.
  assert (Hfe : a = 254 /\ 128 <= b < 192 <-> 65152 * 2 ^ 112 <= (256 * a + b) * 2 ^ 112 + r < 65152 * 2 ^ 112 + 2 ^ (128 - 10)) by lia.
  rewrite <- Hff, <- Hfe. lia.
Qed.

End Sixteen.

Lemma canonical_v4 ip a b c d : To4 ip = Some [a; b; c; d] -> canonical ip = Some (V4 (v4 a b c d)).
Proof. unfold canonical. by intros ->. Qed.

Lemma canonical_some ip : bytes_ok ip -> is_Some (canonical ip).
Proof.
  intros Hok. destruct (canonical_cases ip Hok) as [(a & b & c & d & E & _)|[E (a & b & l & -> & Hl & _)]].
  - rewrite (canonical_v4 _ _ _ _ _ E). eauto.
  - unfold canonical. rewrite E. cbn [length]. rewrite Hl. cbn. eauto.
Qed.

(** The six checks and the two after them as one disjunction. *)
Lemma blocked_flat ip opts :
  BlockedIPWithOptions (Some ip) opts =
  (let ip := default ip (To4 ip) in
   IsLoopback ip || (IsPrivate ip && (negb (AllowRFC1918 opts) || negb (isRFC1918 ip))) ||
   (IsLinkLocalUnicast ip || IsLinkLocalMulticast ip || IsUnspecified ip || IsMulticast ip || IsInterfaceLocalMulticast ip
    || isCGNAT ip || Equal ip metadataV6)).
Proof.
  cbn. generalize (default ip (To4 ip)). intros x.
  destruct (IsLoopback x), (IsLinkLocalUnicast x), (IsLinkLocalMulticast x), (IsUnspecified x), (IsMulticast x),
    (IsInterfaceLocalMulticast x), (IsPrivate x && _), (isCGNAT x); done.
Qed.

Lemma hard_flat ip :
  hardBlockedIP (Some ip) =
  (let ip := default ip (To4 ip) in
   IsLinkLocalUnicast ip || IsLinkLocalMulticast ip || IsUnspecified ip || IsMulticast ip || IsInterfaceLocalMulticast ip
    || isCGNAT ip || Equal ip metadataV6).
Proof.
  cbn. generalize (default ip (To4 ip)). intros x.
  destruct (IsLinkLocalUnicast x), (IsLinkLocalMulticast x), (IsUnspecified x), (IsMulticast x), (IsInterfaceLocalMulticast x), (isCGNAT x); done.
Qed.

Lemma hardBlocked_ranges ip a : bytes_ok ip -> canonical ip = Some a -> hardBlockedIP (Some ip) = true <-> always_blocked a.
Proof.
  intros Hok Hc. rewrite hard_flat. destruct (canonical_cases ip Hok) as [(x & y & z & t & E & Hx & Hy & Hz & Ht)|[E (x & y & l & -> & Hl & Hx & Hy & Hf)]].
  - rewrite (canonical_v4 _ _ _ _ _ E) in Hc. injection Hc as <-. rewrite E. by apply hard_v4.
  - unfold canonical in Hc. rewrite E in *. cbn [length] in Hc. rewrite Hl in Hc. injection Hc as <-. by apply hard_v6.
Qed.

Lemma blocked_ranges ip opts a :
  bytes_ok ip -> canonical ip = Some a -> BlockedIPWithOptions (Some ip) opts = true <-> non_public (AllowRFC1918 opts) a.
Proof.
  intros Hok Hc. pose proof (hardBlocked_ranges ip a Hok Hc) as Hh. rewrite hard_flat in Hh. rewrite blocked_flat. cbn zeta in *.
  rewrite orb_true_iff, Hh. clear Hh. unfold non_public, always_blocked.
  destruct (canonical_cases ip Hok) as [(x & y & z & t & E & Hx & Hy & Hz & Ht)|[E (x & y & l & -> & Hl & Hx & Hy & Hf)]].
  - rewrite (canonical_v4 _ _ _ _ _ E) in Hc. injection Hc as <-. rewrite E. cbn [default from_option id].
    unfold IsLoopback, IsPrivate, isRFC1918. rewrite To4_four. unfold at_. cbn [nth]. rewrite land_240_16 by done.
    unfold listed. rewrite Exists_cons, Exists_app.
    assert (Hlo : inside (v4 x y z t) loopback4 <-> x = 127) by (unfold inside, loopback4, cidr4, v4, number; cbn [fold_left fst snd]; lia).
    assert (Hp : Exists (inside (v4 x y z t)) rfc1918 <-> x = 10 \/ (x = 172 /\ 16 <= y < 32) \/ (x = 192 /\ y = 168)).
    { unfold rfc1918. rewrite !Exists_cons, Exists_nil. unfold inside, cidr4, v4, number. cbn [fold_left fst snd]. lia. }
    rewrite Hlo. destruct (AllowRFC1918 opts); cbn [negb orb andb].
    + rewrite andb_negb_r, orb_false_r, Z.eqb_eq, Exists_nil. tauto.
    + rewrite andb_true_r. bool_prop. rewrite Hp. tauto.
  - unfold canonical in Hc. rewrite E in *. cbn [length] in Hc. rewrite Hl in Hc. injection Hc as <-. cbn [default from_option id].
    unfold IsLoopback, IsPrivate, isRFC1918. rewrite E, (v6_length x y l Hl).
    rewrite (v6_equal x y l Hx Hy Hf Hl IPv6loopback) by (try done; by apply (bool_decide_unpack _)).
    unfold at_ at 1. cbn [nth Nat.eqb andb negb]. rewrite orb_true_r, andb_true_r, land_254_252 by done.
    unfold listed. rewrite !Exists_cons. bool_prop. change (number IPv6loopback) with 1.
    assert (Hlo : inside (number (x :: y :: l)) loopback6 <-> number (x :: y :: l) = 1) by (unfold inside, loopback6, cidr6; cbn [fst snd]; lia).
    assert (Hu : inside (number (x :: y :: l)) unique_local <-> 252 <= x < 254).
    { unfold inside, unique_local, cidr6. cbn [fst snd]. rewrite (v6_number x y l Hl). pose proof (v6_rest l Hf Hl). lia. }
    rewrite Hlo, Hu. tauto.
Qed.

Lemma Unmap_canonical ip a p : bytes_ok ip -> canonical ip = Some a -> Contains p (Unmap ip) = true <-> in_prefix p a.
Proof.
  intros Hok Hc.
  assert (Hgen : forall x w, length x = w -> Contains p x = true <->
    length (pf_addr p) = w /\ 0 <= pf_bits p <= 8 * Z.of_nat w /\ number x / 2 ^ (8 * Z.of_nat w - pf_bits p) = number (pf_addr p) / 2 ^ (8 * Z.of_nat w - pf_bits p)).
  { intros x w Hw. unfold Contains, width. rewrite Hw. bool_prop. rewrite Nat.eqb_eq. split.
    - intros [[[H1 H2] H3] H4]. rewrite H3 in H2. rewrite !Z.shiftr_div_pow2 in H4 by lia. split_and!; [lia..|done].
    - intros (H1 & H2 & H3). rewrite H1. rewrite !Z.shiftr_div_pow2 by lia. split_and!; [lia..|done]. }
  destruct (canonical_cases ip Hok) as [(x & y & z & t & E & _)|[E (x & y & l & -> & Hl & _)]].
  - rewrite (canonical_v4 _ _ _ _ _ E) in Hc. injection Hc as <-.
    assert (Unmap ip = [x; y; z; t]) as ->.
    { unfold Unmap. rewrite E. destruct (length ip =? 16)%nat eqn:E16; [done|]. apply Nat.eqb_neq in E16.
      destruct Hok as [_ [H4|H16]]; [|done]. unfold To4 in E. rewrite H4 in E. cbn in E. congruence. }
    by apply (Hgen _ 4%nat).
  - unfold canonical in Hc. rewrite E in Hc. cbn [length] in Hc. rewrite Hl in Hc. injection Hc as <-.
    unfold Unmap. rewrite E. cbn [length]. rewrite Hl. cbn [Nat.eqb default from_option id].
    apply (Hgen _ 16%nat). cbn. by rewrite Hl.
Qed.

Lemma client_reachable ip a opts : bytes_ok ip -> canonical ip = Some a -> blockedIPForClient (Some ip) opts = false <-> reachable opts a.
Proof.
  intros Hok Hc. pose proof (blocked_ranges ip (mkBlockedOpts false) a Hok Hc) as Hb. cbn [AllowRFC1918] in Hb.
  pose proof (hardBlocked_ranges ip a Hok Hc) as Hh. unfold blockedIPForClient, BlockedIP, reachable.
  destruct (BlockedIPWithOptions (Some ip) _); cbn [negb]; [|split; [|done]; intros _ H; apply Hb in H; discriminate].
  rewrite negb_false_iff. unfold allowedPrivateIP.
  assert (AddrFromSlice ip = Some ip) as ->.
  { unfold AddrFromSlice. destruct Hok as [_ [-> | ->]]; done. }
  assert (Hx : existsb (fun p => Contains p (Unmap ip)) (AllowPrivateCIDRs opts) = true <-> Exists (fun p => in_prefix p a) (AllowPrivateCIDRs opts)).
  { rewrite existsb_exists, Exists_exists. split; intros (p & Hp & Hin); exists p; (split; [by apply list_elem_of_In|by apply (Unmap_canonical ip a p Hok Hc)]). }
  destruct (bool_decide (AllowPrivateCIDRs opts = [])) eqn:En.
  - apply bool_decide_eq_true in En. rewrite En, Exists_nil. split; [done|]. intros H. by destruct (H (proj1 Hb eq_refl)).
  - destruct (hardBlockedIP (Some ip)).
    + split; [done|]. intros H. destruct (H (proj1 Hb eq_refl)) as [Hn _]. by destruct Hn; apply Hh.
    + rewrite Hx. split; [|intros H; by apply (H (proj1 Hb eq_refl))]. intros H _. split; [|done]. intros Ha. apply Hh in Ha. discriminate.
Qed.

Section Theorems.
Variable ParseIP : string -> IP.

(** The parser returns nothing or four or sixteen bytes. *)
Hypothesis ParseIP_ok : forall s ip, ParseIP s = Some ip -> bytes_ok ip.

(** C22: The guard decides the documented policy.  A connection is let through exactly
    when its text splits into a host that is an address which is public, or lies in
    a prefix the client allows and is not in a range that is blocked in any case
    (link-local with the metadata service, unspecified, multicast, carrier-grade
    NAT, the IPv6 metadata alias); IPv4-mapped addresses count as IPv4.  A redirect
    or an endpoint that names an address is held to the same policy before the
    connection is tried. *)
Theorem dial_guard_decides opts address scheme host via :
  (safeDialControl ParseIP opts address = None <->
   exists h ip a, GoStrings.SplitHost (list_ascii_of_string address) = Some h /\ ParseIP (string_of_list_ascii h) = Some ip /\
     canonical ip = Some a /\ reachable opts a) /\
  (CheckRedirect ParseIP opts scheme host via = None ->
   via < 5 /\ (scheme = "http" \/ scheme = "https") /\
   forall ip a, ParseIP host = Some ip -> canonical ip = Some a -> reachable opts a).
Proof.
  split.
  - unfold safeDialControl. split.
    + destruct (GoStrings.SplitHost _) as [h|]; [|done]. destruct (ParseIP _) as [ip|] eqn:Ep; [|done].
      pose proof (ParseIP_ok _ _ Ep) as Hok. destruct (canonical_some ip Hok) as [a Ha].
      destruct (blockedIPForClient (Some ip) opts) eqn:Eb; [done|]. intros _.
      exists h, ip, a. by rewrite <- (client_reachable ip a opts Hok Ha).
    + intros (h & ip & a & -> & Hp & Ha & Hr). rewrite Hp.
      by rewrite (proj2 (client_reachable ip a opts (ParseIP_ok _ _ Hp) Ha) Hr).
  - unfold CheckRedirect. destruct (Z.leb_spec 5 via); [done|].
    destruct (negb (String.eqb scheme "http") && negb (String.eqb scheme "https")) eqn:Es; [done|].
    destruct (bool_decide _ && _) eqn:Eb; [done|]. intros _. split_and!; [lia| |].
    + apply andb_false_iff in Es as [Es|Es]; apply negb_false_iff, String.eqb_eq in Es; auto.
    + intros ip a Hp Ha. apply (client_reachable ip a opts (ParseIP_ok _ _ Hp) Ha).
      rewrite Hp, bool_decide_true in Eb by done. done.
Qed.

End Theorems.

(** A parser of a few addresses. *)
Definition demo_ParseIP (s : string) : IP :=
  if String.eqb s "10.1.2.3" then Some [10; 1; 2; 3]
  else if String.eqb s "::ffff:169.254.169.254" then Some (mapped [169; 254; 169; 254])
  else if String.eqb s "8.8.8.8" then Some [8; 8; 8; 8] else None.

Lemma demo_ParseIP_ok s ip : demo_ParseIP s = Some ip -> bytes_ok ip.
Proof. unfold demo_ParseIP. intros H. branches H; split; try (by repeat constructor; cbn); auto. Qed.

Definition demo_client : SafeClientOptions := mkSafeOpts [mkPrefix [10; 1; 0; 0] 16; mkPrefix [169; 254; 0; 0] 16].

Lemma dial_guard_decides_witness :
  safeDialControl demo_ParseIP demo_client "[::ffff:169.254.169.254]:80" = Some ErrSSRFBlocked /\
  reachable demo_client (V4 (v4 10 1 2 3)).
Proof.
  split; [reflexivity|].
  destruct (dial_guard_decides demo_ParseIP demo_ParseIP_ok demo_client "10.1.2.3:443" "https" "8.8.8.8" 1) as [H _].
  destruct (proj1 H eq_refl) as (h & ip & a & Hh & Hp & Ha & Hr). injection Hh as <-. injection Hp as <-. injection Ha as <-. exact Hr.
Defined.

End NetSec.
