(* ===== verification/AcmeValidation.v ===== *)
(** * Proving control of a domain

    [src/internal/protocols/acme/validate.go], [dns01.go], [tlsalpn.go], [dvmethod.go]
    and [wildcard.go]: the three validators, their dispatch, the choice of a method
    and the governance of wildcards; [solver.go], [dns01_reliability.go] and
    [dns01_delegation.go]: publishing a DNS-01 record through a provider, with its
    wrappers, its waiting and its cleanup; [caa.go]: whether a CA may issue.

    The network is a type of states [W].  A Go interface is a record of functions on
    it; the wrappers are functions between these records.  [Conforming] is what a
    provider promises to the code that drives it, and every wrapper keeps it. *)

From S2P Require Import Prelude Tenancy Base64 AcmeParse AcmeServer.
Open Scope string_scope.
Open Scope list_scope.
Open Scope Z_scope.

Module AcmeValidation.
Import SE Tenancy Base64 AcmeParse AcmeServer.

(** ** Interfaces *)

Section Interfaces.
Variable W : Type.

(** An error of a provider: the text, and the [RetryAfter] of a [RateLimitError] in
    its chain. *)
Record ProviderErr := mkProviderErr { pe_text : string; pe_retryAfter : option Z }.

Record Resolver := mkResolver { LookupTXT : string -> W -> result string (list string) }.
Record CNAMEResolver := mkCNAME { LookupCNAME : string -> W -> result string string }.
Record DNSProvider := mkProvider {
  PresentTXT : string -> string -> M W ProviderErr unit;
  CleanupTXT : string -> string -> M W ProviderErr unit
}.

End Interfaces.
Arguments LookupTXT {W}. Arguments LookupCNAME {W}. Arguments PresentTXT {W}. Arguments CleanupTXT {W}.
Arguments mkResolver {W}. Arguments mkCNAME {W}. Arguments mkProvider {W}.

(** SHA-256 of the crypto boundary, and its digest as the DNS challenge has it. *)
Class Digest := SHA256Sum : string -> string.
Definition SHA256Base64URL `{Digest} (s : string) : string := EncodeToString RawURLEncoding (SHA256Sum s).

(** ** dns01.go *)

Definition DNS01RecordName (domain : string) : string := "_acme-challenge." +:+ GoStrings.TrimPrefix domain "*.".
Definition DNS01RecordValue `{Digest} (keyAuth : string) : string := SHA256Base64URL keyAuth.

Inductive ValidateErr :=
| WrongType (typ : string) | UnknownType (typ : string) | NotConfigured (typ : string)
| FetchFailed | BadStatus (code : Z) | LookupFailed (e : string) | HandshakeFailed (e : string)
| NotNegotiated | Mismatch.

Section Validators.
Context {W : Type} `{Digest}.

(** A validator looks at the network and answers. *)
Definition Validator : Type := string -> string -> string -> string -> W -> result ValidateErr unit.

Definition DNS01Validator (r : Resolver W) : Validator := fun challengeType domain token keyAuth w =>
  if negb (String.eqb challengeType ChallengeDNS01) then Err (WrongType challengeType) else
  let name := DNS01RecordName domain in
  let want := SHA256Base64URL keyAuth in
  match LookupTXT r name w with
  | Err e => Err (LookupFailed e)
  | Ok records => if existsb (fun t => String.eqb (GoStrings.TrimSpace t) want) records then Ok tt else Err Mismatch
  end.

(** ** validate.go

    [get] is the HTTP client: the status and the body, with whether reading the body
    failed; [None] when no response was received. *)
Definition bodyLimit : nat := 4096.

Definition HTTP01Validator (get : string -> W -> option (Z * string * bool)) : Validator := fun challengeType domain token keyAuth w =>
  if negb (String.eqb challengeType ChallengeHTTP01) then Err (WrongType challengeType) else
  match get ("http://" +:+ domain +:+ "/.well-known/acme-challenge/" +:+ token) w with
  | None => Err FetchFailed
  | Some (code, body, broken) =>
      if negb (code =? 200) then Err (BadStatus code) else
      let body := String.substring 0 bodyLimit body in
      if broken && (String.length body <? bodyLimit)%nat then Err FetchFailed else
      if String.eqb (GoStrings.TrimSpace body) keyAuth then Ok tt else Err Mismatch
  end.

(** ** tlsalpn.go *)

Definition ACMETLSALPNProto : string := "acme-tls/1".
Record ProbeResult := mkProbe { NegotiatedProtocol : string; ACMEIdentifier : string }.

Definition TLSALPN01Validator (prober : string -> W -> result string ProbeResult) : Validator := fun challengeType domain token keyAuth w =>
  if negb (String.eqb challengeType ChallengeTLSALPN01) then Err (WrongType challengeType) else
  match prober (GoStrings.JoinHostPort domain "443") w with
  | Err e => Err (HandshakeFailed e)
  | Ok res =>
      if negb (String.eqb (NegotiatedProtocol res) ACMETLSALPNProto) then Err NotNegotiated else
      if String.eqb (ACMEIdentifier res) (SHA256Sum keyAuth) then Ok tt else Err Mismatch
  end.

(** ** dvmethod.go *)

Record Validators := mkValidators { HTTP01 : option Validator; DNS01 : option Validator; TLSALPN01 : option Validator }.

Definition Validators_Validate (m : Validators) : Validator := fun challengeType domain token keyAuth w =>
  let use (v : option Validator) :=
    match v with
    | None => Err (NotConfigured challengeType)
    | Some v => v challengeType domain token keyAuth w
    end in
  if String.eqb challengeType ChallengeHTTP01 then use (HTTP01 m)
  else if String.eqb challengeType ChallengeDNS01 then use (DNS01 m)
  else if String.eqb challengeType ChallengeTLSALPN01 then use (TLSALPN01 m)
  else Err (UnknownType challengeType).

Definition DefaultValidators get r prober : Validators :=
  mkValidators (Some (HTTP01Validator get)) (Some (DNS01Validator r)) (Some (TLSALPN01Validator prober)).

End Validators.
Arguments Validator : clear implicits.
Arguments Validators : clear implicits.

Record MethodContext := mkMethod {
  mc_Domain : string; mc_Wildcard : bool; Port80Reachable : bool; DNSManaged : bool; Override : string
}.

Inductive MethodErr := UnknownOverride (m : string) | ZoneNotManaged (domain : string).

(** The method; the rationale is a text of the branch. *)
Definition SelectMethod (c : MethodContext) : result MethodErr string :=
  if negb (String.eqb (Override c) "") then
    if negb (knownMethod (Override c)) then Err (UnknownOverride (Override c)) else Ok (Override c)
  else if mc_Wildcard c then
    if negb (DNSManaged c) then Err (ZoneNotManaged (mc_Domain c)) else Ok ChallengeDNS01
  else if negb (Port80Reachable c) then
    if DNSManaged c then Ok ChallengeDNS01 else Ok ChallengeTLSALPN01
  else Ok ChallengeHTTP01.

(** ** wildcard.go *)

Definition IsWildcard (domain : string) : bool := GoStrings.HasPrefix domain "*.".

Inductive WildcardErr := WildcardNotPermitted (domain : string) | WildcardNeedsDNS01 (domain method : string).

Definition CheckWildcard (AllowWildcards : bool) (domain method : string) : result WildcardErr unit :=
  if negb (IsWildcard domain) then Ok tt else
  if negb AllowWildcards then Err (WildcardNotPermitted domain) else
  if negb (String.eqb method ChallengeDNS01) then Err (WildcardNeedsDNS01 domain method) else Ok tt.

(** ** caa.go *)

Record CAARecord := mkCAA { caa_Flag : Z; caa_Tag : string; caa_Value : string }.

Inductive CAAErr := CAANoResolver | CAALookup (name e : string) | CAANoIssuer (name : string) | CAANotAuthorized (name issuer : string).

Section CAA.
Context {W : Type}.
Variable unicode_lower : string -> string.
Variable unicode_fold : string -> string -> bool.

Record CAAChecker := mkCAAChecker { CAAResolver : option (string -> W -> result string (list CAARecord)); IssuerDomain : string }.

Definition authorizes (c : CAAChecker) (value : string) : bool :=
  let field := GoStrings.TrimSpace value in
  let field := match GoStrings.index_byte ";" (list_ascii_of_string field) with
               | Some i => GoStrings.TrimSpace (String.substring 0 i field)
               | None => field
               end in
  if String.eqb field "" then false else GoStrings.EqualFold unicode_fold field (IssuerDomain c).

Definition tagged (tag : string) (r : CAARecord) : bool := String.eqb (GoStrings.ToLower unicode_lower (caa_Tag r)) tag.

Definition evaluate (c : CAAChecker) (name : string) (records : list CAARecord) (wildcard : bool) : result CAAErr unit :=
  let issue := List.filter (tagged "issue") records in
  let issuewild := List.filter (tagged "issuewild") records in
  let relevant := if wildcard && negb (bool_decide (issuewild = [])) then issuewild else issue in
  if bool_decide (relevant = []) then Err (CAANoIssuer name) else
  if existsb (fun r => authorizes c (caa_Value r)) relevant then Ok tt else Err (CAANotAuthorized name (IssuerDomain c)).

(** The walk towards the apex, over the names from a list of labels. *)
Fixpoint caa_walk (c : CAAChecker) (lookup : string -> W -> result string (list CAARecord)) (labels : list (list ascii)) (wildcard : bool) (w : W)
    : result CAAErr unit :=
  match labels with
  | [] => Ok tt
  | _ :: parent =>
      let name := string_of_list_ascii (join_on "." labels) in
      match lookup name w with
      | Err e => Err (CAALookup name e)
      | Ok [] => caa_walk c lookup parent wildcard w
      | Ok records => evaluate c name records wildcard
      end
  end.

Definition caa_labels (domain : string) : list (list ascii) :=
  split_on "." [] (list_ascii_of_string (GoStrings.TrimSuffix (GoStrings.TrimPrefix domain "*.") ".")).

Definition Check_ (c : CAAChecker) (domain : string) (wildcard : bool) (w : W) : result CAAErr unit :=
  match CAAResolver c with
  | None => Err CAANoResolver
  | Some lookup => caa_walk c lookup (caa_labels domain) wildcard w
  end.

End CAA.
Arguments CAAChecker : clear implicits.

(** ** dns01_delegation.go *)

Section Delegation.
Context {W : Type}.
Variable unicode_fold : string -> string -> bool.

Inductive DelegationErr := NoCNAMEResolver | CNAMELookup (e : string) | NotDelegated (name : string) | WrongTarget (name cname want : string).

Definition target (r : option (CNAMEResolver W)) (name : string) (w : W) : result DelegationErr string :=
  match r with
  | None => Err NoCNAMEResolver
  | Some r =>
      match LookupCNAME r name w with
      | Err e => Err (CNAMELookup e)
      | Ok cname =>
          let cname := GoStrings.TrimSuffix cname "." in
          if String.eqb cname "" || GoStrings.EqualFold unicode_fold cname (GoStrings.TrimSuffix name ".") then Err (NotDelegated name)
          else Ok cname
      end
  end.

Definition delegation_text (e : DelegationErr) : ProviderErr :=
  mkProviderErr match e with
                | NoCNAMEResolver => "acme: delegation requires a CNAME resolver"
                | CNAMELookup e => "acme: delegation CNAME lookup: " +:+ e
                | NotDelegated name => "acme: " +:+ name +:+ " is not delegated"
                | WrongTarget name cname want => "acme: " +:+ name +:+ " is CNAME'd to " +:+ cname +:+ ", want " +:+ want
                end None.

Definition DelegatingProvider (base : DNSProvider W) (r : option (CNAMEResolver W)) : DNSProvider W :=
  let at_target (op : string -> M W ProviderErr unit) (name : string) : M W ProviderErr unit := fun w =>
    match target r name w with
    | Err e => (Err (delegation_text e), w)
    | Ok t => op t w
    end in
  mkProvider (fun name value => at_target (fun t => PresentTXT base t value) name)
             (fun name value => at_target (fun t => CleanupTXT base t value) name).

Definition VerifyDelegation (r : option (CNAMEResolver W)) (domain wantTarget : string) (w : W) : result DelegationErr unit :=
  match r with
  | None => Err NoCNAMEResolver
  | Some r =>
      let name := DNS01RecordName domain in
      match LookupCNAME r name w with
      | Err e => Err (CNAMELookup e)
      | Ok cname =>
          if GoStrings.EqualFold unicode_fold (GoStrings.TrimSuffix cname ".") (GoStrings.TrimSuffix wantTarget ".") then Ok tt
          else Err (WrongTarget name cname wantTarget)
      end
  end.

End Delegation.

(** ** dns01_reliability.go *)

Section Reliability.
Context {W : Type}.

(** An injected [sleep]; it may be cancelled. *)
Variable sleep : Z -> M W string unit.

Definition containsTXT (records : list string) (want : string) : bool := existsb (fun r => String.eqb r want) records.

Record PropagationChecker := mkPropagation { Resolvers : list (Resolver W); Interval : Z; Timeout : Z }.

Definition interval (c : PropagationChecker) : Z := if Interval c <=? 0 then 2 * second else Interval c.
Definition timeout (c : PropagationChecker) : Z := if Timeout c <=? 0 then 120 * second else Timeout c.

Definition allVisible (c : PropagationChecker) (name value : string) (w : W) : bool :=
  forallb (fun r => match LookupTXT r name w with Ok records => containsTXT records value | Err _ => false end) (Resolvers c).

Inductive WaitErr := NoResolvers | NotVisible (views : nat) (budget : Z) | Cancelled (e : string) | WaitFuel.

Fixpoint wait_loop (fuel : nat) (c : PropagationChecker) (name value : string) (elapsed : Z) : M W WaitErr unit := fun w =>
  match fuel with
  | O => (Err WaitFuel, w)
  | S fuel' =>
      if allVisible c name value w then (Ok tt, w) else
      if timeout c <=? elapsed then (Err (NotVisible (length (Resolvers c)) (timeout c)), w) else
      match sleep (interval c) w with
      | (Err e, w') => (Err (Cancelled e), w')
      | (Ok _, w') => wait_loop fuel' c name value (GoInt.wrap64 (elapsed + interval c)) w'
      end
  end.

(** Every poll but the last adds an interval to the elapsed budget. *)
Definition wait_fuel (c : PropagationChecker) : nat := Z.to_nat (timeout c / interval c + 3).

Definition Wait (c : PropagationChecker) (name value : string) : M W WaitErr unit :=
  if bool_decide (Resolvers c = []) then fail NoResolvers else wait_loop (wait_fuel c) c name value 0.

Record RetryConfig := mkRetry { rp_MaxAttempts : Z; BaseDelay : Z; MaxDelay : Z }.

Inductive RetryErr := GaveUp (attempts : Z) (e : ProviderErr) | RetryCancelled (e : string).

Definition rp_attempts (r : RetryConfig) : Z := if rp_MaxAttempts r <=? 0 then 5 else rp_MaxAttempts r.
Definition rp_delay (r : RetryConfig) : Z := if BaseDelay r <=? 0 then second else BaseDelay r.
Definition rp_maxDelay (r : RetryConfig) : Z := if MaxDelay r <=? 0 then 30 * second else MaxDelay r.

Definition retry_wait (maxDelay delay : Z) (e : ProviderErr) : Z :=
  let wait := match pe_retryAfter e with Some a => if delay <? a then a else delay | None => delay end in
  if maxDelay <? wait then maxDelay else wait.

(** [n] attempts are left. *)
Fixpoint retry_loop (n : nat) (attempts maxDelay delay : Z) (op : M W ProviderErr unit) : M W RetryErr unit := fun w =>
  match op w with
  | (Ok _, w') => (Ok tt, w')
  | (Err e, w') =>
      match n with
      | O | S O => (Err (GaveUp attempts e), w')
      | S n' =>
          match sleep (retry_wait maxDelay delay e) w' with
          | (Err e, w'') => (Err (RetryCancelled e), w'')
          | (Ok _, w'') => retry_loop n' attempts maxDelay (GoInt.wrap64 (delay * 2)) op w''
          end
      end
  end.

Definition retry (r : RetryConfig) (op : M W ProviderErr unit) : M W RetryErr unit :=
  retry_loop (Z.to_nat (rp_attempts r)) (rp_attempts r) (rp_maxDelay r) (rp_delay r) op.

(** The error of the wrapper: the rate limit stays in its chain. *)
Definition retry_text (e : RetryErr) : ProviderErr :=
  match e with
  | GaveUp n e => mkProviderErr ("acme: dns provider failed: " +:+ pe_text e) (pe_retryAfter e)
  | RetryCancelled e => mkProviderErr e None
  end.

Definition retried (r : RetryConfig) (op : M W ProviderErr unit) : M W ProviderErr unit := fun w =>
  match retry r op w with (Ok a, w') => (Ok a, w') | (Err e, w') => (Err (retry_text e), w') end.

Definition RetryingProvider (r : RetryConfig) (p : DNSProvider W) : DNSProvider W :=
  mkProvider (fun name value => retried r (PresentTXT p name value)) (fun name value => retried r (CleanupTXT p name value)).

(** ** solver.go *)

Context `{Digest}.

Inductive PresentErr := NoProvider | PresentFailed (e : ProviderErr) | Propagation (e : WaitErr) | SelfCheck (e : string) | SelfCheckNotVisible.

Record DNS01Solver := mkSolver { s_Provider : option (DNSProvider W); s_Resolver : option (Resolver W); s_Propagation : option PropagationChecker }.

(** The cleanup that [Present] returns is the closure over these three. *)
Record Cleanup := mkCleanup { cl_provider : DNSProvider W; cl_name : string; cl_value : string }.
Definition run_cleanup (c : Cleanup) : M W ProviderErr unit := CleanupTXT (cl_provider c) (cl_name c) (cl_value c).

(** [_ = cleanup()] and the error after it. *)
Definition abandon {A} (c : Cleanup) (e : PresentErr) : M W PresentErr A := fun w => (Err e, (run_cleanup c w).2).

Definition Present (s : DNS01Solver) (domain keyAuth : string) : M W PresentErr Cleanup := fun w =>
  match s_Provider s with
  | None => (Err NoProvider, w)
  | Some p =>
      let name := DNS01RecordName domain in
      let value := DNS01RecordValue keyAuth in
      match PresentTXT p name value w with
      | (Err e, w1) => (Err (PresentFailed e), w1)
      | (Ok _, w1) =>
          let cleanup := mkCleanup p name value in
          match s_Propagation s, s_Resolver s with
          | Some c, _ => match Wait c name value w1 with
                         | (Err e, w2) => abandon cleanup (Propagation e) w2
                         | (Ok _, w2) => (Ok cleanup, w2)
                         end
          | None, Some r => match LookupTXT r name w1 with
                            | Err e => abandon cleanup (SelfCheck e) w1
                            | Ok records => if containsTXT records value then (Ok cleanup, w1) else abandon cleanup SelfCheckNotVisible w1
                            end
          | None, None => (Ok cleanup, w1)
          end
      end
  end.

Inductive ConformErr := ConformPresent (e : PresentErr) | ConformNotValidated (e : ValidateErr) | ConformCleanup (e : ProviderErr) | ConformStillValid.

Definition ConformDNSProvider (p : DNSProvider W) (resolver : Resolver W) : M W ConformErr unit := fun w =>
  let domain := "conformance.example" in
  let keyAuth := "conformance-token.account-thumbprint" in
  let check := DNS01Validator resolver ChallengeDNS01 domain "conformance-token" keyAuth in
  match Present (mkSolver (Some p) (Some resolver) None) domain keyAuth w with
  | (Err e, w1) => (Err (ConformPresent e), w1)
  | (Ok cleanup, w1) =>
      match check w1 with
      | Err e => (Err (ConformNotValidated e), (run_cleanup cleanup w1).2)
      | Ok _ =>
          match run_cleanup cleanup w1 with
          | (Err e, w2) => (Err (ConformCleanup e), w2)
          | (Ok _, w2) => (match check w2 with Err _ => Ok tt | Ok _ => Err ConformStillValid end, w2)
          end
      end
  end.

Inductive PreflightErr := PreflightPresent (e : ProviderErr) | PreflightWait (e : WaitErr).

(** With the random probe; the cleanup runs when the function returns. *)
Definition PreflightDNS01 (p : DNSProvider W) (c : PropagationChecker) (probe domain : string) : M W PreflightErr unit := fun w =>
  let name := DNS01RecordName domain in
  let value := SHA256Base64URL probe in
  match PresentTXT p name value w with
  | (Err e, w1) => (Err (PreflightPresent e), w1)
  | (Ok _, w1) =>
      let (res, w2) := Wait c name value w1 in
      (match res with Ok _ => Ok tt | Err e => Err (PreflightWait e) end, (CleanupTXT p name value w2).2)
  end.

End Reliability.
Arguments PropagationChecker : clear implicits.
Arguments DNS01Solver : clear implicits.
Arguments Cleanup : clear implicits.

(** The provider in memory: the values of each name; a name without values has no
    entry.  The order in which Go walks the set is not observable through
    [containsTXT] or a validator. *)
Abbreviation Zone := (gmap string (gset string)).

Definition MemoryDNSProvider : DNSProvider Zone :=
  mkProvider
    (fun name value z => (Ok tt, <[name := {[value]} ∪ default ∅ (z !! name)]> z))
    (fun name value z =>
       match z !! name with
       | None => (Ok tt, z)
       | Some vs => (Ok tt, if decide (vs ∖ {[value]} = ∅) then delete name z else <[name := vs ∖ {[value]}]> z)
       end).

Definition MemoryResolver : Resolver Zone := mkResolver (fun name z => Ok (elements (default ∅ (z !! name)))).

End AcmeValidation.
