(* ===== verification/Dns01Spec.v ===== *)
(** * What a DNS-01 provider promises, and what is built on it

    [Conforming] is the contract between a provider, a resolver that reads its zone,
    and the code that publishes challenge records.  The provider in memory meets it,
    and the retrying and delegating wrappers keep it; the solver, its cleanup and the
    conformance check are proved against the contract only.  Further: the schedule of
    the retries, and the end of the propagation wait. *)

From S2P Require Import Prelude Tenancy Base64 AcmeParse AcmeServer AcmeValidation.
Open Scope string_scope.
Open Scope list_scope.
Open Scope Z_scope.

Module Dns01Spec.
Import SE Tenancy Base64 AcmeParse AcmeServer AcmeValidation.

(** ** The contract *)

Section Contract.
Context {W : Type}.

(** The resolver answers, and the value is among the records. *)
Definition shows (r : Resolver W) (w : W) (name value : string) : Prop :=
  exists l, LookupTXT r name w = Ok l /\ value ∈ l.

(** No name gained or lost a value other than [value]. *)
Definition only (r : Resolver W) (value : string) (w w' : W) : Prop :=
  forall n v, v <> value -> shows r w' n v <-> shows r w n v.

(** A provider that was told to publish a record and did not fail has published it,
    one that was told to remove it has removed it, and whether it fails or not it
    does not touch other values. *)
Class Conforming (p : DNSProvider W) (r : Resolver W) : Prop := {
  present_shows name value w w' : PresentTXT p name value w = (Ok tt, w') -> shows r w' name value;
  cleanup_hides name value w w' : CleanupTXT p name value w = (Ok tt, w') -> ~ shows r w' name value;
  present_only name value w : only r value w (PresentTXT p name value w).2;
  cleanup_only name value w : only r value w (CleanupTXT p name value w).2
}.

(** Time passing does not change the zone. *)
Class Idle (sleep : Z -> M W string unit) (r : Resolver W) : Prop :=
  idle d w n v : shows r (sleep d w).2 n v <-> shows r w n v.

Lemma only_refl r value w : only r value w w.
Proof. done. Qed.

Lemma only_trans r value w1 w2 w3 : only r value w1 w2 -> only r value w2 w3 -> only r value w1 w3.
Proof. intros H1 H2 n v Hv. by rewrite (H2 n v Hv), (H1 n v Hv). Qed.

Lemma only_idle sleep r `{!Idle sleep r} value d w : only r value w (sleep d w).2.
Proof. intros n v _. apply idle. Qed.

End Contract.

(** ** Instances *)

#[export] Instance Memory_conforming : Conforming MemoryDNSProvider MemoryResolver.
Proof.
  assert (Hshow : forall z n v, shows MemoryResolver z n v <-> v ∈ default ∅ (z !! n)).
  { intros z n v. unfold shows. cbn. split; [intros (l & [= <-] & H); by apply elem_of_elements|].
    intros H. eexists. split; [done|]. by apply elem_of_elements. }
  split; cbn [PresentTXT CleanupTXT MemoryDNSProvider].
  - intros n v z z' [= <-]. apply Hshow. rewrite lookup_insert_eq. cbn. set_solver.
  - intros n v z z' Hc. rewrite Hshow. apply (f_equal snd) in Hc. cbn [snd] in Hc. destruct (z !! n) as [vs|] eqn:E; cbn [snd] in Hc; subst z'; [|rewrite E; set_solver].
    destruct (decide _) as [Hd|Hd]; [rewrite lookup_delete_eq|rewrite lookup_insert_eq]; cbn; set_solver.
  - intros n v z m u Hu. cbn [snd]. rewrite !Hshow. destruct (decide (m = n)) as [->|Hm]; [rewrite lookup_insert_eq|by rewrite lookup_insert_ne].
    cbn. set_solver.
  - intros n v z m u Hu. rewrite !Hshow. destruct (z !! n) as [vs|] eqn:E; [|done]. cbn [snd].
    destruct (decide (m = n)) as [->|Hm].
    + destruct (decide _) as [Hd|Hd]; [rewrite lookup_delete_eq|rewrite lookup_insert_eq]; rewrite E; cbn; set_solver.
    + destruct (decide _); [by rewrite lookup_delete_ne|by rewrite lookup_insert_ne].
Qed.

Section Retry.
Context {W : Type} (sleep : Z -> M W string unit) (p : DNSProvider W) (r : Resolver W).
Context `{!Idle sleep r} `{!Conforming p r}.

(** What every run of an operation keeps, its retries keep. *)
Lemma retry_loop_only value op n attempts maxDelay delay w :
  (forall w, only r value w (op w).2) -> only r value w (retry_loop sleep n attempts maxDelay delay op w).2.
Proof.
  intros Hop. revert delay w. induction n as [|n IH]; intros delay w; cbn [retry_loop];
    pose proof (Hop w) as Hw; destruct (op w) as [[[]|e] w1]; try exact Hw.
  destruct n as [|n]; [exact Hw|]. pose proof (only_idle sleep r value (retry_wait maxDelay delay e) w1) as Hs.
  destruct (sleep _ w1) as [[[]|e'] w2]; cbn [snd] in *; [|by eapply only_trans].
  eapply only_trans; [exact Hw|]. eapply only_trans; [exact Hs|]. apply IH.
Qed.

(** A retried operation succeeds with a run of it that succeeds. *)
Lemma retry_loop_ok op n attempts maxDelay delay w w' :
  retry_loop sleep n attempts maxDelay delay op w = (Ok tt, w') -> exists w0, op w0 = (Ok tt, w').
Proof.
  revert delay w. induction n as [|n IH]; intros delay w; cbn [retry_loop]; destruct (op w) as [[[]|e] w1] eqn:E.
  - intros [= <-]. eauto.
  - done.
  - intros [= <-]. eauto.
  - destruct n as [|n]; [done|]. destruct (sleep _ w1) as [[[]|e'] w2]; [apply IH|done].
Qed.

Lemma retried_only c value op w : (forall w, only r value w (op w).2) -> only r value w (retried sleep c op w).2.
Proof.
  intros Hop. unfold retried, retry. pose proof (retry_loop_only value op (Z.to_nat (rp_attempts c)) (rp_attempts c) (rp_maxDelay c) (rp_delay c) w Hop) as H.
  by destruct (retry_loop _ _ _ _ _ _ _) as [[[]|] ?].
Qed.

Lemma retried_ok c op w w' : retried sleep c op w = (Ok tt, w') -> exists w0, op w0 = (Ok tt, w').
Proof.
  unfold retried, retry. destruct (retry_loop _ _ _ _ _ _ _) as [[[]|] w1] eqn:E; [|done]. intros [= <-]. by eapply retry_loop_ok.
Qed.

#[export] Instance Retrying_conforming c : Conforming (RetryingProvider sleep c p) r.
Proof.
  split; cbn.
  - intros n v w w' (w0 & H)%retried_ok. by eapply present_shows.
  - intros n v w w' (w0 & H)%retried_ok. by eapply cleanup_hides.
  - intros n v w. apply retried_only. intros w0. apply present_only.
  - intros n v w. apply retried_only. intros w0. apply cleanup_only.
Qed.

End Retry.

Section Delegating.
Context {W : Type} (unicode_fold : string -> string -> bool) (p : DNSProvider W) (r : Resolver W) (c : CNAMEResolver W).
Context `{!Conforming p r}.

(** Publishing TXT records changes no delegation. *)
Hypothesis cname_stable : forall n v w m,
  LookupCNAME c m (PresentTXT p n v w).2 = LookupCNAME c m w /\ LookupCNAME c m (CleanupTXT p n v w).2 = LookupCNAME c m w.

(** A resolver that follows the delegation of a name. *)
Definition following : Resolver W :=
  mkResolver (fun name w => match target unicode_fold (Some c) name w with
                            | Err _ => Err "not delegated"
                            | Ok t => LookupTXT r t w
                            end).

Lemma target_ext w w' m : LookupCNAME c m w' = LookupCNAME c m w -> target unicode_fold (Some c) m w' = target unicode_fold (Some c) m w.
Proof. intros H. unfold target. by rewrite H. Qed.

Lemma shows_following w n v :
  shows following w n v <-> exists t, target unicode_fold (Some c) n w = Ok t /\ shows r w t v.
Proof.
  unfold shows. cbn [following LookupTXT]. destruct (target unicode_fold (Some c) n w) as [t|e].
  - split; [intros H; exists t; by split|]. intros (t' & Ht & H). injection Ht as ->. exact H.
  - split; [by intros (l & ? & _)|]. by intros (? & ? & _).
Qed.

Lemma following_only w w' value :
  (forall m, LookupCNAME c m w' = LookupCNAME c m w) -> only r value w w' -> only following value w w'.
Proof.
  intros Hc Ho n v Hv. rewrite !shows_following. rewrite (target_ext w w' n (Hc n)).
  split; intros (t & Ht & Hs); exists t; (split; [done|]); by apply (Ho t v Hv).
Qed.

Lemma Delegating_conforming : Conforming (DelegatingProvider unicode_fold p (Some c)) following.
Proof.
  split; cbn [PresentTXT CleanupTXT DelegatingProvider].
  - intros n v w w' H. destruct (target _ _ n w) as [t|] eqn:Et; [|done]. apply shows_following. exists t.
    assert (w' = (PresentTXT p t v w).2) as Ew by (by rewrite H). split; [|by eapply present_shows].
    rewrite <- Et. apply target_ext. rewrite Ew. apply cname_stable.
  - intros n v w w' H. destruct (target _ _ n w) as [t|] eqn:Et; [|done]. rewrite shows_following. intros (t' & Ht' & Hs).
    assert (w' = (CleanupTXT p t v w).2) as Ew by (by rewrite H).
    rewrite (target_ext w w' n), Et in Ht' by (rewrite Ew; apply cname_stable). injection Ht' as <-.
    by eapply cleanup_hides.
  - intros n v w. destruct (target _ _ n w) as [t|]; [|done]. apply following_only; [|apply present_only]. intros m. apply cname_stable.
  - intros n v w. destruct (target _ _ n w) as [t|]; [|done]. apply following_only; [|apply cleanup_only]. intros m. apply cname_stable.
Qed.

End Delegating.

(** ** Values *)

Definition plain (c : ascii) : Prop := GoStrings.ascii_space c = false /\ (nat_of_ascii c < 128)%nat.

Lemma drop_spaces_plain r l : Forall plain l -> GoStrings.drop_spaces r l = l.
Proof.
  intros H. destruct H as [|a l [Ha Ha'] Hl]; [done|]. cbn [GoStrings.drop_spaces]. rewrite Ha.
  destruct Hl as [|b l [Hb Hb'] Hl]; [done|].
  assert (H2 : forall x y, plain x -> GoStrings.space2 x y = false).
  { intros x y [_ Hx]. unfold GoStrings.space2. destruct (Nat.eqb_spec (nat_of_ascii x) 194); [lia|done]. }
  assert (H3 : forall x y z, plain x -> GoStrings.space3 x y z = false).
  { intros x y z [_ Hx]. unfold GoStrings.space3.
    destruct (Nat.eqb_spec (nat_of_ascii x) 225), (Nat.eqb_spec (nat_of_ascii x) 226), (Nat.eqb_spec (nat_of_ascii x) 227); try lia; done. }
  assert ((if r then GoStrings.space2 b a else GoStrings.space2 a b) = false) as -> by (destruct r; by apply H2).
  destruct Hl as [|c l [Hc Hc'] Hl]; [done|].
  by assert ((if r then GoStrings.space3 c b a else GoStrings.space3 a b c) = false) as -> by (destruct r; by apply H3).
Qed.

Lemma symbol_plain v : 0 <= v < 64 -> plain (symbol RawURLEncoding v).
Proof.
  intros Hv. assert (Hall : forallb (fun n => let c := symbol RawURLEncoding (Z.of_nat n) in
    negb (GoStrings.ascii_space c) && (nat_of_ascii c <? 128)%nat) (seq 0 64) = true) by by vm_compute.
  rewrite forallb_forall in Hall. specialize (Hall (Z.to_nat v)). rewrite in_seq, Z2Nat.id in Hall by lia.
  specialize (Hall ltac:(lia)). apply andb_true_iff in Hall as [H1 H2]. apply negb_true_iff in H1. apply Nat.ltb_lt in H2. by split.
Qed.

(** The value of a record has no spaces, so the validator's trimming keeps it. *)
Lemma value_trimmed `{Digest} keyAuth : GoStrings.TrimSpace (DNS01RecordValue keyAuth) = DNS01RecordValue keyAuth.
Proof.
  unfold DNS01RecordValue, SHA256Base64URL, EncodeToString, GoStrings.TrimSpace. rewrite list_ascii_of_string_of_list_ascii.
  assert (Hp : Forall plain (encode RawURLEncoding (list_ascii_of_string (SHA256Sum keyAuth)))).
  { apply encode_forall; [apply symbol_plain|]. split; [done|]. by apply Nat.ltb_lt. }
  unfold GoStrings.trim_list. rewrite (drop_spaces_plain false _ Hp), drop_spaces_plain, rev_involutive; [done|].
  by apply Forall_rev.
Qed.

Lemma containsTXT_spec records want : containsTXT records want = true <-> want ∈ records.
Proof.
  unfold containsTXT. rewrite existsb_exists, list_elem_of_In. split; [by intros (x & Hx & ->%String.eqb_eq)|].
  intros H. exists want. by rewrite String.eqb_refl.
Qed.

(** ** The wait for propagation *)

Section Wait.
Context {W : Type} (sleep : Z -> M W string unit) (c : PropagationChecker W).

Lemma interval_pos : 0 < interval c.
Proof. unfold interval, second. destruct (Z.leb_spec (Interval c) 0); lia. Qed.

Lemma timeout_pos : 0 < timeout c.
Proof. unfold timeout, second. destruct (Z.leb_spec (Timeout c) 0); lia. Qed.

Hypothesis Hint : timeout c + interval c < 2 ^ 63.

(** As long as the polls left cover the budget left, the loop does not run out. *)
Lemma wait_loop_fuel fuel name value elapsed w :
  0 <= elapsed -> elapsed < timeout c + interval c -> timeout c + 2 * interval c <= elapsed + Z.of_nat fuel * interval c ->
  (wait_loop sleep fuel c name value elapsed w).1 <> Err WaitFuel.
Proof.
  pose proof interval_pos as Hi. revert elapsed w. induction fuel as [|fuel IH]; intros elapsed w H0 H1 H2; cbn [wait_loop]; [nia|].
  destruct (allVisible _ _ _ _); [done|]. destruct (Z.leb_spec (timeout c) elapsed); [done|].
  destruct (sleep _ w) as [[[]|e] w']; [|done]. rewrite GoInt.wrap64_id by lia. apply IH; lia.
Qed.

Lemma wait_loop_ok fuel name value elapsed w w' :
  wait_loop sleep fuel c name value elapsed w = (Ok tt, w') -> allVisible c name value w' = true.
Proof.
  revert elapsed w. induction fuel as [|fuel IH]; intros elapsed w; cbn [wait_loop]; [done|].
  destruct (allVisible _ _ _ w) eqn:E; [by intros [= <-]|]. destruct (timeout c <=? elapsed); [done|].
  destruct (sleep _ w) as [[[]|e] w1]; [|done]. apply IH.
Qed.

(** The wait returns: with the record visible to every resolver, or with an error
    of the budget, the context or the configuration. *)
Lemma Wait_returns name value w :
  (Wait sleep c name value w).1 <> Err WaitFuel /\
  forall w', Wait sleep c name value w = (Ok tt, w') ->
    Resolvers c <> [] /\ Forall (fun r => shows r w' name value) (Resolvers c).
Proof.
  unfold Wait. destruct (bool_decide_reflect (Resolvers c = [])) as [He|Hne]; [done|]. split.
  - pose proof interval_pos as Hi. pose proof timeout_pos as Ht.
    apply wait_loop_fuel; [lia|lia|]. unfold wait_fuel.
    pose proof (Z.div_pos (timeout c) (interval c) ltac:(lia) Hi) as Hd. rewrite Z2Nat.id by lia.
    pose proof (Z.mod_pos_bound (timeout c) (interval c) Hi). pose proof (Z.div_mod (timeout c) (interval c) ltac:(lia)). nia.
  - intros w' Hw. split; [done|]. apply wait_loop_ok in Hw. unfold allVisible in Hw. rewrite forallb_forall in Hw.
    apply Forall_forall. intros r Hr. apply list_elem_of_In in Hr. specialize (Hw r Hr).
    destruct (LookupTXT r name w') as [l|] eqn:El; [|done]. exists l. split; [done|]. by apply containsTXT_spec.
Qed.

Lemma wait_loop_only r `{!Idle sleep r} v fuel name value elapsed w : only r v w (wait_loop sleep fuel c name value elapsed w).2.
Proof.
  revert elapsed w. induction fuel as [|fuel IH]; intros elapsed w; cbn [wait_loop]; [done|].
  destruct (allVisible _ _ _ _); [done|]. destruct (timeout c <=? elapsed); [done|].
  pose proof (only_idle sleep r v (interval c) w) as Hs. destruct (sleep _ w) as [[[]|e] w']; [|exact Hs].
  eapply only_trans; [exact Hs|apply IH].
Qed.

End Wait.

(** ** The schedule of the retries *)

(** A provider that answers from a script, and a clock that records the waits. *)
Definition Script : Type := list (result ProviderErr unit) * list Z.

Definition scripted : M Script ProviderErr unit := fun w =>
  match w.1 with
  | [] => (Ok tt, w)
  | x :: l => (x, (l, w.2))
  end.

Definition record (d : Z) : M Script string unit := fun w => (Ok tt, (w.1, w.2 ++ [d])).

(** The wait after the failure [i]: doubling from the base delay, not below what the
    server asked for, capped. *)
Definition backoff (c : RetryConfig) (i : nat) (e : ProviderErr) : Z :=
  Z.min (rp_maxDelay c) (Z.max (rp_delay c * 2 ^ Z.of_nat i) (default 0 (pe_retryAfter e))).

Lemma rp_delay_pos c : 0 < rp_delay c.
Proof. unfold rp_delay, second. destruct (Z.leb_spec (BaseDelay c) 0); lia. Qed.

Lemma retry_wait_backoff c i e :
  retry_wait (rp_maxDelay c) (rp_delay c * 2 ^ Z.of_nat i) e = backoff c i e.
Proof.
  unfold retry_wait, backoff. pose proof (rp_delay_pos c). assert (0 < 2 ^ Z.of_nat i) by (apply Z.pow_pos_nonneg; lia).
  destruct (pe_retryAfter e) as [a|]; cbn [default from_option id].
  - destruct (Z.ltb_spec (rp_delay c * 2 ^ Z.of_nat i) a);
      match goal with |- context [?x <? ?y] => destruct (Z.ltb_spec x y) end; lia.
  - destruct (Z.ltb_spec (rp_maxDelay c) (rp_delay c * 2 ^ Z.of_nat i)); nia.
Qed.

Lemma double_step c i : rp_delay c * 2 ^ Z.of_nat (S i) < 2 ^ 63 ->
  GoInt.wrap64 (rp_delay c * 2 ^ Z.of_nat i * 2) = rp_delay c * 2 ^ Z.of_nat (S i).
Proof.
  intros H. pose proof (rp_delay_pos c). assert (0 < 2 ^ Z.of_nat i) by (apply Z.pow_pos_nonneg; lia).
  rewrite Nat2Z.inj_succ, Z.pow_succ_r in * by lia. rewrite GoInt.wrap64_id by nia. ring.
Qed.

Lemma shift_backoff c i l : imap (fun k => backoff c (S i + k)) l = imap ((fun k => backoff c (i + k)) ∘ S) l.
Proof. apply imap_ext. intros k x _. cbn. by rewrite Nat.add_succ_r. Qed.

Lemma delay_mono c i j : (i <= j)%nat -> rp_delay c * 2 ^ Z.of_nat i <= rp_delay c * 2 ^ Z.of_nat j.
Proof. intros H. apply Z.mul_le_mono_nonneg_l; [pose proof (rp_delay_pos c); lia|]. apply Z.pow_le_mono_r; lia. Qed.

(** One failure with attempts left. *)
Lemma retry_loop_fails c n i e l log :
  rp_delay c * 2 ^ Z.of_nat (S i) < 2 ^ 63 ->
  retry_loop record (S (S n)) (rp_attempts c) (rp_maxDelay c) (rp_delay c * 2 ^ Z.of_nat i) scripted (Err e :: l, log) =
  retry_loop record (S n) (rp_attempts c) (rp_maxDelay c) (rp_delay c * 2 ^ Z.of_nat (S i)) scripted (l, log ++ [backoff c i e]).
Proof.
  intros H. change (retry_loop record (S (S n)) ?a ?m ?d scripted (Err e :: l, log)) with
    (retry_loop record (S n) a m (GoInt.wrap64 (d * 2)) scripted (l, log ++ [retry_wait m d e])).
  by rewrite retry_wait_backoff, double_step.
Qed.

(** From the failure [i] on, failures that leave attempts, and then a success. *)
Lemma retry_loop_recovers c n i errs rest log :
  (length errs < n)%nat -> rp_delay c * 2 ^ Z.of_nat (i + n) < 2 ^ 63 ->
  retry_loop record n (rp_attempts c) (rp_maxDelay c) (rp_delay c * 2 ^ Z.of_nat i) scripted (map Err errs ++ Ok tt :: rest, log) =
  (Ok tt, (rest, log ++ imap (fun k => backoff c (i + k)) errs)).
Proof.
  revert n i log. induction errs as [|e errs IH]; intros n i log Hlen Hd.
  - destruct n; cbn; by rewrite app_nil_r.
  - cbn [length] in Hlen. destruct n as [|[|n]]; [lia|lia|]. cbn [map app].
    pose proof (delay_mono c (S i) (i + S (S n)) ltac:(lia)). rewrite retry_loop_fails by lia.
    rewrite IH; [|lia|by replace (S i + S n)%nat with (i + S (S n))%nat by lia].
    cbn [imap]. by rewrite shift_backoff, <- app_assoc, Nat.add_0_r.
Qed.

(** From the failure [i] on, as many failures as there are attempts. *)
Lemma retry_loop_exhausted c i errs rest log :
  errs <> [] -> rp_delay c * 2 ^ Z.of_nat (i + length errs) < 2 ^ 63 ->
  retry_loop record (length errs) (rp_attempts c) (rp_maxDelay c) (rp_delay c * 2 ^ Z.of_nat i) scripted (map Err errs ++ rest, log) =
  (Err (GaveUp (rp_attempts c) (List.last errs (mkProviderErr "" None))), (rest, log ++ imap (fun k => backoff c (i + k)) (removelast errs))).
Proof.
  revert i log. induction errs as [|e errs IH]; intros i log Hne Hd; [done|].
  destruct errs as [|e' errs]; [cbn; by rewrite app_nil_r|]. cbn [map app length] in *.
  pose proof (delay_mono c (S i) (i + S (S (length errs))) ltac:(lia)). rewrite retry_loop_fails by lia.
  rewrite IH; [|done|by replace (S i + S (length errs))%nat with (i + S (S (length errs)))%nat by lia].
  change (removelast (e :: e' :: errs)) with (e :: removelast (e' :: errs)). cbn [imap].
  by rewrite shift_backoff, <- app_assoc, Nat.add_0_r.
Qed.

(** After thirty-four doublings of a second the delay is negative: the wait of the
    thirty-fifth failure does not wait. *)
Example retry_backoff_wraps :
  let c := mkRetry 36 0 0 in
  let failed : result ProviderErr unit := Err (mkProviderErr "unavailable" None) in
  let waits := (retry record c scripted (replicate 36 failed, [])).2.2 in
  nth 33 waits 0 = 30 * second /\ nth 34 waits 0 < 0.
Proof. by vm_compute. Qed.

(** ** Theorems *)

Section Solver.
Context {W : Type} (sleep : Z -> M W string unit) (p : DNSProvider W) (r : Resolver W).
Context `{!Idle sleep r} `{!Conforming p r} `{Digest}.

(** The solver drives the provider and makes sure that the resolver sees the record. *)
Definition checked (s : DNS01Solver W) : Prop :=
  s_Provider s = Some p /\
  match s_Propagation s with
  | Some c => r ∈ Resolvers c /\ timeout c + interval c < 2 ^ 63
  | None => s_Resolver s = Some r
  end.

Lemma abandoned_only cl e w0 w v : cl_provider cl = p -> cl_value cl = v -> only r v w0 w ->
  only r v w0 (abandon (A := Cleanup W) cl e w).2.
Proof. intros Hp Hv H0. unfold abandon, run_cleanup. cbn. rewrite Hp, Hv. eapply only_trans; [exact H0|apply cleanup_only]. Qed.

(** Whatever the outcome, only the value of the challenge may have changed; when it
    is a success the record is visible. *)
Lemma Present_spec s domain keyAuth w : checked s ->
  let '(res, w1) := Present sleep s domain keyAuth w in
  only r (DNS01RecordValue keyAuth) w w1 /\
  forall cl, res = Ok cl ->
    cl = mkCleanup p (DNS01RecordName domain) (DNS01RecordValue keyAuth) /\
    shows r w1 (DNS01RecordName domain) (DNS01RecordValue keyAuth).
Proof.
  intros [Hp Hc]. unfold Present. rewrite Hp.
  set (name := DNS01RecordName domain). set (value := DNS01RecordValue keyAuth).
  pose proof (present_only (r := r) name value w) as Hw. destruct (PresentTXT p name value w) as [[[]|e] w1]; [|by split].
  cbn [snd] in Hw. destruct (s_Propagation s) as [c|].
  - destruct Hc as [Hin Hb]. pose proof (Wait_returns sleep c Hb name value w1) as [_ Hok].
    assert (Ho : only r value w1 (Wait sleep c name value w1).2).
    { unfold Wait. case_match; [done|]. by apply wait_loop_only. }
    destruct (Wait sleep c name value w1) as [[[]|e] w2]; cbn [snd] in Ho.
    + destruct (Hok w2 eq_refl) as [_ Hall]. rewrite Forall_forall in Hall.
      split; [by eapply only_trans|]. intros cl [= <-]. split; [done|]. by apply Hall.
    + assert (Hab := abandoned_only (mkCleanup p name value) (Propagation e) w w2 value eq_refl eq_refl (only_trans _ _ _ _ _ Hw Ho)).
      unfold abandon in *. by split.
  - rewrite Hc. assert (Hab : forall e, only r value w (abandon (A := Cleanup W) (mkCleanup p name value) e w1).2) by (intros e; by apply (abandoned_only (mkCleanup p name value) e w w1)).
    destruct (LookupTXT r name w1) as [l|e] eqn:El; [|by split; [exact (Hab (SelfCheck e))|]].
    destruct (containsTXT l value) eqn:Ec; [|by split; [exact (Hab SelfCheckNotVisible)|]].
    split; [done|]. intros cl [= <-]. split; [done|]. exists l. split; [done|]. by apply containsTXT_spec.
Qed.

Lemma validator_shows domain token keyAuth w :
  shows r w (DNS01RecordName domain) (DNS01RecordValue keyAuth) -> DNS01Validator r ChallengeDNS01 domain token keyAuth w = Ok tt.
Proof.
  intros (l & Hl & Hin). unfold DNS01Validator. cbn [negb String.eqb]. rewrite String.eqb_refl. cbn [negb]. rewrite Hl.
  assert (existsb (fun t => String.eqb (GoStrings.TrimSpace t) (SHA256Base64URL keyAuth)) l = true) as ->; [|done].
  apply existsb_exists. exists (DNS01RecordValue keyAuth). rewrite list_elem_of_In in Hin. split; [done|].
  rewrite value_trimmed. apply String.eqb_refl.
Qed.

Lemma validator_needs domain token keyAuth w :
  DNS01Validator r ChallengeDNS01 domain token keyAuth w = Ok tt ->
  exists t, shows r w (DNS01RecordName domain) t /\ GoStrings.TrimSpace t = DNS01RecordValue keyAuth.
Proof.
  unfold DNS01Validator. rewrite String.eqb_refl. cbn [negb]. destruct (LookupTXT _ _ _) as [l|] eqn:El; [|done].
  destruct (existsb _ l) eqn:Ee; [|done]. intros _. apply existsb_exists in Ee as (t & Ht & He).
  apply String.eqb_eq in He. exists t. split; [|done]. exists l. by rewrite list_elem_of_In.
Qed.

(** C21: Publishing proves control, and cleaning up ends it.  Whatever conforming
    provider is driven, retrying or delegating or not: after a successful [Present]
    the DNS-01 validator accepts the challenge; after a successful cleanup it refuses
    it, if the zone had no padded copy of the value; and neither, nor a failing
    [Present] with the cleanup it runs, touches the records of other challenges. *)
Theorem solver_proves_control s domain token keyAuth w :
  checked s ->
  let name := DNS01RecordName domain in
  let value := DNS01RecordValue keyAuth in
  let '(res, w1) := Present sleep s domain keyAuth w in
  only r value w w1 /\
  forall cl, res = Ok cl ->
    DNS01Validator r ChallengeDNS01 domain token keyAuth w1 = Ok tt /\
    let '(res2, w2) := run_cleanup cl w1 in
    only r value w w2 /\
    (res2 = Ok tt -> (forall t, shows r w name t -> GoStrings.TrimSpace t = value -> t = value) ->
     DNS01Validator r ChallengeDNS01 domain token keyAuth w2 <> Ok tt).
Proof.
  intros Hc. cbn zeta. pose proof (Present_spec s domain keyAuth w Hc) as Hp.
  destruct (Present sleep s domain keyAuth w) as [res w1]. destruct Hp as [Ho Hok]. split; [done|].
  intros cl ->. destruct (Hok cl eq_refl) as [-> Hs]. split; [by apply validator_shows|].
  unfold run_cleanup. cbn [cl_provider cl_name cl_value].
  pose proof (cleanup_only (r := r) (DNS01RecordName domain) (DNS01RecordValue keyAuth) w1) as Hcl.
  destruct (CleanupTXT p _ _ w1) as [res2 w2] eqn:E. cbn [snd] in Hcl.
  pose proof (only_trans _ _ _ _ _ Ho Hcl) as Hw. split; [done|]. intros -> Hpad Hv.
  apply validator_needs in Hv as (t & Ht & Htrim). destruct (decide (t = DNS01RecordValue keyAuth)) as [->|Hne].
  - by eapply cleanup_hides.
  - apply Hne, Hpad; [|done]. by apply (Hw _ t Hne).
Qed.

(** The conformance check accepts every provider that meets the contract and does
    not fail. *)
Lemma ConformDNSProvider_passes w :
  (forall n v w, (PresentTXT p n v w).1 = Ok tt) -> (forall n v w, (CleanupTXT p n v w).1 = Ok tt) ->
  (forall t, ~ shows r w (DNS01RecordName "conformance.example") t) ->
  (ConformDNSProvider sleep p r w).1 = Ok tt.
Proof.
  intros Hpr Hcl Hz. set (ka := "conformance-token.account-thumbprint"). set (dom := "conformance.example").
  pose proof (Present_spec (mkSolver (Some p) (Some r) None) dom ka w (conj eq_refl eq_refl)) as Hs.
  assert (Hok : exists cl, (Present sleep (mkSolver (Some p) (Some r) None) dom ka w).1 = Ok cl).
  { unfold Present. cbn [s_Provider s_Propagation s_Resolver].
    pose proof (Hpr (DNS01RecordName dom) (DNS01RecordValue ka) w) as Hok.
    destruct (PresentTXT p _ _ w) as [res w1] eqn:E. cbn in Hok. subst res.
    apply present_shows in E as (l & -> & Hin). apply containsTXT_spec in Hin as ->. by eexists. }
  unfold ConformDNSProvider. fold ka dom. destruct Hok as [cl Hok].
  destruct (Present _ _ dom ka w) as [res w1]. cbn in Hok. subst res. destruct Hs as [Ho Hs].
  destruct (Hs cl eq_refl) as [-> Hsh]. rewrite (validator_shows dom "conformance-token" ka w1 Hsh).
  unfold run_cleanup. cbn [cl_provider cl_name cl_value].
  pose proof (Hcl (DNS01RecordName dom) (DNS01RecordValue ka) w1) as Hc.
  pose proof (cleanup_only (r := r) (DNS01RecordName dom) (DNS01RecordValue ka) w1) as Hco.
  destruct (CleanupTXT p _ _ w1) as [res2 w2] eqn:E. cbn in Hc, Hco. subst res2.
  destruct (DNS01Validator r ChallengeDNS01 dom "conformance-token" ka w2) as [[]|] eqn:Ev; [|done]. exfalso.
  apply validator_needs in Ev as (t & Ht & _). destruct (decide (t = DNS01RecordValue ka)) as [->|Hne].
  - by eapply cleanup_hides.
  - apply (Hz t). apply (Ho _ t Hne). by apply (Hco _ t Hne).
Qed.

End Solver.

(** Retries are bounded and back off.  Against any script of answers a retried
    operation is run until its first success, at most [MaxAttempts] times (five when
    unset); between two runs it waits exactly the exponential delay, raised to what a
    rate limit asked for and capped; and when all attempts fail it returns the last
    error.  The delays are exact as long as the last doubling fits in 64 bits. *)
Theorem retry_schedule c errs rest :
  rp_delay c * 2 ^ rp_attempts c < 2 ^ 63 ->
  (Z.of_nat (length errs) < rp_attempts c ->
   retry record c scripted (map Err errs ++ Ok tt :: rest, []) = (Ok tt, (rest, imap (backoff c) errs))) /\
  (Z.of_nat (length errs) = rp_attempts c ->
   retry record c scripted (map Err errs ++ rest, []) =
   (Err (GaveUp (rp_attempts c) (List.last errs (mkProviderErr "" None))), (rest, imap (backoff c) (removelast errs)))).
Proof.
  intros Hd. assert (Ha : 0 < rp_attempts c) by (unfold rp_attempts; destruct (Z.leb_spec (rp_MaxAttempts c) 0); lia).
  assert (H0 : rp_delay c = rp_delay c * 2 ^ Z.of_nat 0) by (cbn; lia). split; intros Hl; unfold retry; rewrite H0 at 1.
  - rewrite retry_loop_recovers; [done|lia|]. by rewrite Nat.add_0_l, Z2Nat.id by lia.
  - rewrite <- Hl, Nat2Z.id. rewrite Hl at 1 2. rewrite retry_loop_exhausted; [done| |by rewrite Nat.add_0_l, Hl].
    intros ->. cbn in Hl. lia.
Qed.

(** ** Examples *)

Definition no_sleep {W} : Z -> M W string unit := fun _ w => (Ok tt, w).

#[export] Instance no_sleep_idle {W} (r : Resolver W) : Idle no_sleep r.
Proof. done. Qed.

Definition demo_digest : Digest := fun s => s.
Definition demo_retry : RetryConfig := mkRetry 0 0 0.
Definition demo_provider : DNSProvider Zone := RetryingProvider no_sleep demo_retry MemoryDNSProvider.
Definition demo_solver : DNS01Solver Zone := mkSolver (Some demo_provider) None (Some (mkPropagation [MemoryResolver] 0 0)).

Lemma demo_present_ok :
  is_ok (Present (H := demo_digest) no_sleep demo_solver "*.a.example" "token.thumb" ∅).1 = true.
Proof. vm_compute. reflexivity. Qed.

Lemma solver_proves_control_witness :
  exists cl w1, Present (H := demo_digest) no_sleep demo_solver "*.a.example" "token.thumb" ∅ = (Ok cl, w1) /\
    DNS01Validator (H := demo_digest) MemoryResolver ChallengeDNS01 "*.a.example" "token" "token.thumb" w1 = Ok tt.
Proof.
  assert (Hc : checked demo_provider MemoryResolver demo_solver).
  { split; [reflexivity|]. split; [by left|reflexivity]. }
  pose proof (solver_proves_control (H := demo_digest) no_sleep demo_provider MemoryResolver demo_solver "*.a.example" "token" "token.thumb" ∅ Hc) as Hs.
  cbn zeta in Hs. pose proof demo_present_ok as Hok. destruct (Present _ _ _ _ _) as [res w1]. destruct Hs as [_ Hs].
  destruct res as [cl|e]; [|discriminate Hok]. exists cl, w1. split; [reflexivity|]. apply (Hs cl eq_refl).
Defined.

Lemma retry_schedule_witness :
  let e a := mkProviderErr "busy" a in
  retry record demo_retry scripted ([Err (e None); Err (e (Some (10 * second))); Err (e (Some (60 * second)))] ++ [Ok tt], []) =
  (Ok tt, ([], [second; 10 * second; 30 * second])).
Proof.
  cbn zeta. destruct (retry_schedule demo_retry [mkProviderErr "busy" None; mkProviderErr "busy" (Some (10 * second)); mkProviderErr "busy" (Some (60 * second))] []) as [H _].
  - reflexivity.
  - exact (H eq_refl).
Defined.

End Dns01Spec.
