(* ===== verification/AcmeControl.v ===== *)
(** * From a proof of control to a certificate

    What the production validators accept, as a relation between the network and a
    challenge; the runs of the ACME server whose validator they are; and the CAA check
    against the rule of RFC 8659. *)

From S2P Require Import Prelude Json Tenancy Events Base64 AcmeJose AcmeState AcmeParse AcmeServer AcmeSpec AcmeRun AcmeProps AcmeValidation AcmeDemo.
Open Scope string_scope.
Open Scope list_scope.
Open Scope Z_scope.

Module AcmeControl.
Import SE Tenancy Events Base64 AcmeJose AcmeState AcmeParse AcmeServer AcmeSpec AcmeRun AcmeProps AcmeValidation AcmeDemo.

(** ** The validators *)

Section Control.
Context {W : Type} `{Digest}.
Variable get : string -> W -> option (Z * string * bool).
Variable resolver : Resolver W.
Variable prober : string -> W -> result string ProbeResult.

(** The network shows the key authorization where the challenge asks for it. *)
Inductive controls (w : W) (domain token keyAuth : string) : string -> Prop :=
| controls_http body broken :
    get ("http://" +:+ domain +:+ "/.well-known/acme-challenge/" +:+ token) w = Some (200, body, broken) ->
    (broken = true -> bodyLimit <= String.length body)%nat ->
    GoStrings.TrimSpace (String.substring 0 bodyLimit body) = keyAuth ->
    controls w domain token keyAuth ChallengeHTTP01
| controls_dns records t :
    LookupTXT resolver ("_acme-challenge." +:+ GoStrings.TrimPrefix domain "*.") w = Ok records ->
    t ∈ records -> GoStrings.TrimSpace t = SHA256Base64URL keyAuth ->
    controls w domain token keyAuth ChallengeDNS01
| controls_alpn :
    prober (GoStrings.JoinHostPort domain "443") w = Ok (mkProbe ACMETLSALPNProto (SHA256Sum keyAuth)) ->
    controls w domain token keyAuth ChallengeTLSALPN01.

Lemma substring_length n s : String.length (String.substring 0 n s) = Nat.min n (String.length s).
Proof. revert s. induction n as [|n IH]; intros [|c s]; cbn; try done. by rewrite IH. Qed.

Lemma http_decides domain token keyAuth w :
  HTTP01Validator get ChallengeHTTP01 domain token keyAuth w = Ok tt <-> controls w domain token keyAuth ChallengeHTTP01.
Proof.
  unfold HTTP01Validator. rewrite String.eqb_refl. cbn [negb]. split.
  - intros Hv. destruct (get _ w) as [[[code body] broken]|] eqn:Eg; [|done].
    destruct (Z.eqb_spec code 200) as [->|]; [|done]. cbn [negb] in Hv.
    destruct (broken && _) eqn:Eb; [done|]. destruct (String.eqb_spec (GoStrings.TrimSpace (substring 0 bodyLimit body)) keyAuth) as [He|]; [|done].
    eapply controls_http; [exact Eg| |exact He]. intros ->. cbn [andb] in Eb. apply Nat.ltb_ge in Eb. rewrite substring_length in Eb. lia.
  - intros Hc. inversion Hc as [body broken Hg Hb Ht | |]; subst. rewrite Hg. cbn [Z.eqb Pos.eqb negb].
    assert (broken && (String.length (substring 0 bodyLimit body) <? bodyLimit)%nat = false) as ->.
    { destruct broken; [|done]. cbn [andb]. apply Nat.ltb_ge. rewrite substring_length. specialize (Hb eq_refl). lia. }
    by rewrite String.eqb_refl.
Qed.

Lemma dns_decides domain token keyAuth w :
  DNS01Validator resolver ChallengeDNS01 domain token keyAuth w = Ok tt <-> controls w domain token keyAuth ChallengeDNS01.
Proof.
  unfold DNS01Validator. rewrite String.eqb_refl. cbn [negb]. fold (DNS01RecordName domain). split.
  - intros Hv. destruct (LookupTXT _ _ _) as [l|] eqn:El; [|done]. destruct (existsb _ l) eqn:Ee; [|done].
    apply existsb_exists in Ee as (t & Ht%list_elem_of_In & He%String.eqb_eq). by eapply controls_dns.
  - intros Hc. inversion Hc as [|l t Hl Hin Ht|]; subst. fold (DNS01RecordName domain) in Hl. rewrite Hl.
    assert (existsb (fun t => String.eqb (GoStrings.TrimSpace t) (SHA256Base64URL keyAuth)) l = true) as ->; [|done].
    apply existsb_exists. exists t. rewrite Ht, String.eqb_refl. by rewrite <- list_elem_of_In.
Qed.

Lemma alpn_decides domain token keyAuth w :
  TLSALPN01Validator prober ChallengeTLSALPN01 domain token keyAuth w = Ok tt <-> controls w domain token keyAuth ChallengeTLSALPN01.
Proof.
  unfold TLSALPN01Validator. rewrite String.eqb_refl. cbn [negb]. split.
  - intros Hv. destruct (prober _ w) as [[np id]|] eqn:Ep; [|done]. cbn in Hv.
    destruct (String.eqb_spec np ACMETLSALPNProto) as [->|]; [|done]. cbn [negb] in Hv.
    destruct (String.eqb_spec id (SHA256Sum keyAuth)) as [->|]; [|done]. by constructor.
  - intros Hc. inversion Hc as [| |Hp]. rewrite Hp. cbn [NegotiatedProtocol ACMEIdentifier]. rewrite !String.eqb_refl. done.
Qed.

(** The dispatch adds nothing: an unknown type is refused. *)
Lemma Validate_decides typ domain token keyAuth w :
  Validators_Validate (DefaultValidators get resolver prober) typ domain token keyAuth w = Ok tt <->
  controls w domain token keyAuth typ.
Proof.
  unfold Validators_Validate. cbn [DefaultValidators HTTP01 DNS01 TLSALPN01].
  destruct (String.eqb_spec typ ChallengeHTTP01) as [->|Hh]; [apply http_decides|].
  destruct (String.eqb_spec typ ChallengeDNS01) as [->|Hd]; [apply dns_decides|].
  destruct (String.eqb_spec typ ChallengeTLSALPN01) as [->|Ha]; [apply alpn_decides|].
  split; [done|]. intros Hc. by destruct Hc.
Qed.

(** ** Runs with the production validators *)

Context {J : JoseCrypto} `{!JoseLaws J} {T : TimeText} `{!TimeTextLaws T} {C : CertInfo}.
Context {ES : EventStream} `{!EventStreamLaws ES} {R : Router}.
Variable cfg : Config.
Variable tenant : string.

(** During a call the validator looks at the network in some state. *)
Definition production (env : Env) : Prop :=
  exists w, forall typ domain token keyAuth,
    e_Validate env typ domain token keyAuth = is_ok (Validators_Validate (DefaultValidators get resolver prober) typ domain token keyAuth w).

(** A recorded validation saw the token joined to the thumbprint of a key of which [K]
    holds. *)
Definition evidenced (K : ACMEKey -> Prop) (e : Effect) : Prop :=
  match e with
  | Validated _ typ domain token keyAuth =>
      (exists w, controls w domain token keyAuth typ) /\ exists key, K key /\ keyAuth = token +:+ "." +:+ Thumbprint key
  | _ => True
  end.

(** The key of an account that a server holds. *)
Definition account_key (s : Server) (key : ACMEKey) : Prop :=
  exists url a, accounts (view s) !! url = Some a /\ a_key a = key.

Definition effects_of (out : Out) : list Effect := out.2.

Lemma evidenced_nil K nonce rep s st : Forall (evidenced K) (effects_of (finish nonce rep s st)).
Proof. constructor. Qed.

Ltac harmless := repeat case_match; try apply evidenced_nil; try (by repeat constructor).

Lemma keyChange_evidenced K env rq m acct nonce s st : Forall (evidenced K) (effects_of (keyChange cfg env rq m acct nonce s st)).
Proof.
  assert (Hr : forall k j a, Forall (evidenced K) (effects_of (rotate cfg env k j a nonce s st))) by (intros; unfold rotate; harmless).
  unfold keyChange. repeat case_match; first [apply evidenced_nil|apply Hr].
Qed.

Lemma newAccount_evidenced K env rq m nonce s st : Forall (evidenced K) (effects_of (newAccount cfg env rq m nonce s st)).
Proof. unfold newAccount, updateAccount, createAccount. harmless. Qed.

Lemma newOrder_evidenced K env rq m acct nonce s st : Forall (evidenced K) (effects_of (newOrder cfg env rq m acct nonce s st)).
Proof. unfold newOrder, createOrder. harmless. Qed.

(** The section that validates uses the key that the account has there. *)
Lemma accept_validate_evidenced env rq acct nonce ch domain s st :
  production env -> Forall (evidenced (account_key s)) (effects_of (accept_validate cfg env rq acct nonce ch domain s st)).
Proof.
  intros [w Hw]. unfold accept_validate. destruct (challengeAllowed _ _ _ _); [|apply evidenced_nil].
  destruct (_ ≫= _) as [ac|] eqn:Eac; [|apply evidenced_nil].
  set (keyAuth := c_token ch +:+ "." +:+ Thumbprint (a_key ac)).
  assert (Hv : e_Validate env (c_typ ch) domain (c_token ch) keyAuth = true ->
    evidenced (account_key s) (Validated (c_id ch) (c_typ ch) domain (c_token ch) keyAuth)).
  { intros He. rewrite Hw in He. split.
    - exists w. apply Validate_decides. by destruct (Validators_Validate _ _ _ _ _ _) as [[]|].
    - exists (a_key ac). split; [|done]. apply bind_Some in Eac as (url & _ & Ha). by exists url, ac. }
  destruct (e_Validate env _ _ _ _); cbn [negb]; repeat case_match; repeat constructor; by apply Hv.
Qed.

Lemma advance_evidenced env f s st : production env -> Forall (evidenced (account_key s)) (effects_of (advance cfg env f s st)).
Proof.
  intros Hw. destruct f as [rq m acct key|rq m acct nonce|rq acct nonce ch d|rq nonce p|rq acct nonce oid cert|nonce fp ic req a]; cbn [advance].
  - unfold jws_mint. harmless.
  - unfold handle. destruct (r_endpoint rq).
    + apply newAccount_evidenced.
    + apply newOrder_evidenced.
    + unfold getAuthz. harmless.
    + unfold accept_open. harmless.
    + unfold getOrder. harmless.
    + unfold finalize_open. harmless.
    + unfold getCert. harmless.
    + apply keyChange_evidenced.
    + unfold revoke_open. harmless.
  - by apply accept_validate_evidenced.
  - unfold accept_commit. harmless.
  - unfold finalize_commit. harmless.
  - unfold revoke_commit. harmless.
Qed.

(** The key of an account at some state of the run. *)
Definition held_in (y y' : sys) (key : ACMEKey) : Prop :=
  exists yv, rtc (step cfg tenant production) y yv /\ rtc (step cfg tenant production) yv y' /\ account_key (srv yv) key.

Lemma evidenced_mono (K L : ACMEKey -> Prop) l : (forall key, K key -> L key) -> Forall (evidenced K) l -> Forall (evidenced L) l.
Proof.
  intros HKL Hl. eapply Forall_impl; [exact Hl|]. intros e. destruct e; cbn; try done. intros (Hw & key & Hk & ->). eauto.
Qed.

Lemma after_evidenced K y fs out :
  Forall (evidenced K) (hist y) -> Forall (evidenced K) (effects_of out) -> Forall (evidenced K) (hist (after y fs out)).
Proof. destruct out as [[[o s'] st'] eff]. intros Hh He. cbn in *. by apply Forall_app. Qed.

Lemma step_evidenced y y1 y2 : rtc (step cfg tenant production) y y1 -> step cfg tenant production y1 y2 ->
  Forall (evidenced (held_in y y1)) (hist y1) -> Forall (evidenced (held_in y y2)) (hist y2).
Proof.
  intros Hr Hst Hi.
  assert (Hup : Forall (evidenced (held_in y y2)) (hist y1)).
  { eapply evidenced_mono; [|exact Hi]. intros key (yv & H1 & H2 & H3). exists yv. split_and!; [done|by eapply rtc_r|done]. }
  assert (Hhere : forall l, Forall (evidenced (account_key (srv y1))) l -> Forall (evidenced (held_in y y2)) l).
  { intros l. apply evidenced_mono. intros key Hk. exists y1. split_and!; [done|by apply rtc_once|done]. }
  destruct Hst as [env rq Hwd Hmu|env rq Hwd Hmu|env f fs Hwd Hmu Hp Hfr Hb|env c res s' st' Hwd Hmu Hfr Hc He|now nuid actor e ev st' Hfor Happ Hfr|v Hv]; try done.
  - apply after_evidenced; [done|]. unfold newNonce. harmless.
  - apply after_evidenced; [done|]. unfold jws_open. harmless.
  - apply after_evidenced; [done|]. apply Hhere. by apply advance_evidenced.
Qed.

Lemma run_evidenced y y' : initial tenant y -> rtc (step cfg tenant production) y y' -> Forall (evidenced (held_in y y')) (hist y').
Proof.
  intros (_ & _ & Hh & _). revert y'. apply (rtc_ind_r (fun y' => Forall (evidenced (held_in y y')) (hist y'))).
  - rewrite Hh. constructor.
  - intros y1 y2 Hr Hst IH. by eapply step_evidenced.
Qed.

(** C17: A certificate needs proof of control.  On a mount in public-trust mode whose
    validator is the production one, across interleavings, crashes and restarts: for every
    name of every request made to the CA, the network had shown, at a validation earlier
    in the run, the token of a challenge for that name joined to the thumbprint of the
    key of an account, which the server held with that key at a state of the run, where
    the type of the challenge asks for it. *)
Theorem issuance_requires_control (y y' : sys) h1 oid req acct h2 :
  stateLog cfg = Some tenant -> tenant <> "" -> mode cfg = ACMEAuthModePublicTrust ->
  initial tenant y -> rtc (step cfg tenant production) y y' -> hist y' = h1 ++ Issuing oid req acct :: h2 ->
  Forall (fun d => exists ch typ token w yv url a,
    let keyAuth := token +:+ "." +:+ Thumbprint (a_key a) in
    Validated ch typ d token keyAuth ∈ h1 /\ controls w d token keyAuth typ /\
    rtc (step cfg tenant production) y yv /\ rtc (step cfg tenant production) yv y' /\
    accounts (view (srv yv)) !! url = Some a) (ir_DNSNames req).
Proof.
  intros Hl Ht Hm Hi Hr Hh. destruct (run_sound cfg tenant Hl Ht (or_introl Hm) production y y' Hi Hr) as (r & _ & _ & Hok).
  assert (Hv : Forall (validated h1) (ir_DNSNames req)) by (eapply Hok; [by rewrite Hm|exact Hh]).
  pose proof (run_evidenced y y' Hi Hr) as He. rewrite Hh in He. apply Forall_app in He as [He _]. rewrite Forall_forall in He.
  eapply Forall_impl; [exact Hv|]. intros d (ch & typ & token & keyAuth & Hin).
  destruct (He _ Hin) as ([w Hw] & key & (yv & H1 & H2 & url & a & Ha & <-) & ->). by exists ch, typ, token, w, yv, url, a.
Qed.

End Control.

(** ** CAA *)

Section CAASpec.
Context {W : Type}.
Variable unicode_lower : string -> string.
Variable unicode_fold : string -> string -> bool.
Abbreviation has_tag := (AcmeValidation.tagged unicode_lower).
Abbreviation names_issuer := (@AcmeValidation.authorizes W unicode_fold).

(** The records that govern the names from a list of labels on: those of the first
    name, towards the apex, that has any. *)
Inductive governs (lookup : string -> W -> result string (list CAARecord)) (w : W) : list (list ascii) -> option (list CAARecord) -> Prop :=
| governs_none : governs lookup w [] None
| governs_here l labels records :
    lookup (string_of_list_ascii (join_on "." (l :: labels))) w = Ok records -> records <> [] ->
    governs lookup w (l :: labels) (Some records)
| governs_parent l labels g :
    lookup (string_of_list_ascii (join_on "." (l :: labels))) w = Ok [] -> governs lookup w labels g ->
    governs lookup w (l :: labels) g.

(** The properties that bear on a request: [issuewild] for a wildcard when there is
    one, [issue] otherwise. *)
Definition bears (records : list CAARecord) (wildcard : bool) (r : CAARecord) : Prop :=
  r ∈ records /\
  if decide (wildcard = true /\ Exists (fun r => has_tag "issuewild" r = true) records)
  then has_tag "issuewild" r = true else has_tag "issue" r = true.

(** RFC 8659: no unknown critical property, and when there is a property that bears
    on the request one of them names the issuer. *)
Definition known_tag (r : CAARecord) : Prop := has_tag "issue" r = true \/ has_tag "issuewild" r = true \/ has_tag "iodef" r = true.
Definition critical (r : CAARecord) : Prop := Z.testbit (caa_Flag r) 7 = true.

Definition rfc_permits (c : CAAChecker W) (records : list CAARecord) (wildcard : bool) : Prop :=
  (forall r, r ∈ records -> critical r -> known_tag r) /\
  ((exists r, bears records wildcard r) -> exists r, bears records wildcard r /\ names_issuer c (caa_Value r) = true).

Lemma elem_tagged t records r : r ∈ List.filter (has_tag t) records <-> r ∈ records /\ has_tag t r = true.
Proof. rewrite !list_elem_of_In. apply filter_In. Qed.

Lemma evaluate_spec c name records wildcard :
  evaluate unicode_lower unicode_fold c name records wildcard = Ok tt <->
  exists r, bears records wildcard r /\ names_issuer c (caa_Value r) = true.
Proof.
  unfold evaluate, bears. set (wild := List.filter (has_tag "issuewild") records).
  assert (Hx : Exists (fun r => has_tag "issuewild" r = true) records <-> wild <> []).
  { rewrite Exists_exists. unfold wild. split.
    - intros (x & Hx & Ht) Hn. assert (Hin : x ∈ List.filter (has_tag "issuewild") records) by (by apply elem_tagged).
      rewrite Hn in Hin. by apply elem_of_nil in Hin.
    - intros Hne. destruct (List.filter (has_tag "issuewild") records) as [|x l] eqn:E; [done|]. exists x. apply elem_tagged. rewrite E. by left. }
  set (relevant := if _ && negb _ then wild else _).
  assert (Hrel : forall r, r ∈ relevant <-> r ∈ records /\
    if decide (wildcard = true /\ Exists (fun r => has_tag "issuewild" r = true) records) then has_tag "issuewild" r = true else has_tag "issue" r = true).
  { intros r. unfold relevant. destruct (decide _) as [[Hw He]|Hn].
    - rewrite Hw, bool_decide_false by (by apply Hx). cbn [andb negb]. apply elem_tagged.
    - destruct (wildcard && _) eqn:Eb; [|apply elem_tagged]. exfalso. apply Hn.
      apply andb_true_iff in Eb as [-> Eb]. split; [done|]. apply Hx. apply negb_true_iff, bool_decide_eq_false in Eb. done. }
  destruct (bool_decide_reflect (relevant = [])) as [Hn|Hn].
  - split; [done|]. intros (r & Hr & _). apply Hrel in Hr. rewrite Hn in Hr. by apply elem_of_nil in Hr.
  - destruct (existsb _ relevant) eqn:Ee.
    + split; [|done]. intros _. apply existsb_exists in Ee as (r & Hr%list_elem_of_In & Ha). exists r. split; [by apply Hrel|done].
    + split; [done|]. intros (r & Hr & Ha). apply Hrel in Hr. exfalso. apply not_true_iff_false in Ee. apply Ee.
      apply existsb_exists. exists r. by rewrite <- list_elem_of_In.
Qed.

Lemma caa_walk_spec c lookup labels wildcard w :
  caa_walk unicode_lower unicode_fold c lookup labels wildcard w = Ok tt <->
  exists g, governs lookup w labels g /\
    match g with None => True | Some records => exists r, bears records wildcard r /\ names_issuer c (caa_Value r) = true end.
Proof.
  induction labels as [|l labels IH]; cbn [caa_walk].
  - split; [|done]. intros _. exists None. by split; [constructor|].
  - destruct (lookup _ w) as [[|r records]|e] eqn:El.
    + rewrite IH. split; intros (g & Hg & Hx).
      * exists g. split; [by apply governs_parent|done].
      * inversion Hg as [|? ? ? Hl Hne|? ? ? Hl Hg']; subst; [congruence|]. by exists g.
    + rewrite evaluate_spec. split.
      * intros Hx. exists (Some (r :: records)). split; [by apply governs_here|done].
      * intros (g & Hg & Hx). inversion Hg as [|? ? ? Hl Hne|? ? ? Hl Hg']; subst; [|congruence]. rewrite El in Hl. injection Hl as <-. exact Hx.
    + split; [done|]. intros (g & Hg & _). inversion Hg; congruence.
Qed.

(** The CAA check and RFC 8659.  The check passes exactly when no name from the
    domain to the apex has CAA records, or a property that bears on the request at
    the first name that has some names the issuer; a failing lookup on the way
    refuses.  Where it passes, the RFC permits the issuance provided no unknown
    property is critical, and where the RFC permits it the check passes provided some
    property bears on the request. *)
Theorem CAA_check_decides c domain wildcard w :
  (Check_ unicode_lower unicode_fold c domain wildcard w = Ok tt <->
   exists lookup g, CAAResolver c = Some lookup /\ governs lookup w (caa_labels domain) g /\
     match g with None => True | Some records => exists r, bears records wildcard r /\ names_issuer c (caa_Value r) = true end) /\
  (forall name records, evaluate unicode_lower unicode_fold c name records wildcard = Ok tt ->
   (forall r, r ∈ records -> critical r -> known_tag r) -> rfc_permits c records wildcard) /\
  (forall name records, rfc_permits c records wildcard -> (exists r, bears records wildcard r) ->
   evaluate unicode_lower unicode_fold c name records wildcard = Ok tt).
Proof.
  split_and!.
  - unfold Check_. destruct (CAAResolver c) as [lookup|].
    + rewrite caa_walk_spec. split; [intros (g & Hg); by exists lookup, g|]. intros (? & g & [= <-] & Hg). by exists g.
    + split; [done|]. by intros (? & ? & ? & _).
  - intros name records He Hc. split; [done|]. intros _. by apply (evaluate_spec c name).
  - intros name records [_ Hp] Hb. apply evaluate_spec. by apply Hp.
Qed.

(** The two provisos are needed: an unknown critical property does not refuse, and a
    set with [iodef] only is taken to authorize nobody. *)
Lemma CAA_critical_ignored c value : names_issuer c value = true ->
  let records := [mkCAA 128 "future" ""; mkCAA 0 "issue" value] in
  evaluate unicode_lower unicode_fold c "a.example" records false = Ok tt /\ ~ rfc_permits c records false.
Proof.
  intros Ha. cbn zeta. split.
  - apply evaluate_spec. exists (mkCAA 0 "issue" value). split; [|done]. split; [by right; left|]. by case_decide as Hd; [destruct Hd|].
  - intros [Hc _]. destruct (Hc (mkCAA 128 "future" "") ltac:(by left) ltac:(done)) as [H|[H|H]]; done.
Qed.

Lemma CAA_iodef_refused c :
  let records := [mkCAA 0 "iodef" "mailto:security@a.example"] in
  evaluate unicode_lower unicode_fold c "a.example" records false <> Ok tt /\ rfc_permits c records false.
Proof.
  cbn zeta. assert (Hb : ~ exists r, bears [mkCAA 0 "iodef" "mailto:security@a.example"] false r).
  { intros (r & Hr & Ht). apply list_elem_of_singleton in Hr as ->. by case_decide as Hd; [destruct Hd|]. }
  split.
  - intros (r & Hr & _)%evaluate_spec. apply Hb. by exists r.
  - split; [|by intros]. intros r Hr%list_elem_of_singleton. by subst r.
Qed.

End CAASpec.

(** ** Examples *)

Import AcmeDemo.
#[local] Existing Instances PooledRouter demo_jose demo_jose_laws demo_time demo_time_laws demo_certinfo.

(** A network that serves the key authorization of the run of [AcmeDemo]. *)
Definition demo_get (url : string) (_ : unit) : option (Z * string * bool) :=
  if String.eqb url "http://a.example/.well-known/acme-challenge/token-4" then Some (200, demo_keyAuth +:+ " ", false) else None.

#[local] Instance demo_sha : Digest := fun s => "#" +:+ s.

Definition demo_validator : Validator unit :=
  Validators_Validate (DefaultValidators demo_get (mkResolver (fun _ _ => Err "none")) (fun _ _ => Err "none")).

Definition with_validator (env : Env) : Env :=
  mkEnv (e_now env) (e_nuid env) (e_nonce env) (e_token env) (e_limiter env) (e_AllowedMethods env) (e_Present env)
    (fun typ domain token keyAuth => is_ok (demo_validator typ domain token keyAuth tt)) (e_Issue env) (e_hook env).

Definition demo_acts : list action :=
  map (fun a => match a with
                | DoNonce env rq => DoNonce (with_validator env) rq
                | DoOpen env rq => DoOpen (with_validator env) rq
                | DoAdvance env => DoAdvance (with_validator env)
                end) to_valid.

Lemma demo_control_hist :
  hist <$> drive demo_cfg demo_acts demo_start = Some (demo_before ++ [Issuing "2" demo_issue (Some demo_url)]).
Proof. vm_compute. reflexivity. Qed.

Abbreviation demo_world := (production demo_get (mkResolver (fun _ _ => Err "none")) (fun _ _ => Err "none")).
Abbreviation demo_controls := (controls demo_get (mkResolver (fun _ _ => Err "none")) (fun _ _ => Err "none")).

Lemma demo_production : Forall (fun a => demo_world (env_of a)) demo_acts.
Proof. repeat constructor; by exists tt. Qed.

Lemma demo_control_run : exists y,
  rtc (step demo_cfg "tenant-a" demo_world) demo_start y /\ hist y = demo_before ++ [Issuing "2" demo_issue (Some demo_url)].
Proof.
  pose proof demo_control_hist as H. destruct (drive demo_cfg demo_acts demo_start) as [y|] eqn:Hy; [|discriminate H].
  exists y. split; [exact (drive_rtc demo_cfg "tenant-a" demo_world demo_acts demo_start y demo_production Hy)|by injection H].
Qed.

Lemma issuance_requires_control_witness :
  exists y, rtc (step demo_cfg "tenant-a" demo_world) demo_start y /\
  Forall (fun d => exists ch typ token w yv url a, let keyAuth := token +:+ "." +:+ Thumbprint (a_key a) in
    Validated ch typ d token keyAuth ∈ demo_before /\ demo_controls w d token keyAuth typ /\
    rtc (step demo_cfg "tenant-a" demo_world) demo_start yv /\ rtc (step demo_cfg "tenant-a" demo_world) yv y /\
    accounts (view (srv yv)) !! url = Some a) ["a.example"].
Proof.
  destruct demo_control_run as (y & Hr & Hh). exists y. split; [exact Hr|].
  exact (issuance_requires_control demo_get (mkResolver (fun _ _ => Err "none")) (fun _ _ => Err "none") demo_cfg "tenant-a"
    demo_start y demo_before "2" demo_issue (Some demo_url) [] eq_refl ltac:(discriminate) demo_mode demo_initial Hr Hh).
Defined.

End AcmeControl.
