(* ===== verification/SealVault.v ===== *)
(** * Sealed containers and the credential vault

    [src/internal/crypto/seal/seal.go], [src/internal/crypto/secret/buffer.go], the
    AES-GCM helpers of [src/internal/crypto/envelope.go] and
    [src/internal/secrets/vault.go]: envelope encryption under a wrapped key, the
    container format and its reader, and the vault that binds a sealed credential to
    its row.  AES-GCM is the class [AEAD]: sealing is a function of key, nonce,
    plaintext and associated data, and opening recomputes it.  Nonces and data keys
    that the code draws are arguments. *)

From S2P Require Import Prelude.
Open Scope string_scope.
Open Scope list_scope.
Open Scope Z_scope.

Module SealVault.

Definition bytes : Type := list Z.

(** ** AES-GCM *)

Class AEAD := {
  gcm_seal : bytes -> bytes -> bytes -> bytes -> bytes;
  gcm_open : bytes -> bytes -> bytes -> bytes -> option bytes
}.

(** What was sealed opens, and what opens is the seal of what it opens to. *)
Class AEADLaws (A : AEAD) : Prop := {
  gcm_open_seal k n pt aad : gcm_open k n (gcm_seal k n pt aad) aad = Some pt;
  gcm_open_inv k n ct aad pt : gcm_open k n ct aad = Some pt -> ct = gcm_seal k n pt aad
}.

Definition is_byte (z : Z) : Prop := 0 <= z < 256.

(** Bytes are sealed to bytes. *)
Class AEADBytes (A : AEAD) : Prop :=
  gcm_seal_bytes k n pt aad : Forall is_byte k -> Forall is_byte n -> Forall is_byte pt -> Forall is_byte aad ->
    Forall is_byte (gcm_seal k n pt aad).

(** ** buffer.go: a locked buffer is its bytes, none when destroyed *)

Record Buffer := mkBuffer { buf : bytes; freed : bool }.

Definition NewFrom (src : bytes) : option Buffer := match src with [] => None | _ => Some (mkBuffer src false) end.
Definition Wipe (b : bytes) : bytes := map (fun _ => 0) b.
Definition Bytes (b : Buffer) : option bytes := if freed b then None else Some (buf b).
Definition Destroy (b : Buffer) : Buffer := if freed b then b else mkBuffer (Wipe (buf b)) true.

(** ** envelope.go: a nonce and what it sealed *)

Inductive CryptoErr := KeyTooShort | CiphertextTooShort | OpenFailed.

Definition nonceSize : nat := 12.
Definition len (b : bytes) : Z := Z.of_nat (length b).

Section WithAEAD.
Context `{AEAD}.

(** AES takes keys of 16, 24 and 32 bytes. *)
Definition aes_key (key : bytes) : bool := (len key =? 16) || (len key =? 24) || (len key =? 32).

Definition AESGCMSeal (key plaintext aad nonce : bytes) : result CryptoErr bytes :=
  if negb (len key =? 32) then Err KeyTooShort else Ok (nonce ++ gcm_seal key nonce plaintext aad).

Definition AESGCMOpen (key dat aad : bytes) : result CryptoErr bytes :=
  if negb (aes_key key) then Err KeyTooShort else
  if (length dat <? nonceSize)%nat then Err CiphertextTooShort else
  match gcm_open key (take nonceSize dat) (drop nonceSize dat) aad with
  | Some pt => Ok pt
  | None => Err OpenFailed
  end.

(** ** seal.go *)

Definition dekSize : nat := 32.
Definition kekSize : nat := 32.
Definition version1 : Z := 1.
(** [CSL1] *)
Definition magic : bytes := [67; 83; 76; 49].

Inductive SealErr := ErrKeySize | ErrFormat | ErrDecrypt | ErrWrap.

(** A wrapper may draw a nonce to wrap with. *)
Record KeyWrapper := mkWrapper {
  WrapDEK : bytes -> bytes -> option bytes;
  UnwrapDEK : bytes -> option bytes
}.

Definition NewLocalKEK (kek : bytes) : result SealErr Buffer :=
  if negb (length kek =? kekSize)%nat then Err ErrKeySize else Ok (mkBuffer kek false).

(** The wrapper of a key in locked memory; a destroyed key has no bytes and no
    cipher. *)
Definition LocalKEK (k : Buffer) : KeyWrapper :=
  mkWrapper
    (fun nonce dek => match Bytes k with
                      | Some key => if aes_key key then Some (nonce ++ gcm_seal key nonce dek []) else None
                      | None => None
                      end)
    (fun wrapped => match Bytes k with
                    | Some key =>
                        if negb (aes_key key) then None else
                        if (length wrapped <? nonceSize)%nat then None else
                        gcm_open key (take nonceSize wrapped) (drop nonceSize wrapped) []
                    | None => None
                    end).

(** Two bytes, big endian, of the low sixteen bits. *)
Definition AppendUint16 (v : Z) : bytes := [Z.shiftr v 8 mod 256; v mod 256].
Definition Uint16 (b : bytes) : Z := nth 0 b 0 * 256 + nth 1 b 0.

Definition container (wrapped nonce ct : bytes) : bytes :=
  magic ++ [version1] ++ AppendUint16 (len wrapped) ++ wrapped ++ nonce ++ ct.

(** With the data key and the two nonces drawn. *)
Definition seal_Seal (w : KeyWrapper) (dek nonce wrapNonce plaintext aad : bytes) : result SealErr bytes :=
  let ct := gcm_seal dek nonce plaintext aad in
  match WrapDEK w wrapNonce dek with
  | None => Err ErrWrap
  | Some wrapped => Ok (container wrapped nonce ct)
  end.

Definition openV1 (w : KeyWrapper) (body aad : bytes) : result SealErr bytes :=
  if (length body <? 2)%nat then Err ErrFormat else
  let wlen := Z.to_nat (Uint16 body) in
  if (length body <? 2 + wlen + nonceSize)%nat then Err ErrFormat else
  let wrapped := take wlen (drop 2 body) in
  let nonce := take nonceSize (drop (2 + wlen) body) in
  let ct := drop (2 + wlen + nonceSize) body in
  match UnwrapDEK w wrapped with
  | None => Err ErrDecrypt
  | Some dek =>
      if negb (aes_key dek) then Err ErrDecrypt else
      match gcm_open dek nonce ct aad with
      | None => Err ErrDecrypt
      | Some pt => Ok pt
      end
  end.

Definition seal_Open (w : KeyWrapper) (sealed aad : bytes) : result SealErr bytes :=
  if (length sealed <? length magic + 1)%nat then Err ErrFormat else
  if negb (bool_decide (take (length magic) sealed = magic)) then Err ErrFormat else
  let ver := nth (length magic) sealed 0 in
  let body := drop (length magic + 1) sealed in
  if ver =? version1 then openV1 w body aad else Err ErrFormat.

(** ** vault.go *)

Definition text (s : string) : bytes := (fun c => Z.of_N (N_of_ascii c)) <$> list_ascii_of_string s.

(** The string of some bytes. *)
Definition of_bytes (b : bytes) : string := string_of_list_ascii ((fun z => ascii_of_N (Z.to_N z)) <$> b).

(** A row is a tenant, a scope, a reference and a name. *)
Record Row := mkRow { r_tenant : string; r_scope : string; r_ref : string; r_name : string }.
#[export] Instance Row_eq_dec : EqDecision Row.
Proof. solve_decision. Defined.
#[export] Instance Row_countable : Countable Row.
Proof.
  apply (inj_countable' (fun r => (r_tenant r, r_scope r, r_ref r, r_name r)) (fun '(t, s, r, n) => mkRow t s r n)). by intros [].
Defined.

Definition aad (r : Row) : bytes := text (r_tenant r +:+ "/" +:+ r_scope r +:+ "/" +:+ r_ref r +:+ "/" +:+ r_name r).

Abbreviation Credentials := (gmap Row bytes).

Inductive VaultErr := VaultSeal (e : SealErr) | VaultNotFound.

Definition Vault_Put (w : KeyWrapper) (dek nonce wrapNonce : bytes) (r : Row) (plaintext : bytes) (s : Credentials) : result VaultErr unit * Credentials :=
  match seal_Seal w dek nonce wrapNonce plaintext (aad r) with
  | Err e => (Err (VaultSeal e), s)
  | Ok sealed => (Ok tt, <[r := sealed]> s)
  end.

Definition Vault_Get (w : KeyWrapper) (r : Row) (s : Credentials) : result VaultErr bytes :=
  match s !! r with
  | None => Err VaultNotFound
  | Some sealed => match seal_Open w sealed (aad r) with Ok pt => Ok pt | Err e => Err (VaultSeal e) end
  end.

End WithAEAD.

(** ** Theorems *)

Section Theorems.
Context `{A : AEAD} `{!AEADLaws A}.

Lemma Uint16_Append v rest : 0 <= v < 65536 -> Uint16 (AppendUint16 v ++ rest) = v.
Proof.
  intros Hv. unfold Uint16, AppendUint16. cbn [app nth]. rewrite Z.shiftr_div_pow2 by lia. change (2 ^ 8) with 256.
  pose proof (Z.div_mod v 256 ltac:(lia)). pose proof (Z.mod_pos_bound v 256 ltac:(lia)).
  rewrite (Z.mod_small (v / 256)) by nia. lia.
Qed.

Lemma Append_Uint16 a b : is_byte a -> is_byte b -> AppendUint16 (a * 256 + b) = [a; b].
Proof.
  unfold is_byte. intros Ha Hb. unfold AppendUint16. rewrite Z.shiftr_div_pow2 by lia. change (2 ^ 8) with 256.
  f_equal; [|f_equal].
  - rewrite Z.div_add_l, Z.div_small, Z.add_0_r by lia. by apply Z.mod_small.
  - rewrite Z.add_comm, Z.mod_add by lia. by apply Z.mod_small.
Qed.

(** The reader of the first version, on what the writer wrote. *)
Lemma openV1_container w wrapped nonce ct ad :
  len wrapped < 65536 -> length nonce = nonceSize ->
  openV1 w (AppendUint16 (len wrapped) ++ wrapped ++ nonce ++ ct) ad =
  match UnwrapDEK w wrapped with
  | Some dek => if negb (aes_key dek) then Err ErrDecrypt else
                match gcm_open dek nonce ct ad with Some pt => Ok pt | None => Err ErrDecrypt end
  | None => Err ErrDecrypt
  end.
Proof.
  intros Hw Hn. unfold openV1. set (body := AppendUint16 (len wrapped) ++ wrapped ++ nonce ++ ct).
  assert (Hu : Z.to_nat (Uint16 body) = length wrapped).
  { unfold body. rewrite Uint16_Append by (unfold len in *; lia). unfold len. lia. }
  assert (Hl : length body = (2 + length wrapped + nonceSize + length ct)%nat).
  { unfold body. rewrite !length_app, Hn. change (length (AppendUint16 (len wrapped))) with 2%nat. lia. }
  rewrite Hu, Hl. rewrite (proj2 (Nat.ltb_ge _ _)) by lia. rewrite (proj2 (Nat.ltb_ge _ _)) by lia.
  assert (Hd2 : drop 2 body = wrapped ++ nonce ++ ct) by done.
  rewrite <- !drop_drop, Hd2, take_app_length, drop_app_length, <- Hn, take_app_length, drop_app_length. done.
Qed.

Lemma seal_Open_container w wrapped nonce ct ad :
  seal_Open w (container wrapped nonce ct) ad = openV1 w (AppendUint16 (len wrapped) ++ wrapped ++ nonce ++ ct) ad.
Proof. reflexivity. Qed.

(** C28: The container.  A blob opens to a plaintext exactly when it is the container
    of a wrapped key, a nonce and the seal of that plaintext with the associated data,
    under the data key that the wrapper unwraps; every other blob, truncated, of
    another format or version or altered, is refused with one of the two errors.  In
    particular what [Seal] wrote opens again to what was sealed. *)
Theorem seal_Open_decides w blob ad pt :
  Forall is_byte blob ->
  (seal_Open w blob ad = Ok pt <->
   exists wrapped nonce dek, blob = container wrapped nonce (gcm_seal dek nonce pt ad) /\
     len wrapped < 65536 /\ length nonce = nonceSize /\ UnwrapDEK w wrapped = Some dek /\ aes_key dek = true) /\
  (forall e, seal_Open w blob ad = Err e -> e = ErrFormat \/ e = ErrDecrypt).
Proof.
  intros Hb. split; [split|].
  - unfold seal_Open. cbn [length magic Nat.add].
    destruct (Nat.ltb_spec (length blob) 5) as [|Hl]; [done|].
    destruct (bool_decide_reflect (take 4 blob = magic)) as [Hm|]; [|done]. cbn [negb].
    destruct (Z.eqb_spec (nth 4 blob 0) version1) as [Hv|]; [|done]. intros Ho.
    assert (Hblob : blob = magic ++ [version1] ++ drop 5 blob).
    { rewrite <- Hm, <- Hv at 1. clear -Hl. destruct blob as [|a [|b [|c [|d [|e l]]]]]; cbn in *; try lia. done. }
    set (body := drop 5 blob) in *. assert (Hbb : Forall is_byte body) by (by apply Forall_drop).
    unfold openV1 in Ho. destruct (Nat.ltb_spec (length body) 2) as [|H2]; [done|].
    set (wlen := Z.to_nat (Uint16 body)) in *.
    destruct (Nat.ltb_spec (length body) (2 + wlen + nonceSize)) as [|H3]; [done|].
    set (wrapped := take wlen (drop 2 body)) in *. set (nonce := take nonceSize (drop (2 + wlen) body)) in *.
    destruct (UnwrapDEK w wrapped) as [dek|] eqn:Eu; [|done]. destruct (aes_key dek) eqn:Ek; [|done]. cbn [negb] in Ho.
    destruct (gcm_open dek nonce _ ad) as [pt'|] eqn:Eg; [|done]. injection Ho as ->. apply gcm_open_inv in Eg.
    assert (Hbody : body = AppendUint16 (len wrapped) ++ wrapped ++ nonce ++ drop (2 + wlen + nonceSize) body).
    { destruct body as [|a [|b l]]; cbn in H2; try lia. apply Forall_cons in Hbb as [Ha Hbb]. apply Forall_cons in Hbb as [Hb' _].
      unfold Uint16 in wlen. cbn [nth] in wlen. unfold is_byte in Ha, Hb'.
      assert (Hlen : len wrapped = a * 256 + b).
      { unfold len, wrapped. rewrite length_take, length_drop. cbn [length] in *. unfold nonceSize in H3. lia. }
      rewrite Hlen, Append_Uint16 by done. unfold wrapped, nonce. cbn [app drop]. do 2 f_equal.
      change (S (S wlen)) with (2 + wlen)%nat. rewrite <- (take_drop wlen l) at 1. f_equal. cbn [Nat.add drop].
      rewrite <- (take_drop nonceSize (drop wlen l)) at 1. f_equal. by rewrite drop_drop. }
    exists wrapped, nonce, dek. split_and!; [| | |done|done].
    + rewrite Hblob. unfold container. do 2 f_equal. rewrite Hbody at 1. by rewrite Eg.
    + unfold len, wrapped. rewrite length_take. assert (Uint16 body < 65536); [|lia].
      destruct body as [|a [|b l]]; cbn in H2; try lia. apply Forall_cons in Hbb as [Ha Hbb]. apply Forall_cons in Hbb as [Hb' _].
      unfold Uint16, is_byte in *. cbn [nth]. lia.
    + unfold nonce. rewrite length_take, length_drop. lia.
  - intros (wrapped & nonce & dek & -> & Hw & Hn & Hu & Hk). rewrite seal_Open_container, openV1_container by done. by rewrite Hu, Hk, gcm_open_seal.
  - intros e. unfold seal_Open, openV1. repeat case_match; intros [= <-]; auto.
Qed.

(** What [Seal] writes, opens. *)
Lemma seal_roundtrip w dek nonce wrapNonce pt ad blob :
  seal_Seal w dek nonce wrapNonce pt ad = Ok blob ->
  (forall wrapped, WrapDEK w wrapNonce dek = Some wrapped -> UnwrapDEK w wrapped = Some dek /\ len wrapped < 65536) ->
  length nonce = nonceSize -> length dek = dekSize -> seal_Open w blob ad = Ok pt.
Proof.
  unfold seal_Seal. destruct (WrapDEK w wrapNonce dek) as [wrapped|]; [|done]. intros [= <-] Hw Hn Hd.
  destruct (Hw wrapped eq_refl) as [Hu Hl]. rewrite seal_Open_container, openV1_container by done. rewrite Hu. unfold aes_key, len. rewrite Hd. cbn. by rewrite gcm_open_seal.
Qed.

(** Opening a nonce and what follows it. *)
Lemma AESGCMOpen_app key nonce ct ad : length key = 32%nat -> length nonce = nonceSize ->
  AESGCMOpen key (nonce ++ ct) ad = match gcm_open key nonce ct ad with Some pt => Ok pt | None => Err OpenFailed end.
Proof.
  intros Hk Hn. unfold AESGCMOpen, aes_key, len. rewrite Hk, length_app.
  rewrite (proj2 (Nat.ltb_ge _ _)) by lia. rewrite <- Hn, take_app_length, drop_app_length. done.
Qed.

(** ** The vault *)

Definition slashless : string -> Prop := GoStrings.without "/".

Lemma text_inj s t : text s = text t -> s = t.
Proof.
  unfold text. intros H. rewrite <- (string_of_list_ascii_of_string s), <- (string_of_list_ascii_of_string t). f_equal.
  revert H. generalize (list_ascii_of_string s) (list_ascii_of_string t). induction l as [|c l IH]; intros [|c' l']; cbn; try done.
  intros [= Hc Hl]. f_equal; [|by apply IH]. rewrite <- (ascii_N_embedding c), <- (ascii_N_embedding c'). f_equal. lia.
Qed.

Lemma text_bytes s : Forall is_byte (text s).
Proof.
  unfold text. apply Forall_fmap, Forall_true. intros c. cbn. unfold is_byte. pose proof (N_ascii_bounded c). lia.
Qed.

Lemma text_of_bytes b : Forall is_byte b -> text (of_bytes b) = b.
Proof.
  intros Hb. unfold text, of_bytes. rewrite list_ascii_of_string_of_list_ascii, <- list_fmap_compose.
  rewrite <- (list_fmap_id b) at 2. apply list_fmap_ext. intros i z Hz. cbn.
  pose proof (Forall_lookup_1 _ _ _ _ Hb Hz) as Hr. unfold is_byte in Hr. rewrite N_ascii_embedding by lia. cbn. lia.
Qed.

(** Rows whose tenant, scope and reference have no slash have data of their own. *)
Definition plain_row (r : Row) : Prop := slashless (r_tenant r) /\ slashless (r_scope r) /\ slashless (r_ref r).

Lemma aad_inj r r' : plain_row r -> plain_row r' -> aad r = aad r' -> r = r'.
Proof.
  destruct r as [t sc rf n], r' as [t' sc' rf' n']. intros (H1 & H2 & H3) (H1' & H2' & H3'). cbn in *. intros H%text_inj. cbn in H.
  apply GoStrings.split_byte in H as [-> H]; [|done..]. apply GoStrings.split_byte in H as [-> H]; [|done..]. by apply GoStrings.split_byte in H as [-> ->].
Qed.

(** The vault binds a credential to its row.  What was put is what is read, and
    no other row changes; and when a sealed credential is copied to another row, then
    reading that row gives it only if the two rows have the same associated data, or
    if AES-GCM seals two plaintexts with different associated data to one text.  Rows
    whose tenant, scope and reference have no slash differ in their data. *)
Theorem vault_binds w dek nonce wrapNonce r pt s s1 :
  (forall wrapped, WrapDEK w wrapNonce dek = Some wrapped -> UnwrapDEK w wrapped = Some dek /\ len wrapped < 65536) ->
  length nonce = nonceSize -> length dek = dekSize ->
  Vault_Put w dek nonce wrapNonce r pt s = (Ok tt, s1) ->
  Vault_Get w r s1 = Ok pt /\
  (forall r', r' <> r -> Vault_Get w r' s1 = Vault_Get w r' s) /\
  (forall r' s2 pt', s2 !! r' = s1 !! r -> Vault_Get w r' s2 = Ok pt' ->
   (pt' = pt /\ aad r' = aad r) \/
   (aad r' <> aad r /\ gcm_seal dek nonce pt' (aad r') = gcm_seal dek nonce pt (aad r))) /\
  (forall r', plain_row r -> plain_row r' -> aad r' = aad r -> r' = r).
Proof.
  intros Hw Hn Hd. unfold Vault_Put, seal_Seal. destruct (WrapDEK w wrapNonce dek) as [wrapped|] eqn:Ew; [|done].
  destruct (Hw wrapped eq_refl) as [Hu Hl]. intros Hs.
  assert (s1 = <[r := container wrapped nonce (gcm_seal dek nonce pt (aad r))]> s) as -> by congruence. clear Hs.
  assert (Hopen : forall ad, seal_Open w (container wrapped nonce (gcm_seal dek nonce pt (aad r))) ad =
    match gcm_open dek nonce (gcm_seal dek nonce pt (aad r)) ad with Some p => Ok p | None => Err ErrDecrypt end).
  { intros ad. rewrite seal_Open_container, openV1_container by done. rewrite Hu. unfold aes_key, len. by rewrite Hd. }
  split_and!.
  - unfold Vault_Get. rewrite lookup_insert_eq, Hopen, gcm_open_seal. done.
  - intros r' Hr. unfold Vault_Get. by rewrite lookup_insert_ne.
  - intros r' s2 pt' H2 Hg. rewrite lookup_insert_eq in H2. unfold Vault_Get in Hg. rewrite H2, Hopen in Hg.
    destruct (gcm_open _ _ _ (aad r')) as [p|] eqn:Eo; [|done]. injection Hg as ->.
    destruct (decide (aad r' = aad r)) as [He|Hne].
    + left. split; [|done]. rewrite He, gcm_open_seal in Eo. by injection Eo as ->.
    + right. split; [done|]. symmetry. by apply gcm_open_inv.
  - intros r' Hp Hp' He. by apply aad_inj.
Qed.

(** With a slash in the scope the row is not determined: the blob of one row opens in
    another. *)
Lemma vault_blob_moves w tenant name sealed pt s :
  let r := mkRow tenant "connector/aws" "prod" name in
  let r' := mkRow tenant "connector" "aws/prod" name in
  s !! r = Some sealed -> Vault_Get w r s = Ok pt -> r' <> r /\ Vault_Get w r' (<[r' := sealed]> s) = Ok pt.
Proof.
  cbn zeta. intros Hs Hg. split; [done|]. unfold Vault_Get in *. rewrite lookup_insert_eq. rewrite Hs in Hg. exact Hg.
Qed.

End Theorems.

(** ** Examples *)

(** Authenticated concatenation: the text is what was sealed, with its key and data. *)
Definition demo_enc (b : bytes) : bytes := flat_map (fun x => [1; x]) b ++ [0].

Definition demo_prefix (k n ad : bytes) : bytes := demo_enc k ++ demo_enc n ++ demo_enc ad.

#[local] Instance demo_aead : AEAD := {|
  gcm_seal := fun k n pt ad => demo_prefix k n ad ++ pt;
  gcm_open := fun k n ct ad =>
    let p := demo_prefix k n ad in if decide (take (length p) ct = p) then Some (drop (length p) ct) else None
|}.

#[local] Instance demo_aead_laws : AEADLaws demo_aead.
Proof.
  split; unfold gcm_seal, gcm_open, demo_aead; intros k n x ad; generalize (demo_prefix k n ad); intros p; cbn zeta.
  - by rewrite take_app_length, decide_True, drop_app_length by done.
  - intros pt. destruct (decide _) as [He|]; [|done]. intros [= <-]. rewrite <- (take_drop (length p) x) at 1. by rewrite He.
Qed.

#[local] Instance demo_aead_bytes : AEADBytes demo_aead.
Proof.
  assert (He : forall b, Forall is_byte b -> Forall is_byte (demo_enc b)).
  { intros b. unfold demo_enc. induction 1 as [|x b Hx _ IH]; cbn; rewrite !Forall_cons; unfold is_byte in *; split_and!; try done; lia. }
  intros k n pt ad Hk Hn Hp Ha. cbn. unfold demo_prefix. rewrite !Forall_app. auto.
Qed.

Definition demo_kek : Buffer := mkBuffer (replicate 32 7) false.
Definition demo_dek : bytes := replicate 32 9.
Definition demo_nonce : bytes := replicate 12 1.
Definition demo_row : Row := mkRow "t" "connector" "aws" "token".

Definition demo_blob : bytes :=
  match seal_Seal (LocalKEK demo_kek) demo_dek demo_nonce demo_nonce [115; 51] (aad demo_row) with Ok b => b | Err _ => [] end.

Lemma demo_blob_bytes : Forall is_byte demo_blob.
Proof.
  assert (H : forallb (fun x => (0 <=? x) && (x <? 256)) demo_blob = true) by by vm_compute.
  rewrite forallb_forall in H. apply Forall_forall. intros x Hx%list_elem_of_In. specialize (H x Hx).
  apply andb_true_iff in H as [H1%Z.leb_le H2%Z.ltb_lt]. by split.
Qed.

Lemma seal_Open_decides_witness :
  Forall is_byte demo_blob /\ seal_Open (LocalKEK demo_kek) demo_blob (aad demo_row) = Ok [115; 51].
Proof.
  split; [exact demo_blob_bytes|].
  apply (seal_Open_decides (LocalKEK demo_kek) demo_blob (aad demo_row) [115; 51] demo_blob_bytes).
  exists (demo_nonce ++ gcm_seal (replicate 32 7) demo_nonce demo_dek []), demo_nonce, demo_dek.
  split; [reflexivity|]. split; [reflexivity|]. split; [reflexivity|]. split; reflexivity.
Defined.

Lemma vault_binds_witness :
  exists s1, Vault_Put (LocalKEK demo_kek) demo_dek demo_nonce demo_nonce demo_row [115; 51] ∅ = (Ok tt, s1) /\
    Vault_Get (LocalKEK demo_kek) demo_row s1 = Ok [115; 51].
Proof.
  eexists. split; [reflexivity|].
  refine (proj1 (vault_binds (LocalKEK demo_kek) demo_dek demo_nonce demo_nonce demo_row [115; 51] ∅ _ _ _ _ _)).
  - intros wrapped H. injection H as <-. split; reflexivity.
  - reflexivity.
  - reflexivity.
  - reflexivity.
Defined.

End SealVault.
