(* ===== verification/DynSecret.v ===== *)
(** * Leases of dynamic secrets

    [src/internal/dynsecret/dynsecret.go] with [src/internal/leaseworker/leaseworker.go]:
    the engine that has a backend generate a credential, opens a lease for it, and
    revokes it through a durable queue; the expiry sweep and the revocation worker.

    The calls that release the mutex are cut there, so that runs interleave callers.
    The queue is a class with its laws, with [MemoryQueue] its instance, and so is a
    backend: what matters of it is which credentials it accepts. *)

From S2P Require Import Prelude.
Open Scope string_scope.
Open Scope list_scope.
Open Scope Z_scope.

Module DynSecret.
Import SE.

(** ** Data *)

Inductive LeaseState := LeaseActive | LeaseRevoked.
#[export] Instance LeaseState_eq_dec : EqDecision LeaseState.
Proof. solve_decision. Defined.

Record Lease := mkLease {
  l_ID : string; l_TenantID : string; l_Provider : string; l_Role : string; l_BackendRef : string;
  l_State : LeaseState; l_IssuedAt : Z; l_ExpiresAt : Z
}.

Definition set_state (st : LeaseState) (l : Lease) : Lease :=
  mkLease (l_ID l) (l_TenantID l) (l_Provider l) (l_Role l) (l_BackendRef l) st (l_IssuedAt l) (l_ExpiresAt l).
Definition set_expiry (t : Z) (l : Lease) : Lease :=
  mkLease (l_ID l) (l_TenantID l) (l_Provider l) (l_Role l) (l_BackendRef l) (l_State l) (l_IssuedAt l) t.

Record RevokeItem := mkItem { ri_LeaseID : string; ri_Provider : string; ri_BackendRef : string }.
#[export] Instance RevokeItem_eq_dec : EqDecision RevokeItem.
Proof. solve_decision. Defined.

Definition item_of (l : Lease) : RevokeItem := mkItem (l_ID l) (l_Provider l) (l_BackendRef l).

Record GenerateRequest := mkGenerate { gr_Role : string; gr_TTL : Z; gr_LeaseID : string }.
Record Credential := mkCredential { cr_BackendRef : string; cr_Secret : string }.

(** ** The interfaces *)

(** The durable queue; [None] is a nil error. *)
Class RevokeQueue (Q : Type) := {
  Enqueue : RevokeItem -> Q -> option string * Q;
  Pending : Q -> result string (list RevokeItem);
  DoneItem : string -> Q -> option string * Q;
  queued : Q -> RevokeItem -> Prop
}.

(** What is in the queue after its calls; a failed call changes nothing. *)
Class RevokeQueueLaws (Q : Type) `{RevokeQueue Q} : Prop := {
  enqueue_ok it q q' : Enqueue it q = (None, q') ->
    forall x, queued q' x <-> x = it \/ (ri_LeaseID x <> ri_LeaseID it /\ queued q x);
  enqueue_err it q e q' : Enqueue it q = (Some e, q') -> forall x, queued q' x <-> queued q x;
  pending_ok q l : Pending q = Ok l -> forall x, x ∈ l <-> queued q x;
  done_ok id q q' : DoneItem id q = (None, q') -> forall x, queued q' x <-> ri_LeaseID x <> id /\ queued q x;
  done_err id q e q' : DoneItem id q = (Some e, q') -> forall x, queued q' x <-> queued q x
}.

(** The backends of all providers, by name. *)
Class Providers (B : Type) := {
  registered : string -> bool;
  Generate : string -> GenerateRequest -> B -> result string Credential * B;
  BackendRevoke : string -> string -> B -> option string * B;
  live : B -> string -> string -> Prop
}.

(** A generated credential may become live, a revoked one is not live, and nothing
    else becomes live. *)
Class ProvidersLaws (B : Type) `{Providers B} : Prop := {
  generate_live p req b : forall b' res, Generate p req b = (res, b') -> forall p' ref, live b' p' ref ->
    live b p' ref \/ (p' = p /\ exists c, res = Ok c /\ cr_BackendRef c = ref);
  revoke_live p r b : forall b' e, BackendRevoke p r b = (e, b') -> forall p' ref, live b' p' ref -> live b p' ref;
  revoke_ok p r b b' : BackendRevoke p r b = (None, b') -> ~ live b' p r
}.

(** ** The engine *)

Record Config := mkConfig { TenantID : string; Gate : option (string -> string -> bool) }.

Record Engine := mkEngine { leases : gmap string Lease; idem : gmap string string }.

Definition New : Engine := mkEngine ∅ ∅.

Definition with_leases (m : gmap string Lease) (e : Engine) : Engine := mkEngine m (idem e).

Inductive EngineErr :=
| ErrUnknownProvider (p : string) | ErrPolicyDenied (p role : string) | ErrGenerate (e : string)
| ErrLeaseNotFound (id : string) | ErrLeaseNotActive (id : string) | ErrEnqueue (e : string) | ErrQueue (e : string).

Section Engine_.
Context {Q B : Type} `{RevokeQueue Q, Providers B}.
Variable cfg : Config.

(** What an engine, a queue and the backends go through. *)
Record State := mkState { engine : Engine; queue : Q; backend : B }.

Definition with_engine (e : Engine) (s : State) : State := mkState e (queue s) (backend s).
Definition with_queue (q : Q) (s : State) : State := mkState (engine s) q (backend s).
Definition with_backend (b : B) (s : State) : State := mkState (engine s) (queue s) b.

(** [Issue] up to the call of the backend: the lease of a replay, or nothing. *)
Definition issue_check (provider role key : string) (s : State) : result EngineErr (option Lease) :=
  if negb (registered provider) then Err (ErrUnknownProvider provider) else
  if negb (match Gate cfg with Some g => g provider role | None => true end) then Err (ErrPolicyDenied provider role) else
  if String.eqb key "" then Ok None else
  match idem (engine s) !! key with
  | Some id => Ok (Some (default (mkLease "" "" "" "" "" LeaseRevoked 0 0) (leases (engine s) !! id)))
  | None => Ok None
  end.

(** The backend call, without the mutex; [id] is drawn. *)
Definition issue_generate (provider role : string) (ttl : Z) (id : string) (s : State) : result EngineErr Credential * State :=
  let (res, b) := Generate provider (mkGenerate role ttl id) (backend s) in
  (match res with Ok c => Ok c | Err e => Err (ErrGenerate e) end, with_backend b s).

Definition issue_commit (provider role : string) (ttl : Z) (key id : string) (c : Credential) (now : Z) (s : State) : Lease * State :=
  let lease := mkLease id (TenantID cfg) provider role (cr_BackendRef c) LeaseActive now (now + ttl) in
  let e := engine s in
  (lease, with_engine (mkEngine (<[id := lease]> (leases e)) (if String.eqb key "" then idem e else <[key := id]> (idem e))) s).

Definition Issue (provider role : string) (ttl : Z) (key id : string) (now : Z) : M State EngineErr (Lease * option string) := fun s =>
  match issue_check provider role key s with
  | Err e => (Err e, s)
  | Ok (Some l) => (Ok (l, None), s)
  | Ok None =>
      match issue_generate provider role ttl id s with
      | (Err e, s1) => (Err e, s1)
      | (Ok c, s1) => let (l, s2) := issue_commit provider role ttl key id c now s1 in (Ok (l, Some (cr_Secret c)), s2)
      end
  end.

Definition Renew (id : string) (extend : Z) : M State EngineErr Lease := fun s =>
  match leases (engine s) !! id with
  | None => (Err (ErrLeaseNotFound id), s)
  | Some l =>
      if negb (bool_decide (l_State l = LeaseActive)) then (Err (ErrLeaseNotActive id), s) else
      let l' := set_expiry (l_ExpiresAt l + extend) l in
      (Ok l', with_engine (with_leases (<[id := l']> (leases (engine s))) (engine s)) s)
  end.

(** [Revoke] up to the queue: the lease to enqueue, or nothing. *)
Definition revoke_mark (id : string) : M State EngineErr (option Lease) := fun s =>
  match leases (engine s) !! id with
  | None => (Err (ErrLeaseNotFound id), s)
  | Some l =>
      if bool_decide (l_State l = LeaseRevoked) then (Ok None, s) else
      let l' := set_state LeaseRevoked l in
      (Ok (Some l'), with_engine (with_leases (<[id := l']> (leases (engine s))) (engine s)) s)
  end.

Definition revoke_enqueue (l : Lease) : M State EngineErr unit := fun s =>
  match Enqueue (item_of l) (queue s) with
  | (Some e, q) => (Err (ErrEnqueue e), with_queue q s)
  | (None, q) => (Ok tt, with_queue q s)
  end.

Definition Revoke (id : string) : M State EngineErr unit :=
  let! l := revoke_mark id in
  match l with
  | None => ret tt
  | Some l => revoke_enqueue l
  end.

Definition GetLease (id : string) (s : State) : result EngineErr Lease :=
  match leases (engine s) !! id with Some l => Ok l | None => Err (ErrLeaseNotFound id) end.

(** [order] is the order in which the map of leases is walked. *)
Definition due_ids (order : list string) (now : Z) (s : State) : list string :=
  List.filter (fun id => match leases (engine s) !! id with
                         | Some l => bool_decide (l_State l = LeaseActive) && negb (now <? l_ExpiresAt l)
                         | None => false
                         end) order.

Fixpoint revoke_all (ids : list string) : M State EngineErr unit :=
  match ids with
  | [] => ret tt
  | id :: l => let! _ := Revoke id in revoke_all l
  end.

Definition ExpireDue (order : list string) (now : Z) : M State EngineErr Z := fun s =>
  let due := due_ids order now s in
  match revoke_all due s with
  | (Err e, s') => (Err e, s')
  | (Ok _, s') => (Ok (Z.of_nat (length due)), s')
  end.

(** One item of the worker: the backend call, and whether it succeeded. *)
Definition drain_revoke (it : RevokeItem) (s : State) : bool * State :=
  if negb (registered (ri_Provider it)) then (false, s) else
  let (e, b) := BackendRevoke (ri_Provider it) (ri_BackendRef it) (backend s) in
  (match e with None => true | Some _ => false end, with_backend b s).

Definition drain_done (it : RevokeItem) : M State EngineErr unit := fun s =>
  match DoneItem (ri_LeaseID it) (queue s) with
  | (Some e, q) => (Err (ErrQueue e), with_queue q s)
  | (None, q) => (Ok tt, with_queue q s)
  end.

(** The items of a worker, and the count of those done. *)
Fixpoint drain (items : list RevokeItem) (done : Z) : M State EngineErr Z :=
  match items with
  | [] => ret done
  | it :: l => fun s =>
      let (ok, s1) := drain_revoke it s in
      if ok then (let! _ := drain_done it in drain l (done + 1)) s1 else drain l done s1
  end.

Definition RunRevocations : M State EngineErr Z := fun s =>
  match Pending (queue s) with
  | Err e => (Err (ErrQueue e), s)
  | Ok items => drain items 0 s
  end.

(** ** leaseworker.go *)

Definition Recover : M State EngineErr Z := RunRevocations.

Definition Tick (order : list string) (now : Z) : M State EngineErr (Z * Z) :=
  let! expired := ExpireDue order now in
  let! revoked := RunRevocations in
  ret (expired, revoked).

End Engine_.
Arguments State : clear implicits.

(** ** MemoryQueue: items under their lease ids *)

Definition filed (q : gmap string RevokeItem) : Prop := map_Forall (fun id it => ri_LeaseID it = id) q.

Definition MemoryQueue : Type := {q : gmap string RevokeItem | filed q}.

Definition NewMemoryQueue : MemoryQueue := exist _ ∅ (map_Forall_empty _).

Lemma filed_insert it q : filed q -> filed (<[ri_LeaseID it := it]> q).
Proof. intros H. by apply map_Forall_insert_2. Qed.

Lemma filed_delete id q : filed q -> filed (delete id q).
Proof. intros H. by apply map_Forall_delete. Qed.

#[export] Instance MemoryQueue_queue : RevokeQueue MemoryQueue := {
  Enqueue it q := (None, exist _ (<[ri_LeaseID it := it]> (proj1_sig q)) (filed_insert it _ (proj2_sig q)));
  Pending q := Ok (snd <$> map_to_list (proj1_sig q));
  DoneItem id q := (None, exist _ (delete id (proj1_sig q)) (filed_delete id _ (proj2_sig q)));
  queued q it := proj1_sig q !! ri_LeaseID it = Some it
}.

#[export] Instance MemoryQueue_laws : RevokeQueueLaws MemoryQueue.
Proof.
  split; cbn [Enqueue Pending DoneItem queued MemoryQueue_queue].
  - intros it [q Hq] q' Hr x. injection Hr as <-. cbn [proj1_sig]. rewrite lookup_insert_Some. split.
    + intros [[Hid ->]|[Hne Hx]]; [by left|right]. split; [congruence|done].
    + intros [->|[Hne Hx]]; [by left|right]. by split; [congruence|].
  - done.
  - intros [q Hq] l Hr x. injection Hr as <-. cbn [proj1_sig]. rewrite list_elem_of_fmap. split.
    + intros ([id it] & -> & Hin). apply elem_of_map_to_list in Hin. cbn. by rewrite (Hq id it Hin).
    + intros Hx. exists (ri_LeaseID x, x). split; [done|]. by apply elem_of_map_to_list.
  - intros id [q Hq] q' Hr x. injection Hr as <-. cbn [proj1_sig]. rewrite lookup_delete_Some. naive_solver.
  - done.
Qed.

End DynSecret.
