(* ===== verification/DynSecretSpec.v ===== *)
(** * No credential without someone to revoke it

    The engine of [DynSecret] under every interleaving of issuing, renewing, revoking
    and draining: each credential the backends accept has an active lease, is queued
    for revocation, belongs to a call in progress, or was given up at a failure of the
    queue or a restart; a tick of the worker leaves none whose lease has expired.  And what
    is given up stays so. *)

From S2P Require Import Prelude DynSecret.
Open Scope string_scope.
Open Scope list_scope.
Open Scope Z_scope.

Module DynSecretSpec.
Import SE DynSecret.

Section Spec.
Context {Q B : Type} `{RevokeQueueLaws Q, ProvidersLaws B}.
Variable cfg : Config.
Abbreviation State := (DynSecret.State Q B).

(** ** Runs *)

(** Where a call stands that has released the mutex. *)
Inductive open_call :=
| FIssue (provider role : string) (ttl : Z) (key : string)
| FCommit (provider role : string) (ttl : Z) (key id : string) (c : Credential)
| FEnqueue (l : Lease)
| FDrain (items : list RevokeItem)
| FDone (it : RevokeItem) (items : list RevokeItem).

(** The ids that were ever drawn stay with the system. *)
Record sys := mkSys { st : State; flights : list open_call; drawn : list string }.

(** A section of a call, the queue and the backends answering. *)
Inductive call_step (y : sys) : sys -> Prop :=
| call_check provider role ttl key :
    issue_check cfg provider role key (st y) = Ok None ->
    call_step y (mkSys (st y) (FIssue provider role ttl key :: flights y) (drawn y))
| call_generate provider role ttl key id c s' fs :
    flights y ≡ₚ FIssue provider role ttl key :: fs -> id ∉ drawn y ->
    issue_generate provider role ttl id (st y) = (Ok c, s') ->
    call_step y (mkSys s' (FCommit provider role ttl key id c :: fs) (id :: drawn y))
| call_refused provider role ttl key id e s' fs :
    flights y ≡ₚ FIssue provider role ttl key :: fs -> id ∉ drawn y ->
    issue_generate provider role ttl id (st y) = (Err e, s') ->
    call_step y (mkSys s' fs (id :: drawn y))
| call_commit provider role ttl key id c now l s' fs :
    flights y ≡ₚ FCommit provider role ttl key id c :: fs ->
    issue_commit cfg provider role ttl key id c now (st y) = (l, s') ->
    call_step y (mkSys s' fs (drawn y))
| call_renew id extend res s' :
    Renew id extend (st y) = (res, s') -> call_step y (mkSys s' (flights y) (drawn y))
| call_mark id l s' :
    revoke_mark id (st y) = (Ok (Some l), s') -> call_step y (mkSys s' (FEnqueue l :: flights y) (drawn y))
| call_enqueue l s' fs :
    flights y ≡ₚ FEnqueue l :: fs -> revoke_enqueue l (st y) = (Ok tt, s') ->
    call_step y (mkSys s' fs (drawn y))
| call_pending items :
    Pending (queue (st y)) = Ok items -> call_step y (mkSys (st y) (FDrain items :: flights y) (drawn y))
| call_revoke it l ok s' fs :
    flights y ≡ₚ FDrain (it :: l) :: fs -> drain_revoke it (st y) = (ok, s') ->
    call_step y (mkSys s' ((if ok : bool then FDone it l else FDrain l) :: fs) (drawn y))
| call_done it l res s' fs :
    flights y ≡ₚ FDone it l :: fs -> drain_done it (st y) = (res, s') ->
    call_step y (mkSys s' (match res with Ok _ => FDrain l :: fs | Err _ => fs end) (drawn y))
| call_end fs :
    flights y ≡ₚ FDrain [] :: fs -> call_step y (mkSys (st y) fs (drawn y)).

(** The system, with the credentials, by provider and reference, that were given up. *)
Record system := mkSystem { calls : sys; lost : list (string * string) }.

(** The credentials that only the memory of the process knows: those of active leases and
    of calls in progress. *)
Definition held_by (f : open_call) : option (string * string) :=
  match f with
  | FCommit provider _ _ _ _ c => Some (provider, cr_BackendRef c)
  | FEnqueue l => Some (l_Provider l, l_BackendRef l)
  | _ => None
  end.

Definition in_memory (y : sys) : list (string * string) :=
  ((fun p => (l_Provider p.2, l_BackendRef p.2)) <$>
     List.filter (fun p => bool_decide (l_State p.2 = LeaseActive)) (map_to_list (leases (engine (st y))))) ++
  omap held_by (flights y).

(** A step of the system: a section of a call; the error of the queue after [Revoke] has
    marked the lease, which gives its credential up; or a restart of the process, which
    gives up those that only its memory knows. *)
Inductive step (y : system) : system -> Prop :=
| step_call y' : call_step (calls y) y' -> step y (mkSystem y' (lost y))
| step_enqueue_failed l e s' fs :
    flights (calls y) ≡ₚ FEnqueue l :: fs -> revoke_enqueue l (st (calls y)) = (Err e, s') ->
    step y (mkSystem (mkSys s' fs (drawn (calls y))) ((l_Provider l, l_BackendRef l) :: lost y))
| step_restart :
    step y (mkSystem (mkSys (with_engine New (st (calls y))) [] (drawn (calls y))) (in_memory (calls y) ++ lost y)).

(** ** The invariant *)

Definition f_items (f : open_call) : list RevokeItem :=
  match f with FDrain l => l | FDone it l => it :: l | _ => [] end.

Definition f_owner (f : open_call) : option string :=
  match f with FCommit _ _ _ _ id _ => Some id | FEnqueue l => Some (l_ID l) | _ => None end.

(** Known to the queue or to a worker. *)
Definition item (s : State) (fl : list open_call) (x : RevokeItem) : Prop :=
  queued (queue s) x \/ x ∈ mbind f_items fl.

(** A worker has revoked it and not yet removed it. *)
Definition finishing (fl : list open_call) (id : string) : Prop := exists it l, FDone it l ∈ fl /\ ri_LeaseID it = id.

Definition held (f : open_call) (p ref : string) : Prop :=
  match f with
  | FCommit provider _ _ _ _ c => provider = p /\ cr_BackendRef c = ref
  | FEnqueue l => l_Provider l = p /\ l_BackendRef l = ref
  | _ => False
  end.

(** Someone will revoke the credential. *)
Definition covered (s : State) (fl : list open_call) (p ref : string) : Prop :=
  (exists id l, leases (engine s) !! id = Some l /\ l_State l = LeaseActive /\ l_Provider l = p /\ l_BackendRef l = ref) \/
  (exists x, queued (queue s) x /\ ri_Provider x = p /\ ri_BackendRef x = ref /\ ~ finishing fl (ri_LeaseID x)) \/
  (exists f, f ∈ fl /\ held f p ref).

(** [X] are the credentials that are not the engine's to end. *)
Record inv (X : string -> string -> Prop) (y : sys) : Prop := mkInv {
  inv_key id l : leases (engine (st y)) !! id = Some l -> l_ID l = id /\ id ∈ drawn y;
  inv_owners : NoDup (omap f_owner (flights y));
  inv_commit p r t k id c : FCommit p r t k id c ∈ flights y -> leases (engine (st y)) !! id = None;
  inv_enqueue l : FEnqueue l ∈ flights y -> exists l', leases (engine (st y)) !! l_ID l = Some l' /\ l_State l' = LeaseRevoked;
  inv_owner f id : f ∈ flights y -> f_owner f = Some id -> id ∈ drawn y /\ forall x, item (st y) (flights y) x -> ri_LeaseID x <> id;
  inv_item x : item (st y) (flights y) x ->
    ri_LeaseID x ∈ drawn y /\ forall l, leases (engine (st y)) !! ri_LeaseID x = Some l -> l_State l = LeaseRevoked;
  inv_items x x' : item (st y) (flights y) x -> item (st y) (flights y) x' -> ri_LeaseID x = ri_LeaseID x' -> x = x';
  inv_live p ref : live (backend (st y)) p ref -> X p ref \/ covered (st y) (flights y) p ref
}.

(** ** Its preservation *)

Lemma elem_items (fl : list open_call) x : x ∈ mbind f_items fl <-> exists f, f ∈ fl /\ x ∈ f_items f.
Proof. rewrite list_elem_of_bind. naive_solver. Qed.

Lemma elem_owners (fl : list open_call) id : id ∈ omap f_owner fl <-> exists f, f ∈ fl /\ f_owner f = Some id.
Proof. apply list_elem_of_omap. Qed.

Lemma owners_perm (fl fl' : list open_call) : fl ≡ₚ fl' -> omap f_owner fl ≡ₚ omap f_owner fl'.
Proof.
  induction 1 as [|f l l' _ IH|f g l|l l' l'' _ IH _ IH']; cbn.
  - done.
  - by destruct (f_owner f); rewrite IH.
  - destruct (f_owner f), (f_owner g); try done. apply Permutation_swap.
  - by rewrite IH.
Qed.

(** What keeps a credential covered while the leases stay as they are. *)
Lemma covered_mono s s' fl fl' p ref : engine s' = engine s ->
  (forall x, ri_Provider x = p -> ri_BackendRef x = ref -> queued (queue s) x -> ~ finishing fl (ri_LeaseID x) ->
    queued (queue s') x /\ ~ finishing fl' (ri_LeaseID x)) ->
  (forall f, f ∈ fl -> held f p ref -> f ∈ fl') ->
  covered s fl p ref -> covered s' fl' p ref.
Proof.
  intros He Hq Hf [Ha|[(x & Hx & Hp & Hr & Hfin)|(f & Hin & Hh)]].
  - left. by rewrite He.
  - right; left. destruct (Hq x Hp Hr Hx Hfin) as [H1' H2']. by exists x.
  - right; right. exists f. auto.
Qed.

(** A step that leaves the leases and takes no part in issuing or enqueueing. *)
Lemma inv_weaken X s fl d s' fl' d' : inv X (mkSys s fl d) -> engine s' = engine s ->
  (forall f, f_owner f <> None -> f ∈ fl' -> f ∈ fl) -> NoDup (omap f_owner fl') ->
  (forall x, item s' fl' x -> item s fl x) -> d ⊆ d' ->
  (forall p ref, live (backend s') p ref -> X p ref \/ covered s' fl' p ref) ->
  inv X (mkSys s' fl' d').
Proof.
  intros [Hk Ho Hc Hq Hw Hi Hu Hl] He Hf Hnd Hit Hd Hlive. cbn in *. split; cbn; rewrite ?He.
  - intros id l Hid. destruct (Hk id l Hid). auto.
  - done.
  - intros p r t k id c Hin. eapply Hc, Hf, Hin. done.
  - intros l Hin. apply Hq, Hf; done.
  - intros f id Hin Hid. destruct (Hw f id) as [H1' H2']; [apply Hf; congruence|done|]. auto.
  - intros x Hx. destruct (Hi x (Hit x Hx)). auto.
  - intros x x' Hx Hx'. auto.
  - done.
Qed.

Lemma inv_perm X s fl fl' d : fl ≡ₚ fl' -> inv X (mkSys s fl d) -> inv X (mkSys s fl' d).
Proof.
  intros HP HI. eapply inv_weaken; try exact HI; try done.
  - intros f _. by rewrite HP.
  - rewrite <- (owners_perm _ _ HP). apply (inv_owners _ _ HI).
  - intros x. unfold item. by rewrite HP.
  - intros p ref Hp. destruct (inv_live _ _ HI p ref Hp) as [|Hc]; [by left|right]. revert Hc. apply covered_mono; cbn.
    + done.
    + intros x _ _ Hx Hn. split; [done|]. intros (it & l & Hin & He). apply Hn. exists it, l. by rewrite HP.
    + intros f. by rewrite HP.
Qed.

(** The open_call that moves is brought to the front. *)
Lemma inv_front X y f fs : flights y ≡ₚ f :: fs -> inv X y -> inv X (mkSys (st y) (f :: fs) (drawn y)).
Proof. destruct y as [s fl d]. apply inv_perm. Qed.

Lemma item_cons s f fl x : item s (f :: fl) x <-> x ∈ f_items f \/ item s fl x.
Proof. unfold item. cbn. rewrite elem_of_app. tauto. Qed.

Lemma finishing_cons f fl id :
  finishing (f :: fl) id <-> (exists it l, f = FDone it l /\ ri_LeaseID it = id) \/ finishing fl id.
Proof.
  unfold finishing. split.
  - intros (it & l & Hin & Hid). apply elem_of_cons in Hin as [<-|Hin]; [left|right]; eauto.
  - intros [(it & l & -> & Hid)|(it & l & Hin & Hid)]; exists it, l; rewrite elem_of_cons; auto.
Qed.

Lemma nodup_tail f (fl : list open_call) : NoDup (omap f_owner (f :: fl)) -> NoDup (omap f_owner fl).
Proof. cbn. destruct (f_owner f); [|done]. by intros [_ H']%NoDup_cons. Qed.

(** No other open_call owns the id of the first. *)
Lemma nodup_owner f (fl : list open_call) id g : NoDup (omap f_owner (f :: fl)) -> f_owner f = Some id -> g ∈ fl -> f_owner g <> Some id.
Proof.
  cbn. intros Hnd Hf Hin Hg. rewrite Hf in Hnd. apply NoDup_cons in Hnd as [Hn _]. apply Hn. apply elem_owners. eauto.
Qed.

(** A open_call that owns nothing and holds nothing leaves. *)
Lemma inv_drop X s f fs d : f_owner f = None -> (forall p ref, ~ held f p ref) ->
  inv X (mkSys s (f :: fs) d) -> inv X (mkSys s fs d).
Proof.
  intros Hf Hh HI. eapply inv_weaken; [exact HI|..]; try done.
  - intros g _. apply list_elem_of_further.
  - apply (nodup_tail f), (inv_owners _ _ HI).
  - intros x. rewrite item_cons. auto.
  - intros p ref Hp. destruct (inv_live _ _ HI p ref Hp) as [|Hc]; [by left|right]. revert Hc. apply covered_mono; cbn.
    + done.
    + intros x _ _ Hx Hn. split; [done|]. intros Hfin. apply Hn, finishing_cons. auto.
    + intros g [->|Hin]%elem_of_cons Hg; [by destruct (Hh p ref)|done].
Qed.

(** A open_call that owns nothing and knows only queued items begins. *)
Lemma inv_begin X s f fs d : f_owner f = None -> (forall it l, f <> FDone it l) ->
  (forall x, x ∈ f_items f -> item s fs x) -> inv X (mkSys s fs d) -> inv X (mkSys s (f :: fs) d).
Proof.
  intros Hf Hn Hit HI. eapply inv_weaken; [exact HI|..]; try done.
  - intros g Hg [->|Hin]%elem_of_cons; done.
  - cbn. rewrite Hf. apply (inv_owners _ _ HI).
  - intros x [Hx|Hx]%item_cons; auto.
  - intros p ref Hp. destruct (inv_live _ _ HI p ref Hp) as [|Hc]; [by left|right]. revert Hc. apply covered_mono; cbn.
    + done.
    + intros x _ _ Hx Hx'. split; [done|]. intros [(it & l & He & _)|Hfin]%finishing_cons; [by destruct (Hn it l)|done].
    + intros g Hin _. by apply list_elem_of_further.
Qed.

Lemma inv_generate X provider role ttl key id c s s' fs d : id ∉ d ->
  issue_generate provider role ttl id s = (Ok c, s') ->
  inv X (mkSys s fs d) -> inv X (mkSys s' (FCommit provider role ttl key id c :: fs) (id :: d)).
Proof.
  unfold issue_generate. intros Hid Hg HI.
  destruct (Generate _ _ _) as [res b] eqn:Hb. destruct res as [c'|e]; [|done]. injection Hg as -> <-.
  destruct HI as [Hk Ho Hc Hq Hw Hi Hu Hl]. cbn in *. split; cbn.
  - intros i l Hil. destruct (Hk i l Hil). split; [done|by right].
  - apply NoDup_cons. split; [|done]. intros (f & Hin & Hf)%elem_owners. by destruct (Hw f id Hin Hf).
  - intros p r t k i c' [Heq|Hin]%elem_of_cons; [|by eapply Hc]. simplify_eq.
    destruct (leases (engine s) !! id) eqn:Hl'; [|done]. by destruct (Hk _ _ Hl').
  - intros l [Heq|Hin]%elem_of_cons; [done|auto].
  - intros f i [->|Hin]%elem_of_cons Hf; cbn in *.
    + simplify_eq. split; [by left|]. intros x [Hx|Hx]%item_cons; [by apply elem_of_nil in Hx|].
      destruct (Hi x Hx) as [Hd _]. intros <-. done.
    + destruct (Hw f i Hin Hf) as [Hd Hx]. split; [by right|].
      intros x [Hx'|Hx']%item_cons; [by apply elem_of_nil in Hx'|auto].
  - intros x [Hx|Hx]%item_cons; [by apply elem_of_nil in Hx|]. destruct (Hi x Hx). split; [by right|done].
  - intros x x' [Hx|Hx]%item_cons [Hx'|Hx']%item_cons; try by apply elem_of_nil in Hx. by apply elem_of_nil in Hx'. auto.
  - intros p ref Hp. destruct (generate_live _ _ _ _ _ Hb _ _ Hp) as [Hp'|(-> & c' & Hc' & <-)].
    + destruct (Hl p ref Hp') as [|Hcov]; [by left|right]. revert Hcov. apply covered_mono; cbn.
      * done.
      * intros x _ _ Hx Hx'. split; [done|]. intros [(it & l & He & _)|Hfin]%finishing_cons; done.
      * intros g Hin _. by apply list_elem_of_further.
    + right; right; right. exists (FCommit provider role ttl key id c). injection Hc' as <-. split; [by left|done].
Qed.

Lemma inv_refused X provider role ttl key id e s s' fs d :
  issue_generate provider role ttl id s = (Err e, s') ->
  inv X (mkSys s (FIssue provider role ttl key :: fs) d) -> inv X (mkSys s' fs (id :: d)).
Proof.
  unfold issue_generate. intros Hg HI.
  destruct (Generate _ _ _) as [res b] eqn:Hb. destruct res as [c'|e']; [done|]. injection Hg as _ <-.
  apply inv_drop in HI; [|done|by intros ? ? ?]. eapply inv_weaken; [exact HI|..]; try done; cbn.
  - apply (inv_owners _ _ HI).
  - intros i. by right.
  - intros p ref Hp. destruct (generate_live _ _ _ _ _ Hb _ _ Hp) as [Hp'|(-> & c' & Hc' & _)]; [|done].
    destruct (inv_live _ _ HI p ref Hp') as [|Hcov]; [by left|right]. revert Hcov. by apply covered_mono.
Qed.

Lemma inv_committed X provider role ttl key id c now l s s' fs d :
  issue_commit cfg provider role ttl key id c now s = (l, s') ->
  inv X (mkSys s (FCommit provider role ttl key id c :: fs) d) -> inv X (mkSys s' fs d).
Proof.
  unfold issue_commit. intros Hg [Hk Ho Hc Hq Hw Hi Hu Hl]. injection Hg as <- <-. cbn in *.
  assert (Hnone : leases (engine s) !! id = None) by (eapply Hc; by left).
  destruct (Hw _ id (list_elem_of_here _ _) eq_refl) as [Hid Hno].
  assert (Hown : forall g, g ∈ fs -> f_owner g <> Some id) by (intros g; by apply (nodup_owner (FCommit provider role ttl key id c) fs)).
  set (l := mkLease id _ _ _ _ _ _ _). split; cbn.
  - intros i x [[<- <-]|[_ Hx]]%lookup_insert_Some; [done|by apply Hk].
  - by apply NoDup_cons in Ho as [_ Ho].
  - intros p r t k i c' Hin. rewrite lookup_insert_ne; [eapply Hc; by right|]. intros <-. by apply (Hown _ Hin).
  - intros x Hin. rewrite lookup_insert_ne; [by apply Hq; right|]. intros He. apply (Hown _ Hin). cbn. by rewrite He.
  - intros f i Hin Hf. destruct (Hw f i (list_elem_of_further _ _ _ Hin) Hf) as [Hd Hx]. split; [done|].
    intros x Hx'. apply Hx, item_cons. by right.
  - intros x Hx. assert (Hx' : item s (FCommit provider role ttl key id c :: fs) x) by (apply item_cons; by right).
    destruct (Hi x Hx') as [Hd Hr]. split; [done|]. intros l' [[He _]|[_ Hl']]%lookup_insert_Some; [by destruct (Hno x)|auto].
  - intros x x' Hx Hx'. apply Hu; apply item_cons; by right.
  - intros p ref Hp. destruct (Hl p ref Hp) as [|[(i & x & Hx & Ha)|[(x & Hx & Hpx & Hrx & Hf)|(f & [->|Hin]%elem_of_cons & Hh)]]]; [by left|right..].
    + left. exists i, x. cbn. rewrite lookup_insert_ne; [done|]. congruence.
    + right; left. exists x. split_and!; [done..|]. intros Hfin. apply Hf, finishing_cons. by right.
    + left. exists id, l. cbn. rewrite lookup_insert_eq. by destruct Hh as [<- <-].
    + right; right. by exists f.
Qed.

(** A lease is replaced, with the same id and credential. *)
Lemma inv_renewed X id extend res s s' fs d : Renew id extend s = (res, s') ->
  inv X (mkSys s fs d) -> inv X (mkSys s' fs d).
Proof.
  unfold Renew. intros Hr HI. destruct (leases (engine s) !! id) as [l|] eqn:Hl; [|by injection Hr as _ <-].
  case_bool_decide as Ha; cbn in Hr; injection Hr as Hr0 Hs; subst s'; [|done].
  destruct HI as [Hk Ho Hc Hq Hw Hi Hu Hlv]. cbn in *. set (l' := set_expiry _ l). split; cbn; try done.
  - intros i x [[<- <-]|[_ Hx]]%lookup_insert_Some; [exact (Hk _ _ Hl)|by apply Hk].
  - intros p r t k i c Hin. rewrite lookup_insert_ne; [by eapply Hc|]. intros <-. by rewrite (Hc _ _ _ _ _ _ Hin) in Hl.
  - intros x Hin. destruct (Hq x Hin) as (y & Hy & Hs). rewrite lookup_insert_ne; [by exists y|]. intros ->. congruence.
  - intros x Hx. destruct (Hi x Hx) as [Hd Hv]. split; [done|]. intros y [[Hid <-]|[_ Hy]]%lookup_insert_Some; [|auto].
    apply (Hv l). by rewrite <- Hid.
  - intros p ref Hp. destruct (Hlv p ref Hp) as [|[(i & x & Hx & Hs & Hpx & Hrx)|Hcov]]; [by left|right; left|right; by right].
    destruct (decide (i = id)) as [->|Hne].
    + exists id, l'. cbn. rewrite lookup_insert_eq. assert (x = l) as -> by congruence. done.
    + exists i, x. cbn. by rewrite lookup_insert_ne.
Qed.

(** A marked lease had no item, and no open_call owned it. *)
Lemma unowned X s fs d id l : inv X (mkSys s fs d) -> leases (engine s) !! id = Some l -> l_State l = LeaseActive ->
  (forall g, g ∈ fs -> f_owner g <> Some id) /\ forall x, item s fs x -> ri_LeaseID x <> id.
Proof.
  intros [Hk Ho Hc Hq Hw Hi Hu Hlv] Hl Ha. cbn in *. split.
  - intros [| p r t k i c | l' | |] Hin Hg; try done; injection Hg as Hg.
    + subst i. by rewrite (Hc _ _ _ _ _ _ Hin) in Hl.
    + destruct (Hq _ Hin) as (y & Hy & Hs). congruence.
  - intros x Hx <-. destruct (Hi x Hx) as [_ Hv]. specialize (Hv l Hl). congruence.
Qed.

Lemma inv_marked X id l s s' fs d : revoke_mark id s = (Ok (Some l), s') ->
  inv X (mkSys s fs d) -> inv X (mkSys s' (FEnqueue l :: fs) d).
Proof.
  unfold revoke_mark. intros Hr HI. destruct (leases (engine s) !! id) as [l0|] eqn:Hl; [|done].
  case_bool_decide as Ha; [done|]. injection Hr as <- <-.
  assert (Ha' : l_State l0 = LeaseActive) by (by destruct (l_State l0)).
  destruct (unowned _ _ _ _ _ _ HI Hl Ha') as [Hown Hno].
  destruct HI as [Hk Ho Hc Hq Hw Hi Hu Hlv]. cbn in *. destruct (Hk _ _ Hl) as [Hid Hd]. set (l' := set_state _ l0).
  assert (Hl' : l_ID l' = id) by done.
  assert (Hcons : forall s' x, item s' (FEnqueue l' :: fs) x -> item s' fs x)
    by (intros s' x [Hx|Hx]%item_cons; [by apply elem_of_nil in Hx|done]).
  split; cbn.
  - intros i x [[<- <-]|[_ Hx]]%lookup_insert_Some; [done|by apply Hk].
  - apply NoDup_cons. rewrite elem_owners. split; [|done]. intros (f & Hin & Hf). rewrite Hid in Hf. by apply (Hown f).
  - intros p r t k i c [Heq|Hin]%elem_of_cons; [done|]. rewrite lookup_insert_ne; [by eapply Hc|]. intros <-. by apply (Hown _ Hin).
  - intros x [Heq|Hin]%elem_of_cons.
    + injection Heq as ->. exists l'. cbn. by rewrite Hid, lookup_insert_eq.
    + rewrite lookup_insert_ne; [by apply Hq|]. intros He. apply (Hown _ Hin). cbn. by rewrite He.
  - intros f i [->|Hin]%elem_of_cons Hf.
    + injection Hf as <-. rewrite Hid. split; [done|]. intros x Hx%Hcons. by apply Hno.
    + destruct (Hw f i Hin Hf) as [Hd' Hx]. split; [done|]. intros x Hx'%Hcons. by apply Hx.
  - intros x Hx%Hcons. destruct (Hi x Hx) as [Hd' Hv]. split; [done|].
    intros y [[He _]|[_ Hy]]%lookup_insert_Some; [by destruct (Hno x)|auto].
  - intros x x' Hx%Hcons Hx'%Hcons. by apply Hu.
  - intros p ref Hp. destruct (Hlv p ref Hp) as [|[(i & x & Hx & Hs & Hpx & Hrx)|Hcov]]; [by left|right..].
    + destruct (decide (i = id)) as [->|Hne].
      * right; right. exists (FEnqueue l'). assert (x = l0) as -> by congruence. split; [by left|done].
      * left. exists i, x. cbn. by rewrite lookup_insert_ne.
    + right. destruct Hcov as [(x & Hx & Hpx & Hrx & Hf)|(f & Hin & Hh)].
      * left. exists x. split_and!; [done..|]. intros [(it & l & He & _)|Hfin]%finishing_cons; done.
      * right. exists f. split; [by right|done].
Qed.

Lemma inv_enqueued X l s s' fs d : revoke_enqueue l s = (Ok tt, s') ->
  inv X (mkSys s (FEnqueue l :: fs) d) -> inv X (mkSys s' fs d).
Proof.
  unfold revoke_enqueue. intros Hr HI. destruct (Enqueue _ _) as [[e|] q] eqn:Hq'; [done|]. injection Hr as <-.
  pose proof (enqueue_ok _ _ _ Hq') as Hen.
  destruct HI as [Hk Ho Hc Hq Hw Hi Hu Hlv]. cbn in *.
  destruct (Hw _ (l_ID l) (list_elem_of_here _ _) eq_refl) as [Hd Hno].
  destruct (Hq l (list_elem_of_here _ _)) as (l' & Hl' & Hs').
  assert (Hown : forall g, g ∈ fs -> f_owner g <> Some (l_ID l)) by (intros g; by apply (nodup_owner (FEnqueue l) fs)).
  assert (Hit : forall x, item (with_queue q s) fs x -> x = item_of l \/ item s (FEnqueue l :: fs) x).
  { intros x [[->|[_ Hx]]%Hen|Hx]; [by left|right; by left|right; apply item_cons; right; by right]. }
  split; cbn; try done.
  - by apply NoDup_cons in Ho as [_ Ho].
  - intros p r t k i c Hin. eapply Hc. by right.
  - intros x Hin. apply Hq. by right.
  - intros f i Hin Hf. destruct (Hw f i (list_elem_of_further _ _ _ Hin) Hf) as [Hd' Hx]. split; [done|].
    intros x [->|Hx']%Hit; [|by apply Hx]. cbn. intros He. apply (Hown _ Hin). by rewrite Hf, He.
  - intros x [->|Hx]%Hit; [|by apply Hi]. cbn. split; [done|]. congruence.
  - intros x x' [->|Hx]%Hit [->|Hx']%Hit Heq; [done| | |by apply Hu].
    + by destruct (Hno x').
    + by destruct (Hno x).
  - intros p ref Hp. destruct (Hlv p ref Hp) as [|[(i & x & Hx & Ha)|[(x & Hx & Hpx & Hrx & Hf)|(f & [->|Hin]%elem_of_cons & Hh)]]]; [by left|right..].
    + left. by exists i, x.
    + right; left. exists x. cbn. rewrite Hen. split_and!; [|done..|].
      * right. split; [apply (Hno x); by left|done].
      * intros Hfin. apply Hf, finishing_cons. by right.
    + right; left. exists (item_of l). cbn. rewrite Hen. destruct Hh as [<- <-]. split_and!; [by left|done..|].
      intros (it & k & Hin & He). apply (Hno it); [|done]. apply item_cons. right; right. apply elem_items.
      exists (FDone it k). split; [done|by left].
    + right; right. by exists f.
Qed.

Lemma inv_drained X it l ok s s' fs d : drain_revoke it s = (ok, s') ->
  inv X (mkSys s (FDrain (it :: l) :: fs) d) -> inv X (mkSys s' ((if ok : bool then FDone it l else FDrain l) :: fs) d).
Proof.
  unfold drain_revoke. intros Hr HI.
  assert (Hs : engine s' = engine s /\ queue s' = queue s /\ (forall p ref, live (backend s') p ref -> live (backend s) p ref) /\
               (ok = true -> ~ live (backend s') (ri_Provider it) (ri_BackendRef it))).
  { destruct (negb _); [by injection Hr as <- <-|]. destruct (BackendRevoke _ _ _) as [e b] eqn:Hb. injection Hr as <- <-. cbn.
    split_and!; [done..|intros p ref; by apply (revoke_live _ _ _ _ _ Hb)|]. destruct e; [done|]. intros _. by apply (revoke_ok _ _ _ _ Hb). }
  destruct Hs as (He & Hq & Hlive & Hdead).
  eapply inv_weaken; [exact HI|..]; try done.
  - intros g Hg [->|Hin]%elem_of_cons; [by destruct ok|by right].
  - pose proof (inv_owners _ _ HI) as Ho. by destruct ok.
  - intros x. rewrite !item_cons. unfold item. rewrite Hq. destruct ok; [done|]. intros [Hx|Hx]; [left; by right|by right].
  - intros p ref Hp. destruct (inv_live _ _ HI p ref (Hlive _ _ Hp)) as [|Hc]; [by left|right]. revert Hc. apply covered_mono; cbn.
    + done.
    + intros x Hpx Hrx Hx Hn. rewrite Hq. split; [done|]. intros [(it' & k & Hf & Hid)|Hfin]%finishing_cons; [|by apply Hn, finishing_cons; right].
      destruct ok; [|done]. injection Hf as <- _. apply (Hdead eq_refl).
      assert (it = x) as -> by (apply (inv_items _ _ HI); [apply item_cons; left; by left|by left|done]). by rewrite Hpx, Hrx.
    + intros g [->|Hin]%elem_of_cons Hg; [done|by right].
Qed.

Lemma inv_done X it l res s s' fs d : drain_done it s = (res, s') ->
  inv X (mkSys s (FDone it l :: fs) d) -> inv X (mkSys s' (match res with Ok _ => FDrain l :: fs | Err _ => fs end) d).
Proof.
  unfold drain_done. intros Hr HI.
  assert (Hs : engine s' = engine s /\ backend s' = backend s /\
    (forall x, queued (queue s') x -> queued (queue s) x) /\
    (forall x, queued (queue s) x -> ri_LeaseID x <> ri_LeaseID it -> queued (queue s') x)).
  { destruct (DoneItem _ _) as [[e|] q] eqn:Hq; injection Hr as <- <-; cbn; split_and!; try done; intros x Hx.
    - by rewrite (done_err _ _ _ _ Hq) in Hx.
    - by rewrite (done_err _ _ _ _ Hq).
    - by rewrite (done_ok _ _ _ Hq) in Hx; destruct Hx.
    - by rewrite (done_ok _ _ _ Hq). }
  destruct Hs as (He & Hb & Hsub & Hsup).
  assert (Hkeep : inv X (mkSys s' (FDrain l :: fs) d)).
  { eapply inv_weaken; [exact HI|..]; try done.
    - intros g Hg [->|Hin]%elem_of_cons; [done|by right].
    - apply (inv_owners _ _ HI).
    - intros x. rewrite !item_cons. intros [Hx|[Hx|Hx]]; [left; by right|right; left; auto|right; by right].
    - intros p ref Hp. rewrite Hb in Hp. destruct (inv_live _ _ HI p ref Hp) as [|Hc]; [by left|right]. revert Hc. apply covered_mono; cbn.
      + done.
      + intros x _ _ Hx Hn. split.
        * apply Hsup; [done|]. intros Hid. apply Hn, finishing_cons. left. by exists it, l.
        * intros [(it' & k & Hf & _)|Hfin]%finishing_cons; [done|]. apply Hn, finishing_cons. by right.
      + intros g [->|Hin]%elem_of_cons Hg; [done|by right]. }
  destruct res; [done|]. by apply inv_drop in Hkeep; [|done|intros ? ? ?].
Qed.

Lemma inv_pending X items s fs d : Pending (queue s) = Ok items ->
  inv X (mkSys s fs d) -> inv X (mkSys s (FDrain items :: fs) d).
Proof. intros Hp. apply inv_begin; try done. intros x Hx. left. by apply (pending_ok _ _ Hp). Qed.

Lemma inv_call X y y' : call_step y y' -> inv X y -> inv X y'.
Proof.
  destruct y as [s fl d]. intros Hs HI. destruct Hs; cbn [st flights drawn] in *;
    repeat match goal with HP : _ ≡ₚ _ |- _ => apply (inv_front _ (mkSys s fl d) _ _ HP) in HI; clear HP; cbn in HI end.
  - apply inv_begin; try done. intros x Hx. by apply elem_of_nil in Hx.
  - apply inv_drop in HI; [|done|by intros ? ? ?]. by eapply inv_generate.
  - by eapply inv_refused.
  - by eapply inv_committed.
  - by eapply inv_renewed.
  - by eapply inv_marked.
  - by eapply inv_enqueued.
  - by apply inv_pending.
  - by eapply inv_drained.
  - by eapply inv_done.
  - by apply inv_drop in HI; [|done|intros ? ? ?].
Qed.

(** A process that starts on a queue of earlier revocations, whose ids are [ids]. *)
Definition start (q : Q) (b : B) (ids : list string) : sys := mkSys (mkState New q b) [] ids.

Definition known (q : Q) (ids : list string) : Prop :=
  (forall x, queued q x -> ri_LeaseID x ∈ ids) /\
  forall x x', queued q x -> queued q x' -> ri_LeaseID x = ri_LeaseID x' -> x = x'.

Lemma inv_start q b ids : known q ids -> inv (live b) (start q b ids).
Proof.
  intros [Hk Hu].
  assert (Hq : forall x, item (mkState New q b) [] x -> queued q x) by (intros x [Hx|Hx]; [done|by apply elem_of_nil in Hx]).
  split; cbn; try done.
  - constructor.
  - intros l Hin. by apply elem_of_nil in Hin.
  - intros f id Hin. by apply elem_of_nil in Hin.
  - intros x Hx. split; [auto|done].
  - auto.
  - auto.
Qed.

Lemma in_memory_spec s fl d p ref : covered s fl p ref ->
  (p, ref) ∈ in_memory (mkSys s fl d) \/ exists x, queued (queue s) x /\ ri_Provider x = p /\ ri_BackendRef x = ref.
Proof.
  unfold in_memory. cbn. intros [(id & l & Hl & Ha & <- & <-)|[(x & Hx & Hp & Hr & _)|(f & Hf & Hh)]].
  - left. apply elem_of_app. left. apply list_elem_of_fmap. exists (id, l). split; [done|]. apply list_elem_of_In, List.filter_In.
    rewrite <- list_elem_of_In, elem_of_map_to_list. cbn. by rewrite bool_decide_true.
  - right. eauto.
  - left. apply elem_of_app. right. apply list_elem_of_omap. exists f. split; [done|]. destruct f; cbn in *; try done; by destruct Hh as [-> ->].
Qed.

(** A restart keeps the queue. *)
Lemma inv_restart X s fl d : inv X (mkSys s fl d) ->
  inv (fun p ref => (p, ref) ∈ in_memory (mkSys s fl d) \/ X p ref) (mkSys (with_engine New s) [] d).
Proof.
  intros [Hk Ho Hc Hq Hw Hi Hu Hl]. cbn in *.
  assert (Hit : forall x, item (with_engine New s) [] x -> item s fl x) by (intros x [Hx|Hx]; [by left|by apply elem_of_nil in Hx]).
  split; cbn; try done.
  - constructor.
  - intros l Hin. by apply elem_of_nil in Hin.
  - intros f id Hin. by apply elem_of_nil in Hin.
  - intros x Hx%Hit. split; [by apply Hi|done].
  - intros x x' Hx%Hit Hx'%Hit. by apply Hu.
  - intros p ref Hp. destruct (Hl p ref Hp) as [|Hcov]; [left; by right|].
    destruct (in_memory_spec s fl d p ref Hcov) as [|(x & Hx & <- & <-)]; [left; by left|right; right; left].
    exists x. split_and!; try done. by intros (it & l & Hin%elem_of_nil & _).
Qed.

(** A lease whose item the queue refused keeps its mark. *)
Lemma inv_enqueue_failed X l e s s' fs d : revoke_enqueue l s = (Err e, s') -> inv X (mkSys s (FEnqueue l :: fs) d) ->
  inv (fun p ref => (p, ref) = (l_Provider l, l_BackendRef l) \/ X p ref) (mkSys s' fs d).
Proof.
  unfold revoke_enqueue. intros Hr [Hk Ho Hc Hq Hw Hi Hu Hl]. destruct (Enqueue _ _) as [[e'|] q] eqn:Hen; [|done]. injection Hr as _ <-.
  pose proof (enqueue_err _ _ _ _ Hen) as Hsame. cbn in *.
  assert (Hit : forall x, item (with_queue q s) fs x -> item s (FEnqueue l :: fs) x).
  { intros x [Hx|Hx]; [left; cbn in Hx; by rewrite Hsame in Hx|apply item_cons; right; by right]. }
  split; cbn; try done.
  - by apply (nodup_tail (FEnqueue l)).
  - intros p r t k i c Hin. eapply Hc. by right.
  - intros x Hin. apply Hq. by right.
  - intros f i Hin Hf. destruct (Hw f i (list_elem_of_further _ _ _ Hin) Hf) as [Hd Hx]. split; [done|]. intros x Hx'%Hit. by apply Hx.
  - intros x Hx%Hit. by apply Hi.
  - intros x x' Hx%Hit Hx'%Hit. by apply Hu.
  - intros p ref Hp. destruct (Hl p ref Hp) as [|[Ha|[(x & Hx & Hpx & Hrx & Hf)|(f & [->|Hin]%elem_of_cons & Hh)]]]; [left; by right| | | |].
    + right; by left.
    + right; right; left. exists x. cbn. rewrite Hsame. split_and!; [done..|]. intros Hfin. apply Hf, finishing_cons. by right.
    + left; left. by destruct Hh as [-> ->].
    + right; right; right. by exists f.
Qed.

(** What the engine does not answer for: what was there before, and what was given up. *)
Definition excused (b : B) (g : list (string * string)) (p ref : string) : Prop := live b p ref \/ (p, ref) ∈ g.

Lemma inv_mono (X Y : string -> string -> Prop) y : (forall p ref, X p ref -> Y p ref) -> inv X y -> inv Y y.
Proof. intros HXY [? ? ? ? ? ? ? Hl]. split; try done. intros p ref Hp. destruct (Hl p ref Hp); [left; by apply HXY|by right]. Qed.

Lemma inv_step b y y' : step y y' -> inv (excused b (lost y)) (calls y) -> inv (excused b (lost y')) (calls y').
Proof.
  intros [y1 Hs|l e s' fs HP Hr|] HI; cbn [calls lost].
  - by apply (inv_call _ _ _ Hs).
  - apply (inv_front _ _ _ _ HP) in HI. eapply inv_mono; [|by eapply inv_enqueue_failed].
    intros p ref [[= -> ->]|[?|?]]; [right; by left|by left|right; by right].
  - destruct (calls y) as [s fl d]. eapply inv_mono; [|by apply inv_restart].
    intros p ref [?|[?|?]]; [right; apply elem_of_app; by left|by left|right; apply elem_of_app; by right].
Qed.

Lemma inv_run b y y' : rtc step y y' -> inv (excused b (lost y)) (calls y) -> inv (excused b (lost y')) (calls y').
Proof. induction 1 as [|y y1 y2 Hs _ IH]; [done|]. intros HI. by apply IH, (inv_step _ _ _ Hs). Qed.

Lemma inv_started q b ids y : known q ids -> rtc step (mkSystem (start q b ids) []) y -> inv (excused b (lost y)) (calls y).
Proof. intros Hk Hr. apply (inv_run _ _ _ Hr). eapply inv_mono; [|by apply inv_start]. by left. Qed.

(** Sections of calls are steps. *)
Lemma calls_steps y y' g : rtc call_step y y' -> rtc step (mkSystem y g) (mkSystem y' g).
Proof. induction 1 as [|y y1 y2 Hs _ IH]; [done|]. eapply rtc_l; [exact (step_call (mkSystem y g) y1 Hs)|exact IH]. Qed.

(** C23: a generated credential is never orphaned but by a failure that is on record: from
    the start of a process, however the calls that issue, renew, revoke, expire and drain
    are interleaved, whatever the queue answers and whenever the process restarts, a
    credential that a backend accepts has an active lease, or is queued for revocation and
    not in the hands of a worker that has revoked it, or belongs to a call that will open
    its lease or queue it; unless it is from before the run, or was given up when the
    queue refused its item after the lease was marked, or when the process restarted while
    only its memory knew the credential. *)
Theorem credentials_covered q b ids y : known q ids -> rtc step (mkSystem (start q b ids) []) y ->
  forall p ref, live (backend (st (calls y))) p ref ->
    live b p ref \/ (p, ref) ∈ lost y \/ covered (st (calls y)) (flights (calls y)) p ref.
Proof.
  intros Hk Hr p ref Hp. destruct (inv_live _ _ (inv_started _ _ _ _ Hk Hr) p ref Hp) as [[?|?]|?]; auto.
Qed.

(** ** The worker, alone *)

Lemma revoke_runs id s s' fl d : Revoke id s = (Ok tt, s') -> rtc call_step (mkSys s fl d) (mkSys s' fl d).
Proof.
  unfold Revoke, bind. destruct (revoke_mark id s) as [[[l|]|e] s1] eqn:Hm; intros Hr; [| |done].
  - eapply rtc_l; [by apply (call_mark (mkSys s fl d) id l s1)|]. apply rtc_once.
    by apply (call_enqueue (mkSys s1 (FEnqueue l :: fl) d) l s' fl).
  - unfold revoke_mark in Hm. destruct (leases _ !! id); [|done]. case_bool_decide; [|done].
    injection Hm as <-. by injection Hr as <-.
Qed.

(** A [Revoke] that fails on an active lease gives its credential up. *)
Lemma revoke_fails id l e s s' fl d g : leases (engine s) !! id = Some l -> l_State l = LeaseActive -> Revoke id s = (Err e, s') ->
  rtc step (mkSystem (mkSys s fl d) g) (mkSystem (mkSys s' fl d) ((l_Provider l, l_BackendRef l) :: g)).
Proof.
  unfold Revoke, bind. intros Hl Ha Hr.
  assert (Hm : exists s1, revoke_mark id s = (Ok (Some (set_state LeaseRevoked l)), s1)).
  { unfold revoke_mark. rewrite Hl, bool_decide_false by (by rewrite Ha). by eexists. }
  destruct Hm as [s1 Hm]. rewrite Hm in Hr.
  eapply rtc_l; [exact (step_call (mkSystem (mkSys s fl d) g) _ (call_mark (mkSys s fl d) id _ _ Hm))|]. apply rtc_once.
  exact (step_enqueue_failed (mkSystem (mkSys s1 (FEnqueue (set_state LeaseRevoked l) :: fl) d) g) _ e s' fl (reflexivity _) Hr).
Qed.

Lemma drain_runs items : forall n n' s s' fl d, drain items n s = (Ok n', s') ->
  rtc call_step (mkSys s (FDrain items :: fl) d) (mkSys s' fl d).
Proof.
  induction items as [|it l IH]; intros n n' s s' fl d; cbn.
  - intros [= _ <-]. apply rtc_once. by apply (call_end (mkSys s (FDrain [] :: fl) d)).
  - destruct (drain_revoke it s) as [ok s1] eqn:Hr. intros Hd.
    eapply rtc_l; [by apply (call_revoke (mkSys s (FDrain (it :: l) :: fl) d) it l ok s1 fl)|]. cbn.
    destruct ok; [|by eapply IH]. unfold bind in Hd. destruct (drain_done it s1) as [[[]|e] s2] eqn:Hdn; [|done].
    eapply rtc_l; [by apply (call_done (mkSys s1 (FDone it l :: fl) d) it l (Ok tt) s2 fl)|]. by eapply IH.
Qed.

Lemma run_runs n s s' fl d : RunRevocations s = (Ok n, s') -> rtc call_step (mkSys s fl d) (mkSys s' fl d).
Proof.
  unfold RunRevocations. destruct (Pending _) as [items|e] eqn:Hp; [|done]. intros Hd.
  eapply rtc_l; [by apply (call_pending (mkSys s fl d) items)|]. by eapply drain_runs.
Qed.

Lemma issue_runs provider role ttl key id now l sec s s' fl d :
  Issue cfg provider role ttl key id now s = (Ok (l, Some sec), s') -> id ∉ d ->
  rtc call_step (mkSys s fl d) (mkSys s' fl (id :: d)).
Proof.
  unfold Issue. destruct (issue_check _ _ _ _ _) as [[l0|]|] eqn:Hc; [done| |done].
  destruct (issue_generate _ _ _ _ _) as [[c|] s1] eqn:Hg; [|done].
  destruct (issue_commit _ _ _ _ _ _ _ _ _) as [l1 s2] eqn:Hm. intros [= -> _ ->] Hid.
  eapply rtc_l; [by apply (call_check (mkSys s fl d) provider role ttl key)|].
  eapply rtc_l; [by apply (call_generate (mkSys s (FIssue provider role ttl key :: fl) d) provider role ttl key id c s1 fl)|].
  apply rtc_once. by apply (call_commit (mkSys s1 (FCommit provider role ttl key id c :: fl) (id :: d)) provider role ttl key id c now l s' fl).
Qed.

(** The queue answers, and a registered backend revokes. *)
Record reliable : Prop := mkReliable {
  rel_enqueue it q : (Enqueue it q).1 = None;
  rel_pending q : exists l, Pending q = Ok l;
  rel_done id q : (DoneItem id q).1 = None;
  rel_revoke p r b : registered p = true -> (BackendRevoke p r b).1 = None
}.

Lemma revoke_reliable id (s : State) : reliable -> is_Some (leases (engine s) !! id) ->
  exists s', Revoke id s = (Ok tt, s') /\
    leases (engine s') = alter (set_state LeaseRevoked) id (leases (engine s)).
Proof.
  intros Hrel [l Hl]. unfold Revoke, bind, revoke_mark. rewrite Hl. case_bool_decide as Ha.
  - exists s. split; [done|]. apply map_eq. intros i. destruct (decide (i = id)) as [->|Hne].
    + rewrite lookup_alter_eq, Hl. cbn. f_equal. destruct l; cbn in Ha; by subst.
    + by rewrite lookup_alter_ne.
  - unfold revoke_enqueue. pose proof (rel_enqueue Hrel (item_of (set_state LeaseRevoked l)) (queue s)) as He.
    cbn in *. destruct (Enqueue _ _) as [e q]. cbn in He. subst e. eexists. split; [done|]. cbn.
    apply map_eq. intros i. destruct (decide (i = id)) as [->|Hne].
    + by rewrite lookup_insert_eq, lookup_alter_eq, Hl.
    + by rewrite lookup_insert_ne, lookup_alter_ne.
Qed.

Lemma revoke_all_reliable ids : reliable -> forall (s : State) fl d, (forall id, id ∈ ids -> is_Some (leases (engine s) !! id)) ->
  exists s', revoke_all ids s = (Ok tt, s') /\ rtc call_step (mkSys s fl d) (mkSys s' fl d) /\
    (forall i l, leases (engine s') !! i = Some l -> l_State l = LeaseActive -> leases (engine s) !! i = Some l /\ i ∉ ids).
Proof.
  intros Hrel. induction ids as [|id ids IH]; intros s fl d Hin.
  - exists s. split_and!; [done..|]. intros i l Hl _. split; [done|]. apply not_elem_of_nil.
  - destruct (revoke_reliable id s Hrel) as (s1 & Hr & Hl1); [apply Hin; by left|].
    destruct (IH s1 fl d) as (s' & Hr' & Hrun & Hact).
    + intros j Hj. rewrite Hl1, lookup_alter_is_Some. apply Hin. by right.
    + exists s'. cbn. unfold bind. rewrite Hr. split_and!; [done|etrans; [by eapply revoke_runs|done]|].
      intros i l Hl Ha. destruct (Hact i l Hl Ha) as [Hl' Hn]. rewrite Hl1 in Hl'.
      apply lookup_alter_Some in Hl' as [(-> & l0 & _ & ->)|[Hne Hl']]; [done|]. split; [done|]. set_solver.
Qed.

Lemma drain_reliable items : reliable -> forall n (s : State), exists n' s', drain items n s = (Ok n', s') /\ engine s' = engine s /\
  forall x, queued (queue s') x -> queued (queue s) x /\ ~ (registered (ri_Provider x) = true /\ x ∈ items).
Proof.
  intros Hrel. induction items as [|it l IH]; intros n s.
  - exists n, s. split_and!; [done..|]. intros x Hx. split; [done|]. by intros [_ ?%elem_of_nil].
  - cbn. unfold drain_revoke. destruct (registered (ri_Provider it)) eqn:Hreg; cbn.
    + pose proof (rel_revoke Hrel _ (ri_BackendRef it) (backend s) Hreg) as Hb.
      destruct (BackendRevoke _ _ _) as [e b]. cbn in Hb. subst e. unfold bind, drain_done. cbn.
      pose proof (rel_done Hrel (ri_LeaseID it) (queue s)) as Hd.
      destruct (DoneItem _ _) as [e q] eqn:Hdn. cbn in Hd. subst e.
      destruct (IH (n + 1) (with_queue q (with_backend b s))) as (n' & s' & Hr & He & Hq).
      exists n', s'. split_and!; [done..|]. intros x Hx. destruct (Hq x Hx) as [Hq1 Hq2]. cbn in Hq1.
      rewrite (done_ok _ _ _ Hdn) in Hq1. destruct Hq1 as [Hne Hq1]. split; [done|]. intros [Hr' [->|Hin]%elem_of_cons]; [done|auto].
    + destruct (IH n s) as (n' & s' & Hr & He & Hq). exists n', s'. split_and!; [done..|]. intros x Hx. destruct (Hq x Hx) as [Hq1 Hq2].
      split; [done|]. intros [Hr' [->|Hin]%elem_of_cons]; [congruence|auto].
Qed.

(** No call in progress. *)
Lemma covered_idle (s : State) p ref : covered s [] p ref ->
  (exists id l, leases (engine s) !! id = Some l /\ l_State l = LeaseActive /\ l_Provider l = p /\ l_BackendRef l = ref) \/
  exists x, queued (queue s) x /\ ri_Provider x = p.
Proof. intros [|[(x & Hx & Hp & _)|(f & Hf & _)]]; [by left|right; by exists x|by apply elem_of_nil in Hf]. Qed.

(** C24: a tick of the worker ends what has expired: in an idle state of any run, restarts
    and refusals of the queue included, with a queue that now answers and registered
    backends that revoke, [Tick] succeeds whatever the order in which the leases are
    walked, and then every credential that a registered backend accepts, other than those
    from before the run and those given up in it, has an active lease that has not
    expired. *)
Theorem tick_ends_expired q b ids y order now : known q ids -> rtc step (mkSystem (start q b ids) []) y ->
  flights (calls y) = [] -> reliable ->
  (forall id, is_Some (leases (engine (st (calls y))) !! id) <-> id ∈ order) ->
  exists counts s', Tick order now (st (calls y)) = (Ok counts, s') /\
    forall p ref, registered p = true -> live (backend s') p ref ->
      live b p ref \/ (p, ref) ∈ lost y \/
      exists id l, leases (engine s') !! id = Some l /\ l_State l = LeaseActive /\ l_Provider l = p /\ l_BackendRef l = ref /\
                   now < l_ExpiresAt l.
Proof.
  destruct y as [[s fl d] g]. cbn. intros Hk Hrun -> Hrel Hord.
  destruct (revoke_all_reliable (due_ids order now s) Hrel s [] d) as (s1 & Hr & Hrun1 & Hact).
  { intros id [_ Hid]%list_elem_of_In%List.filter_In. by destruct (leases _ !! id). }
  destruct (rel_pending Hrel (queue s1)) as [items Hp].
  destruct (drain_reliable items Hrel 0 s1) as (n & s' & Hd & He & Hq).
  assert (Hrr : RunRevocations s1 = (Ok n, s')) by (unfold RunRevocations; by rewrite Hp).
  exists (Z.of_nat (length (due_ids order now s)), n), s'. split.
  { unfold Tick, ExpireDue, bind. by rewrite Hr, Hrr. }
  intros p ref Hreg Hlive.
  assert (HI : inv (excused b g) (mkSys s' [] d)).
  { apply (inv_started q b ids (mkSystem (mkSys s' [] d) g) Hk). etrans; [exact Hrun|]. apply calls_steps.
    etrans; [exact Hrun1|]. by eapply run_runs. }
  destruct (inv_live _ _ HI p ref Hlive) as [[?|?]|Hc]; [by left|right; by left|right; right].
  apply covered_idle in Hc as [(i & l & Hl & Ha & Hpp & Hrr')|(x & Hx & <-)].
  - exists i, l. split_and!; try done. cbn in Hl. rewrite He in Hl. destruct (Hact i l Hl Ha) as [Hl0 Hn].
    destruct (Z.ltb_spec now (l_ExpiresAt l)) as [|Hge]; [done|]. destruct Hn. apply list_elem_of_In, List.filter_In.
    split; [apply list_elem_of_In, Hord; by eexists|]. rewrite Hl0, bool_decide_true; [|done]. cbn.
    by destruct (Z.ltb_spec now (l_ExpiresAt l)); [lia|].
  - destruct (Hq x Hx) as [Hx1 Hn]. destruct Hn. split; [done|]. by apply (pending_ok _ _ Hp).
Qed.

(** ** What is lost *)

(** Nothing of the engine, the queue or a call speaks of the drawn id as of something
    to revoke. *)
Record gone (id : string) (y : sys) : Prop := mkGone {
  gone_drawn : id ∈ drawn y;
  gone_keys i l : leases (engine (st y)) !! i = Some l -> l_ID l = i;
  gone_lease l : leases (engine (st y)) !! id = Some l -> l_State l = LeaseRevoked;
  gone_item x : item (st y) (flights y) x -> ri_LeaseID x <> id;
  gone_owner f : f ∈ flights y -> f_owner f <> Some id
}.

Lemma gone_front id y f fs : flights y ≡ₚ f :: fs -> gone id y -> gone id (mkSys (st y) (f :: fs) (drawn y)).
Proof.
  destruct y as [s fl d]. cbn. intros HP [Hd Hk Hl Hx Ho]. cbn in *. split; cbn; try done.
  - intros x Hit. apply Hx. revert Hit. unfold item. by rewrite HP.
  - intros g. rewrite <- HP. apply Ho.
Qed.

(** The leases, items and owners stay or shrink. *)
Lemma gone_weaken id s fl d s' fl' d' : gone id (mkSys s fl d) -> d ⊆ d' -> engine s' = engine s ->
  (forall x, item s' fl' x -> item s fl x \/ ri_LeaseID x <> id) -> (forall f, f ∈ fl' -> f ∈ fl \/ f_owner f <> Some id) ->
  gone id (mkSys s' fl' d').
Proof.
  intros [Hd Hk Hl Hx Ho] Hsub He Hit Hf. cbn in *. split; cbn; rewrite ?He; auto.
  - intros x Hin. destruct (Hit x Hin); auto.
  - intros f Hin. destruct (Hf f Hin); auto.
Qed.

Lemma gone_leases id s fl d m idm : gone id (mkSys s fl d) ->
  (forall i l, m !! i = Some l -> l_ID l = i /\ (i = id -> l_State l = LeaseRevoked)) ->
  gone id (mkSys (with_engine (mkEngine m idm) s) fl d).
Proof.
  intros [Hd Hk Hl Hx Ho] Hm. cbn in *. split; cbn; try done.
  - intros i l Hi. by destruct (Hm i l Hi).
  - intros l Hi. by destruct (Hm id l Hi); auto.
Qed.

Lemma gone_enqueue id l res s s' fs d : revoke_enqueue l s = (res, s') ->
  gone id (mkSys s (FEnqueue l :: fs) d) -> gone id (mkSys s' fs d).
Proof.
  unfold revoke_enqueue. intros Hr HG.
  assert (Hne : l_ID l <> id) by (intros He; apply (gone_owner _ _ HG (FEnqueue l)); [by left|cbn; by rewrite He]).
  destruct (Enqueue _ _) as [e q] eqn:Hq.
  assert (s' = with_queue q s) as -> by (destruct e; by injection Hr).
  apply (gone_weaken _ _ _ _ (with_queue q s) fs d HG); try done.
  - intros x [Hx|Hx]; [|left; apply item_cons; right; by right]. destruct e as [e|]; cbn in Hx.
    + rewrite (enqueue_err _ _ _ _ Hq) in Hx. left. by left.
    + apply (enqueue_ok _ _ _ Hq) in Hx as [->|[_ Hx]]; [by right|left; by left].
  - intros f Hin. left. by right.
Qed.

Lemma gone_mark id i l s s' fs d : revoke_mark i s = (Ok (Some l), s') ->
  gone id (mkSys s fs d) -> gone id (mkSys s' (FEnqueue l :: fs) d).
Proof.
  unfold revoke_mark. intros Hr HG. destruct (leases (engine s) !! i) as [l0|] eqn:Hl; [|done].
  case_bool_decide as Ha; [done|]. injection Hr as <- <-.
  assert (Hi : l_ID l0 = i) by apply (gone_keys _ _ HG _ _ Hl).
  assert (Hne : i <> id) by (intros ->; by apply Ha, (gone_lease _ _ HG)).
  apply gone_leases.
  - apply (gone_weaken _ _ _ _ s (FEnqueue (set_state LeaseRevoked l0) :: fs) d HG); try done.
    + intros x [Hx|Hx]%item_cons; [by apply elem_of_nil in Hx|by left].
    + intros f [->|Hin]%elem_of_cons; [right; cbn; congruence|by left].
  - intros j x [[<- <-]|[_ Hx]]%lookup_insert_Some; [done|]. split; [by apply (gone_keys _ _ HG)|].
    intros ->. by apply (gone_lease _ _ HG).
Qed.

Lemma gone_renew id i extend res s s' fs d : Renew i extend s = (res, s') ->
  gone id (mkSys s fs d) -> gone id (mkSys s' fs d).
Proof.
  unfold Renew. intros Hr HG. destruct (leases (engine s) !! i) as [l|] eqn:Hl; [|by injection Hr as _ <-].
  case_bool_decide as Ha; cbn in Hr; injection Hr as Hr0 Hs; subst s'; [|done].
  apply gone_leases; [done|]. intros j x [[<- <-]|[_ Hx]]%lookup_insert_Some.
  - split; [exact (gone_keys _ _ HG _ _ Hl)|]. intros ->. exact (gone_lease _ _ HG _ Hl).
  - split; [by apply (gone_keys _ _ HG)|]. intros ->. by apply (gone_lease _ _ HG).
Qed.

Lemma gone_commit id provider role ttl key i c now l s s' fs d :
  issue_commit cfg provider role ttl key i c now s = (l, s') ->
  gone id (mkSys s (FCommit provider role ttl key i c :: fs) d) -> gone id (mkSys s' fs d).
Proof.
  unfold issue_commit. intros Hr HG. injection Hr as _ <-.
  assert (Hne : i <> id) by (intros ->; by apply (gone_owner _ _ HG (FCommit provider role ttl key id c)); [left|]).
  apply gone_leases.
  - apply (gone_weaken _ _ _ _ s fs d HG); try done.
    + intros x Hx. left. apply item_cons. by right.
    + intros f Hin. left. by right.
  - intros j x [[<- <-]|[_ Hx]]%lookup_insert_Some; [done|]. split; [by apply (gone_keys _ _ HG)|].
    intros ->. by apply (gone_lease _ _ HG).
Qed.

Lemma gone_call id y y' : call_step y y' -> gone id y -> gone id y'.
Proof.
  assert (Hnil : forall x : RevokeItem, x ∉ []) by (intros x; apply not_elem_of_nil).
  destruct y as [s fl d]. intros Hs HG; destruct Hs; cbn [st flights drawn] in *;
    repeat match goal with HP : _ ≡ₚ _ |- _ => apply (gone_front _ (mkSys s fl d) _ _ HP) in HG; clear HP; cbn in HG end.
  - eapply gone_weaken; [exact HG|done|done| |].
    + intros x [Hx|Hx]%item_cons; [by apply Hnil in Hx|by left].
    + intros f [->|Hin]%elem_of_cons; [by right|by left].
  - unfold issue_generate in *. destruct (Generate _ _ _) as [[] b]; simplify_eq/=.
    assert (id ∈ d) by apply (gone_drawn _ _ HG).
    eapply gone_weaken; [exact HG|by right|done| |].
    + intros x Hx. left. by apply item_cons in Hx as [Hx|Hx]; apply item_cons; [by left|by right].
    + intros f [->|Hin]%elem_of_cons; [right; cbn; congruence|left; by right].
  - unfold issue_generate in *. destruct (Generate _ _ _) as [[] b]; simplify_eq/=.
    eapply gone_weaken; [exact HG|by right|done| |].
    + intros x Hx. left. apply item_cons. by right.
    + intros f Hin. left. by right.
  - by eapply gone_commit.
  - by eapply gone_renew.
  - by eapply gone_mark.
  - by eapply gone_enqueue.
  - eapply gone_weaken; [exact HG|done|done| |].
    + intros x [Hx|Hx]%item_cons; [|by left]. left. left. by eapply pending_ok.
    + intros f [->|Hin]%elem_of_cons; [by right|by left].
  - assert (Hs : engine s' = engine s /\ queue s' = queue s).
    { unfold drain_revoke in *. destruct (negb _); [by simplify_eq|]. destruct (BackendRevoke _ _ _). by simplify_eq/=. }
    destruct Hs as [He Hq]. eapply gone_weaken; [exact HG|done|done| |].
    + intros x. rewrite !item_cons. unfold item. rewrite Hq. intros Hx. left. destruct ok; [done|]. destruct Hx as [Hx|Hx]; [left; by right|by right].
    + intros f [->|Hin]%elem_of_cons; [right; by destruct ok|left; by right].
  - assert (Hs : engine s' = engine s /\ forall x, queued (queue s') x -> queued (queue s) x).
    { unfold drain_done in *. destruct (DoneItem _ _) as [[e|] q] eqn:Hq; simplify_eq/=; split; try done; intros x.
      - by rewrite (done_err _ _ _ _ Hq).
      - rewrite (done_ok _ _ _ Hq). tauto. }
    destruct Hs as [He Hsub]. eapply gone_weaken; [exact HG|done|done| |].
    + intros x Hx. left. apply item_cons. destruct res; [apply item_cons in Hx as [Hx|Hx]; [left; by right|]|];
        right; destruct Hx; [left; auto|by right|left; auto|by right].
    + intros f Hin. destruct res; [apply elem_of_cons in Hin as [->|Hin]; [by right|]|]; left; by right.
  - eapply gone_weaken; [exact HG|done|done| |].
    + intros x Hx. left. apply item_cons. by right.
    + intros f Hin. left. by right.
Qed.

Lemma gone_step id y y' : step y y' -> gone id (calls y) -> gone id (calls y').
Proof.
  intros [y1 Hs|l e s' fs HP Hr|] HG; cbn [calls].
  - by eapply gone_call.
  - apply (gone_front _ _ _ _ HP) in HG. by eapply gone_enqueue.
  - split; cbn; try done.
    + apply (gone_drawn _ _ HG).
    + intros x [Hx|Hx]; [apply (gone_item _ _ HG); by left|by apply elem_of_nil in Hx].
    + intros f Hin. by apply elem_of_nil in Hin.
Qed.

Lemma gone_run id y y' : rtc step y y' -> gone id (calls y) -> gone id (calls y').
Proof. induction 1 as [|y y1 y2 Hs _ IH]; [done|]. intros HG. by apply IH, (gone_step _ _ _ Hs). Qed.

(** An id that nothing speaks of is not revoked, by any call. *)
Lemma gone_revoke id y : gone id y -> (Revoke id (st y)).2 = st y.
Proof.
  intros HG. unfold Revoke, bind, revoke_mark. destruct (leases (engine (st y)) !! id) as [l|] eqn:Hl; [|done].
  by rewrite bool_decide_true; [|by apply (gone_lease _ _ HG)].
Qed.

Lemma gone_due id y order now : gone id y -> id ∉ due_ids order now (st y).
Proof.
  intros HG [_ Hin]%list_elem_of_In%List.filter_In. destruct (leases (engine (st y)) !! id) as [l|] eqn:Hl; [|done].
  by rewrite bool_decide_false in Hin; [|rewrite (gone_lease _ _ HG _ Hl)].
Qed.

(** how a credential is lost: in a state of any run, let a lease be active, and
    either [Revoke] fails because the queue does not take the item, or the process
    restarts.  The backend still accepts what it did, and in every later state, later
    faults included, neither the queue nor a worker knows an item of the lease, [Revoke]
    of its id changes nothing, and no expiry sweep finds it. *)
Theorem revocation_lost q b ids y g id l s' fl : known q ids -> rtc step (mkSystem (start q b ids) []) (mkSystem y g) ->
  leases (engine (st y)) !! id = Some l -> l_State l = LeaseActive ->
  (exists e, Revoke id (st y) = (Err e, s')) /\ fl = flights y \/ s' = with_engine New (st y) /\ fl = [] ->
  backend s' = backend (st y) /\
  forall y', rtc step (mkSystem (mkSys s' fl (drawn y)) g) y' ->
    (forall x, item (st (calls y')) (flights (calls y')) x -> ri_LeaseID x <> id) /\
    (Revoke id (st (calls y'))).2 = st (calls y') /\ forall order now, id ∉ due_ids order now (st (calls y')).
Proof.
  intros Hk Hrun Hl Ha Hlost. destruct y as [s fs d]. cbn in *.
  pose proof (inv_started _ _ _ _ Hk Hrun) as HI. cbn in HI.
  destruct (unowned _ _ _ _ _ _ HI Hl Ha) as [Hown Hno]. destruct (inv_key _ _ HI _ _ Hl) as [Hid Hd]. cbn in Hd.
  assert (HG : backend s' = backend s /\ gone id (mkSys s' fl d)).
  { destruct Hlost as [[[e Hr] ->]|[-> ->]].
    - unfold Revoke, bind, revoke_mark in Hr. rewrite Hl, bool_decide_false in Hr; [|by rewrite Ha].
      unfold revoke_enqueue in Hr. destruct (Enqueue _ _) as [[e'|] q'] eqn:Hq; [|done].
      injection Hr as _ <-. split; [done|]. split; cbn; try done.
      + intros i x [[<- <-]|[_ Hx]]%lookup_insert_Some; [exact (proj1 (inv_key _ _ HI _ _ Hl))|by apply (inv_key _ _ HI)].
      + intros x. rewrite lookup_insert_eq. by intros [= <-].
      + intros x [Hx|Hx]; apply Hno; [left|by right]. cbn in Hx. by rewrite (enqueue_err _ _ _ _ Hq) in Hx.
    - split; [done|]. split; cbn; try done.
      + intros x [Hx|Hx]; [apply Hno; by left|by apply elem_of_nil in Hx].
      + intros f Hin. by apply elem_of_nil in Hin. }
  destruct HG as [Hb HG]. split; [done|]. intros y' Hr. apply (gone_run id) in Hr; [|done].
  split_and!; [apply (gone_item _ _ Hr)|by apply gone_revoke|intros order now; by apply gone_due].
Qed.

End Spec.
Arguments sys : clear implicits.
Arguments system : clear implicits.

(** ** A database whose users are the credentials, and a queue that can be down *)

Definition Users : Type := gset (string * string).

#[export] Instance Users_providers : Providers Users := {
  registered p := String.eqb p "db";
  Generate p req b := (Ok (mkCredential (gr_LeaseID req) "password"), {[(p, gr_LeaseID req)]} ∪ b);
  BackendRevoke p r b := (None, b ∖ {[(p, r)]});
  live b p ref := (p, ref) ∈ b
}.

#[export] Instance Users_laws : ProvidersLaws Users.
Proof.
  split; cbn.
  - intros p req b b' res [= <- <-] p' ref [[= -> ->]%elem_of_singleton|Hin]%elem_of_union; [right|by left].
    split; [done|]. by eexists.
  - intros p r b b' e [= _ <-] p' ref. set_solver.
  - intros p r b b' [= <-]. set_solver.
Qed.

Definition Outage : Type := bool * MemoryQueue.

#[export] Instance Outage_queue : RevokeQueue Outage := {
  Enqueue it q := if q.1 then (Some "down", q) else let (e, q') := Enqueue it q.2 in (e, (false, q'));
  Pending q := if q.1 then Err "down" else Pending q.2;
  DoneItem id q := if q.1 then (Some "down", q) else let (e, q') := DoneItem id q.2 in (e, (false, q'));
  queued q it := queued q.2 it
}.

#[export] Instance Outage_laws : RevokeQueueLaws Outage.
Proof.
  split; cbn [Enqueue Pending DoneItem queued Outage_queue].
  - intros it [[] q] q' He; [done|]. cbn [fst snd] in *. destruct (Enqueue it q) as [e q1] eqn:Hq. injection He as -> <-. by apply (enqueue_ok it q q1).
  - intros it [[] q] e q' He; [by injection He as _ <-|]. cbn [fst snd] in *. destruct (Enqueue it q) as [e1 q1] eqn:Hq.
    injection He as -> <-. by apply (enqueue_err it q e q1).
  - intros [[] q] l He; [done|]. by apply (pending_ok q l).
  - intros id [[] q] q' He; [done|]. cbn [fst snd] in *. destruct (DoneItem id q) as [e q1] eqn:Hq. injection He as -> <-. by apply (done_ok id q q1).
  - intros id [[] q] e q' He; [by injection He as _ <-|]. cbn [fst snd] in *. destruct (DoneItem id q) as [e1 q1] eqn:Hq.
    injection He as -> <-. by apply (done_err id q e q1).
Qed.

Definition demo_cfg : Config := mkConfig "t" None.

(** Two leases, of ten and of a hundred seconds. *)
Definition one_lease {Q} `{RevokeQueue Q} (q : Q) : DynSecret.State Q Users :=
  (Issue demo_cfg "db" "ro" 10 "" "lease-1" 0 (mkState New q ∅)).2.
Definition two_leases {Q} `{RevokeQueue Q} (q : Q) : DynSecret.State Q Users :=
  (Issue demo_cfg "db" "ro" 100 "k" "lease-2" 0 (one_lease q)).2.

Lemma two_leases_run {Q} `{RevokeQueueLaws Q} (q : Q) :
  rtc (step demo_cfg) (mkSystem (start q (∅ : Users) []) []) (mkSystem (mkSys (two_leases q) [] ["lease-2"; "lease-1"]) []).
Proof.
  apply calls_steps. transitivity (mkSys (one_lease q) [] ["lease-1"]).
  - eapply (issue_runs demo_cfg "db" "ro" 10 "" "lease-1" 0); [reflexivity|]. apply not_elem_of_nil.
  - eapply (issue_runs demo_cfg "db" "ro" 100 "k" "lease-2" 0); [reflexivity|]. by intros Hin%list_elem_of_singleton.
Qed.

Lemma known_empty {Q} `{RevokeQueue Q} (q : Q) : (forall x, ~ queued q x) -> known q [].
Proof. intros Hq. split; [intros x Hx|intros x x' Hx]; by destruct (Hq x). Qed.

Lemma memory_known : known NewMemoryQueue [].
Proof. apply known_empty. intros x. cbn. by rewrite lookup_empty. Qed.

Lemma outage_known : known (true, NewMemoryQueue) [].
Proof. apply known_empty. intros x. cbn. by rewrite lookup_empty. Qed.

(** The queue is down when a lease is revoked: the credential is on record as given up. *)
Lemma two_leases_down :
  rtc (step demo_cfg) (mkSystem (start (true, NewMemoryQueue) (∅ : Users) []) [])
    (mkSystem (mkSys (Revoke "lease-1" (two_leases (true, NewMemoryQueue))).2 [] ["lease-2"; "lease-1"]) [("db", "lease-1")]).
Proof.
  etrans; [exact (two_leases_run (true, NewMemoryQueue))|].
  eapply (revoke_fails demo_cfg "lease-1" (mkLease "lease-1" "t" "db" "ro" "lease-1" LeaseActive 0 10)); reflexivity.
Qed.

Lemma credentials_covered_witness : let s := (Revoke "lease-1" (two_leases (true, NewMemoryQueue))).2 in
  (live (backend s) "db" "lease-1" /\
   (live (∅ : Users) "db" "lease-1" \/ ("db", "lease-1") ∈ [("db", "lease-1")] \/ covered s [] "db" "lease-1")) /\
  (live (backend s) "db" "lease-2" /\
   (live (∅ : Users) "db" "lease-2" \/ ("db", "lease-2") ∈ [("db", "lease-1")] \/ covered s [] "db" "lease-2")).
Proof.
  assert (H1 : live (backend (Revoke "lease-1" (two_leases (true, NewMemoryQueue))).2) "db" "lease-1")
    by by change (("db", "lease-1") ∈ backend (Revoke "lease-1" (two_leases (true, NewMemoryQueue))).2); apply (bool_decide_unpack _); vm_compute.
  assert (H2 : live (backend (Revoke "lease-1" (two_leases (true, NewMemoryQueue))).2) "db" "lease-2")
    by by change (("db", "lease-2") ∈ backend (Revoke "lease-1" (two_leases (true, NewMemoryQueue))).2); apply (bool_decide_unpack _); vm_compute.
  split; (split; [assumption|]).
  - exact (credentials_covered demo_cfg _ _ _ _ outage_known two_leases_down _ _ H1).
  - exact (credentials_covered demo_cfg _ _ _ _ outage_known two_leases_down _ _ H2).
Defined.

Lemma memory_reliable : reliable (Q := MemoryQueue) (B := Users).
Proof. split; try done. intros q. by eexists. Qed.

Lemma two_leases_ids id : is_Some (leases (engine (two_leases NewMemoryQueue)) !! id) <-> id ∈ ["lease-1"; "lease-2"].
Proof.
  rewrite <- (elem_of_dom (D := gset string)).
  replace (dom (leases (engine (two_leases NewMemoryQueue)))) with ({["lease-1"; "lease-2"]} : gset string); [set_solver|].
  by vm_compute.
Qed.

(** At fifty seconds the first is due, and is revoked; the second stays. *)
Lemma tick_ends_expired_witness : exists counts s', Tick ["lease-1"; "lease-2"] 50 (two_leases NewMemoryQueue) = (Ok counts, s') /\
  forall p ref, registered p = true -> live (backend s') p ref -> live (∅ : Users) p ref \/ (p, ref) ∈ [] \/
    exists id l, leases (engine s') !! id = Some l /\ l_State l = LeaseActive /\ l_Provider l = p /\ l_BackendRef l = ref /\ 50 < l_ExpiresAt l.
Proof.
  exact (tick_ends_expired demo_cfg _ _ _ (mkSystem (mkSys (two_leases NewMemoryQueue) [] ["lease-2"; "lease-1"]) []) ["lease-1"; "lease-2"] 50
    memory_known (two_leases_run NewMemoryQueue) eq_refl memory_reliable two_leases_ids).
Defined.

Example tick_fifty : (Tick ["lease-1"; "lease-2"] 50 (two_leases NewMemoryQueue)).1 = Ok (1, 1) /\
  (("db", "lease-1") ∉ backend (Tick ["lease-1"; "lease-2"] 50 (two_leases NewMemoryQueue)).2) /\
  (("db", "lease-2") ∈ backend (Tick ["lease-1"; "lease-2"] 50 (two_leases NewMemoryQueue)).2).
Proof. split_and!; [reflexivity|by apply (bool_decide_unpack _); vm_compute..]. Qed.

(** The queue is down when the lease is revoked. *)
Lemma revocation_lost_witness : let s := two_leases (true, NewMemoryQueue) in let s' := (Revoke "lease-1" s).2 in
  backend s' = backend s /\
  forall y', rtc (step demo_cfg) (mkSystem (mkSys s' [] ["lease-2"; "lease-1"]) []) y' ->
    (forall x, item (st (calls y')) (flights (calls y')) x -> ri_LeaseID x <> "lease-1") /\
    (Revoke "lease-1" (st (calls y'))).2 = st (calls y') /\ forall order now, "lease-1" ∉ due_ids order now (st (calls y')).
Proof.
  eapply (revocation_lost demo_cfg (true, NewMemoryQueue) (∅ : Users) [] (mkSys (two_leases (true, NewMemoryQueue)) [] ["lease-2"; "lease-1"]) []
    "lease-1" _ _ [] outage_known (two_leases_run (true, NewMemoryQueue))); [reflexivity..|].
  left. split; [|reflexivity]. eexists. reflexivity.
Defined.

End DynSecretSpec.
