(* ===== verification/Transit.v ===== *)
(** * Encryption as a service

    [src/internal/transit/transit.go]: named, versioned keys that callers use without
    holding them, and the service that keeps one key ring per tenant.  AES-GCM is the
    class of [SealVault]; HMAC and signatures are a class here.  What the code draws,
    keys and nonces, are arguments, [None] when the draw fails; an index beyond a list
    is the value [Panic]. *)

From S2P Require Import Prelude Base64 SealVault.
Open Scope string_scope.
Open Scope list_scope.
Open Scope Z_scope.

Module Transit.
Import SE SealVault Base64.

(** HMAC-SHA256 and locked signers. *)
Class Signing := {
  LockedSigner : Type;
  HMACSHA256 : bytes -> bytes -> bytes;
  SignMessage : LockedSigner -> bytes -> option bytes;
  Public : LockedSigner -> bytes;
  VerifyMessage : bytes -> bytes -> bytes -> bool
}.

Definition KindAEAD : string := "aead".
Definition KindHMAC : string := "hmac".
Definition KindSign : string := "sign".

Inductive TransitErr :=
| KeyExists (name : string) | UnknownKey (name : string) | UnknownKind (kind : string) | DrawFailed
| NotAEAD (name : string) | NotHMAC (name : string) | NotSigning (name : string)
| MalformedCiphertext | BadVersion | BadCiphertextEncoding | UnknownKeyVersion (v : Z)
| TransitCrypto (e : CryptoErr) | SignFailed | VerifyFailed | Panic.

(** [base64.RawStdEncoding]. *)
Definition RawStdEncoding : Encoding := mkEncoding "+" "/" false.

Definition colon : ascii := ":".

(** The text of a ciphertext, and its reader. *)
Definition formatCT (ver : nat) (ct : bytes) : string :=
  "trv:" +:+ GoInt.Itoa (Z.of_nat ver) +:+ ":" +:+ EncodeToString RawStdEncoding (of_bytes ct).

Definition parseCT (s : string) : result TransitErr (Z * bytes) :=
  match GoStrings.SplitN colon 3 (list_ascii_of_string s) with
  | [p0; p1; p2] =>
      if negb (String.eqb (string_of_list_ascii p0) "trv") then Err MalformedCiphertext else
      match GoInt.Atoi p1 with
      | None => Err BadVersion
      | Some ver =>
          match DecodeString RawStdEncoding (string_of_list_ascii p2) with
          | None => Err BadCiphertextEncoding
          | Some ct => Ok (ver, text ct)
          end
      end
  | _ => Err MalformedCiphertext
  end.

Definition CiphertextVersion (ciphertext : string) : result TransitErr Z :=
  match parseCT ciphertext with Ok (ver, _) => Ok ver | Err e => Err e end.

Section Keyring_.
Context `{AE : AEAD} `{SG : Signing}.

(** The lists start with a nil entry, so that versions count from one. *)
Record namedKey := mkKey {
  kind : string; aead : list bytes; hmac : list bytes; sign : list (option LockedSigner); latest : nat
}.

Record Keyring := mkKeyring { tenantID : string; keys : gmap string namedKey; audited : list (string * string) }.

Record KeyInfo := mkInfo { ki_Name : string; ki_Kind : string; ki_Version : nat }.

Definition New (tenant : string) : Keyring := mkKeyring tenant ∅ [].

Definition with_keys (m : gmap string namedKey) (k : Keyring) : Keyring := mkKeyring (tenantID k) m (audited k).
Definition event (ev name : string) (k : Keyring) : Keyring := mkKeyring (tenantID k) (keys k) (audited k ++ [(ev, name)]).

(** [rnd] is what [RandomBytes] returns, [gen] what [GenerateLockedKey] does. *)
Definition new_key (kd : string) (rnd : option bytes) (gen : option LockedSigner) : result TransitErr namedKey :=
  if String.eqb kd KindAEAD then match rnd with Some key => Ok (mkKey kd [[]; key] [] [] 1) | None => Err DrawFailed end
  else if String.eqb kd KindHMAC then match rnd with Some key => Ok (mkKey kd [] [[]; key] [] 1) | None => Err DrawFailed end
  else if String.eqb kd KindSign then match gen with Some s => Ok (mkKey kd [] [] [None; Some s] 1) | None => Err DrawFailed end
  else Err (UnknownKind kd).

Definition CreateKey (name kd : string) (rnd : option bytes) (gen : option LockedSigner) : M Keyring TransitErr unit := fun k =>
  match keys k !! name with
  | Some _ => (Err (KeyExists name), k)
  | None =>
      match new_key kd rnd gen with
      | Err e => (Err e, k)
      | Ok nk => (Ok tt, event "transit.key.created" name (with_keys (<[name := nk]> (keys k)) k))
      end
  end.

Definition Kind (name : string) (k : Keyring) : result TransitErr string :=
  match keys k !! name with Some nk => Ok (kind nk) | None => Err (UnknownKey name) end.

Definition next_key (nk : namedKey) (rnd : option bytes) (gen : option LockedSigner) : result TransitErr namedKey :=
  let v := S (latest nk) in
  if String.eqb (kind nk) KindAEAD then
    match rnd with Some key => Ok (mkKey (kind nk) (aead nk ++ [key]) (hmac nk) (sign nk) v) | None => Err DrawFailed end
  else if String.eqb (kind nk) KindHMAC then
    match rnd with Some key => Ok (mkKey (kind nk) (aead nk) (hmac nk ++ [key]) (sign nk) v) | None => Err DrawFailed end
  else if String.eqb (kind nk) KindSign then
    match gen with Some s => Ok (mkKey (kind nk) (aead nk) (hmac nk) (sign nk ++ [Some s]) v) | None => Err DrawFailed end
  else Ok (mkKey (kind nk) (aead nk) (hmac nk) (sign nk) v).

Definition Rotate (name : string) (rnd : option bytes) (gen : option LockedSigner) : M Keyring TransitErr nat := fun k =>
  match keys k !! name with
  | None => (Err (UnknownKey name), k)
  | Some nk =>
      match next_key nk rnd gen with
      | Err e => (Err e, k)
      | Ok nk' => (Ok (latest nk'), event "transit.key.rotated" name (with_keys (<[name := nk']> (keys k)) k))
      end
  end.

Definition aad_ (k : Keyring) (name : string) (extra : bytes) : bytes := text (tenantID k +:+ "|" +:+ name +:+ "|") ++ extra.

Definition Encrypt (name : string) (plaintext aad nonce : bytes) : M Keyring TransitErr string := fun k =>
  match keys k !! name with
  | None => (Err (NotAEAD name), k)
  | Some nk =>
      if negb (String.eqb (kind nk) KindAEAD) then (Err (NotAEAD name), k) else
      match aead nk !! latest nk with
      | None => (Err Panic, k)
      | Some key =>
          match AESGCMSeal key plaintext (aad_ k name aad) nonce with
          | Err e => (Err (TransitCrypto e), k)
          | Ok ct => (Ok (formatCT (latest nk) ct), event "transit.encrypt" name k)
          end
      end
  end.

Definition Decrypt (name ciphertext : string) (aad : bytes) : M Keyring TransitErr bytes := fun k =>
  match keys k !! name with
  | None => (Err (NotAEAD name), k)
  | Some nk =>
      if negb (String.eqb (kind nk) KindAEAD) then (Err (NotAEAD name), k) else
      match parseCT ciphertext with
      | Err e => (Err e, k)
      | Ok (ver, ct) =>
          if (ver <? 1) || (Z.of_nat (length (aead nk)) <=? ver) then (Err (UnknownKeyVersion ver), k) else
          match aead nk !! Z.to_nat ver with
          | None => (Err Panic, k)
          | Some key =>
              match AESGCMOpen key ct (aad_ k name aad) with
              | Err e => (Err (TransitCrypto e), k)
              | Ok pt => (Ok pt, event "transit.decrypt" name k)
              end
          end
      end
  end.

Definition Rewrap (name ciphertext : string) (aad nonce : bytes) : M Keyring TransitErr string := fun k =>
  match Decrypt name ciphertext aad k with
  | (Err e, k1) => (Err e, k1)
  | (Ok pt, k1) =>
      match Encrypt name pt aad nonce k1 with
      | (Err e, k2) => (Err e, k2)
      | (Ok out, k2) => (Ok out, event "transit.rewrap" name k2)
      end
  end.

Definition HMAC (name : string) (dat : bytes) : M Keyring TransitErr bytes := fun k =>
  match keys k !! name with
  | None => (Err (NotHMAC name), k)
  | Some nk =>
      if negb (String.eqb (kind nk) KindHMAC) then (Err (NotHMAC name), k) else
      match hmac nk !! latest nk with
      | None => (Err Panic, k)
      | Some key => (Ok (HMACSHA256 key dat), event "transit.hmac" name k)
      end
  end.

(** The signature and the public key. *)
Definition Sign (name : string) (message : bytes) : M Keyring TransitErr (bytes * bytes) := fun k =>
  match keys k !! name with
  | None => (Err (NotSigning name), k)
  | Some nk =>
      if negb (String.eqb (kind nk) KindSign) then (Err (NotSigning name), k) else
      match sign nk !! latest nk with
      | Some (Some s) =>
          match SignMessage s message with
          | None => (Err SignFailed, k)
          | Some sg => (Ok (sg, Public s), event "transit.sign" name k)
          end
      | _ => (Err Panic, k)
      end
  end.

Definition Verify (message sg pubDER : bytes) : M Keyring TransitErr unit := fun k =>
  if VerifyMessage pubDER message sg then (Ok tt, event "transit.verify" "signature" k) else (Err VerifyFailed, k).

Definition Keyring_Destroy (k : Keyring) : Keyring := with_keys ∅ k.

(** ** The service *)

Record Service := mkService { rings : gmap string Keyring }.

Definition NewService : Service := mkService ∅.

Definition ring (tenant : string) (s : Service) : Keyring := default (New tenant) (rings s !! tenant).

(** An operation on the ring of a tenant, which is made when there is none. *)
Definition on_ring {A} (tenant : string) (m : M Keyring TransitErr A) : M Service TransitErr A := fun s =>
  let (res, k) := m (ring tenant s) in (res, mkService (<[tenant := k]> (rings s))).

Definition Service_CreateKey (tenant name kd : string) rnd gen : M Service TransitErr KeyInfo := fun s =>
  match on_ring tenant (CreateKey name kd rnd gen) s with
  | (Err e, s') => (Err e, s')
  | (Ok _, s') => (Ok (mkInfo name kd 1), s')
  end.

Definition Service_Rotate (tenant name : string) rnd gen : M Service TransitErr KeyInfo := fun s =>
  match on_ring tenant (Rotate name rnd gen) s with
  | (Err e, s') => (Err e, s')
  | (Ok version, s') =>
      match Kind name (ring tenant s') with
      | Err e => (Err e, s')
      | Ok kd => (Ok (mkInfo name kd version), s')
      end
  end.

Definition Service_Encrypt (tenant name : string) (plaintext aad nonce : bytes) := on_ring tenant (Encrypt name plaintext aad nonce).
Definition Service_Decrypt (tenant name ciphertext : string) (aad : bytes) := on_ring tenant (Decrypt name ciphertext aad).
Definition Service_Rewrap (tenant name ciphertext : string) (aad nonce : bytes) := on_ring tenant (Rewrap name ciphertext aad nonce).
Definition Service_HMAC (tenant name : string) (dat : bytes) := on_ring tenant (HMAC name dat).
Definition Service_Sign (tenant name : string) (message : bytes) := on_ring tenant (Sign name message).
Definition Service_Verify (tenant : string) (message sg pubDER : bytes) := on_ring tenant (Verify message sg pubDER).

Definition Service_Destroy (s : Service) : Service := mkService ∅.

(** ** Runs of the service *)

(** [RandomBytes(32)] gives 32 bytes. *)
Definition drawn (rnd : option bytes) : Prop := forall key, rnd = Some key -> length key = 32%nat /\ Forall is_byte key.

(** Every operation but [Destroy], by any tenant. *)
Inductive step (s s' : Service) : Prop :=
| step_create t name kd rnd gen res : drawn rnd -> Service_CreateKey t name kd rnd gen s = (res, s') -> step s s'
| step_rotate t name rnd gen res : drawn rnd -> Service_Rotate t name rnd gen s = (res, s') -> step s s'
| step_encrypt t name pt aad nonce res : Service_Encrypt t name pt aad nonce s = (res, s') -> step s s'
| step_decrypt t name ct aad res : Service_Decrypt t name ct aad s = (res, s') -> step s s'
| step_rewrap t name ct aad nonce res : Service_Rewrap t name ct aad nonce s = (res, s') -> step s s'
| step_hmac t name dat res : Service_HMAC t name dat s = (res, s') -> step s s'
| step_sign t name message res : Service_Sign t name message s = (res, s') -> step s s'
| step_verify t message sg pub res : Service_Verify t message sg pub s = (res, s') -> step s s'.

(** ** Well-formed rings, and what time does to them *)

Record key_ok (nk : namedKey) : Prop := mkKeyOk {
  ok_first : (1 <= latest nk)%nat;
  ok_aead : kind nk = KindAEAD -> length (aead nk) = S (latest nk);
  ok_keys i key : (1 <= i)%nat -> aead nk !! i = Some key -> length key = 32%nat /\ Forall is_byte key;
  ok_hmac : kind nk = KindHMAC -> length (hmac nk) = S (latest nk);
  ok_sign : kind nk = KindSign -> length (sign nk) = S (latest nk);
  ok_signers i sg : (1 <= i)%nat -> sign nk !! i = Some sg -> is_Some sg
}.

Definition ring_ok (t : string) (k : Keyring) : Prop := tenantID k = t /\ map_Forall (fun _ => key_ok) (keys k).

Definition service_ok (s : Service) : Prop := forall t, ring_ok t (ring t s).

(** A key only gains versions. *)
Record key_later (nk nk' : namedKey) : Prop := mkKeyLater {
  later_kind : kind nk' = kind nk;
  later_latest : (latest nk <= latest nk')%nat;
  later_aead : aead nk `prefix_of` aead nk'
}.

Definition ring_later (k k' : Keyring) : Prop :=
  forall name nk, keys k !! name = Some nk -> exists nk', keys k' !! name = Some nk' /\ key_later nk nk'.

Definition service_later (s s' : Service) : Prop := forall t, ring_later (ring t s) (ring t s').

#[export] Instance key_later_preorder : PreOrder key_later.
Proof.
  split; [by intros nk; split|]. intros a b c [H1 H2 H3] [H1' H2' H3']. split; [congruence|lia|by etrans].
Qed.

#[export] Instance service_later_preorder : PreOrder service_later.
Proof.
  split.
  - intros s t name nk Hn. by exists nk.
  - intros a b c Hab Hbc t name nk Hn. destruct (Hab t name nk Hn) as (nk1 & Hn1 & Hl1).
    destruct (Hbc t name nk1 Hn1) as (nk2 & Hn2 & Hl2). exists nk2. split; [done|by etrans].
Qed.

Lemma ring_here t k s : ring t (mkService (<[t := k]> (rings s))) = k.
Proof. unfold ring. cbn. by rewrite lookup_insert_eq. Qed.

Lemma ring_there t t' k s : t' <> t -> ring t' (mkService (<[t := k]> (rings s))) = ring t' s.
Proof. intros Hne. unfold ring. cbn. by rewrite lookup_insert_ne. Qed.

(** What an operation does to its ring, it does to the service. *)
Lemma on_ring_keeps {A} t (m : M Keyring TransitErr A) s res s' :
  (forall k, ring_ok t k -> ring_ok t (m k).2 /\ ring_later k (m k).2) ->
  on_ring t m s = (res, s') -> service_ok s -> service_ok s' /\ service_later s s'.
Proof.
  unfold on_ring. intros Hm Hr Hs. destruct (m (ring t s)) as [r k] eqn:Hk. injection Hr as _ <-.
  destruct (Hm _ (Hs t)) as [Hok Hl]. rewrite Hk in Hok, Hl.
  split; intros t'; (destruct (decide (t' = t)) as [->|Hne]; [by rewrite ring_here|rewrite ring_there by done]).
  - apply Hs.
  - intros name nk Hn. by exists nk.
Qed.

(** The operations that use keys leave them as they are. *)
Definition same_keys (k k' : Keyring) : Prop := keys k' = keys k /\ tenantID k' = tenantID k.

Lemma same_keeps t k k' : same_keys k k' -> ring_ok t k -> ring_ok t k' /\ ring_later k k'.
Proof.
  intros [Hk Ht] [Ht' Hok]. unfold ring_ok, ring_later. rewrite Hk, Ht. split; [done|]. intros name nk Hn. by exists nk.
Qed.

Lemma Encrypt_same name pt aad nonce k : same_keys k (Encrypt name pt aad nonce k).2.
Proof. unfold Encrypt. by repeat case_match. Qed.

Lemma Decrypt_same name ct aad k : same_keys k (Decrypt name ct aad k).2.
Proof. unfold Decrypt. by repeat case_match. Qed.

Lemma Rewrap_same name ct aad nonce k : same_keys k (Rewrap name ct aad nonce k).2.
Proof.
  unfold Rewrap. pose proof (Decrypt_same name ct aad k) as [Hk Ht]. destruct (Decrypt name ct aad k) as [[pt|e] k1]; [|done].
  pose proof (Encrypt_same name pt aad nonce k1) as [Hk' Ht']. destruct (Encrypt name pt aad nonce k1) as [[out|e] k2]; cbn in *; split; cbn; congruence.
Qed.

Lemma HMAC_same name dat k : same_keys k (HMAC name dat k).2.
Proof. unfold HMAC. by repeat case_match. Qed.

Lemma Sign_same name message k : same_keys k (Sign name message k).2.
Proof. unfold Sign. by repeat case_match. Qed.

Lemma Verify_same message sg pub k : same_keys k (Verify message sg pub k).2.
Proof. unfold Verify. by repeat case_match. Qed.

Lemma new_key_ok kd rnd gen nk : drawn rnd -> new_key kd rnd gen = Ok nk -> key_ok nk.
Proof.
  unfold new_key. intros Hd.
  destruct (String.eqb_spec kd KindAEAD) as [->|_]; [|destruct (String.eqb_spec kd KindHMAC) as [->|_];
    [|destruct (String.eqb_spec kd KindSign) as [->|_]; [|done]]].
  - destruct rnd as [key|]; intros [= <-]. split; try done.
    intros [|[|i]] key' Hi; [lia| |done]. intros [= <-]. by apply Hd.
  - destruct rnd as [key|]; intros [= <-]. split; try done.
  - destruct gen as [sg|]; intros [= <-]. split; try done.
    intros [|[|i]] sg' Hi; [lia| |done]. intros [= <-]. done.
Qed.

Lemma lookup_snoc_cases {A} (l : list A) x i y : (l ++ [x]) !! i = Some y -> l !! i = Some y \/ y = x.
Proof. intros [Hl|[_ Hx]]%lookup_app_Some; [by left|right]. by apply list_lookup_singleton_Some in Hx as [_ ->]. Qed.

Lemma next_key_ok nk rnd gen nk' : drawn rnd -> key_ok nk -> next_key nk rnd gen = Ok nk' -> key_ok nk' /\ key_later nk nk'.
Proof.
  unfold next_key. intros Hd [Hf Ha Hk Hh Hs Hsg].
  destruct (String.eqb_spec (kind nk) KindAEAD) as [Hkd|Hna]; [|destruct (String.eqb_spec (kind nk) KindHMAC) as [Hkd|Hnh];
    [|destruct (String.eqb_spec (kind nk) KindSign) as [Hkd|Hns]]].
  - destruct rnd as [key|]; intros [= <-]. specialize (Ha Hkd). split; split; cbn; rewrite ?Hkd, ?length_app, ?Ha; cbn; try done; try lia.
    + intros i key' Hi Hl. apply lookup_snoc_cases in Hl as [Hl| ->]; [by eapply Hk|by apply Hd].
    + apply prefix_app_r. done.
  - destruct rnd as [key|]; intros [= <-]. specialize (Hh Hkd). split; split; cbn; rewrite ?Hkd, ?length_app, ?Hh; cbn; try done; try lia.
  - destruct gen as [sg|]; intros [= <-]. specialize (Hs Hkd). split; split; cbn; rewrite ?Hkd, ?length_app, ?Hs; cbn; try done; try lia.
    intros i sg' Hi Hl. apply lookup_snoc_cases in Hl as [Hl| ->]; [by eapply Hsg|done].
  - intros [= <-]. split; split; cbn; try done; lia.
Qed.

Lemma CreateKey_keeps t name kd rnd gen k : drawn rnd -> ring_ok t k ->
  ring_ok t (CreateKey name kd rnd gen k).2 /\ ring_later k (CreateKey name kd rnd gen k).2.
Proof.
  intros Hd Hk. pose proof (same_keeps t k k ltac:(done) Hk) as Hsame. unfold CreateKey.
  destruct (keys k !! name) eqn:Hn; [done|]. destruct (new_key kd rnd gen) as [nk|e] eqn:Hnew; [|done].
  destruct Hk as [Ht Hok]. split; cbn.
  - split; [done|]. by apply map_Forall_insert_2; [eapply new_key_ok|].
  - intros name' nk' Hn'. exists nk'. cbn. rewrite lookup_insert_ne by congruence. done.
Qed.

Lemma Rotate_keeps t name rnd gen k : drawn rnd -> ring_ok t k ->
  ring_ok t (Rotate name rnd gen k).2 /\ ring_later k (Rotate name rnd gen k).2.
Proof.
  intros Hd Hk. pose proof (same_keeps t k k ltac:(done) Hk) as Hsame. unfold Rotate.
  destruct (keys k !! name) as [nk|] eqn:Hn; [|done]. destruct (next_key nk rnd gen) as [nk'|e] eqn:Hnext; [|done].
  destruct Hk as [Ht Hok]. destruct (next_key_ok _ _ _ _ Hd (Hok name nk Hn) Hnext) as [Hok' Hl]. split; cbn.
  - split; [done|]. by apply map_Forall_insert_2.
  - intros i x Hx. cbn. destruct (decide (i = name)) as [->|Hne].
    + exists nk'. rewrite lookup_insert_eq. assert (x = nk) as -> by congruence. done.
    + exists x. by rewrite lookup_insert_ne.
Qed.

Lemma step_keeps s s' : step s s' -> service_ok s -> service_ok s' /\ service_later s s'.
Proof.
  intros Hs Hok. destruct Hs as [t name kd rnd gen res Hd Hr|t name rnd gen res Hd Hr|t name pt aad nonce res Hr|t name ct aad res Hr
    |t name ct aad nonce res Hr|t name dat res Hr|t name message res Hr|t message sg pub res Hr].
  - unfold Service_CreateKey in Hr. destruct (on_ring _ _ _) as [r s1] eqn:Ho. assert (s1 = s') as -> by (destruct r; by injection Hr).
    eapply on_ring_keeps; [|exact Ho|done]. intros k. by apply CreateKey_keeps.
  - unfold Service_Rotate in Hr. destruct (on_ring _ _ _) as [r s1] eqn:Ho. assert (s1 = s') as -> by (repeat case_match; by injection Hr).
    eapply on_ring_keeps; [|exact Ho|done]. intros k. by apply Rotate_keeps.
  - eapply on_ring_keeps; [|exact Hr|done]. intros k. apply same_keeps, Encrypt_same.
  - eapply on_ring_keeps; [|exact Hr|done]. intros k. apply same_keeps, Decrypt_same.
  - eapply on_ring_keeps; [|exact Hr|done]. intros k. apply same_keeps, Rewrap_same.
  - eapply on_ring_keeps; [|exact Hr|done]. intros k. apply same_keeps, HMAC_same.
  - eapply on_ring_keeps; [|exact Hr|done]. intros k. apply same_keeps, Sign_same.
  - eapply on_ring_keeps; [|exact Hr|done]. intros k. apply same_keeps, Verify_same.
Qed.

Lemma run_keeps s s' : rtc step s s' -> service_ok s -> service_ok s' /\ service_later s s'.
Proof.
  induction 1 as [|s s1 s' Hs _ IH]; intros Hok; [by split|].
  destruct (step_keeps _ _ Hs Hok) as [Hok1 Hl]. destruct (IH Hok1) as [Hok' Hl']. split; [done|by etrans].
Qed.

Lemma new_ok : service_ok NewService.
Proof. intros t. split; [done|]. apply map_Forall_empty. Qed.

(** ** The ciphertext text *)

Lemma RawStdEncoding_apart : apart RawStdEncoding.
Proof. by apply apart_check. Qed.

Lemma parse_format ver ct : Forall is_byte ct -> Z.of_nat ver < 2 ^ 63 -> parseCT (formatCT ver ct) = Ok (Z.of_nat ver, ct).
Proof.
  intros Hb Hv. unfold parseCT, formatCT. rewrite !GoStrings.list_ascii_app.
  change (list_ascii_of_string "trv:") with (list_ascii_of_string "trv" ++ [colon]).
  rewrite <- !app_assoc. change (list_ascii_of_string ":") with [colon]. cbn [app].
  rewrite (GoStrings.SplitN_app colon 1 (list_ascii_of_string "trv")) by (by repeat constructor).
  rewrite (GoStrings.SplitN_app colon 0) by (apply GoInt.Itoa_digits; [lia|intros d Hd; change (58 <> d); lia]).
  cbn [GoStrings.SplitN]. rewrite !string_of_list_ascii_of_string. cbn [String.eqb Ascii.eqb Bool.eqb negb].
  rewrite GoInt.Atoi_Itoa by lia. rewrite (DecodeString_EncodeToString _ RawStdEncoding_apart). by rewrite text_of_bytes.
Qed.

(** No version overflows an [int]. *)
Definition bounded (s : Service) : Prop :=
  forall t name nk, keys (ring t s) !! name = Some nk -> Z.of_nat (latest nk) < 2 ^ 63.

Lemma bounded_earlier s s' : service_later s s' -> bounded s' -> bounded s.
Proof. intros Hl Hb t name nk Hn. destruct (Hl t name nk Hn) as (nk' & Hn' & [_ Hle _]). specialize (Hb t name nk' Hn'). lia. Qed.

(** The bytes of a request. *)
Definition request (pt aad nonce : bytes) : Prop := Forall is_byte pt /\ Forall is_byte aad /\ Forall is_byte nonce /\ length nonce = nonceSize.

Section Laws.
Context `{!AEADLaws AE} `{!AEADBytes AE}.

(** What [Encrypt] gives: the text of a nonce and a seal under the latest version. *)
Lemma Encrypt_ok t name pt aad nonce k ct : ring_ok t k -> (Encrypt name pt aad nonce k).1 = Ok ct ->
  exists (nk : namedKey) (key : bytes), keys k !! name = Some nk /\ kind nk = KindAEAD /\ aead nk !! latest nk = Some key /\
    length key = 32%nat /\ Forall is_byte key /\ ct = formatCT (latest nk) (nonce ++ gcm_seal key nonce pt (aad_ k name aad)).
Proof.
  intros [_ Hok]. unfold Encrypt. destruct (keys k !! name) as [nk|] eqn:Hn; [|done]. destruct (Hok name nk Hn) as [Hf _ Hk _ _ _].
  destruct (String.eqb_spec (kind nk) KindAEAD) as [Hkd|]; [|done]. cbn [negb].
  destruct (aead nk !! latest nk) as [key|] eqn:Hkey; [|done]. destruct (Hk _ _ Hf Hkey) as [Hlen Hb].
  unfold AESGCMSeal. destruct (Z.eqb_spec (len key) 32); [|done]. cbn. intros [= <-]. by exists nk, key.
Qed.

Lemma Encrypt_total t name pt aad nonce k nk : ring_ok t k -> keys k !! name = Some nk -> kind nk = KindAEAD ->
  exists ct, (Encrypt name pt aad nonce k).1 = Ok ct.
Proof.
  intros [_ Hok] Hn Hkd. destruct (Hok name nk Hn) as [Hf Ha Hk _ _ _]. unfold Encrypt. rewrite Hn, Hkd. cbn.
  destruct (lookup_lt_is_Some_2 (aead nk) (latest nk)) as [key Hkey]; [rewrite (Ha Hkd); lia|]. rewrite Hkey.
  destruct (Hk _ _ Hf Hkey) as [Hlen _]. unfold AESGCMSeal, len. rewrite Hlen. cbn. by eexists.
Qed.

Lemma aad_bytes k name extra : Forall is_byte extra -> Forall is_byte (aad_ k name extra).
Proof. intros He. unfold aad_. apply Forall_app. split; [apply text_bytes|done]. Qed.

(** What [Decrypt] does in a later state with a text of [Encrypt]. *)
Lemma Decrypt_later t k k' name pt aad nonce ct aad' : ring_ok t k -> ring_ok t k' -> ring_later k k' ->
  (forall nk, keys k !! name = Some nk -> Z.of_nat (latest nk) < 2 ^ 63) -> request pt aad nonce ->
  (Encrypt name pt aad nonce k).1 = Ok ct ->
  exists key, length key = 32%nat /\
  (Decrypt name ct aad' k').1 =
    match gcm_open key nonce (gcm_seal key nonce pt (aad_ k name aad)) (aad_ k name aad') with
    | Some pt' => Ok pt'
    | None => Err (TransitCrypto OpenFailed)
    end.
Proof.
  intros Hk Hk' Hl Hb (Hpt & Haad & Hnonce & Hn) He. destruct (Encrypt_ok _ _ _ _ _ _ _ Hk He) as (nk & key & Hnk & Hkd & Hkey & Hlen & Hkb & ->).
  exists key. split; [done|]. destruct (Hl name nk Hnk) as (nk' & Hnk' & [Hkd' Hle [extra Hpre]]).
  destruct Hk as [Ht Hok], Hk' as [Ht' Hok']. destruct (Hok name nk Hnk) as [Hf Ha _ _ _ _]. specialize (Ha Hkd).
  assert (Hcb : Forall is_byte (nonce ++ gcm_seal key nonce pt (aad_ k name aad))).
  { apply Forall_app. split; [done|]. apply gcm_seal_bytes; try done. by apply aad_bytes. }
  assert (Hkey' : aead nk' !! latest nk = Some key) by (rewrite Hpre; by apply lookup_app_l_Some).
  assert (Hlen' : (latest nk < length (aead nk'))%nat) by (rewrite Hpre, length_app; lia).
  unfold Decrypt. rewrite Hnk', Hkd', Hkd, parse_format by (try done; by apply Hb). cbn [String.eqb Ascii.eqb Bool.eqb negb KindAEAD].
  rewrite (proj2 (Z.ltb_ge (Z.of_nat (latest nk)) 1)) by lia.
  rewrite (proj2 (Z.leb_gt (Z.of_nat (length (aead nk'))) (Z.of_nat (latest nk)))) by lia. cbn [orb].
  rewrite Nat2Z.id, Hkey'.
  rewrite AESGCMOpen_app by done. unfold aad_. rewrite Ht, Ht'. by destruct (gcm_open _ _ _ _).
Qed.

Lemma Encrypt_version t k name pt aad nonce ct : ring_ok t k -> request pt aad nonce ->
  (forall nk, keys k !! name = Some nk -> Z.of_nat (latest nk) < 2 ^ 63) -> (Encrypt name pt aad nonce k).1 = Ok ct ->
  exists nk, keys k !! name = Some nk /\ CiphertextVersion ct = Ok (Z.of_nat (latest nk)).
Proof.
  intros Hk (Hpt & Haad & Hnonce & _) Hb He. destruct (Encrypt_ok _ _ _ _ _ _ _ Hk He) as (nk & key & Hnk & _ & _ & _ & Hkb & ->).
  exists nk. split; [done|]. unfold CiphertextVersion. rewrite parse_format; [done| |by apply Hb].
  apply Forall_app. split; [done|]. apply gcm_seal_bytes; try done. by apply aad_bytes.
Qed.

Lemma on_ring_fst {R} t (m : M Keyring TransitErr R) s : (on_ring t m s).1 = (m (ring t s)).1.
Proof. unfold on_ring. by destruct (m (ring t s)). Qed.

(** A rewrap of what decrypts. *)
Lemma Rewrap_ok t k name ct pt aad nonce nk : ring_ok t k -> keys k !! name = Some nk -> kind nk = KindAEAD ->
  (Decrypt name ct aad k).1 = Ok pt ->
  exists ct', (Rewrap name ct aad nonce k).1 = Ok ct' /\ (Encrypt name pt aad nonce (Decrypt name ct aad k).2).1 = Ok ct'.
Proof.
  intros Hk Hn Hkd Hd. pose proof (Decrypt_same name ct aad k) as Hs. unfold Rewrap.
  destruct (Decrypt name ct aad k) as [r k1]. cbn in Hd, Hs. subst r. destruct (same_keeps t k k1 Hs Hk) as [Hk1 _].
  destruct (Encrypt_total t name pt aad nonce k1 nk Hk1) as [ct' He]; [by rewrite (proj1 Hs)|done|].
  exists ct'. cbn. destruct (Encrypt name pt aad nonce k1) as [r k2]. cbn in He. by subst r.
Qed.

(** C27: An encrypted text stays readable.  In any state that the service can reach,
    what [Encrypt] returned decrypts to the plaintext in every later state, whatever
    any tenant has created, rotated or encrypted since; [Rewrap] gives a text of the
    latest version, which decrypts in its turn; and with other associated data it
    decrypts only if AES-GCM seals the two under one key to the same bytes. *)
Theorem transit_roundtrip s t name pt aad nonce ct s1 s2 :
  rtc step NewService s -> request pt aad nonce -> Service_Encrypt t name pt aad nonce s = (Ok ct, s1) ->
  rtc step s1 s2 -> bounded s2 ->
  (Service_Decrypt t name ct aad s2).1 = Ok pt /\
  (forall nonce', Forall is_byte nonce' -> length nonce' = nonceSize ->
    exists ct' nk, (Service_Rewrap t name ct aad nonce' s2).1 = Ok ct' /\ keys (ring t s2) !! name = Some nk /\
      CiphertextVersion ct' = Ok (Z.of_nat (latest nk)) /\
      forall s4, rtc step (Service_Rewrap t name ct aad nonce' s2).2 s4 -> bounded s4 -> (Service_Decrypt t name ct' aad s4).1 = Ok pt) /\
  (forall aad' pt', aad' <> aad -> (Service_Decrypt t name ct aad' s2).1 = Ok pt' ->
    exists key, gcm_seal key nonce pt' (aad_ (ring t s2) name aad') = gcm_seal key nonce pt (aad_ (ring t s2) name aad)).
Proof.
  intros Hrun Hreq He Hrun2 Hb. destruct (run_keeps _ _ Hrun new_ok) as [Hs _].
  destruct (run_keeps s s2) as [Hs2 Hl]; [eapply rtc_l; [by eapply step_encrypt|done]|done|].
  assert (He' : (Encrypt name pt aad nonce (ring t s)).1 = Ok ct) by (rewrite <- on_ring_fst; unfold Service_Encrypt in He; by rewrite He).
  pose proof (bounded_earlier _ _ Hl Hb t name) as Hb0.
  assert (Hdec : forall aad', exists key, (Decrypt name ct aad' (ring t s2)).1 =
    match gcm_open key nonce (gcm_seal key nonce pt (aad_ (ring t s) name aad)) (aad_ (ring t s) name aad') with
    | Some pt' => Ok pt' | None => Err (TransitCrypto OpenFailed) end).
  { intros aad'. destruct (Decrypt_later _ _ _ _ _ _ _ _ aad' (Hs t) (Hs2 t) (Hl t) Hb0 Hreq He') as (key & _ & Hd). by exists key. }
  assert (Hd : (Decrypt name ct aad (ring t s2)).1 = Ok pt) by (destruct (Hdec aad) as [key ->]; by rewrite gcm_open_seal).
  split_and!.
  - unfold Service_Decrypt. by rewrite on_ring_fst.
  - intros nonce' Hn' Hln. destruct (Encrypt_ok _ _ _ _ _ _ _ (Hs t) He') as (nk0 & key & Hnk0 & Hkd & _).
    destruct (Hl t name nk0 Hnk0) as (nk & Hnk & [Hkd' _ _]).
    destruct (Rewrap_ok _ _ _ _ _ aad nonce' nk (Hs2 t) Hnk ltac:(congruence) Hd) as (ct' & Hre & Hen).
    set (k2 := (Decrypt name ct aad (ring t s2)).2) in *.
    assert (Hsame : same_keys (ring t s2) k2) by apply Decrypt_same.
    destruct (same_keeps t _ _ Hsame (Hs2 t)) as [Hk2 _].
    assert (Hreq' : request pt aad nonce') by (by destruct Hreq as (? & ? & _)).
    assert (Hb2 : forall x, keys k2 !! name = Some x -> Z.of_nat (latest x) < 2 ^ 63) by (rewrite (proj1 Hsame); apply Hb).
    destruct (Encrypt_version _ _ _ _ _ _ _ Hk2 Hreq' Hb2 Hen) as (nk' & Hnk' & Hver).
    assert (nk' = nk) as -> by (rewrite (proj1 Hsame) in Hnk'; congruence).
    exists ct', nk. split_and!; [unfold Service_Rewrap; by rewrite on_ring_fst|done|done|].
    intros s4 Hrun4 Hb4.
    destruct (run_keeps s2 s4) as [Hs4 Hl4]; [eapply rtc_l; [by eapply (step_rewrap _ _ t name ct aad nonce'), surjective_pairing|done]|done|].
    destruct (Decrypt_later t k2 (ring t s4) name pt aad nonce' ct' aad) as (key' & _ & Hd4); try done.
    + intros i x. rewrite (proj1 Hsame). apply Hl4.
    + unfold Service_Decrypt. by rewrite on_ring_fst, Hd4, gcm_open_seal.
  - intros aad' pt' Hne Hd'. unfold Service_Decrypt in Hd'. rewrite on_ring_fst in Hd'. destruct (Hdec aad') as [key Hk]. rewrite Hk in Hd'.
    exists key. destruct (gcm_open _ _ _ _) as [x|] eqn:Ho; [|done]. injection Hd' as ->. apply gcm_open_inv in Ho.
    assert (Hsame : forall e, aad_ (ring t s2) name e = aad_ (ring t s) name e).
    { intros e. unfold aad_. by rewrite (proj1 (Hs t)), (proj1 (Hs2 t)). }
    by rewrite !Hsame.
Qed.

End Laws.

(** No request of any tenant makes the service index beyond its keys: in a state
    that it can reach no operation panics. *)
Theorem transit_never_panics s t name : rtc step NewService s ->
  (forall pt aad nonce, (Service_Encrypt t name pt aad nonce s).1 <> Err Panic) /\
  (forall ct aad, (Service_Decrypt t name ct aad s).1 <> Err Panic) /\
  (forall ct aad nonce, (Service_Rewrap t name ct aad nonce s).1 <> Err Panic) /\
  (forall dat, (Service_HMAC t name dat s).1 <> Err Panic) /\
  (forall message, (Service_Sign t name message s).1 <> Err Panic).
Proof.
  intros Hrun. destruct (run_keeps _ _ Hrun new_ok) as [Hs _]. specialize (Hs t).
  assert (Henc : forall k pt aad nonce, ring_ok t k -> (Encrypt name pt aad nonce k).1 <> Err Panic).
  { intros k pt aad nonce [_ Hok]. unfold Encrypt. destruct (keys k !! name) as [nk|] eqn:Hn; [|done]. destruct (Hok name nk Hn) as [_ Ha _ _ _ _].
    destruct (String.eqb_spec (kind nk) KindAEAD) as [Hkd|]; [|done]. cbn [negb].
    destruct (lookup_lt_is_Some_2 (aead nk) (latest nk)) as [key ->]; [rewrite (Ha Hkd); lia|]. by case_match. }
  assert (Hparse : forall ct, parseCT ct <> Err Panic) by (intros ct; unfold parseCT; by repeat case_match).
  assert (Hdec : forall ct aad, (Decrypt name ct aad (ring t s)).1 <> Err Panic).
  { intros ct aad. unfold Decrypt. destruct (keys _ !! name) as [nk|]; [|done]. destruct (negb _); [done|].
    specialize (Hparse ct). destruct (parseCT ct) as [[ver c]|e]; [|cbn; congruence].
    destruct (Z.ltb_spec ver 1); [done|]. destruct (Z.leb_spec (Z.of_nat (length (aead nk))) ver); [done|]. cbn [orb].
    destruct (lookup_lt_is_Some_2 (aead nk) (Z.to_nat ver)) as [key ->]; [lia|]. by case_match. }
  split_and!.
  - intros pt aad nonce. unfold Service_Encrypt. rewrite on_ring_fst. by apply Henc.
  - intros ct aad. unfold Service_Decrypt. by rewrite on_ring_fst.
  - intros ct aad nonce. unfold Service_Rewrap. rewrite on_ring_fst. unfold Rewrap. specialize (Hdec ct aad).
    pose proof (Decrypt_same name ct aad (ring t s)) as Hsm. destruct (Decrypt name ct aad (ring t s)) as [[pt|e] k1]; [|cbn in *; congruence].
    destruct (same_keeps t _ k1 Hsm Hs) as [Hk1 _]. specialize (Henc k1 pt aad nonce Hk1).
    destruct (Encrypt name pt aad nonce k1) as [[out|e] k2]; [done|]. cbn in *. congruence.
  - intros dat. unfold Service_HMAC. rewrite on_ring_fst. unfold HMAC. destruct (keys _ !! name) as [nk|] eqn:Hn; [|done].
    destruct (proj2 Hs name nk Hn) as [_ _ _ Hh _ _]. destruct (String.eqb_spec (kind nk) KindHMAC) as [Hkd|]; [|done]. cbn [negb].
    destruct (lookup_lt_is_Some_2 (hmac nk) (latest nk)) as [key ->]; [rewrite (Hh Hkd); lia|]. done.
  - intros message. unfold Service_Sign. rewrite on_ring_fst. unfold Sign. destruct (keys _ !! name) as [nk|] eqn:Hn; [|done].
    destruct (proj2 Hs name nk Hn) as [Hf _ _ _ Hsg Hsm]. destruct (String.eqb_spec (kind nk) KindSign) as [Hkd|]; [|done]. cbn [negb].
    destruct (lookup_lt_is_Some_2 (sign nk) (latest nk)) as [sg Hl]; [rewrite (Hsg Hkd); lia|]. rewrite Hl.
    destruct (Hsm _ _ Hf Hl) as [x ->]. by case_match.
Qed.

Lemma bounded_rings s :
  map_Forall (fun _ k => map_Forall (fun _ nk => (latest nk < 1000)%nat) (keys k)) (rings s) -> bounded s.
Proof.
  intros Hs t name nk Hn. unfold ring in Hn. destruct (rings s !! t) as [k|] eqn:Hk; [|cbn in Hn; by rewrite lookup_empty in Hn].
  specialize (Hs t k Hk name nk Hn). cbn in Hs. lia.
Qed.

(** Verification takes the public key from the caller. *)
Lemma Verify_any_key t message sg pub s s' : (Service_Verify t message sg pub s).1 = (Service_Verify t message sg pub s').1.
Proof. unfold Service_Verify. rewrite !on_ring_fst. unfold Verify. by destruct (VerifyMessage _ _ _). Qed.

End Keyring_.

(** ** Examples *)

#[local] Existing Instances demo_aead demo_aead_laws demo_aead_bytes.

#[local] Instance demo_signing : Signing := {|
  LockedSigner := bytes;
  HMACSHA256 := fun k m => k ++ m;
  SignMessage := fun k m => Some (k ++ m);
  Public := fun k => k;
  VerifyMessage := fun k m sg => bool_decide (sg = k ++ m)
|}.

Definition demo_key : bytes := replicate 32 3.
Definition demo_key2 : bytes := replicate 32 4.

Definition demo_created : Service := (Service_CreateKey "t" "db" KindAEAD (Some demo_key) None NewService).2.
Definition demo_encrypted := Service_Encrypt "t" "db" [10; 20] [1] demo_nonce demo_created.
(** A rotation, and a key of another tenant. *)
Definition demo_later : Service :=
  (Service_CreateKey "u" "db" KindSign None (Some demo_key2) (Service_Rotate "t" "db" (Some demo_key2) None demo_encrypted.2).2).2.

Lemma demo_drawn : drawn (Some demo_key) /\ drawn (Some demo_key2) /\ drawn None.
Proof.
  split_and!; intros key Hk; [| |done]; injection Hk as <-; (split; [done|]); apply Forall_replicate; unfold is_byte; lia.
Qed.

Lemma demo_created_run : rtc step NewService demo_created.
Proof. apply rtc_once. eapply (step_create _ _ "t" "db" KindAEAD (Some demo_key) None); [apply demo_drawn|]. apply surjective_pairing. Qed.

Lemma demo_later_run : rtc step demo_encrypted.2 demo_later.
Proof.
  eapply rtc_l; [eapply (step_rotate _ _ "t" "db" (Some demo_key2) None); [apply demo_drawn|apply surjective_pairing]|].
  apply rtc_once. eapply (step_create _ _ "u" "db" KindSign None (Some (demo_key2 : @LockedSigner demo_signing))); [apply demo_drawn|]. apply surjective_pairing.
Qed.

Lemma demo_request : request [10; 20] [1] demo_nonce.
Proof.
  assert (Hb : forall b, forallb (fun z => (0 <=? z) && (z <? 256)) b = true -> Forall is_byte b).
  { intros b H. rewrite forallb_forall in H. apply Forall_forall. intros z Hz%list_elem_of_In. specialize (H z Hz). unfold is_byte. lia. }
  split_and!; [by apply Hb..|done].
Qed.

Lemma demo_bounded : bounded demo_later.
Proof. apply bounded_rings. by apply (bool_decide_unpack _); vm_compute. Qed.

Lemma transit_roundtrip_witness : exists ct, demo_encrypted.1 = Ok ct /\ (Service_Decrypt "t" "db" ct [1] demo_later).1 = Ok [10; 20].
Proof.
  eexists. split; [reflexivity|].
  exact (proj1 (transit_roundtrip demo_created "t" "db" [10; 20] [1] demo_nonce _ demo_encrypted.2 demo_later
    demo_created_run demo_request eq_refl demo_later_run demo_bounded)).
Defined.

Lemma transit_never_panics_witness : (Service_Sign "t" "db" [7] demo_created).1 <> Err Panic.
Proof. apply (transit_never_panics demo_created "t" "db" demo_created_run). Defined.

End Transit.
