(* ===== verification/SecretStore.v ===== *)
(** * The versioned secret store

    [src/internal/secretstore/secretstore.go] with the envelopes of
    [src/internal/crypto/envelope.go]: versions of sealed values, tombstones, purges,
    the events written before them and their projection; [env.go], the environments
    with inheritance and references; [access.go], the HTTP surface.  Sealing is that
    of [SealVault]; nonces, keys and times are arguments, and so is whether the
    auditor takes an event. *)

From S2P Require Import Prelude SealVault.
Open Scope string_scope.
Open Scope list_scope.
Open Scope Z_scope.

Module SecretStore.
Import SE SealVault.

(** ** envelope.go *)

(** A nil slice is [None] where the code looks at it. *)
Record Envelope := mkEnvelope {
  en_Format : string; en_Version : Z; WrappedDEK : bytes; DEKNonce : bytes; Nonce : bytes; Ciphertext : option bytes
}.

Definition EnvelopeFormat : string := "trstctl.crypto.envelope".
Definition EnvelopeVersion : Z := 1.
Definition noEnvelope : Envelope := mkEnvelope "" 0 [] [] [] None.

Inductive StoreErr :=
| ErrTenantRequired | ErrKEKSize | ErrKEKRequired | ErrEmptyPath | ErrSeal (e : SealErr) | ErrRecord (what : string)
| ErrNotFound (path : string) | ErrDeleted (path : string) | ErrVersionNotFound (path : string) (v : Z)
| ErrEnvelopeFormat | ErrEnvelopeOpen | ErrNeedsLocalKEK | ErrNoCiphertext | ErrDecode | ErrTooDeep (path : string).

Definition NormalizeEnvelope (env : Envelope) : result StoreErr Envelope :=
  if String.eqb (en_Format env) "" && (en_Version env =? 0) then
    Ok (mkEnvelope EnvelopeFormat EnvelopeVersion (WrappedDEK env) (DEKNonce env) (Nonce env) (Ciphertext env))
  else if String.eqb (en_Format env) EnvelopeFormat && (en_Version env =? EnvelopeVersion) then Ok env
  else Err ErrEnvelopeFormat.

Section WithAEAD.
Context `{AE : AEAD}.

Definition gcmOpen (key ct nonce aad : bytes) : option bytes :=
  if negb (aes_key key) then None else
  if negb (length nonce =? nonceSize)%nat then None else
  gcm_open key nonce ct aad.

Definition OpenEnvelope (kek : bytes) (env : Envelope) (aad : bytes) : result StoreErr bytes :=
  if negb (len kek =? 32) then Err ErrKEKSize else
  match NormalizeEnvelope env with
  | Err e => Err e
  | Ok env =>
      match gcmOpen kek (WrappedDEK env) (DEKNonce env) aad with
      | None => Err ErrEnvelopeOpen
      | Some dek =>
          match gcmOpen dek (default [] (Ciphertext env)) (Nonce env) aad with
          | None => Err ErrEnvelopeOpen
          | Some pt => Ok pt
          end
      end
  end.

(** With the data key and the two nonces drawn. *)
Definition SealEnvelope (kek plaintext aad dek dekNonce nonce : bytes) : result StoreErr Envelope :=
  if negb (len kek =? 32) then Err ErrKEKSize else
  Ok (mkEnvelope EnvelopeFormat EnvelopeVersion (gcm_seal kek dekNonce dek aad) dekNonce nonce (Some (gcm_seal dek nonce plaintext aad))).

(** ** secretstore.go: data *)

(** A key in locked memory, or another wrapper. *)
Inductive Wrapper := WLocal (k : Buffer) | WOther (w : KeyWrapper).

Definition key_wrapper (w : Wrapper) : KeyWrapper := match w with WLocal k => LocalKEK k | WOther w => w end.

Record rev := mkRev { Version : Z; Sealed : bytes; CreatedAt : Z; Deleted : bool }.

Record writeEvent := mkWrite { we_Path : string; we_Version : Z; we_Sealed : bytes; we_Envelope : Envelope }.

(** What a record's JSON decodes to: the payloads that the store writes, or text that
    does not decode. *)
Inductive payload := PWrite (ev : writeEvent) | PPath (path : string) | PBad.
Record Record_ := mkRecord { rc_Type : string; rc_TenantID : string; rc_Data : payload }.

Definition decode (p : payload) : option writeEvent :=
  match p with
  | PWrite ev => Some ev
  | PPath path => Some (mkWrite path 0 [] noEnvelope)
  | PBad => None
  end.

Record Store := mkStore {
  tenantID : string; wrapper : Wrapper; ownWrapper : bool;
  versions : gmap string (list rev); idem : gmap string Z; records : list Record_
}.

Definition with_versions (m : gmap string (list rev)) (s : Store) : Store :=
  mkStore (tenantID s) (wrapper s) (ownWrapper s) m (idem s) (records s).
Definition with_idem (m : gmap string Z) (s : Store) : Store :=
  mkStore (tenantID s) (wrapper s) (ownWrapper s) (versions s) m (records s).

(** [Config] and [New]. *)
Record Config := mkConfig { cfg_KeyWrapper : option Wrapper; cfg_KEK : bytes; cfg_TenantID : string }.

Definition New (cfg : Config) : result StoreErr Store :=
  if String.eqb (cfg_TenantID cfg) "" then Err ErrTenantRequired else
  match cfg_KeyWrapper cfg with
  | Some w => Ok (mkStore (cfg_TenantID cfg) w false ∅ ∅ [])
  | None =>
      if (length (cfg_KEK cfg) =? 32)%nat then
        match NewLocalKEK (cfg_KEK cfg) with
        | Err e => Err (ErrSeal e)
        | Ok k => Ok (mkStore (cfg_TenantID cfg) (WLocal k) true ∅ ∅ [])
        end
      else if negb (length (cfg_KEK cfg) =? 0)%nat then Err ErrKEKSize else Err ErrKEKRequired
  end.

Definition Close (s : Store) : Store :=
  match wrapper s with
  | WLocal k => if ownWrapper s then mkStore (tenantID s) (WLocal (Destroy k)) true (versions s) (idem s) (records s) else s
  | WOther _ => s
  end.

(** ** Operations *)

Definition AAD (tenant path : string) : bytes := text (tenant +:+ "|" +:+ path).
Definition aad_ (s : Store) (path : string) : bytes := AAD (tenantID s) path.

Definition EventVersionWritten : string := "secret.version.written".

(** The auditor takes the event, or not. *)
Definition Audit (what : string) (dat : payload) (ok : bool) : M Store StoreErr unit := fun s =>
  if ok then (Ok tt, mkStore (tenantID s) (wrapper s) (ownWrapper s) (versions s) (idem s) (records s ++ [mkRecord what (tenantID s) dat]))
  else (Err (ErrRecord what), s).

Definition emitWrite (path : string) (version : Z) (sealed : bytes) (ok : bool) : M Store StoreErr unit :=
  Audit EventVersionWritten (PWrite (mkWrite path version sealed noEnvelope)) ok.

(** What sealing draws. *)
Record Draw := mkDraw { dr_dek : bytes; dr_nonce : bytes; dr_wrapNonce : bytes }.

Definition revs (s : Store) (path : string) : list rev := default [] (versions s !! path).
Definition append_rev (path : string) (r : rev) (s : Store) : Store :=
  with_versions (<[path := revs s path ++ [r]]> (versions s)) s.

Definition Put (path : string) (value : bytes) (key : string) (d : Draw) (now : Z) (ok : bool) : M Store StoreErr Z := fun s =>
  if String.eqb path "" then (Err ErrEmptyPath, s) else
  match (if String.eqb key "" then None else idem s !! key) with
  | Some v => (Ok v, s)
  | None =>
      match seal_Seal (key_wrapper (wrapper s)) (dr_dek d) (dr_nonce d) (dr_wrapNonce d) value (aad_ s path) with
      | Err e => (Err (ErrSeal e), s)
      | Ok sealed =>
          let next := Z.of_nat (length (revs s path)) + 1 in
          match emitWrite path next sealed ok s with
          | (Err e, s1) => (Err e, s1)
          | (Ok _, s1) =>
              let s2 := append_rev path (mkRev next sealed now false) s1 in
              (Ok next, if String.eqb key "" then s2 else with_idem (<[key := next]> (idem s2)) s2)
          end
      end
  end.

Definition seal_open (s : Store) (r : rev) (path : string) : result StoreErr bytes :=
  match seal_Open (key_wrapper (wrapper s)) (Sealed r) (aad_ s path) with Ok pt => Ok pt | Err e => Err (ErrSeal e) end.

Definition Get (path : string) (s : Store) : result StoreErr (bytes * Z) :=
  match last (revs s path) with
  | None => Err (ErrNotFound path)
  | Some r => if Deleted r then Err (ErrDeleted path) else let? pt := seal_open s r path in Ok (pt, Version r)
  end.

Definition GetVersion (path : string) (version : Z) (s : Store) : result StoreErr bytes :=
  match List.find (fun r => (Version r =? version) && negb (Deleted r)) (revs s path) with
  | Some r => seal_open s r path
  | None => Err (ErrVersionNotFound path version)
  end.

Definition Versions (path : string) (s : Store) : list Z :=
  map Version (List.filter (fun r => negb (Deleted r)) (revs s path)).

Definition Rollback (path : string) (toVersion : Z) (d : Draw) (now : Z) (ok : bool) : M Store StoreErr Z := fun s =>
  match GetVersion path toVersion s with
  | Err e => (Err e, s)
  | Ok pt => Put path pt "" d now ok s
  end.

Definition Delete (path : string) (now : Z) (ok : bool) : M Store StoreErr unit := fun s =>
  if (length (revs s path) =? 0)%nat then (Err (ErrNotFound path), s) else
  let next := Z.of_nat (length (revs s path)) + 1 in
  match Audit "secret.deleted" (PPath path) ok s with
  | (Err e, s1) => (Err e, s1)
  | (Ok _, s1) => (Ok tt, append_rev path (mkRev next [] now true) s1)
  end.

Definition Purge (path : string) (ok : bool) : M Store StoreErr unit := fun s =>
  match Audit "secret.purged" (PPath path) ok s with
  | (Err e, s1) => (Err e, s1)
  | (Ok _, s1) => (Ok tt, with_versions (delete path (versions s1)) s1)
  end.

(** ** The projection *)

Record Rev := mkRevC { rv_Sealed : option bytes; rv_Legacy : option Envelope }.

Definition Rev_Open (rv : Rev) (w : Wrapper) (tenant path : string) : result StoreErr bytes :=
  match rv_Sealed rv, rv_Legacy rv with
  | Some sealed, _ => match seal_Open (key_wrapper w) sealed (AAD tenant path) with Ok pt => Ok pt | Err e => Err (ErrSeal e) end
  | None, Some env =>
      match w with
      | WLocal k => OpenEnvelope (default [] (Bytes k)) env (AAD tenant path)
      | WOther _ => Err ErrNeedsLocalKEK
      end
  | None, None => Err ErrNoCiphertext
  end.

Abbreviation RevHistory := (gmap string (list Rev)).

Definition reconstruct_one (tenant : string) (out : RevHistory) (r : Record_) : result StoreErr RevHistory :=
  if negb (String.eqb (rc_Type r) EventVersionWritten) || negb (String.eqb (rc_TenantID r) tenant) then Ok out else
  match decode (rc_Data r) with
  | None => Err ErrDecode
  | Some ev =>
      let add rv := Ok (<[we_Path ev := default [] (out !! we_Path ev) ++ [rv]]> out) in
      match we_Sealed ev with
      | _ :: _ => add (mkRevC (Some (we_Sealed ev)) None)
      | [] =>
          match Ciphertext (we_Envelope ev) with
          | Some _ => match NormalizeEnvelope (we_Envelope ev) with
                      | Ok env => add (mkRevC None (Some env))
                      | Err e => Err e
                      end
          | None => Err ErrNoCiphertext
          end
      end
  end.

Definition Reconstruct (rs : list Record_) (tenant : string) : result StoreErr RevHistory :=
  fold_left (fun acc r => let? out := acc in reconstruct_one tenant out r) rs (Ok ∅).

End WithAEAD.
#[global] Arguments Reconstruct : simpl never.
End SecretStore.
