(* ===== verification/SecretStoreSpec.v ===== *)
(** * The secret store implements a history of values

    An abstract store keeps, for each path, the list of the values written, with holes
    where the secret was deleted, and no cryptography; the store of [SecretStore]
    answers every sequence of calls as it does.  The projection of the event log, what
    it has in common with the store, and what it brings back. *)

From S2P Require Import Prelude SealVault SecretStore.
Open Scope string_scope.
Open Scope list_scope.
Open Scope Z_scope.

Module SecretStoreSpec.
Import SE SealVault SecretStore.

(** ** The specification *)

Record Hist := mkHist { values : gmap string (list (option bytes)); h_idem : gmap string Z }.

Definition h_New : Hist := mkHist ∅ ∅.

Definition hist (h : Hist) (path : string) : list (option bytes) := default [] (values h !! path).
Definition h_append (path : string) (o : option bytes) (h : Hist) : Hist :=
  mkHist (<[path := hist h path ++ [o]]> (values h)) (h_idem h).

Definition h_Put (path : string) (value : bytes) (key : string) (ok : bool) : M Hist StoreErr Z := fun h =>
  if String.eqb path "" then (Err ErrEmptyPath, h) else
  match (if String.eqb key "" then None else h_idem h !! key) with
  | Some v => (Ok v, h)
  | None =>
      if negb ok then (Err (ErrRecord EventVersionWritten), h) else
      let next := Z.of_nat (length (hist h path)) + 1 in
      let h' := h_append path (Some value) h in
      (Ok next, if String.eqb key "" then h' else mkHist (values h') (<[key := next]> (h_idem h')))
  end.

Definition h_Get (path : string) (h : Hist) : result StoreErr (bytes * Z) :=
  match last (hist h path) with
  | None => Err (ErrNotFound path)
  | Some None => Err (ErrDeleted path)
  | Some (Some v) => Ok (v, Z.of_nat (length (hist h path)))
  end.

Definition h_GetVersion (path : string) (version : Z) (h : Hist) : result StoreErr bytes :=
  match (if 0 <? version then hist h path !! Z.to_nat (version - 1) else None) with
  | Some (Some v) => Ok v
  | _ => Err (ErrVersionNotFound path version)
  end.

(** The live positions of a history, counted from [k + 1]. *)
Fixpoint live_versions (k : Z) (l : list (option bytes)) : list Z :=
  match l with
  | [] => []
  | o :: l' => match o with Some _ => [k + 1] | None => [] end ++ live_versions (k + 1) l'
  end.

Definition h_Versions (path : string) (h : Hist) : list Z := live_versions 0 (hist h path).

Definition h_Rollback (path : string) (toVersion : Z) (ok : bool) : M Hist StoreErr Z := fun h =>
  match h_GetVersion path toVersion h with
  | Err e => (Err e, h)
  | Ok v => h_Put path v "" ok h
  end.

Definition h_Delete (path : string) (ok : bool) : M Hist StoreErr unit := fun h =>
  if (length (hist h path) =? 0)%nat then (Err (ErrNotFound path), h) else
  if negb ok then (Err (ErrRecord "secret.deleted"), h) else (Ok tt, h_append path None h).

Definition h_Purge (path : string) (ok : bool) : M Hist StoreErr unit := fun h =>
  if negb ok then (Err (ErrRecord "secret.purged"), h) else (Ok tt, mkHist (delete path (values h)) (h_idem h)).

(** ** Calls *)

Inductive op :=
| OpPut (path : string) (value : bytes) (key : string) (d : Draw) (now : Z) (ok : bool)
| OpGet (path : string)
| OpGetVersion (path : string) (version : Z)
| OpVersions (path : string)
| OpRollback (path : string) (toVersion : Z) (d : Draw) (now : Z) (ok : bool)
| OpDelete (path : string) (now : Z) (ok : bool)
| OpPurge (path : string) (ok : bool).

Inductive reply :=
| RVersion (r : result StoreErr Z) | RValue (r : result StoreErr (bytes * Z)) | RBytes (r : result StoreErr bytes)
| RList (l : list Z) | RUnit (r : result StoreErr unit).

Section Refinement.
Context `{AE : AEAD} `{!AEADLaws AE}.

Definition exec (o : op) (s : Store) : reply * Store :=
  match o with
  | OpPut path value key d now ok => let (r, s') := Put path value key d now ok s in (RVersion r, s')
  | OpGet path => (RValue (Get path s), s)
  | OpGetVersion path v => (RBytes (GetVersion path v s), s)
  | OpVersions path => (RList (Versions path s), s)
  | OpRollback path v d now ok => let (r, s') := Rollback path v d now ok s in (RVersion r, s')
  | OpDelete path now ok => let (r, s') := Delete path now ok s in (RUnit r, s')
  | OpPurge path ok => let (r, s') := Purge path ok s in (RUnit r, s')
  end.

Definition h_exec (o : op) (h : Hist) : reply * Hist :=
  match o with
  | OpPut path value key _ _ ok => let (r, h') := h_Put path value key ok h in (RVersion r, h')
  | OpGet path => (RValue (h_Get path h), h)
  | OpGetVersion path v => (RBytes (h_GetVersion path v h), h)
  | OpVersions path => (RList (h_Versions path h), h)
  | OpRollback path v _ _ ok => let (r, h') := h_Rollback path v ok h in (RVersion r, h')
  | OpDelete path _ ok => let (r, h') := h_Delete path ok h in (RUnit r, h')
  | OpPurge path ok => let (r, h') := h_Purge path ok h in (RUnit r, h')
  end.

(** The replies to a sequence of calls, and where it ends. *)
Fixpoint runs {S} (f : op -> S -> reply * S) (ops : list op) (s : S) : list reply * S :=
  match ops with
  | [] => ([], s)
  | o :: ops' => let (r, s1) := f o s in let (rs, s2) := runs f ops' s1 in (r :: rs, s2)
  end.

(** The wrapper takes the data key that a call draws. *)
Definition good_draw (w : Wrapper) (d : Draw) : Prop :=
  length (dr_nonce d) = nonceSize /\ length (dr_dek d) = dekSize /\
  exists wrapped, WrapDEK (key_wrapper w) (dr_wrapNonce d) (dr_dek d) = Some wrapped /\
    UnwrapDEK (key_wrapper w) wrapped = Some (dr_dek d) /\ len wrapped < 65536.

Definition good_op (w : Wrapper) (o : op) : Prop :=
  match o with OpPut _ _ _ d _ _ | OpRollback _ _ d _ _ => good_draw w d | _ => True end.

(** ** The relation *)

Fixpoint revs_rel (open : bytes -> result SealErr bytes) (k : Z) (l : list rev) (hl : list (option bytes)) : Prop :=
  match l, hl with
  | [], [] => True
  | r :: l', o :: hl' =>
      Version r = k + 1 /\ Deleted r = match o with Some _ => false | None => true end /\
      (forall v, o = Some v -> open (Sealed r) = Ok v) /\ revs_rel open (k + 1) l' hl'
  | _, _ => False
  end.

Record rel (t : string) (w : Wrapper) (s : Store) (h : Hist) : Prop := mkRel {
  rel_tenant : tenantID s = t;
  rel_wrapper : wrapper s = w;
  rel_idem : idem s = h_idem h;
  rel_revs path : revs_rel (fun b => seal_Open (key_wrapper w) b (AAD t path)) 0 (revs s path) (hist h path)
}.

Lemma revs_rel_length open k l hl : revs_rel open k l hl -> length l = length hl.
Proof. revert k hl. induction l as [|r l IH]; intros k [|o hl]; cbn; try done. intros (_ & _ & _ & H). by rewrite (IH _ _ H). Qed.

Lemma revs_rel_snoc open k l hl r o : revs_rel open k l hl -> Version r = k + Z.of_nat (length hl) + 1 ->
  Deleted r = match o with Some _ => false | None => true end -> (forall v, o = Some v -> open (Sealed r) = Ok v) ->
  revs_rel open k (l ++ [r]) (hl ++ [o]).
Proof.
  revert k hl. induction l as [|r' l IH]; intros k [|o' hl]; cbn; try done.
  - intros _ Hv Hd Ho. split_and!; [lia|done..].
  - intros (H1 & H2 & H3 & H) Hv Hd Ho. split_and!; try done. apply IH; [done|lia|done..].
Qed.

Lemma revs_rel_last open k l hl : revs_rel open k l hl ->
  match last hl with
  | None => last l = None
  | Some None => exists r, last l = Some r /\ Deleted r = true
  | Some (Some v) => exists r, last l = Some r /\ Deleted r = false /\ open (Sealed r) = Ok v /\ Version r = k + Z.of_nat (length hl)
  end.
Proof.
  revert k hl. induction l as [|r l IH]; intros k [|o hl]; try done. intros (H1 & H2 & H3 & H).
  specialize (IH _ _ H). destruct hl as [|o' hl].
  - destruct l; [|done]. cbn. destruct o as [v|]; exists r; split_and!; auto; cbn; lia.
  - destruct l as [|r' l]; [done|]. change (last (o :: o' :: hl)) with (last (o' :: hl)). change (last (r :: r' :: l)) with (last (r' :: l)).
    destruct (last (o' :: hl)) as [[v|]|]; [|done..]. destruct IH as (x & Hx & Hd & Ho & Hv). exists x. split_and!; try done. cbn [length] in *. lia.
Qed.

Lemma revs_rel_find open k l hl v : revs_rel open k l hl ->
  match (if k <? v then hl !! Z.to_nat (v - k - 1) else None) with
  | Some (Some x) => exists r, List.find (fun r => (Version r =? v) && negb (Deleted r)) l = Some r /\ open (Sealed r) = Ok x
  | _ => List.find (fun r => (Version r =? v) && negb (Deleted r)) l = None
  end.
Proof.
  revert k hl. induction l as [|r l IH]; intros k [|o hl]; try done; [by destruct (k <? v)|].
  intros (H1 & H2 & H3 & H). specialize (IH _ _ H). cbn [List.find]. rewrite H1, H2.
  destruct (Z.eqb_spec (k + 1) v) as [<-|Hne]; cbn [andb].
  - rewrite (proj2 (Z.ltb_lt k (k + 1))) by lia. replace (Z.to_nat (k + 1 - k - 1)) with O by lia. cbn.
    rewrite (proj2 (Z.ltb_ge (k + 1) (k + 1))) in IH by lia. destruct o as [x|]; cbn; [exists r; auto|done].
  - destruct (Z.ltb_spec k v) as [Hlt|Hge].
    + rewrite (proj2 (Z.ltb_lt (k + 1) v)) in IH by lia.
      replace (Z.to_nat (v - k - 1)) with (S (Z.to_nat (v - (k + 1) - 1))) by lia. done.
    + rewrite (proj2 (Z.ltb_ge (k + 1) v)) in IH by lia. done.
Qed.

Lemma revs_rel_versions open k l hl : revs_rel open k l hl ->
  map Version (List.filter (fun r => negb (Deleted r)) l) = live_versions k hl.
Proof.
  revert k hl. induction l as [|r l IH]; intros k [|o hl]; try done. intros (H1 & H2 & _ & H). cbn. rewrite H2.
  destruct o; cbn; [f_equal; [done|]|]; by apply IH.
Qed.

Lemma seal_good w d value ad : good_draw w d ->
  exists sealed, seal_Seal (key_wrapper w) (dr_dek d) (dr_nonce d) (dr_wrapNonce d) value ad = Ok sealed /\
    seal_Open (key_wrapper w) sealed ad = Ok value.
Proof.
  intros (Hn & Hd & wrapped & Hw & Hu & Hl).
  assert (Hs : exists sealed, seal_Seal (key_wrapper w) (dr_dek d) (dr_nonce d) (dr_wrapNonce d) value ad = Ok sealed)
    by (unfold seal_Seal; rewrite Hw; by eexists).
  destruct Hs as [sealed Hs]. exists sealed. split; [done|]. eapply seal_roundtrip; try done. intros wr Hwr. by simplify_eq.
Qed.

Lemma rel_append t w s h path r o : rel t w s h -> Version r = Z.of_nat (length (revs s path)) + 1 ->
  Deleted r = match o with Some _ => false | None => true end ->
  (forall v, o = Some v -> seal_Open (key_wrapper w) (Sealed r) (AAD t path) = Ok v) ->
  rel t w (append_rev path r s) (h_append path o h).
Proof.
  intros [Ht Hw Hi Hr] Hv Hd Ho. split; try done. intros p. unfold revs, hist. cbn.
  destruct (decide (p = path)) as [->|Hne].
  - rewrite !lookup_insert_eq. cbn. apply revs_rel_snoc; auto. rewrite Hv, (revs_rel_length _ _ _ _ (Hr path)). lia.
  - rewrite !lookup_insert_ne by done. apply Hr.
Qed.

(** An event leaves the relation as it is. *)
Lemma rel_record t w s h l : rel t w s h -> rel t w (mkStore (tenantID s) (wrapper s) (ownWrapper s) (versions s) (idem s) l) h.
Proof. by intros [Ht Hw Hi Hr]. Qed.

Lemma Put_refines t w s h path value key d now ok : rel t w s h -> good_draw w d ->
  (Put path value key d now ok s).1 = (h_Put path value key ok h).1 /\
  rel t w (Put path value key d now ok s).2 (h_Put path value key ok h).2.
Proof.
  intros HR Hd. pose proof HR as [Ht Hw Hi Hr]. unfold Put, h_Put. destruct (String.eqb path ""); [done|]. rewrite <- Hi.
  destruct (if String.eqb key "" then None else idem s !! key); [done|].
  destruct (seal_good w d value (aad_ s path) Hd) as (sealed & Hs & Ho). rewrite Hw, Hs.
  unfold emitWrite, Audit. destruct ok; [|done]. cbn [negb].
  pose proof (revs_rel_length _ _ _ _ (Hr path)) as Hlen. rewrite Hlen.
  set (s1 := mkStore _ _ _ _ _ _). set (r := mkRev _ sealed now false).
  assert (HR' : rel t w (append_rev path r s1) (h_append path (Some value) h)).
  { apply rel_append; [by apply rel_record| |done|].
    - unfold r. cbn [Version]. change (revs s1 path) with (revs s path). by rewrite Hlen.
    - intros v [= <-]. rewrite <- Ht. exact Ho. }
  destruct (String.eqb key ""); [done|]. split; [done|]. destruct HR' as [Ht' Hw' Hi' Hr']. split; try done. cbn. cbn in Hi'. by rewrite Hi'.
Qed.

Lemma Get_refines t w s h path : rel t w s h -> Get path s = h_Get path h.
Proof.
  intros [Ht Hw Hi Hr]. pose proof (revs_rel_last _ _ _ _ (Hr path)) as Hl. unfold Get, h_Get.
  destruct (last (hist h path)) as [[v|]|].
  - destruct Hl as (r & -> & -> & Ho & Hv). unfold seal_open. rewrite Hw. unfold aad_. rewrite Ht, Ho. cbn. by rewrite Hv.
  - by destruct Hl as (r & -> & ->).
  - by rewrite Hl.
Qed.

Lemma GetVersion_refines t w s h path v : rel t w s h -> GetVersion path v s = h_GetVersion path v h.
Proof.
  intros [Ht Hw Hi Hr]. pose proof (revs_rel_find _ _ _ _ v (Hr path)) as Hf. unfold GetVersion, h_GetVersion.
  rewrite Z.sub_0_r in Hf. destruct (if 0 <? v then _ else None) as [[x|]|]; [|by rewrite Hf..].
  destruct Hf as (r & -> & Ho). unfold seal_open, aad_. by rewrite Hw, Ht, Ho.
Qed.

Lemma Versions_refines t w s h path : rel t w s h -> Versions path s = h_Versions path h.
Proof. intros [Ht Hw Hi Hr]. apply (revs_rel_versions _ _ _ _ (Hr path)). Qed.

Lemma Delete_refines t w s h path now ok : rel t w s h ->
  (Delete path now ok s).1 = (h_Delete path ok h).1 /\ rel t w (Delete path now ok s).2 (h_Delete path ok h).2.
Proof.
  intros HR. pose proof (revs_rel_length _ _ _ _ (rel_revs _ _ _ _ HR path)) as Hlen. unfold Delete, h_Delete. rewrite Hlen.
  destruct (length (hist h path) =? 0)%nat; [done|]. unfold Audit. destruct ok; [|done]. cbn [negb]. split; [done|].
  apply rel_append; [by apply rel_record| |done|done]. cbn [Version]. by rewrite <- Hlen.
Qed.

Lemma Purge_refines t w s h path ok : rel t w s h ->
  (Purge path ok s).1 = (h_Purge path ok h).1 /\ rel t w (Purge path ok s).2 (h_Purge path ok h).2.
Proof.
  intros [Ht Hw Hi Hr]. unfold Purge, h_Purge, Audit. destruct ok; [|done]. split; [done|]. split; try done.
  intros p. unfold revs, hist. cbn. destruct (decide (p = path)) as [->|Hne]; [by rewrite !lookup_delete_eq|].
  rewrite !lookup_delete_ne by done. apply Hr.
Qed.

Lemma exec_refines t w o s h : rel t w s h -> good_op w o ->
  (exec o s).1 = (h_exec o h).1 /\ rel t w (exec o s).2 (h_exec o h).2.
Proof.
  intros HR Hg. destruct o as [path value key d now ok|path|path v|path|path v d now ok|path now ok|path ok]; cbn [exec h_exec].
  - destruct (Put_refines t w s h path value key d now ok HR Hg) as [H1 H2].
    destruct (Put _ _ _ _ _ _ _), (h_Put _ _ _ _ _). cbn in *. by subst.
  - by rewrite (Get_refines _ _ _ _ _ HR).
  - by rewrite (GetVersion_refines _ _ _ _ _ _ HR).
  - by rewrite (Versions_refines _ _ _ _ _ HR).
  - unfold Rollback, h_Rollback. rewrite (GetVersion_refines _ _ _ _ _ _ HR). destruct (h_GetVersion path v h) as [x|e]; [|done].
    destruct (Put_refines t w s h path x "" d now ok HR Hg) as [H1 H2].
    destruct (Put _ _ _ _ _ _ _), (h_Put _ _ _ _ _). cbn in *. by subst.
  - destruct (Delete_refines t w s h path now ok HR) as [H1 H2]. destruct (Delete _ _ _ _), (h_Delete _ _ _). cbn in *. by subst.
  - destruct (Purge_refines t w s h path ok HR) as [H1 H2]. destruct (Purge _ _ _), (h_Purge _ _ _). cbn in *. by subst.
Qed.

Lemma rel_New cfg s : New cfg = Ok s -> rel (cfg_TenantID cfg) (wrapper s) s h_New.
Proof.
  unfold New. intros H.
  assert (Hs : exists w own, s = mkStore (cfg_TenantID cfg) w own ∅ ∅ []) by (repeat case_match; simplify_eq; by do 2 eexists).
  destruct Hs as (w & own & ->). by split.
Qed.

Lemma runs_refine t w ops : forall s h, rel t w s h -> Forall (good_op w) ops ->
  (runs exec ops s).1 = (runs h_exec ops h).1 /\ rel t w (runs exec ops s).2 (runs h_exec ops h).2.
Proof.
  induction ops as [|o ops IH]; intros s h HR Hg; [done|]. apply Forall_cons in Hg as [Ho Hg]. cbn.
  destruct (exec_refines t w o s h HR Ho) as [H1 H2]. destruct (exec o s) as [r s1], (h_exec o h) as [r' h1]. cbn in *. subst r'.
  destruct (IH s1 h1 H2 Hg) as [H3 H4]. destruct (runs exec ops s1), (runs h_exec ops h1). cbn in *. by subst.
Qed.

(** C25: The store is a history of values.  From a new store, whatever calls are made,
    and whichever events the auditor refuses, the replies are those of the
    specification, which keeps the values themselves: reads give the last value or the
    one of a version, a rollback publishes an old value again, a deletion leaves the
    old versions readable, a purge leaves nothing, and a call that could not be
    recorded changes nothing. *)
Theorem store_refines cfg s ops : New cfg = Ok s -> Forall (good_op (wrapper s)) ops ->
  (runs exec ops s).1 = (runs h_exec ops h_New).1.
Proof. intros Hnew Hg. exact (proj1 (runs_refine _ _ ops s h_New (rel_New cfg s Hnew) Hg)). Qed.

(** ** The projection of the log *)

Definition live_revs (s : Store) (path : string) : list Rev :=
  map (fun r => mkRevC (Some (Sealed r)) None) (List.filter (fun r => negb (Deleted r)) (revs s path)).

Lemma Reconstruct_snoc rs r t : Reconstruct (rs ++ [r]) t = (let? m := Reconstruct rs t in reconstruct_one t m r).
Proof. unfold Reconstruct. by rewrite fold_left_app. Qed.

(** Events other than writes are passed over. *)
Lemma Reconstruct_other rs what t' dat t : what <> EventVersionWritten -> Reconstruct (rs ++ [mkRecord what t' dat]) t = Reconstruct rs t.
Proof.
  intros Hw. rewrite Reconstruct_snoc. destruct (Reconstruct rs t); [|done]. cbn. unfold reconstruct_one. cbn.
  by rewrite (proj2 (String.eqb_neq _ _) Hw).
Qed.

(** [P] holds of the paths that were never purged. *)
Definition projected (P : string -> Prop) (s : Store) : Prop :=
  exists m, Reconstruct (records s) (tenantID s) = Ok m /\
  forall path, exists purged, default [] (m !! path) = purged ++ live_revs s path /\ (P path -> purged = []).

Lemma Put_projected P path value key d now ok s : projected P s -> projected P (Put path value key d now ok s).2.
Proof.
  intros HP. unfold Put. destruct (String.eqb path ""); [done|]. destruct (if String.eqb key "" then _ else _); [done|].
  destruct (seal_Seal _ _ _ _ _ _) as [sealed|e] eqn:Hs; [|done]. unfold emitWrite, Audit. destruct ok; [|done]. cbn [snd].
  assert (Hne : exists x l, sealed = x :: l) by (unfold seal_Seal in Hs; case_match; [|done]; injection Hs as <-; cbn; by do 2 eexists).
  destruct Hne as (x & l & Hsl). destruct HP as (m & Hm & Hp).
  set (s2 := append_rev _ _ _). enough (H2 : projected P s2) by (by destruct (String.eqb key "")).
  exists (<[path := default [] (m !! path) ++ [mkRevC (Some sealed) None]]> m). split.
  - cbn. rewrite Reconstruct_snoc, Hm. cbn. unfold reconstruct_one. cbn. rewrite String.eqb_refl. cbn. by rewrite Hsl.
  - intros p. destruct (Hp p) as (purged & He & Hpur). exists purged. split; [|done].
    unfold live_revs, revs in *. cbn. destruct (decide (p = path)) as [->|Hne].
    + rewrite !lookup_insert_eq. cbn. rewrite List.filter_app, map_app, He, <- app_assoc. done.
    + by rewrite !lookup_insert_ne.
Qed.

Lemma Delete_projected P path now ok s : projected P s -> projected P (Delete path now ok s).2.
Proof.
  intros HP. unfold Delete. destruct (length _ =? 0)%nat; [done|]. unfold Audit. destruct ok; [|done]. cbn [snd].
  destruct HP as (m & Hm & Hp). exists m. split; [by cbn; rewrite Reconstruct_other|].
  intros p. destruct (Hp p) as (purged & He & Hpur). exists purged. split; [|done]. rewrite He. f_equal.
  unfold live_revs, revs. cbn. destruct (decide (p = path)) as [->|Hne].
  - rewrite lookup_insert_eq. cbn. by rewrite List.filter_app, map_app, app_nil_r.
  - by rewrite lookup_insert_ne.
Qed.

Lemma Purge_projected P path ok s : projected P s -> projected (fun p => P p /\ p <> path) (Purge path ok s).2.
Proof.
  intros (m & Hm & Hp). unfold Purge, Audit. exists m. destruct ok; cbn [snd].
  - split; [by cbn; rewrite Reconstruct_other|]. intros p. destruct (Hp p) as (purged & He & Hpur). unfold live_revs, revs in *. cbn.
    destruct (decide (p = path)) as [->|Hne].
    + rewrite lookup_delete_eq. cbn. exists (default [] (m !! path)). rewrite app_nil_r. split; [done|]. by intros [_ ?].
    + rewrite lookup_delete_ne by done. exists purged. split; [done|]. intros [HP _]. auto.
  - split; [done|]. intros p. destruct (Hp p) as (purged & He & Hpur). exists purged. split; [done|]. intros [HP _]. auto.
Qed.

Lemma projected_mono (P P' : string -> Prop) s : (forall p, P' p -> P p) -> projected P s -> projected P' s.
Proof. intros H (m & Hm & Hp). exists m. split; [done|]. intros p. destruct (Hp p) as (purged & He & Hpur). exists purged. auto. Qed.

Lemma exec_projected P o s : projected P s -> projected (fun p => P p /\ forall ok, o <> OpPurge p ok) (exec o s).2.
Proof.
  intros HP. assert (Hsame : forall s', projected P s' -> projected (fun p => P p /\ forall ok, o <> OpPurge p ok) s')
    by (intros s'; apply projected_mono; by intros p [? _]).
  destruct o as [path value key d now ok|path|path v|path|path v d now ok|path now ok|path ok]; cbn [exec]; try by apply Hsame.
  - pose proof (Put_projected P path value key d now ok s HP) as H'. destruct (Put _ _ _ _ _ _ _). by apply Hsame.
  - unfold Rollback. destruct (GetVersion path v s) as [x|e]; [|by apply Hsame].
    pose proof (Put_projected P path x "" d now ok s HP) as H'. destruct (Put _ _ _ _ _ _ _). by apply Hsame.
  - pose proof (Delete_projected P path now ok s HP) as H'. destruct (Delete _ _ _ _). by apply Hsame.
  - pose proof (Purge_projected P path ok s HP) as H'. destruct (Purge _ _ _). revert H'. apply projected_mono.
    intros p [Hp Hn]. split; [done|]. intros ->. by apply (Hn ok).
Qed.

Lemma runs_projected ops : forall P s, projected P s -> projected (fun p => P p /\ forall ok, OpPurge p ok ∉ ops) (runs exec ops s).2.
Proof.
  induction ops as [|o ops IH]; intros P s HP; cbn.
  - revert HP. apply projected_mono. by intros p [? _].
  - pose proof (exec_projected P o s HP) as H1. destruct (exec o s) as [r s1]. specialize (IH _ s1 H1).
    destruct (runs exec ops s1) as [rs s2]. revert IH. apply projected_mono.
    intros p [Hp Hn]. split; [split; [done|]|]; intros ok Hin; apply (Hn ok); [rewrite <- Hin; by left|by right].
Qed.

Lemma revs_rel_live w t path k l hl : revs_rel (fun b => seal_Open (key_wrapper w) b (AAD t path)) k l hl ->
  map (fun rv => Rev_Open rv w t path) (map (fun r => mkRevC (Some (Sealed r)) None) (List.filter (fun r => negb (Deleted r)) l)) =
  map Ok (omap id hl).
Proof.
  revert k hl. induction l as [|r l IH]; intros k [|o hl]; try done. intros (_ & H2 & H3 & H). cbn. rewrite H2.
  destruct o as [v|]; cbn; [|by eapply IH]. rewrite (H3 v eq_refl). f_equal. by eapply IH.
Qed.

(** C26: The event log has the store in it.  After any calls, the log reconstructs
    without error, and for each path the reconstructed versions end with the live ones
    of the store, in order, each of which opens to the value that was written; before
    them there is nothing, unless the path was purged. *)
Theorem Reconstruct_projects cfg s0 ops : New cfg = Ok s0 -> Forall (good_op (wrapper s0)) ops ->
  let s := (runs exec ops s0).2 in let h := (runs h_exec ops h_New).2 in
  exists m, Reconstruct (records s) (cfg_TenantID cfg) = Ok m /\
  forall path, exists purged live, default [] (m !! path) = purged ++ live /\
    map (fun rv => Rev_Open rv (wrapper s0) (cfg_TenantID cfg) path) live = map Ok (omap id (hist h path)) /\
    ((forall ok, OpPurge path ok ∉ ops) -> purged = []).
Proof.
  intros Hnew Hg s h. destruct (runs_refine _ _ ops s0 h_New (rel_New cfg s0 Hnew) Hg) as [_ [Ht Hw Hi Hr]]. fold s in Ht, Hr. fold h in Hr.
  assert (H0 : projected (fun _ => True) s0).
  { unfold New in Hnew. assert (Hs : exists w own, s0 = mkStore (cfg_TenantID cfg) w own ∅ ∅ []) by (repeat case_match; simplify_eq; by do 2 eexists).
    destruct Hs as (w & own & ->). exists ∅. split; [done|]. intros path. by exists []. }
  destruct (runs_projected ops _ s0 H0) as (m & Hm & Hp). fold s in Hm, Hp. rewrite Ht in Hm. exists m. split; [done|].
  intros path. destruct (Hp path) as (purged & He & Hpur). exists purged, (live_revs s path). split_and!; [done| |auto].
  exact (revs_rel_live _ _ _ _ _ _ (Hr path)).
Qed.

(** Purges and deletions do not reach the projection: what was purged comes back. *)
Lemma purge_ignored path s : Reconstruct (records (Purge path true s).2) (tenantID s) = Reconstruct (records s) (tenantID s).
Proof. unfold Purge, Audit. cbn. by apply Reconstruct_other. Qed.

(** A key that was used for one path answers for every other, and nothing is written. *)
Lemma Put_replays_any_path path value key d now ok s v : path <> "" -> key <> "" -> idem s !! key = Some v ->
  Put path value key d now ok s = (Ok v, s).
Proof. intros Hp Hk Hi. unfold Put. by rewrite (proj2 (String.eqb_neq _ _) Hp), (proj2 (String.eqb_neq _ _) Hk), Hi. Qed.

End Refinement.

(** ** Examples *)

#[local] Existing Instances demo_aead demo_aead_laws.

Definition demo_cfg : Config := mkConfig None (replicate 32 7) "t".
Definition demo_store : Store := mkStore "t" (WLocal demo_kek) true ∅ ∅ [].
Definition demo_draw : Draw := mkDraw demo_dek demo_nonce demo_nonce.
Definition demo_ops : list op :=
  [OpPut "db/password" [1; 2] "" demo_draw 0 true; OpPut "db/password" [3] "k" demo_draw 1 true; OpPut "other" [9] "k" demo_draw 2 true;
   OpDelete "db/password" 3 true; OpRollback "db/password" 1 demo_draw 4 true; OpGet "db/password"; OpVersions "db/password"].

Lemma demo_ops_good : Forall (good_op (WLocal demo_kek)) demo_ops.
Proof.
  assert (Hd : good_draw (WLocal demo_kek) demo_draw).
  { split; [done|]. split; [done|]. eexists. split; [reflexivity|]. by split. }
  unfold demo_ops. rewrite !Forall_cons, Forall_nil. done.
Qed.

(** The third write reuses the key of the second and is answered with its version. *)
Example demo_replies : (runs exec demo_ops demo_store).1 =
  [RVersion (Ok 1); RVersion (Ok 2); RVersion (Ok 2); RUnit (Ok tt); RVersion (Ok 4); RValue (Ok ([1; 2], 4)); RList [1; 2; 4]].
Proof. vm_compute. reflexivity. Qed.

Lemma store_refines_witness : (runs exec demo_ops demo_store).1 = (runs h_exec demo_ops h_New).1.
Proof. exact (store_refines demo_cfg demo_store demo_ops eq_refl demo_ops_good). Defined.

Lemma Reconstruct_projects_witness : exists m, Reconstruct (records (runs exec demo_ops demo_store).2) "t" = Ok m.
Proof.
  destruct (Reconstruct_projects demo_cfg demo_store demo_ops eq_refl demo_ops_good) as (m & Hm & _). exists m. exact Hm.
Defined.

(** The versions of a purged path are reconstructed. *)
Example demo_purged : let s := (runs exec [OpPut "p" [1] "" demo_draw 0 true; OpPurge "p" true] demo_store).2 in
  Versions "p" s = [] /\ exists m rv, Reconstruct (records s) "t" = Ok m /\ m !! "p" = Some [rv] /\ Rev_Open rv (wrapper s) "t" "p" = Ok [1].
Proof. split; [reflexivity|]. do 2 eexists. split; [reflexivity|]. split; reflexivity. Qed.

End SecretStoreSpec.
