(* ===== verification/SecretAccess.v ===== *)
(** * Environments, references and the HTTP surface of the secret store

    [src/internal/secretstore/env.go] and [src/internal/secretstore/access.go]:
    overrides of an environment over a base store, references resolved with a bound on
    their depth, and the handler that authorizes, serves and records access. *)

From S2P Require Import Prelude SealVault SecretStore.
Open Scope string_scope.
Open Scope list_scope.
Open Scope Z_scope.

Module SecretAccess.
Import SE SealVault SecretStore.

Section WithAEAD.
Context `{AE : AEAD}.

(** ** env.go *)

Record EnvResolver := mkResolver { base : Store; envs : gmap string Store }.

Definition NewEnvResolver (b : Store) : EnvResolver := mkResolver b ∅.
Definition AddEnvironment (name : string) (override : Store) (e : EnvResolver) : EnvResolver :=
  mkResolver (base e) (<[name := override]> (envs e)).

Definition lookup_ (e : EnvResolver) (env path : string) : result StoreErr bytes :=
  let in_base := let? r := Get path (base e) in Ok r.1 in
  if String.eqb env "" then in_base else
  match envs e !! env with
  | None => in_base
  | Some o => match Get path o with Ok r => Ok r.1 | Err _ => in_base end
  end.

(** [${ref:...}], and what it refers to. *)
Definition as_ref (val : bytes) : option string :=
  let s := of_bytes val in
  if GoStrings.HasPrefix s "${ref:" && GoStrings.HasSuffix s "}"
  then Some (of_bytes (take (length val - 1 - 6) (drop 6 val))) else None.

(** [fuel] is seventeen less the depth. *)
Fixpoint resolve (fuel : nat) (e : EnvResolver) (env path : string) : result StoreErr bytes :=
  match fuel with
  | O => Err (ErrTooDeep path)
  | S fuel =>
      match lookup_ e env path with
      | Err err => Err err
      | Ok val => match as_ref val with Some ref => resolve fuel e env ref | None => Ok val end
      end
  end.

Definition max_depth : nat := 16.

Definition Resolve (e : EnvResolver) (env path : string) : result StoreErr bytes := resolve (S max_depth) e env path.

(** ** access.go *)

Record Request := mkRequest {
  X_Tenant : string; X_Principal : string; Idempotency_Key : string; Method : string; URL_Path : string;
  q_versions : bool; q_rollback : string; Body : bytes
}.

Inductive Response :=
| HttpError (status : Z)
| WriteVersions (l : list Z)
| WriteValue (val : bytes) (version : Z)
| WriteVersion (version : Z).

Inductive AccessEvent :=
| AccessDenied (principal path reason : string)
| AccessAllowed (principal path action : string).

(** The surface serves one tenant; [a_log] is what was handed to the auditor. *)
Record APIServer := mkServer { store : Store; a_tenantID : string; a_log : list AccessEvent }.

Definition Authorizer : Type := string -> string -> string -> string -> bool * string.

Definition deny (r : Request) (reason : string) (a : APIServer) : APIServer :=
  mkServer (store a) (a_tenantID a) (a_log a ++ [AccessDenied (X_Principal r) (URL_Path r) reason]).

Definition allow (principal path action : string) (a : APIServer) : APIServer :=
  mkServer (store a) (a_tenantID a) (a_log a ++ [AccessAllowed principal path action]).

Definition with_store (s : Store) (a : APIServer) : APIServer := mkServer s (a_tenantID a) (a_log a).

Definition action_of (r : Request) : string :=
  if String.eqb (Method r) "PUT" || String.eqb (Method r) "POST" then "write" else "read".

Definition path_of (r : Request) : string := GoStrings.TrimPrefix (URL_Path r) "/secrets/".

(** [io.LimitReader]. *)
Definition body_limit : nat := N.to_nat 1048576.

(** The routes behind the guard; [wrote] is whether the client took the response. *)
Definition serve_method (r : Request) (d : Draw) (now : Z) (ok wrote : bool) (a : APIServer) : Response * APIServer :=
  let path := path_of r in
  let audited := allow (X_Principal r) path (action_of r) in
  if String.eqb (Method r) "GET" then
    if q_versions r then (WriteVersions (Versions path (store a)), a) else
    match Get path (store a) with
    | Err _ => (HttpError 404, a)
    | Ok (val, ver) => (WriteValue val ver, if wrote then audited a else a)
    end
  else if String.eqb (Method r) "PUT" then
    match Put path (take body_limit (Body r)) (Idempotency_Key r) d now ok (store a) with
    | (Err _, s) => (HttpError 500, with_store s a)
    | (Ok ver, s) => (WriteVersion ver, if wrote then audited (with_store s a) else with_store s a)
    end
  else if String.eqb (Method r) "POST" then
    if String.eqb (q_rollback r) "" then (HttpError 400, audited a) else
    match GoInt.Atoi (list_ascii_of_string (q_rollback r)) with
    | None => (HttpError 400, a)
    | Some to =>
        match Rollback path to d now ok (store a) with
        | (Err _, s) => (HttpError 400, with_store s a)
        | (Ok ver, s) => (WriteVersion ver, with_store s a)
        end
    end
  else (HttpError 405, audited a).

Definition ServeHTTP (authz : option Authorizer) (r : Request) (d : Draw) (now : Z) (ok wrote : bool) (a : APIServer) : Response * APIServer :=
  if negb (String.eqb (X_Tenant r) (a_tenantID a)) then (HttpError 403, deny r "cross-tenant" a) else
  let path := path_of r in
  if String.eqb path "" then (HttpError 400, a) else
  match authz with
  | None => serve_method r d now ok wrote a
  | Some allowed =>
      let (yes, reason) := allowed (a_tenantID a) (X_Principal r) path (action_of r) in
      if yes then serve_method r d now ok wrote a else (HttpError 403, deny r reason a)
  end.

(** ** Resolution *)

(** A path leads to a value through [n] references. *)
Inductive chain (e : EnvResolver) (env : string) : nat -> string -> bytes -> Prop :=
| chain_value path v : lookup_ e env path = Ok v -> as_ref v = None -> chain e env 0 path v
| chain_ref n path val ref v : lookup_ e env path = Ok val -> as_ref val = Some ref -> chain e env n ref v -> chain e env (S n) path v.

Inductive refers (e : EnvResolver) (env : string) : nat -> string -> string -> Prop :=
| refers_here path : refers e env 0 path path
| refers_next n path val ref p : lookup_ e env path = Ok val -> as_ref val = Some ref -> refers e env n ref p -> refers e env (S n) path p.

Lemma chain_inv e env n path v : chain e env n path v ->
  match n with
  | O => lookup_ e env path = Ok v /\ as_ref v = None
  | S n' => exists val ref, lookup_ e env path = Ok val /\ as_ref val = Some ref /\ chain e env n' ref v
  end.
Proof. destruct 1; [done|]. eauto. Qed.

Lemma refers_inv e env n path p : refers e env n path p ->
  match n with
  | O => path = p
  | S n' => exists val ref, lookup_ e env path = Ok val /\ as_ref val = Some ref /\ refers e env n' ref p
  end.
Proof. destruct 1; [done|]. eauto. Qed.

Lemma resolve_chain fuel e env path v : resolve fuel e env path = Ok v <-> exists n, (n < fuel)%nat /\ chain e env n path v.
Proof.
  revert path. induction fuel as [|fuel IH]; intros path; cbn.
  - split; [done|]. intros (n & Hn & _). lia.
  - destruct (lookup_ e env path) as [val|err] eqn:Hl.
    + destruct (as_ref val) as [ref|] eqn:Hr.
      * rewrite IH. split.
        -- intros (n & Hn & Hc). exists (S n). split; [lia|]. by eapply chain_ref.
        -- intros ([|n] & Hn & Hc); apply chain_inv in Hc; [destruct Hc; congruence|].
           destruct Hc as (val' & ref' & Hl' & Hr' & Hc). exists n. split; [lia|]. by replace ref with ref' by congruence.
      * split.
        -- intros [= <-]. exists O. split; [lia|]. by apply chain_value.
        -- intros ([|n] & Hn & Hc); apply chain_inv in Hc; [destruct Hc; congruence|]. destruct Hc as (val' & ref' & Hl' & Hr' & _). congruence.
    + split; [done|]. intros ([|n] & Hn & Hc); apply chain_inv in Hc; [destruct Hc; congruence|]. destruct Hc as (val' & ref' & Hl' & _). congruence.
Qed.

Lemma lookup_too_deep e env path p : lookup_ e env path <> Err (ErrTooDeep p).
Proof.
  assert (Hg : forall s q, (let? r := Get path s in Ok r.1) <> Err (ErrTooDeep q)).
  { intros s q. unfold Get. destruct (last _) as [r|]; cbn; [|done]. destruct (Deleted r); [done|]. unfold seal_open. by destruct (seal_Open _ _ _). }
  unfold lookup_. repeat case_match; try done; apply Hg.
Qed.

Lemma resolve_deep fuel e env path p : resolve fuel e env path = Err (ErrTooDeep p) <-> refers e env fuel path p.
Proof.
  revert path. induction fuel as [|fuel IH]; intros path; cbn.
  - split; [intros [= ->]; constructor|]. intros H%refers_inv. by subst.
  - destruct (lookup_ e env path) as [val|err] eqn:Hl.
    + destruct (as_ref val) as [ref|] eqn:Hr.
      * rewrite IH. split; [by eapply refers_next|]. intros (val' & ref' & Hl' & Hr' & H)%refers_inv. by replace ref with ref' by congruence.
      * split; [done|]. intros (val' & ref' & Hl' & Hr' & _)%refers_inv. congruence.
    + split; [intros [= ->]; by destruct (lookup_too_deep e env path p)|]. intros (val' & ref' & Hl' & _)%refers_inv. congruence.
Qed.

(** Resolution follows references and ends.  It gives a value exactly when the
    path leads to it through at most sixteen references, each looked up in the
    environment first and in the base store otherwise; it reports too deep a reference
    exactly when seventeen follow each other, as they do on every cycle. *)
Theorem Resolve_decides e env path :
  (forall v, Resolve e env path = Ok v <-> exists n, (n <= max_depth)%nat /\ chain e env n path v) /\
  (forall p, Resolve e env path = Err (ErrTooDeep p) <-> refers e env 17 path p) /\
  (forall n, refers e env (S n) path path -> exists p, Resolve e env path = Err (ErrTooDeep p)).
Proof.
  split_and!.
  - intros v. unfold Resolve. rewrite resolve_chain. split; intros (n & Hn & Hc); exists n; (split; [unfold max_depth in *; lia|done]).
  - intros p. apply resolve_deep.
  - intros n Hcyc. unfold Resolve.
    assert (Hall : forall k, exists p, refers e env k path p).
    { assert (Hpre : forall m k q q', refers e env m q q' -> (k <= m)%nat -> exists p, refers e env k q p).
      { intros m k q q' Hm. revert k. induction Hm as [q|m q val ref q' Hl Hr _ IH]; intros k Hk.
        - assert (k = O) as -> by lia. eexists. constructor.
        - destruct k as [|k]; [eexists; constructor|]. destruct (IH k ltac:(lia)) as [p Hp]. exists p. by eapply refers_next. }
      assert (Htr : forall m k q q' q'', refers e env m q q' -> refers e env k q' q'' -> refers e env (m + k) q q'').
      { intros m k q q' q'' Hm Hk. induction Hm; [done|]. cbn. eapply refers_next; eauto. }
      assert (Hrep : forall j, refers e env (j * S n) path path).
      { induction j as [|j IH]; [constructor|]. cbn [Nat.mul]. eapply Htr; eauto. }
      intros k. apply (Hpre (k * S n)%nat k path path (Hrep k)). nia. }
    destruct (Hall (S max_depth)) as [p Hp]. exists p. by apply resolve_deep.
Qed.

(** ** The handler *)

Definition authorized (authz : option Authorizer) (a : APIServer) (r : Request) : bool :=
  String.eqb (X_Tenant r) (a_tenantID a) &&
  match authz with Some allowed => (allowed (a_tenantID a) (X_Principal r) (path_of r) (action_of r)).1 | None => true end.

Lemma serve_method_write r d now ok wrote a : action_of r <> "write" -> store (serve_method r d now ok wrote a).2 = store a.
Proof.
  unfold action_of, serve_method. destruct (String.eqb (Method r) "PUT"); [done|]. destruct (String.eqb (Method r) "POST"); [done|].
  intros _. by repeat case_match.
Qed.

(** The handler serves only what is authorized.  A request of another tenant, or
    one that the authorizer denies for the action of its method, is refused, leaves
    the store as it is and is recorded as denied; a value, a version or a list of
    versions is written only to an authorized request, and the store changes only for
    one that is authorized to write. *)
Theorem access_authorized authz r d now ok wrote a :
  let (resp, a') := ServeHTTP authz r d now ok wrote a in
  (authorized authz a r = false -> (exists e, resp = HttpError e) /\ store a' = store a /\
     (path_of r <> "" -> resp = HttpError 403 /\ exists reason, a_log a' = a_log a ++ [AccessDenied (X_Principal r) (URL_Path r) reason])) /\
  ((forall e, resp <> HttpError e) -> authorized authz a r = true /\ path_of r <> "") /\
  (store a' <> store a -> authorized authz a r = true /\ action_of r = "write").
Proof.
  unfold ServeHTTP, authorized. destruct (String.eqb (X_Tenant r) (a_tenantID a)); cbn [negb andb].
  2: { split_and!; [|intros H; by destruct (H 403)|done]. intros _. split_and!; [by eexists|done|]. intros _. split; [done|]. by eexists. }
  destruct (String.eqb_spec (path_of r) "") as [He|Hp].
  { split_and!; [|intros H; by destruct (H 400)|done]. intros _. split_and!; [by eexists|done|]. intros H. by destruct H. }
  assert (Hm : forall x, serve_method r d now ok wrote a = x -> store x.2 <> store a -> action_of r = "write").
  { intros x <- Hs. destruct (String.eqb_spec (action_of r) "write"); [done|]. destruct Hs. by apply serve_method_write. }
  destruct authz as [allowed|].
  - destruct (allowed _ _ _ _) as [yes reason]. destruct yes; cbn [fst].
    + destruct (serve_method r d now ok wrote a) as [resp a'] eqn:Hs. split_and!; [done|done|]. intros Hne. split; [done|]. by apply (Hm _ eq_refl).
    + split_and!; [|intros H; by destruct (H 403)|done]. intros _. split_and!; [by eexists|done|]. intros _. split; [done|]. by eexists.
  - destruct (serve_method r d now ok wrote a) as [resp a'] eqn:Hs. split_and!; [done|done|]. intros Hne. split; [done|]. by apply (Hm _ eq_refl).
Qed.

(** A body beyond the limit is cut, and the rest is dropped without an error. *)
Lemma body_cut r d now ok wrote a : Method r = "PUT" ->
  serve_method r d now ok wrote a =
  serve_method (mkRequest (X_Tenant r) (X_Principal r) (Idempotency_Key r) (Method r) (URL_Path r) (q_versions r) (q_rollback r) (take body_limit (Body r))) d now ok wrote a.
Proof.
  intros Hm. destruct r. cbn in Hm. subst. unfold serve_method, path_of, action_of.
  cbn [X_Tenant X_Principal Idempotency_Key Method URL_Path q_versions q_rollback Body]. by rewrite take_take, Nat.min_id.
Qed.

(** Lists and rollbacks are not recorded. *)
Lemma rollback_unrecorded r d now ok wrote a : Method r = "POST" -> q_rollback r <> "" ->
  a_log (serve_method r d now ok wrote a).2 = a_log a.
Proof.
  intros Hm Hq. unfold serve_method. rewrite Hm. cbn [String.eqb Ascii.eqb Bool.eqb].
  rewrite (proj2 (String.eqb_neq _ _) Hq). destruct (GoInt.Atoi _); [|done]. by destruct (Rollback _ _ _ _ _ _) as [[?|?] s].
Qed.

End WithAEAD.
End SecretAccess.
