(* ===== verification/ShareLinks.v ===== *)
(** * One-time secret links

    [src/internal/secretshare/secretshare.go]: a secret behind a token that redeems it
    once and before it expires.  The hash of tokens is a parameter; tokens, identifiers
    and times are arguments. *)

From S2P Require Import Prelude SealVault.
Open Scope string_scope.
Open Scope list_scope.
Open Scope Z_scope.

Module ShareLinks.
Import SE SealVault.

Record link := mkLink { secret : bytes; shareID : string; expiresAt : Z; viewed : bool }.

Inductive ShareEvent := Shared (shareID tokenHash : string) | ShareViewed (shareID tokenHash : string).

Record Sharer := mkSharer { links : gmap string link; events : list ShareEvent }.

Inductive ShareErr := ErrDraw | ErrLinkNotFound | ErrLinkExpired.

Section Sharer_.
(** [crypto.SHA256Hex]. *)
Variable SHA256Hex : bytes -> string.

Definition New : Sharer := mkSharer ∅ [].

(** [tok] and [id] are what the two draws give. *)
Definition Create (value : bytes) (ttl : Z) (tok : option bytes) (id : option string) (now : Z) : M Sharer ShareErr bytes := fun s =>
  match tok, id with
  | Some token, Some shareID =>
      let h := SHA256Hex token in
      (Ok token, mkSharer (<[h := mkLink value shareID (now + ttl) false]> (links s)) (events s ++ [Shared shareID h]))
  | _, _ => (Err ErrDraw, s)
  end.

Definition View (token : bytes) (now : Z) : M Sharer ShareErr bytes := fun s =>
  let h := SHA256Hex token in
  match links s !! h with
  | None => (Err ErrLinkNotFound, s)
  | Some l =>
      if viewed l || (expiresAt l <? now) then (Err ErrLinkExpired, mkSharer (delete h (links s)) (events s))
      else (Ok (secret l), mkSharer (delete h (links s)) (events s ++ [ShareViewed (shareID l) h]))
  end.

Definition Sharer_Destroy (s : Sharer) : Sharer := mkSharer ∅ (events s).

(** ** Runs: the calls and their results *)

Inductive call :=
| CCreate (value : bytes) (ttl : Z) (tok : option bytes) (id : option string) (now : Z)
| CView (token : bytes) (now : Z)
| CDestroy.

Definition exec (c : call) (s : Sharer) : option (result ShareErr bytes) * Sharer :=
  match c with
  | CCreate value ttl tok id now => let (r, s') := Create value ttl tok id now s in (Some r, s')
  | CView token now => let (r, s') := View token now s in (Some r, s')
  | CDestroy => (None, Sharer_Destroy s)
  end.

(** The history of a run, latest first. *)
Inductive run : list (call * option (result ShareErr bytes)) -> Sharer -> Prop :=
| run_nil : run [] New
| run_cons c r l s s' : run l s -> exec c s = (r, s') -> run ((c, r) :: l) s'.

(** The creations and the redemptions of a token hash in a history. *)
Definition creates (h : string) (x : call * option (result ShareErr bytes)) : bool :=
  match x with (CCreate _ _ (Some t) (Some _) _, _) => String.eqb (SHA256Hex t) h | _ => false end.
Definition redeems (h : string) (x : call * option (result ShareErr bytes)) : bool :=
  match x with (CView t _, Some (Ok _)) => String.eqb (SHA256Hex t) h | _ => false end.

Definition count (f : call * option (result ShareErr bytes) -> bool) (l : list (call * option (result ShareErr bytes))) : nat :=
  length (List.filter f l).

Lemma count_cons f x l : count f (x :: l) = ((if f x then 1 else 0) + count f l)%nat.
Proof. unfold count. cbn. by destruct (f x). Qed.

(** What a link in the table comes from: the last call on its hash created it. *)
Definition fresh_link (h : string) (k : link) (l : list (call * option (result ShareErr bytes))) : Prop :=
  exists value ttl t id now r, l !! 0%nat = Some (CCreate value ttl (Some t) (Some id) now, r) /\ SHA256Hex t = h /\
    k = mkLink value id (now + ttl) false.

Lemma run_links l s : run l s -> forall h,
  ((count (redeems h) l + match links s !! h with Some _ => 1 | None => 0 end <= count (creates h) l)%nat) /\
  forall k, links s !! h = Some k -> exists n, fresh_link h k (drop n l) /\ forall x, x ∈ take n l -> creates h x = false /\ redeems h x = false.
Proof.
  induction 1 as [|c r l s s' _ IH He]; intros h; [by split|]. specialize (IH h) as [Hc Hk]. rewrite !count_cons.
  assert (Hkeep : forall k, links s !! h = Some k -> creates h (c, r) = false -> redeems h (c, r) = false ->
    exists n, fresh_link h k (drop n ((c, r) :: l)) /\ forall x, x ∈ take n ((c, r) :: l) -> creates h x = false /\ redeems h x = false).
  { intros k Hl H1 H2. destruct (Hk k Hl) as (n & Hf & Hn). exists (S n). split; [done|]. intros x [->|Hx]%elem_of_cons; auto. }
  destruct c as [value ttl tok id now|token now|]; cbn in He.
  - unfold Create in He. destruct tok as [t|]; [destruct id as [i|]|]; injection He as <- <-; cbn [creates redeems] in *; [|by auto..].
    cbn [links]. destruct (String.eqb_spec (SHA256Hex t) h) as [Hh|Hh].
    + rewrite Hh, lookup_insert_eq. split; [destruct (links s !! h); lia|]. intros k [= <-].
      exists 0%nat. split; [by do 6 eexists|]. intros x Hx. by apply elem_of_nil in Hx.
    + rewrite lookup_insert_ne by done. auto.
  - unfold View in He. destruct (links s !! SHA256Hex token) as [k0|] eqn:Hl; [|injection He as <- <-; cbn [creates redeems] in *; by auto].
    destruct (viewed k0 || (expiresAt k0 <? now)); injection He as <- <-; cbn [creates redeems links] in *.
    + destruct (decide (SHA256Hex token = h)) as [<-|Hh]; [rewrite lookup_delete_eq; split; [rewrite Hl in Hc; lia|done]|].
      rewrite lookup_delete_ne by done. auto.
    + destruct (String.eqb_spec (SHA256Hex token) h) as [<-|Hh]; [rewrite lookup_delete_eq; split; [rewrite Hl in Hc; lia|done]|].
      rewrite lookup_delete_ne by done. auto.
  - injection He as <- <-. cbn. rewrite lookup_empty. split; [lia|done].
Qed.

(** A link is redeemed once.  In any run a token is redeemed at most as often as
    links were created under its hash; and when it is redeemed, the secret is that of
    the last creation under its hash, before its expiry, and neither a redemption nor
    another creation has come between. *)
Theorem share_once l s token now : run l s ->
  (forall h, (count (redeems h) l <= count (creates h) l)%nat) /\
  forall v, (View token now s).1 = Ok v ->
    exists n value ttl t id at_ r, l !! n = Some (CCreate value ttl (Some t) (Some id) at_, r) /\ SHA256Hex t = SHA256Hex token /\
      v = value /\ now <= at_ + ttl /\
      (forall x, x ∈ take n l -> creates (SHA256Hex token) x = false /\ redeems (SHA256Hex token) x = false) /\
      (forall later, (View token later (View token now s).2).1 = Err ErrLinkNotFound).
Proof.
  intros Hr. split.
  { intros h. destruct (run_links _ _ Hr h) as [Hc _]. lia. }
  intros v. unfold View. destruct (links s !! SHA256Hex token) as [k|] eqn:Hl; [|done].
  destruct (run_links _ _ Hr (SHA256Hex token)) as [_ Hk]. destruct (Hk k Hl) as (n & (value & ttl & t & id & at_ & r & Hn & Ht & ->) & Hno).
  cbn [viewed expiresAt secret orb]. destruct (Z.ltb_spec (at_ + ttl) now) as [|Hle]; [done|]. intros [= <-].
  exists n, value, ttl, t, id, at_, r. split_and!; try done.
  - by rewrite lookup_drop, Nat.add_0_r in Hn.
  - intros later. cbn. by rewrite lookup_delete_eq.
Qed.

End Sharer_.

(** ** An example *)

Definition demo_hash (b : bytes) : string := of_bytes b.

Definition demo_calls : list (call * option (result ShareErr bytes)) := [(CCreate [5] 10 (Some [65]) (Some "id") 0, Some (Ok [65]))].
Definition demo_sharer : Sharer := (Create demo_hash [5] 10 (Some [65]) (Some "id") 0 New).2.

Lemma demo_run : run demo_hash demo_calls demo_sharer.
Proof. eapply run_cons; [apply run_nil|reflexivity]. Qed.

Lemma share_once_witness : (View demo_hash [65] 7 demo_sharer).1 = Ok [5] /\
  forall later, (View demo_hash [65] later (View demo_hash [65] 7 demo_sharer).2).1 = Err ErrLinkNotFound.
Proof.
  split; [reflexivity|].
  destruct (proj2 (share_once demo_hash demo_calls demo_sharer [65] 7 demo_run) [5] eq_refl) as (n & value & ttl & t & id & at_ & r & H).
  apply H.
Defined.

End ShareLinks.
