(* ===== verification/Graph.v ===== *)
(** * The credential graph

    [src/internal/graph/graph.go] and the evaluation of [src/internal/graph/cypher.go]:
    nodes and typed edges, direct neighbours, the breadth-first search behind the blast
    radius, and the matching of a path query.  The search has fuel, one more than the
    nodes, which is proved to be enough.  Adjacency, edge list and deduplication keys
    are kept as the code keeps them. *)

From S2P Require Import Prelude.
Open Scope string_scope.
Open Scope list_scope.

Module Graph.

(** ** graph.go: data *)

Definition KindWorkload : string := "workload".
Definition KindCredential : string := "credential".
Definition KindResource : string := "resource".
Definition KindIssuer : string := "issuer".
Definition KindCryptoAsset : string := "crypto-asset".

Definition EdgeIssued : string := "ISSUED".
Definition EdgeOwns : string := "OWNS".
Definition EdgeDeployedTo : string := "DEPLOYED_TO".
Definition EdgeGrantsAccess : string := "GRANTS_ACCESS".
Definition EdgeExhibits : string := "EXHIBITS".

Record Node := mkNode { ID : string; Kind : string; Name : string; Attrs : gmap string string }.
Record Edge := mkEdge { From : string; To : string; EType : string }.
#[export] Instance Edge_eq_dec : EqDecision Edge.
Proof. solve_decision. Defined.

Record Graph := mkGraph {
  nodes : gmap string Node; out : gmap string (list Edge); edges : list Edge; seen : gset string
}.

Definition New : Graph := mkGraph ∅ ∅ [] ∅.

Definition AddNode (n : Node) (g : Graph) : Graph := mkGraph (<[ID n := n]> (nodes g)) (out g) (edges g) (seen g).

Definition edge_key (e : Edge) : string := From e +:+ "|" +:+ EType e +:+ "|" +:+ To e.

Definition adj (g : Graph) (id : string) : list Edge := default [] (out g !! id).

Definition AddEdge (e : Edge) (g : Graph) : Graph :=
  if decide (edge_key e ∈ seen g) then g else
  mkGraph (nodes g) (<[From e := adj g (From e) ++ [e]]> (out g)) (edges g ++ [e]) ({[edge_key e]} ∪ seen g).

Definition Order (g : Graph) : nat := size (nodes g).
Definition Size (g : Graph) : nat := length (edges g).

(** [sort.Slice] by a key: insertion sort, since keys are distinct where it is used. *)
Definition before (a b : Node) : bool := String.leb (ID a) (ID b).

Fixpoint insert_by {A} (le : A -> A -> bool) (x : A) (l : list A) : list A :=
  match l with
  | [] => [x]
  | y :: l' => if le x y then x :: l else y :: insert_by le x l'
  end.

Definition sort_by {A} (le : A -> A -> bool) (l : list A) : list A := foldr (insert_by le) [] l.

Definition Nodes (g : Graph) : list Node := sort_by before (snd <$> map_to_list (nodes g)).

Definition allows (types : list string) (t : string) : bool :=
  match types with [] => true | _ => existsb (String.eqb t) types end.

(** ** Neighbours and reachability *)

Definition neighbor_step (g : Graph) (types : list string) (acc : list Node * gset string) (e : Edge) : list Node * gset string :=
  let (o, sn) := acc in
  if negb (allows types (EType e)) || bool_decide (To e ∈ sn) then acc else
  match nodes g !! To e with
  | Some n => (o ++ [n], {[To e]} ∪ sn)
  | None => acc
  end.

Definition Neighbors (g : Graph) (id : string) (types : list string) : list Node :=
  sort_by before (fold_left (neighbor_step g types) (adj g id) ([], ∅)).1.

(** What the search has visited, still has to visit, and has found. *)
Record Search := mkSearch { visited : gset string; queue : list string; found : list Node }.

Definition visit (g : Graph) (types : list string) (s : Search) (e : Edge) : Search :=
  if negb (allows types (EType e)) || bool_decide (To e ∈ visited s) then s else
  let v := {[To e]} ∪ visited s in
  match nodes g !! To e with
  | Some n => mkSearch v (queue s ++ [To e]) (found s ++ [n])
  | None => mkSearch v (queue s) (found s)
  end.

Fixpoint search (fuel : nat) (g : Graph) (types : list string) (s : Search) : option (list Node) :=
  match queue s with
  | [] => Some (found s)
  | cur :: q =>
      match fuel with
      | O => None
      | S fuel => search fuel g types (fold_left (visit g types) (adj g cur) (mkSearch (visited s) q (found s)))
      end
  end.

Definition search_fuel (g : Graph) : nat := S (Order g).

Definition Reachable (g : Graph) (from : string) (types : list string) : list Node :=
  sort_by before (default [] (search (search_fuel g) g types (mkSearch {[from]} [from] []))).

Definition Reaches (g : Graph) (from to : string) : bool :=
  if String.eqb from to then false else existsb (fun n => String.eqb (ID n) to) (Reachable g from []).

Definition zeroNode : Node := mkNode "" "" "" ∅.

Record Impact := mkImpact { imp_Node : Node; Affected : list Node; ByKind : gmap string (list Node) }.

Definition group (m : gmap string (list Node)) (n : Node) : gmap string (list Node) :=
  <[Kind n := default [] (m !! Kind n) ++ [n]]> m.

Definition BlastRadius (g : Graph) (id : string) : Impact :=
  let affected := Reachable g id [] in
  mkImpact (default zeroNode (nodes g !! id)) affected (fold_left group affected ∅).

(** ** cypher.go: evaluation of a parsed query *)

Record nodePat := mkPat { varName : string; pKind : string }.
Record predicate := mkPred { pr_var : string; pr_field : string; pr_value : string }.
Record retCol := mkCol { rc_expr : string; rc_var : string; rc_field : string }.
Record cypherQuery := mkQuery { q_nodes : list nodePat; q_edges : list string; q_where : list predicate; q_ret : list retCol }.

Definition Row := gmap string string.
Definition Binding := gmap string string.

Definition matchesKind (n : Node) (k : string) : bool := String.eqb k "" || String.eqb (Kind n) k.

Definition nodeField (n : Node) (f : string) : string :=
  if String.eqb f "id" then ID n else if String.eqb f "kind" then Kind n else if String.eqb f "name" then Name n
  else default "" (Attrs n !! f).

(** A missing key of a map reads as the zero value. *)
Definition bound_node (g : Graph) (b : Binding) (v : string) : Node := default zeroNode (nodes g !! default "" (b !! v)).

Definition satisfies (g : Graph) (b : Binding) (preds : list predicate) : bool :=
  forallb (fun p => String.eqb (nodeField (bound_node g b (pr_var p)) (pr_field p)) (pr_value p)) preds.

(** One binding along the edges of one type. *)
Definition extend (g : Graph) (fromVar et : string) (toPat : nodePat) (b : Binding) : list Binding :=
  omap (fun e =>
          if negb (String.eqb (EType e) et) then None else
          match nodes g !! To e with
          | Some tn => if matchesKind tn (pKind toPat) then Some (<[varName toPat := To e]> b) else None
          | None => None
          end) (adj g (default "" (b !! fromVar))).

Fixpoint extend_all (g : Graph) (fromVar : string) (ets : list string) (pats : list nodePat) (bs : list Binding) : list Binding :=
  match ets, pats with
  | et :: ets', p :: pats' => extend_all g (varName p) ets' pats' (mbind (extend g fromVar et p) bs)
  | _, _ => bs
  end.

Definition col_value (g : Graph) (b : Binding) (rc : retCol) : string :=
  let n := bound_node g b (rc_var rc) in if String.eqb (rc_field rc) "" then ID n else nodeField n (rc_field rc).

Definition project (g : Graph) (ret : list retCol) (b : Binding) : Row :=
  fold_left (fun row rc => <[rc_expr rc := col_value g b rc]> row) ret ∅.

Definition nul : string := String Ascii.zero "".

Definition row_key (g : Graph) (ret : list retCol) (b : Binding) : string :=
  String.concat nul (map (fun rc => rc_expr rc +:+ "=" +:+ col_value g b rc) ret).

Fixpoint dedup (g : Graph) (ret : list retCol) (sn : gset string) (bs : list Binding) : list Row :=
  match bs with
  | [] => []
  | b :: bs' =>
      let k := row_key g ret b in
      if decide (k ∈ sn) then dedup g ret sn bs' else project g ret b :: dedup g ret ({[k]} ∪ sn) bs'
  end.

Fixpoint row_le (cols : list retCol) (a b : Row) : bool :=
  match cols with
  | [] => true
  | c :: cols' =>
      let x := default "" (a !! rc_expr c) in let y := default "" (b !! rc_expr c) in
      if String.eqb x y then row_le cols' a b else String.ltb x y
  end.

Definition execCypher (g : Graph) (cq : cypherQuery) : list Row :=
  match q_nodes cq with
  | [] => []
  | p :: pats =>
      let bs0 := (fun n => {[varName p := ID n]} : Binding) <$> List.filter (fun n => matchesKind n (pKind p)) (Nodes g) in
      let kept := List.filter (fun b => satisfies g b (q_where cq)) (extend_all g (varName p) (q_edges cq) pats bs0) in
      sort_by (row_le (q_ret cq)) (dedup g (q_ret cq) ∅ kept)
  end.

End Graph.
