(* ===== verification/GraphSpec.v ===== *)
(** * The blast radius is reachability

    The search of [Graph] ends and finds exactly the nodes that a chain of permitted
    edges reaches; the groups of a blast radius are its partition by kind; a query
    returns exactly the projections of the paths that match it. *)

From Stdlib Require Import Sorted.
From S2P Require Import Prelude Graph.
Open Scope string_scope.
Open Scope list_scope.

Module GraphSpec.
Import Graph.

(** ** Sorting *)

Lemma leb_trans a b c : String.leb a b = true -> String.leb b c = true -> String.leb a c = true.
Proof.
  unfold String.leb. revert b c. induction a as [|x a IH]; intros [|y b] [|z c]; cbn; try done.
  unfold Ascii.compare. destruct (N.compare_spec (N_of_ascii x) (N_of_ascii y)) as [Hxy|Hxy|Hxy]; [| |done].
  - rewrite Hxy. destruct (N.compare_spec (N_of_ascii y) (N_of_ascii z)); [apply IH|done|done].
  - intros _. destruct (N.compare_spec (N_of_ascii y) (N_of_ascii z)) as [Hyz|Hyz|Hyz]; [| |done].
    + rewrite <- Hyz. by rewrite (proj2 (N.compare_lt_iff _ _) Hxy).
    + rewrite (proj2 (N.compare_lt_iff (N_of_ascii x) (N_of_ascii z))); [done|lia].
Qed.

Lemma insert_by_perm {A} (le : A -> A -> bool) x l : insert_by le x l ≡ₚ x :: l.
Proof. induction l as [|y l IH]; cbn; [done|]. destruct (le x y); [done|]. rewrite IH. apply Permutation_swap. Qed.

Lemma sort_by_perm {A} (le : A -> A -> bool) l : sort_by le l ≡ₚ l.
Proof. induction l as [|x l IH]; cbn; [done|]. by rewrite insert_by_perm, IH. Qed.

(** Sorted by ID. *)
Definition ordered (l : list Node) : Prop := StronglySorted (fun a b => String.leb (ID a) (ID b) = true) l.

Lemma insert_ordered x l : ordered l -> ordered (insert_by before x l).
Proof.
  unfold ordered, before. induction 1 as [|y l Hl IH Hy]; cbn.
  - repeat constructor.
  - destruct (String.leb (ID x) (ID y)) eqn:E.
    + constructor; [by constructor|]. constructor; [done|]. eapply Forall_impl; [exact Hy|]. intros z Hz. cbn in *. by eapply leb_trans.
    + constructor; [done|]. rewrite insert_by_perm. constructor; [|done]. by destruct (String.leb_total (ID x) (ID y)); [congruence|].
Qed.

Lemma sort_ordered l : ordered (sort_by before l).
Proof. induction l as [|x l IH]; [constructor|]. by apply insert_ordered. Qed.

(** ** Well-formed graphs *)

Record wf (g : Graph) : Prop := mkWf {
  wf_id i n : nodes g !! i = Some n -> ID n = i;
  wf_adj i : adj g i = List.filter (fun e => String.eqb (From e) i) (edges g);
  wf_seen k : k ∈ seen g <-> exists e, e ∈ edges g /\ edge_key e = k;
  wf_nodup : NoDup (edge_key <$> edges g)
}.

Lemma wf_New : wf New.
Proof. split; try done. - intros k. split; [set_solver|]. intros (e & He & _). by apply elem_of_nil in He. - constructor. Qed.

Lemma wf_AddNode n g : wf g -> wf (AddNode n g).
Proof. intros [H1 H2 H3 H4]. split; try done. cbn. intros i x [[<- <-]|[_ Hx]]%lookup_insert_Some; auto. Qed.

Lemma wf_AddEdge e g : wf g -> wf (AddEdge e g).
Proof.
  intros [H1 H2 H3 H4]. unfold AddEdge. destruct (decide (edge_key e ∈ seen g)) as [Hin|Hnin]; [by split|]. split; cbn.
  - done.
  - intros i. unfold adj at 1. cbn. rewrite List.filter_app. cbn. destruct (String.eqb_spec (From e) i) as [<-|Hne].
    + by rewrite lookup_insert_eq, <- H2.
    + rewrite lookup_insert_ne, app_nil_r by done. apply H2.
  - intros k. rewrite elem_of_union, elem_of_singleton, H3. split.
    + intros [->|(x & Hx & Hk)]; [exists e|exists x]; rewrite elem_of_app; [|by auto]. split; [|done]. right. by left.
    + intros (x & [Hx|Hx]%elem_of_app & Hk); [right; by exists x|left]. by apply list_elem_of_singleton in Hx as ->.
  - rewrite fmap_app. apply NoDup_app. split_and!; [done| |apply NoDup_singleton].
    intros k (x & -> & Hx)%list_elem_of_fmap. cbn. rewrite list_elem_of_singleton. intros He. apply Hnin, H3. by exists x.
Qed.

(** ** The search *)

(** A permitted edge to a node of the graph. *)
Definition hop (g : Graph) (types : list string) (x y : string) : Prop :=
  exists e, e ∈ adj g x /\ allows types (EType e) = true /\ To e = y /\ is_Some (nodes g !! y).

Section Search_.
Variables (g : Graph) (types : list string) (from : string).
Hypothesis Hid : forall i n, nodes g !! i = Some n -> ID n = i.

(** [pending] are edges of the current node still to look at. *)
Record sinv (done : list string) (s : Search) (pending : list Edge) : Prop := mkSinv {
  si_split : done ++ queue s = from :: (ID <$> found s);
  si_nodup : NoDup (done ++ queue s);
  si_found n : n ∈ found s -> nodes g !! ID n = Some n /\ tc (hop g types) from (ID n);
  si_visited x : x ∈ done ++ queue s -> x ∈ visited s;
  si_seen x : x ∈ visited s -> x = from \/ nodes g !! x = None \/ x ∈ ID <$> found s;
  si_closed x e : x ∈ done -> e ∈ adj g x -> allows types (EType e) = true -> To e ∈ visited s \/ e ∈ pending
}.

Lemma visit_inv done s e pending cur : sinv done s (e :: pending) -> cur ∈ done -> e ∈ adj g cur ->
  sinv done (visit g types s e) pending.
Proof.
  intros [Hs Hn Hf Hv Hsn Hc] Hcur He. unfold visit.
  assert (Hstay : allows types (EType e) = false \/ To e ∈ visited s -> sinv done s pending).
  { intros Hst. split; try done. intros x e' Hx He' Ha. destruct (Hc x e' Hx He' Ha) as [|[->|]%elem_of_cons]; [by left| |by right].
    destruct Hst as [Hst|]; [congruence|by left]. }
  destruct (allows types (EType e)) eqn:Ha; cbn [negb orb]; [|apply Hstay; by left].
  case_bool_decide as Hin; [apply Hstay; by right|].
  assert (Hcl : forall x e', x ∈ done -> e' ∈ adj g x -> allows types (EType e') = true -> To e' ∈ {[To e]} ∪ visited s \/ e' ∈ pending).
  { intros x e' Hx He' Ha'. destruct (Hc x e' Hx He' Ha') as [|[->|]%elem_of_cons]; [left; set_solver|left; set_solver|by right]. }
  assert (Hout : To e ∉ done ++ queue s) by (intros Hd; by apply Hin, Hv).
  destruct (nodes g !! To e) as [n|] eqn:Hnode.
  - pose proof (Hid _ _ Hnode) as Hidn. split; cbn; try done.
    + rewrite app_assoc, Hs, fmap_app, <- Hidn. done.
    + rewrite app_assoc. apply NoDup_app. split_and!; [done| |apply NoDup_singleton].
      intros x Hx Hx'. apply list_elem_of_singleton in Hx' as ->. done.
    + intros m [Hm| ->%list_elem_of_singleton]%elem_of_app; [auto|]. rewrite Hidn. split; [done|].
      assert (Hhop : hop g types cur (To e)) by (exists e; split_and!; [done..|by rewrite Hnode]).
      assert (Hcur' : cur = from \/ cur ∈ ID <$> found s) by (apply elem_of_cons; rewrite <- Hs; apply elem_of_app; by left).
      destruct Hcur' as [->|(m & -> & Hm)%list_elem_of_fmap]; [by apply tc_once|]. eapply tc_r; [by apply Hf|done].
    + intros x. rewrite app_assoc. intros [Hx| ->%list_elem_of_singleton]%elem_of_app; [|set_solver]. specialize (Hv x Hx). set_solver.
    + intros x [->%elem_of_singleton|Hx]%elem_of_union.
      * right; right. rewrite fmap_app, elem_of_app. right. rewrite <- Hidn. by left.
      * destruct (Hsn x Hx) as [|[|]]; [by left|right; by left|right; right]. rewrite fmap_app, elem_of_app. by left.
  - split; cbn; try done.
    + intros x Hx. specialize (Hv x Hx). set_solver.
    + intros x [->%elem_of_singleton|Hx]%elem_of_union; [right; by left|auto].
Qed.

Lemma visits_inv done cur pending : forall s, sinv done s pending -> cur ∈ done -> Forall (fun e => e ∈ adj g cur) pending ->
  sinv done (fold_left (visit g types) pending s) [].
Proof.
  induction pending as [|e pending IH]; intros s Hs Hcur Hp; [done|]. apply Forall_cons in Hp as [He Hp]. cbn.
  apply IH; [|done..]. by eapply visit_inv.
Qed.

(** The ids handled are distinct and, but for the first, nodes. *)
Lemma search_bound done s : sinv done s [] -> (length (done ++ queue s) <= search_fuel g)%nat.
Proof.
  intros [Hs Hn Hf _ _ _]. rewrite Hs in *. cbn. unfold search_fuel, Order.
  apply NoDup_cons in Hn as [_ Hn]. apply le_n_S. rewrite <- (size_dom (D := gset string) (nodes g)).
  rewrite <- (size_list_to_set (C := gset string) (ID <$> found s) Hn). apply subseteq_size.
  intros x. rewrite elem_of_list_to_set. intros (n & -> & Hx)%list_elem_of_fmap. apply elem_of_dom. destruct (Hf n Hx) as [-> _]. by eexists.
Qed.

Lemma search_ends fuel : forall done s, sinv done s [] -> (search_fuel g <= fuel + length done)%nat ->
  exists done' s', search fuel g types s = Some (found s') /\ sinv done' s' [] /\ queue s' = [].
Proof.
  induction fuel as [|fuel IH]; intros done s Hs Hfuel.
  - pose proof (search_bound _ _ Hs) as Hb. rewrite length_app in Hb. cbn. destruct (queue s) as [|cur q] eqn:Hq; [by exists done, s|]. cbn in Hb. lia.
  - cbn. destruct (queue s) as [|cur q] eqn:Hq; [by exists done, s|].
    apply (IH (done ++ [cur])); [|rewrite length_app; cbn; lia].
    apply (visits_inv _ cur).
    + destruct Hs as [Hsp Hn Hf Hv Hsn Hc]. rewrite Hq in *. split; cbn; try done.
      * by rewrite <- app_assoc.
      * by rewrite <- app_assoc.
      * intros x. rewrite <- app_assoc. apply Hv.
      * intros x e [Hx| ->%list_elem_of_singleton]%elem_of_app He Ha; [|by right]. destruct (Hc x e Hx He Ha) as [|Hn']; [by left|by apply elem_of_nil in Hn'].
    + apply elem_of_app. right. by left.
    + by apply Forall_forall.
Qed.

Lemma search_start : sinv [] (mkSearch {[from]} [from] []) [].
Proof.
  split; cbn; try done.
  - apply NoDup_singleton.
  - intros n Hn. by apply elem_of_nil in Hn.
  - intros x ->%list_elem_of_singleton. set_solver.
  - intros x ->%elem_of_singleton. by left.
  - intros x e Hx. by apply elem_of_nil in Hx.
Qed.

(** At the end what was found is closed under hops. *)
Lemma search_complete done s y : sinv done s [] -> queue s = [] -> tc (hop g types) from y -> y = from \/ y ∈ ID <$> found s.
Proof.
  intros [Hs Hn Hf Hv Hsn Hc] Hq Ht. rewrite Hq, app_nil_r in *. apply tc_rtc in Ht.
  revert y Ht. apply (rtc_ind_r (fun y => y = from \/ y ∈ ID <$> found s)); [by left|]. intros x y _ Hr IH. destruct Hr as (e & He & Ha & <- & Hex).
  assert (Hx : x ∈ done) by (rewrite Hs; apply elem_of_cons; destruct IH as [->|]; [by left|by right]).
  destruct (Hc x e Hx He Ha) as [Hvis|Hn']; [|by apply elem_of_nil in Hn'].
  destruct (Hsn _ Hvis) as [|[Hnone|]]; [by left| |by right]. rewrite Hnone in Hex. by destruct Hex.
Qed.

Lemma search_result : exists l, search (search_fuel g) g types (mkSearch {[from]} [from] []) = Some l /\
  NoDup (ID <$> l) /\ forall n, n ∈ l <-> nodes g !! ID n = Some n /\ ID n <> from /\ tc (hop g types) from (ID n).
Proof.
  destruct (search_ends (search_fuel g) [] _ search_start) as (done' & s' & Hs & HI & Hq); [lia|].
  exists (found s'). split; [done|]. pose proof HI as [Hsp Hn Hf Hv Hsn Hc]. rewrite Hsp in Hn. apply NoDup_cons in Hn as [Hfrom Hn].
  split; [done|]. intros n. split.
  - intros Hin. destruct (Hf n Hin) as [H1 H2]. split_and!; [done| |done]. intros He. apply Hfrom. rewrite <- He. by apply list_elem_of_fmap_2.
  - intros (Hnode & Hne & Ht). destruct (search_complete _ _ _ HI Hq Ht) as [|(m & Hm & Hin)%list_elem_of_fmap]; [done|].
    destruct (Hf m Hin) as [Hm' _]. rewrite <- Hm in Hm'. by simplify_eq.
Qed.

End Search_.

(** The search ends and is right: in a graph that was built by adding nodes and
    edges, [Reachable] returns, sorted by id and without repetition, exactly the nodes
    that a chain of edges of the permitted types reaches through nodes of the graph,
    other than the start. *)
Theorem Reachable_decides g from types : wf g ->
  is_Some (search (search_fuel g) g types (mkSearch {[from]} [from] [])) /\
  ordered (Reachable g from types) /\ NoDup (ID <$> Reachable g from types) /\
  (forall n, n ∈ Reachable g from types <-> nodes g !! ID n = Some n /\ ID n <> from /\ tc (hop g types) from (ID n)) /\
  (forall to, Reaches g from to = true <-> to <> from /\ is_Some (nodes g !! to) /\ tc (hop g []) from to).
Proof.
  intros Hwf. destruct (search_result g types from (wf_id g Hwf)) as (l & Hl & Hn & Hin). unfold Reachable. rewrite Hl. cbn.
  split_and!; [by eexists|apply sort_ordered| | |].
  - by rewrite (fmap_Permutation ID _ _ (sort_by_perm before l)).
  - intros n. rewrite (sort_by_perm before l). apply Hin.
  - intros to. destruct (search_result g [] from (wf_id g Hwf)) as (l' & Hl' & _ & Hin'). unfold Reaches, Reachable. rewrite Hl'. cbn.
    destruct (String.eqb_spec from to) as [->|Hne]; [split; [done|]; by intros [? _]|]. rewrite existsb_exists. split.
    + intros (n & Hn' & He%String.eqb_eq). apply list_elem_of_In in Hn'. rewrite (sort_by_perm before l') in Hn'.
      apply Hin' in Hn' as (H1 & H2 & H3). rewrite He in *. split_and!; [done..|by eexists|done].
    + intros (_ & [n Hn'] & Ht). exists n. pose proof (wf_id g Hwf _ _ Hn') as He. split; [|by apply String.eqb_eq].
      apply list_elem_of_In. rewrite (sort_by_perm before l'). apply Hin'. rewrite He. done.
Qed.

(** ** Groups *)

Lemma group_all l : forall m k, default [] (fold_left group l m !! k) = default [] (m !! k) ++ List.filter (fun n => String.eqb (Kind n) k) l.
Proof.
  induction l as [|n l IH]; intros m k; cbn; [by rewrite app_nil_r|]. rewrite IH. unfold group.
  destruct (String.eqb_spec (Kind n) k) as [<-|Hne]; [rewrite lookup_insert_eq; cbn; by rewrite <- app_assoc|by rewrite lookup_insert_ne].
Qed.

(** The groups of a blast radius are the affected nodes of each kind, in order. *)
Lemma BlastRadius_groups g id k :
  default [] (ByKind (BlastRadius g id) !! k) = List.filter (fun n => String.eqb (Kind n) k) (Affected (BlastRadius g id)).
Proof. cbn. rewrite group_all. by rewrite lookup_empty. Qed.

(** ** Queries *)

(** The nodes after [x] along the pattern. *)
Fixpoint steps (g : Graph) (x : string) (ets : list string) (pats : list nodePat) (xs : list string) : Prop :=
  match ets, pats, xs with
  | [], [], [] => True
  | et :: ets', p :: pats', y :: ys =>
      (exists e n, e ∈ adj g x /\ EType e = et /\ To e = y /\ nodes g !! y = Some n /\ matchesKind n (pKind p) = true) /\
      steps g y ets' pats' ys
  | _, _, _ => False
  end.

Fixpoint bind_all (b : Binding) (pats : list nodePat) (xs : list string) : Binding :=
  match pats, xs with
  | p :: pats', x :: xs' => bind_all (<[varName p := x]> b) pats' xs'
  | _, _ => b
  end.

Lemma extend_in g v et p b b' : b' ∈ extend g v et p b <->
  exists e n, e ∈ adj g (default "" (b !! v)) /\ EType e = et /\ nodes g !! To e = Some n /\ matchesKind n (pKind p) = true /\ b' = <[varName p := To e]> b.
Proof.
  unfold extend. rewrite list_elem_of_omap. split.
  - intros (e & He & Hb). destruct (String.eqb_spec (EType e) et) as [Ht|]; [|done]. cbn in Hb.
    destruct (nodes g !! To e) as [n|] eqn:Hn; [|done]. destruct (matchesKind n (pKind p)) eqn:Hk; [|done]. injection Hb as <-. by exists e, n.
  - intros (e & n & He & Ht & Hn & Hk & ->). exists e. split; [done|]. by rewrite Ht, String.eqb_refl, Hn, Hk.
Qed.

Lemma bound_var (b : Binding) (v x : string) : default "" (<[v := x]> b !! v) = x.
Proof. unfold Binding in *. by rewrite lookup_insert_eq. Qed.

Lemma start_var (v x : string) : default "" (({[v := x]} : Binding) !! v) = x.
Proof. unfold Binding. by rewrite lookup_singleton_eq. Qed.

Lemma extend_all_in g : forall ets pats v bs b', length ets = length pats ->
  (b' ∈ extend_all g v ets pats bs <-> exists b xs, b ∈ bs /\ steps g (default "" (b !! v)) ets pats xs /\ b' = bind_all b pats xs).
Proof.
  induction ets as [|et ets IH]; intros [|p pats] v bs b' Hlen; try done; cbn [extend_all].
  - split; [intros Hb; by exists b', []|]. by intros (b & [|x xs] & Hb & Hs & ->).
  - rewrite IH by (cbn in Hlen; lia). split.
    + intros (b1 & xs & Hb1 & Hs & ->). apply list_elem_of_bind in Hb1 as (b & Hb1 & Hb).
      apply extend_in in Hb1 as (e & n & He & Ht & Hn & Hk & ->). rewrite bound_var in Hs.
      exists b, (To e :: xs). split_and!; [done| |done]. split; [|done]. by exists e, n.
    + intros (b & [|y ys] & Hb & Hs & ->); [done|]. destruct Hs as [(e & n & He & Ht & Hy & Hn & Hk) Hs].
      exists (<[varName p := y]> b), ys. rewrite bound_var. split_and!; [|done|done].
      apply list_elem_of_bind. exists b. split; [|done]. apply extend_in. exists e, n. by rewrite Hy.
Qed.

(** A string without the separator of row keys. *)
Definition nul_free : string -> Prop := GoStrings.without Ascii.zero.

Lemma row_key_inj g b b' ret :
  (forall rc, rc ∈ ret -> nul_free (rc_expr rc) /\ nul_free (col_value g b rc) /\ nul_free (col_value g b' rc)) ->
  row_key g ret b = row_key g ret b' -> forall rc, rc ∈ ret -> col_value g b rc = col_value g b' rc.
Proof.
  unfold row_key. induction ret as [|rc ret IH]; intros Hf Hk rc' Hin; [by apply elem_of_nil in Hin|].
  assert (Hcell : forall x, x ∈ rc :: ret -> nul_free (rc_expr x +:+ "=" +:+ col_value g b x) /\ nul_free (rc_expr x +:+ "=" +:+ col_value g b' x)).
  { intros x Hx. destruct (Hf x Hx) as (H1 & H2 & H3). unfold nul_free. rewrite !GoStrings.without_app. by split_and!. }
  destruct (Hcell rc (list_elem_of_here _ _)) as [Hc Hc'].
  destruct ret as [|rc1 ret].
  - cbn in Hk. apply list_elem_of_singleton in Hin as ->. by apply GoStrings.append_inj_l, (GoStrings.append_inj_l "=") in Hk.
  - cbn [map String.concat] in Hk.
    apply GoStrings.split_byte in Hk as [Hh Ht]; [|done|done]. apply elem_of_cons in Hin as [->|Hin].
    + by apply GoStrings.append_inj_l, (GoStrings.append_inj_l "=") in Hh.
    + apply IH; [|exact Ht|done]. intros x Hx. apply Hf. by right.
Qed.

Lemma project_ext g b b' ret : (forall rc, rc ∈ ret -> col_value g b rc = col_value g b' rc) -> project g ret b = project g ret b'.
Proof.
  unfold project. generalize (∅ : Row). induction ret as [|rc ret IH]; intros m H; [done|]. cbn.
  rewrite (H rc (list_elem_of_here _ _)). apply IH. intros x Hx. apply H. by right.
Qed.

Lemma dedup_in g ret (ok : Binding -> Prop) : (forall b b', ok b -> ok b' -> row_key g ret b = row_key g ret b' -> project g ret b = project g ret b') ->
  forall bs sn row, Forall ok bs ->
  (row ∈ dedup g ret sn bs <-> exists b, b ∈ bs /\ (row_key g ret b ∉ sn) /\ row = project g ret b).
Proof.
  intros Hok. induction bs as [|b bs IH]; intros sn row Hbs; cbn.
  - split; [by intros ?%elem_of_nil|]. by intros (b & ?%elem_of_nil & _).
  - apply Forall_cons in Hbs as [Hb Hbs]. destruct (decide (row_key g ret b ∈ sn)) as [Hin|Hnin].
    + rewrite IH by done. split; [intros (x & Hx & Hk & ->); exists x; split_and!; [by right|done..]|].
      intros (x & [->|Hx]%elem_of_cons & Hk & ->); [done|by exists x].
    + rewrite elem_of_cons, IH by done. split.
      * intros [->|(x & Hx & Hk & ->)]; [exists b; split_and!; [by left|done..]|exists x; split_and!; [by right|set_solver|done]].
      * intros (x & [->|Hx]%elem_of_cons & Hk & ->); [by left|].
        destruct (decide (row_key g ret x = row_key g ret b)) as [He|Hne].
        -- left. apply Hok; [by eapply Forall_forall|done|done].
        -- right. exists x. split_and!; [done|set_solver|done].
Qed.

(** A binding of the variables to a path that the query describes. *)
Definition binds (g : Graph) (cq : cypherQuery) (b : Binding) : Prop :=
  exists p pats x n xs, q_nodes cq = p :: pats /\ nodes g !! x = Some n /\ matchesKind n (pKind p) = true /\
    steps g x (q_edges cq) pats xs /\ b = bind_all {[varName p := x]} pats xs /\ satisfies g b (q_where cq) = true.

(** A query returns the paths that match it: on a well-formed graph, and when no
    value holds a zero byte, a row is returned exactly when it is the projection of a
    binding of the path pattern to nodes of the right kinds, joined by edges of the
    right types, that satisfies the conditions. *)
Theorem execCypher_matches g cq row : wf g -> S (length (q_edges cq)) = length (q_nodes cq) ->
  (forall b rc, binds g cq b -> rc ∈ q_ret cq -> nul_free (rc_expr rc) /\ nul_free (col_value g b rc)) ->
  (row ∈ execCypher g cq <-> exists b, binds g cq b /\ row = project g (q_ret cq) b).
Proof.
  intros Hwf Hlen Hnul. unfold execCypher. destruct (q_nodes cq) as [|p pats] eqn:Hq; [done|].
  set (bs0 := _ <$> _). set (kept := List.filter _ _).
  assert (Hkept : forall b, b ∈ kept <-> binds g cq b).
  { intros b. unfold kept. rewrite list_elem_of_In, List.filter_In, <- list_elem_of_In, extend_all_in by (cbn in Hlen; lia).
    assert (Hbs0 : forall b0, b0 ∈ bs0 <-> exists x n, nodes g !! x = Some n /\ matchesKind n (pKind p) = true /\ b0 = {[varName p := x]}).
    { intros b0. unfold bs0. rewrite list_elem_of_fmap. split.
      - intros (n & -> & Hn). apply list_elem_of_In, List.filter_In in Hn as [Hn Hk]. apply list_elem_of_In in Hn.
        unfold Nodes in Hn. rewrite (sort_by_perm before) in Hn. apply list_elem_of_fmap in Hn as ([i n'] & -> & Hn).
        apply elem_of_map_to_list in Hn. exists i, n'. cbn in *. by rewrite (wf_id g Hwf _ _ Hn).
      - intros (x & n & Hn & Hk & ->). exists n. split; [by rewrite (wf_id g Hwf _ _ Hn)|].
        apply list_elem_of_In, List.filter_In. split; [|done]. apply list_elem_of_In. unfold Nodes. rewrite (sort_by_perm before).
        apply list_elem_of_fmap. exists (x, n). split; [done|]. by apply elem_of_map_to_list. }
    split.
    - intros [(b0 & xs & (x & n & Hn & Hk & ->)%Hbs0 & Hs & ->) Hsat]. rewrite start_var in Hs. by exists p, pats, x, n, xs.
    - intros (p' & pats' & x & n & xs & Hq' & Hn & Hk & Hs & -> & Hsat). rewrite Hq in Hq'. injection Hq' as <- <-. split; [|done].
      exists {[varName p := x]}, xs. rewrite start_var. split_and!; [|done|done]. apply Hbs0. by exists x, n. }
  rewrite (sort_by_perm (row_le (q_ret cq))). rewrite (dedup_in g (q_ret cq) (binds g cq)).
  - split; [intros (b & Hb & _ & ->); exists b; by rewrite <- Hkept|]. intros (b & Hb%Hkept & ->). exists b. split_and!; [done|set_solver|done].
  - intros b b' Hb Hb' Hk. apply project_ext. apply row_key_inj; [|done]. intros rc Hrc.
    destruct (Hnul b rc Hb Hrc), (Hnul b' rc Hb' Hrc). auto.
  - apply Forall_forall. intros b. apply Hkept.
Qed.

End GraphSpec.
