(* ===== verification/GraphBuild.v ===== *)
(** * Building the credential graph from the inventory

    [src/internal/graph/build.go]: the nodes and edges of each kind of row, the paged
    reads of the large tables, and the references in the attributes of an identity.
    The tables of a tenant are lists, in the order of their keys where a query pages
    over them; a query that fails is [None]. *)

From S2P Require Import Prelude Json Graph GraphSpec.
Open Scope string_scope.
Open Scope list_scope.

Module GraphBuild.
Import Graph GraphSpec.

(** ** Rows *)

Record OwnerRow := mkOwner { ow_ID : string; ow_Kind : string; ow_Name : string }.
Record IssuerRow := mkIssuer { is_ID : string; is_Kind : string; is_Name : string }.
Record TargetRow := mkTarget { tg_ID : string; tg_Name : string; tg_Type : string }.
Record IdentityRow := mkIdentity {
  it_ID : string; it_Kind : string; it_Name : string; it_OwnerID : string; it_IssuerID : option string; it_Status : string;
  it_Attributes : data
}.
Record CertRow := mkCert {
  ce_ID : string; ce_OwnerID : option string; ce_Subject : string; ce_Issuer : string; ce_Serial : string;
  ce_Fingerprint : string; ce_DeploymentLocation : string; ce_Status : string
}.
Record SSHKeyRow := mkSSHKey {
  sk_ID : string; sk_Fingerprint : string; sk_KeyType : string; sk_Comment : string; sk_Source : string; sk_Location : string;
  sk_StandingAccess : bool; sk_Orphaned : bool
}.
Record AssetRow := mkAsset {
  as_ID : string; as_Kind : string; as_Location : string; as_Algorithm : string; as_Protocol : string; as_Cipher : string;
  as_Strength : string; as_QuantumVulnerable : bool; as_OutOfPolicy : bool
}.
Record FindingRow := mkFinding {
  fi_ID : string; fi_RunID : string; fi_SourceID : string; fi_Kind : string; fi_Ref : string; fi_Provenance : string;
  fi_Fingerprint : string; fi_RiskScore : Z
}.

(** What the store holds of a tenant, and whether a query of each table succeeds. *)
Record Inventory := mkInventory {
  owners : option (list OwnerRow); issuers : option (list IssuerRow); targets : option (list TargetRow);
  identities : option (list IdentityRow); certificates : option (list CertRow); sshkeys : option (list SSHKeyRow);
  assets : option (list AssetRow); findings : option (list FindingRow)
}.

(** ** Paging *)

Definition ZeroUUID : string := "00000000-0000-0000-0000-000000000000".
Definition pageSize : nat := 500.

Section Paging.
Context {R : Type}.
Variable rid : R -> string.

(** [WHERE id > after ORDER BY id LIMIT limit] on a table in the order of its ids. *)
Definition ListPage (rows : list R) (after : string) (limit : nat) : list R :=
  take limit (List.filter (fun r => String.ltb after (rid r)) rows).

Fixpoint all_pages (fuel : nat) (rows : list R) (after : string) (out : list R) : option (list R) :=
  match fuel with
  | O => None
  | S fuel =>
      let page := ListPage rows after pageSize in
      let out := out ++ page in
      if (length page <? pageSize)%nat then Some out else
      match last page with
      | Some r => all_pages fuel rows (rid r) out
      | None => Some out
      end
  end.

Definition allRows (rows : list R) : list R := default [] (all_pages (S (length rows)) rows ZeroUUID []).

End Paging.

Definition allCertificates : list CertRow -> list CertRow := allRows ce_ID.
Definition allSSHKeys : list SSHKeyRow -> list SSHKeyRow := allRows sk_ID.
Definition allDiscoveryFindings : list FindingRow -> list FindingRow := allRows fi_ID.

(** ** Names *)

Definition workloadID (id : string) : string := "wl:" +:+ id.
Definition issuerID (id : string) : string := "iss:" +:+ id.
Definition resourceID (loc : string) : string := "res:" +:+ loc.
Definition credentialID (pre id : string) : string := pre +:+ ":" +:+ id.
Definition cryptoID (id : string) : string := "crypto:" +:+ id.

Definition firstNonEmpty (vals : list string) : string :=
  default "" (List.find (fun v => negb (String.eqb v "")) vals).

Definition FormatBool (b : bool) : string := if b then "true" else "false".

(** ** References in attributes *)

(** The value of a key in a map that was decoded from an object: the last one. *)
Definition meta_get (o : list (string * json)) (key : string) : option json :=
  snd <$> List.find (fun kv => String.eqb (fst kv) key) (rev o).

Definition add_ref (acc : list string) (v : string) : list string :=
  let v := GoStrings.TrimSpace v in
  if String.eqb v "" || existsb (String.eqb v) acc then acc else acc ++ [v].

Definition scalar_keys : list string := ["deployment_target"; "target"; "resource"; "location"; "provenance"].
Definition list_keys : list string := ["deployment_targets"; "resources"; "locations"; "reachable_resources"].

Definition as_strings (l : list json) : list string := omap (fun j => match j with JStr s => Some s | _ => None end) l.

Definition identityResourceRefs (raw : data) : list string :=
  match raw with
  | DJson (JObj o) =>
      let scalars := omap (fun k => match meta_get o k with Some (JStr s) => Some s | _ => None end) scalar_keys in
      let lists := mbind (fun k => match meta_get o k with Some (JArr l) => as_strings l | _ => [] end) list_keys in
      fold_left add_ref (scalars ++ lists) []
  | _ => []
  end.

(** ** Build, row by row *)

Definition ensureResource (loc : string) (g : Graph) : Graph :=
  match nodes g !! resourceID loc with
  | Some _ => g
  | None => AddNode (mkNode (resourceID loc) KindResource loc ∅) g
  end.

(** A resource and the edge to it. *)
Definition deploy (nid loc et : string) (g : Graph) : Graph := AddEdge (mkEdge nid (resourceID loc) et) (ensureResource loc g).

Definition attrs (l : list (string * string)) : gmap string string := list_to_map l.

Definition add_owner (g : Graph) (o : OwnerRow) : Graph :=
  AddNode (mkNode (workloadID (ow_ID o)) KindWorkload (ow_Name o) (attrs [("owner_kind", ow_Kind o)])) g.

Definition add_issuer (g : Graph) (i : IssuerRow) : Graph :=
  AddNode (mkNode (issuerID (is_ID i)) KindIssuer (is_Name i) (attrs [("issuer_kind", is_Kind i)])) g.

Definition issuerByName (l : list IssuerRow) : gmap string string :=
  fold_left (fun m i => <[is_Name i := issuerID (is_ID i)]> m) l ∅.

Definition add_target (g : Graph) (t : TargetRow) : Graph :=
  AddNode (mkNode (resourceID (tg_Name t)) KindResource (tg_Name t) (attrs [("target_type", tg_Type t); ("target_id", tg_ID t)])) g.

Definition add_identity (g : Graph) (it : IdentityRow) : Graph :=
  let nid := credentialID "id" (it_ID it) in
  let g := AddNode (mkNode nid KindCredential (it_Name it) (attrs [("credential_kind", it_Kind it); ("status", it_Status it)])) g in
  let g := if String.eqb (it_OwnerID it) "" then g else AddEdge (mkEdge (workloadID (it_OwnerID it)) nid EdgeOwns) g in
  let g := match it_IssuerID it with Some i => AddEdge (mkEdge (issuerID i) nid EdgeIssued) g | None => g end in
  fold_left (fun g loc => deploy nid loc EdgeDeployedTo g) (identityResourceRefs (it_Attributes it)) g.

Definition add_cert (byName : gmap string string) (g : Graph) (c : CertRow) : Graph :=
  let nid := credentialID "cert" (ce_ID c) in
  let g := AddNode (mkNode nid KindCredential (ce_Subject c)
                     (attrs [("fingerprint", ce_Fingerprint c); ("status", ce_Status c); ("serial", ce_Serial c)])) g in
  let g := match ce_OwnerID c with Some o => AddEdge (mkEdge (workloadID o) nid EdgeOwns) g | None => g end in
  let g := if String.eqb (ce_DeploymentLocation c) "" then g else deploy nid (ce_DeploymentLocation c) EdgeDeployedTo g in
  match byName !! ce_Issuer c with Some i => AddEdge (mkEdge i nid EdgeIssued) g | None => g end.

Definition add_sshkey (g : Graph) (k : SSHKeyRow) : Graph :=
  let nid := credentialID "ssh" (sk_ID k) in
  let name := if String.eqb (sk_Comment k) "" then sk_Fingerprint k else sk_Comment k in
  let g := AddNode (mkNode nid KindCredential name
                     (attrs [("key_type", sk_KeyType k); ("fingerprint", sk_Fingerprint k); ("source", sk_Source k);
                             ("standing_access", FormatBool (sk_StandingAccess k)); ("orphaned", FormatBool (sk_Orphaned k))])) g in
  if String.eqb (sk_Location k) "" then g else deploy nid (sk_Location k) (if sk_StandingAccess k then EdgeGrantsAccess else EdgeDeployedTo) g.

Definition add_asset (g : Graph) (a : AssetRow) : Graph :=
  let nid := cryptoID (as_ID a) in
  let g := AddNode (mkNode nid KindCryptoAsset (firstNonEmpty [as_Algorithm a; as_Protocol a; as_Cipher a])
                     (attrs [("asset_kind", as_Kind a); ("location", as_Location a); ("algorithm", as_Algorithm a); ("protocol", as_Protocol a);
                             ("cipher", as_Cipher a); ("strength", as_Strength a);
                             ("quantum_vulnerable", FormatBool (as_QuantumVulnerable a)); ("out_of_policy", FormatBool (as_OutOfPolicy a))])) g in
  if String.eqb (as_Location a) "" then g else
  AddEdge (mkEdge (resourceID (as_Location a)) nid EdgeExhibits) (ensureResource (as_Location a) g).

Definition add_finding (g : Graph) (f : FindingRow) : Graph :=
  let nid := credentialID "disc" (fi_ID f) in
  let g := AddNode (mkNode nid KindCredential (fi_Ref f)
                     (attrs [("credential_kind", fi_Kind f); ("discovery_ref", fi_Ref f); ("source_id", fi_SourceID f); ("run_id", fi_RunID f);
                             ("provenance", fi_Provenance f); ("fingerprint", fi_Fingerprint f); ("risk_score", GoInt.Itoa (fi_RiskScore f))])) g in
  if String.eqb (fi_Provenance f) "" then g else deploy nid (fi_Provenance f) EdgeDeployedTo g.

Definition Build (inv : Inventory) : option Graph :=
  os ← owners inv;
  let g := fold_left add_owner os New in
  is_ ← issuers inv;
  let g := fold_left add_issuer is_ g in
  ts ← targets inv;
  let g := fold_left add_target ts g in
  ids ← identities inv;
  let g := fold_left add_identity ids g in
  cs ← certificates inv;
  let g := fold_left (add_cert (issuerByName is_)) (allCertificates cs) g in
  ks ← sshkeys inv;
  let g := fold_left add_sshkey (allSSHKeys ks) g in
  asts ← assets inv;
  let g := fold_left add_asset asts g in
  fs ← findings inv;
  Some (fold_left add_finding (allDiscoveryFindings fs) g).

End GraphBuild.
