(* ===== verification/GraphBuildSpec.v ===== *)
(** * The blast radius in terms of the inventory

    The paged reads give whole tables; the graph of an inventory has exactly the edges
    and nodes that its rows stand for; and so a blast radius is reachability along the
    relations of the inventory. *)

From Stdlib Require Import Sorted.
From S2P Require Import Prelude Json Graph GraphSpec GraphBuild.
Open Scope string_scope.
Open Scope list_scope.

Module GraphBuildSpec.
Import Graph GraphSpec GraphBuild.

(** ** Paging *)

Lemma ltb_leb a b : String.ltb a b = negb (String.leb b a).
Proof. unfold String.ltb, String.leb. rewrite (String.compare_antisym b a). by destruct (String.compare a b). Qed.

Lemma ltb_trans a b c : String.ltb a b = true -> String.ltb b c = true -> String.ltb a c = true.
Proof.
  rewrite !ltb_leb, !negb_true_iff. intros H1 H2. destruct (String.leb c a) eqn:E; [|done].
  destruct (String.leb_total a b) as [Hab|Hba]; [|congruence]. by rewrite (leb_trans c a b E Hab) in H2.
Qed.

Section Paging.
Context {R : Type}.
Variable rid : R -> string.

(** A table in the order of its key. *)
Definition keyed (rows : list R) : Prop := StronglySorted (fun a b => String.ltb (rid a) (rid b) = true) rows.

Lemma filter_after rows r k : keyed rows -> (forall x, x ∈ rows -> String.ltb k (rid x) = true) ->
  forall n, last (take n rows) = Some r -> List.filter (fun x => String.ltb (rid r) (rid x)) rows = drop n rows.
Proof.
  intros Hs Hk n Hl. revert n Hl. clear Hk k. induction Hs as [|x rows Hs IH Hx]; intros [|n] Hl; try done. cbn [take] in Hl. cbn [List.filter drop].
  destruct (take n rows) as [|y l] eqn:Ht.
  - injection Hl as ->. rewrite ltb_leb, (proj2 (negb_false_iff _)) by (by destruct (String.leb_total (rid r) (rid r))).
    destruct n as [|n]; [|by destruct rows]. cbn [drop].
    clear -Hx. induction rows as [|z rows IH]; [done|]. apply Forall_cons in Hx as [Hz Hx]. cbn. rewrite Hz. by rewrite IH.
  - change (last (x :: y :: l)) with (last (y :: l)) in Hl. rewrite <- Ht in Hl.
    assert (Hr : r ∈ rows). { apply last_Some_elem_of in Hl. by apply elem_of_take in Hl as (i & Hi & _); apply list_elem_of_lookup_2 in Hi. }
    assert (Hxr : String.ltb (rid x) (rid r) = true) by (by eapply Forall_forall in Hx).
    replace (String.ltb (rid r) (rid x)) with false; [by apply IH|].
    symmetry. rewrite ltb_leb, negb_false_iff. rewrite ltb_leb, negb_true_iff in Hxr. by destruct (String.leb_total (rid x) (rid r)); [|congruence].
Qed.

Definition beyond (after : string) (rows : list R) : list R := List.filter (fun r => String.ltb after (rid r)) rows.

Lemma keyed_beyond after rows : keyed rows -> keyed (beyond after rows).
Proof.
  unfold keyed, beyond. induction 1 as [|x rows Hs IH Hx]; cbn; [constructor|]. destruct (String.ltb after (rid x)); [|done].
  constructor; [done|]. apply Forall_forall. intros y Hy%list_elem_of_In. apply List.filter_In in Hy as [Hy _].
  apply list_elem_of_In in Hy. by eapply Forall_forall in Hx.
Qed.

Lemma beyond_beyond after k rows : String.ltb after k = true -> beyond k (beyond after rows) = beyond k rows.
Proof.
  intros Hk. unfold beyond. induction rows as [|x rows IH]; [done|]. cbn. destruct (String.ltb after (rid x)) eqn:E; cbn; rewrite IH; [done|].
  destruct (String.ltb k (rid x)) eqn:E'; [|done]. by rewrite (ltb_trans _ _ _ Hk E') in E.
Qed.

#[local] Opaque pageSize.

Lemma pageSize_pos : (0 < pageSize)%nat.
Proof. Transparent pageSize. unfold pageSize. lia. Qed.

#[local] Opaque pageSize.

Lemma all_pages_beyond fuel : forall rows after acc, keyed rows -> (length (beyond after rows) < fuel)%nat ->
  all_pages rid fuel rows after acc = Some (acc ++ beyond after rows).
Proof.
  pose proof pageSize_pos as Hp. induction fuel as [|fuel IH]; intros rows after acc Hs Hf; [lia|]. cbn [all_pages].
  change (ListPage rid rows after pageSize) with (take pageSize (beyond after rows)). rewrite length_take.
  destruct (Nat.ltb_spec (pageSize `min` length (beyond after rows)) pageSize) as [Hlt|Hge].
  - rewrite take_ge by lia. done.
  - destruct (last (take pageSize (beyond after rows))) as [r|] eqn:Hl.
    2: { apply last_None in Hl. apply (f_equal length) in Hl. rewrite length_take in Hl. cbn in Hl. lia. }
    assert (Hr : String.ltb after (rid r) = true).
    { apply last_Some_elem_of in Hl. apply elem_of_take in Hl as (i & Hi & _). apply list_elem_of_lookup_2, list_elem_of_In, List.filter_In in Hi. by destruct Hi. }
    assert (Hb : beyond (rid r) rows = drop pageSize (beyond after rows)).
    { rewrite <- (beyond_beyond after) by done. unfold beyond at 1. apply (filter_after _ r after); [by apply keyed_beyond| |done].
      intros x Hx. apply list_elem_of_In, List.filter_In in Hx. by destruct Hx. }
    rewrite IH; [|done|rewrite Hb, length_drop; lia]. by rewrite Hb, <- app_assoc, take_drop.
Qed.

(** Paging reads the whole table, once. *)
Lemma allRows_all rows : keyed rows -> (forall r, r ∈ rows -> String.ltb ZeroUUID (rid r) = true) -> allRows rid rows = rows.
Proof.
  intros Hs Hz. assert (Hb : beyond ZeroUUID rows = rows).
  { unfold beyond. clear Hs. induction rows as [|x rows IH]; [done|]. cbn. rewrite Hz by (by left). f_equal. apply IH. intros r Hr. apply Hz. by right. }
  unfold allRows. rewrite all_pages_beyond; [by rewrite Hb|done|rewrite Hb; lia].
Qed.

End Paging.

(** ** Good edges: their keys tell them apart *)

Definition is_res (s : string) : bool := match s with String "r" _ => true | _ => false end.

Definition good (e : Edge) : Prop :=
  GoStrings.without "|" (EType e) /\
  if is_res (From e) then GoStrings.without "|" (To e) else GoStrings.without "|" (From e).

Lemma good_key e e' : good e -> good e' -> edge_key e = edge_key e' -> e = e'.
Proof.
  destruct e as [f t ty], e' as [f' t' ty']. unfold good, edge_key. cbn. intros [Hty Hg] [Hty' Hg'] Hk.
  assert (Hres : is_res f = is_res f') by (destruct f as [|c f], f' as [|c' f']; cbn in *; try done; injection Hk as ? ?; by subst).
  rewrite <- Hres in Hg'. destruct (is_res f).
  - assert (Hassoc : forall a b c : string, a +:+ "|" +:+ b +:+ "|" +:+ c = (a +:+ "|" +:+ b) +:+ String "|" c).
    { intros a b c. induction a as [|x a IH]; [done|]. exact (f_equal (String x) IH). }
    rewrite !Hassoc in Hk. apply GoStrings.split_byte_last in Hk as [Hk ->]; [|done..].
    by apply GoStrings.split_byte_last in Hk as [-> ->].
  - apply GoStrings.split_byte in Hk as [-> Hk]; [|done..]. by apply GoStrings.split_byte in Hk as [-> ->].
Qed.

(** ** Building as a list of instructions *)

Record ok (g : Graph) : Prop := mkOk {
  ok_wf : wf g;
  ok_good e : e ∈ edges g -> good e;
  ok_closed e : e ∈ edges g -> is_Some (nodes g !! To e)
}.

Lemma ok_New : ok New.
Proof. split; [apply wf_New|intros e He; by apply elem_of_nil in He..]. Qed.

Inductive instr := INode (n : Node) | IRes (loc : string) | IEdge (e : Edge).

Definition exec (g : Graph) (i : instr) : Graph :=
  match i with INode n => AddNode n g | IRes loc => ensureResource loc g | IEdge e => AddEdge e g end.
Definition names (i : instr) : list string := match i with INode n => [ID n] | IRes loc => [resourceID loc] | IEdge _ => [] end.
Definition edge_of (i : instr) : list Edge := match i with IEdge e => [e] | _ => [] end.

Definition run (l : list instr) (g : Graph) : Graph := fold_left exec l g.

(** The target of an edge is a node before the edge is added. *)
Fixpoint ready (have : list string) (l : list instr) : Prop :=
  match l with
  | [] => True
  | i :: l' => match i with IEdge e => To e ∈ have /\ good e | _ => True end /\ ready (names i ++ have) l'
  end.

Lemma ready_mono l : forall have have', (forall x, x ∈ have -> x ∈ have') -> ready have l -> ready have' l.
Proof.
  induction l as [|i l IH]; intros have have' Hs; cbn; [done|]. intros [Hi Hl]. split.
  - destruct i; [done..|]. destruct Hi. auto.
  - eapply IH; [|exact Hl]. intros x. rewrite !elem_of_app. intros [|]; auto.
Qed.

Lemma ready_app l l' : forall have, ready have l -> ready (mbind names l ++ have) l' -> ready have (l ++ l').
Proof.
  induction l as [|i l IH]; intros have; cbn; [done|]. intros [Hi Hl] Hl'. split; [done|]. apply IH; [done|].
  eapply ready_mono; [|exact Hl']. intros x. rewrite !elem_of_app. tauto.
Qed.

Lemma ready_bind {A} (f : A -> list instr) l have : (forall a, a ∈ l -> ready [] (f a)) -> ready have (mbind f l).
Proof.
  revert have. induction l as [|a l IH]; intros have H; [done|]. cbn. apply ready_app.
  - eapply ready_mono; [|apply H; by left]. intros x Hx. by apply elem_of_nil in Hx.
  - apply IH. intros b Hb. apply H. by right.
Qed.

Lemma run_instrs_app l l' g : run (l ++ l') g = run l' (run l g).
Proof. apply fold_left_app. Qed.

Lemma run_bind {A} (f : A -> list instr) l g : run (mbind f l) g = fold_left (fun g a => run (f a) g) l g.
Proof. revert g. induction l as [|a l IH]; intros g; [done|]. cbn. by rewrite run_instrs_app, IH. Qed.

Lemma exec_adds i g : ok g -> match i with IEdge e => is_Some (nodes g !! To e) /\ good e | _ => True end ->
  ok (exec g i) /\ (forall e, e ∈ edges (exec g i) <-> e ∈ edges g \/ e ∈ edge_of i) /\
  (forall x, is_Some (nodes (exec g i) !! x) <-> is_Some (nodes g !! x) \/ x ∈ names i).
Proof.
  intros [Hwf Hgood Hcl].
  assert (Hnode : forall n, ok (AddNode n g) /\ (forall x, is_Some (nodes (AddNode n g) !! x) <-> is_Some (nodes g !! x) \/ x ∈ [ID n])).
  { intros n. assert (Hx : forall x, is_Some (nodes (AddNode n g) !! x) <-> is_Some (nodes g !! x) \/ x ∈ [ID n]).
    { intros x. cbn. rewrite list_elem_of_singleton. destruct (decide (x = ID n)) as [->|Hne].
      - rewrite lookup_insert_eq. split; [by right|by eexists].
      - rewrite lookup_insert_ne by done. tauto. }
    split; [|done]. split; [by apply wf_AddNode|done|]. intros e He. apply Hx. left. by apply Hcl. }
  destruct i as [n|loc|e]; cbn [exec edge_of names].
  - intros _. destruct (Hnode n) as [H1 H2]. split_and!; [done| |done]. intros e. rewrite elem_of_nil. cbn. tauto.
  - intros _. unfold ensureResource. destruct (nodes g !! resourceID loc) as [n|] eqn:Hl.
    + split_and!; [done|intros e; rewrite elem_of_nil; tauto|]. intros x. rewrite list_elem_of_singleton.
      split; [tauto|]. intros [| ->]; [done|by eexists].
    + destruct (Hnode (mkNode (resourceID loc) KindResource loc ∅)) as [H1 H2]. split_and!; [done| |done]. intros e. rewrite elem_of_nil. cbn. tauto.
  - intros [Hto Hgd].
    assert (He : forall x, x ∈ edges (AddEdge e g) <-> x ∈ edges g \/ x ∈ [e]).
    { intros x. rewrite list_elem_of_singleton. unfold AddEdge. destruct (decide (edge_key e ∈ seen g)) as [Hin|Hnin].
      - split; [by left|]. intros [| ->]; [done|]. apply (wf_seen g Hwf) in Hin as (e' & He' & Hk).
        by rewrite <- (good_key e' e (Hgood e' He') Hgd Hk).
      - cbn. rewrite elem_of_app, list_elem_of_singleton. done. }
    assert (Hnodes : nodes (AddEdge e g) = nodes g) by (unfold AddEdge; by destruct (decide _)).
    split_and!; [|done|].
    + split; [by apply wf_AddEdge| |]; intros x [Hx| ->%list_elem_of_singleton]%He; rewrite ?Hnodes; auto.
    + intros x. rewrite Hnodes, elem_of_nil. tauto.
Qed.

Lemma run_adds l : forall have g, ok g -> (forall x, x ∈ have -> is_Some (nodes g !! x)) -> ready have l ->
  ok (run l g) /\ (forall e, e ∈ edges (run l g) <-> e ∈ edges g \/ e ∈ mbind edge_of l) /\
  (forall x, is_Some (nodes (run l g) !! x) <-> is_Some (nodes g !! x) \/ x ∈ mbind names l).
Proof.
  induction l as [|i l IH]; intros have g Hg Hh Hr; cbn.
  - split_and!; [done|intros x; rewrite elem_of_nil; tauto..].
  - destruct Hr as [Hi Hr]. destruct (exec_adds i g Hg) as (Hg1 & He1 & Hx1); [destruct i; [done..|]; destruct Hi; auto|].
    destruct (IH (names i ++ have) (exec g i) Hg1) as (Hg2 & He2 & Hx2); [|done|].
    + intros x [Hx|Hx]%elem_of_app; apply Hx1; auto.
    + unfold run in *. cbn. split_and!; [done|intros x; rewrite He2, He1, elem_of_app; tauto|intros x; rewrite Hx2, Hx1, elem_of_app; tauto].
Qed.

(** ** The instructions of each row *)

Definition deploys (nid et loc : string) : list instr := [IRes loc; IEdge (mkEdge nid (resourceID loc) et)].
Definition when (b : bool) (l : list instr) : list instr := if b then l else [].
Definition filled (s : string) : bool := negb (String.eqb s "").
Definition from_opt (f : string -> list instr) (o : option string) : list instr := match o with Some x => f x | None => [] end.

Definition node_of (n : Node) : list instr := [INode n].
Definition owns (nid o : string) : list instr := [IEdge (mkEdge (workloadID o) nid EdgeOwns)].

Definition owner_instrs (o : OwnerRow) : list instr :=
  node_of (mkNode (workloadID (ow_ID o)) KindWorkload (ow_Name o) (attrs [("owner_kind", ow_Kind o)])).
Definition issuer_instrs (i : IssuerRow) : list instr :=
  node_of (mkNode (issuerID (is_ID i)) KindIssuer (is_Name i) (attrs [("issuer_kind", is_Kind i)])).
Definition target_instrs (t : TargetRow) : list instr :=
  node_of (mkNode (resourceID (tg_Name t)) KindResource (tg_Name t) (attrs [("target_type", tg_Type t); ("target_id", tg_ID t)])).

Definition identity_instrs (it : IdentityRow) : list instr :=
  let nid := credentialID "id" (it_ID it) in
  node_of (mkNode nid KindCredential (it_Name it) (attrs [("credential_kind", it_Kind it); ("status", it_Status it)])) ++
  (when (filled (it_OwnerID it)) (owns nid (it_OwnerID it)) ++
   (from_opt (fun i => [IEdge (mkEdge (issuerID i) nid EdgeIssued)]) (it_IssuerID it) ++
    (identityResourceRefs (it_Attributes it) ≫= deploys nid EdgeDeployedTo))).

Definition cert_instrs (byName : gmap string string) (c : CertRow) : list instr :=
  let nid := credentialID "cert" (ce_ID c) in
  node_of (mkNode nid KindCredential (ce_Subject c)
             (attrs [("fingerprint", ce_Fingerprint c); ("status", ce_Status c); ("serial", ce_Serial c)])) ++
  (from_opt (owns nid) (ce_OwnerID c) ++
   (when (filled (ce_DeploymentLocation c)) (deploys nid EdgeDeployedTo (ce_DeploymentLocation c)) ++
    from_opt (fun i => [IEdge (mkEdge i nid EdgeIssued)]) (byName !! ce_Issuer c))).

Definition access_type (k : SSHKeyRow) : string := if sk_StandingAccess k then EdgeGrantsAccess else EdgeDeployedTo.

Definition sshkey_instrs (k : SSHKeyRow) : list instr :=
  let nid := credentialID "ssh" (sk_ID k) in
  node_of (mkNode nid KindCredential (if String.eqb (sk_Comment k) "" then sk_Fingerprint k else sk_Comment k)
             (attrs [("key_type", sk_KeyType k); ("fingerprint", sk_Fingerprint k); ("source", sk_Source k);
                     ("standing_access", FormatBool (sk_StandingAccess k)); ("orphaned", FormatBool (sk_Orphaned k))])) ++
  when (filled (sk_Location k)) (deploys nid (access_type k) (sk_Location k)).

Definition asset_instrs (a : AssetRow) : list instr :=
  let nid := cryptoID (as_ID a) in
  node_of (mkNode nid KindCryptoAsset (firstNonEmpty [as_Algorithm a; as_Protocol a; as_Cipher a])
             (attrs [("asset_kind", as_Kind a); ("location", as_Location a); ("algorithm", as_Algorithm a); ("protocol", as_Protocol a);
                     ("cipher", as_Cipher a); ("strength", as_Strength a);
                     ("quantum_vulnerable", FormatBool (as_QuantumVulnerable a)); ("out_of_policy", FormatBool (as_OutOfPolicy a))])) ++
  when (filled (as_Location a)) [IRes (as_Location a); IEdge (mkEdge (resourceID (as_Location a)) nid EdgeExhibits)].

Definition finding_instrs (f : FindingRow) : list instr :=
  let nid := credentialID "disc" (fi_ID f) in
  node_of (mkNode nid KindCredential (fi_Ref f)
             (attrs [("credential_kind", fi_Kind f); ("discovery_ref", fi_Ref f); ("source_id", fi_SourceID f); ("run_id", fi_RunID f);
                     ("provenance", fi_Provenance f); ("fingerprint", fi_Fingerprint f); ("risk_score", GoInt.Itoa (fi_RiskScore f))])) ++
  when (filled (fi_Provenance f)) (deploys nid EdgeDeployedTo (fi_Provenance f)).

Lemma run_when b l g : run (when b l) g = if b then run l g else g.
Proof. by destruct b. Qed.

Lemma add_identity_run g it : add_identity g it = run (identity_instrs it) g.
Proof.
  unfold add_identity, identity_instrs. rewrite !run_instrs_app, run_bind, run_when. unfold filled.
  by destruct (String.eqb (it_OwnerID it) ""), (it_IssuerID it).
Qed.

Lemma add_cert_run byName g c : add_cert byName g c = run (cert_instrs byName c) g.
Proof.
  unfold add_cert, cert_instrs. rewrite !run_instrs_app, run_when. unfold filled.
  by destruct (ce_OwnerID c), (String.eqb (ce_DeploymentLocation c) ""), (byName !! ce_Issuer c).
Qed.

Lemma add_sshkey_run g k : add_sshkey g k = run (sshkey_instrs k) g.
Proof. unfold add_sshkey, sshkey_instrs. rewrite !run_instrs_app, run_when. unfold filled. by destruct (String.eqb (sk_Location k) ""). Qed.

Lemma add_asset_run g a : add_asset g a = run (asset_instrs a) g.
Proof. unfold add_asset, asset_instrs. rewrite !run_instrs_app, run_when. unfold filled. by destruct (String.eqb (as_Location a) ""). Qed.

Lemma add_finding_run g f : add_finding g f = run (finding_instrs f) g.
Proof. unfold add_finding, finding_instrs. rewrite !run_instrs_app, run_when. unfold filled. by destruct (String.eqb (fi_Provenance f) ""). Qed.

(** ** The tables of a tenant and what they relate *)

Record tables := mkTables {
  t_owners : list OwnerRow; t_issuers : list IssuerRow; t_targets : list TargetRow; t_identities : list IdentityRow;
  t_certificates : list CertRow; t_sshkeys : list SSHKeyRow; t_assets : list AssetRow; t_findings : list FindingRow
}.

(** Every query succeeds. *)
Definition served (t : tables) : Inventory :=
  mkInventory (Some (t_owners t)) (Some (t_issuers t)) (Some (t_targets t)) (Some (t_identities t))
              (Some (t_certificates t)) (Some (t_sshkeys t)) (Some (t_assets t)) (Some (t_findings t)).

Definition bare : string -> Prop := GoStrings.without "|".

(** What the schema says of the tables: keys are identifiers without a vertical bar and
    paged tables are read in the order of their keys. *)
Record sound (t : tables) : Prop := mkSound {
  sd_owner it : it ∈ t_identities t -> bare (it_ID it) /\ bare (it_OwnerID it) /\ (forall i, it_IssuerID it = Some i -> bare i);
  sd_issuers i : i ∈ t_issuers t -> bare (is_ID i);
  sd_certs c : c ∈ t_certificates t -> bare (ce_ID c) /\ (forall o, ce_OwnerID c = Some o -> bare o);
  sd_keys k : k ∈ t_sshkeys t -> bare (sk_ID k);
  sd_assets a : a ∈ t_assets t -> bare (as_ID a);
  sd_findings f : f ∈ t_findings t -> bare (fi_ID f);
  sd_certs_keyed : keyed ce_ID (t_certificates t) /\ (forall r, r ∈ t_certificates t -> String.ltb ZeroUUID (ce_ID r) = true);
  sd_keys_keyed : keyed sk_ID (t_sshkeys t) /\ (forall r, r ∈ t_sshkeys t -> String.ltb ZeroUUID (sk_ID r) = true);
  sd_findings_keyed : keyed fi_ID (t_findings t) /\ (forall r, r ∈ t_findings t -> String.ltb ZeroUUID (fi_ID r) = true)
}.

(** The issuer that a certificate names: the last of that name. *)
Definition named_issuer (t : tables) (name : string) : option IssuerRow :=
  last (List.filter (fun i => String.eqb (is_Name i) name) (t_issuers t)).

Inductive related (t : tables) : Edge -> Prop :=
| rel_identity_owner it : it ∈ t_identities t -> it_OwnerID it <> "" ->
    related t (mkEdge (workloadID (it_OwnerID it)) (credentialID "id" (it_ID it)) EdgeOwns)
| rel_identity_issuer it i : it ∈ t_identities t -> it_IssuerID it = Some i ->
    related t (mkEdge (issuerID i) (credentialID "id" (it_ID it)) EdgeIssued)
| rel_identity_resource it loc : it ∈ t_identities t -> loc ∈ identityResourceRefs (it_Attributes it) ->
    related t (mkEdge (credentialID "id" (it_ID it)) (resourceID loc) EdgeDeployedTo)
| rel_cert_owner c o : c ∈ t_certificates t -> ce_OwnerID c = Some o ->
    related t (mkEdge (workloadID o) (credentialID "cert" (ce_ID c)) EdgeOwns)
| rel_cert_resource c : c ∈ t_certificates t -> ce_DeploymentLocation c <> "" ->
    related t (mkEdge (credentialID "cert" (ce_ID c)) (resourceID (ce_DeploymentLocation c)) EdgeDeployedTo)
| rel_cert_issuer c i : c ∈ t_certificates t -> named_issuer t (ce_Issuer c) = Some i ->
    related t (mkEdge (issuerID (is_ID i)) (credentialID "cert" (ce_ID c)) EdgeIssued)
| rel_key k : k ∈ t_sshkeys t -> sk_Location k <> "" ->
    related t (mkEdge (credentialID "ssh" (sk_ID k)) (resourceID (sk_Location k)) (access_type k))
| rel_asset a : a ∈ t_assets t -> as_Location a <> "" ->
    related t (mkEdge (resourceID (as_Location a)) (cryptoID (as_ID a)) EdgeExhibits)
| rel_finding f : f ∈ t_findings t -> fi_Provenance f <> "" ->
    related t (mkEdge (credentialID "disc" (fi_ID f)) (resourceID (fi_Provenance f)) EdgeDeployedTo).

(** ** Build is a run *)

Definition last_named (t : tables) : gmap string string := issuerByName (t_issuers t).

Lemma issuerByName_last t name : last_named t !! name = (fun i => issuerID (is_ID i)) <$> named_issuer t name.
Proof.
  unfold last_named, issuerByName, named_issuer. induction (t_issuers t) as [|i l IH] using rev_ind; [done|].
  rewrite fold_left_app, List.filter_app. cbn. destruct (String.eqb_spec (is_Name i) name) as [<-|Hne].
  - by rewrite lookup_insert_eq, last_snoc.
  - by rewrite lookup_insert_ne, app_nil_r by done.
Qed.

Definition inventory_instrs (t : tables) : list instr :=
  (t_owners t ≫= owner_instrs) ++ ((t_issuers t ≫= issuer_instrs) ++ ((t_targets t ≫= target_instrs) ++
  ((t_identities t ≫= identity_instrs) ++ ((t_certificates t ≫= cert_instrs (last_named t)) ++
  ((t_sshkeys t ≫= sshkey_instrs) ++ ((t_assets t ≫= asset_instrs) ++ (t_findings t ≫= finding_instrs))))))).

Lemma fold_run {A} (add : Graph -> A -> Graph) (f : A -> list instr) l g : (forall g a, add g a = run (f a) g) -> fold_left add l g = run (l ≫= f) g.
Proof. intros H. rewrite run_bind. revert g. induction l as [|a l IH]; intros g; [done|]. cbn. by rewrite H, IH. Qed.

Lemma Build_run t : sound t -> Build (served t) = Some (run (inventory_instrs t) New).
Proof.
  intros [_ _ _ _ _ _ [Hc Hc0] [Hk Hk0] [Hf Hf0]]. unfold Build, inventory_instrs.
  unfold allCertificates, allSSHKeys, allDiscoveryFindings. cbn -[allRows]. rewrite !allRows_all by done. f_equal. rewrite !run_instrs_app.
  rewrite (fold_run add_finding finding_instrs) by apply add_finding_run. rewrite (fold_run add_asset asset_instrs) by apply add_asset_run.
  rewrite (fold_run add_sshkey sshkey_instrs) by apply add_sshkey_run. rewrite (fold_run (add_cert _) (cert_instrs (last_named t))) by apply add_cert_run.
  rewrite (fold_run add_identity identity_instrs) by apply add_identity_run. rewrite (fold_run add_target target_instrs) by done.
  rewrite (fold_run add_issuer issuer_instrs) by done. by rewrite (fold_run add_owner owner_instrs) by done.
Qed.

(** ** Every row is ready *)

Lemma bare_app (p s : string) : bare p -> bare s -> bare (p +:+ s).
Proof. intros Hp Hs. by apply GoStrings.without_app. Qed.

Lemma ready_when b l have : (b = true -> ready have l) -> ready have (when b l).
Proof. destruct b; [auto|done]. Qed.

Lemma ready_opt f o have : (forall x, o = Some x -> ready have (f x)) -> ready have (from_opt f o).
Proof. destruct o; cbn; auto. Qed.

Lemma ready_deploys nid et loc have : is_res nid = false -> bare nid -> bare et -> ready have (deploys nid et loc).
Proof. intros Hr Hn He. cbn. split_and!; [done|by left| |done]. unfold good. cbn. by rewrite Hr. Qed.

Lemma ready_edge e have : To e ∈ have -> good e -> ready have [IEdge e].
Proof. intros Ht Hg. by cbn. Qed.

Lemma ready_binds {A} (f : A -> list instr) l have : (forall a, ready have (f a)) -> ready have (l ≫= f).
Proof.
  intros H. revert have H. induction l as [|a l IH]; intros have H; [done|]. cbn. apply ready_app; [done|]. apply IH.
  intros b. eapply ready_mono; [|apply H]. intros x Hx. apply elem_of_app. by right.
Qed.

Lemma ready_from n have l : ready (ID n :: have) l -> ready have (node_of n ++ l).
Proof. intros H. by apply ready_app. Qed.

(** Names are a prefix and an identifier. *)
Ltac solve_bare :=
  lazymatch goal with
  | |- GoStrings.without _ ?s => change (bare s); solve_bare
  | |- bare (_ +:+ _) => apply bare_app; solve_bare
  | |- _ => first [assumption | solve [cbn; repeat split; discriminate] | solve [auto]]
  end.
Lemma good_from f t et : is_res f = false -> bare f -> bare et -> good (mkEdge f t et).
Proof. intros Hr Hf He. split; [done|]. cbn. by rewrite Hr. Qed.

Lemma good_res loc t : bare t -> good (mkEdge (resourceID loc) t EdgeExhibits).
Proof. intros Ht. split; [|done]. by cbn. Qed.

Ltac solve_good :=
  unfold workloadID, issuerID, credentialID, cryptoID;
  first [apply good_res; solve_bare | apply good_from; [reflexivity|solve_bare..]].
#[local] Hint Extern 1 (good _) => solve_good : core.
#[local] Hint Extern 1 (bare _) => (unfold credentialID; solve_bare) : core.

Lemma identity_ready t it : sound t -> it ∈ t_identities t -> ready [] (identity_instrs it).
Proof.
  intros Hs Hit. destruct (sd_owner t Hs it Hit) as (Hid & How & His). unfold identity_instrs. apply ready_from.
  apply ready_app; [|apply ready_app; [|apply ready_binds; intros loc; apply ready_deploys; auto]].
  - apply ready_when. intros _. apply ready_edge; [by left|auto].
  - apply ready_opt. intros i Hi. apply ready_edge; [rewrite elem_of_app; right; by left|eauto].
Qed.

Lemma cert_ready t c : sound t -> c ∈ t_certificates t -> ready [] (cert_instrs (last_named t) c).
Proof.
  intros Hs Hc. destruct (sd_certs t Hs c Hc) as [Hid How]. unfold cert_instrs. apply ready_from.
  apply ready_app; [|apply ready_app].
  - apply ready_opt. intros o Ho. apply ready_edge; [by left|auto].
  - apply ready_when. intros _. apply ready_deploys; auto.
  - apply ready_opt. intros i. rewrite issuerByName_last. destruct (named_issuer t (ce_Issuer c)) as [x|] eqn:Hn; [|done]. intros [= <-].
    apply ready_edge; [rewrite !elem_of_app; right; right; by left|].
    assert (bare (is_ID x)); [|auto]. apply (sd_issuers t Hs). unfold named_issuer in Hn. apply last_Some_elem_of, list_elem_of_In, List.filter_In in Hn.
    by apply list_elem_of_In, Hn.
Qed.

Lemma sshkey_ready t k : sound t -> k ∈ t_sshkeys t -> ready [] (sshkey_instrs k).
Proof.
  intros Hs Hk. pose proof (sd_keys t Hs k Hk). unfold sshkey_instrs. apply ready_from, ready_when. intros _.
  apply ready_deploys; [done|auto|]. unfold access_type. destruct (sk_StandingAccess k); solve_bare.
Qed.

Lemma asset_ready t a : sound t -> a ∈ t_assets t -> ready [] (asset_instrs a).
Proof.
  intros Hs Ha. pose proof (sd_assets t Hs a Ha). unfold asset_instrs. apply ready_from, ready_when. intros _. cbn.
  split_and!; [done|right; by left|auto|done].
Qed.

Lemma finding_ready t f : sound t -> f ∈ t_findings t -> ready [] (finding_instrs f).
Proof.
  intros Hs Hf. pose proof (sd_findings t Hs f Hf). unfold finding_instrs. apply ready_from, ready_when. intros _. apply ready_deploys; auto.
Qed.

Lemma inventory_ready t : sound t -> ready [] (inventory_instrs t).
Proof.
  intros Hs. unfold inventory_instrs.
  repeat apply ready_app; apply ready_bind; intros a Ha;
    [done|done|done|by eapply identity_ready|by apply cert_ready|by eapply sshkey_ready|by eapply asset_ready|by eapply finding_ready].
Qed.

(** ** The edges and the nodes of the inventory *)

Lemma edge_emitted e l : e ∈ l ≫= edge_of <-> IEdge e ∈ l.
Proof.
  rewrite list_elem_of_bind. split; [|intros H; exists (IEdge e); split; [by left|done]].
  intros ([n|loc|e'] & He & Hl); cbn in He; [by apply elem_of_nil in He..|]. by apply list_elem_of_singleton in He as ->.
Qed.

Lemma elem_when {A} (x : A) b l : (x ∈ (if b : bool then l else [])) <-> b = true /\ x ∈ l.
Proof. destruct b; [tauto|]. rewrite elem_of_nil. naive_solver. Qed.

Lemma elem_opt i f o : i ∈ from_opt f o <-> exists x, o = Some x /\ i ∈ f x.
Proof. destruct o; cbn; rewrite ?elem_of_nil; naive_solver. Qed.

Lemma filled_true s : filled s = true <-> s <> "".
Proof. unfold filled. rewrite negb_true_iff, String.eqb_neq. done. Qed.

Lemma emitted_nodes {A} (f : A -> Node) e l : IEdge e ∈ l ≫= (fun a => node_of (f a)) <-> False.
Proof. rewrite list_elem_of_bind. split; [|done]. by intros (a & Ha%list_elem_of_singleton & _). Qed.

Lemma emitted_deploys e nid et loc : IEdge e ∈ deploys nid et loc <-> e = mkEdge nid (resourceID loc) et.
Proof. unfold deploys. rewrite !elem_of_cons, elem_of_nil. naive_solver. Qed.

Lemma emitted_one e e' : IEdge e ∈ [IEdge e'] <-> e = e'.
Proof. rewrite list_elem_of_singleton. naive_solver. Qed.

Lemma emitted_two e loc e' : IEdge e ∈ [IRes loc; IEdge e'] <-> e = e'.
Proof. rewrite elem_of_cons, list_elem_of_singleton. naive_solver. Qed.

Lemma emitted_after n e l : IEdge e ∈ node_of n ++ l <-> IEdge e ∈ l.
Proof. unfold node_of. cbn. rewrite elem_of_cons. naive_solver. Qed.

Lemma inventory_edges t e : IEdge e ∈ inventory_instrs t <-> related t e.
Proof.
  unfold inventory_instrs, owner_instrs, issuer_instrs, target_instrs. rewrite !elem_of_app, !emitted_nodes, !list_elem_of_bind.
  unfold identity_instrs, cert_instrs, sshkey_instrs, asset_instrs, finding_instrs.
  repeat setoid_rewrite emitted_after. repeat setoid_rewrite elem_of_app. unfold when, owns. repeat setoid_rewrite elem_when.
  repeat setoid_rewrite elem_opt. repeat setoid_rewrite filled_true. repeat setoid_rewrite list_elem_of_bind.
  repeat setoid_rewrite emitted_deploys. repeat setoid_rewrite emitted_one. setoid_rewrite emitted_two. setoid_rewrite issuerByName_last.
  setoid_rewrite fmap_Some. split.
  - intros H. decompose [ex and or] H; subst; try done; by econstructor; eauto.
  - intros [it ? ?|it i ? ?|it loc ? ?|c o ? ?|c ? ?|c i ? ?|k ? ?|a ? ?|f ? ?]; do 3 right; [left; exists it..| | | | | |].
    4-6: right; left; exists c. 7: do 2 right; left; exists k. 8: do 3 right; left; exists a. 9: do 4 right; exists f.
    all: split; [|done]; eauto 8.
Qed.

(** The names of the rows. *)
Definition row_names (t : tables) : list string :=
  (workloadID ∘ ow_ID <$> t_owners t) ++ (issuerID ∘ is_ID <$> t_issuers t) ++ (resourceID ∘ tg_Name <$> t_targets t) ++
  (credentialID "id" ∘ it_ID <$> t_identities t) ++ (credentialID "cert" ∘ ce_ID <$> t_certificates t) ++
  (credentialID "ssh" ∘ sk_ID <$> t_sshkeys t) ++ (cryptoID ∘ as_ID <$> t_assets t) ++ (credentialID "disc" ∘ fi_ID <$> t_findings t).

Lemma named_row {A} (f : A -> list instr) (g : A -> string) l x : (forall a, g a ∈ f a ≫= names) -> x ∈ g <$> l -> x ∈ (l ≫= f) ≫= names.
Proof.
  intros H (a & -> & Ha)%list_elem_of_fmap. specialize (H a). apply list_elem_of_bind in H as (i & Hi & Hia).
  apply list_elem_of_bind. exists i. split; [done|]. apply list_elem_of_bind. by exists a.
Qed.

Lemma named_app (l l' : list instr) x : x ∈ (l ++ l') ≫= names <-> x ∈ l ≫= names \/ x ∈ l' ≫= names.
Proof. by rewrite bind_app, elem_of_app. Qed.

Lemma inventory_names t x : x ∈ row_names t -> x ∈ inventory_instrs t ≫= names.
Proof.
  unfold row_names, inventory_instrs. rewrite !elem_of_app, !named_app.
  intros [H|[H|[H|[H|[H|[H|[H|H]]]]]]];
    [left|right; left|do 2 right; left|do 3 right; left|do 4 right; left|do 5 right; left|do 6 right; left|do 7 right];
    (eapply named_row; [|exact H]; intros a; cbn; by left).
Qed.

(** One step along the relations of the inventory. *)
Definition depends (t : tables) (x y : string) : Prop := exists e, related t e /\ From e = x /\ To e = y.

(** C35: A blast radius is what depends on a credential in the inventory: on sound tables
    [Build] succeeds, its graph is well formed with one node for each row and exactly the
    edges of the inventory's relations, and the nodes affected by any start are exactly
    those a chain of relations leads to, each listed once. *)
Theorem Build_blast_radius t : sound t -> exists g, Build (served t) = Some g /\ wf g /\
  (forall x, x ∈ row_names t -> is_Some (nodes g !! x)) /\ (forall e, e ∈ edges g <-> related t e) /\
  forall from, NoDup (ID <$> Affected (BlastRadius g from)) /\
    forall x, x ∈ ID <$> Affected (BlastRadius g from) <-> x <> from /\ tc (depends t) from x.
Proof.
  intros Hs. exists (run (inventory_instrs t) New). split; [by apply Build_run|].
  destruct (run_adds (inventory_instrs t) [] New ok_New) as (Hok & He & Hn); [intros x Hx; by apply elem_of_nil in Hx|by apply inventory_ready|].
  set (g := run _ _) in *. destruct Hok as [Hwf Hgood Hcl].
  assert (Hedges : forall e, e ∈ edges g <-> related t e).
  { intros e. rewrite He, edge_emitted, inventory_edges. cbn. rewrite elem_of_nil. tauto. }
  split_and!; [done|intros x Hx; apply Hn; right; by apply inventory_names|done|].
  assert (Hhop : forall x y, hop g [] x y <-> depends t x y).
  { intros x y. unfold hop, depends. rewrite (wf_adj g Hwf). setoid_rewrite <- Hedges. split.
    - intros (e & Hin & _ & Hto & _). exists e. apply list_elem_of_In, List.filter_In in Hin as [Hin Hf%String.eqb_eq].
      by rewrite list_elem_of_In.
    - intros (e & Hin & Hf & Hto). exists e. split_and!; [|done|done|subst y; by apply Hcl].
      apply list_elem_of_In, List.filter_In. rewrite <- list_elem_of_In. by rewrite String.eqb_eq. }
  intros from. destruct (search_result g [] from (wf_id g Hwf)) as (l & Hl & Hnd & Hin).
  unfold BlastRadius, Reachable. rewrite Hl. cbn. split; [by rewrite (fmap_Permutation ID _ _ (sort_by_perm before l))|].
  intros x. rewrite (fmap_Permutation ID _ _ (sort_by_perm before l)), list_elem_of_fmap. split.
  - intros (n & -> & (_ & Hne & Ht)%Hin). split; [done|]. eapply tc_congruence with (f := fun x => x); [|exact Ht]. intros a b. apply Hhop.
  - intros (Hne & Ht). assert (Ht' : tc (hop g []) from x) by (eapply tc_congruence with (f := fun x => x); [|exact Ht]; intros a b; apply Hhop).
    assert (Hx : is_Some (nodes g !! x)) by (clear -Ht'; induction Ht' as [? ? (e & _ & _ & _ & ?)|]; done).
    destruct Hx as [n Hx]. pose proof (wf_id g Hwf _ _ Hx) as <-. exists n. split; [done|]. by apply Hin.
Qed.

(** ** A small inventory *)

(** A team owns an identity that an authority issued and that reaches a database; the
    database exhibits a weak algorithm. *)
Definition small : tables :=
  mkTables [mkOwner "o1" "team" "payments"] [mkIssuer "i1" "x509" "root"] [] 
    [mkIdentity "a1" "x509" "svc" "o1" (Some "i1") "deployed" (DJson (JObj [("target", JStr " db ")]))]
    [mkCert "c1" None "svc" "root" "01" "ff" "db" "active"] [mkSSHKey "k1" "fp" "rsa" "" "agent" "host" true false]
    [mkAsset "y1" "algorithm" "db" "RSA-1024" "" "" "weak" true true] [mkFinding "f1" "r1" "s1" "secret" "ref" "" "fp" 7].

Ltac each_row := intros ? ?%list_elem_of_singleton; subst; cbn.

Lemma small_sound : sound small.
Proof.
  split; try (each_row; repeat split; try discriminate; intros ? [= <-]; cbn; repeat split; discriminate).
  all: split; [repeat constructor|each_row; reflexivity].
Qed.

Lemma Build_blast_radius_witness : exists g, Build (served small) = Some g /\
  (ID <$> Affected (BlastRadius g "wl:o1")) = ["crypto:y1"; "id:a1"; "res:db"] /\
  (forall x, x ∈ ID <$> Affected (BlastRadius g "wl:o1") <-> x <> "wl:o1" /\ tc (depends small) "wl:o1" x).
Proof.
  destruct (Build_blast_radius small small_sound) as (g & Hg & _ & _ & _ & Hb). exists g. split; [exact Hg|]. split; [|apply (Hb "wl:o1")].
  vm_compute in Hg. injection Hg as <-. vm_compute. reflexivity.
Defined.

End GraphBuildSpec.
