(* ===== verification/Rotation.v ===== *)
(** * Rotation of static secrets

    [src/internal/rotation/rotation.go] and the backend rotator of
    [src/internal/rotation/rotators.go], with [src/internal/auditsink/auditsink.go]:
    stage, cut over, verify, retire, and the rollback of a failed phase.  The rotator is
    a class, as is what it drives: a backend that creates and revokes credentials and a
    publisher that holds what a consumer reads.  The publisher in memory is an instance.
    A method that takes a mutex, or calls out between two of them, is one step; callers
    interleave between steps. *)

From S2P Require Import Prelude.
Open Scope string_scope.
Open Scope list_scope.

Module Rotation.

(** ** The audit sink *)

Record AuditRecord := mkAudit { au_Type : string; au_TenantID : string; au_Key : string; au_Phase : string }.
Record Sink := mkSink { records : list AuditRecord; dropped : Z }.

(** ** The interfaces *)

(** [None] is a nil error. *)
Class Rotator (W : Type) := {
  Stage : string -> W -> result string string * W;
  Cutover : string -> string -> W -> option string * W;
  Verify : string -> W -> option string * W;
  Retire : string -> string -> W -> option string * W;
  Rollback : string -> string -> W -> option string * W
}.

Class Backend (B : Type) := {
  Create : string -> B -> result string (string * string) * B;
  Revoke : string -> B -> option string * B;
  usable : B -> string -> Prop
}.

(** A call concerns the reference it names and no other; what it creates is new. *)
Class BackendLaws (B : Type) `{Backend B} : Prop := {
  create_ok k b ref c b' : Create k b = (Ok (ref, c), b') -> ~ usable b ref /\ forall r, usable b' r <-> r = ref \/ usable b r;
  create_err k b e b' : Create k b = (Err e, b') -> forall r, usable b r -> usable b' r;
  revoke_ok r b b' : Revoke r b = (None, b') -> forall r', usable b' r' <-> r' <> r /\ usable b r';
  revoke_err r b e b' : Revoke r b = (Some e, b') -> forall r', r' <> r -> (usable b' r' <-> usable b r')
}.

(** [published] is what the consumer of a key has; a call that reads it may fail. *)
Class CredentialPublisher (P : Type) := {
  published : P -> string -> option (string * string);
  ReadCredential : string -> P -> result string (string * string) * P;
  PublishCredential : string -> string -> string -> P -> option string * P
}.

(** A read that succeeds gives what is published, and no read changes it; a published
    credential is what the consumer then has, and nothing else changes. *)
Class CredentialPublisherLaws (P : Type) `{CredentialPublisher P} : Prop := {
  read_ok k p r c p' : ReadCredential k p = (Ok (r, c), p') -> published p k = Some (r, c);
  read_same k p res p' : ReadCredential k p = (res, p') -> forall k', published p' k' = published p k';
  publish_ok k r c p p' : PublishCredential k r c p = (None, p') ->
    published p' k = Some (r, c) /\ forall k', k' <> k -> published p' k' = published p k';
  publish_err k r c p e p' : PublishCredential k r c p = (Some e, p') -> forall k', published p' k' = published p k'
}.

(** ** The engine *)

Record Report := mkReport {
  rp_Key : string; rp_OldRef : string; rp_NewRef : string; Completed : bool; RolledBack : bool;
  RollbackAttempted : bool; RollbackFailed : bool; RollbackError : string; FailedPhase : string
}.

Inductive RotateErr :=
| ErrStage (e : string) | ErrRetire (e : string) | ErrRolledBack (phase e : string) | ErrRollbackFailed (phase cause e : string).

Section Engine_.
Context {W : Type} `{Rotator W}.
Variable tenantID : string.
(** Whether the sink takes an event after those it holds. *)
Variable takes : list AuditRecord -> bool.

Record State := mkState { world : W; sink : Sink }.

Definition with_world (w : W) (s : State) : State := mkState w (sink s).

Definition emit (event key phase : string) (s : State) : State :=
  let k := sink s in
  mkState (world s)
    (if takes (records k) then mkSink (records k ++ [mkAudit event tenantID key phase]) (dropped k)
     else mkSink (records k) (dropped k + 1)).

Definition rollback (rep : Report) (key oldRef phase cause : string) (s : State) : Report * option RotateErr * State :=
  let rep := mkReport (rp_Key rep) (rp_OldRef rep) (rp_NewRef rep) (Completed rep) (RolledBack rep) true (RollbackFailed rep) (RollbackError rep) phase in
  match Rollback key oldRef (world s) with
  | (Some e, w) =>
      (mkReport (rp_Key rep) (rp_OldRef rep) (rp_NewRef rep) (Completed rep) (RolledBack rep) true true e phase,
       Some (ErrRollbackFailed phase cause e), emit "rotation.rollback_failed" key phase (with_world w s))
  | (None, w) =>
      (mkReport (rp_Key rep) (rp_OldRef rep) (rp_NewRef rep) (Completed rep) true true (RollbackFailed rep) (RollbackError rep) phase,
       Some (ErrRolledBack phase cause), emit "rotation.rolled_back" key phase (with_world w s))
  end.

Definition Rotate (key oldRef : string) (s : State) : Report * option RotateErr * State :=
  let rep newRef completed phase := mkReport key oldRef newRef completed false false false "" phase in
  match Stage key (world s) with
  | (Err e, w) => (rep "" false "stage", Some (ErrStage e), emit "rotation.failed" key "stage" (with_world w s))
  | (Ok newRef, w) =>
      let s := emit "rotation.staged" key "stage" (with_world w s) in
      match Cutover key newRef (world s) with
      | (Some e, w) => rollback (rep newRef false "") key oldRef "cutover" e (with_world w s)
      | (None, w) =>
          let s := with_world w s in
          match Verify key (world s) with
          | (Some e, w) => rollback (rep newRef false "") key oldRef "verify" e (with_world w s)
          | (None, w) =>
              let s := with_world w s in
              match Retire key oldRef (world s) with
              | (Some e, w) => (rep newRef false "retire", Some (ErrRetire e), emit "rotation.retire_pending" key "retire" (with_world w s))
              | (None, w) => (rep newRef true "", None, emit "rotation.completed" key "retire" (with_world w s))
              end
          end
      end
  end.

End Engine_.
Arguments State : clear implicits.

(** ** The rotator over a backend and a publisher *)

Definition ErrCredentialNotFound : string := "rotation: credential not found".

Record stagedCredential := mkStaged { sg_ref : string; sg_credential : string; sg_oldRef : string; sg_oldCredential : string }.

Section BackendRotator_.
Context {B P : Type} `{Backend B, CredentialPublisher P}.
Variable verifier : string -> string -> string -> option string.

Record BackendRotator := mkRotator { backend : B; publisher : P; staged : gmap string stagedCredential }.

Definition stagedFor (key ref : string) (r : BackendRotator) : option stagedCredential :=
  match staged r !! key with
  | Some st => if negb (String.eqb ref "") && negb (String.eqb (sg_ref st) ref) then None else Some st
  | None => None
  end.

Definition cleanup (key : string) (r : BackendRotator) : BackendRotator := mkRotator (backend r) (publisher r) (delete key (staged r)).

Definition br_Stage (key : string) (r : BackendRotator) : result string string * BackendRotator :=
  match Create key (backend r) with
  | (Err e, b) => (Err ("rotation: create staged credential: " +:+ e), mkRotator b (publisher r) (staged r))
  | (Ok (ref, c), b) => (Ok ref, mkRotator b (publisher r) (<[key := mkStaged ref c "" ""]> (staged r)))
  end.

Definition br_Cutover (key newRef : string) (r : BackendRotator) : option string * BackendRotator :=
  match stagedFor key newRef r with
  | None => (Some ErrCredentialNotFound, r)
  | Some st =>
      match ReadCredential key (publisher r) with
      | (Err e, p) => (Some ("rotation: read previous credential: " +:+ e), mkRotator (backend r) p (staged r))
      | (Ok (oldRef, old), p) =>
          let st := mkStaged (sg_ref st) (sg_credential st) oldRef old in
          let stg := <[key := st]> (staged r) in
          match PublishCredential key newRef (sg_credential st) p with
          | (Some e, p) => (Some ("rotation: publish staged credential: " +:+ e), mkRotator (backend r) p stg)
          | (None, p) => (None, mkRotator (backend r) p stg)
          end
      end
  end.

Definition br_Verify (key : string) (r : BackendRotator) : option string * BackendRotator :=
  match stagedFor key "" r with
  | None => (Some ErrCredentialNotFound, r)
  | Some st =>
      match verifier key (sg_ref st) (sg_credential st) with
      | Some e => (Some ("rotation: verify staged credential: " +:+ e), r)
      | None => (None, r)
      end
  end.

Definition br_Retire (key oldRef : string) (r : BackendRotator) : option string * BackendRotator :=
  match Revoke oldRef (backend r) with
  | (Some e, b) => (Some ("rotation: retire old credential: " +:+ e), mkRotator b (publisher r) (staged r))
  | (None, b) => (None, cleanup key (mkRotator b (publisher r) (staged r)))
  end.

(** [errors.Join]. *)
Definition join (a b : option string) : option string :=
  match a, b with
  | Some x, Some y => Some (x +:+ String (Ascii.ascii_of_nat 10) y)
  | Some x, None => Some x
  | None, _ => b
  end.

Definition br_Rollback (key oldRef : string) (r : BackendRotator) : option string * BackendRotator :=
  match stagedFor key "" r with
  | None => (Some ErrCredentialNotFound, r)
  | Some st =>
      let (restoreErr, p) :=
        if String.eqb (sg_oldCredential st) "" then (None, publisher r)
        else PublishCredential key oldRef (sg_oldCredential st) (publisher r) in
      let (revokeErr, b) := Revoke (sg_ref st) (backend r) in
      (join restoreErr revokeErr, cleanup key (mkRotator b p (staged r)))
  end.

Definition BackendRotator_rotator : Rotator BackendRotator := {|
  Stage := br_Stage; Cutover := br_Cutover; Verify := br_Verify; Retire := br_Retire; Rollback := br_Rollback
|}.

End BackendRotator_.
Arguments BackendRotator : clear implicits.
#[export] Existing Instance BackendRotator_rotator.

(** ** The publisher in memory *)

Record publishedCredential := mkPublished { pb_ref : string; pb_credential : string }.

Definition MemoryCredentialPublisher := gmap string publishedCredential.
Definition NewMemoryCredentialPublisher : MemoryCredentialPublisher := ∅.

Definition mem_Read (key : string) (p : MemoryCredentialPublisher) : result string (string * string) * MemoryCredentialPublisher :=
  match (p : gmap string publishedCredential) !! key with
  | Some it => (Ok (pb_ref it, pb_credential it), p)
  | None => (Err ErrCredentialNotFound, p)
  end.

Definition mem_Publish (key ref credential : string) (p : MemoryCredentialPublisher) : option string * MemoryCredentialPublisher :=
  if String.eqb key "" || String.eqb ref "" || String.eqb credential "" then (Some "rotation: key, ref, and credential are required", p) else
  (None, <[key := mkPublished ref credential]> (p : gmap string publishedCredential)).

#[export] Instance Memory_publisher : CredentialPublisher MemoryCredentialPublisher := {|
  published p k := (fun it => (pb_ref it, pb_credential it)) <$> (p : gmap string publishedCredential) !! k;
  ReadCredential := mem_Read; PublishCredential := mem_Publish
|}.

#[export] Instance Memory_laws : CredentialPublisherLaws MemoryCredentialPublisher.
Proof.
  split; cbn; unfold mem_Publish, mem_Read; intros k.
  - intros p r c p'. destruct (_ !! k) as [it|]; [|done]. by intros [= <- <- _].
  - intros p res p'. destruct (_ !! k); by intros [= _ <-].
  - intros r c p p'. destruct (_ || _ || _); [done|]. intros [= <-]. split; [by rewrite lookup_insert_eq|].
    intros k' Hne. by rewrite lookup_insert_ne.
  - intros r c p e p'. destruct (_ || _ || _); [|done]. by intros [= <- <-].
Qed.

End Rotation.
