(* ===== verification/RotationSpec.v ===== *)
(** * A rotation never breaks its consumer

    The outcomes of a rotation by the rotator of [Rotation]: whichever phase fails, the
    consumer reads a credential that works, unless the rollback itself failed; and what
    goes wrong when it does, or when two rotations of a key interleave. *)

From S2P Require Import Prelude Rotation.
Open Scope string_scope.
Open Scope list_scope.

Module RotationSpec.
Import Rotation.

Section Spec_.
Context {B P : Type} `{BackendLaws B, CredentialPublisherLaws P}.
Variable verifier : string -> string -> string -> option string.
Variable tenantID : string.
Variable takes : list AuditRecord -> bool.

#[local] Instance the_rotator : Rotator (BackendRotator B P) := BackendRotator_rotator verifier.

Abbreviation Rot := (BackendRotator B P).

Lemma world_emit (event key phase : string) (s : State Rot) : world (emit tenantID takes event key phase s) = world s.
Proof. done. Qed.

Lemma stagedFor_insert key ref st b p stg : (ref = "" \/ ref = sg_ref st) -> stagedFor key ref (mkRotator (B := B) (P := P) b p (<[key := st]> stg)) = Some st.
Proof.
  intros Href. unfold stagedFor. cbn. rewrite lookup_insert_eq. destruct Href as [->| ->]; [done|].
  by rewrite String.eqb_refl, andb_false_r.
Qed.

(** What the consumer of a key reads. *)
Definition reads (r : Rot) (key : string) : option (string * string) := published (publisher r) key.

(** A rotation of a key leaves the others alone. *)
Definition others (key : string) (r r' : Rot) : Prop := forall k, k <> key -> reads r' k = reads r k /\ staged r' !! k = staged r !! k.

Lemma others_refl key r : others key r r.
Proof. done. Qed.

Lemma others_trans key r1 r2 r3 : others key r1 r2 -> others key r2 r3 -> others key r1 r3.
Proof. intros Ha Hb k Hk. destruct (Ha k Hk), (Hb k Hk). split; congruence. Qed.

Lemma Stage_spec key (r : Rot) res r' : br_Stage key r = (res, r') -> others key r r' /\ publisher r' = publisher r /\
  match res with
  | Ok ref => exists c, staged r' !! key = Some (mkStaged ref c "" "") /\ ~ usable (backend r) ref /\
      forall x, usable (backend r') x <-> x = ref \/ usable (backend r) x
  | Err _ => forall x, usable (backend r) x -> usable (backend r') x
  end.
Proof.
  unfold br_Stage. destruct (Create key (backend r)) as [[[ref c]|e] b] eqn:Hc; intros [= <- <-].
  - split; [intros k Hk; unfold reads; cbn; by rewrite lookup_insert_ne|]. split; [done|]. exists c.
    cbn. rewrite lookup_insert_eq. split; [done|]. exact (create_ok _ _ _ _ _ Hc).
  - split; [done|]. split; [done|]. exact (create_err _ _ _ _ Hc).
Qed.

(** A cutover that fails, at its read or at its write, leaves what the consumer has. *)
Lemma Cutover_spec key r ref c oldRef old res r' :
  staged r !! key = Some (mkStaged ref c "" "") -> reads r key = Some (oldRef, old) -> br_Cutover key ref r = (res, r') ->
  others key r r' /\ backend r' = backend r /\
  match res with
  | None => staged r' !! key = Some (mkStaged ref c oldRef old) /\ reads r' key = Some (ref, c)
  | Some _ => (staged r' !! key = Some (mkStaged ref c oldRef old) \/ staged r' !! key = Some (mkStaged ref c "" "")) /\
      reads r' key = Some (oldRef, old)
  end.
Proof.
  unfold br_Cutover, stagedFor, reads. intros Hst Hr. rewrite Hst. cbn. rewrite String.eqb_refl, andb_false_r. cbn.
  destruct (ReadCredential key (publisher r)) as [[[o old']|e] p] eqn:Hrd; pose proof (read_same _ _ _ _ Hrd) as Hsame.
  2: { intros [= <- <-]. cbn. rewrite Hsame. split_and!; [|done|by right|done]. intros k Hk. unfold reads. cbn. by rewrite Hsame. }
  rewrite (read_ok _ _ _ _ _ Hrd) in Hr. injection Hr as -> ->. pose proof (read_ok _ _ _ _ _ Hrd) as Hr.
  destruct (PublishCredential key ref c p) as [[e|] p'] eqn:Hp; intros [= <- <-]; cbn; rewrite lookup_insert_eq.
  - pose proof (publish_err _ _ _ _ _ _ Hp) as Hkeep. split_and!; [|done|by left|by rewrite Hkeep, Hsame].
    intros k Hk. unfold reads. cbn. by rewrite Hkeep, Hsame, lookup_insert_ne.
  - destruct (publish_ok _ _ _ _ _ Hp) as [Hread Hkeep]. split_and!; [|done|done|done].
    intros k Hk. unfold reads. cbn. by rewrite Hkeep, Hsame, lookup_insert_ne.
Qed.

Lemma Verify_spec key (r : Rot) st res r' : staged r !! key = Some st -> br_Verify verifier key r = (res, r') ->
  r' = r /\ (res = None <-> verifier key (sg_ref st) (sg_credential st) = None).
Proof.
  unfold br_Verify, stagedFor. intros ->. cbn. destruct (verifier key (sg_ref st) (sg_credential st)); by intros [= <- <-].
Qed.

Lemma Retire_spec key oldRef (r : Rot) res r' : br_Retire key oldRef r = (res, r') -> others key r r' /\ publisher r' = publisher r /\
  (forall x, x <> oldRef -> (usable (backend r') x <-> usable (backend r) x)) /\
  (res = None -> ~ usable (backend r') oldRef /\ staged r' !! key = None).
Proof.
  unfold br_Retire. destruct (Revoke oldRef (backend r)) as [[e|] b] eqn:Hv; intros [= <- <-].
  - split_and!; [done|done|exact (revoke_err _ _ _ _ Hv)|done].
  - pose proof (revoke_ok _ _ _ Hv) as Hu. split_and!; [|done|intros x Hx; cbn; rewrite Hu; tauto|].
    + intros k Hk. unfold reads. cbn. by rewrite lookup_delete_ne.
    + intros _. cbn. rewrite Hu, lookup_delete_eq. tauto.
Qed.

Lemma Rollback_spec key r ref c oldRef old res r' :
  staged r !! key = Some (mkStaged ref c oldRef old) \/ (staged r !! key = Some (mkStaged ref c "" "") /\ reads r key = Some (oldRef, old)) ->
  old <> "" -> br_Rollback key oldRef r = (res, r') ->
  others key r r' /\ staged r' !! key = None /\ (forall x, x <> ref -> (usable (backend r') x <-> usable (backend r) x)) /\
  (res = None -> reads r' key = Some (oldRef, old) /\ ~ usable (backend r') ref).
Proof.
  intros Hst Hold. unfold br_Rollback, stagedFor.
  assert (Hpub : forall so sc (e1 : option string) p, (if String.eqb sc "" then (None, publisher r) else PublishCredential key oldRef sc (publisher r)) = (e1, p) ->
    (so = oldRef /\ sc = old) \/ (sc = "" /\ reads r key = Some (oldRef, old)) ->
    (forall k, k <> key -> published p k = published (publisher r) k) /\ (e1 = None -> published p key = Some (oldRef, old))).
  { intros so sc e1 p Hp [[-> ->]|[-> Hr]].
    - apply String.eqb_neq in Hold. rewrite Hold in Hp. destruct e1 as [e|].
      + split; [intros k _; exact (publish_err _ _ _ _ _ _ Hp k)|done].
      + destruct (publish_ok _ _ _ _ _ Hp). by split.
    - cbn in Hp. injection Hp as <- <-. done. }
  assert (Hgo : exists st, staged r !! key = Some st /\ sg_ref st = ref /\
    ((sg_oldRef st = oldRef /\ sg_oldCredential st = old) \/ (sg_oldCredential st = "" /\ reads r key = Some (oldRef, old)))).
  { destruct Hst as [Hst|[Hst Hr]]; eexists; split; [exact Hst|by auto|exact Hst|by auto]. }
  destruct Hgo as (st & -> & <- & Hcase). cbn.
  destruct (if String.eqb _ _ then _ else _) as [e1 p] eqn:Hp. destruct (Hpub _ _ _ _ Hp Hcase) as [Hother Hread].
  destruct (Revoke (sg_ref st) (backend r)) as [e2 b] eqn:Hv. intros [= <- <-]. cbn. rewrite lookup_delete_eq.
  split_and!; [intros k Hk; unfold reads; cbn; by rewrite lookup_delete_ne, Hother|done| |].
  - intros x Hx. destruct e2 as [e|]; [by apply (revoke_err _ _ _ _ Hv)|]. rewrite (revoke_ok _ _ _ Hv). tauto.
  - intros Hj. destruct e1, e2; try done. split; [by apply Hread|]. rewrite (revoke_ok _ _ _ Hv). tauto.
Qed.

(** How a rotation ended, when the key had a working credential. *)
Inductive outcome (key oldRef old : string) (s s' : State Rot) (rep : Report) : option RotateErr -> Prop :=
| rotated c : Completed rep = true -> reads (world s') key = Some (rp_NewRef rep, c) -> usable (backend (world s')) (rp_NewRef rep) ->
    verifier key (rp_NewRef rep) c = None -> ~ usable (backend (world s')) oldRef -> staged (world s') !! key = None ->
    outcome key oldRef old s s' rep None
| not_staged e : FailedPhase rep = "stage" -> rp_NewRef rep = "" -> reads (world s') key = Some (oldRef, old) ->
    usable (backend (world s')) oldRef -> outcome key oldRef old s s' rep (Some (ErrStage e))
| rolled_back phase e : RolledBack rep = true -> FailedPhase rep = phase -> reads (world s') key = Some (oldRef, old) ->
    usable (backend (world s')) oldRef -> ~ usable (backend (world s')) (rp_NewRef rep) -> staged (world s') !! key = None ->
    outcome key oldRef old s s' rep (Some (ErrRolledBack phase e))
| retire_pending e c : FailedPhase rep = "retire" -> reads (world s') key = Some (rp_NewRef rep, c) ->
    usable (backend (world s')) (rp_NewRef rep) -> verifier key (rp_NewRef rep) c = None ->
    outcome key oldRef old s s' rep (Some (ErrRetire e))
| rollback_failed phase cause e : RollbackFailed rep = true -> usable (backend (world s')) oldRef -> staged (world s') !! key = None ->
    outcome key oldRef old s s' rep (Some (ErrRollbackFailed phase cause e)).

Lemma rollback_outcome rep key oldRef old phase cause (s0 s : State Rot) ref c rep' err s' :
  rp_NewRef rep = ref -> ref <> oldRef -> old <> "" ->
  staged (world s) !! key = Some (mkStaged ref c oldRef old) \/
    (staged (world s) !! key = Some (mkStaged ref c "" "") /\ reads (world s) key = Some (oldRef, old)) ->
  usable (backend (world s)) oldRef ->
  rollback tenantID takes rep key oldRef phase cause s = (rep', err, s') ->
  others key (world s) (world s') /\ outcome key oldRef old s0 s' rep' err.
Proof.
  intros <- Hne Hold Hst Hu. unfold rollback. cbn [Rollback the_rotator BackendRotator_rotator].
  destruct (br_Rollback key oldRef (world s)) as [[e|] w] eqn:Hr; intros [= <- <- <-];
    destruct (Rollback_spec _ _ _ _ _ _ _ _ Hst Hold Hr) as (Ho & Hsg & Hother & Hback); (split; [exact Ho|]).
  - apply rollback_failed; [done|apply Hother; [congruence|done]|done].
  - destruct (Hback eq_refl). apply rolled_back; try done. apply Hother; [congruence|done].
Qed.

(** C34: A rotation never breaks its consumer: from a key whose published credential works,
    a rotation ends with the verified new credential published and the old one revoked,
    with the old one published and working and the new one revoked, with the new one
    published and the old one still to be revoked, or with nothing changed; only when the
    rollback itself fails may the consumer be left without. Other keys are untouched. *)
Theorem Rotate_never_breaks key oldRef old (s : State Rot) rep err s' :
  reads (world s) key = Some (oldRef, old) -> old <> "" -> usable (backend (world s)) oldRef ->
  Rotate tenantID takes key oldRef s = (rep, err, s') ->
  others key (world s) (world s') /\ outcome key oldRef old s s' rep err /\
  (RollbackFailed rep = false -> exists ref c, reads (world s') key = Some (ref, c) /\ usable (backend (world s')) ref).
Proof.
  intros Hr Hold Hu HR. enough (Hmain : others key (world s) (world s') /\ outcome key oldRef old s s' rep err).
  { destruct Hmain as [Ho Hout]. split_and!; [done..|]. intros Hf. destruct Hout; eauto. congruence. }
  revert HR. unfold Rotate. cbn [Stage Cutover Verify Retire the_rotator BackendRotator_rotator].
  destruct (br_Stage key (world s)) as [[ref|e] w1] eqn:H1'; destruct (Stage_spec _ _ _ _ H1') as (Ho1 & Hp1 & Hs1).
  2: { intros [= <- <- <-]. split; [exact Ho1|]. apply not_staged; [done..|unfold reads; cbn; by rewrite Hp1|by apply Hs1]. }
  destruct Hs1 as (c & Hsg1 & Hfresh & Hu1). assert (Hne : ref <> oldRef) by (intros ->; by apply Hfresh).
  assert (Hr1 : reads w1 key = Some (oldRef, old)) by (unfold reads; by rewrite Hp1).
  assert (Hold1 : usable (backend w1) oldRef) by (apply Hu1; by right). rewrite world_emit. cbn [world with_world].
  destruct (br_Cutover key ref w1) as [[e|] w2] eqn:H2'; destruct (Cutover_spec _ _ _ _ _ _ _ _ Hsg1 Hr1 H2') as (Ho2 & Hb2 & Hsg2 & Hr2).
  { intros Hrb. apply (rollback_outcome _ _ _ old _ _ s _ ref c) in Hrb as [Ho3 Hout]; try done; [|by destruct Hsg2; auto|cbn; by rewrite Hb2].
    split; [by do 2 (eapply others_trans; [eassumption|])|done]. }
  destruct (br_Verify verifier key w2) as [res w3] eqn:H3'. destruct (Verify_spec _ _ _ _ _ Hsg2 H3') as [-> Hv]. destruct res as [e|].
  { intros Hrb. apply (rollback_outcome _ _ _ old _ _ s _ ref c) in Hrb as [Ho3 Hout]; try done; [|by left|cbn; by rewrite Hb2].
    split; [by do 2 (eapply others_trans; [eassumption|])|done]. }
  cbn [world with_world]. destruct (br_Retire key oldRef w2) as [res w4] eqn:H4'. destruct (Retire_spec _ _ _ _ _ H4') as (Ho4 & Hp4 & Hu4 & Hok4).
  assert (Hr4 : reads w4 key = Some (ref, c)) by (unfold reads; by rewrite Hp4).
  assert (Hnew : usable (backend w4) ref) by (apply Hu4; [done|]; rewrite Hb2; apply Hu1; by left). specialize (proj1 Hv eq_refl) as Hver.
  assert (Ho : others key (world s) w4) by (do 2 (eapply others_trans; [eassumption|]); done).
  destruct res as [e|]; intros [= <- <- <-]; (split; [exact Ho|]).
  - by eapply retire_pending.
  - destruct (Hok4 eq_refl). by eapply rotated.
Qed.

(** The restore and the revocation of a rollback are independent: when the publisher
    refuses to restore, the credential that the consumer still reads is revoked. *)
Lemma refused_restore_breaks_consumer key oldRef old ref c e p b (r : Rot) :
  staged r !! key = Some (mkStaged ref c oldRef old) -> old <> "" -> reads r key = Some (ref, c) ->
  PublishCredential key oldRef old (publisher r) = (Some e, p) -> Revoke ref (backend r) = (None, b) ->
  exists r', br_Rollback key oldRef r = (Some e, r') /\ reads r' key = Some (ref, c) /\ ~ usable (backend r') ref.
Proof.
  intros Hst Hold Hr Hp Hv. unfold br_Rollback, stagedFor. rewrite Hst. cbn. apply String.eqb_neq in Hold. rewrite Hold, Hp, Hv.
  eexists. split; [reflexivity|]. unfold reads. cbn. split; [rewrite (publish_err _ _ _ _ _ _ Hp); exact Hr|].
  rewrite (revoke_ok _ _ _ Hv). tauto.
Qed.

End Spec_.
(** ** A backend in memory, and what can go wrong *)

(** References that work, the number of the next one, and references it cannot revoke. *)
Record MemoryBackend := mkMemory { mb_usable : gset string; mb_next : Z; mb_stuck : gset string }.

Definition mem_Create (key : string) (b : MemoryBackend) : result string (string * string) * MemoryBackend :=
  let ref := key +:+ GoInt.Itoa (mb_next b) in
  if decide (ref ∈ mb_usable b) then (Err "exists", b) else (Ok (ref, "secret"), mkMemory ({[ref]} ∪ mb_usable b) (mb_next b + 1) (mb_stuck b)).

Definition mem_Revoke (ref : string) (b : MemoryBackend) : option string * MemoryBackend :=
  if decide (ref ∈ mb_stuck b) then (Some "unavailable", b) else (None, mkMemory (mb_usable b ∖ {[ref]}) (mb_next b) (mb_stuck b)).

#[export] Instance Memory_backend : Backend MemoryBackend := {|
  Create := mem_Create; Revoke := mem_Revoke; usable b r := r ∈ mb_usable b
|}.

#[export] Instance Memory_backend_laws : BackendLaws MemoryBackend.
Proof.
  split; cbn; unfold mem_Create, mem_Revoke.
  - intros k b ref c b'. destruct (decide _) as [|Hn]; [done|]. intros [= <- <- <-]. split; [done|]. cbn. set_solver.
  - intros k b e b'. destruct (decide _); [|done]. intros [= <- <-]. set_solver.
  - intros r b b'. destruct (decide _); [done|]. intros [= <-]. cbn. set_solver.
  - intros r b e b'. destruct (decide _); [|done]. intros [= <- <-]. set_solver.
Qed.

Definition MemRot := BackendRotator MemoryBackend MemoryCredentialPublisher.
Definition healthy (key ref credential : string) : option string := None.
Definition sick (key ref credential : string) : option string := Some "refused".

Definition start : MemRot := mkRotator (mkMemory {["old"]} 1 ∅) {["db" := mkPublished "old" "hunter2"]} ∅.
Definition started : State MemRot := mkState start (mkSink [] 0).

#[local] Instance sick_rotator : Rotator MemRot := BackendRotator_rotator sick.

Lemma Rotate_never_breaks_witness :
  let '(rep, err, s') := Rotate (W := MemRot) "t" (fun _ => true) "db" "old" started in
  outcome sick "db" "old" "hunter2" started s' rep err /\ reads (world s') "db" = Some ("old", "hunter2") /\ err = Some (ErrRolledBack "verify" "rotation: verify staged credential: refused").
Proof.
  destruct (Rotate (W := MemRot) "t" (fun _ => true) "db" "old" started) as [[rep err] s'] eqn:HR.
  split; [|by vm_compute in HR; injection HR as <- <- <-].
  refine (proj1 (proj2 (Rotate_never_breaks sick "t" (fun _ => true) "db" "old" "hunter2" started rep err s' eq_refl _ _ HR))); [discriminate|].
  change ("old" ∈ ({["old"]} : gset string)). by apply elem_of_singleton.
Defined.

(** Staged credentials are kept by key alone: when a second rotation of a key stages
    before the first has cut over, the rollback of the first revokes the credential of
    the second, both rotations fail, and the credential of the first works for ever, in
    no table. *)
Lemma interleaved_rotations_leak :
  let (r1, w) := br_Stage "db" start in let (r2, w) := br_Stage "db" w in
  let (c1, w) := br_Cutover "db" "db1" w in let (_, w) := br_Rollback "db" "old" w in
  let (c2, w) := br_Cutover "db" "db2" w in let (e2, w) := br_Rollback "db" "old" w in
  r1 = Ok "db1" /\ r2 = Ok "db2" /\ c1 = Some ErrCredentialNotFound /\ c2 = Some ErrCredentialNotFound /\ e2 = Some ErrCredentialNotFound /\
  usable (backend w) "db1" /\ ~ usable (backend w) "db2" /\ staged w = ∅.
Proof. vm_compute. split_and!; try done. Qed.

End RotationSpec.
