(* ===== verification/BreakGlass.v ===== *)
(** * Break-glass issuance and login

    [src/internal/breakglass/]: the quorum and the offline signer of emergency
    certificates with its self-verifying bundles ([breakglass.go]), their reconciliation
    into the audit log ([reconcile.go]), and the lockout of the emergency login
    ([admin.go]).  Signatures, certificates and password hashes are parameters; what the
    escrow key answers is an argument of a call, and what it has been given to sign, leaf
    certificates and manifests alike, is the state.  Texts are UTF-8 and times are
    nanoseconds. *)

From stdpp Require Import sorting.
From S2P Require Import Prelude Json.
Open Scope string_scope.
Open Scope list_scope.
Open Scope Z_scope.

Module BreakGlass.
Import SE.

(** ** breakglass.go: the quorum *)

Record Quorum := mkQuorum { Threshold : Z; Operators : list string }.

Inductive QuorumErr := ErrThreshold | ErrNotOperator (a : string) | ErrNotMet (count threshold : Z).

Fixpoint count_approvals (allowed seen : gset string) (count : Z) (approvals : list string) : result QuorumErr Z :=
  match approvals with
  | [] => Ok count
  | a :: l =>
      if decide (a ∈ allowed) then
        if decide (a ∈ seen) then count_approvals allowed seen count l
        else count_approvals allowed ({[a]} ∪ seen) (count + 1) l
      else Err (ErrNotOperator a)
  end.

(** [None] is a nil error. *)
Definition Quorum_Verify (q : Quorum) (approvals : list string) : option QuorumErr :=
  if Threshold q <=? 0 then Some ErrThreshold else
  match count_approvals (list_to_set (Operators q)) ∅ 0 approvals with
  | Err e => Some e
  | Ok count => if count <? Threshold q then Some (ErrNotMet count (Threshold q)) else None
  end.

(** ** breakglass.go: the offline signer *)

Record EmergencyRequest := mkRequest { rq_ID : string; rq_Subject : string; CSRDer : string; rq_Reason : string; rq_Approvals : list string }.

Record Bundle := mkBundle {
  RequestID : string; Subject : string; CertDER : string; Reason : string; Approvals : list string; IssuedAt : Z; Signature : string
}.

Definition second : Z := 1000000000.

Record Config := mkConfig { TenantID : string; cfg_Quorum : Quorum; CACertDER : string; CASigner : bool }.

Inductive NewErr := ErrTenantRequired | ErrSignerRequired | ErrInvalidQuorum.

(** [CASigner] says whether a signer is configured. *)
Definition New (cfg : Config) : result NewErr Config :=
  if String.eqb (TenantID cfg) "" then Err ErrTenantRequired else
  if String.eqb (CACertDER cfg) "" || negb (CASigner cfg) then Err ErrSignerRequired else
  if (Threshold (cfg_Quorum cfg) <=? 0) || (Z.of_nat (length (Operators (cfg_Quorum cfg))) <? Threshold (cfg_Quorum cfg)) then Err ErrInvalidQuorum else
  Ok cfg.

Inductive IssueErr := ErrReasonRequired | ErrQuorum (e : QuorumErr) | ErrSignCert (e : string) | ErrSignBundle (e : string).
Inductive VerifyErr := ErrManifestSignature | ErrChain.

Section Crypto_.
Variable SHA256Hex : string -> string.
(** Whether a signature on a message verifies, and whether a certificate chains. *)
Variable VerifyMessage : string -> data -> string -> bool.
Variable VerifyLeafSignedByCA : string -> string -> bool.

(** A nil slice is written as null. *)
Definition sorted_approvals (l : list string) : json :=
  match merge_sort String.le l with [] => JNull | l' => JArr (JStr <$> l') end.

Definition manifestBytes (b : Bundle) : data :=
  DJson (JObj [("request_id", JStr (RequestID b)); ("subject", JStr (Subject b)); ("cert_sha256", JStr (SHA256Hex (CertDER b)));
               ("reason", JStr (Reason b)); ("approvals", sorted_approvals (Approvals b));
               ("issued_at", JNum (IssuedAt b / second))]).

(** The escrow key: [answer] is what it gives for a message, the state is what it has been
    given to sign. *)
Definition Sign (answer : data -> result string string) (m : data) : M (list data) string string := fun given => (answer m, given ++ [m]).

(** [crypto.SignLeafFromCSR]: [tbs] is the certificate to be signed, or the error of making
    it from the request; the same key signs it; [finish] puts the certificate together and
    checks it against the CA. *)
Definition SignLeafFromCSR (tbs : result string string) (finish : string -> string -> result string string)
    (answer : data -> result string string) : M (list data) string string := fun given =>
  match tbs with
  | Err e => (Err e, given)
  | Ok t => bind (Sign answer (DRaw t)) (fun sig given => (finish t sig, given)) given
  end.

Definition sign_bundle (b : Bundle) (sig : string) : Bundle :=
  mkBundle (RequestID b) (Subject b) (CertDER b) (Reason b) (Approvals b) (IssuedAt b) sig.

(** The bundle before its signature. *)
Definition unsigned (req : EmergencyRequest) (now : Z) (certDER : string) : Bundle :=
  mkBundle (rq_ID req) (rq_Subject req) certDER (rq_Reason req) (rq_Approvals req) now "".

Definition IssueOffline (cfg : Config) (req : EmergencyRequest) (now : Z) (tbs : result string string) (finish : string -> string -> result string string)
    (answer : data -> result string string) : M (list data) IssueErr Bundle := fun given =>
  if String.eqb (rq_Reason req) "" then (Err ErrReasonRequired, given) else
  match Quorum_Verify (cfg_Quorum cfg) (rq_Approvals req) with
  | Some e => (Err (ErrQuorum e), given)
  | None =>
      match SignLeafFromCSR tbs finish answer given with
      | (Err e, given) => (Err (ErrSignCert e), given)
      | (Ok certDER, given) =>
          let b := unsigned req now certDER in
          match Sign answer (manifestBytes b) given with
          | (Err e, given) => (Err (ErrSignBundle e), given)
          | (Ok sig, given) => (Ok (sign_bundle b sig), given)
          end
      end
  end.

Definition Verify (b : Bundle) (caCertDER breakglassPubDER : string) : option VerifyErr :=
  if negb (VerifyMessage breakglassPubDER (manifestBytes b) (Signature b)) then Some ErrManifestSignature else
  if negb (VerifyLeafSignedByCA (CertDER b) caCertDER) then Some ErrChain else None.

(** ** reconcile.go *)

Record IssuedEvent := mkIssued { ie_TenantID : string; ie_request_id : string; ie_subject : string; ie_reason : string; ie_issued_at : Z; ie_approvals : Z }.

Definition issued_event (tenantID : string) (b : Bundle) : IssuedEvent :=
  mkIssued tenantID (RequestID b) (Subject b) (Reason b) (IssuedAt b / second) (Z.of_nat (length (Approvals b))).

Inductive ReconcileErr := ErrRejected (request : string) (e : VerifyErr) | ErrAudit (e : string).

(** [audit] is what the auditor answers after the events it holds. *)
Fixpoint Reconcile (tenantID ca pub : string) (audit : list IssuedEvent -> option string) (reconciled : Z) (log : list IssuedEvent)
    (bundles : list Bundle) : Z * option ReconcileErr * list IssuedEvent :=
  match bundles with
  | [] => (reconciled, None, log)
  | b :: l =>
      match Verify b ca pub with
      | Some e => (reconciled, Some (ErrRejected (RequestID b) e), log)
      | None =>
          match audit log with
          | Some e => (reconciled, Some (ErrAudit e), log)
          | None => Reconcile tenantID ca pub audit (reconciled + 1) (log ++ [issued_event tenantID b]) l
          end
      end
  end.

End Crypto_.

(** ** admin.go *)

Record adminCredential := mkCred { cr_hash : string; cr_failures : Z; cr_lockedUntil : option Z }.

Record AdminConfig := mkAdmin {
  Enabled : bool; ad_TenantID : string; MaxFailures : Z; Lockout : Z;
  Sessions : option (string -> string -> result string string)
}.

Definition NewAdminService (cfg : AdminConfig) : AdminConfig :=
  mkAdmin (Enabled cfg) (ad_TenantID cfg) (if MaxFailures cfg <=? 0 then 5 else MaxFailures cfg)
          (if Lockout cfg <=? 0 then 15 * 60 * second else Lockout cfg) (Sessions cfg).

Inductive AdminErr :=
| ErrAdminDisabled | ErrAdminInvalidCredentials | ErrAdminLocked | ErrHash (e : string) | ErrAdminAudit (e : string)
| ErrSessionsRequired | ErrSession (e : string).

Record AdminState := mkAdminState { creds : gmap string adminCredential; log : list (string * string * string) }.

Section Admin_.
Variable cfg : AdminConfig.
Variable VerifyArgon2id : string -> string -> bool.
(** What the auditor answers after the records it holds. *)
Variable audit_answers : list (string * string * string) -> option string.

Definition tenantID : string := if String.eqb (ad_TenantID cfg) "" then "default" else ad_TenantID cfg.

Definition audit (actorID outcome : string) : M AdminState AdminErr unit := fun s =>
  match audit_answers (log s) with
  | Some e => (Err (ErrAdminAudit e), s)
  | None => (Ok tt, mkAdminState (creds s) (log s ++ [(tenantID, actorID, outcome)]))
  end.

Definition refuse {A} (actorID outcome : string) (e : AdminErr) : M AdminState AdminErr A :=
  bind (audit actorID outcome) (fun _ => fail e).

Definition set_cred (actorID : string) (c : adminCredential) (s : AdminState) : AdminState :=
  mkAdminState (<[actorID := c]> (creds s)) (log s).

(** [hash] is the hash of the password, or the error of hashing it. *)
Definition SetPassword (actorID : string) (hash : result string string) : M AdminState AdminErr unit := fun s =>
  if negb (Enabled cfg) then (Err ErrAdminDisabled, s) else
  match hash with
  | Err e => (Err (ErrHash e), s)
  | Ok h => (Ok tt, set_cred actorID (mkCred h 0 None) s)
  end.

(** [Authenticate] up to the verification: the credential whose hash is compared. *)
Definition auth_begin (actorID : string) (now : Z) : M AdminState AdminErr adminCredential := fun s =>
  if negb (Enabled cfg) then refuse actorID "disabled" ErrAdminDisabled s else
  match creds s !! actorID with
  | None => refuse actorID "invalid_credentials" ErrAdminInvalidCredentials s
  | Some cred =>
      if match cr_lockedUntil cred with Some t => now <? t | None => false end then refuse actorID "locked" ErrAdminLocked s
      else (Ok cred, s)
  end.

Definition no_cred : adminCredential := mkCred "" 0 None.

Definition auth_fail (actorID : string) (now : Z) : M AdminState AdminErr string := fun s =>
  let cred := default no_cred (creds s !! actorID) in
  let failures := cr_failures cred + 1 in
  if MaxFailures cfg <=? failures
  then refuse actorID "locked" ErrAdminLocked (set_cred actorID (mkCred (cr_hash cred) failures (Some (now + Lockout cfg))) s)
  else refuse actorID "invalid_credentials" ErrAdminInvalidCredentials (set_cred actorID (mkCred (cr_hash cred) failures (cr_lockedUntil cred)) s).

Definition auth_succeed (actorID : string) : M AdminState AdminErr string := fun s =>
  let cred := default no_cred (creds s !! actorID) in
  let s := set_cred actorID (mkCred (cr_hash cred) 0 None) s in
  match Sessions cfg with
  | None => (Err ErrSessionsRequired, s)
  | Some issue =>
      bind (audit actorID "success") (fun _ s =>
        match issue actorID tenantID with
        | Ok tok => (Ok tok, s)
        | Err e => (Err (ErrSession e), s)
        end) s
  end.

(** The verification and what follows it. *)
Definition auth_finish (actorID password : string) (now : Z) (cred : adminCredential) : M AdminState AdminErr string :=
  if VerifyArgon2id (cr_hash cred) password then auth_succeed actorID else auth_fail actorID now.

Definition Authenticate (actorID password : string) (now : Z) : M AdminState AdminErr string :=
  bind (auth_begin actorID now) (auth_finish actorID password now).

End Admin_.

End BreakGlass.
