(* ===== verification/BreakGlassSpec.v ===== *)
(** * Emergency certificates need a quorum, and the login locks

    Every break-glass event in the audit log stands for an issuance that a quorum of
    operators approved; the lockout bounds the passwords that sequential logins try, and
    does not bound concurrent ones. *)

From stdpp Require Import sorting.
From S2P Require Import Prelude Json BreakGlass.
Open Scope string_scope.
Open Scope list_scope.
Open Scope Z_scope.

Module BreakGlassSpec.
Import SE BreakGlass.

(** ** The quorum *)

Lemma size_add_one (a : string) (X : gset string) : a ∉ X -> size ({[a]} ∪ X) = S (size X).
Proof. intros H. rewrite size_union by set_solver. by rewrite size_singleton. Qed.

Lemma count_approvals_spec allowed l : forall (seen : gset string) n,
  count_approvals allowed seen n l =
    match List.find (fun a => negb (bool_decide (a ∈ allowed))) l with
    | Some a => Err (ErrNotOperator a)
    | None => Ok (n + Z.of_nat (size (list_to_set l ∖ seen)))
    end.
Proof.
  induction l as [|a l IH]; intros seen n; cbn [count_approvals List.find].
  - replace (list_to_set [] ∖ seen) with (∅ : gset string) by set_solver. f_equal. change (n = n + 0). lia.
  - case_decide as Ha; [rewrite bool_decide_eq_true_2 by done|by rewrite bool_decide_eq_false_2 by done]. cbn [negb].
    case_decide as Hs; rewrite IH; destruct (List.find _ l); try done; f_equal.
    + by replace (list_to_set (a :: l) ∖ seen) with (list_to_set l ∖ seen : gset string) by set_solver.
    + replace (list_to_set (a :: l) ∖ seen) with ({[a]} ∪ list_to_set l ∖ ({[a]} ∪ seen) : gset string).
      * rewrite size_add_one by set_solver. lia.
      * apply set_eq. intros x. destruct (decide (x = a)); set_solver.
Qed.

(** Enough distinct operators, and nobody else. *)
Definition quorum_met (q : Quorum) (approvals : list string) : Prop :=
  0 < Threshold q /\ (forall a, a ∈ approvals -> a ∈ Operators q) /\
  Threshold q <= Z.of_nat (size (list_to_set approvals : gset string)).

Lemma Quorum_Verify_decides q l : Quorum_Verify q l = None <-> quorum_met q l.
Proof.
  unfold Quorum_Verify, quorum_met. destruct (Z.leb_spec (Threshold q) 0); [split; [done|lia]|].
  rewrite count_approvals_spec. replace (list_to_set l ∖ ∅) with (list_to_set l : gset string) by set_solver.
  destruct (List.find _ l) as [a|] eqn:Hf.
  - apply List.find_some in Hf as [Ha Hn]. apply negb_true_iff, bool_decide_eq_false in Hn. split; [done|].
    intros (_ & Hall & _). exfalso. apply Hn, elem_of_list_to_set, Hall. by apply list_elem_of_In.
  - destruct (Z.ltb_spec (0 + Z.of_nat (size (list_to_set l : gset string))) (Threshold q)); (split; [done || intros _|intros (_ & _ & ?); done || lia]).
    split_and!; [lia| |lia]. intros a Ha. apply list_elem_of_In in Ha. pose proof (List.find_none _ _ Hf a Ha) as Hn. cbn in Hn.
    apply negb_false_iff, bool_decide_eq_true in Hn. by apply elem_of_list_to_set in Hn.
Qed.

(** ** Bundles *)

Section Bundles.
Variable SHA256Hex : string -> string.
Variable VerifyMessage : string -> data -> string -> bool.
Variable VerifyLeafSignedByCA : string -> string -> bool.

(** Two bundles of one manifest say the same, down to the second and up to the order of
    approvals and a collision of the certificates. *)
Definition same_manifest (b b' : Bundle) : Prop :=
  RequestID b = RequestID b' /\ Subject b = Subject b' /\ Reason b = Reason b' /\ Approvals b ≡ₚ Approvals b' /\
  IssuedAt b / second = IssuedAt b' / second /\ SHA256Hex (CertDER b) = SHA256Hex (CertDER b').

Lemma manifest_inj b b' : manifestBytes SHA256Hex b = manifestBytes SHA256Hex b' -> same_manifest b b'.
Proof.
  unfold manifestBytes, same_manifest, sorted_approvals. intros [= H1 H2 H3 H4 H5 H6]. split_and!; try done.
  rewrite <- (merge_sort_Permutation String.le (Approvals b)), <- (merge_sort_Permutation String.le (Approvals b')).
  destruct (merge_sort String.le (Approvals b)) as [|x l], (merge_sort String.le (Approvals b')) as [|y l']; try done.
  injection H5 as -> Hl. assert (Inj eq eq JStr) by (by intros ? ? [= ->]).
  apply (inj (list_fmap _ _ JStr)) in Hl. by rewrite Hl.
Qed.

(** A call of the service: the request, the clock, and what making the leaf and the escrow
    key answered. *)
Record call := mkCall {
  c_req : EmergencyRequest; c_now : Z; c_tbs : result string string; c_finish : string -> string -> result string string;
  c_answer : data -> result string string
}.

Definition issue_call (cfg : Config) (c : call) : M (list data) IssueErr Bundle :=
  IssueOffline SHA256Hex cfg (c_req c) (c_now c) (c_tbs c) (c_finish c) (c_answer c).

(** The certificate that the call has signed. *)
Definition leaf_of (c : call) : result string string := fst (SignLeafFromCSR (c_tbs c) (c_finish c) (c_answer c) []).

(** What the escrow key has been given by a sequence of calls. *)
Definition given_by (cfg : Config) (calls : list call) : list data := fold_left (fun given c => snd (issue_call cfg c given)) calls [].

(** A message that the service gives the key is a certificate to be signed, or the manifest
    of a request with a reason and a quorum. *)
Lemma issue_gives cfg c given m : m ∈ snd (issue_call cfg c given) -> m ∈ given \/ (exists t, m = DRaw t) \/
  exists cert, m = manifestBytes SHA256Hex (unsigned (c_req c) (c_now c) cert) /\ leaf_of c = Ok cert /\
    rq_Reason (c_req c) <> "" /\ quorum_met (cfg_Quorum cfg) (rq_Approvals (c_req c)).
Proof.
  unfold issue_call, IssueOffline. destruct (String.eqb_spec (rq_Reason (c_req c)) ""); [by left|].
  destruct (Quorum_Verify (cfg_Quorum cfg) (rq_Approvals (c_req c))) eqn:Hq; [by left|]. apply Quorum_Verify_decides in Hq.
  unfold leaf_of, SignLeafFromCSR, Sign, bind. destruct (c_tbs c) as [t|e]; [|by left].
  assert (Hsplit : forall l x, m ∈ l ++ [x] -> m ∈ l \/ m = x) by (intros l x [?|Hx]%elem_of_app; [by left|right; by apply list_elem_of_singleton in Hx]).
  destruct (c_answer c (DRaw t)) as [sig|e]; [destruct (c_finish c t sig) as [cert|e] eqn:Hfin|].
  - intros Hm. assert (Hm' : m ∈ (given ++ [DRaw t]) ++ [manifestBytes SHA256Hex (unsigned (c_req c) (c_now c) cert)]).
    { by destruct (c_answer c (manifestBytes _ _)). }
    apply Hsplit in Hm' as [[?| ->]%Hsplit| ->]; [by left|right; left; by exists t|right; right; by exists cert].
  - intros [?| ->]%Hsplit; [by left|right; left; by exists t].
  - intros [?| ->]%Hsplit; [by left|right; left; by exists t].
Qed.

Lemma given_origin cfg calls m : m ∈ given_by cfg calls -> (exists t, m = DRaw t) \/
  exists c cert, c ∈ calls /\ m = manifestBytes SHA256Hex (unsigned (c_req c) (c_now c) cert) /\ leaf_of c = Ok cert /\
    rq_Reason (c_req c) <> "" /\ quorum_met (cfg_Quorum cfg) (rq_Approvals (c_req c)).
Proof.
  unfold given_by. intros Hm.
  assert (Hgen : forall given, m ∈ fold_left (fun given c => snd (issue_call cfg c given)) calls given -> m ∈ given \/ (exists t, m = DRaw t) \/
    exists c cert, c ∈ calls /\ m = manifestBytes SHA256Hex (unsigned (c_req c) (c_now c) cert) /\ leaf_of c = Ok cert /\
      rq_Reason (c_req c) <> "" /\ quorum_met (cfg_Quorum cfg) (rq_Approvals (c_req c))); [|by destruct (Hgen [] Hm) as [?%elem_of_nil|]].
  clear Hm. induction calls as [|c calls IH]; intros given Hm; [by left|]. cbn in Hm.
  destruct (IH _ Hm) as [Hin|[Hr|(c' & cert & Hc & Hx)]].
  - destruct (issue_gives _ _ _ _ Hin) as [?|[?|(cert & Hx)]]; [by left|by right; left|]. right; right. exists c, cert. split; [by left|done].
  - by right; left.
  - right; right. exists c', cert. split; [by right|done].
Qed.

(** What the service issues verifies, when its signer's signatures and leaves do. *)
Lemma IssueOffline_verifies cfg c given given' ca pub b : issue_call cfg c given = (Ok b, given') ->
  (forall m sig, c_answer c m = Ok sig -> VerifyMessage pub m sig = true) ->
  (forall t sig cert, c_finish c t sig = Ok cert -> VerifyLeafSignedByCA cert ca = true) ->
  Verify SHA256Hex VerifyMessage VerifyLeafSignedByCA b ca pub = None.
Proof.
  unfold issue_call, IssueOffline. destruct (String.eqb _ _); [done|]. destruct (Quorum_Verify _ _); [done|].
  unfold SignLeafFromCSR, Sign, bind. destruct (c_tbs c) as [t|]; [|done]. destruct (c_answer c (DRaw t)) as [sl|]; [|done].
  destruct (c_finish c t sl) as [cert|] eqn:Hf; [|done]. destruct (c_answer c (manifestBytes _ _)) as [sig|] eqn:Hs; [|done].
  intros [= <- _] Hsig Hleaf. unfold Verify, sign_bundle, unsigned, manifestBytes in *. cbn in *. by rewrite (Hsig _ _ Hs), (Hleaf _ _ _ Hf).
Qed.

Lemma Reconcile_prefix t ca pub audit bundles : forall n0 log n err log',
  Reconcile SHA256Hex VerifyMessage VerifyLeafSignedByCA t ca pub audit n0 log bundles = (n, err, log') ->
  exists k, n = n0 + Z.of_nat k /\ (k <= length bundles)%nat /\ log' = log ++ (issued_event t <$> take k bundles) /\
    (err = None -> k = length bundles) /\
    forall b, b ∈ take k bundles -> Verify SHA256Hex VerifyMessage VerifyLeafSignedByCA b ca pub = None.
Proof.
  induction bundles as [|b bundles IH]; intros n0 log n err log'; cbn [Reconcile].
  - intros [= <- <- <-]. exists 0%nat. split_and!; [lia|done|by rewrite app_nil_r|done|]. intros b Hb. by apply elem_of_nil in Hb.
  - destruct (Verify _ _ _ b ca pub) eqn:Hv; [|destruct (audit log) eqn:Ha].
    1, 2: intros [= <- <- <-]; exists 0%nat; split_and!; [lia|lia|by rewrite app_nil_r|done|]; intros x Hx; by apply elem_of_nil in Hx.
    intros HR. apply IH in HR as (k & -> & Hk & -> & He & Hall). exists (S k). split_and!.
    + lia.
    + cbn. lia.
    + cbn. by rewrite <- app_assoc.
    + intros Hn. cbn. by rewrite He.
    + cbn. intros x [->|Hx]%elem_of_cons; [done|by apply Hall].
Qed.

(** C32: Nothing enters the audit log without a quorum: when what verifies under the escrow
    key is what the service has given it to sign, the certificates to be signed as well as
    the manifests, every event that reconciling appends, whoever kept the bundles and
    whatever they hold, stands for a request with a reason that enough distinct authorized
    operators approved, with the same identifier, subject, reason, approvals and second of
    issuance and the certificate of that issuance up to a hash collision; the events are
    those of a prefix of the bundles, the whole of it without an error.  A certificate to
    be signed, which is DER, is not the text of a manifest. *)
Theorem reconciled_were_quorate cfg (calls : list call) t ca pub audit log bundles n err log' :
  (forall m sig, VerifyMessage pub m sig = true -> m ∈ given_by cfg calls) ->
  Reconcile SHA256Hex VerifyMessage VerifyLeafSignedByCA t ca pub audit 0 log bundles = (n, err, log') ->
  exists k, n = Z.of_nat k /\ log' = log ++ (issued_event t <$> take k bundles) /\ (err = None -> k = length bundles) /\
    forall b, b ∈ take k bundles -> VerifyLeafSignedByCA (CertDER b) ca = true /\
      exists c cert, c ∈ calls /\ leaf_of c = Ok cert /\ rq_Reason (c_req c) <> "" /\ quorum_met (cfg_Quorum cfg) (rq_Approvals (c_req c)) /\
        same_manifest b (unsigned (c_req c) (c_now c) cert).
Proof.
  intros Hforge HR. apply Reconcile_prefix in HR as (k & -> & _ & -> & He & Hall). exists k. split_and!; [lia|done|done|].
  intros b Hb%Hall. revert Hb. unfold Verify. destruct (VerifyMessage pub _ _) eqn:Hm; [|done]. destruct (VerifyLeafSignedByCA _ _) eqn:Hc; [|done].
  intros _. split; [done|]. apply Hforge, given_origin in Hm as [[x Hx]|(c & cert & Hin & Heq & Hl & Hr & Hq)]; [done|].
  exists c, cert. split_and!; [done..|]. by apply manifest_inj.
Qed.

(** The manifest names no tenant and reconciling remembers nothing: bundles that verify
    are accepted for any tenant, and as often as they are presented. *)
Lemma reconcile_any_tenant tenant ca pub bundles :
  (forall b, b ∈ bundles -> Verify SHA256Hex VerifyMessage VerifyLeafSignedByCA b ca pub = None) ->
  Reconcile SHA256Hex VerifyMessage VerifyLeafSignedByCA tenant ca pub (fun _ => None) 0 [] bundles =
    (Z.of_nat (length bundles), None, issued_event tenant <$> bundles).
Proof.
  intros H. assert (Hgen : forall n l, Reconcile SHA256Hex VerifyMessage VerifyLeafSignedByCA tenant ca pub (fun _ => None) n l bundles =
    (n + Z.of_nat (length bundles), None, l ++ (issued_event tenant <$> bundles))); [|by rewrite Hgen].
  induction bundles as [|b bundles IH]; intros n l; cbn [Reconcile length fmap list_fmap].
  - rewrite app_nil_r. f_equal. f_equal. lia.
  - rewrite H by (by left). rewrite IH by (intros x Hx; apply H; by right). rewrite <- app_assoc. f_equal. f_equal. lia.
Qed.

End Bundles.

Section Small.

Definition small_request : EmergencyRequest := mkRequest "r1" "db" "csr" "outage" ["bob"; "alice"].
Definition small_config : Config := mkConfig "t" (mkQuorum 2 ["alice"; "bob"; "carol"]) "ca" true.
Definition small_bundle : Bundle := mkBundle "r1" "db" "cert" "outage" ["alice"; "bob"] 7 "sig".

(** The key signs by repeating the message, and what it has signed verifies: the leaf, and
    the manifest. *)
Definition small_call : call := mkCall small_request 5 (Ok "tbs") (fun _ _ => Ok "cert") (fun _ => Ok "sig").
Definition small_verify (pub : string) (m : data) (sig : string) : bool :=
  bool_decide (m ∈ given_by (fun x => x) small_config [small_call]).

Lemma reconciled_were_quorate_witness : small_verify "pub" (DRaw "tbs") "sig" = true /\
  exists k, 1 = Z.of_nat k /\ [issued_event "t" small_bundle] = [] ++ (issued_event "t" <$> take k [small_bundle]) /\
    quorum_met (cfg_Quorum small_config) (rq_Approvals small_request).
Proof.
  split; [vm_compute; reflexivity|].
  destruct (reconciled_were_quorate (fun x => x) small_verify (fun _ _ => true) small_config [small_call] "t" "ca" "pub" (fun _ => None) []
    [small_bundle] 1 None [issued_event "t" small_bundle]) as (k & Hk & Hl & _ & Hb).
  - intros m sig Hm. apply bool_decide_eq_true in Hm. exact Hm.
  - vm_compute. reflexivity.
  - exists k. split; [exact Hk|]. split; [exact Hl|]. destruct (Hb small_bundle) as [_ (c & cert & Hin & _ & _ & Hq & _)].
    + replace k with 1%nat by lia. by left.
    + apply list_elem_of_singleton in Hin. rewrite Hin in Hq. exact Hq.
Defined.

End Small.

(** ** The login *)

Section Login.
Variable cfg : AdminConfig.
Variable VerifyArgon2id : string -> string -> bool.
Variable audit_answers : list (string * string * string) -> option string.
Hypothesis Hon : Enabled cfg = true.

#[local] Abbreviation begin := (auth_begin cfg audit_answers).
#[local] Abbreviation finish := (auth_finish cfg VerifyArgon2id audit_answers).
#[local] Abbreviation login := (Authenticate cfg VerifyArgon2id audit_answers).

Lemma audit_creds actor o s : creds (snd (audit cfg audit_answers actor o s)) = creds s.
Proof. unfold audit. by destruct (audit_answers (log s)). Qed.

Lemma refuse_spec {A} actor o e s : exists e', fst (refuse (A := A) cfg audit_answers actor o e s) = Err e' /\
  creds (snd (refuse (A := A) cfg audit_answers actor o e s)) = creds s.
Proof.
  unfold refuse, bind. pose proof (audit_creds actor o s) as Ha. destruct (audit cfg audit_answers actor o s) as [[[]|e'] s']; cbn in *; eauto.
Qed.

(** Locked at a time. *)
Definition locked (c : adminCredential) (now : Z) : bool := match cr_lockedUntil c with Some t => now <? t | None => false end.

Lemma begin_spec actor now s : creds (snd (begin actor now s)) = creds s /\
  forall c, fst (begin actor now s) = Ok c <-> creds s !! actor = Some c /\ locked c now = false.
Proof.
  unfold auth_begin. rewrite Hon. cbn [negb]. destruct (creds s !! actor) as [c0|] eqn:Hc.
  - fold (locked c0 now). destruct (locked c0 now) eqn:Hl.
    + destruct (refuse_spec (A := adminCredential) actor "locked" ErrAdminLocked s) as (e & -> & ->). split; [done|]. intros c. split; [done|]. intros [? ?]. simplify_eq. congruence.
    + cbn. split; [done|]. intros c. split; [by intros [= <-]|]. by intros [[= <-] _].
  - destruct (refuse_spec (A := adminCredential) actor "invalid_credentials" ErrAdminInvalidCredentials s) as (e & -> & ->). split; [done|]. intros c. split; [done|by intros [? _]].
Qed.

(** The credential after a wrong password. *)
Definition after_failure (now : Z) (c : adminCredential) : adminCredential :=
  let failures := cr_failures c + 1 in
  mkCred (cr_hash c) failures (if MaxFailures cfg <=? failures then Some (now + Lockout cfg) else cr_lockedUntil c).

Lemma fail_spec actor now s c : creds s !! actor = Some c -> exists e, fst (auth_fail cfg audit_answers actor now s) = Err e /\
  creds (snd (auth_fail cfg audit_answers actor now s)) = <[actor := after_failure now c]> (creds s).
Proof.
  intros Hc. unfold auth_fail, after_failure. rewrite Hc. cbn [from_option id].
  destruct (MaxFailures cfg <=? cr_failures c + 1).
  - by destruct (refuse_spec (A := string) actor "locked" ErrAdminLocked (set_cred actor (mkCred (cr_hash c) (cr_failures c + 1) (Some (now + Lockout cfg))) s)) as (e & -> & ->); eauto.
  - by destruct (refuse_spec (A := string) actor "invalid_credentials" ErrAdminInvalidCredentials (set_cred actor (mkCred (cr_hash c) (cr_failures c + 1) (cr_lockedUntil c)) s)) as (e & -> & ->); eauto.
Qed.

(** One wrong login, alone. *)
Lemma wrong_login actor pw now s c : creds s !! actor = Some c -> VerifyArgon2id (cr_hash c) pw = false ->
  (exists e, fst (login actor pw now s) = Err e) /\
  creds (snd (login actor pw now s)) = if locked c now then creds s else <[actor := after_failure now c]> (creds s).
Proof.
  intros Hc Hw. unfold Authenticate, bind. destruct (begin_spec actor now s) as [Hs Hb]. destruct (begin actor now s) as [[c'|e] s'] eqn:E; cbn in *.
  - destruct (proj1 (Hb c') eq_refl) as [Hc' Hl]. simplify_eq. rewrite Hl. unfold auth_finish. rewrite Hw.
    rewrite <- Hs in Hc. destruct (fail_spec actor now s' c Hc) as (e & He & ->). split; [by exists e|by rewrite Hs].
  - split; [by exists e|]. destruct (locked c now) eqn:Hl; [done|]. exfalso. by pose proof (proj2 (Hb c) (conj Hc Hl)).
Qed.

(** The wrong passwords of a sequence of logins that are compared with the hash. *)
Fixpoint compared (actor : string) (l : list (string * Z)) (s : AdminState) : nat * AdminState :=
  match l with
  | [] => (0%nat, s)
  | (pw, now) :: l =>
      let n := match fst (begin actor now s) with Ok _ => 1%nat | Err _ => 0%nat end in
      let (m, s') := compared actor l (snd (login actor pw now s)) in ((n + m)%nat, s')
  end.

Section Window.
Variables (actor : string) (t0 : Z).

Definition within (now : Z) : Prop := t0 <= now < t0 + Lockout cfg.

(** Locked until the window is over. *)
Definition shut (c : adminCredential) : Prop := exists t, cr_lockedUntil c = Some t /\ t0 + Lockout cfg <= t.

Lemma shut_locked c now : shut c -> within now -> locked c now = true.
Proof. intros (t & Ht & Hle) [_ Hw]. unfold locked. rewrite Ht. apply Z.ltb_lt. lia. Qed.

Lemma compared_shut l : forall s c, creds s !! actor = Some c -> shut c -> Forall (fun a => VerifyArgon2id (cr_hash c) (fst a) = false /\ within (snd a)) l ->
  fst (compared actor l s) = 0%nat /\ creds (snd (compared actor l s)) = creds s.
Proof.
  induction l as [|[pw now] l IH]; intros s c Hc Hsh Hl; [done|]. apply Forall_cons in Hl as [[Hw Hin] Hl]. cbn in Hw, Hin. cbn [compared].
  destruct (wrong_login actor pw now s c Hc Hw) as [_ Hs]. rewrite (shut_locked c now Hsh Hin) in Hs.
  destruct (begin_spec actor now s) as [_ Hb].
  destruct (fst (begin actor now s)) as [c'|e] eqn:E.
  - exfalso. destruct (proj1 (Hb c') eq_refl) as [Hc' Hlk]. replace c' with c in Hlk by congruence. by rewrite (shut_locked c now Hsh Hin) in Hlk.
  - destruct (IH (snd (login actor pw now s)) c) as [Hn Hcr]; [by rewrite Hs|done..|].
    destruct (compared actor l (snd (login actor pw now s))). cbn in *. split; [done|congruence].
Qed.

Lemma compared_bound l : forall s c, creds s !! actor = Some c -> Forall (fun a => VerifyArgon2id (cr_hash c) (fst a) = false /\ within (snd a)) l ->
  exists c', creds (snd (compared actor l s)) !! actor = Some c' /\ cr_hash c' = cr_hash c /\
    cr_failures c' = cr_failures c + Z.of_nat (fst (compared actor l s)) /\
    Z.of_nat (fst (compared actor l s)) <= Z.max 1 (MaxFailures cfg - cr_failures c) /\
    ((0 < fst (compared actor l s))%nat -> MaxFailures cfg <= cr_failures c' -> shut c').
Proof.
  induction l as [|[pw now] l IH]; intros s c Hc Hl; [exists c; cbn; split_and!; try done; lia|].
  apply Forall_cons in Hl as [[Hw Hin] Hl]. cbn in Hw, Hin. cbn [compared].
  destruct (wrong_login actor pw now s c Hc Hw) as [_ Hs]. destruct (begin_spec actor now s) as [_ Hb].
  destruct (locked c now) eqn:Hlk.
  - assert (He : exists e, fst (begin actor now s) = Err e).
    { destruct (fst (begin actor now s)) as [c'|e]; [|eauto]. destruct (proj1 (Hb c') eq_refl). simplify_eq. congruence. }
    destruct He as [e ->]. destruct (IH (snd (login actor pw now s)) c) as (c' & H'); [by rewrite Hs|done|].
    destruct (compared actor l _). by exists c'.
  - rewrite (proj2 (Hb c) (conj Hc Hlk)).
    assert (Hc1 : creds (snd (login actor pw now s)) !! actor = Some (after_failure now c)) by (by rewrite Hs, lookup_insert_eq).
    destruct (Z.leb_spec (MaxFailures cfg) (cr_failures c + 1)) as [Hmx|Hmx].
    + assert (Hsh : shut (after_failure now c)).
      { exists (now + Lockout cfg). unfold after_failure. cbn. apply Z.leb_le in Hmx. rewrite Hmx. split; [done|]. destruct Hin. lia. }
      destruct (compared_shut l _ _ Hc1 Hsh) as [Hn Hcr]; [done|]. destruct (compared actor l _) as [m s']. cbn in *. subst m.
      exists (after_failure now c). rewrite Hcr. split_and!; [done|done|cbn; lia|lia|done].
    + destruct (IH _ _ Hc1) as (c' & H1 & H2 & H3 & H4 & H5); [done|]. destruct (compared actor l _) as [m s']. cbn in *.
      exists c'. split_and!; [done|done|lia|lia|]. intros _ Hm. destruct m as [|m]; [lia|]. apply H5; [lia|done].
Qed.

End Window.

(** C33: The lockout bounds guessing: within one lockout interval, at most the allowed
    number of wrong passwords is compared with the hash of an actor, whatever their order
    and number; and once it is reached, no login of the actor succeeds in that interval,
    with the right password either. *)
Theorem lockout_bounds_guesses actor t0 l s c : creds s !! actor = Some c ->
  Forall (fun a => VerifyArgon2id (cr_hash c) (fst a) = false /\ within t0 (snd a)) l ->
  let n := fst (compared actor l s) in let s' := snd (compared actor l s) in
  Z.of_nat n <= Z.max 1 (MaxFailures cfg - cr_failures c) /\
  ((0 < n)%nat -> MaxFailures cfg <= cr_failures c + Z.of_nat n ->
   forall pw now, within t0 now -> exists e, fst (login actor pw now s') = Err e).
Proof.
  intros Hc Hl n s'. destruct (compared_bound actor t0 l s c Hc Hl) as (c' & Hc' & _ & Hf & Hb & Hsh). split; [exact Hb|].
  intros Hn Hm pw now Hin. specialize (Hsh Hn ltac:(subst n; lia)). fold s' in Hc'. unfold Authenticate, bind.
  destruct (begin_spec actor now s') as [_ Hbeg]. destruct (begin actor now s') as [[c2|e] s2]; [|by exists e].
  exfalso. destruct (proj1 (Hbeg c2) eq_refl) as [Hc2 Hlk]. replace c2 with c' in Hlk by congruence. by rewrite (shut_locked t0 c' now Hsh Hin) in Hlk.
Qed.

(** Logins that have read the credential before it was locked are compared with the hash
    however many there are, and the right password among them opens a session and the
    lock: the comparison does not look at the lock again. *)
Lemma concurrent_guesses_unbounded actor right_pw now c issue tok : forall (wrong : list string) s,
  creds s !! actor = Some c -> locked c now = false -> Forall (fun pw => VerifyArgon2id (cr_hash c) pw = false) wrong ->
  VerifyArgon2id (cr_hash c) right_pw = true -> Sessions cfg = Some issue -> issue actor (tenantID cfg) = Ok tok ->
  (forall l, audit_answers l = None) ->
  begin actor now s = (Ok c, s) /\
  exists s', finish actor right_pw now c (fold_left (fun s pw => snd (finish actor pw now c s)) wrong s) = (Ok tok, s') /\
    creds s' !! actor = Some (mkCred (cr_hash c) 0 None).
Proof.
  intros wrong s Hc Hlk Hw Hr Hi Htok Ha. split.
  { destruct (begin_spec actor now s) as [_ Hb]. unfold auth_begin in *. rewrite Hon, Hc in *. cbn [negb] in *. unfold locked in Hlk. by rewrite Hlk. }
  assert (Hex : exists c', creds (fold_left (fun s pw => snd (finish actor pw now c s)) wrong s) !! actor = Some c' /\ cr_hash c' = cr_hash c).
  { clear Hlk. assert (Hgen : forall wrong s c0, creds s !! actor = Some c0 -> cr_hash c0 = cr_hash c -> Forall (fun pw => VerifyArgon2id (cr_hash c) pw = false) wrong ->
      exists c', creds (fold_left (fun s pw => snd (finish actor pw now c s)) wrong s) !! actor = Some c' /\ cr_hash c' = cr_hash c); [|by eapply Hgen].
    clear wrong s Hc Hw. intros wrong. induction wrong as [|pw wrong IH]; intros s c0 Hc0 Hh Hw; [by exists c0|]. apply Forall_cons in Hw as [Hpw Hw].
    cbn [fold_left]. unfold auth_finish at 2. rewrite Hpw. destruct (fail_spec actor now s c0 Hc0) as (e & _ & Hs).
    eapply IH; [rewrite Hs; apply lookup_insert_eq|by cbn|done]. }
  destruct Hex as (c' & Hc' & Hh). unfold auth_finish at 1. rewrite Hr. unfold auth_succeed. rewrite Hi. unfold bind, audit. rewrite Ha, Htok.
  eexists. split; [reflexivity|]. cbn. rewrite Hc'. cbn. by rewrite lookup_insert_eq, Hh.
Qed.

End Login.

(** Five wrong passwords lock an actor; the sixth is not compared. *)
Definition small_admin : AdminConfig := NewAdminService (mkAdmin true "" 0 0 None).
Definition small_state : AdminState := mkAdminState {["root" := mkCred "secret" 0 None]} [].
Definition six : list (string * Z) := [("a", 1); ("b", 2); ("c", 3); ("d", 4); ("e", 5); ("f", 6)].

Lemma lockout_bounds_guesses_witness : fst (compared small_admin String.eqb (fun _ => None) "root" six small_state) = 5%nat /\
  exists e, fst (Authenticate small_admin String.eqb (fun _ => None) "root" "secret" 7
    (snd (compared small_admin String.eqb (fun _ => None) "root" six small_state))) = Err e.
Proof.
  destruct (lockout_bounds_guesses small_admin String.eqb (fun _ => None) eq_refl "root" 0 six small_state (mkCred "secret" 0 None)) as [_ H].
  - reflexivity.
  - repeat constructor; vm_compute; try reflexivity; discriminate.
  - split; [vm_compute; reflexivity|]. apply H; [vm_compute; lia|vm_compute; discriminate|]. split; vm_compute; [discriminate|reflexivity].
Defined.


End BreakGlassSpec.
