(* ===== verification/Bulkhead.v ===== *)
(** * Bulkheads

    [src/internal/bulkhead/bulkhead.go] and [set.go]: bounded worker pools.  A pool is
    its channel, its workers and its counters.  A worker is ready to receive, blocked on
    the empty channel, running a task, or gone; a send to a channel goes to a blocked
    worker or into the buffer, so that a pool without a buffer takes work only when a
    worker is blocked.  The send of [Submit] and its counter are two steps, between
    which workers move; the mutex keeps other submissions and [Close] out. *)

From stdpp Require Import sorting.
From S2P Require Import Prelude.
Open Scope string_scope.
Open Scope list_scope.
Open Scope Z_scope.

Module Bulkhead.

(** ** bulkhead.go *)

Inductive Reason := ReasonFull | ReasonClosed | ReasonUnknown.
Record Rejected := mkRejected { rj_Pool : string; rj_Reason : Reason; rj_Capacity : Z }.

Definition Retryable (e : Rejected) : bool := match rj_Reason e with ReasonFull => true | _ => false end.

Record Config := mkConfig { cf_Name : string; cf_Workers : Z; cf_Queue : Z }.

Record Stats := mkStats {
  st_Name : string; st_Workers : Z; st_Capacity : Z; st_Queued : Z; st_Submitted : Z; st_Completed : Z; st_Rejected : Z; st_Panicked : Z
}.

(** Tasks are numbers. [counting] is a submission that has sent and not yet counted;
    [finished] are the tasks that ended, with whether they panicked. *)
Record Pool := mkPool {
  p_name : string; p_workers : nat; p_cap : nat;
  queue : list nat; closed : bool; counting : bool;
  ready : nat; blocked : nat; running : list nat; gone : nat;
  submitted : Z; completed : Z; rejected : Z; panicked : Z
}.

Definition New (cfg : Config) : Pool :=
  let w := Z.to_nat (if cf_Workers cfg <? 1 then 1 else cf_Workers cfg) in
  let q := Z.to_nat (if cf_Queue cfg <? 0 then 0 else cf_Queue cfg) in
  mkPool (cf_Name cfg) w q [] false false w 0 [] 0 0 0 0 0.

Definition reject (r : Reason) (p : Pool) : result Rejected unit * Pool :=
  (Err (mkRejected (p_name p) r (Z.of_nat (p_cap p))),
   mkPool (p_name p) (p_workers p) (p_cap p) (queue p) (closed p) (counting p) (ready p) (blocked p) (running p) (gone p)
          (submitted p) (completed p) (rejected p + 1) (panicked p)).

(** The send: to a blocked worker, into the buffer, or refused. *)
Definition Submit_send (task : nat) (p : Pool) : result Rejected unit * Pool :=
  if closed p then reject ReasonClosed p else
  match blocked p with
  | S b => (Ok tt, mkPool (p_name p) (p_workers p) (p_cap p) (queue p) (closed p) true (ready p) b (task :: running p) (gone p)
                          (submitted p) (completed p) (rejected p) (panicked p))
  | O =>
      if (length (queue p) <? p_cap p)%nat
      then (Ok tt, mkPool (p_name p) (p_workers p) (p_cap p) (queue p ++ [task]) (closed p) true (ready p) O (running p) (gone p)
                          (submitted p) (completed p) (rejected p) (panicked p))
      else reject ReasonFull p
  end.

Definition Submit_count (p : Pool) : Pool :=
  mkPool (p_name p) (p_workers p) (p_cap p) (queue p) (closed p) false (ready p) (blocked p) (running p) (gone p)
         (submitted p + 1) (completed p) (rejected p) (panicked p).

Definition Submit (task : nat) (p : Pool) : result Rejected unit * Pool :=
  match Submit_send task p with
  | (Ok tt, p) => (Ok tt, Submit_count p)
  | (Err e, p) => (Err e, p)
  end.

(** A ready worker receives, blocks on the empty channel, or leaves the closed one. *)
Definition worker_receive (p : Pool) : option Pool :=
  match ready p with
  | O => None
  | S r =>
      match queue p with
      | t :: q => Some (mkPool (p_name p) (p_workers p) (p_cap p) q (closed p) (counting p) r (blocked p) (t :: running p) (gone p)
                               (submitted p) (completed p) (rejected p) (panicked p))
      | [] =>
          Some (if closed p
                then mkPool (p_name p) (p_workers p) (p_cap p) [] (closed p) (counting p) r (blocked p) (running p) (S (gone p))
                            (submitted p) (completed p) (rejected p) (panicked p)
                else mkPool (p_name p) (p_workers p) (p_cap p) [] (closed p) (counting p) r (S (blocked p)) (running p) (gone p)
                            (submitted p) (completed p) (rejected p) (panicked p))
      end
  end.

Fixpoint remove_one (t : nat) (l : list nat) : option (list nat) :=
  match l with
  | [] => None
  | x :: l => if (x =? t)%nat then Some l else cons x <$> remove_one t l
  end.

(** [run] ends: the task returned or panicked. *)
Definition run_end (t : nat) (panics : bool) (p : Pool) : option Pool :=
  l ← remove_one t (running p);
  Some (mkPool (p_name p) (p_workers p) (p_cap p) (queue p) (closed p) (counting p) (S (ready p)) (blocked p) l (gone p) (submitted p)
               (if panics then completed p else completed p + 1) (rejected p) (if panics then panicked p + 1 else panicked p)).

(** [Close] up to its wait: blocked workers find the channel closed. *)
Definition Close_begin (p : Pool) : Pool :=
  if closed p then p else
  mkPool (p_name p) (p_workers p) (p_cap p) (queue p) true (counting p) (ready p) 0 (running p) (gone p + blocked p)
         (submitted p) (completed p) (rejected p) (panicked p).

(** The wait is over when every worker has left. *)
Definition waited (p : Pool) : bool := (gone p =? p_workers p)%nat.

Definition Pool_Stats (p : Pool) : Stats :=
  mkStats (p_name p) (Z.of_nat (p_workers p)) (Z.of_nat (p_cap p)) (Z.of_nat (length (queue p))) (submitted p) (completed p) (rejected p) (panicked p).

(** ** Steps of a pool *)

Inductive event := ESend (task : nat) | ECount | EReceive | EEnd (task : nat) (panics : bool) | EClose.

Definition is_worker (e : event) : bool := match e with EReceive | EEnd _ _ => true | _ => false end.

(** What a step needs: the mutex is held between a send and its count. *)
Definition step (p : Pool) (e : event) : option Pool :=
  match e with
  | ESend t => if counting p then None else Some (snd (Submit_send t p))
  | ECount => if counting p then Some (Submit_count p) else None
  | EReceive => worker_receive p
  | EEnd t b => run_end t b p
  | EClose => if counting p then None else Some (Close_begin p)
  end.

Fixpoint steps (p : Pool) (es : list event) : option Pool :=
  match es with
  | [] => Some p
  | e :: es => p ← step p e; steps p es
  end.

(** ** set.go *)

Definition SubsystemAPI : string := "api".
Definition SubsystemProjections : string := "projections".
Definition SubsystemOutbox : string := "outbox".
Definition SubsystemSigning : string := "signing".
Definition SubsystemQuery : string := "query".
Definition SubsystemPolicy : string := "policy".
Definition SubsystemProtocols : string := "protocols".
Definition SubsystemAgent : string := "agent".
Definition SubsystemCBOM : string := "cbom".

Definition DefaultConfigs : list Config :=
  [mkConfig SubsystemAPI 8 256; mkConfig SubsystemProjections 2 128; mkConfig SubsystemOutbox 4 256; mkConfig SubsystemSigning 4 64;
   mkConfig SubsystemQuery 4 64; mkConfig SubsystemPolicy 4 64; mkConfig SubsystemProtocols 8 256; mkConfig SubsystemAgent 16 1024;
   mkConfig SubsystemCBOM 4 64].

Definition Set_ : Type := gmap string Pool.

Definition NewSet (cfgs : list Config) : Set_ := fold_left (fun s c => <[cf_Name c := New c]> s) cfgs (∅ : gmap string Pool).

Definition Default : Set_ := NewSet DefaultConfigs.

Definition Set_Pool (s : Set_) (name : string) : option Pool := (s : gmap string Pool) !! name.

Definition Set_Submit (name : string) (task : nat) (s : Set_) : result Rejected unit * Set_ :=
  match (s : gmap string Pool) !! name with
  | None => (Err (mkRejected name ReasonUnknown 0), s)
  | Some p => let (r, p) := Submit task p in (r, <[name := p]> (s : gmap string Pool))
  end.

Definition by_name (a b : Stats) : Prop := String.le (st_Name a) (st_Name b).
#[export] Instance by_name_dec : RelDecision by_name.
Proof. intros a b. unfold by_name. apply _. Defined.

(** The statistics of the pools, by name. *)
Definition Set_Stats (s : Set_) : list Stats := merge_sort by_name ((fun np => Pool_Stats (snd np)) <$> map_to_list (s : gmap string Pool)).

(** One pool of a set moves. *)
Definition set_step (s : Set_) (ne : string * event) : option Set_ :=
  p ← (s : gmap string Pool) !! fst ne; p ← step p (snd ne); Some (<[fst ne := p]> (s : gmap string Pool)).

Fixpoint set_steps (s : Set_) (es : list (string * event)) : option Set_ :=
  match es with
  | [] => Some s
  | ne :: es => s ← set_step s ne; set_steps s es
  end.

(** [Close] of a set, in the order its map is iterated in: each pool is closed and waited
    for before the next, while every pool goes on. *)
Inductive Set_Close : list string -> Set_ -> Set_ -> Prop :=
| close_none s : Set_Close [] s s
| close_next n order s es s1 p s2 : set_steps s ((n, EClose) :: es) = Some s1 -> Set_Pool s1 n = Some p -> waited p = true ->
    Set_Close order s1 s2 -> Set_Close (n :: order) s s2.

(** ** Invariants *)

#[local] Arguments Nat.ltb : simpl never.

Record inv (p : Pool) : Prop := mkInv {
  iv_cap : (length (queue p) <= p_cap p)%nat;
  iv_workers : (ready p + blocked p + length (running p) + gone p)%nat = p_workers p;
  iv_blocked : (0 < blocked p)%nat -> queue p = [] /\ closed p = false;
  iv_gone : closed p = false -> gone p = 0%nat;
  iv_leave : (0 < gone p)%nat -> queue p = [];
  iv_count : submitted p + (if counting p then 1 else 0) = Z.of_nat (length (queue p)) + Z.of_nat (length (running p)) + completed p + panicked p
}.

Lemma inv_New cfg : inv (New cfg).
Proof. split; cbn; try done; try lia. Qed.

Lemma remove_one_length t l l' : remove_one t l = Some l' -> length l = S (length l').
Proof.
  revert l'. induction l as [|x l IH]; intros l'; cbn; [done|]. destruct (x =? t)%nat; [by intros [= <-]|].
  destruct (remove_one t l) as [l0|]; [|done]. intros [= <-]. cbn. by rewrite (IH l0).
Qed.

Lemma remove_one_perm t l l' : remove_one t l = Some l' -> l ≡ₚ t :: l'.
Proof.
  revert l'. induction l as [|x l IH]; intros l'; cbn; [done|]. destruct (Nat.eqb_spec x t) as [->|]; [by intros [= <-]|].
  destruct (remove_one t l) as [l0|]; [|done]. intros [= <-]. rewrite (IH l0) by done. apply Permutation_swap.
Qed.

(** A send takes the task exactly when a worker is blocked or the buffer has room, and
    the pool is open; a refusal only counts. *)
Lemma Submit_send_decides t p : inv p -> let p' := snd (Submit_send t p) in
  match fst (Submit_send t p) with
  | Ok _ => closed p = false /\ ((0 < blocked p)%nat \/ (length (queue p) < p_cap p)%nat) /\ queue p' ++ running p' ≡ₚ t :: queue p ++ running p
  | Err e => rj_Pool e = p_name p /\ rj_Capacity e = Z.of_nat (p_cap p) /\ queue p' = queue p /\ running p' = running p /\
      rejected p' = rejected p + 1 /\
      if closed p then rj_Reason e = ReasonClosed else rj_Reason e = ReasonFull /\ blocked p = 0%nat /\ length (queue p) = p_cap p
  end.
Proof.
  intros [Hc _ Hb _ _ _]. unfold Submit_send. destruct (closed p) eqn:Hcl; cbn; [by split_and!|]. destruct (blocked p) as [|b] eqn:Hbl.
  - destruct (Nat.ltb_spec (length (queue p)) (p_cap p)); cbn.
    + split_and!; [done|by right|]. rewrite <- app_assoc. symmetry. apply (Permutation_middle (queue p) (running p) t).
    + split_and!; try done. lia.
  - cbn. split_and!; [done|left; lia|]. destruct (Hb ltac:(lia)) as [-> _]. done.
Qed.

Lemma step_inv p e p' : inv p -> step p e = Some p' -> inv p'.
Proof.
  intros [H1 H2 H3 H4 H5 H6]. destruct e as [t| | |t b|]; cbn; intros Hs.
  - destruct (counting p) eqn:Hc; [done|]. injection Hs as <-. unfold Submit_send, reject.
    destruct (closed p) eqn:Hcl; [split; cbn; rewrite ?Hc, ?Hcl; auto; lia|]. destruct (blocked p) as [|k] eqn:Hb.
    + destruct (Nat.ltb_spec (length (queue p)) (p_cap p)); split; cbn; rewrite ?length_app, ?Hc, ?Hcl; cbn; auto; try lia.
    + destruct (H3 ltac:(lia)) as [Hq _]. split; cbn; rewrite ?Hq in *; cbn in *; auto; lia.
  - destruct (counting p) eqn:Hc; [|done]. injection Hs as <-. split; cbn; auto. lia.
  - unfold worker_receive in Hs. destruct (ready p) as [|r] eqn:Hr; [done|]. destruct (queue p) as [|t q] eqn:Hq; injection Hs as <-.
    + destruct (closed p) eqn:Hcl; split; cbn in *; auto; try lia.
    + cbn in *. split; cbn; auto; try lia; intros Hx; [destruct (H3 Hx); done|specialize (H5 Hx); done].
  - unfold run_end in Hs. destruct (remove_one t (running p)) as [l|] eqn:Hrm; [|done]. cbn in Hs. injection Hs as <-. apply remove_one_length in Hrm.
    split; cbn; auto; destruct b; lia.
  - destruct (counting p) eqn:Hc; [done|]. injection Hs as <-. unfold Close_begin. destruct (closed p) eqn:Hcl; [by split; rewrite ?Hcl, ?Hc|].
    specialize (H4 eq_refl). split; cbn; rewrite ?Hc; auto; try lia; try done. intros Hx. apply H3. lia.
Qed.

Lemma steps_inv es : forall p p', inv p -> steps p es = Some p' -> inv p'.
Proof.
  induction es as [|e es IH]; intros p p' Hi; cbn; [by intros [= <-]|]. destruct (step p e) as [p1|] eqn:Hs; [|done]. cbn.
  apply IH. by eapply step_inv.
Qed.

Lemma step_config p e p' : step p e = Some p' -> p_workers p' = p_workers p /\ p_cap p' = p_cap p /\ p_name p' = p_name p.
Proof.
  destruct e as [t| | |t b|]; cbn; unfold Submit_send, worker_receive, run_end, Close_begin, reject; intros Hs;
    try (destruct (remove_one t (running p)); [|done]); repeat case_match; by simplify_eq/=.
Qed.

(** The tasks that a run accepted and those that ended in it. *)
Fixpoint accepted (p : Pool) (es : list event) : list nat :=
  match es with
  | [] => []
  | e :: es =>
      match e with ESend t => match fst (Submit_send t p) with Ok _ => [t] | Err _ => [] end | _ => [] end ++
      match step p e with Some p' => accepted p' es | None => [] end
  end.

Definition ended (es : list event) : list nat := omap (fun e => match e with EEnd t _ => Some t | _ => None end) es.

Lemma step_tasks p e p' : inv p -> step p e = Some p' ->
  queue p' ++ running p' ++ ended [e] ≡ₚ accepted p [e] ++ queue p ++ running p.
Proof.
  intros Hi Hs. unfold accepted. rewrite Hs, app_nil_r. destruct e as [t| | |t b|]; cbn [step ended] in *.
  - destruct (counting p); [done|]. injection Hs as <-. pose proof (Submit_send_decides t p Hi) as Hd. cbn.
    destruct (fst (Submit_send t p)); [|destruct Hd as (_ & _ & -> & -> & _); by rewrite app_nil_r]. rewrite app_nil_r. apply Hd.
  - destruct (counting p); [|done]. injection Hs as <-. cbn. by rewrite app_nil_r.
  - unfold worker_receive in Hs. destruct (ready p); [done|]. destruct (queue p) as [|t q]; injection Hs as <-.
    + destruct (closed p); cbn; by rewrite app_nil_r.
    + cbn. rewrite app_nil_r. symmetry. apply Permutation_middle.
  - unfold run_end in Hs. destruct (remove_one t (running p)) as [l|] eqn:Hr; [|done]. injection Hs as <-. cbn.
    apply remove_one_perm in Hr. rewrite Hr. f_equiv. symmetry. apply Permutation_cons_append.
  - destruct (counting p); [done|]. injection Hs as <-. unfold Close_begin. destruct (closed p); cbn; by rewrite app_nil_r.
Qed.

Lemma steps_tasks es : forall p p', inv p -> steps p es = Some p' ->
  queue p' ++ running p' ++ ended es ≡ₚ accepted p es ++ queue p ++ running p.
Proof.
  induction es as [|e es IH]; intros p p' Hi; cbn [steps].
  - intros [= <-]. cbn. by rewrite app_nil_r.
  - destruct (step p e) as [p1|] eqn:Hs; [|done]. cbn [mbind option_bind]. intros Hss.
    pose proof (step_tasks p e p1 Hi Hs) as H1. specialize (IH p1 p' (step_inv _ _ _ Hi Hs) Hss).
    replace (ended (e :: es)) with (ended [e] ++ ended es) by (by destruct e).
    replace (accepted p (e :: es)) with (accepted p [e] ++ accepted p1 es) by (cbn [accepted]; by rewrite Hs, app_nil_r).
    transitivity (ended [e] ++ (queue p' ++ running p' ++ ended es)); [solve_Permutation|]. rewrite IH.
    transitivity (accepted p1 es ++ (queue p1 ++ running p1 ++ ended [e])); [solve_Permutation|]. rewrite H1. solve_Permutation.
Qed.

(** ** The theorems *)

Lemma steps_config es : forall p p', steps p es = Some p' -> p_workers p' = p_workers p /\ p_cap p' = p_cap p /\ p_name p' = p_name p.
Proof.
  induction es as [|e es IH]; intros p p'; cbn; [by intros [= <-]|]. destruct (step p e) as [p1|] eqn:Hs; [|done]. cbn. intros Hss.
  destruct (step_config _ _ _ Hs) as (H1 & H2 & H3), (IH _ _ Hss) as (H4 & H5 & H6). split_and!; congruence.
Qed.

Lemma New_workers cfg : (0 < p_workers (New cfg))%nat.
Proof. unfold New. cbn. destruct (Z.ltb_spec (cf_Workers cfg) 1); lia. Qed.

(** C36: A pool is bounded and loses nothing: whatever submissions, workers and a close do
    and however they interleave, no more tasks run than there are workers and no more
    wait than the buffer holds; every accepted task waits, runs or has ended, exactly
    once; the counters agree, but for a submission between its send and its count; and
    the next submission is refused exactly when the pool is closed or full. *)
Theorem pool_accounts cfg es p : steps (New cfg) es = Some p ->
  (length (running p) <= p_workers (New cfg))%nat /\ (length (queue p) <= p_cap (New cfg))%nat /\
  accepted (New cfg) es ≡ₚ queue p ++ running p ++ ended es /\
  submitted p + (if counting p then 1 else 0) = Z.of_nat (length (accepted (New cfg) es)) /\
  completed p + panicked p = Z.of_nat (length (ended es)) /\
  forall t, (exists e, fst (Submit t p) = Err e) <-> closed p = true \/ (blocked p = 0%nat /\ length (queue p) = p_cap (New cfg)).
Proof.
  intros Hs. pose proof (steps_inv es _ _ (inv_New cfg) Hs) as Hi. destruct (steps_config es _ _ Hs) as (Hw & Hc & _).
  pose proof (steps_tasks es _ _ (inv_New cfg) Hs) as Ht. cbn in Ht. rewrite app_nil_r in Ht. pose proof (Permutation_length Ht) as Hlen.
  rewrite !length_app in Hlen. pose proof Hi as [H1 H2 _ _ _ H6].
  assert (Hend : completed p + panicked p = Z.of_nat (length (ended es))).
  { clear -Hs. assert (Hgen : forall es p p', steps p es = Some p' -> completed p' + panicked p' = completed p + panicked p + Z.of_nat (length (ended es))); [|by rewrite (Hgen _ _ _ Hs)].
    clear. induction es as [|e es IH]; intros p p'; cbn [steps]; [intros [= <-]; cbn; lia|]. destruct (step p e) as [p1|] eqn:Hs; [|done]. cbn [mbind option_bind].
    intros Hss. rewrite (IH _ _ Hss). destruct e as [t| | |t b|]; cbn in *; unfold Submit_send, worker_receive, run_end, Close_begin, reject in Hs;
      try (destruct (remove_one t (running p)); [|done]); repeat case_match; simplify_eq/=; try done; fold (ended es); lia. }
  split_and!; [lia|lia|by rewrite Ht|rewrite <- Hlen; lia|done|].
  intros t. unfold Submit. pose proof (Submit_send_decides t p Hi) as Hd. destruct (Submit_send t p) as [[[]|e] p1]; cbn in *.
  - destruct Hd as (Hcl & Hor & _). split; [by intros [? ?]|]. intros [|[? ?]]; [congruence|lia].
  - destruct Hd as (_ & _ & _ & _ & _ & Hr). split; [|by eexists]. intros _. destruct (closed p); [by left|right]. destruct Hr as (_ & -> & ->). by rewrite Hc.
Qed.

(** What workers still have to do. *)
Definition work (p : Pool) : nat := (3 * length (queue p) + 2 * length (running p) + ready p)%nat.

Lemma worker_step_works p e p' : is_worker e = true -> closed p = true -> step p e = Some p' -> closed p' = true /\ (work p' < work p)%nat.
Proof.
  intros He Hc. destruct e as [t| | |t b|]; try done; cbn; unfold worker_receive, run_end, work.
  - destruct (ready p) as [|r] eqn:Hr; [done|]. destruct (queue p) as [|t q]; intros [= <-]; cbn; [rewrite Hc; cbn; split; [done|lia]|split; [done|lia]].
  - destruct (remove_one t (running p)) as [l|] eqn:Hrm; [|done]. intros [= <-]. cbn. apply remove_one_length in Hrm. split; [done|lia].
Qed.

Lemma workers_end es : forall p p', Forall (fun e => is_worker e = true) es -> closed p = true -> steps p es = Some p' ->
  closed p' = true /\ (length es + work p' <= work p)%nat.
Proof.
  induction es as [|e es IH]; intros p p' Hes Hc; cbn [steps length]; [intros [= <-]; split; [done|lia]|]. apply Forall_cons in Hes as [He Hes].
  destruct (step p e) as [p1|] eqn:Hs; [|done]. cbn [mbind option_bind]. intros Hss. destruct (worker_step_works p e p1 He Hc Hs) as [Hc1 Hlt].
  destruct (IH p1 p' Hes Hc1 Hss). split; [done|lia].
Qed.

Lemma remove_head (t : nat) l : remove_one t (t :: l) = Some l.
Proof. cbn. by rewrite Nat.eqb_refl. Qed.

Lemma workers_progress p : inv p -> closed p = true -> waited p = false -> exists e, is_worker e = true /\ is_Some (step p e).
Proof.
  intros [H1 H2 H3 H4 H5 H6] Hc Hw. apply Nat.eqb_neq in Hw.
  assert (Hb : blocked p = 0%nat) by (destruct (blocked p) eqn:E; [done|]; destruct (H3 ltac:(lia)); congruence).
  destruct (running p) as [|t l] eqn:Hr.
  - exists EReceive. split; [done|]. cbn. unfold worker_receive. destruct (ready p) as [|r] eqn:Hrd; [cbn in H2; lia|]. destruct (queue p); by eexists.
  - exists (EEnd t false). split; [done|]. cbn. unfold run_end. rewrite Hr, remove_head. by eexists.
Qed.

(** C37: Closing drains: once a reachable pool is closed and the lock is free, its workers
    make at most a bounded number of steps, they are never stuck before all have left, and
    when they have left, so that the wait of [Close] is over, nothing waits or runs and
    every task that was ever accepted has completed or panicked. *)
Theorem Close_drains cfg es p : steps (New cfg) es = Some p -> counting p = false ->
  forall ws p', Forall (fun e => is_worker e = true) ws -> steps (Close_begin p) ws = Some p' ->
  (length ws <= work (Close_begin p))%nat /\
  (waited p' = false -> exists e, is_worker e = true /\ is_Some (step p' e)) /\
  (waited p' = true -> queue p' = [] /\ running p' = [] /\ submitted p' = completed p' + panicked p' /\
     accepted (New cfg) es ≡ₚ ended es ++ ended ws).
Proof.
  intros Hs Hcnt ws p' Hws Hss.
  assert (Hcl : step p EClose = Some (Close_begin p)) by (cbn; by rewrite Hcnt).
  pose proof (steps_inv es _ _ (inv_New cfg) Hs) as Hi. pose proof (step_inv _ _ _ Hi Hcl) as Hi1.
  assert (Hclosed : closed (Close_begin p) = true) by (unfold Close_begin; by destruct (closed p) eqn:E).
  destruct (workers_end ws _ _ Hws Hclosed Hss) as [Hc' Hlen]. pose proof (steps_inv ws _ _ Hi1 Hss) as Hi'.
  split; [lia|]. split; [by apply workers_progress|]. intros Hw%Nat.eqb_eq.
  destruct (steps_config es _ _ Hs) as (Hw0 & _), (step_config _ _ _ Hcl) as (Hw1 & _), (steps_config ws _ _ Hss) as (Hw2 & _).
  pose proof (New_workers cfg) as Hpos. destruct Hi' as [_ H2 _ _ H5 H6].
  assert (Hq : queue p' = []) by (apply H5; lia). assert (Hr : running p' = []) by (destruct (running p'); [done|cbn in H2; lia]).
  assert (Hcnt' : counting p' = false).
  { clear -Hss Hws Hcnt. assert (H0 : counting (Close_begin p) = false) by (unfold Close_begin; by destruct (closed p)).
    revert H0 Hss. generalize (Close_begin p). clear Hcnt p. induction Hws as [|e ws He Hws IH]; intros p Hc; cbn; [by intros [= <-]|].
    destruct (step p e) as [p1|] eqn:Hs; [|done]. cbn. apply IH. destruct e as [t| | |t b|]; try done; cbn in Hs; unfold worker_receive, run_end in Hs;
      try (destruct (remove_one t (running p)); [|done]); repeat case_match; by simplify_eq/=. }
  rewrite Hq, Hr, Hcnt' in H6. cbn in H6. split_and!; [done|done|lia|].
  pose proof (steps_tasks es _ _ (inv_New cfg) Hs) as Ht. pose proof (steps_tasks ws _ _ Hi1 Hss) as Ht'.
  assert (Hacc : accepted (Close_begin p) ws = []).
  { clear -Hws. generalize (Close_begin p). induction Hws as [|e ws He Hws IH]; intros q; [done|]. cbn [accepted].
    destruct e; try done; cbn [app]; by destruct (step q _). }
  rewrite Hq, Hr, Hacc in Ht'. cbn in Ht, Ht'. rewrite app_nil_r in Ht.
  assert (Hsame : queue (Close_begin p) ++ running (Close_begin p) = queue p ++ running p) by (unfold Close_begin; by destruct (closed p)).
  rewrite Ht', Hsame, <- Ht. solve_Permutation.
Qed.

(** ** Sets: no pool disturbs another *)

Definition events_of (name : string) (es : list (string * event)) : list event :=
  omap (fun ne => if String.eqb (fst ne) name then Some (snd ne) else None) es.

(** A pool of a set is what its own events make of it. *)
Lemma pools_isolated es : forall s s' name, set_steps s es = Some s' ->
  match Set_Pool s name with
  | Some p => Set_Pool s' name = steps p (events_of name es) /\ is_Some (Set_Pool s' name)
  | None => Set_Pool s' name = None
  end.
Proof.
  unfold Set_Pool. induction es as [|[n e] es IH]; intros s s' name; cbn [set_steps].
  - intros [= <-]. destruct ((s : gmap string Pool) !! name) eqn:Hl; [|done]. cbn. split; [done|by eexists].
  - unfold set_step. cbn [fst snd]. destruct ((s : gmap string Pool) !! n) as [p|] eqn:Hp; [|done]. cbn [mbind option_bind].
    destruct (step p e) as [p1|] eqn:Hs; [|done]. cbn [mbind option_bind]. intros Hss. specialize (IH _ _ name Hss). cbn [events_of omap list_omap fst snd].
    destruct (String.eqb_spec n name) as [->|Hne].
    + rewrite lookup_insert_eq in IH. rewrite Hp. cbn [steps]. by rewrite Hs.
    + rewrite lookup_insert_ne in IH by done. exact IH.
Qed.

(** Once a set is closed its pools have drained, and refuse. *)
Lemma Set_Close_refuses order s s' : Set_Close order s s' ->
  forall n task, n ∈ order -> exists e, fst (Set_Submit n task s') = Err e /\ rj_Reason e = ReasonClosed.
Proof.
  assert (Hstep : forall p e p', closed p = true -> step p e = Some p' -> closed p' = true).
  { intros p e p' Hc Hs. destruct e as [t| | |t b|]; cbn in Hs; unfold Submit_send, worker_receive, run_end, Close_begin, reject in Hs;
      try (destruct (remove_one t (running p)); [|done]); repeat case_match; by simplify_eq/=. }
  assert (Hsteps : forall es p p', closed p = true -> steps p es = Some p' -> closed p' = true).
  { induction es as [|e es IH]; intros p p' Hc; cbn; [by intros [= <-]|]. destruct (step p e) as [p1|] eqn:Hs; [|done]. cbn. apply IH. by eapply Hstep. }
  assert (Hset : forall es s s' n p, set_steps s es = Some s' -> Set_Pool s n = Some p -> closed p = true -> exists p', Set_Pool s' n = Some p' /\ closed p' = true).
  { intros es s0 s0' n p Hs Hp Hc. pose proof (pools_isolated es s0 s0' n Hs) as Hi. rewrite Hp in Hi. destruct Hi as [He [p' Hp']].
    exists p'. split; [done|]. rewrite Hp' in He. symmetry in He. by eapply Hsteps. }
  assert (Hkeep : forall order s s', Set_Close order s s' -> forall n p, Set_Pool s n = Some p -> closed p = true -> exists p', Set_Pool s' n = Some p' /\ closed p' = true).
  { induction 1 as [s0|m order0 s0 es s1 q s2 Hs Hq Hw _ IH]; intros n p Hp Hc; [by exists p|].
    destruct (Hset _ _ _ n p Hs Hp Hc) as (p1 & Hp1 & Hc1). by eapply IH. }
  intros Hclose. induction Hclose as [s0|m order0 s0 es s1 q s2 Hs Hq Hw Hcl IH]; intros n task Hn; [by apply elem_of_nil in Hn|].
  apply elem_of_cons in Hn as [->|Hn]; [|by apply IH].
  assert (Hc1 : closed q = true).
  { pose proof (pools_isolated _ _ _ m Hs) as Hi. destruct (Set_Pool s0 m) as [p|] eqn:Hp; [|congruence]. destruct Hi as [He _]. rewrite Hq in He.
    cbn [events_of omap list_omap fst snd] in He. rewrite String.eqb_refl in He. cbn [steps step] in He. destruct (counting p); [done|]. symmetry in He.
    eapply Hsteps; [|exact He]. unfold Close_begin. by destruct (closed p) eqn:E. }
  destruct (Hkeep _ _ _ Hcl m q Hq Hc1) as (p' & Hp' & Hc'). unfold Set_Submit. unfold Set_Pool in Hp'. rewrite Hp'. unfold Submit, Submit_send, reject. rewrite Hc'.
  cbn. by eexists.
Qed.

(** A name without a pool is refused for good; the default pools have their names. *)
Lemma Submit_unknown name task s : Set_Pool s name = None -> Set_Submit name task s = (Err (mkRejected name ReasonUnknown 0), s).
Proof. unfold Set_Pool, Set_Submit. by intros ->. Qed.

Lemma Default_names : Forall (fun c => exists p, Set_Pool Default (cf_Name c) = Some p /\ Pool_Stats p =
  mkStats (cf_Name c) (cf_Workers c) (cf_Queue c) 0 0 0 0 0) DefaultConfigs.
Proof. repeat constructor; eexists; vm_compute; split; reflexivity. Qed.

(** A worker, a waiting task and a third that is refused. *)
Definition tiny : Config := mkConfig "tiny" 1 1.
Definition tiny_run : list event := [EReceive; ESend 1; ECount; ESend 2; ECount; ESend 3; EEnd 1 true].

Lemma pool_accounts_witness : exists p, steps (New tiny) tiny_run = Some p /\ accepted (New tiny) tiny_run = [1; 2]%nat /\ rejected p = 1 /\
  accepted (New tiny) tiny_run ≡ₚ queue p ++ running p ++ ended tiny_run.
Proof.
  destruct (steps (New tiny) tiny_run) as [p|] eqn:Hs; [|by vm_compute in Hs]. exists p. split; [done|]. split; [by vm_compute|].
  split; [by vm_compute in Hs; injection Hs as <-|]. apply (pool_accounts tiny tiny_run p Hs).
Defined.

Lemma Close_drains_witness : exists p p', steps (New tiny) tiny_run = Some p /\
  steps (Close_begin p) [EReceive; EEnd 2 false; EReceive] = Some p' /\ waited p' = true /\ queue p' = [] /\ running p' = [].
Proof.
  destruct (steps (New tiny) tiny_run) as [p|] eqn:Hs; [|by vm_compute in Hs].
  assert (Hp' : exists p', steps (Close_begin p) [EReceive; EEnd 2 false; EReceive] = Some p' /\ waited p' = true /\ counting p = false).
  { vm_compute in Hs. injection Hs as <-. eexists. vm_compute. done. }
  destruct Hp' as (p' & Hss & Hw & Hc). exists p, p'. split; [done|]. split; [done|]. split; [done|].
  destruct (Close_drains tiny tiny_run p Hs Hc [EReceive; EEnd 2 false; EReceive] p' ltac:(repeat constructor) Hss) as (_ & _ & H).
  destruct (H Hw) as (Hq & Hr & _). split; [exact Hq|exact Hr].
Defined.

End Bulkhead.
