(* ===== verification/Profile.v ===== *)
(** * Certificate profiles

    [src/internal/profile/profile.go]: the rules of a profile and the validation of a
    request against them, with the classification of algorithm labels
    ([src/internal/crypto/classify.go]).  Addresses and prefixes of [net/netip] are a
    class.  The signer enforces the names again ([NameLane]); what the profile admits it
    is proved to sign. *)

From S2P Require Import Prelude NameLane AcmeState.
Open Scope string_scope.
Open Scope list_scope.
Open Scope Z_scope.

Module Profile.

(** [netip.ParseAddr], [netip.ParsePrefix] and [Prefix.Contains]. *)
Class NetipOps := {
  Addr : Type;
  Prefix : Type;
  ParseAddr : string -> option Addr;
  ParsePrefix : string -> option Prefix;
  PrefixContains : Prefix -> Addr -> bool
}.

(** ** classify.go *)

Inductive AlgKind := Signature | KEM.

Definition signature_labels : list string :=
  ["RSA-2048"; "RSA-3072"; "RSA-4096"; "ECDSA-P256"; "ECDSA-P384"; "ECDSA-P521"; "Ed25519"; "ML-DSA-44"; "ML-DSA-65"; "ML-DSA-87";
   "SLH-DSA-SHA2-128s"; "SLH-DSA-SHA2-128f"; "SLH-DSA-SHA2-192s"; "SLH-DSA-SHA2-256s"; "Hybrid-Ed25519-Dilithium3"; "Hybrid-ML-DSA-44-ECDSA-P256"].
Definition kem_labels : list string := ["ML-KEM-512"; "ML-KEM-768"; "ML-KEM-1024"].

(** The kind of an algorithm, or nothing when it is unknown. *)
Definition Classify (a : string) : option AlgKind :=
  if existsb (String.eqb a) signature_labels then Some Signature else
  if existsb (String.eqb a) kem_labels then Some KEM else None.

Definition ClassifyAlgorithmLabel (label : string) : option AlgKind :=
  let a := GoStrings.TrimSpace label in
  if String.eqb a "" then None else
  if String.eqb a "RSA" || String.eqb a "ECDSA" then Some Signature else Classify a.

(** ** Profiles *)

(** Durations are nanoseconds. *)
Record CertificateProfile := mkProfile {
  Name : string; Version : Z; RequiresApproval : bool;
  AllowedKeyAlgorithms : list string; MinRSABits : Z; MinECDSABits : Z; AllowedEKUs : list string; MaxValidity : Z;
  AllowedProtocols : list string; ACMEAuthMode : string; AllowedDNSSuffixes : list string; AllowedIPCIDRs : list string;
  AllowedEmailDomains : list string; AllowedURIPrefixes : list string
}.

Inductive DefinitionErr := ErrAuthMode (m : string) | ErrUnknownAlgorithm (label : string) | ErrNotSignature (label : string).

Fixpoint check_labels (labels : list string) : option DefinitionErr :=
  match labels with
  | [] => None
  | label :: rest =>
      match ClassifyAlgorithmLabel label with
      | None => Some (ErrUnknownAlgorithm label)
      | Some KEM => Some (ErrNotSignature label)
      | Some Signature => check_labels rest
      end
  end.

(** [None] is a nil error. *)
Definition ValidateDefinition (p : CertificateProfile) : option DefinitionErr :=
  match AcmeState.NormalizeACMEAuthMode (ACMEAuthMode p) with
  | None => Some (ErrAuthMode (ACMEAuthMode p))
  | Some _ => check_labels (AllowedKeyAlgorithms p)
  end.

Record Request := mkRequest {
  KeyAlgorithm : string; KeyBits : Z; RequestedEKUs : list string; TTL : Z;
  DNSNames : list string; IPAddresses : list string; EmailAddresses : list string; URIs : list string; Protocol : string
}.

Definition contains (set : list string) (v : string) : bool := existsb (fun s => String.eqb s v) set.

Definition hasSANPolicy (p : CertificateProfile) : bool :=
  (0 <? Z.of_nat (length (AllowedDNSSuffixes p)) + Z.of_nat (length (AllowedIPCIDRs p)) + Z.of_nat (length (AllowedEmailDomains p))
        + Z.of_nat (length (AllowedURIPrefixes p))).

(** ** Names *)

Section Names.
Context {N : NameLane.NetOps} {NP : NetipOps}.

Fixpoint suffix_loop (dns : string) (suffixes : list string) : bool :=
  match suffixes with
  | [] => false
  | suf :: rest =>
      let suf := GoStrings.TrimSuffix (NameLane.ToLower (GoStrings.TrimSpace (GoStrings.TrimPrefix suf "."))) "." in
      if String.eqb suf "" then suffix_loop dns rest else
      if String.eqb dns suf || GoStrings.HasSuffix dns ("." +:+ suf) then true else suffix_loop dns rest
  end.

Definition suffixAllowed (dns : string) (suffixes : list string) : bool :=
  suffix_loop (GoStrings.TrimSuffix (NameLane.ToLower (GoStrings.TrimSpace dns)) ".") suffixes.

Fixpoint parseCIDRSet (cidrs : list string) : option (list Prefix) :=
  match cidrs with
  | [] => Some []
  | raw :: rest =>
      match ParsePrefix (GoStrings.TrimSpace raw) with
      | None => None
      | Some pfx => cons pfx <$> parseCIDRSet rest
      end
  end.

(** [None] is an address or a prefix that does not parse. *)
Definition ipAllowed (raw : string) (cidrs : list string) : option bool :=
  addr ← ParseAddr (GoStrings.TrimSpace raw);
  prefixes ← parseCIDRSet cidrs;
  Some (existsb (fun pfx => PrefixContains pfx addr) prefixes).

Definition emailAllowed (email : string) (domains : list string) : bool :=
  let at_ := NameLane.last_index "@"%char (list_ascii_of_string email) 0 (-1) in
  if (at_ <=? 0) || (at_ =? Z.of_nat (String.length email) - 1) then false else suffixAllowed (NameLane.slice_from email (at_ + 1)) domains.

Fixpoint uriPrefixAllowed (uri : string) (prefixes : list string) : bool :=
  match prefixes with
  | [] => false
  | prefix :: rest =>
      let prefix := GoStrings.TrimSpace prefix in
      if negb (String.eqb prefix "") && GoStrings.HasPrefix uri prefix then true else uriPrefixAllowed uri rest
  end.

(** ** Validate *)

Inductive SAN := SanDNS | SanIP | SanEmail | SanURI.

Inductive ProfileErr :=
| ErrProtocol | ErrKeyAlgorithm | ErrRSABits | ErrECDSABits | ErrEKU (eku : string) | ErrValidity | ErrCIDRPolicy
| ErrNotPermitted (k : SAN) (san : string) | ErrOutside (k : SAN) (san : string) | ErrEvaluate (san : string).

Fixpoint check_ekus (allowed requested : list string) : option ProfileErr :=
  match requested with
  | [] => None
  | eku :: rest => if negb (length allowed =? 0)%nat && negb (contains allowed eku) then Some (ErrEKU eku) else check_ekus allowed rest
  end.

(** The loop over the names of one kind; [permitted] is [None] on an error. *)
Fixpoint check_sans (k : SAN) (sanPolicy : bool) (allow : list string) (permitted : string -> option bool) (sans : list string) : option ProfileErr :=
  match sans with
  | [] => None
  | san :: rest =>
      if (length allow =? 0)%nat
      then if sanPolicy then Some (ErrNotPermitted k san) else check_sans k sanPolicy allow permitted rest
      else match permitted san with
           | None => Some (ErrEvaluate san)
           | Some false => Some (ErrOutside k san)
           | Some true => check_sans k sanPolicy allow permitted rest
           end
  end.

Definition orElse (a b : option ProfileErr) : option ProfileErr := match a with Some e => Some e | None => b end.

Definition check_key (p : CertificateProfile) (r : Request) : option ProfileErr :=
  if negb (length (AllowedProtocols p) =? 0)%nat && negb (String.eqb (Protocol r) "") && negb (contains (AllowedProtocols p) (Protocol r)) then Some ErrProtocol else
  if negb (length (AllowedKeyAlgorithms p) =? 0)%nat && negb (contains (AllowedKeyAlgorithms p) (KeyAlgorithm r)) then Some ErrKeyAlgorithm else
  if String.eqb (KeyAlgorithm r) "RSA" then (if (0 <? MinRSABits p) && (KeyBits r <? MinRSABits p) then Some ErrRSABits else None) else
  if String.eqb (KeyAlgorithm r) "ECDSA" then (if (0 <? MinECDSABits p) && (KeyBits r <? MinECDSABits p) then Some ErrECDSABits else None) else
  None.

Definition check_names (p : CertificateProfile) (r : Request) : option ProfileErr :=
  let sanPolicy := hasSANPolicy p in
  orElse (match parseCIDRSet (AllowedIPCIDRs p) with None => Some ErrCIDRPolicy | Some _ => None end)
  (orElse (check_sans SanDNS sanPolicy (AllowedDNSSuffixes p) (fun dns => Some (suffixAllowed dns (AllowedDNSSuffixes p))) (DNSNames r))
  (orElse (check_sans SanIP sanPolicy (AllowedIPCIDRs p) (fun ip => ipAllowed ip (AllowedIPCIDRs p)) (IPAddresses r))
  (orElse (check_sans SanEmail sanPolicy (AllowedEmailDomains p) (fun email => Some (emailAllowed email (AllowedEmailDomains p))) (EmailAddresses r))
          (check_sans SanURI sanPolicy (AllowedURIPrefixes p) (fun uri => Some (uriPrefixAllowed uri (AllowedURIPrefixes p))) (URIs r))))).

Definition Validate (p : CertificateProfile) (r : Request) : option ProfileErr :=
  orElse (check_key p r)
  (orElse (check_ekus (AllowedEKUs p) (RequestedEKUs r))
  (orElse (if (0 <? MaxValidity p) && (MaxValidity p <? TTL r) then Some ErrValidity else None)
          (check_names p r))).

(** The fields that bind a leaf; the binding itself is in [NameLane]. *)
Definition bound (p : CertificateProfile) : NameLane.CertificateProfile :=
  NameLane.mkCertificateProfile (MaxValidity p) (AllowedDNSSuffixes p) (AllowedIPCIDRs p) (AllowedEmailDomains p) (AllowedURIPrefixes p).

(** ** What a profile says *)

(** Without any list of names nothing is constrained; otherwise a name needs the list of
    its kind. *)
Definition name_rule (p : CertificateProfile) (allow : list string) (permitted : string -> Prop) (names : list string) : Prop :=
  forall n, n ∈ names -> if decide (allow = []) then hasSANPolicy p = false else permitted n.

Definition ip_below (ip : string) (cidrs : list string) : Prop :=
  exists addr raw pfx, ParseAddr (GoStrings.TrimSpace ip) = Some addr /\ raw ∈ cidrs /\ ParsePrefix (GoStrings.TrimSpace raw) = Some pfx /\
    PrefixContains pfx addr = true.

(** The domain of a mailbox: what follows the last at sign, which is neither first nor last. *)
Definition mail_below (email : string) (domains : list string) : Prop :=
  exists i, NameLane.last_index "@"%char (list_ascii_of_string email) 0 (-1) = i /\ 0 < i < Z.of_nat (String.length email) - 1 /\
    NameLane.dns_below (NameLane.slice_from email (i + 1)) domains.

Record compliant (p : CertificateProfile) (r : Request) : Prop := mkCompliant {
  cp_protocol : AllowedProtocols p = [] \/ Protocol r = "" \/ Protocol r ∈ AllowedProtocols p;
  cp_algorithm : AllowedKeyAlgorithms p = [] \/ KeyAlgorithm r ∈ AllowedKeyAlgorithms p;
  cp_rsa : KeyAlgorithm r = "RSA" -> MinRSABits p <= 0 \/ MinRSABits p <= KeyBits r;
  cp_ecdsa : KeyAlgorithm r = "ECDSA" -> MinECDSABits p <= 0 \/ MinECDSABits p <= KeyBits r;
  cp_ekus e : e ∈ RequestedEKUs r -> AllowedEKUs p = [] \/ e ∈ AllowedEKUs p;
  cp_validity : MaxValidity p <= 0 \/ TTL r <= MaxValidity p;
  cp_cidrs raw : raw ∈ AllowedIPCIDRs p -> is_Some (ParsePrefix (GoStrings.TrimSpace raw));
  cp_dns : name_rule p (AllowedDNSSuffixes p) (fun n => NameLane.dns_below n (AllowedDNSSuffixes p)) (DNSNames r);
  cp_ip : name_rule p (AllowedIPCIDRs p) (fun n => ip_below n (AllowedIPCIDRs p)) (IPAddresses r);
  cp_email : name_rule p (AllowedEmailDomains p) (fun n => mail_below n (AllowedEmailDomains p)) (EmailAddresses r);
  cp_uri : name_rule p (AllowedURIPrefixes p) (fun n => NameLane.uri_below n (AllowedURIPrefixes p)) (URIs r)
}.

Lemma contains_elem l v : contains l v = true <-> v ∈ l.
Proof.
  unfold contains. rewrite existsb_exists. setoid_rewrite String.eqb_eq. split; [by intros (x & Hx%list_elem_of_In & ->)|].
  intros H. exists v. by rewrite <- list_elem_of_In.
Qed.

Lemma suffix_loop_dns n l : suffix_loop n l = NameLane.dns_loop n l.
Proof. induction l as [|s l IH]; cbn; [done|]. rewrite IH. done. Qed.

Lemma suffixAllowed_spec n l : suffixAllowed n l = true <-> NameLane.dns_below n l.
Proof. rewrite <- NameLane.dnsSuffixPermitted_spec. unfold suffixAllowed. by rewrite suffix_loop_dns. Qed.

Lemma uriPrefixAllowed_eq u l : uriPrefixAllowed u l = NameLane.uriPrefixPermitted u l.
Proof. induction l as [|x l IH]; cbn; [done|]. by rewrite IH. Qed.

Lemma emailAllowed_eq e l : emailAllowed e l = NameLane.emailDomainPermitted e l.
Proof. unfold emailAllowed, NameLane.emailDomainPermitted, suffixAllowed. by rewrite suffix_loop_dns. Qed.

Lemma emailAllowed_spec e l : emailAllowed e l = true <-> mail_below e l.
Proof.
  unfold emailAllowed, mail_below. set (i := NameLane.last_index _ _ _ _).
  destruct (Z.leb_spec i 0), (Z.eqb_spec i (Z.of_nat (String.length e) - 1)); cbn; try (split; [done|intros (j & <- & Hj & _); lia]).
  rewrite suffixAllowed_spec. split; [|by intros (j & <- & _ & ?)]. intros Hd. exists i. split_and!; [done|lia| |done].
  assert (Hb : forall l j f, f < j + Z.of_nat (length l) -> NameLane.last_index "@"%char l j f < j + Z.of_nat (length l)).
  { clear. induction l as [|c l IH]; intros j f Hf; [exact Hf|]. cbn [NameLane.last_index length] in *. specialize (IH (j + 1) (if Ascii.eqb c "@" then j else f)).
    destruct (Ascii.eqb c "@"); lia. }
  specialize (Hb (list_ascii_of_string e) 0 (-1) ltac:(lia)). fold i in Hb.
  assert (Hl : length (list_ascii_of_string e) = String.length e) by (clear; induction e; cbn; [done|by f_equal]). lia.
Qed.

Lemma parseCIDRSet_spec l : match parseCIDRSet l with
  | Some ps => Forall2 (fun raw pfx => ParsePrefix (GoStrings.TrimSpace raw) = Some pfx) l ps
  | None => exists raw, raw ∈ l /\ ParsePrefix (GoStrings.TrimSpace raw) = None end.
Proof.
  induction l as [|raw l IH]; cbn; [constructor|]. destruct (ParsePrefix _) as [pfx|] eqn:E; [|exists raw; by split; [left|]].
  destruct (parseCIDRSet l); cbn; [by constructor|]. destruct IH as (r & Hr & Hn). exists r. by split; [right|].
Qed.

Lemma parseCIDRSet_parses l : is_Some (parseCIDRSet l) <-> forall raw, raw ∈ l -> is_Some (ParsePrefix (GoStrings.TrimSpace raw)).
Proof.
  pose proof (parseCIDRSet_spec l) as H. destruct (parseCIDRSet l) as [ps|].
  - split; [|by eexists]. intros _ raw Hin. apply list_elem_of_lookup in Hin as [i Hi]. destruct (Forall2_lookup_l _ _ _ _ _ H Hi) as (p & _ & ->). by eexists.
  - destruct H as (raw & Hin & Hn). split; [by intros [? ?]|]. intros Hall. specialize (Hall raw Hin). rewrite Hn in Hall. by destruct Hall.
Qed.

Lemma ipAllowed_spec ip l : is_Some (parseCIDRSet l) -> ipAllowed ip l = Some true <-> ip_below ip l.
Proof.
  intros [ps Hps]. pose proof (parseCIDRSet_spec l) as H. rewrite Hps in H. unfold ipAllowed, ip_below. rewrite Hps.
  destruct (ParseAddr (GoStrings.TrimSpace ip)) as [a|]; cbn; [|split; [done|naive_solver]]. split.
  - intros [= (pfx & Hin & Hc)%existsb_exists]. apply list_elem_of_In, list_elem_of_lookup in Hin as [i Hi].
    destruct (Forall2_lookup_r _ _ _ _ _ H Hi) as (raw & Hr & Hp). exists a, raw, pfx. split_and!; try done. by eapply list_elem_of_lookup_2.
  - intros (a' & raw & pfx & [= <-] & Hin & Hp & Hc). f_equal. apply existsb_exists. exists pfx. split; [|done].
    apply list_elem_of_lookup in Hin as [i Hi]. destruct (Forall2_lookup_l _ _ _ _ _ H Hi) as (pfx' & Hi' & Hp'). simplify_eq.
    apply list_elem_of_In. by eapply list_elem_of_lookup_2.
Qed.

Lemma profile_names_spec k p allow permitted (P : string -> Prop) sans : (forall n, permitted n = Some true <-> P n) ->
  check_sans k (hasSANPolicy p) allow permitted sans = None <-> name_rule p allow P sans.
Proof.
  intros HP. unfold name_rule. induction sans as [|n sans IH]; cbn [check_sans].
  - split; [|done]. intros _ n Hn. by apply elem_of_nil in Hn.
  - rewrite NameLane.list_elem_of_forall_cons, <- IH. destruct allow as [|a allow]; cbn [length Nat.eqb].
    + rewrite decide_True by done. destruct (hasSANPolicy p); naive_solver.
    + rewrite decide_False by done. rewrite <- HP. destruct (permitted n) as [[]|]; naive_solver.
Qed.

Lemma orElse_None a b : orElse a b = None <-> a = None /\ b = None.
Proof. destruct a; naive_solver. Qed.

Lemma check_ekus_spec allowed l : check_ekus allowed l = None <-> forall e, e ∈ l -> allowed = [] \/ e ∈ allowed.
Proof.
  induction l as [|e l IH]; cbn [check_ekus]; [split; [|done]; intros _ e He; by apply elem_of_nil in He|].
  rewrite NameLane.list_elem_of_forall_cons, <- IH, <- contains_elem. destruct allowed as [|a allowed]; cbn [length Nat.eqb negb andb]; [naive_solver|].
  destruct (contains (a :: allowed) e); naive_solver.
Qed.

Lemma empty_or {A} (l : list A) (P : Prop) b : (b = true <-> P) -> negb (length l =? 0)%nat && negb b = false <-> l = [] \/ P.
Proof. intros H. destruct l, b; cbn; naive_solver. Qed.

Lemma floor_ok m b : (0 <? m) && (b <? m) = false <-> m <= 0 \/ m <= b.
Proof. destruct (Z.ltb_spec 0 m), (Z.ltb_spec b m); cbn; split; intros; try done; lia. Qed.

Lemma ceiling_ok m t : (0 <? m) && (m <? t) = false <-> m <= 0 \/ t <= m.
Proof. destruct (Z.ltb_spec 0 m), (Z.ltb_spec m t); cbn; split; intros; try done; lia. Qed.

Lemma check_key_spec p r : check_key p r = None <->
  (AllowedProtocols p = [] \/ Protocol r = "" \/ Protocol r ∈ AllowedProtocols p) /\
  (AllowedKeyAlgorithms p = [] \/ KeyAlgorithm r ∈ AllowedKeyAlgorithms p) /\
  (KeyAlgorithm r = "RSA" -> MinRSABits p <= 0 \/ MinRSABits p <= KeyBits r) /\
  (KeyAlgorithm r = "ECDSA" -> MinECDSABits p <= 0 \/ MinECDSABits p <= KeyBits r).
Proof.
  assert (H1 : negb (length (AllowedProtocols p) =? 0)%nat && negb (String.eqb (Protocol r) "") && negb (contains (AllowedProtocols p) (Protocol r)) = false <->
    AllowedProtocols p = [] \/ Protocol r = "" \/ Protocol r ∈ AllowedProtocols p).
  { rewrite <- contains_elem. destruct (AllowedProtocols p), (String.eqb_spec (Protocol r) ""), (contains _ (Protocol r)); cbn; naive_solver. }
  assert (H2 := empty_or (AllowedKeyAlgorithms p) _ _ (contains_elem (AllowedKeyAlgorithms p) (KeyAlgorithm r))).
  unfold check_key. rewrite <- H1, <- H2, <- !floor_ok. clear H1 H2.
  destruct (negb (length (AllowedProtocols p) =? 0)%nat && _ && _); [split; [done|by intros [? _]]|].
  destruct (negb (length (AllowedKeyAlgorithms p) =? 0)%nat && _); [split; [done|by intros (_ & ? & _)]|].
  destruct (String.eqb_spec (KeyAlgorithm r) "RSA") as [->|Hr]; [|destruct (String.eqb_spec (KeyAlgorithm r) "ECDSA") as [->|He]].
  - destruct (_ && _); (split; [done|]); [by intros (_ & _ & H & _); discriminate H|done].
  - destruct (_ && _); (split; [done|]); [by intros (_ & _ & _ & H); discriminate H|done].
  - split; [|done]. intros _. by split_and!.
Qed.

Lemma check_names_spec p r : check_names p r = None <->
  (forall raw, raw ∈ AllowedIPCIDRs p -> is_Some (ParsePrefix (GoStrings.TrimSpace raw))) /\
  name_rule p (AllowedDNSSuffixes p) (fun n => NameLane.dns_below n (AllowedDNSSuffixes p)) (DNSNames r) /\
  name_rule p (AllowedIPCIDRs p) (fun n => ip_below n (AllowedIPCIDRs p)) (IPAddresses r) /\
  name_rule p (AllowedEmailDomains p) (fun n => mail_below n (AllowedEmailDomains p)) (EmailAddresses r) /\
  name_rule p (AllowedURIPrefixes p) (fun n => NameLane.uri_below n (AllowedURIPrefixes p)) (URIs r).
Proof.
  unfold check_names. rewrite !orElse_None, <- parseCIDRSet_parses.
  assert (Hs : forall (b : bool) (P : Prop), (b = true <-> P) -> Some b = Some true <-> P) by (intros b P <-; split; congruence).
  rewrite (profile_names_spec SanDNS _ _ _ (fun n => NameLane.dns_below n (AllowedDNSSuffixes p))) by (intros n; apply Hs, suffixAllowed_spec).
  rewrite (profile_names_spec SanEmail _ _ _ (fun n => mail_below n (AllowedEmailDomains p))) by (intros n; apply Hs, emailAllowed_spec).
  rewrite (profile_names_spec SanURI _ _ _ (fun n => NameLane.uri_below n (AllowedURIPrefixes p)))
    by (intros n; apply Hs; rewrite uriPrefixAllowed_eq; apply NameLane.uriPrefixPermitted_spec).
  destruct (parseCIDRSet (AllowedIPCIDRs p)) as [ps|] eqn:E; [|split; [by intros [? _]|by intros [[? ?] _]]].
  rewrite (profile_names_spec SanIP _ _ _ (fun n => ip_below n (AllowedIPCIDRs p))) by (intros n; apply ipAllowed_spec; by rewrite E).
  split; [intros (_ & ?); split; [by eexists|done]|by intros (_ & ?)].
Qed.

(** Validation is the profile: a request is accepted exactly when its protocol, key,
    usages, lifetime and every name of every kind are what the profile allows, names
    matched on the boundaries of labels. *)
Theorem profile_Validate_decides p r : Validate p r = None <-> compliant p r.
Proof.
  unfold Validate. rewrite !orElse_None, check_key_spec, check_ekus_spec, check_names_spec.
  pose proof (ceiling_ok (MaxValidity p) (TTL r)) as Hv. split.
  - intros ((H1 & H2 & H3 & H4) & H5 & H6 & H7 & H8 & H9 & H10 & H11). split; try done. apply Hv. by destruct (_ && _).
  - intros [H1 H2 H3 H4 H5 H6 H7 H8 H9 H10 H11]. apply Hv in H6. rewrite H6. done.
Qed.

(** ** The signer agrees *)

(** [net.IP.String], and how [net] and [net/netip] agree: what the stricter parser takes
    as a prefix the other takes too, and an address in the prefix is in the network. *)
Class NetipLaws (IPString : NameLane.IP -> string) : Prop := {
  prefix_cidr s pfx : ParsePrefix s = Some pfx -> is_Some (NameLane.ParseCIDR s);
  prefix_contains s pfx ip a : ParsePrefix s = Some pfx -> ParseAddr (GoStrings.TrimSpace (IPString ip)) = Some a ->
    PrefixContains pfx a = true -> exists net, NameLane.ParseCIDR s = Some net /\ NameLane.Contains net ip = true
}.

(** A base profile that constrains no names. *)
Definition nameless (base : NameLane.LeafProfile) : Prop :=
  NameLane.PermittedDNSSuffixes base = [] /\ NameLane.PermittedIPCIDRs base = [] /\ NameLane.PermittedEmailDomains base = [] /\
  NameLane.PermittedURIPrefixes base = [].

(** The names of a signing request, as validation saw them. *)
Definition shown (IPString : NameLane.IP -> string) (csr : NameLane.Request) (r : Request) : Prop :=
  (forall n, n ∈ NameLane.DNSNames csr -> n ∈ DNSNames r) /\ (forall ip, ip ∈ NameLane.IPAddresses csr -> IPString ip ∈ IPAddresses r) /\
  (forall e, e ∈ NameLane.EmailAddresses csr -> e ∈ EmailAddresses r) /\ (forall u, u ∈ NameLane.URIs csr -> u ∈ URIs r).

Lemma narrow_nil l : NameLane.narrow [] l = l.
Proof. by destruct l. Qed.

Lemma no_policy p : hasSANPolicy p = false <->
  AllowedDNSSuffixes p = [] /\ AllowedIPCIDRs p = [] /\ AllowedEmailDomains p = [] /\ AllowedURIPrefixes p = [].
Proof.
  unfold hasSANPolicy. rewrite Z.ltb_ge.
  destruct (AllowedDNSSuffixes p), (AllowedIPCIDRs p), (AllowedEmailDomains p), (AllowedURIPrefixes p); cbn;
    (split; [intros; split_and!; first [done|lia]|intros (? & ? & ? & ?); first [done|lia]]).
Qed.

(** C31: What the profile admits is signed: when validation accepted a request, the signer's
    own enforcement, under the leaf profile bound to it, accepts every signing request
    whose names validation has seen, so that the two layers, which read names, addresses
    and prefixes with different code, never disagree against the caller. *)
Theorem admitted_is_signed (IPString : NameLane.IP -> string) `{!NetipLaws IPString} base p r csr ekus :
  nameless base -> (NameLane.MaxValidity base <= 0 \/ TTL r <= NameLane.MaxValidity base) -> shown IPString csr r -> Validate p r = None ->
  NameLane.enforceLeafProfile csr (TTL r) (NameLane.leafProfileForCertificateProfile base (bound p) ekus) = None.
Proof.
  intros (B1 & B2 & B3 & B4) Hbase (S1 & S2 & S3 & S4) Hv. apply NameLane.enforce_spec.
  unfold Validate in Hv. rewrite !orElse_None, check_names_spec in Hv. destruct Hv as (_ & _ & Hval & Hcidrs & Hdns & Hip & Hmail & Huri).
  assert (Hval' : MaxValidity p <= 0 \/ TTL r <= MaxValidity p) by (apply ceiling_ok; by destruct (_ && _)).
  set (prof := NameLane.leafProfileForCertificateProfile base (bound p) ekus).
  assert (E1 : NameLane.PermittedDNSSuffixes prof = AllowedDNSSuffixes p) by (cbn; rewrite B1; apply narrow_nil).
  assert (E2 : NameLane.PermittedIPCIDRs prof = AllowedIPCIDRs p) by (cbn; rewrite B2; apply narrow_nil).
  assert (E3 : NameLane.PermittedEmailDomains prof = AllowedEmailDomains p) by (cbn; rewrite B3; apply narrow_nil).
  assert (E4 : NameLane.PermittedURIPrefixes prof = AllowedURIPrefixes p) by (cbn; rewrite B4; apply narrow_nil).
  assert (Hsan : forall allow P n names, name_rule p allow P names -> n ∈ names -> NameLane.san_allowed prof allow (P n)).
  { intros allow P n names Hrule Hn. specialize (Hrule n Hn). unfold NameLane.san_allowed. rewrite E1, E2, E3, E4.
    destruct (decide (allow = [])); [right; by apply no_policy|by left]. }
  split_and!.
  - subst prof. cbn. destruct (Z.ltb_spec 0 (MaxValidity p)), (Z.eqb_spec (NameLane.MaxValidity base) 0), (Z.ltb_spec (MaxValidity p) (NameLane.MaxValidity base)); cbn; lia.
  - rewrite E2. intros raw Hraw. destruct (Hcidrs raw Hraw) as [pfx Hp]. by eapply prefix_cidr.
  - rewrite E1. intros n Hn. exact (Hsan _ _ n _ Hdns (S1 n Hn)).
  - rewrite E2. intros ip Hin. destruct (Hsan _ _ _ _ Hip (S2 ip Hin)) as [[Hne (a & raw & pfx & Ha & Hraw & Hp & Hc)]|Hno]; [left|by right].
    split; [done|]. destruct (prefix_contains _ _ ip a Hp Ha Hc) as (net & Hnet & Hct). by exists raw, net.
  - rewrite E3. intros e He. destruct (Hsan _ _ _ _ Hmail (S3 e He)) as [[Hne Hm]|Hno]; [left|by right].
    split; [done|]. rewrite <- emailAllowed_eq. by apply emailAllowed_spec.
  - rewrite E4. intros u Hu. exact (Hsan _ _ u _ Huri (S4 u Hu)).
Qed.

End Names.

(** An exact label is a valid definition that no inspected key satisfies: inspection names
    the family. *)
Lemma exact_label_admits_nobody `{NameLane.NetOps, NetipOps} p r : AllowedKeyAlgorithms p = ["ECDSA-P256"] -> ACMEAuthMode p = "" ->
  KeyAlgorithm r ∈ ["RSA"; "ECDSA"; "Ed25519"; "unknown"] -> ValidateDefinition p = None /\ Validate p r <> None.
Proof.
  intros Ha Hm Hk. split; [unfold ValidateDefinition; by rewrite Ha, Hm|]. rewrite profile_Validate_decides. intros [_ Halg _ _ _ _ _ _ _ _ _].
  rewrite Ha in Halg. destruct Halg as [|Hin]; [done|]. apply list_elem_of_singleton in Hin. rewrite Hin in Hk. by apply (bool_decide_unpack _) in Hk || set_solver.
Qed.

(** A lifetime in seconds that overflows is negative and passes every ceiling. *)
Lemma huge_lifetime_passes m : 0 < m -> (0 <? m) && (m <? GoInt.wrap64 (9300000000 * 1000000000)) = false.
Proof. intros Hm. replace (GoInt.wrap64 (9300000000 * 1000000000)) with (-9146744073709551616) by reflexivity. destruct (Z.ltb_spec m (-9146744073709551616)); [lia|by rewrite andb_false_r]. Qed.

(** Texts as addresses and networks. *)
Definition text_net : NameLane.NetOps := {|
  NameLane.IP := string; NameLane.IPNet := string; NameLane.ParseCIDR := fun s => if String.eqb s "" then None else Some s;
  NameLane.Contains := fun net ip => GoStrings.HasPrefix (GoStrings.TrimSpace ip) net; NameLane.LowerUnicode := fun s => s |}.
Definition text_netip : NetipOps := {|
  Addr := string; Prefix := string; ParseAddr := fun s => Some s; ParsePrefix := fun s => if String.eqb s "" then None else Some s;
  PrefixContains := fun pfx a => GoStrings.HasPrefix a pfx |}.

Lemma text_laws : NetipLaws (N := text_net) (NP := text_netip) (fun ip => ip).
Proof.
  split; cbn.
  - intros s pfx Hs. by eexists.
  - intros s pfx ip a Hs [= <-] Hc. exists pfx. split; [done|]. exact Hc.
Qed.

Definition web : CertificateProfile :=
  mkProfile "web" 1 false ["ECDSA"] 0 256 ["serverAuth"] 7776000000000000 ["api"] "" [".Example.com"] ["10.0."] [] [].
Definition web_request : Request :=
  mkRequest "ECDSA" 256 ["serverAuth"] 3600000000000 ["api.example.com."] ["10.0.3.4"] [] [] "api".
Definition web_base : NameLane.LeafProfile := NameLane.mkLeafProfile [] [] [] [] [] 0 None [] [] [] [] [].
Definition web_csr : NameLane.Request (N := text_net) := NameLane.mkRequest (N := text_net) ["api.example.com."] ["10.0.3.4"] [] [].

Lemma admitted_is_signed_witness :
  Validate (N := text_net) (NP := text_netip) web web_request = None /\
  Validate (N := text_net) (NP := text_netip) web (mkRequest "ECDSA" 256 [] 0 ["notexample.com"] [] [] [] "api") <> None /\
  NameLane.enforceLeafProfile (N := text_net) web_csr (TTL web_request) (NameLane.leafProfileForCertificateProfile web_base (bound web) ["serverAuth"]) = None.
Proof.
  split; [vm_compute; reflexivity|]. split; [vm_compute; discriminate|].
  apply (admitted_is_signed (N := text_net) (NP := text_netip) (fun ip => ip) (NetipLaws0 := text_laws) web_base web web_request web_csr ["serverAuth"]).
  - repeat split.
  - left. vm_compute. discriminate.
  - repeat split; intros x Hx; exact Hx.
  - vm_compute. reflexivity.
Defined.

End Profile.
