(* ===== verification/Issuance.v ===== *)
(** * Issuance through external authorities

    [src/internal/ca/issuance.go] and the registry of [src/internal/server/external_ca.go]:
    the profile gate, issuance under an idempotency key, the intent in the outbox, its
    delivery to the provider, and the result that the caller reads.  The outbox and the
    idempotency keys are those of [Outbox] and [Idempotency], the profile that of
    [Profile].  The authority, the inspection of a signing request and SHA-256 are
    parameters, and so is the text of a certificate; a signing request is its base64
    text.  [Faults] says which calls of the database fail. *)

From S2P Require Import Prelude Json Outbox Idempotency NameLane Profile.
Open Scope string_scope.
Open Scope list_scope.
Open Scope Z_scope.

Module Issuance.
Import SE Json Outbox.

(** ** ca.go *)

Record IssueRequest := mkIssueRequest {
  TenantID : string; CSR : string; DNSNames : list string; TTL : Z; ProviderKey : string;
  ProfileName : string; Protocol : string; RequestedEKUs : list string
}.

Record Certificate := mkCertificate { CertificatePEM : string; Serial : string; NotAfter : Z; Issuer : string }.

(** What inspecting a signing request gives. *)
Record CSRInfo := mkCSRInfo {
  ci_KeyAlgorithm : string; ci_KeyBits : Z; ci_DNSNames : list string; ci_IPAddresses : list string; ci_EmailAddresses : list string; ci_URIs : list string;
  ci_RequestedEKUs : list string
}.

(** ** Keys and payloads *)

Definition DestinationExternalCAIssue : string := "external-ca.issue".

Definition externalIssueResultKey (key : string) : string := "external-ca.issue:" +:+ key.
Definition IssueRecordIdempotencyKey (key : string) : string := key +:+ ":ca.issue".

Definition payload_fields : list field :=
  [mkField "authority_id" KStr false; mkField "tenant_id" KStr false; mkField "csr_der" KStr false; mkField "dns_names" KStrs true;
   mkField "ttl_nanos" KInt false; mkField "provider_idempotency_key" KStr false; mkField "profile_name" KStr true;
   mkField "protocol" KStr true; mkField "requested_ekus" KStrs true].

Definition newExternalIssuePayload (authorityID : string) (req : IssueRequest) : data :=
  encode_struct payload_fields
    [VStr authorityID; VStr (TenantID req); VStr (CSR req); VStrs (DNSNames req); VInt (TTL req); VStr (ProviderKey req);
     VStr (ProfileName req); VStr (Protocol req); VStrs (RequestedEKUs req)].

(** The authority and the request of a payload. *)
Definition payload_request (d : data) : option (string * IssueRequest) :=
  match decode_struct payload_fields d with
  | Some [VStr a; VStr t; VStr csr; VStrs names; VInt ttl; VStr pk; VStr prof; VStr proto; VStrs ekus] =>
      Some (a, mkIssueRequest t csr names ttl pk prof proto ekus)
  | _ => None
  end.

Definition intent_fields : list field :=
  [mkField "provider_idempotency_key" KStr false; mkField "dns_names" KStrs true; mkField "profile" KStr true; mkField "protocol" KStr true].
Definition record_fields : list field := [mkField "serial" KStr false; mkField "issuer" KStr false].

(** ** The state *)

Inductive Reason := RNone | RNotFound | RUnparseable | RViolation (e : Profile.ProfileErr).
Record Decision := mkDecision { d_TenantID : string; d_Profile : string; d_Version : Z; d_Decision : string; d_Reason : Reason; d_Protocol : string }.

Record Faults := mkFaults { f_profile : bool; f_intent : bool; f_idem : option Idempotency.idemFault; f_record : bool }.

Inductive IssueErr :=
| ErrStore | ErrDecodeProfile | ErrAppend (e : string) | ErrProfile (e : Profile.ProfileErr) | ErrIntent | ErrDrain (e : string)
| ErrIdem (e : Idempotency.idemError) | ErrIncomplete (e : Idempotency.idemError) | ErrCertificate
| ErrDestination | ErrPayload | ErrAuthority | ErrTenantMismatch | ErrProfileNotFound | ErrUnparseableCSR.

Section Service.
Context {N : NameLane.NetOps} {NP : Profile.NetipOps}.
Context {W : Type}.
(** The authority and its provider. *)
Variable CAIssue : IssueRequest -> W -> result string Certificate * W.
Variable InspectCSR : string -> option CSRInfo.
Variable SHA256Hex : string -> string.
Variable marshalCert : Certificate -> string.
Variable unmarshalCert : string -> option Certificate.
(** The active profile of a tenant under a name: its version and its decoded rules. *)
Variable profiles : string -> string -> option (Z * option Profile.CertificateProfile).
(** Whether the event log is wired, and what it answers to an append. *)
Variable has_log : bool.
Variable append_answers : list Decision -> option string.
Variable outboxAuthorityID : string.

Record State := mkState { st_db : DB; st_keys : Idempotency.Keys; st_log : list Decision; provider : W }.

(** The provider's key: 32 characters of a hash. *)
Definition ProviderIdempotencyKey (key : string) : string :=
  let sum := SHA256Hex key in if (String.length sum <=? 32)%nat then sum else String.substring 0 32 sum.

(** ** The profile gate *)

Definition append_decision (d : Decision) : M State IssueErr unit := fun s =>
  if negb has_log then (Ok tt, s) else
  match append_answers (st_log s) with
  | Some e => (Err (ErrAppend e), s)
  | None => (Ok tt, mkState (st_db s) (st_keys s) (st_log s ++ [d]) (provider s))
  end.

Definition auditDecision (req : IssueRequest) (version : Z) (decision : string) (reason : Reason) : M State IssueErr unit :=
  append_decision (mkDecision (TenantID req) (ProfileName req) version decision reason (Protocol req)).

Definition profile_request (req : IssueRequest) (info : CSRInfo) : Profile.Request :=
  Profile.mkRequest (ci_KeyAlgorithm info) (ci_KeyBits info) (RequestedEKUs req) (TTL req) (NameLane.profileDNSNames (ci_DNSNames info) (DNSNames req))
    (ci_IPAddresses info) (ci_EmailAddresses info) (ci_URIs info) (Protocol req).

Definition enforceProfile (flt : Faults) (req : IssueRequest) : M State IssueErr unit :=
  if String.eqb (ProfileName req) "" then ret tt else
  if f_profile flt then fail ErrStore else
  match profiles (TenantID req) (ProfileName req) with
  | None => auditDecision req 0 "deny" RNotFound
  | Some (_, None) => fail ErrDecodeProfile
  | Some (version, Some prof) =>
      match InspectCSR (CSR req) with
      | None => auditDecision req version "deny" RUnparseable
      | Some info =>
          match Profile.Validate prof (profile_request req info) with
          | Some e => bind (auditDecision req version "deny" (RViolation e)) (fun _ => fail (ErrProfile e))
          | None => auditDecision req version "allow" RNone
          end
      end
  end.

(** The gate of the built-in authority ([server/issuance.go]), which gives the profile to
    sign under. *)
Definition auditProfileDecision (tenantID defaultProfile : string) (version : Z) (decision : string) (reason : Reason) : M State IssueErr unit :=
  append_decision (mkDecision tenantID defaultProfile version decision reason "api").

Definition served_request (prof : Profile.CertificateProfile) (info : CSRInfo) (dnsNames : list string) (ttl : Z) : Profile.Request :=
  Profile.mkRequest (ci_KeyAlgorithm info) (ci_KeyBits info) (NameLane.intendedProfileEKUs (ci_RequestedEKUs info) (Profile.AllowedEKUs prof)) ttl
    (NameLane.profileDNSNames (ci_DNSNames info) dnsNames) (ci_IPAddresses info) (ci_EmailAddresses info) (ci_URIs info) "api".

Definition served_enforceProfile (defaultProfile : string) (leafProfile : NameLane.LeafProfile) (flt : Faults) (tenantID csr : string)
    (dnsNames : list string) (ttl : Z) : M State IssueErr NameLane.LeafProfile :=
  if String.eqb defaultProfile "" then ret leafProfile else
  if f_profile flt then fail ErrStore else
  match profiles tenantID defaultProfile with
  | None => bind (auditProfileDecision tenantID defaultProfile 0 "deny" RNotFound) (fun _ => fail ErrProfileNotFound)
  | Some (_, None) => fail ErrDecodeProfile
  | Some (version, Some prof) =>
      match InspectCSR csr with
      | None => bind (auditProfileDecision tenantID defaultProfile version "deny" RUnparseable) (fun _ => fail ErrUnparseableCSR)
      | Some info =>
          match Profile.Validate prof (served_request prof info dnsNames ttl) with
          | Some e => bind (auditProfileDecision tenantID defaultProfile version "deny" (RViolation e)) (fun _ => fail (ErrProfile e))
          | None =>
              bind (auditProfileDecision tenantID defaultProfile version "allow" RNone) (fun _ =>
                ret (NameLane.leafProfileForCertificateProfile leafProfile (Profile.bound prof) (Profile.RequestedEKUs (served_request prof info dnsNames ttl))))
          end
      end
  end.

(** ** Minting under a key *)

(** What runs under the idempotency key: the authority, then the record of the issue. *)
Definition mint (flt : Faults) (dbnow : Z) (tenantID key : string) (req : IssueRequest) (dw : DB * W) : result string string * (DB * W) :=
  let (db, w) := dw in
  match CAIssue req w with
  | (Err e, w) => (Err e, (db, w))
  | (Ok cert, w) =>
      if f_record flt then (Err "outbox: record", (db, w)) else
      let rec := encode_struct record_fields [VStr (Serial cert); VStr (Issuer cert)] in
      (Ok (marshalCert cert), (snd (EnqueueIfAbsent dbnow db (mkEntry tenantID "ca.issue" (IssueRecordIdempotencyKey key) rec)), w))
  end.

Definition mint_once (flt : Faults) (dbnow : Z) (tenantID idemKey key : string) (req : IssueRequest) : M State IssueErr string := fun s =>
  let '(r, k, (db, w)) := Idempotency.Do (f_idem flt) dbnow tenantID idemKey (mint flt dbnow tenantID key req) (st_keys s) (st_db s, provider s) in
  (match r with Ok raw => Ok raw | Err e => Err (ErrIdem e) end, mkState db k (st_log s) w).

Definition decode_cert (raw : string) : M State IssueErr Certificate :=
  match unmarshalCert raw with Some cert => ret cert | None => fail ErrCertificate end.

Definition enqueue (flt : Faults) (dbnow : Z) (e : Entry) : M State IssueErr unit := fun s =>
  if f_intent flt then (Err ErrIntent, s) else (Ok tt, mkState (snd (EnqueueIfAbsent dbnow (st_db s) e)) (st_keys s) (st_log s) (provider s)).

Definition recordIntent (flt : Faults) (dbnow : Z) (tenantID key : string) (req : IssueRequest) : M State IssueErr unit :=
  enqueue flt dbnow (mkEntry tenantID DestinationExternalCAIssue key
    (encode_struct intent_fields [VStr (ProviderKey req); VStrs (DNSNames req); VStr (ProfileName req); VStr (Protocol req)])).

Definition with_provider_key (req : IssueRequest) (key : string) : IssueRequest :=
  if String.eqb (ProviderKey req) ""
  then mkIssueRequest (TenantID req) (CSR req) (DNSNames req) (TTL req) (ProviderIdempotencyKey key) (ProfileName req) (Protocol req) (RequestedEKUs req)
  else req.

Definition issueViaOutbox (flt : Faults) (dbnow : Z) (drain : option (M State string unit)) (req : IssueRequest) (key : string) : M State IssueErr Certificate :=
  bind (enqueue flt dbnow (mkEntry (TenantID req) DestinationExternalCAIssue key (newExternalIssuePayload outboxAuthorityID req))) (fun _ =>
  bind (fun s => match drain with
                 | None => (Ok tt, s)
                 | Some d => match d s with (Ok _, s) => (Ok tt, s) | (Err e, s) => (Err (ErrDrain e), s) end
                 end) (fun _ =>
  bind (fun s => (match Idempotency.Result (TenantID req) (externalIssueResultKey key) (st_keys s) with
                  | Ok raw => Ok raw | Err e => Err (ErrIncomplete e) end, s)) decode_cert)).

Definition Issue (flt : Faults) (dbnow : Z) (drain : option (M State string unit)) (req : IssueRequest) (key : string) : M State IssueErr Certificate :=
  bind (enforceProfile flt req) (fun _ =>
    let req := with_provider_key req key in
    if negb (String.eqb outboxAuthorityID "") then issueViaOutbox flt dbnow drain req key else
    bind (recordIntent flt dbnow (TenantID req) key req) (fun _ =>
    bind (mint_once flt dbnow (TenantID req) key key req) decode_cert)).

(** ** Delivery *)

Definition with_tenant (t : string) (req : IssueRequest) : IssueRequest :=
  mkIssueRequest t (CSR req) (DNSNames req) (TTL req) (ProviderKey req) (ProfileName req) (Protocol req) (RequestedEKUs req).

Definition DeliverExternalIssue (flt : Faults) (dbnow : Z) (m : Message) : M State IssueErr unit :=
  if negb (String.eqb (m_Destination m) DestinationExternalCAIssue) then fail ErrDestination else
  match payload_request (m_Payload m) with
  | None => fail ErrPayload
  | Some (authority, req) =>
      if negb (String.eqb authority outboxAuthorityID) then fail ErrAuthority else
      let req := if String.eqb (TenantID req) "" then with_tenant (m_TenantID m) req else req in
      if negb (String.eqb (TenantID req) (m_TenantID m)) then fail ErrTenantMismatch else
      let req := with_provider_key req (m_IdempotencyKey m) in
      bind (mint_once flt dbnow (m_TenantID m) (externalIssueResultKey (m_IdempotencyKey m)) (m_IdempotencyKey m) req) (fun _ => ret tt)
  end.

End Service.

(** ** The registry of a server *)

Record ExternalCAIssueRequest := mkExternal { ex_CSR : string; ex_DNSNames : list string; ex_TTLSeconds : Z; ex_ProfileName : string; ex_RequestedEKUs : list string }.

Inductive RegistryErr := ErrExternalCANotFound | ErrMissingTenant | ErrMissingKey | ErrCSRRequired | ErrNamesRequired | ErrNegativeTTL | ErrUpstream (e : IssueErr).

(** [issue] is [Issue] of the service that the identifier names, if there is one. *)
Definition IssueExternalCA {S_} (issue : string -> option (IssueRequest -> string -> M S_ IssueErr Certificate)) (tenantID id key : string)
    (req : ExternalCAIssueRequest) : M S_ RegistryErr Certificate := fun s =>
  let id := GoStrings.TrimSpace id in
  match issue id with
  | None => (Err ErrExternalCANotFound, s)
  | Some call =>
      if String.eqb tenantID "" then (Err ErrMissingTenant, s) else
      if String.eqb key "" then (Err ErrMissingKey, s) else
      if String.eqb (ex_CSR req) "" then (Err ErrCSRRequired, s) else
      if (length (ex_DNSNames req) =? 0)%nat then (Err ErrNamesRequired, s) else
      if ex_TTLSeconds req <? 0 then (Err ErrNegativeTTL, s) else
      match call (mkIssueRequest tenantID (ex_CSR req) (ex_DNSNames req) (GoInt.wrap64 (ex_TTLSeconds req * second)) "" (ex_ProfileName req) "api" (ex_RequestedEKUs req))
                 (key +:+ ":external-ca:" +:+ id) s with
      | (Err e, s) => (Err (ErrUpstream e), s)
      | (Ok cert, s) => (Ok cert, s)
      end
  end.

End Issuance.
