(* ===== verification/IssuanceSpec.v ===== *)
(** * What the profile gate lets through, and issuing once

    The exact decisions of the gate in front of an external authority; over runs of the
    service, that the authority is never asked for what a profile rejected; and the round
    trip of an issue through the outbox: one call of the provider per key, whatever is
    delivered or asked again. *)

From S2P Require Import Prelude Json Outbox Idempotency NameLane Profile Issuance.
Open Scope string_scope.
Open Scope list_scope.
Open Scope Z_scope.

Module IssuanceSpec.
Import SE Json Outbox Issuance.

Lemma payload_names_apart : names_apart payload_fields.
Proof. apply (bool_decide_unpack _). by vm_compute. Qed.

Lemma payload_roundtrip a req : int64 (TTL req) = true -> payload_request (newExternalIssuePayload a req) = Some (a, req).
Proof.
  intros Ht. unfold payload_request, newExternalIssuePayload.
  rewrite decode_encode; [by destruct req|apply payload_names_apart|]. repeat constructor. exact Ht.
Qed.

Section Spec_.
Context {N : NameLane.NetOps} {NP : Profile.NetipOps} {W : Type}.
Variable CAIssue : IssueRequest -> W -> result string Certificate * W.
Variable InspectCSR : string -> option CSRInfo.
Variable SHA256Hex : string -> string.
Variable marshalCert : Certificate -> string.
Variable unmarshalCert : string -> option Certificate.
Variable profiles : string -> string -> option (Z * option Profile.CertificateProfile).
Variable has_log : bool.
Variable append_answers : list Decision -> option string.
Variable authority : string.

Abbreviation gate := (enforceProfile (W := W) InspectCSR profiles has_log append_answers).
Abbreviation issue := (Issue CAIssue InspectCSR SHA256Hex marshalCert unmarshalCert profiles has_log append_answers authority).
Abbreviation handover := (DeliverExternalIssue CAIssue SHA256Hex marshalCert authority).
Abbreviation once := (mint_once CAIssue marshalCert).

(** ** The gate *)

(** The event log takes the decision, or there is none. *)
Definition recorded (s : State (W := W)) : Prop := has_log = false \/ append_answers (st_log s) = None.

Lemma auditDecision_Ok req v d r (s : State (W := W)) s' : auditDecision has_log append_answers req v d r s = (Ok tt, s') <-> recorded s /\
  s' = mkState (st_db s) (st_keys s) (if has_log then st_log s ++ [mkDecision (TenantID req) (ProfileName req) v d r (Protocol req)] else st_log s) (provider s).
Proof.
  unfold auditDecision, append_decision, recorded. destruct has_log; cbn.
  - destruct (append_answers (st_log s)); split; try done; [by intros [[|] _]|by intros [= <-]; split; [right|]|by intros [_ ->]].
  - split; [intros [= <-]; split; [by left|by destruct s]|intros [_ ->]; by destruct s].
Qed.

(** What the active profile says of a request. *)
Inductive verdict (req : IssueRequest) : Z -> string -> Reason -> Prop :=
| missing : profiles (TenantID req) (ProfileName req) = None -> verdict req 0 "deny" RNotFound
| unparseable v p : profiles (TenantID req) (ProfileName req) = Some (v, Some p) -> InspectCSR (CSR req) = None -> verdict req v "deny" RUnparseable
| violated v p info e : profiles (TenantID req) (ProfileName req) = Some (v, Some p) -> InspectCSR (CSR req) = Some info ->
    Profile.Validate p (profile_request req info) = Some e -> verdict req v "deny" (RViolation e)
| complied v p info : profiles (TenantID req) (ProfileName req) = Some (v, Some p) -> InspectCSR (CSR req) = Some info ->
    Profile.Validate p (profile_request req info) = None -> verdict req v "allow" RNone.

Definition lets_through (r : Reason) : Prop := match r with RViolation _ => False | _ => True end.

(** The gate is exact, and open where it means to be shut: signing goes ahead exactly
    when no profile is named, or the profile could be read, the decision is on record and
    the request complies with the profile, or the named profile does not exist, or the
    signing request cannot be parsed; in the last two cases what is on record, if a log is
    wired, is a denial. *)
Lemma enforceProfile_decides flt req (s s' : State (W := W)) : gate flt req s = (Ok tt, s') <->
  (ProfileName req = "" /\ s' = s) \/
  (ProfileName req <> "" /\ f_profile flt = false /\ recorded s /\ exists v d r, verdict req v d r /\ lets_through r /\
   s' = mkState (st_db s) (st_keys s) (if has_log then st_log s ++ [mkDecision (TenantID req) (ProfileName req) v d r (Protocol req)] else st_log s) (provider s)).
Proof.
  unfold enforceProfile. destruct (String.eqb_spec (ProfileName req) "") as [->|Hne].
  { split; [intros [= <-]; by left|]. by intros [[_ ->]|[? _]]. }
  assert (Hcase : forall P, (ProfileName req = "" /\ s' = s) \/ P <-> P) by (intros P; split; [by intros [[? _]|]|by right]). rewrite Hcase. clear Hcase.
  destruct (f_profile flt); [split; [done|by intros (_ & ? & _)]|].
  destruct (profiles (TenantID req) (ProfileName req)) as [[v [p|]]|] eqn:Hp.
  - destruct (InspectCSR (CSR req)) as [info|] eqn:Hi; [destruct (Profile.Validate p (profile_request req info)) as [e|] eqn:Hv|].
    + unfold bind. split.
      * destruct (auditDecision _ _ _ _ _ _ s) as [[]]; done.
      * intros (_ & _ & _ & v' & d & r & Hver & Hl & _). destruct Hver; simplify_eq; done.
    + rewrite auditDecision_Ok. split.
      * intros [Hr ->]. split_and!; [done..|]. exists v, "allow", RNone. by split_and!; [eapply complied|..].
      * intros (_ & _ & Hr & v' & d & r & Hver & _ & ->). split; [done|]. by destruct Hver; simplify_eq.
    + rewrite auditDecision_Ok. split.
      * intros [Hr ->]. split_and!; [done..|]. exists v, "deny", RUnparseable. by split_and!; [eapply unparseable|..].
      * intros (_ & _ & Hr & v' & d & r & Hver & _ & ->). split; [done|]. by destruct Hver; simplify_eq.
  - split; [done|]. intros (_ & _ & _ & v' & d & r & Hver & _). destruct Hver; simplify_eq.
  - rewrite auditDecision_Ok. split.
    + intros [Hr ->]. split_and!; [done..|]. exists 0, "deny", RNotFound. by split_and!; [apply missing|..].
    + intros (_ & _ & Hr & v' & d & r & Hver & _ & ->). split; [done|]. by destruct Hver; simplify_eq.
Qed.

(** What passing the gate says of a request: a profile it names, if there is one, is
    readable, and the request, if it can be parsed, does not violate it. *)
Definition complies (profs : string -> string -> option (Z * option Profile.CertificateProfile)) (req : IssueRequest) : Prop :=
  ProfileName req = "" \/
  match profs (TenantID req) (ProfileName req) with
  | None => True
  | Some (_, None) => False
  | Some (_, Some p) => forall info, InspectCSR (CSR req) = Some info -> Profile.Validate p (profile_request req info) = None
  end.

Lemma gate_complies flt req (s s' : State (W := W)) : gate flt req s = (Ok tt, s') ->
  complies profiles req /\ st_db s' = st_db s /\ st_keys s' = st_keys s /\ provider s' = provider s.
Proof.
  intros H. apply enforceProfile_decides in H as [[Hn ->]|(_ & _ & _ & v & d & r & Hv & Hl & ->)]; [split; [by left|done]|].
  split; [right|done]. destruct Hv as [Hp|v p Hp Hi|v p info e Hp Hi He|v p info Hp Hi Hc]; rewrite Hp; try done; intros info' Hi'; simplify_eq; done.
Qed.

Lemma gate_fails flt req (s s' : State (W := W)) e : gate flt req s = (Err e, s') ->
  st_db s' = st_db s /\ st_keys s' = st_keys s /\ provider s' = provider s.
Proof.
  unfold enforceProfile, auditDecision, append_decision, bind, ret, fail. repeat case_match; intros Hx; simplify_eq/=; auto.
Qed.

(** The gate of the built-in authority is shut in those cases: it gives a profile only when
    none is configured or the request complies. *)
Lemma served_gate_shut defaultProfile base flt tenantID csr names ttl leaf (s s' : State (W := W)) :
  served_enforceProfile InspectCSR profiles has_log append_answers defaultProfile base flt tenantID csr names ttl s = (Ok leaf, s') ->
  (defaultProfile = "" /\ leaf = base) \/
  exists v p info, profiles tenantID defaultProfile = Some (v, Some p) /\ InspectCSR csr = Some info /\
    Profile.Validate p (served_request p info names ttl) = None /\
    leaf = NameLane.leafProfileForCertificateProfile base (Profile.bound p) (Profile.RequestedEKUs (served_request p info names ttl)).
Proof.
  unfold served_enforceProfile, auditProfileDecision, append_decision, bind, ret, fail.
  destruct (String.eqb_spec defaultProfile ""); [intros [= <- _]; by left|]. intros H. right.
  repeat case_match; simplify_eq/=; eauto 10.
Qed.

(** ** Issuing once *)

Definition no_faults : Faults := mkFaults false false None false.

Lemma once_fresh dbnow t ik key req (s : State (W := W)) cert w : st_keys s !! (t, ik) = None -> CAIssue req (provider s) = (Ok cert, w) ->
  once no_faults dbnow t ik key req s =
    (Ok (marshalCert cert),
     mkState (snd (EnqueueIfAbsent dbnow (st_db s) (mkEntry t "ca.issue" (IssueRecordIdempotencyKey key)
                (encode_struct record_fields [VStr (Serial cert); VStr (Issuer cert)]))))
             (<[(t, ik) := Idempotency.mkIdem "completed" (Some (marshalCert cert)) (Some dbnow)]> (st_keys s)) (st_log s) w).
Proof. intros Hk Hc. unfold mint_once, Idempotency.Do, Idempotency.do_claim, mint. cbn. by rewrite Hk, Hc. Qed.

Lemma once_done dbnow t ik key req (s : State (W := W)) raw now' : st_keys s !! (t, ik) = Some (Idempotency.mkIdem "completed" (Some raw) now') ->
  once no_faults dbnow t ik key req s = (Ok raw, s).
Proof. intros Hk. unfold mint_once, Idempotency.Do, Idempotency.do_claim. cbn. rewrite Hk. cbn. by destruct s. Qed.

Lemma provider_key_once req key : with_provider_key SHA256Hex (with_provider_key SHA256Hex req key) key = with_provider_key SHA256Hex req key.
Proof.
  unfold with_provider_key. destruct (String.eqb (ProviderKey req) "") eqn:E; cbn; [|by rewrite E].
  by destruct (String.eqb (ProviderIdempotencyKey SHA256Hex key) "").
Qed.

Lemma provider_key_fields req key : let r := with_provider_key SHA256Hex req key in
  TenantID r = TenantID req /\ TTL r = TTL req /\ ProfileName r = ProfileName req.
Proof. unfold with_provider_key. by destruct (String.eqb (ProviderKey req) ""). Qed.

(** The message that the outbox hands over for an issue. *)
Definition issue_message (id attempts : Z) (req : IssueRequest) (key : string) : Message :=
  mkMessage id (TenantID req) DestinationExternalCAIssue key (newExternalIssuePayload authority (with_provider_key SHA256Hex req key)) attempts.

Lemma deliver_message dbnow id attempts req key (s : State (W := W)) : TenantID req <> "" -> int64 (TTL req) = true ->
  handover no_faults dbnow (issue_message id attempts req key) s =
  bind (once no_faults dbnow (TenantID req) (externalIssueResultKey key) key (with_provider_key SHA256Hex req key)) (fun _ => ret tt) s.
Proof.
  intros Ht Hi. destruct (provider_key_fields req key) as (H1 & H2 & _).
  unfold DeliverExternalIssue, issue_message. cbn [m_Destination m_Payload m_TenantID m_IdempotencyKey].
  change (String.eqb DestinationExternalCAIssue DestinationExternalCAIssue) with true. cbn [negb].
  rewrite payload_roundtrip by (by rewrite H2). rewrite String.eqb_refl. cbn [negb]. apply String.eqb_neq in Ht. rewrite H1, Ht. rewrite H1, String.eqb_refl. cbn [negb].
  by rewrite provider_key_once.
Qed.

(** A worker that delivers one message when it drains. *)
Definition drain_one (dbnow : Z) (m : Message) : M (State (W := W)) string unit := fun s =>
  match handover no_faults dbnow m s with (Ok _, s) => (Ok tt, s) | (Err _, s) => (Err "handover", s) end.

(** The row of the intent. *)
Definition intent (req : IssueRequest) (key : string) : Entry :=
  mkEntry (TenantID req) DestinationExternalCAIssue key (newExternalIssuePayload authority (with_provider_key SHA256Hex req key)).

Lemma issue_outbox dbnow drain req key (s s1 : State (W := W)) : authority <> "" -> gate no_faults req s = (Ok tt, s1) ->
  issue no_faults dbnow drain req key s =
  issueViaOutbox unmarshalCert authority no_faults dbnow drain (with_provider_key SHA256Hex req key) key s1.
Proof. intros Ha Hg. unfold Issue, bind at 1. rewrite Hg. apply String.eqb_neq in Ha. by rewrite Ha. Qed.

Lemma EnqueueIfAbsent_present dbnow db e : has_key db (e_TenantID e) (e_IdempotencyKey e) -> snd (EnqueueIfAbsent dbnow db e) = db.
Proof. intros H. rewrite EnqueueIfAbsent_spec. by rewrite decide_True. Qed.

(** An issue whose key has a row and a result: nothing is called or written. *)
Lemma issue_done dbnow req key (s s1 : State (W := W)) cert now' : authority <> "" -> gate no_faults req s = (Ok tt, s1) ->
  has_key (st_db s1) (TenantID req) key -> unmarshalCert (marshalCert cert) = Some cert ->
  st_keys s1 !! (TenantID req, externalIssueResultKey key) = Some (Idempotency.mkIdem "completed" (Some (marshalCert cert)) now') ->
  issue no_faults dbnow None req key s = (Ok cert, s1).
Proof.
  intros Ha Hg Hrow Hc Hk. rewrite (issue_outbox dbnow None req key s s1 Ha Hg). destruct (provider_key_fields req key) as (H1 & _ & _).
  unfold issueViaOutbox, enqueue, bind. cbn [f_intent no_faults]. rewrite H1, EnqueueIfAbsent_present by done. cbn [st_keys].
  unfold Idempotency.Result. rewrite Hk. cbn. unfold decode_cert. rewrite Hc. by destruct s1.
Qed.

(** C30: One certificate per key: issuing under a fresh key calls the authority once, with
    the request as the gate saw it, and returns its certificate; the intent and the record
    of the issue are in the outbox; delivering the intent again, any number of times,
    changes nothing; and asking again under the key, with whatever request of the tenant
    passes the gate, returns the same certificate and calls nobody. *)
Theorem external_issue_once dbnow req key (s s1 : State (W := W)) cert w : authority <> "" -> TenantID req <> "" -> int64 (TTL req) = true ->
  gate no_faults req s = (Ok tt, s1) -> ~ has_key (st_db s1) (TenantID req) key ->
  st_keys s1 !! (TenantID req, externalIssueResultKey key) = None ->
  CAIssue (with_provider_key SHA256Hex req key) (provider s1) = (Ok cert, w) -> unmarshalCert (marshalCert cert) = Some cert ->
  exists s2, (forall id attempts, issue no_faults dbnow (Some (drain_one dbnow (issue_message id attempts req key))) req key s = (Ok cert, s2)) /\
    provider s2 = w /\ has_key (st_db s2) (TenantID req) (IssueRecordIdempotencyKey key) /\
    (exists r, r ∈ db_rows (st_db s2) /\ r_tenant r = TenantID req /\ r_key r = key /\ r_destination r = DestinationExternalCAIssue /\
       payload_request (r_payload r) = Some (authority, with_provider_key SHA256Hex req key)) /\
    (forall dbnow' id attempts, handover no_faults dbnow' (issue_message id attempts req key) s2 = (Ok tt, s2)) /\
    (forall dbnow' req' (t t1 : State (W := W)), TenantID req' = TenantID req -> st_db t = st_db s2 -> st_keys t = st_keys s2 -> provider t = provider s2 ->
       gate no_faults req' t = (Ok tt, t1) -> issue no_faults dbnow' None req' key t = (Ok cert, t1) /\ provider t1 = w).
Proof.
  intros Ha Ht Hi Hg Hfresh Hk Hc Hm. destruct (provider_key_fields req key) as (H1 & H2 & _).
  set (db1 := snd (EnqueueIfAbsent dbnow (st_db s1) (intent req key))).
  set (rec := mkEntry (TenantID req) "ca.issue" (IssueRecordIdempotencyKey key) (encode_struct record_fields [VStr (Serial cert); VStr (Issuer cert)])).
  set (s2 := mkState (snd (EnqueueIfAbsent dbnow db1 rec))
               (<[(TenantID req, externalIssueResultKey key) := Idempotency.mkIdem "completed" (Some (marshalCert cert)) (Some dbnow)]> (st_keys s1)) (st_log s1) w : State).
  assert (Hrow : has_key (st_db s2) (TenantID req) key).
  { apply EnqueueIfAbsent_has_key_mono. apply (EnqueueIfAbsent_has_key dbnow (st_db s1) (intent req key)). }
  assert (Hdone : st_keys s2 !! (TenantID req, externalIssueResultKey key) = Some (Idempotency.mkIdem "completed" (Some (marshalCert cert)) (Some dbnow)))
    by (cbn; by rewrite lookup_insert_eq).
  exists s2. split_and!.
  - intros id attempts. rewrite (issue_outbox _ _ _ _ _ _ Ha Hg). unfold issueViaOutbox, enqueue, bind. cbn [f_intent no_faults].
    rewrite H1. change (mkEntry _ _ _ _) with (intent req key). fold db1. unfold drain_one. rewrite deliver_message by done. unfold bind.
    rewrite (once_fresh dbnow _ _ _ _ (mkState db1 (st_keys s1) (st_log s1) (provider s1)) cert w) by done. cbn [st_db st_keys st_log provider ret].
    fold rec. unfold Idempotency.Result. cbn [st_keys]. rewrite lookup_insert_eq. cbn. unfold decode_cert. by rewrite Hm.
  - done.
  - apply EnqueueIfAbsent_has_key.
  - exists (new_row (db_seq (st_db s1)) dbnow (intent req key)). split_and!; [|done..|cbn; apply payload_roundtrip; by rewrite H2].
    assert (Hin1 : new_row (db_seq (st_db s1)) dbnow (intent req key) ∈ db_rows db1).
    { unfold db1. rewrite EnqueueIfAbsent_spec, decide_False by done. cbn. apply elem_of_app. right. by left. }
    cbn. rewrite EnqueueIfAbsent_spec. case_decide; cbn; [done|]. apply elem_of_app. by left.
  - intros dbnow' id attempts. rewrite deliver_message by done. unfold bind. by rewrite (once_done dbnow' _ _ _ _ _ _ _ Hdone).
  - intros dbnow' req' t t1 Hten Hdb Hkeys Hprov Hg'.
    assert (Hsame : st_db t1 = st_db t /\ st_keys t1 = st_keys t /\ provider t1 = provider t).
    { clear -Hg'. revert Hg'. unfold enforceProfile, auditDecision, append_decision, bind, ret, fail.
      repeat case_match; intros Hx; simplify_eq/=; auto. }
    destruct Hsame as (E1 & E2 & E3). split; [|by rewrite E3].
    apply (issue_done dbnow' req' key t t1 cert (Some dbnow)); try done; rewrite Hten; [by rewrite E1, Hdb|]. by rewrite E2, Hkeys.
Qed.

End Spec_.

(** ** What the authority is asked to sign *)

Section Signed.
Context {N : NameLane.NetOps} {NP : Profile.NetipOps} {W : Type}.
Variable CAIssue : IssueRequest -> W -> result string Certificate * W.
Variable InspectCSR : string -> option CSRInfo.
Variable SHA256Hex : string -> string.
Variable marshalCert : Certificate -> string.
Variable unmarshalCert : string -> option Certificate.
Variable has_log : bool.
Variable append_answers : list Decision -> option string.
Variable authority : string.

(** The authority, with the requests it has been called with. *)
Definition Asked : Type := W * list IssueRequest.

Definition logged (req : IssueRequest) (w : Asked) : result string Certificate * Asked :=
  let (r, w') := CAIssue req w.1 in (r, (w', w.2 ++ [req])).

Abbreviation LState := (State (W := Asked)).
Abbreviation Active := (string -> string -> option (Z * option Profile.CertificateProfile)).

Definition asked (s : LState) : list IssueRequest := (provider s).2.

(** A row that a worker hands to this authority. *)
Definition ours (r : Row) (req : IssueRequest) : Prop :=
  r_destination r = DestinationExternalCAIssue /\ payload_request (r_payload r) = Some (authority, req).

Definition handed (attempts : Z) (r : Row) : Message :=
  mkMessage (r_id r) (r_tenant r) (r_destination r) (r_key r) (r_payload r) attempts.

(** What happens beside the callers: a worker delivers a row of the outbox, with any fault;
    or others use the tables, and hand over nothing new to this authority. *)
Inductive work : LState -> LState -> Prop :=
| work_deliver flt dbnow attempts row s r s' :
    authority <> "" -> row ∈ db_rows (st_db s) ->
    DeliverExternalIssue logged SHA256Hex marshalCert authority flt dbnow (handed attempts row) s = (r, s') -> work s s'
| work_others db' keys' log' s :
    (forall row req, row ∈ db_rows db' -> ours row req ->
       exists row0, row0 ∈ db_rows (st_db s) /\ r_tenant row0 = r_tenant row /\ r_key row0 = r_key row /\
         r_destination row0 = r_destination row /\ r_payload row0 = r_payload row) ->
    work s (mkState db' keys' log' (provider s)).

Definition drains (drain : option (M LState string unit)) : Prop :=
  match drain with None => True | Some d => forall s r s', d s = (r, s') -> rtc work s s' end.

(** A run of the service: calls of [Issue], each with the profiles that are active when it
    is made, between and during the work of the others. *)
Inductive service_run (s : LState) : list (Active * IssueRequest) -> LState -> Prop :=
| run_start : service_run s [] s
| run_work tr s1 s2 : service_run s tr s1 -> work s1 s2 -> service_run s tr s2
| run_issue tr s1 profs flt dbnow drain req key r s2 :
    service_run s tr s1 -> drains drain -> int64 (TTL req) = true ->
    Issue logged InspectCSR SHA256Hex marshalCert unmarshalCert profs has_log append_answers authority flt dbnow drain req key s1 = (r, s2) ->
    service_run s (tr ++ [(profs, req)]) s2.

(** The request comes from a call that passed the gate. *)
Definition accepted (tr : list (Active * IssueRequest)) (req : IssueRequest) (key : string) : Prop :=
  exists profs req0, (profs, req0) ∈ tr /\ complies InspectCSR profs req0 /\ req = with_provider_key SHA256Hex req0 key.

Record signed_inv (tr : list (Active * IssueRequest)) (s : LState) : Prop := {
  si_asked req : req ∈ asked s -> exists key, accepted tr req key;
  si_rows row req : authority <> "" -> row ∈ db_rows (st_db s) -> ours row req -> r_tenant row = TenantID req /\ accepted tr req (r_key row)
}.

Lemma accepted_mono tr tr' req key : tr ⊆ tr' -> accepted tr req key -> accepted tr' req key.
Proof. intros Ht (p & r & Hin & H). exists p, r. split; [by apply Ht|done]. Qed.

Lemma signed_mono tr tr' s : tr ⊆ tr' -> signed_inv tr s -> signed_inv tr' s.
Proof.
  intros Ht [Ha Hr]. split.
  - intros req Hin. destruct (Ha req Hin) as [key Hk]. exists key. by eapply accepted_mono.
  - intros row req Hn Hin Ho. destruct (Hr row req Hn Hin Ho). split; [done|by eapply accepted_mono].
Qed.

(** The invariant speaks of the tables and the authority only. *)
Lemma signed_frame tr s s' : st_db s' = st_db s -> provider s' = provider s -> signed_inv tr s -> signed_inv tr s'.
Proof. intros Hd Hp [Ha Hr]. split; unfold asked; rewrite ?Hd, ?Hp; done. Qed.

Lemma enqueue_rows dbnow db e row : row ∈ db_rows (snd (EnqueueIfAbsent dbnow db e)) -> row ∈ db_rows db \/ row = new_row (db_seq db) dbnow e.
Proof.
  rewrite EnqueueIfAbsent_spec. case_decide; cbn; [by left|]. intros [?|Hx]%elem_of_app; [by left|right]. by apply list_elem_of_singleton in Hx.
Qed.

(** Minting asks the authority for its request at most, and writes a record. *)
Lemma mint_signed tr flt dbnow t ik key req k s r s' : accepted tr req k ->
  mint_once logged marshalCert flt dbnow t ik key req s = (r, s') -> signed_inv tr s -> signed_inv tr s'.
Proof.
  intros Hacc Hm [Ha Hr]. unfold mint_once, Idempotency.Do in Hm. destruct (Idempotency.do_claim _ _ _ _) as [r0|].
  { injection Hm as _ <-. by split. }
  destruct (mint logged marshalCert flt dbnow t key req (st_db s, provider s)) as [out [db w]] eqn:Em.
  destruct (Idempotency.do_finish _ _ _ _ _ _) as [r1 k1]. injection Hm as _ <-.
  assert (Hw : w.2 = asked s ++ [req] /\ forall row, row ∈ db_rows db -> row ∈ db_rows (st_db s) \/ r_destination row = "ca.issue").
  { unfold mint, logged in Em. destruct (CAIssue req (provider s).1) as [[cert|e] w0]; [destruct (f_record flt)|]; injection Em as _ <- <-;
      (split; [done|]); intros row Hin; [by left| |by left]. apply enqueue_rows in Hin as [?| ->]; [by left|by right]. }
  destruct Hw as [Hw Hrows]. split; unfold asked; cbn.
  - rewrite Hw. intros q [Hq|Hq]%elem_of_app; [by apply Ha|]. apply list_elem_of_singleton in Hq as ->. by exists k.
  - intros row q Hn Hin Ho. destruct (Hrows row Hin) as [Hin'|Hd]; [by apply Hr|]. destruct Ho as [Hd' _]. by rewrite Hd in Hd'.
Qed.

Lemma deliver_signed tr flt dbnow attempts row s r s' : authority <> "" -> row ∈ db_rows (st_db s) ->
  DeliverExternalIssue logged SHA256Hex marshalCert authority flt dbnow (handed attempts row) s = (r, s') -> signed_inv tr s -> signed_inv tr s'.
Proof.
  intros Hn Hin H HI. unfold DeliverExternalIssue in H. cbn [handed m_Destination m_Payload m_TenantID m_IdempotencyKey] in H.
  destruct (String.eqb_spec (r_destination row) DestinationExternalCAIssue) as [Hd|]; cbn [negb] in H; [|by injection H as _ <-].
  destruct (payload_request (r_payload row)) as [[a req]|] eqn:Ep; [|by injection H as _ <-].
  destruct (String.eqb_spec a authority) as [->|]; cbn [negb] in H; [|by injection H as _ <-].
  destruct (si_rows _ _ HI row req Hn Hin (conj Hd Ep)) as [Ht (profs & req0 & Hq & Hc & Heq)].
  assert (Hsame : (if String.eqb (TenantID req) "" then with_tenant (r_tenant row) req else req) = req).
  { destruct (String.eqb_spec (TenantID req) ""); [|done]. rewrite Ht. unfold with_tenant. by destruct req. }
  rewrite Hsame, Ht, String.eqb_refl in H. cbn [negb] in H.
  assert (Hk : with_provider_key SHA256Hex req (r_key row) = req) by (rewrite Heq; apply provider_key_once).
  rewrite Hk in H. unfold bind in H. destruct (mint_once _ _ _ _ _ _ _ _ s) as [r0 s1] eqn:Em.
  assert (s' = s1) as -> by (by destruct r0; injection H).
  eapply mint_signed; [|exact Em|exact HI]. exists profs, req0. split_and!; [done|done|exact Heq].
Qed.

Lemma work_signed tr s s' : work s s' -> signed_inv tr s -> signed_inv tr s'.
Proof.
  intros [flt dbnow attempts row s1 r s2 Hn Hin H|db' keys' log' s1 Hsub] HI; [by eapply deliver_signed|].
  split; [exact (si_asked _ _ HI)|]. cbn. intros row req Hn Hin Ho.
  destruct (Hsub row req Hin Ho) as (row0 & Hin0 & <- & <- & Hd & Hp). apply (si_rows _ _ HI); [done|done|].
  destruct Ho as [Ho1 Ho2]. split; congruence.
Qed.

Lemma works_signed tr s s' : rtc work s s' -> signed_inv tr s -> signed_inv tr s'.
Proof. induction 1 as [|s1 s2 s3 H _ IH]; [done|]. intros HI. by apply IH, (work_signed _ _ _ H). Qed.

(** Enqueueing the intent of an accepted request. *)
Lemma intent_signed tr flt dbnow req key r s s' : int64 (TTL req) = true -> accepted tr req key ->
  enqueue flt dbnow (mkEntry (TenantID req) DestinationExternalCAIssue key (newExternalIssuePayload authority req)) s = (r, s') ->
  signed_inv tr s -> signed_inv tr s'.
Proof.
  intros Hi Hacc H [Ha Hr]. unfold enqueue in H. destruct (f_intent flt); injection H as _ <-; [by split|]. split; [exact Ha|].
  cbn. intros row q Hn Hin Ho. apply enqueue_rows in Hin as [Hin| ->]; [by apply Hr|]. destruct Ho as [_ Hp]. cbn in Hp.
  rewrite payload_roundtrip in Hp by done. injection Hp as <-. by split.
Qed.

Lemma outbox_signed tr flt dbnow drain req key r s s' : drains drain -> int64 (TTL req) = true -> accepted tr req key ->
  issueViaOutbox unmarshalCert authority flt dbnow drain req key s = (r, s') -> signed_inv tr s -> signed_inv tr s'.
Proof.
  intros Hdr Hi Hacc H HI. unfold issueViaOutbox, bind in H.
  destruct (enqueue flt dbnow _ s) as [r1 s1] eqn:Ee. apply (intent_signed _ _ _ _ _ _ _ _ Hi Hacc Ee) in HI.
  destruct r1 as [[]|e]; [|by injection H as _ <-].
  assert (Hres : forall s2 r', signed_inv tr s2 -> decode_cert unmarshalCert r' s2 = (r, s') -> signed_inv tr s').
  { intros s2 r' H2. unfold decode_cert. by destruct (unmarshalCert r'); intros [= _ <-]. }
  destruct drain as [d|].
  - destruct (d s1) as [[[]|e] s2] eqn:Ed; apply (works_signed _ _ _ (Hdr _ _ _ Ed)) in HI; [|by injection H as _ <-].
    destruct (Idempotency.Result _ _ _); [by eapply Hres|by injection H as _ <-].
  - destruct (Idempotency.Result _ _ _); [by eapply Hres|by injection H as _ <-].
Qed.

Lemma issue_signed tr profs flt dbnow drain req key r s s' : drains drain -> int64 (TTL req) = true ->
  Issue logged InspectCSR SHA256Hex marshalCert unmarshalCert profs has_log append_answers authority flt dbnow drain req key s = (r, s') ->
  signed_inv tr s -> signed_inv (tr ++ [(profs, req)]) s'.
Proof.
  intros Hdr Hi H HI. apply (signed_mono _ (tr ++ [(profs, req)])) in HI; [|set_solver]. unfold Issue, bind at 1 in H.
  destruct (enforceProfile _ _ _ _ _ _ s) as [[[]|e] s1] eqn:Eg.
  - destruct (gate_complies _ _ _ _ _ _ _ _ Eg) as (Hc & Hd & _ & Hp). apply (signed_frame _ _ _ Hd Hp) in HI.
    assert (Hacc : accepted (tr ++ [(profs, req)]) (with_provider_key SHA256Hex req key) key).
    { exists profs, req. split_and!; [set_solver|done|done]. }
    destruct (provider_key_fields SHA256Hex req key) as (_ & Ht & _). cbn zeta in H.
    destruct (String.eqb_spec authority "") as [Ha|Ha]; cbn [negb] in H.
    + unfold bind at 1 in H. unfold recordIntent, enqueue in H. destruct (f_intent flt); [by injection H as _ <-|].
      set (s2 := mkState _ _ _ _) in H.
      assert (HI2 : signed_inv (tr ++ [(profs, req)]) s2) by (split; [exact (si_asked _ _ HI)|done]).
      unfold bind in H. destruct (mint_once _ _ _ _ _ _ _ _ s2) as [r0 s3] eqn:Em.
      apply (mint_signed _ _ _ _ _ _ _ _ _ _ _ Hacc Em) in HI2. destruct r0 as [raw|e]; [|by injection H as _ <-].
      unfold decode_cert in H. by destruct (unmarshalCert raw); injection H as _ <-.
    + eapply outbox_signed; [exact Hdr|by rewrite Ht|exact Hacc|exact H|exact HI].
  - injection H as _ <-. destruct (gate_fails _ _ _ _ _ _ _ _ _ Eg) as (Hd & _ & Hp). by apply (signed_frame _ _ _ Hd Hp).
Qed.

(** C29: what violates its profile is never signed.  Over any run of the service that starts
    with no intent for its authority in the outbox and nothing asked, whatever the faults,
    the deliveries and redeliveries of the outbox, the order of calls, and the profiles
    active at each: every request that the authority is called with is that of a call of
    [Issue], with its provider key filled in, for which, if it named a profile that was
    active then, the profile could be read and did not reject the signing request, if that
    could be parsed.  A request that its profile rejects never reaches the authority, on
    whatever path. *)
Theorem violating_never_signed (s s' : LState) tr :
  asked s = [] -> (forall row req, row ∈ db_rows (st_db s) -> ~ ours row req) -> service_run s tr s' ->
  forall req, req ∈ asked s' -> exists profs req0 key, (profs, req0) ∈ tr /\ req = with_provider_key SHA256Hex req0 key /\
    (ProfileName req0 = "" \/
     match profs (TenantID req0) (ProfileName req0) with
     | None => True
     | Some (_, None) => False
     | Some (_, Some p) => forall info, InspectCSR (CSR req0) = Some info -> Profile.Validate p (profile_request req0 info) = None
     end).
Proof.
  intros Ha Hrow Hr. assert (HI : signed_inv tr s').
  { induction Hr as [|tr s1 s2 _ IH Hw|tr s1 profs flt dbnow drain req key r s2 _ IH Hdr Hi H].
    - split; [rewrite Ha; intros req Hin; by apply elem_of_nil in Hin|]. intros row req _ Hin Ho. by destruct (Hrow row req).
    - by eapply work_signed.
    - by eapply issue_signed. }
  intros req Hin. destruct (si_asked _ _ HI req Hin) as (key & profs & req0 & Hq & Hc & Heq). by exists profs, req0, key.
Qed.

End Signed.
(** ** A small service *)

Definition toy_issue (req : IssueRequest) (n : Z) : result string Certificate * Z := (Ok (mkCertificate (CSR req) "1" 0 "ca"), n + 1).
Definition toy_unmarshal (raw : string) : option Certificate := Some (mkCertificate raw "1" 0 "ca").
Definition toy_profiles (tenant name : string) : option (Z * option Profile.CertificateProfile) := None.
Definition toy_request : IssueRequest := mkIssueRequest "t" "csr" ["a.example.com"] 3600 "" "web" "api" [].
Definition toy_state : State := mkState (mkDB [] 1) ∅ [] 0.
Definition toy_after : State := mkState (mkDB [] 1) ∅ [mkDecision "t" "web" 0 "deny" RNotFound "api"] 0.

(** A profile for ninety days at most: a request for an hour is delivered and signed, one
    for a year is not, and the authority has seen the first alone. *)
Definition toy_profile : Profile.CertificateProfile :=
  Profile.mkProfile "web" 1 false [] 0 0 [] (90 * 24 * 3600 * second) [] "" [] [] [] [].
Definition toy_active (tenant name : string) : option (Z * option Profile.CertificateProfile) := Some (1, Some toy_profile).
Definition toy_csr (csr : string) : option CSRInfo := Some (mkCSRInfo "ECDSA" 256 ["a.example.com"] [] [] [] []).
Definition toy_asks (hours : Z) : IssueRequest := mkIssueRequest "t" "csr" ["a.example.com"] (hours * 3600 * second) "" "web" "api" [].

(** A worker that delivers the first row of the outbox. *)
Definition toy_drain : M (State (W := Asked (W := Z))) string unit := fun s =>
  match db_rows (st_db s) with
  | [] => (Ok tt, s)
  | row :: _ =>
      match DeliverExternalIssue (logged toy_issue) (fun k => k) CertificatePEM "acme" no_faults 6 (handed 1 row) s with
      | (Ok _, s') => (Ok tt, s')
      | (Err _, s') => (Err "deliver", s')
      end
  end.

Lemma toy_drains : drains toy_issue (fun k => k) CertificatePEM "acme" (Some toy_drain).
Proof.
  intros s r s' H. unfold toy_drain in H. cbn beta in H. destruct (db_rows (st_db s)) as [|row l] eqn:Er; [by simplify_eq|].
  destruct (DeliverExternalIssue _ _ _ _ _ _ _ s) as [r0 s1] eqn:Ed. assert (s' = s1) as -> by (destruct r0; by simplify_eq/=).
  apply rtc_once. eapply work_deliver; [discriminate| |exact Ed]. rewrite Er. by left.
Qed.

Definition toy_call (hours : Z) (key : string) (s : State (W := Asked (W := Z))) : result IssueErr Certificate * State :=
  Issue (N := Profile.text_net) (NP := Profile.text_netip) (logged toy_issue) toy_csr (fun k => k) CertificatePEM toy_unmarshal toy_active false (fun _ => None) "acme"
    no_faults 5 (Some toy_drain) (toy_asks hours) key s.

Definition toy_quiet : State (W := Asked (W := Z)) := mkState (mkDB [] 1) ∅ [] (0, []).
Definition toy_signed : State (W := Asked (W := Z)) := (toy_call 1 "k1" toy_quiet).2.
Definition toy_refused : State (W := Asked (W := Z)) := (toy_call 8784 "k2" toy_signed).2.

Lemma toy_run : service_run (N := Profile.text_net) (NP := Profile.text_netip) toy_issue toy_csr (fun k => k) CertificatePEM toy_unmarshal false (fun _ => None) "acme"
  toy_quiet ([] ++ [(toy_active, toy_asks 1)] ++ [(toy_active, toy_asks 8784)]) toy_refused.
Proof.
  eapply (run_issue _ _ _ _ _ _ _ _ _ [(toy_active, toy_asks 1)]); [|exact toy_drains|reflexivity|apply surjective_pairing].
  eapply (run_issue _ _ _ _ _ _ _ _ _ []); [apply run_start|exact toy_drains|reflexivity|apply surjective_pairing].
Qed.

Lemma violating_never_signed_witness :
  asked toy_refused = [with_provider_key (fun k => k) (toy_asks 1) "k1"] /\
  exists profs req0 key, (profs, req0) ∈ [] ++ [(toy_active, toy_asks 1)] ++ [(toy_active, toy_asks 8784)] /\
    with_provider_key (fun k => k) (toy_asks 1) "k1" = with_provider_key (fun k => k) req0 key /\
    (ProfileName req0 = "" \/
     match profs (TenantID req0) (ProfileName req0) with
     | None => True
     | Some (_, None) => False
     | Some (_, Some p) => forall info, toy_csr (CSR req0) = Some info ->
         Profile.Validate (N := Profile.text_net) (NP := Profile.text_netip) p (profile_request req0 info) = None
     end).
Proof.
  assert (Ha : asked toy_refused = [with_provider_key (fun k => k) (toy_asks 1) "k1"]) by (vm_compute; reflexivity).
  split; [exact Ha|].
  destruct (violating_never_signed (N := Profile.text_net) (NP := Profile.text_netip) toy_issue toy_csr (fun k => k) CertificatePEM toy_unmarshal false (fun _ => None) "acme"
    toy_quiet toy_refused _ eq_refl (fun row req Hin => match not_elem_of_nil row Hin with end) toy_run (with_provider_key (fun k => k) (toy_asks 1) "k1"))
    as (profs & req0 & key & Hin & Heq & Hp); [rewrite Ha; by left|].
  exists profs, req0, key. split_and!; [exact Hin|exact Heq|exact Hp].
Defined.

(** The named profile does not exist, a denial is on record, and the certificate is issued. *)
Lemma external_issue_once_witness : exists s2,
  Issue (N := Profile.text_net) (NP := Profile.text_netip) toy_issue (fun _ => None) (fun k => k) CertificatePEM toy_unmarshal toy_profiles true (fun _ => None) "acme"
    no_faults 5 (Some (drain_one toy_issue (fun k => k) CertificatePEM "acme" 5 (issue_message (fun k => k) "acme" 1 0 toy_request "key"))) toy_request "key" toy_state
  = (Ok (mkCertificate "csr" "1" 0 "ca"), s2) /\ provider s2 = 1 /\ st_log toy_after = [mkDecision "t" "web" 0 "deny" RNotFound "api"].
Proof.
  destruct (external_issue_once (N := Profile.text_net) (NP := Profile.text_netip) toy_issue (fun _ => None) (fun k => k) CertificatePEM toy_unmarshal toy_profiles true
    (fun _ => None) "acme" 5 toy_request "key" toy_state toy_after (mkCertificate "csr" "1" 0 "ca") 1) as (s2 & Hi & Hp & _).
  - discriminate.
  - discriminate.
  - reflexivity.
  - reflexivity.
  - intros (r & Hr & _). by apply elem_of_nil in Hr.
  - reflexivity.
  - reflexivity.
  - reflexivity.
  - exists s2. split; [apply Hi|]. split; [exact Hp|reflexivity].
Defined.

End IssuanceSpec.
